(* ===== verification/_CoqProject ===== *)
-Q . S2P
Prelude.v
Location.v
Trie.v
TrieSpec.v
TrieOps.v
TrieHash.v
KVTrie.v
TrieMap.v
TrieRefinement.v
TrieCanon.v
TrieShared.v
TrieRehash.v
TrieClaims.v
TxQueue.v
TxQueueSpec.v
TxQueueProps.v
TxQueueClaims.v
TxSet.v
PbftMsg.v
Pbft.v
PbftQuorum.v
PbftHandlers.v
PbftInv.v
PbftGo.v
PbftStore.v
PbftClaims.v
SafeInt.v
Strings.v
Base58.v
AtomMap.v
Account.v
Hex.v
LedgerMsg.v
KeyFormat.v
Environment.v
Operation.v
TransactionFrm.v
Contract.v
LedgerFrm.v
LedgerLogic.v
LedgerInv.v
ExecInv.v
ContractInv.v
LedgerSpec.v
LedgerView.v
LedgerBlock.v
LedgerRefine.v
LedgerSafe.v
LedgerIsolation.v
LedgerCoins.v
LedgerDemo.v
LedgerClaims.v
LedgerCommit.v
LedgerStore.v
LedgerStoreDemo.v
ChainMsg.v
Chain.v
ChainDb.v
ChainInv.v
UpgradeVote.v
Glue.v
ChainStart.v
ChainRun.v
ChainLife.v
ChainTidy.v
ChainClaims.v
GlueClaims.v
HardFork.v
ChainDemo.v
Broadcast.v
Flood.v
PeerTable.v
PeerNetwork.v
PeerNetworkInv.v
PeerNetworkRun.v
OverlayClaims.v
OverlayDemo.v
Pool.v
Timer.v
