(* ===== verification/Prelude.v ===== *)
(** * Verification of the CEG node

    CEG is a permissioned blockchain node written in C++ (src/src).  This library models
    its own core logic and proves what makes it correct; vendored code (src/src/3rd) and
    generated code (src/src/proto) are not modelled.

    ** The program and its parts

    - The _state trie_ (src/src/ledger/trie.cpp, kv_trie.cpp): accounts, account metadata
      and assets are kept in a 16-way Patricia trie over a key-value store; its root hash
      goes into the block header.
    - The _transaction queue_ (src/src/glue/transaction_queue.cpp, transaction_set.cpp):
      pending transactions, by priority, by arrival, by account and nonce and by hash;
      it proposes the transactions of the next block.
    - The _consensus_ (src/src/consensus): a PBFT replica that agrees on the sequence of
      blocks and produces the proof that travels with each block.
    - The _ledger_ (src/src/ledger): accounts, the environments that buffer their changes,
      operations, transactions with fees, gas and signatures, and the execution of blocks
      by a proposer, a checker and a follower.
    - _Contracts_ (src/src/contract): JavaScript run by V8, which calls back into the ledger
      and makes nested transactions ([LedgerManager::DoTransaction]).
    - _Keys_ (src/src/common/private_key.cpp): the texts of addresses and keys.
    - _Utilities_ (src/src/utils): checked arithmetic, number, hexadecimal and base-58 text,
      and the transactional map under the environments.
    - The _ledger manager_ (src/src/ledger/ledger_manager.cpp, ledgercontext_manager.cpp):
      the chain of blocks in the databases, start and repair, closing, synchronisation.
    - The _glue_ (src/src/glue/glue_manager.cpp, ledger_upgrade.cpp), which drives proposals
      and checks values.
    - The _overlay network_ (src/src/overlay, src/src/common/network.cpp): connections between
      nodes, the greeting by which they become peers, the table of known addresses, and the
      relaying of messages.
    - The API, the monitor and the tools, around this core.

    The glue takes the transactions of the queue, proposes them through the consensus,
    executes the agreed value on the ledger, which writes the tries, and removes the
    executed transactions from the queue.

    ** The files

    - [Prelude] (this file): bytes, faults and the result monad, machine integers,
      tactics, the hint database [ceg] and lemmas on lists.
    - [Location]: the packed nibble paths of the trie ([Trie::CommonPrefix],
      [Trie::NextBranch], [Trie::Key2Location]) and their meaning, [path].
    - [Trie]: [NodeFrm] and the members of [Trie], over a class [TrieStorage] that states
      the virtual storage members; [TrieSpec]: what nodes and database records stand for
      and the invariant [wf_node]; [TrieOps]: [SetItem] and [DeleteItem]; [TrieHash]:
      [update_hash]; [KVTrie]: the storage of kv_trie.cpp, an instance of the class with
      its laws; [TrieMap]: lookup, eviction and loading; [TrieRefinement]: the trie
      refines a finite map; [TrieCanon]: the root hash identifies the map; [TrieShared]:
      tries under different prefixes that share a database and a write batch; [TrieClaims]:
      locations, and deletion of absent keys.
    - [TxQueue]: [TransactionQueue], with the two multisets over a class [Multiset] that
      leaves open where an element is placed when the order is not consistent;
      [TxQueueSpec]: its invariant; [TxQueueProps]: its operations; [TxQueueClaims]: runs
      of operations and the main theorems; [TxSet]: [TransactionSetFrm] and [TopicKey].
    - [PbftMsg]: messages, instances and view-change instances; [Pbft]: the replica, its
      message constructors and checks; [PbftHandlers]: its handlers; [PbftQuorum]: quorum
      arithmetic and [CheckProof]; [PbftInv]: the invariant of a replica; [PbftGo]:
      termination of the message loop; [PbftClaims]: runs of a replica; [PbftStore]: the
      validators on disk.
    - [SafeInt] (utils/base_int.h), [Strings] and [Hex] (utils/strings.h), [Base58]
      (utils/crypto.cpp), [AtomMap] (utils/atom_map.h, with its shared pointers as addresses
      of a heap), [Timer] (utils/timer.cpp); [KeyFormat] (common/private_key.cpp).
    - [Account]: [AccountFrm]; [LedgerMsg]: operations, transactions, contract scripts, the
      class [LedgerHost] of what comes from outside (signatures, hashes, addresses, V8, the
      clock) and the record [Globals] of the last closed ledger and the configuration;
      [Environment]: the context of a block and [Environment]; [Operation]: [OperationFrm];
      [TransactionFrm]; [Contract]: [ContractManager] ([Execute] and [Query]), the callbacks
      of [V8Contract] and [DoTransaction]; [LedgerFrm]: [ApplyPropose], [ApplyCheck], [ApplyFollow], rewards.
    - [LedgerLogic]: weakest preconditions for the monad of the ledger; [LedgerInv],
      [ExecInv], [ContractInv], [LedgerSafe], [LedgerIsolation]: the invariant of execution
      with arbitrary contracts; [LedgerSpec]: the abstract ledger, a finite map of accounts;
      [LedgerView], [LedgerBlock], [LedgerRefine]: the code implements it for blocks
      without contracts; [LedgerCoins]: sums of balances; [LedgerDemo]: small ledgers, two
      runs that go wrong and a contract that queries itself; [LedgerClaims]: the theorems on blocks.
    - [LedgerCommit]: [AccountFrm::UpdateHash], [LedgerFrm::Commit] and the account database
      in [CloseLedger], over the tries of [KVTrie], and that they implement an update of
      finite maps; [LedgerStore]: the theorems on it; [LedgerStoreDemo]: a run in which two
      spellings of one address meet on disk.
    - [ChainMsg]: headers, consensus values, the databases, the texts and codecs (the class
      [ChainCodec] with its laws) and the executions of a block; [Chain]: [LedgerManager]
      ([Initialize], [CloseLedger], [OnConsent], synchronisation) and the checks of
      [GlueManager]; [ChainDb]: reading and writing its databases; [ChainInv]: the invariant
      [chain_ok] of the chain, kept by closing a block; [UpgradeVote]: [LedgerUpgrade];
      [Glue]: [GlueManager] and the steps of a running node; [ChainStart]: the genesis block
      and starts; [ChainRun]: runs; [ChainLife]: lives of a node, with crashes between the
      writes of a block and restarts; [ChainTidy]: lives in which executions leave no two
      spellings of one address; [ChainClaims], [GlueClaims]: the theorems; [HardFork]:
      [CreateHardforkLedger]; [ChainDemo]: a network of one codec on which they are applied.
    - [Pool]: [GlueManager::OnTransaction] and the timer of the glue, the ledger's check of a
      transaction in front of the queue.
    - [Broadcast] (overlay/broadcast.cpp): which connection gets which message; [Flood]: votes
      for upgrades that travel through a network of nodes; [PeerTable]: the table of known
      addresses in the database (overlay/peer_network.cpp); [PeerNetwork]: connections, the
      handlers of their events and messages, the check of the event loop and the timer
      (common/network.cpp, overlay/peer.cpp, overlay/peer_network.cpp); [PeerNetworkInv]: the
      invariant [net_ok]; [PeerNetworkRun]: every step keeps it; [OverlayClaims]: the theorems;
      [OverlayDemo]: two nodes that meet, and a check that comes late.

    ** Conventions

    A definition has the name of the C++ function it models.  A function that can fault
    returns [res]: a fault stands for undefined behaviour, an uncaught exception or
    [PROCESS_EXIT].  State is passed explicitly; [PbftObj] is the object [Pbft] with its
    base class, and the calls it makes to the network, the ledger and the timers are
    recorded as [event]s.  Integers are kept at their width where the code computes with
    sizes, nonces and [char]s ([u64], [u32], [i64], [schar]); the comparison of gas prices
    is computed in double precision ([price_bump]).  What the code takes from outside
    (hash, signatures, protobuf encoding, clock, database, byte sizes) is a parameter.

    Recursion that is not structural has fuel: [path_fuel] bounds the depth of the trie by
    the length of the location searched, [go_fuel] bounds the message loop by the number
    of buffered messages, and the loops of the queue by its size.  [exec_fuel] is 6: a
    contract runs, or is queried, with at most [CONTRACT_MAX_RECURSIVE_DEPTH] = 4 transactions
    on the stack and one more level is entered to be refused, as of ledger version 1002.  The
    theorems show that the bounds are never reached ([blocks_within_fuel] from that version
    on; before it queries and delegate calls have no depth limit).

    A contract is a [prog], a tree of callbacks whose next step depends on their answers:
    any deterministic script that ends is one, and theorems on contracts hold for all of
    them.  Every function of the node that a script can call and that reads or changes the
    ledger or counts steps is a callback; the other functions (64-bit arithmetic, [assert],
    [addressCheck], [log]) are part of the script.  The clock is a function of the number of
    readings.

    The files of the chain take the execution of a block as an argument [Do], from the state of
    the manager and a value to the changed accounts and the transactions, because the theorems
    there hold for any execution; [LedgerFrm] models the real ones.  [StartConsensus] has fuel
    for its attempts, one more than it has transactions, which is enough when a single
    transaction executes in time; the repair at the start is compiled out on Linux, which is
    the argument [os_linux].

    ** What is proved

    - Trie: any sequence of sets, deletes, commits, gets, evictions and restarts, the last
      three only when all changes are committed, behaves as a finite map, without a fault
      ([trie_refines_map]); the root hash depends only on
      the map ([root_hash_canonical]) and, up to collisions of the hash, determines it
      ([root_hash_binding]); packed locations implement nibble paths
      ([common_prefix_longest], [next_branch_total]).
    - Queue: any sequence of operations runs without a fault and keeps the four indexes
      consistent and within their limits ([queue_run_good]); imports, timeouts, selection
      and replacement do what they promise ([Import_spec], [CheckTimeoutAndDel_spec],
      [TopTransaction_contiguous], [price_bump_exact], [Add_contiguous]).
    - Chain: at every moment of the life of a node, over crashes and restarts, its chain is
      complete, linked and certified ([certified_chain]) and its blocks are final
      ([blocks_are_final]); a restart after a crash finds the state of the last finished block
      ([restart_restores]), but not on Linux ([crash_without_repair]); closing a block
      implements an update of the accounts, and the header names the result
      ([closed_block_commits]).  These three are about lives in which every execution left its
      accounts under valid addresses and no two of them under spellings of one address
      ([tidy]): with aliases the statements fail ([alias_payment_order_decides]).  In a life
      ([node_life]) a crash is followed by a start that repairs the sequence number.  The hash of a block determines the chain below it
      ([hash_determines_chain]), and a fork exposes more than a third of the validators of the
      last common block ([fork_exposes_faulty]).  The hypotheses: the hash of texts is
      injective, the codecs read back what they wrote, block numbers stay below 2^63, the
      configured genesis accounts are valid.
    - Glue: what a leader proposes is supported by every node with the same last block, if it
      is not too large, names no new validator and its closing time is at most a second ahead
      of that node ([honest_leader_supported]), and nodes decide alike ([checks_agree]); a leader does
      propose ([leader_proposes]), unless one transaction is too slow
      ([slow_transaction_loops]); what is served to a peer is accepted by it
      ([served_values_accepted]); an upgrade needs a quorum of validators whose last signed
      and current vote is for it ([upgrade_needs_quorum]); the block of the hard-fork tool is
      the one that nodes with the same last block close ([hardfork_block_agrees]); every transaction of the pool, and so of a proposal,
      passed the check of the ledger when it came in ([pool_holds_checked]).
    - Consensus: quorums intersect ([quorum_intersection]); [CheckProof] accepts exactly
      quorum certificates ([CheckProof_sound], [CheckProof_complete]) and two proofs for
      different values expose faulty validators ([conflicting_proofs_expose]); whatever a
      replica receives and however its validators change ([UpdateValidators], after every
      block), it executes only values certified by validators in force, in order
      ([run_executes_certified]), in agreement with other replicas ([executions_agree]);
      timers, proposals, view changes and changes of validators do not fault while there are
      validators ([off_phase_never_faults]), message handling
      ends ([OnRecv_terminates]) and validators survive a restart ([validators_roundtrip]).
    - Overlay: in every run of a node, whatever the others send, active connections are to
      different nodes, and the table of peers has one record for an address, stays within its
      limit and marks as active only what is connected ([overlay_run_sound]); no message and no
      check that is on time faults ([overlay_never_faults]); nodes that may be peers become
      peers ([greeting_completes]).  A message goes at most once over a connection, and to all
      but the connection 0 ([relays_once]), records of messages are dropped after an hour if
      the clock moves between any two steps ([timer_drops_old]), a vote
      reaches every connected node ([vote_reaches_everyone]) and then the network is quiet
      ([flood_ends]).  The hypotheses: the texts of addresses and the table are read back, the
      database can be read and written, the library gives every connection a new handle and
      calls its open handler before its messages, the clock does not go back, and the check of
      the event loop comes within fifty seconds of the one before.
    - Ledger, blocks without contracts: following a block computes exactly the accounts of
      the abstract ledger ([ApplyFollow_refines_spec_block]); a block accepted by a checker
      has the same result on every follower ([accepted_block_followed]); the proposal of an
      honest leader is accepted ([honest_proposal_accepted]); a block creates exactly its
      reward ([accepted_block_coins], when the supply fits 64 bits).  The hypotheses are
      that no account on disk and no operation of the block has contract code, that the
      addresses in operations and of validators are spelled as [EncodeAddress] spells them
      (the disk knows accounts by their decoded address, see below), and for acceptance that
      the clock makes no long pauses.
    - Accounts on disk: sequences of blocks implement updates of finite maps
      ([closed_blocks_refine_disk]), the order of the entries of a block does not matter
      ([commit_order_irrelevant]), and what was written is read back
      ([closed_block_read_back]); the entries must have different decoded addresses of 27
      bytes, which addresses of keys have ([key_texts_roundtrip]).
    - Ledger, arbitrary contracts: a failed transaction leaves only its fee and nonce, in the
      accounts and in the settings ([failed_transaction_fee_and_nonce]); balances stay in range
      ([checked_block_balances]); execution stays within the fuel ([blocks_within_fuel]);
      signatures are counted by weight ([SignerHashPriv_weight]).
    - Utilities: a transactional map is a stack of maps ([atom_run_refines]); numbers,
      hexadecimal text and keys are read back ([SafeStoi64_canonical],
      [hex_strict_roundtrip], [key_texts_roundtrip]); checked arithmetic is exact
      ([SafeInt_exact]); timers fire once and in time ([timer_fires_once]).
    - Deviations: addresses have other spellings that are accepted ([address_has_alias]) and
      then overwrite each other on disk ([alias_payment_order_decides]); the addresses of the
      system contracts are not valid ([system_addresses_invalid]); a frame of a contract restores an account that an earlier transaction of
      the block changed ([stale_frame_restores_account]), a limit that a script can catch
      splits checkers from followers ([caught_limit_divergence]), an instance used after it is erased ([commit_erases_running_instance]),
      view changes that are not checked ([unsigned_view_changes_accepted]), a proof spoilt
      by one stray commit ([stray_commit_spoils_proof]), a priority order that becomes
      stale ([stale_order_hides_transaction]), a deletion that reports success for an
      absent key ([delete_absent_reports_true]), an object that a late check deletes twice
      ([late_check_deletes_twice]), a record of a message that is never dropped
      ([same_tick_record_stays]), a first connection that is taken for told
      ([first_connection_untold]) and a timer that fires although it was deleted in the same
      check ([deleted_timer_fires]).

    ** Not modelled

    [GetModuleStatus] and other status output, logging, and the locks: each entry point
    of a component holds its lock for its whole body, so it is one atomic step here.
    [GetAll] and [GetNode] of the trie are defined, without theorems.  Agreement across
    view changes is stated as what the certificates show, not as a proof of the
    view-change protocol.  Of the ledger: [Cancel] from another thread, error texts, and the
    test contexts of the debugging interface.  Of the glue: members that only
    forward.  Of contracts: JavaScript itself, with the library files that [include] loads,
    and the logs.  Of the overlay: TLS, and what another thread does
    between two locked parts of one handler (the handlers are atomic here).  Sockets, the HTTP
    interface, the command line tools, the monitor and the notary are input and output around
    this core.

    ** Plan

    What is left of the core: the chain with the executions of [LedgerFrm] as [Do], where the
    two models of values and accounts would have to be joined, and handlers of the overlay that
    are interrupted between their locked parts.  basen.h and entry_cache.h are not used. *)
From Stdlib Require Import ZArith Lia.
From stdpp Require Import base gmap list sorting strings countable option.
From Stdlib Require Init.Byte Strings.Byte.

(** ** Notations of the development *)

Declare Scope ceg_scope.
Delimit Scope ceg_scope with ceg.

(** A [std::string] holding binary data: a list of bytes. *)
Abbreviation byte := Init.Byte.byte.
Abbreviation bytes := (list Init.Byte.byte).

Definition str (s : string) : bytes := String.list_byte_of_string s.

#[global] Instance byte_eq_decision : EqDecision byte := Strings.Byte.byte_eq_dec.
#[global] Program Instance byte_countable : Countable byte :=
  inj_countable Strings.Byte.to_N Strings.Byte.of_N _.
Next Obligation. intros b. apply Strings.Byte.of_to_N. Qed.
#[global] Instance byte_inhabited : Inhabited byte := populate Init.Byte.x00.

(** ** Faults: the ways a call can fail to return normally

    [ProcessExit] is the [PROCESS_EXIT] macro, [OutOfRange] is [std::out_of_range]
    (or an out-of-range index of a fixed array or repeated field), [NullDeref] a null pointer, an
    iterator that points nowhere or an object that was deleted, [DivByZero] a [%] with a zero
    right operand, [OutOfFuel] means that the recursion bound of the model was reached: the
    theorems show that it is not. *)
Inductive fault := ProcessExit | OutOfRange | NullDeref | DivByZero | OutOfFuel.

Inductive res (A : Type) := Ok (a : A) | Err (e : fault).
Arguments Ok {_} a.
Arguments Err {_} e.

#[global] Instance res_ret : MRet res := λ A a, Ok a.
#[global] Instance res_bind : MBind res :=
  λ A B f m, match m with Ok a => f a | Err e => Err e end.
#[global] Instance res_fmap : FMap res :=
  λ A B f m, match m with Ok a => Ok (f a) | Err e => Err e end.

(** [v.at(i)], [repeated.children(i)]: an index out of range is a fault. *)
Definition at_ {A} (l : list A) (i : nat) : res A :=
  match l !! i with Some a => Ok a | None => Err OutOfRange end.

Lemma at_Some {A} (l : list A) i a : l !! i = Some a → at_ l i = Ok a.
Proof. unfold at_. by intros ->. Qed.

Lemma at_inv {A} (l : list A) i a : at_ l i = Ok a → l !! i = Some a.
Proof. unfold at_. destruct (l !! i); naive_solver. Qed.

Lemma bind_Ok_inv {A B} (m : res A) (f : A → res B) b :
  (m ≫= f) = Ok b → ∃ a, m = Ok a ∧ f a = Ok b.
Proof. destruct m; cbn; naive_solver. Qed.

(** ** Fixed-width integers *)

Definition u64 (z : Z) : Z := z `mod` 2 ^ 64.
Definition u32 (z : Z) : Z := z `mod` 2 ^ 32.
Definition i64 (z : Z) : Z := (z + 2 ^ 63) `mod` 2 ^ 64 - 2 ^ 63.

Lemma u32_small z : (0 ≤ z < 2 ^ 32)%Z → u32 z = z.
Proof. intros. by apply Z.mod_small. Qed.

Lemma u64_small z : (0 ≤ z < 2 ^ 64)%Z → u64 z = z.
Proof. intros. by apply Z.mod_small. Qed.

Lemma u64_range z : (0 ≤ u64 z < 2 ^ 64)%Z.
Proof. by apply Z.mod_pos_bound. Qed.

Lemma i64_small z : (- 2 ^ 63 ≤ z < 2 ^ 63)%Z → i64 z = z.
Proof. intros. unfold i64. rewrite Z.mod_small; lia. Qed.

(** The value of a [char] (signed on the platforms the program is built for). *)
Definition uchar (b : byte) : Z := Z.of_N (Strings.Byte.to_N b).
Definition schar (b : byte) : Z := if decide (uchar b < 128)%Z then uchar b else (uchar b - 256)%Z.
(** Conversion of an [int] to [char]: the low eight bits. *)
Definition to_char (z : Z) : byte := default Init.Byte.x00 (Strings.Byte.of_N (Z.to_N (z `mod` 256))).

Section double.
Local Open Scope Z_scope.

(** ** Double precision

    A finite double is [m * 2^e]; [rnd53] rounds to 53 bits, ties to even. *)
Definition double : Type := Z * Z.

Definition rnd53 (d : double) : double :=
  let '(m, e) := d in
  let n := Z.log2 (Z.abs m) + 1 in
  if n <=? 53 then d else
  let s := n - 53 in
  let q := Z.abs m / 2 ^ s in
  let r := Z.abs m mod 2 ^ s in
  let h := 2 ^ (s - 1) in
  let q := if r <? h then q else if h <? r then q + 1 else if Z.even q then q else q + 1 in
  (Z.sgn m * q, e + s).

Definition double_of_int (z : Z) : double := rnd53 (z, 0).
Definition double_mul (a b : double) : double := rnd53 (a.1 * b.1, a.2 + b.2).
Definition double_ge (a b : double) : bool :=
  let e := Z.min a.2 b.2 in b.1 * 2 ^ (b.2 - e) <=? a.1 * 2 ^ (a.2 - e).
Definition double_add (a b : double) : double :=
  let e := Z.min a.2 b.2 in rnd53 (a.1 * 2 ^ (a.2 - e) + b.1 * 2 ^ (b.2 - e), e).
(** Division by a power of two, and the conversion to an integer. *)
Definition double_shift (a : double) (k : Z) : double := (a.1, a.2 - k).
Definition double_to_int (a : double) : Z :=
  if a.2 <? 0 then Z.quot a.1 (2 ^ (- a.2)) else a.1 * 2 ^ a.2.

(** The rounding of a nonnegative [m * 2^e] is the nearest [k * 2^(e+s)]. *)
Lemma rnd53_near m e : 0 ≤ m →
  ∃ k s, rnd53 (m, e) = (k, e + s) ∧ 0 ≤ s ∧ 2 * Z.abs (m - k * 2 ^ s) ≤ 2 ^ s ∧
    (s = 0 → k = m ∧ m < 2 ^ 53) ∧ (0 < s → 2 ^ (52 + s) ≤ m < 2 ^ (53 + s)).
Proof.
  intros Hm. unfold rnd53. destruct (Z.leb_spec (Z.log2 (Z.abs m) + 1) 53) as [Hn|Hn];
    rewrite Z.abs_eq in * by done.
  { exists m, 0. split; [f_equal; lia|]. rewrite Z.mul_1_r, Z.sub_diag. split_and!; try done; try lia.
    intros _. split; [done|]. destruct (Z.eq_dec m 0) as [->|]; [done|]. apply Z.log2_lt_pow2; lia. }
  assert (0 < m) as Hpos by (destruct (Z.eq_dec m 0) as [->|]; [done|lia]).
  set (s := Z.log2 m + 1 - 53). pose proof (Z.log2_spec m Hpos) as [L1 L2].
  set (k := m / 2 ^ s). set (r := m mod 2 ^ s).
  assert (2 ^ s = 2 * 2 ^ (s - 1)) as Es.
  { rewrite <- Z.pow_succ_r by (unfold s; lia). f_equal. lia. }
  assert (0 < 2 ^ s) as Hps by (apply Z.pow_pos_nonneg; unfold s; lia).
  assert (m = 2 ^ s * k + r ∧ 0 ≤ r < 2 ^ s) as [Eq Er].
  { split; [apply Z.div_mod; lia|apply Z.mod_pos_bound; lia]. }
  assert (Z.sgn m = 1) as -> by (by apply Z.sgn_pos).
  eexists _, s. split; [by rewrite Z.mul_1_l|]. split; [unfold s; lia|]. split.
  - clearbody k r s. clear L1 L2 Hn. subst m.
    destruct (Z.ltb_spec r (2 ^ (s - 1))); [|destruct (Z.ltb_spec (2 ^ (s - 1)) r); [|destruct (Z.even k)]]; lia.
  - split; [unfold s; lia|]. intros _. replace (52 + s) with (Z.log2 m) by (unfold s; lia).
    replace (53 + s) with (Z.succ (Z.log2 m)) by (unfold s; lia). lia.
Qed.

Lemma double_of_int_small z : Z.abs z < 2 ^ 53 → double_of_int z = (z, 0).
Proof.
  intros Hz. unfold double_of_int, rnd53. destruct (Z.leb_spec (Z.log2 (Z.abs z) + 1) 53) as [|Hn]; [done|].
  exfalso. destruct (Z.eq_dec z 0) as [->|]; [by vm_compute in Hn|].
  assert (Z.log2 (Z.abs z) < 53); [|lia]. apply Z.log2_lt_pow2; lia.
Qed.

End double.

(** ** Tactics *)

(** Invert every successful monadic step of the context. *)
Ltac invert_ok :=
  repeat match goal with
  | H : (?m ≫= _) = Ok _ |- _ =>
      let a := fresh "a" in let E := fresh "E" in
      apply bind_Ok_inv in H as (a & E & H)
  | H : at_ _ _ = Ok _ |- _ => apply at_inv in H
  | H : mret _ = Ok _ |- _ => unfold mret, res_ret in H
  | H : Ok _ = Ok _ |- _ => injection H as H; subst
  | H : Err _ = Ok _ |- _ => discriminate H
  end.

(** Case analysis on the innermost [match] or [if] of a hypothesis. *)
Ltac case_in H :=
  match type of H with
  | context [match ?x with _ => _ end] =>
      lazymatch x with
      | context [match _ with _ => _ end] => fail
      | _ => let E := fresh "E" in destruct x eqn:E
      end
  end.

Ltac split_all := repeat match goal with |- _ ∧ _ => split | |- _ ↔ _ => split end.

Create HintDb ceg discriminated.
#[export] Hint Resolve at_Some : ceg.

(** ** Lists *)

Section lists.
Context {A : Type}.
Implicit Types l k : list A.

Lemma lookup_insert_list l i j x :
  i < length l → <[i:=x]> l !! j = if decide (i = j) then Some x else l !! j.
Proof.
  intros Hi. case_decide as E; [subst; by apply list_lookup_insert_eq|].
  by apply list_lookup_insert_ne.
Qed.

Lemma prefix_snoc_inv (p l : list A) x y :
  p ++ [x] `prefix_of` l → p ++ [y] `prefix_of` l → x = y.
Proof. intros [k ->] [k' H]. rewrite <- !app_assoc in H. by simplify_list_eq. Qed.

Lemma prefix_lookup_snoc (p l : list A) x :
  p `prefix_of` l → l !! length p = Some x → p ++ [x] `prefix_of` l.
Proof.
  intros [k ->] H. rewrite lookup_app_r, Nat.sub_diag in H by done.
  destruct k as [|y k]; simplify_eq/=. exists k. by rewrite <- app_assoc.
Qed.

Lemma prefix_proper_lookup (p l : list A) :
  p `prefix_of` l → p ≠ l → ∃ x, l !! length p = Some x ∧ p ++ [x] `prefix_of` l.
Proof.
  intros [[|x k] ->] Hne; [by rewrite app_nil_r in Hne|].
  exists x. split.
  - by rewrite lookup_app_r, Nat.sub_diag by done.
  - exists k. by rewrite <- app_assoc.
Qed.

Lemma prefix_antisym (p l : list A) : p `prefix_of` l → l `prefix_of` p → p = l.
Proof.
  intros [k ->] [k' H]. rewrite <- app_assoc in H.
  assert (length (k ++ k') = 0) as Hl.
  { apply (f_equal length) in H. rewrite !length_app in *. lia. }
  destruct k; [by rewrite app_nil_r|done].
Qed.

Lemma filter_all (P : A → Prop) `{∀ x, Decision (P x)} l : (∀ x, x ∈ l → P x) → filter P l = l.
Proof.
  induction l as [|x l IH]; intros Hl; [done|]. rewrite filter_cons, decide_True by (apply Hl; by left).
  f_equal. apply IH. intros y Hy. apply Hl. by right.
Qed.

Lemma filter_none (P : A → Prop) `{∀ x, Decision (P x)} l : (∀ x, x ∈ l → ¬ P x) → filter P l = [].
Proof.
  induction l as [|x l IH]; intros Hl; [done|]. rewrite filter_cons, decide_False by (apply Hl; by left).
  apply IH. intros y Hy. apply Hl. by right.
Qed.

Lemma sorted_sublist (R : relation A) l k :
  l `sublist_of` k → StronglySorted R k → StronglySorted R l.
Proof.
  induction 1 as [|x l k Hs IH|x l k Hs IH]; intros Hk; [done|..].
  - apply StronglySorted_inv in Hk as [Hk Hx]. constructor; [auto|].
    rewrite list.Forall_forall in *. intros y Hy. apply Hx. by eapply elem_of_sublist.
  - apply StronglySorted_inv in Hk as [Hk _]. auto.
Qed.
End lists.

(** ** [std::map] with integer keys: its entries in ascending order *)

Definition key_le {A} (x y : Z * A) : Prop := (x.1 ≤ y.1)%Z.
#[global] Instance key_le_dec {A} : RelDecision (@key_le A).
Proof. intros x y. unfold key_le. apply _. Defined.
#[global] Instance key_le_total {A} : Total (@key_le A).
Proof. intros x y. unfold key_le. lia. Qed.
#[global] Instance key_le_trans {A} : Transitive (@key_le A).
Proof. intros x y z. unfold key_le. lia. Qed.

Definition in_key_order {A} (m : gmap Z A) : list (Z * A) := merge_sort key_le (map_to_list m).

Lemma elem_of_in_key_order {A} (m : gmap Z A) k x : (k, x) ∈ in_key_order m ↔ m !! k = Some x.
Proof. unfold in_key_order. rewrite merge_sort_Permutation. apply elem_of_map_to_list. Qed.

Lemma in_key_order_sorted {A} (m : gmap Z A) : StronglySorted key_le (in_key_order m).
Proof. apply StronglySorted_merge_sort; apply _. Qed.

Lemma in_key_order_keys {A} (m : gmap Z A) : NoDup (in_key_order m).*1.
Proof. unfold in_key_order. rewrite merge_sort_Permutation. apply NoDup_fst_map_to_list. Qed.

Lemma in_key_order_length {A} (m : gmap Z A) : length (in_key_order m) = base.size m.
Proof. unfold in_key_order. rewrite merge_sort_Permutation. apply length_map_to_list. Qed.

#[export] Hint Resolve prefix_lookup_snoc : ceg.
