(* ===== verification/Location.v ===== *)
(** * Trie locations (src/src/ledger/trie.cpp, static members of [Trie])

    A [Location] is a byte string whose first byte gives the parity of the path it
    denotes ([EVEN_PREFIX], [ODD_PREFIX]) and whose remaining bytes hold two nibbles
    each; the last low nibble of an odd location is padding.  The file translates
    [CommonPrefix], [NextBranch] and [Key2Location] byte by byte and shows what they
    compute on the nibble paths. *)
From S2P Require Import Prelude.
From stdpp Require Import base list.
From Stdlib Require Import ZArith Lia.

Definition EVEN_PREFIX : byte := Init.Byte.x00.
Definition ODD_PREFIX : byte := Init.Byte.x01.
Definition LEAF_PREFIX : byte := Init.Byte.x02.

(** [c1 & 0xf0] and [c1 & 0x0f] on promoted [char]s. *)
Definition hi_mask (c : byte) : Z := Z.land (schar c) 0xf0.
Definition lo_mask (c : byte) : Z := Z.land (schar c) 0x0f.

(** The loop of [CommonPrefix] from position [i], on the remaining bytes
    [r1] and [r2] of the two strings; [odd1], [odd2] tell whether the strings
    start with [ODD_PREFIX].  It returns the bytes pushed and the final [pre]. *)
Fixpoint common_loop (odd1 odd2 : bool) (r1 r2 : bytes) : bytes * byte :=
  match r1, r2 with
  | c1 :: t1, c2 :: t2 =>
      if decide (hi_mask c1 ≠ hi_mask c2) then ([], EVEN_PREFIX)
      else if odd1 && bool_decide (t1 = []) then ([to_char (hi_mask c1)], ODD_PREFIX)
      else if odd2 && bool_decide (t2 = []) then ([to_char (hi_mask c1)], ODD_PREFIX)
      else if decide (lo_mask c1 ≠ lo_mask c2) then ([to_char (hi_mask c1)], ODD_PREFIX)
      else let '(out, pre) := common_loop odd1 odd2 t1 t2 in (c1 :: out, pre)
  | _, _ => ([], EVEN_PREFIX)
  end.

Definition starts_odd (s : bytes) : bool := bool_decide (head s = Some ODD_PREFIX).

Definition CommonPrefix (s1 s2 : bytes) : bytes :=
  let '(out, pre) := common_loop (starts_odd s1) (starts_odd s2) (tail s1) (tail s2) in
  pre :: out.

Definition NextBranch (s1 s2 : bytes) : res nat :=
  let len1 := length s1 in
  p ← at_ s1 0;
  if decide (p = ODD_PREFIX) then
    ch ← at_ s2 (len1 - 1); mret (Z.to_nat (Z.land (schar ch) 0x0f))
  else
    ch ← at_ s2 len1; mret (Z.to_nat (Z.land (Z.shiftr (schar ch) 4) 0x0f)).

Definition Key2Location (key : bytes) : bytes := EVEN_PREFIX :: key.

(** ** Nibble paths *)

Definition hi (b : byte) : nat := Z.to_nat (Z.shiftr (uchar b) 4).
Definition lo (b : byte) : nat := Z.to_nat (Z.land (uchar b) 0x0f).

Fixpoint nibbles (bs : bytes) : list nat :=
  match bs with [] => [] | b :: bs => hi b :: lo b :: nibbles bs end.

Definition path (loc : bytes) : list nat :=
  if starts_odd loc then removelast (nibbles (tail loc)) else nibbles (tail loc).

(** Well-formed locations: a parity byte, and the padding of an odd one is zero. *)
Definition wf_loc (loc : bytes) : Prop :=
  match loc with
  | [] => False
  | p :: bs => p = EVEN_PREFIX ∨ p = ODD_PREFIX ∧ ∃ b, last bs = Some b ∧ lo b = 0
  end.

Definition even_loc (loc : bytes) : Prop := ∃ bs, loc = EVEN_PREFIX :: bs.

(** ** Single bytes *)

Lemma hi_mask_hi b : hi_mask b = (16 * Z.of_nat (hi b))%Z.
Proof. destruct b; reflexivity. Qed.
Lemma lo_mask_lo b : lo_mask b = Z.of_nat (lo b).
Proof. destruct b; reflexivity. Qed.
Lemma branch_lo b : Z.to_nat (Z.land (schar b) 0x0f) = lo b.
Proof. destruct b; reflexivity. Qed.
Lemma branch_hi b : Z.to_nat (Z.land (Z.shiftr (schar b) 4) 0x0f) = hi b.
Proof. destruct b; reflexivity. Qed.
Lemma hi_lt b : hi b < 16.
Proof. destruct b; apply Nat.ltb_lt; reflexivity. Qed.
Lemma lo_lt b : lo b < 16.
Proof. destruct b; apply Nat.ltb_lt; reflexivity. Qed.
Lemma hi_push b : hi (to_char (hi_mask b)) = hi b.
Proof. destruct b; reflexivity. Qed.
Lemma lo_push b : lo (to_char (hi_mask b)) = 0.
Proof. destruct b; reflexivity. Qed.

Definition byte_of_nibbles (h l : nat) : byte := to_char (Z.of_nat (16 * h + l)).

Lemma byte_nibbles b : byte_of_nibbles (hi b) (lo b) = b.
Proof. destruct b; reflexivity. Qed.

Lemma byte_ext b b' : hi b = hi b' → lo b = lo b' → b = b'.
Proof. intros Hh Hl. by rewrite <- (byte_nibbles b), <- (byte_nibbles b'), Hh, Hl. Qed.

Lemma hi_mask_ne b b' : hi_mask b ≠ hi_mask b' ↔ hi b ≠ hi b'.
Proof. rewrite !hi_mask_hi. lia. Qed.
Lemma lo_mask_ne b b' : lo_mask b ≠ lo_mask b' ↔ lo b ≠ lo b'.
Proof. rewrite !lo_mask_lo. lia. Qed.

(** ** Longest common prefix of two paths *)

Fixpoint lcp (l1 l2 : list nat) : list nat :=
  match l1, l2 with
  | x :: l1, y :: l2 => if decide (x = y) then x :: lcp l1 l2 else []
  | _, _ => []
  end.

Lemma lcp_prefix_l l1 l2 : lcp l1 l2 `prefix_of` l1.
Proof.
  revert l2. induction l1 as [|x l1 IH]; intros [|y l2]; simpl; auto using prefix_nil.
  case_decide; subst; auto using prefix_cons, prefix_nil.
Qed.

Lemma lcp_comm l1 l2 : lcp l1 l2 = lcp l2 l1.
Proof.
  revert l2. induction l1 as [|x l1 IH]; intros [|y l2]; simpl; auto.
  repeat case_decide; subst; f_equal; auto; congruence.
Qed.

Lemma lcp_prefix_r l1 l2 : lcp l1 l2 `prefix_of` l2.
Proof. rewrite lcp_comm. apply lcp_prefix_l. Qed.

Lemma lcp_app p l1 l2 : lcp (p ++ l1) (p ++ l2) = p ++ lcp l1 l2.
Proof. induction p; simpl; [done|]. rewrite decide_True by done. by f_equal. Qed.

Lemma lcp_prefix_eq l1 l2 : l1 `prefix_of` l2 → lcp l1 l2 = l1.
Proof. intros [k ->]. rewrite <- (app_nil_r l1) at 1. by rewrite lcp_app, app_nil_r. Qed.

Lemma lcp_prefix_inv l1 l2 : lcp l1 l2 = l1 → l1 `prefix_of` l2.
Proof. intros <-. apply lcp_prefix_r. Qed.

Lemma lcp_greatest p l1 l2 : p `prefix_of` l1 → p `prefix_of` l2 → p `prefix_of` lcp l1 l2.
Proof. intros [k ->] [k' ->]. rewrite lcp_app. by eexists. Qed.

(** Past the common prefix the two paths differ. *)
Lemma lcp_diverge l1 l2 x y :
  l1 !! length (lcp l1 l2) = Some x → l2 !! length (lcp l1 l2) = Some y → x ≠ y.
Proof.
  revert l2. induction l1 as [|a l1 IH]; intros [|b l2]; simpl; intros Hx Hy; simplify_eq.
  case_decide; simplify_eq/=; eauto.
Qed.

#[export] Hint Resolve lcp_prefix_l lcp_prefix_r lcp_greatest : ceg.

(** ** What the byte functions compute on paths *)

(** The path of the bytes after the parity byte. *)
Definition rpath (odd : bool) (r : bytes) : list nat :=
  if odd then removelast (nibbles r) else nibbles r.

Lemma path_cons p bs : path (p :: bs) = rpath (bool_decide (p = ODD_PREFIX)) bs.
Proof. unfold path, rpath, starts_odd. simpl. repeat case_bool_decide; naive_solver. Qed.

Lemma path_even bs : path (EVEN_PREFIX :: bs) = nibbles bs.
Proof. done. Qed.

Lemma nibbles_nil r : nibbles r = [] ↔ r = [].
Proof. by destruct r. Qed.

Lemma rpath_nil odd : rpath odd [] = [].
Proof. by destruct odd. Qed.

Lemma rpath_odd_one c : rpath true [c] = [hi c].
Proof. done. Qed.

Lemma rpath_cons odd c t :
  (odd = true → t ≠ []) → rpath odd (c :: t) = hi c :: lo c :: rpath odd t.
Proof.
  intros Ht. destruct odd; [|done]. destruct t as [|c' t]; [naive_solver|]. done.
Qed.

(** A tail whose parity byte was odd still has its last byte to read. *)
Definition rwf (odd : bool) (r : bytes) : Prop :=
  odd = true → ∃ b, last r = Some b ∧ lo b = 0.

Lemma rwf_tail odd c t : rwf odd (c :: t) → (odd = true → t ≠ []) → rwf odd t.
Proof.
  intros H Hne Ho. destruct (H Ho) as (b & Hb & ?). exists b.
  destruct t; [naive_solver|]. by rewrite last_cons_cons in Hb.
Qed.

Lemma rwf_even r : rwf (bool_decide (EVEN_PREFIX = ODD_PREFIX)) r.
Proof. intros ?. by case_bool_decide. Qed.

Lemma wf_loc_cons p bs :
  wf_loc (p :: bs) ↔
  (p = EVEN_PREFIX ∨ p = ODD_PREFIX) ∧ rwf (bool_decide (p = ODD_PREFIX)) bs.
Proof.
  unfold rwf, wf_loc. split.
  - intros [->|[-> Hb]]; (split; [by auto|]); case_bool_decide; done.
  - intros [[-> | ->] Hb]; [by left|right]. split; [done|]. apply Hb. by case_bool_decide.
Qed.

Lemma andb_bool_decide_false (b : bool) P `{Decision P} :
  b && bool_decide P = false → b = true → ¬ P.
Proof. intros Hb ->. by apply bool_decide_eq_false in Hb. Qed.

Lemma common_loop_spec odd1 odd2 r1 r2 out pre :
  rwf odd1 r1 → rwf odd2 r2 →
  common_loop odd1 odd2 r1 r2 = (out, pre) →
  rpath (bool_decide (pre = ODD_PREFIX)) out = lcp (rpath odd1 r1) (rpath odd2 r2)
  ∧ (pre = EVEN_PREFIX ∨ pre = ODD_PREFIX) ∧ rwf (bool_decide (pre = ODD_PREFIX)) out.
Proof.
  revert r2 out pre. induction r1 as [|c1 t1 IH]; intros r2 out pre H1 H2 Hc.
  { simpl in Hc. simplify_eq. rewrite !rpath_nil. split_and!; auto using rwf_even. }
  destruct r2 as [|c2 t2].
  { simpl in Hc. simplify_eq. rewrite !rpath_nil, lcp_comm. split_and!; auto using rwf_even. }
  simpl in Hc. case_decide as Hhi.
  { simplify_eq. apply hi_mask_ne in Hhi. split_and!; [|auto|apply rwf_even].
    destruct odd1, odd2, t1, t2; simpl; by rewrite decide_False. }
  assert (hi c1 = hi c2) as Hhe by (by apply dec_stable; intros ?%hi_mask_ne).
  assert (Hodd : ∀ odd c t, odd && bool_decide (t = []) = true → rpath odd (c :: t) = [hi c]).
  { intros odd c t [-> ->%bool_decide_eq_true]%andb_prop. done. }
  assert (Hone : rpath true [to_char (hi_mask c1)] = [hi c1]
     ∧ rwf true [to_char (hi_mask c1)]).
  { split; [by rewrite rpath_odd_one, hi_push|]. intros _. eexists. split; [done|apply lo_push]. }
  destruct Hone as [Hone Hrw].
  destruct (odd1 && bool_decide (t1 = [])) eqn:E1.
  { simplify_eq. rewrite (Hodd _ _ _ E1). split_and!; [|by auto|exact Hrw].
    etrans; [exact Hone|]. destruct odd2, t2; simpl; by rewrite decide_True. }
  destruct (odd2 && bool_decide (t2 = [])) eqn:E2.
  { simplify_eq. rewrite (Hodd _ _ _ E2). split_and!; [|by auto|exact Hrw].
    etrans; [exact Hone|]. destruct odd1, t1; simpl; by rewrite decide_True. }
  pose proof (andb_bool_decide_false _ _ E1) as N1.
  pose proof (andb_bool_decide_false _ _ E2) as N2.
  rewrite !rpath_cons by done. simpl. rewrite decide_True by done.
  case_decide as Hlo.
  { simplify_eq. apply lo_mask_ne in Hlo. rewrite decide_False by done. split_and!; [exact Hone|by auto|exact Hrw]. }
  assert (lo c1 = lo c2) as Hle by (by apply dec_stable; intros ?%lo_mask_ne).
  rewrite decide_True by done.
  destruct (common_loop odd1 odd2 t1 t2) as [out' pre'] eqn:Er. simplify_eq.
  destruct (IH t2 out' pre) as (IHp & IHe & IHw); [eauto using rwf_tail..|done|].
  assert (Hn : bool_decide (pre = ODD_PREFIX) = true → out' ≠ []).
  { intros Ho ->. destruct (IHw Ho) as (b & Hb & _). done. }
  split_and!; [|done|].
  - rewrite rpath_cons by done. by rewrite IHp.
  - intros Ho. destruct (IHw Ho) as (b & Hb & ?). exists b.
    destruct out'; [by destruct (Hn Ho)|]. by rewrite last_cons_cons.
Qed.

Lemma CommonPrefix_spec l1 l2 :
  wf_loc l1 → wf_loc l2 →
  wf_loc (CommonPrefix l1 l2) ∧ path (CommonPrefix l1 l2) = lcp (path l1) (path l2).
Proof.
  destruct l1 as [|p1 r1], l2 as [|p2 r2]; [done..|].
  intros [_ H1]%wf_loc_cons [_ H2]%wf_loc_cons.
  unfold CommonPrefix. simpl. destruct (common_loop _ _ r1 r2) as [out pre] eqn:E.
  assert (Hs : ∀ p r, starts_odd (p :: r) = bool_decide (p = ODD_PREFIX)).
  { intros p r. unfold starts_odd. simpl. repeat case_bool_decide; naive_solver. }
  rewrite !Hs in E. destruct (common_loop_spec _ _ _ _ _ _ H1 H2 E) as (Hp & He & Hw).
  by rewrite wf_loc_cons, !path_cons.
Qed.

Lemma length_nibbles r : length (nibbles r) = 2 * length r.
Proof. induction r; simpl; lia. Qed.

Lemma nibbles_inj r1 r2 : nibbles r1 = nibbles r2 → r1 = r2.
Proof.
  revert r2. induction r1 as [|b r1 IH]; intros [|b' r2]; simpl; intros; simplify_eq; [done|].
  f_equal; [by apply byte_ext|auto].
Qed.

Lemma nibbles_app r1 r2 : nibbles (r1 ++ r2) = nibbles r1 ++ nibbles r2.
Proof. induction r1; simpl; congruence. Qed.

Lemma nibbles_hi r n : nibbles r !! (2 * n) = hi <$> r !! n.
Proof.
  revert n. induction r as [|b r IH]; intros [|n]; try done.
  replace (2 * S n) with (S (S (2 * n))) by lia. simpl. apply IH.
Qed.

Lemma nibbles_lo r n : nibbles r !! S (2 * n) = lo <$> r !! n.
Proof.
  revert n. induction r as [|b r IH]; intros [|n]; try done.
  replace (S (2 * S n)) with (S (S (S (2 * n)))) by lia. simpl. apply IH.
Qed.

(** The odd path is the even one without its padding nibble. *)
Lemma rpath_odd_snoc r : rwf true r → nibbles r = rpath true r ++ [0].
Proof.
  intros H. destruct (H eq_refl) as (b & Hb & Hlo).
  apply last_Some in Hb as [r' ->]. rewrite nibbles_app. simpl. unfold rpath.
  rewrite nibbles_app. simpl. rewrite (app_assoc _ [hi b] [lo b]) at 1.
  replace (nibbles r' ++ [hi b; lo b]) with ((nibbles r' ++ [hi b]) ++ [lo b])
    by (by rewrite <- app_assoc).
  rewrite removelast_last. by rewrite Hlo.
Qed.

Lemma length_rpath odd r :
  rwf odd r → length (rpath odd r) = if odd then 2 * length r - 1 else 2 * length r.
Proof.
  intros H. destruct odd; [|apply length_nibbles].
  pose proof (f_equal length (rpath_odd_snoc r H)) as E.
  rewrite length_app, length_nibbles in E. cbn [length] in E. lia.
Qed.

Lemma rwf_pos r : rwf true r → 0 < length r.
Proof. intros H. destruct (H eq_refl) as (b & Hb & _). destruct r; [done|simpl; lia]. Qed.

Lemma wf_loc_inv l :
  wf_loc l → ∃ p r, l = p :: r ∧ (p = EVEN_PREFIX ∨ p = ODD_PREFIX)
    ∧ rwf (bool_decide (p = ODD_PREFIX)) r ∧ path l = rpath (bool_decide (p = ODD_PREFIX)) r.
Proof.
  destruct l as [|p r]; [done|]. intros [Hp Hr]%wf_loc_cons.
  exists p, r. by rewrite path_cons.
Qed.

Lemma path_inj l1 l2 : wf_loc l1 → wf_loc l2 → path l1 = path l2 → l1 = l2.
Proof.
  intros (p1 & r1 & -> & Hp1 & Hr1 & E1)%wf_loc_inv (p2 & r2 & -> & Hp2 & Hr2 & E2)%wf_loc_inv.
  rewrite E1, E2. intros E. pose proof (f_equal length E) as El.
  rewrite !length_rpath in El by done.
  assert (bool_decide (EVEN_PREFIX = ODD_PREFIX) = false) as HE by done.
  assert (bool_decide (ODD_PREFIX = ODD_PREFIX) = true) as HO by done.
  destruct Hp1 as [-> | ->], Hp2 as [-> | ->]; rewrite ?HE, ?HO in *.
  - f_equal. by apply nibbles_inj.
  - apply rwf_pos in Hr2. lia.
  - apply rwf_pos in Hr1. lia.
  - f_equal. apply nibbles_inj. by rewrite (rpath_odd_snoc r1), (rpath_odd_snoc r2), E.
Qed.

Lemma rpath_lookup odd r k x : rwf odd r → rpath odd r !! k = Some x → nibbles r !! k = Some x.
Proof.
  intros Hr Hk. destruct odd; [|done]. rewrite rpath_odd_snoc by done. by apply lookup_app_l_Some.
Qed.

Lemma path_bound l x : wf_loc l → x ∈ path l → x < 16.
Proof.
  intros (p & r & -> & _ & Hr & ->)%wf_loc_inv [k Hk]%list_elem_of_lookup.
  apply rpath_lookup in Hk; [|done]. clear Hr.
  revert k Hk. induction r as [|b r IH]; [done|]. intros [|[|k]]; simpl; intros; simplify_eq;
    eauto using hi_lt, lo_lt.
Qed.

(** [NextBranch] is the nibble of [l] that follows the prefix [c]. *)
Lemma NextBranch_spec c l x :
  wf_loc c → wf_loc l → path c ++ [x] `prefix_of` path l → NextBranch c l = Ok x.
Proof.
  intros (p & r & -> & Hp & Hr & Ec)%wf_loc_inv (q & s & -> & _ & Hs & El)%wf_loc_inv [k Hk].
  assert (path (q :: s) !! length (path (p :: r)) = Some x) as Hx.
  { rewrite Hk, <- app_assoc. by apply list_lookup_middle. }
  rewrite Ec, El in Hx. apply rpath_lookup in Hx; [|done].
  rewrite length_rpath in Hx by done. unfold NextBranch. simpl.
  assert (bool_decide (EVEN_PREFIX = ODD_PREFIX) = false) as HE by done.
  assert (bool_decide (ODD_PREFIX = ODD_PREFIX) = true) as HO by done.
  destruct Hp as [-> | ->]; rewrite ?HE, ?HO in *.
  - rewrite nibbles_hi in Hx. destruct (s !! length r) as [b|] eqn:Eb; simplify_eq/=.
    rewrite (at_Some (q :: s) (S (length r)) b) by done. simpl. by rewrite branch_hi.
  - apply rwf_pos in Hr. destruct r as [|b0 r]; simpl in Hr; [lia|].
    replace (2 * length (b0 :: r) - 1) with (S (2 * length r)) in Hx by (simpl; lia).
    rewrite nibbles_lo in Hx. destruct (s !! length r) as [b|] eqn:Eb; simplify_eq/=.
    rewrite (at_Some (q :: s) (S (length r)) b) by done. simpl. by rewrite branch_lo.
Qed.

Lemma even_wf l : even_loc l → wf_loc l.
Proof. intros [bs ->]. by left. Qed.

Lemma Key2Location_even key : even_loc (Key2Location key).
Proof. by eexists. Qed.

Lemma Key2Location_inj k1 k2 : Key2Location k1 = Key2Location k2 → k1 = k2.
Proof. unfold Key2Location. naive_solver. Qed.

#[export] Hint Resolve even_wf Key2Location_even : ceg.

(** ** The two facts the trie operations use *)

(** [CommonPrefix] of a location and one of its prefixes is that prefix, and otherwise
    the branch after it is defined and extends the common path. *)
Lemma CommonPrefix_prefix l1 l2 :
  wf_loc l1 → wf_loc l2 → path l1 `prefix_of` path l2 → CommonPrefix l1 l2 = l1.
Proof.
  intros H1 H2 Hp. destruct (CommonPrefix_spec l1 l2 H1 H2) as [Hw He].
  apply path_inj; [done..|]. rewrite He. by apply lcp_prefix_eq.
Qed.

Lemma CommonPrefix_comm l1 l2 : wf_loc l1 → wf_loc l2 → CommonPrefix l1 l2 = CommonPrefix l2 l1.
Proof.
  intros H1 H2. destruct (CommonPrefix_spec l1 l2) as [W E], (CommonPrefix_spec l2 l1) as [W' E']; try done.
  apply path_inj; [done..|]. by rewrite E, E', lcp_comm.
Qed.

Lemma CommonPrefix_is_l l1 l2 :
  wf_loc l1 → wf_loc l2 → CommonPrefix l1 l2 = l1 → path l1 `prefix_of` path l2.
Proof.
  intros H1 H2 E. destruct (CommonPrefix_spec l1 l2 H1 H2) as [_ He].
  rewrite E in He. apply lcp_prefix_inv. congruence.
Qed.
