(* ===== verification/Trie.v ===== *)
(** * The Merkle Patricia trie (src/src/ledger/trie.h, trie.cpp)

    [NodeFrm] is the in-memory node, [TrieStorage] the virtual storage interface of
    [Trie], and the operations are the members of [Trie] in source order.  A node is
    owned by one parent at a time (the [shared_ptr] of the old parent is overwritten
    when a node moves under a new one), so the nodes form a value tree.  Recursion
    that may follow records of the database takes a fuel argument. *)
From S2P Require Import Prelude Location.
From stdpp Require Import base list.
From Stdlib Require Import ZArith.

(** ** Data (src/src/proto/merkeltrie.proto and trie.h) *)

Inductive CHILDTYPE := NONE | INNER | LEAF.
#[global] Instance CHILDTYPE_eq_dec : EqDecision CHILDTYPE.
Proof. solve_decision. Defined.

Record Child := mkChild { sublocation : bytes; hash : bytes; childtype : CHILDTYPE }.
#[global] Instance Child_eq_dec : EqDecision Child.
Proof. solve_decision. Defined.

Definition empty_child : Child := mkChild [] [] NONE.
#[global] Instance Child_inhabited : Inhabited Child := populate empty_child.

(** [protocol::Node]: the repeated field [children]. *)
Abbreviation Node := (list Child).

#[warnings="-register-all"]
Inductive NodeFrm := MkNode {
  location_ : bytes;
  children_ : list (option NodeFrm);
  info_ : list Child;
  modified_ : bool;
  leaf_deleted_ : bool;
  leaf_ : option bytes }.

Definition set_modified (m : bool) (n : NodeFrm) : NodeFrm :=
  MkNode (location_ n) (children_ n) (info_ n) m (leaf_deleted_ n) (leaf_ n).
Definition set_info (i : Node) (n : NodeFrm) : NodeFrm :=
  MkNode (location_ n) (children_ n) i (modified_ n) (leaf_deleted_ n) (leaf_ n).
Definition set_children (c : list (option NodeFrm)) (n : NodeFrm) : NodeFrm :=
  MkNode (location_ n) c (info_ n) (modified_ n) (leaf_deleted_ n) (leaf_ n).

(** [info_.mutable_children(i)->set_childtype(t)] and [->set_sublocation(l)] *)
Definition with_childtype (t : CHILDTYPE) (c : Child) : Child :=
  mkChild (sublocation c) (hash c) t.
Definition with_sublocation (l : bytes) (c : Child) : Child :=
  mkChild l (hash c) (childtype c).

(** ** [NodeFrm] *)

Definition NewNodeFrm (location : bytes) : NodeFrm :=
  MkNode location (replicate 16 None) (replicate 17 empty_child) true false None.

Definition SetValue (n : NodeFrm) (v : bytes) : NodeFrm :=
  MkNode (location_ n) (children_ n)
    (alter (λ c, with_sublocation (location_ n) (with_childtype LEAF c)) 16 (info_ n))
    true false (Some v).

Definition MarkRemove (n : NodeFrm) : NodeFrm :=
  MkNode (location_ n) (children_ n) (<[16 := empty_child]> (info_ n)) true true None.

Definition SetChild (n : NodeFrm) (branch : nat) (child : NodeFrm) : NodeFrm :=
  MkNode (location_ n) (<[branch := Some child]> (children_ n))
    (alter (with_sublocation (location_ child)) branch (info_ n)) true
    (leaf_deleted_ n) (leaf_ n).

Definition rootl : bytes := [EVEN_PREFIX].

(** ** The virtual storage members of [Trie]

    [SerializeAsString] of a node is the protobuf encoding. *)
Class TrieStorage (S : Type) := {
  storage_load : S → bytes → res (option Node);
  StorageSaveNode : S → bytes → Node → S;
  StorageSaveLeaf : S → bytes → bytes → S;
  StorageDeleteNode : S → bytes → S;
  StorageDeleteLeaf : S → bytes → S;
  StorageGetLeaf : S → bytes → res (option bytes);
  SerializeNode : Node → bytes;
  HashCrypto : bytes → bytes }.

Record Trie (S : Type) := mkTrie { store_ : S; root_ : NodeFrm; root_hash_ : bytes }.
Arguments mkTrie {S}.
Arguments store_ {S}.
Arguments root_ {S}.
Arguments root_hash_ {S}.

Section operations.
Context {S : Type} `{TrieStorage S}.

Fixpoint Release (node : NodeFrm) (depth : Z) : NodeFrm :=
  set_children
    (map (λ c, match c with
               | None => None
               | Some child =>
                   let child' := Release child (depth - 1) in
                   if bool_decide (depth ≤ 0)%Z then None else Some child'
               end) (children_ node)) node.

Definition FreeMemory (t : Trie S) (depth : Z) : Trie S :=
  mkTrie (store_ t) (Release (root_ t) depth) (root_hash_ t).

(** The parent (its [children_] slot filled) and the child. *)
Definition ChildMayFromDB (s : S) (node : NodeFrm) (branch : nat)
    : res (NodeFrm * option NodeFrm) :=
  c ← at_ (children_ node) branch;
  match c with
  | Some child => mret (node, Some child)
  | None =>
      chd ← at_ (info_ node) branch;
      match childtype chd with
      | NONE => mret (node, None)
      | LEAF =>
          let frm := set_modified false (NewNodeFrm (sublocation chd)) in
          let frm := set_info (<[16 := chd]> (info_ frm)) frm in
          mret (set_children (<[branch := Some frm]> (children_ node)) node, Some frm)
      | INNER =>
          let frm := set_modified false (NewNodeFrm (sublocation chd)) in
          o ← storage_load s (sublocation chd);
          match o with
          | None => Err ProcessExit
          | Some info =>
              let frm := set_info info frm in
              mret (set_children (<[branch := Some frm]> (children_ node)) node, Some frm)
          end
      end
  end.

(** The entry [i] counts when its type is not [NONE]. *)
Definition count_branch (info : Node) (i : nat) (acc : nat * option nat) : nat * option nat :=
  if decide (childtype (info !!! i) = NONE) then acc else (Datatypes.S acc.1, Some i).

(** The loop of [update_hash] over the children from branch [i], [uh] being the
    recursive call: the store, the children, the updated entries and the count. *)
Section update_loop.
Context (uh : S → NodeFrm → S * NodeFrm * Child).

Fixpoint update_loop (i : nat) (cs : list (option NodeFrm)) (s : S) (info : Node)
    (acc : nat * option nat) : S * list (option NodeFrm) * Node * (nat * option nat) :=
  match cs with
  | [] => (s, [], info, acc)
  | c :: cs =>
      let '(s, c, info) :=
        match c with
        | Some child =>
            if modified_ child then
              let '(s, child, childresult) := uh s child in
              (s, Some child, <[i := childresult]> info)
            else (s, c, info)
        | None => (s, c, info)
        end in
      let '(s, cs, info, acc) :=
        update_loop (Datatypes.S i) cs s info (count_branch info i acc) in
      (s, c :: cs, info, acc)
  end.
End update_loop.

(** The leaf part, before the loop. *)
Definition update_leaf (s : S) (loc : bytes) (info : Node) (leaf_deleted : bool)
    (leaf : option bytes) : S * Node :=
  if leaf_deleted then (StorageDeleteLeaf s loc, <[16 := empty_child]> info)
  else match leaf with
       | Some v => (StorageSaveLeaf s loc v, <[16 := mkChild loc (HashCrypto v) LEAF]> info)
       | None => (s, info)
       end.

(** The summary of the node for its parent, after the loop. *)
Definition update_result (s : S) (loc : bytes) (info : Node) (acc : nat * option nat)
    : S * Child :=
  let '(branch_count, onlybranch) := acc in
  if decide (branch_count = 0 ∧ loc ≠ rootl) then
    (StorageDeleteNode s loc, empty_child)
  else if decide (branch_count = 1 ∧ loc ≠ rootl) then
    (StorageDeleteNode s loc, info !!! default 0 onlybranch)
  else
    (StorageSaveNode s loc info, mkChild loc (HashCrypto (SerializeNode info)) INNER).

Fixpoint update_hash (s : S) (node : NodeFrm) {struct node} : S * NodeFrm * Child :=
  match node with
  | MkNode loc children info _ leaf_deleted leaf =>
      let '(s, info) := update_leaf s loc info leaf_deleted leaf in
      let '(s, children, info, acc) :=
        update_loop update_hash 0 children s info (count_branch info 16 (0, None)) in
      let '(s, result) := update_result s loc info acc in
      (s, MkNode loc children info false leaf_deleted leaf, result)
  end.

Fixpoint SetItem (fuel : nat) (s : S) (node : NodeFrm) (location data : bytes)
    : res (NodeFrm * bool) :=
  match fuel with
  | O => Err OutOfFuel
  | Datatypes.S fuel =>
      let node := set_modified true node in
      let location1 := location_ node in
      if decide (location1 = location) then mret (SetValue node data, false) else
      let common := CommonPrefix location1 location in
      branch ← NextBranch common location;
      '(node, o) ← ChildMayFromDB s node branch;
      child2 ← at_ (info_ node) branch;
      match o with
      | None =>
          let newnode := SetValue (NewNodeFrm location) data in
          let node := SetChild node branch newnode in
          mret (set_info (alter (with_childtype LEAF) branch (info_ node)) node, true)
      | Some node2 =>
          let location2 := location_ node2 in
          let newcommon := CommonPrefix location location2 in
          if decide (newcommon = location2) then
            '(node2, b) ← SetItem fuel s node2 location data;
            mret (set_children (<[branch := Some node2]> (children_ node)) node, b)
          else if decide (newcommon = location) then
            let newnode := SetValue (NewNodeFrm location) data in
            b1 ← NextBranch newcommon location2;
            let newnode := SetChild newnode b1 node2 in
            let newnode := set_info (<[b1 := child2]> (info_ newnode)) newnode in
            let node := SetChild node branch newnode in
            mret (set_info (alter (with_childtype INNER) branch (info_ node)) node, true)
          else
            let mnode := NewNodeFrm newcommon in
            let newnode := SetValue (NewNodeFrm location) data in
            b1 ← NextBranch newcommon location;
            b2 ← NextBranch newcommon location2;
            let mnode := SetChild mnode b1 newnode in
            let mnode := SetChild mnode b2 node2 in
            let mnode := set_info (<[b2 := child2]> (info_ mnode)) mnode in
            mret (SetChild node branch mnode, true)
      end
  end.

Fixpoint DeleteItem (fuel : nat) (s : S) (node : NodeFrm) (location : bytes)
    : res (NodeFrm * bool) :=
  match fuel with
  | O => Err OutOfFuel
  | Datatypes.S fuel =>
      let location1 := location_ node in
      if decide (length location < length location1) then mret (node, false)
      else if decide (location = location1) then mret (MarkRemove node, true)
      else
      let common := CommonPrefix location1 location in
      branch ← NextBranch common location;
      '(node, o) ← ChildMayFromDB s node branch;
      match o with
      | None => mret (node, false)
      | Some node2 =>
          let location2 := location_ node2 in
          let common2 := CommonPrefix location2 location in
          if decide (location2 ≠ common2) then mret (node, false) else
          '(node2, ret) ← DeleteItem fuel s node2 location;
          let node := set_children (<[branch := Some node2]> (children_ node)) node in
          mret (set_modified (modified_ node || ret) node, ret)
      end
  end.

Fixpoint Exists (fuel : nat) (s : S) (node : NodeFrm) (key : bytes) : res (NodeFrm * bool) :=
  match fuel with
  | O => Err OutOfFuel
  | Datatypes.S fuel =>
      if decide (location_ node = key) then mret (node, true) else
      let common := CommonPrefix (location_ node) key in
      branch ← NextBranch common key;
      chd ← at_ (info_ node) branch;
      if decide (childtype chd = NONE) then mret (node, false) else
      let location2 := sublocation chd in
      let common2 := CommonPrefix location2 key in
      if decide (common2 ≠ location2) then mret (node, false) else
      '(node, o) ← ChildMayFromDB s node branch;
      match o with
      | None => Err NullDeref
      | Some child =>
          '(child, b) ← Exists fuel s child key;
          mret (set_children (<[branch := Some child]> (children_ node)) node, b)
      end
  end.

(** Every recursive call goes to a strictly longer path that is a prefix of the
    location searched: twice its length bounds the depth. *)
Definition path_fuel (location : bytes) : nat := 2 * length location + 1.

Definition Set_ (t : Trie S) (key value : bytes) : res (Trie S * bool) :=
  let location := Key2Location key in
  '(r, b) ← SetItem (path_fuel location) (store_ t) (root_ t) location value;
  mret (mkTrie (store_ t) r (root_hash_ t), b).

Definition Delete (t : Trie S) (key : bytes) : res (Trie S * bool) :=
  let location := Key2Location key in
  '(r, b) ← DeleteItem (path_fuel location) (store_ t) (root_ t) location;
  mret (mkTrie (store_ t) r (root_hash_ t), b).

(** [Get] returns the value instead of filling an out parameter. *)
Definition Get (t : Trie S) (key : bytes) : res (Trie S * option bytes) :=
  let location := Key2Location key in
  '(r, b) ← Exists (path_fuel location) (store_ t) (root_ t) location;
  let t := mkTrie (store_ t) r (root_hash_ t) in
  if b : bool then v ← StorageGetLeaf (store_ t) location; mret (t, v)
  else mret (t, None).

Definition UpdateHash (t : Trie S) : Trie S :=
  let '(s, r, c) := update_hash (store_ t) (root_ t) in mkTrie s r (hash c).

Definition GetRootHash (t : Trie S) : bytes := root_hash_ t.

(** The loop over the sixteen branches of [StorageAssociated]. *)
Fixpoint StorageAssociated (fuel : nat) (s : S) (location : bytes) (result : list bytes)
    : res (list bytes) :=
  match fuel with
  | O => Err OutOfFuel
  | Datatypes.S fuel =>
      o ← storage_load s location;
      match o with
      | None => mret result
      | Some info =>
          c16 ← at_ info 16;
          result ←
            (if decide (childtype c16 = LEAF)
             then v ← StorageGetLeaf s location; mret (result ++ [default [] v])
             else mret result);
          foldl (λ acc i,
            result ← acc;
            chd ← at_ info i;
            match childtype chd with
            | NONE => mret result
            | INNER => StorageAssociated fuel s (sublocation chd) result
            | LEAF => v ← StorageGetLeaf s (sublocation chd); mret (result ++ [default [] v])
            end) (mret result) (seq 0 16)
      end
  end.

Fixpoint GetAllItem (fuel : nat) (s : S) (node location : bytes) (result : list bytes)
    : res (list bytes) :=
  match fuel with
  | O => Err OutOfFuel
  | Datatypes.S fuel' =>
      o ← storage_load s node;
      match o with
      | None => mret result
      | Some info =>
          let common := CommonPrefix node location in
          if decide (common = location) then StorageAssociated fuel s node result
          else if decide (common = node) then
            nextbranch ← NextBranch common location;
            chd ← at_ info nextbranch;
            GetAllItem fuel' s (sublocation chd) location result
          else mret result
      end
  end.

Definition GetAll (fuel : nat) (t : Trie S) (key : bytes) : res (list bytes) :=
  GetAllItem fuel (store_ t) (Key2Location []) (Key2Location key) [].

Fixpoint getNode (fuel : nat) (s : S) (node : NodeFrm) (location : bytes)
    : res (NodeFrm * Node) :=
  match fuel with
  | O => Err OutOfFuel
  | Datatypes.S fuel =>
      if decide (location_ node = location) then mret (node, info_ node) else
      let common := CommonPrefix location (location_ node) in
      branch ← NextBranch common location;
      '(node, o) ← ChildMayFromDB s node branch;
      match o with
      | Some frm =>
          '(frm, i) ← getNode fuel s frm location;
          mret (set_children (<[branch := Some frm]> (children_ node)) node, i)
      | None => mret (node, [])
      end
  end.

Definition GetNode (fuel : nat) (t : Trie S) (location : bytes) : res (Trie S * Node) :=
  let lc := if decide (location = []) then [EVEN_PREFIX] else location in
  '(r, i) ← getNode fuel (store_ t) (root_ t) lc;
  mret (mkTrie (store_ t) r (root_hash_ t), i).
End operations.
