(* ===== verification/TrieSpec.v ===== *)
(** * Meaning and invariants of the trie

    A [view] is what a storage returns for node and leaf reads.  [rec_holds] and
    [node_holds] say which key/value pairs a database record and an in-memory node
    stand for; [wf_rec] and [wf_node] are the invariants that the operations keep.  A
    well-formed record is canonical: its hash is that of its content, and an inner record
    other than the root has at least two entries. *)
From S2P Require Import Prelude Location Trie.
From stdpp Require Import base list.
From Stdlib Require Import ZArith Lia.

(** The hashes of a leaf and of a node. *)
Class NodeHash := { leaf_hash : bytes → bytes; node_hash : Node → bytes }.

#[global] Instance storage_hash {S : Type} `{TrieStorage S} : NodeHash :=
  {| leaf_hash := HashCrypto; node_hash info := HashCrypto (SerializeNode info) |}.

Record view := mkView { vnode : bytes → option Node; vleaf : bytes → option bytes }.

(** The two views agree on the locations at or below path [p]. *)
Definition agree (p : list nat) (V V' : view) : Prop :=
  ∀ l, wf_loc l → p `prefix_of` path l →
    vnode V l = vnode V' l ∧ (even_loc l → vleaf V l = vleaf V' l).

(** ** Database records *)

(** The pairs below a record. *)
Inductive rec_holds (V : view) : Child → bytes → bytes → Prop :=
  | rec_leaf c v :
      childtype c = LEAF → vleaf V (sublocation c) = Some v → rec_holds V c (sublocation c) v
  | rec_inner c info i ci k v :
      childtype c = INNER → vnode V (sublocation c) = Some info → info !! i = Some ci →
      rec_holds V ci k v → rec_holds V c k v.

Section wf.
Context `{NH : NodeHash}.

(** The record of a leaf. *)
Definition leaf_of (V : view) (c : Child) : Prop :=
  childtype c = LEAF ∧ ∃ v, vleaf V (sublocation c) = Some v ∧ hash c = leaf_hash v.

(** Entry 16 of the node at [loc]: its own leaf, if any. *)
Definition wf_leafrec (V : view) (loc : bytes) (c : Child) : Prop :=
  c = empty_child ∨ leaf_of V c ∧ sublocation c = loc ∧ even_loc loc.

(** Every entry has another one next to it. *)
Definition two_entries (info : Node) : Prop :=
  ∀ o, ∃ j c, j ≠ o ∧ info !! j = Some c ∧ childtype c ≠ NONE.

(** A record that hangs below path [p]. *)
Inductive wf_rec (V : view) (p : list nat) (c : Child) : Prop :=
  | wf_rec_none : c = empty_child → wf_rec V p c
  | wf_rec_leaf :
      leaf_of V c → even_loc (sublocation c) → p `prefix_of` path (sublocation c) → wf_rec V p c
  | wf_rec_inner info :
      childtype c = INNER → wf_loc (sublocation c) → p `prefix_of` path (sublocation c) →
      vnode V (sublocation c) = Some info → length info = 17 → hash c = node_hash info →
      (sublocation c = rootl ∨ two_entries info) →
      (∀ i ci, i < 16 → info !! i = Some ci → wf_rec V (path (sublocation c) ++ [i]) ci) →
      (∀ ci, info !! 16 = Some ci → wf_leafrec V (sublocation c) ci) →
      wf_rec V p c.

(** ** In-memory nodes *)

(** The pairs of an in-memory child, or else of the record in its slot. *)
Inductive node_holds (V : view) : NodeFrm → bytes → bytes → Prop :=
  | node_leaf n v :
      leaf_deleted_ n = false → leaf_ n = Some v → node_holds V n (location_ n) v
  | node_dbleaf n c v :
      leaf_deleted_ n = false → leaf_ n = None → info_ n !! 16 = Some c → childtype c = LEAF →
      vleaf V (location_ n) = Some v → node_holds V n (location_ n) v
  | node_mem n i c k v :
      children_ n !! i = Some (Some c) → node_holds V c k v → node_holds V n k v
  | node_rec n i r k v :
      children_ n !! i = Some None → info_ n !! i = Some r → rec_holds V r k v →
      node_holds V n k v.

(** The leaf fields of a node. *)
Definition leaf_ok (V : view) (n : NodeFrm) : Prop :=
  ∀ c, info_ n !! 16 = Some c →
  if leaf_deleted_ n then leaf_ n = None ∧ c = empty_child ∧ even_loc (location_ n)
  else match leaf_ n with
       | Some _ => even_loc (location_ n) ∧ childtype c = LEAF ∧ sublocation c = location_ n
       | None => wf_leafrec V (location_ n) c
       end.

(** [r] is the record that the database holds for the unmodified node [n]: the node
    itself, its only entry, or nothing. *)
Definition summary (V : view) (n : NodeFrm) (r : Child) : Prop :=
  (r = mkChild (location_ n) (node_hash (info_ n)) INNER ∧ vnode V (location_ n) = Some (info_ n) ∧
     (location_ n = rootl ∨ two_entries (info_ n)))
  ∨ (∃ o, info_ n !! o = Some r ∧ ∀ j c, j ≠ o → info_ n !! j = Some c → childtype c = NONE)
  ∨ (r = empty_child ∧ ∀ j c, info_ n !! j = Some c → childtype c = NONE).

Definition synced (V : view) (n : NodeFrm) (r : Child) : Prop :=
  summary V n r ∧
  (∀ v, leaf_deleted_ n = false → leaf_ n = Some v →
     vleaf V (location_ n) = Some v ∧ ∀ c, info_ n !! 16 = Some c → hash c = leaf_hash v).

Inductive wf_node (V : view) (p : list nat) (n : NodeFrm) : Prop :=
  wf_node_intro :
    wf_loc (location_ n) → p `prefix_of` path (location_ n) →
    length (children_ n) = 16 → length (info_ n) = 17 → leaf_ok V n →
    (∀ i r, children_ n !! i = Some None → info_ n !! i = Some r →
       wf_rec V (path (location_ n) ++ [i]) r) →
    (∀ i c, children_ n !! i = Some (Some c) → wf_node V (path (location_ n) ++ [i]) c) →
    (∀ i c r, children_ n !! i = Some (Some c) → modified_ c = false → info_ n !! i = Some r →
       synced V c r) →
    (∀ i c, modified_ n = false → children_ n !! i = Some (Some c) → modified_ c = false) →
    wf_node V p n.

(** ** Records: keys are below their path, lookups are functional, framing *)

Lemma rec_holds_none V c k v : childtype c = NONE → ¬ rec_holds V c k v.
Proof. intros E Hr. inversion Hr; congruence. Qed.

Lemma rec_holds_leaf_inv V c k v :
  childtype c = LEAF → rec_holds V c k v → k = sublocation c ∧ vleaf V k = Some v.
Proof. intros E Hr. inversion Hr; subst; [done|congruence]. Qed.

Lemma leafrec_holds V loc c k v :
  wf_leafrec V loc c → rec_holds V c k v → k = loc ∧ even_loc loc ∧ vleaf V loc = Some v.
Proof.
  intros [->|([E _] & <- & Hev)] Hr; [by apply rec_holds_none in Hr|].
  by apply rec_holds_leaf_inv in Hr as [-> ?].
Qed.

Lemma lookup17 (info : Node) i c : length info = 17 → info !! i = Some c → i < 16 ∨ i = 16.
Proof. intros Hl Hi%lookup_lt_Some. lia. Qed.

Lemma rec_holds_below V p c k v :
  wf_rec V p c → rec_holds V c k v → even_loc k ∧ p `prefix_of` path k.
Proof.
  intros Hw. revert k v.
  induction Hw as [p c ->|p c [Hl Hv] Hev Hp|p c info Hi Hloc Hp Hn Hlen Hhash Htwo Hc IH H16]; intros k v Hr.
  - by apply rec_holds_none in Hr.
  - by apply rec_holds_leaf_inv in Hr as [-> _].
  - inversion Hr as [|? info' i ci ? ? ? Hn' Hi' Hr']; subst; [congruence|].
    rewrite Hn in Hn'. simplify_eq.
    destruct (lookup17 _ _ _ Hlen Hi') as [Hlt | ->].
    + destruct (IH _ _ Hlt Hi' _ _ Hr') as [? Hpre]. split; [done|].
      etrans; [exact Hp|]. etrans; [|exact Hpre]. by apply prefix_app_r.
    + by destruct (leafrec_holds _ _ _ _ _ (H16 _ Hi') Hr') as (-> & ? & _).
Qed.

Lemma below_branch p k i j : p ++ [i] `prefix_of` path k → p ++ [j] `prefix_of` path k → i = j.
Proof. apply prefix_snoc_inv. Qed.

Lemma snoc_not_prefix (p : list nat) i : ¬ p ++ [i] `prefix_of` p.
Proof. intros [q E]. apply (f_equal length) in E. rewrite !length_app in E. simpl in E. lia. Qed.

Lemma agree_weaken p q V V' : p `prefix_of` q → agree p V V' → agree q V V'.
Proof. intros Hpq Ha l Hl Hq. apply Ha; [done|]. by etrans. Qed.

Lemma agree_sym p V V' : agree p V V' → agree p V' V.
Proof. intros Ha l Hl Hq. destruct (Ha l Hl Hq) as [? E]. split; [done|]. intros ?. by rewrite E. Qed.

Lemma agree_trans p V1 V2 V3 : agree p V1 V2 → agree p V2 V3 → agree p V1 V3.
Proof.
  intros H1 H2 l Hl Hq. destruct (H1 l Hl Hq) as [-> E1], (H2 l Hl Hq) as [-> E2].
  split; [done|]. intros He. by rewrite E1, E2.
Qed.

Lemma agree_refl p V : agree p V V.
Proof. done. Qed.

#[local] Hint Resolve agree_weaken agree_sym agree_refl : ceg.

Lemma wf_leafrec_frame V V' loc c :
  agree (path loc) V V' → wf_leafrec V loc c → wf_leafrec V' loc c.
Proof.
  intros Ha [?|([? Hv] & <- & Hev)]; [by left|right]. split_and!; try done.
  destruct (Ha (sublocation c)) as [_ E]; [by apply even_wf|done|]. split; [done|]. by rewrite <- E.
Qed.

Lemma wf_rec_frame V V' p c : agree p V V' → wf_rec V p c → wf_rec V' p c.
Proof.
  intros Ha Hw. revert Ha.
  induction Hw as [p c ->|p c [Hl Hv] Hev Hp|p c info Hi Hloc Hp Hn Hlen Hhash Htwo Hc IH H16]; intros Ha.
  - by apply wf_rec_none.
  - apply wf_rec_leaf; try done. destruct (Ha (sublocation c)) as [_ E]; [by apply even_wf|done|].
    split; [done|]. by rewrite <- E.
  - destruct (Ha _ Hloc Hp) as [E _].
    apply (wf_rec_inner V' p c info); try done.
    + by rewrite <- E.
    + intros i ci Hlt Hci. apply IH; [done..|]. eapply agree_weaken; [|exact Ha].
      etrans; [exact Hp|]. by apply prefix_app_r.
    + intros ci Hci. eapply wf_leafrec_frame; [|by apply H16]. eauto with ceg.
Qed.

Lemma rec_holds_frame V V' p c k v :
  agree p V V' → wf_rec V p c → rec_holds V c k v → rec_holds V' c k v.
Proof.
  intros Ha Hw. revert Ha k v.
  induction Hw as [p c ->|p c [Hl Hv] Hev Hp|p c info Hi Hloc Hp Hn Hlen Hhash Htwo Hc IH H16];
    intros Ha k v Hr.
  - by apply rec_holds_none in Hr.
  - apply rec_holds_leaf_inv in Hr as [-> Hr]; [|done]. apply rec_leaf; [done|].
    destruct (Ha (sublocation c)) as [_ E]; [by apply even_wf|done|]. by rewrite <- E.
  - inversion Hr as [|? info' i ci ? ? ? Hn' Hi' Hr']; subst; [congruence|].
    rewrite Hn in Hn'. simplify_eq. destruct (Ha _ Hloc Hp) as [E El].
    apply (rec_inner V' c info' i ci); [done|by rewrite <- E|done|].
    destruct (lookup17 _ _ _ Hlen Hi') as [Hlt | ->].
    + apply (IH i ci); try done. eapply agree_weaken; [|exact Ha].
      etrans; [exact Hp|]. by apply prefix_app_r.
    + destruct (H16 _ Hi') as [->|([Et _] & Es & Hev)].
      { by apply rec_holds_none in Hr'. }
      apply rec_holds_leaf_inv in Hr' as [-> Hv]; [|done]. rewrite Es in *.
      rewrite <- Es. apply rec_leaf; [done|]. by rewrite Es, <- El.
Qed.

(** ** In-memory nodes: own leaf and slots *)

Definition own_holds (V : view) (n : NodeFrm) (k v : bytes) : Prop :=
  k = location_ n ∧ leaf_deleted_ n = false ∧
  (leaf_ n = Some v
   ∨ leaf_ n = None ∧ ∃ c, info_ n !! 16 = Some c ∧ childtype c = LEAF ∧ vleaf V k = Some v).

Definition slot_holds (V : view) (o : option NodeFrm) (r : Child) (k v : bytes) : Prop :=
  match o with Some c => node_holds V c k v | None => rec_holds V r k v end.

Lemma node_holds_iff V n k v :
  length (children_ n) = 16 → length (info_ n) = 17 →
  node_holds V n k v ↔
  own_holds V n k v ∨
  ∃ i o r, children_ n !! i = Some o ∧ info_ n !! i = Some r ∧ slot_holds V o r k v.
Proof.
  intros Hc Hi. split.
  - intros Hh. inversion Hh as [? ? E1 E2|? c ? E1 E2 E3 E4 E5|? i c ? ? E1 E2|? i r ? ? E1 E2 E3];
      subst.
    + left. split_and!; auto.
    + left. split_and!; auto. right. eauto.
    + right. pose proof (lookup_lt_Some _ _ _ E1).
      destruct (lookup_lt_is_Some_2 (info_ n) i) as [r Hr]; [lia|]. by exists i, (Some c), r.
    + right. by exists i, None, r.
  - intros [(-> & E1 & [E2|(E2 & c & ? & ? & ?)])|(i & [c|] & r & E1 & E2 & E3)].
    + by apply node_leaf.
    + by apply (node_dbleaf V n c).
    + by apply (node_mem V n i c).
    + by apply (node_rec V n i r).
Qed.

Definition slot_wf (V : view) (p : list nat) (o : option NodeFrm) (r : Child) : Prop :=
  match o with
  | Some c => wf_node V p c ∧ (modified_ c = false → synced V c r)
  | None => wf_rec V p r
  end.

Lemma wf_node_slot V p n i o r :
  wf_node V p n → children_ n !! i = Some o → info_ n !! i = Some r →
  slot_wf V (path (location_ n) ++ [i]) o r.
Proof. intros [] Ho Hr. destruct o as [c|]; simpl; eauto. Qed.

Lemma wf_node_leaf V p n k v :
  wf_node V p n → own_holds V n k v → even_loc k ∧ k = location_ n.
Proof.
  intros [_ _ _ Hl Hlf _ _ _ _] (-> & E1 & E2). split; [|done].
  destruct (lookup_lt_is_Some_2 (info_ n) 16) as [c Hc]; [lia|].
  specialize (Hlf c Hc). rewrite E1 in Hlf. destruct E2 as [E2|(E2 & c' & Hc' & Ht & _)];
    rewrite E2 in Hlf; [by destruct Hlf|].
  destruct Hlf as [->|(_ & _ & ?)]; [by simplify_eq|done].
Qed.

Lemma wf_node_weaken V p q n : wf_node V p n → q `prefix_of` path (location_ n) → wf_node V q n.
Proof. intros [] Hq. by constructor. Qed.

Lemma node_holds_below V p n k v :
  wf_node V p n → node_holds V n k v → even_loc k ∧ path (location_ n) `prefix_of` path k.
Proof.
  intros Hw Hh. revert p Hw. induction Hh as [n v E1 E2|n c v E1 E2 E3 E4 E5|n i c k v E1 E2 IH|n i r k v E1 E2 E3];
    intros p Hw.
  - assert (own_holds V n (location_ n) v) as Ho by (split_and!; auto).
    by destruct (wf_node_leaf _ _ _ _ _ Hw Ho).
  - assert (own_holds V n (location_ n) v) as Ho by (split_and!; eauto 8).
    by destruct (wf_node_leaf _ _ _ _ _ Hw Ho).
  - destruct Hw as [_ _ _ _ _ _ Hc _ _]. pose proof (Hc _ _ E1) as Hwc.
    destruct (IH _ Hwc) as [? Hp]. split; [done|].
    destruct Hwc as [_ Hp' _ _ _ _ _ _ _]. etrans; [|exact Hp]. etrans; [|exact Hp'].
    by apply prefix_app_r.
  - destruct Hw as [_ _ _ _ _ Hr _ _ _].
    destruct (rec_holds_below _ _ _ _ _ (Hr _ _ E1 E2) E3) as [? Hp]. split; [done|].
    etrans; [|exact Hp]. by apply prefix_app_r.
Qed.

Lemma slot_holds_below V p o r k v :
  slot_wf V p o r → slot_holds V o r k v → even_loc k ∧ p `prefix_of` path k.
Proof.
  destruct o as [c|]; simpl; [|apply rec_holds_below].
  intros [Hw _] Hh. destruct (node_holds_below _ _ _ _ _ Hw Hh) as [? Hp]. split; [done|].
  destruct Hw as [_ Hp' _ _ _ _ _ _ _]. by etrans.
Qed.

(** A node holds at most one value per key. *)
Lemma rec_holds_fun V p c k v v' :
  wf_rec V p c → rec_holds V c k v → rec_holds V c k v' → v = v'.
Proof.
  intros Hw. revert k v v'.
  induction Hw as [p c ->|p c [Hl Hv] Hev Hp|p c info Hi Hloc Hp Hn Hlen Hhash Htwo Hc IH H16];
    intros k v v' Hr Hr'.
  - by apply rec_holds_none in Hr.
  - apply rec_holds_leaf_inv in Hr as [-> ?], Hr' as [_ ?]; congruence.
  - inversion Hr as [|? info1 i ci ? ? ? Hn1 Hi1 Hr1]; subst; [congruence|].
    inversion Hr' as [|? info2 j cj ? ? ? Hn2 Hi2 Hr2]; subst; [congruence|].
    assert (info1 = info) by congruence. assert (info2 = info) by congruence. subst.
    assert (Hkey : ∀ i ci v, info !! i = Some ci → rec_holds V ci k v →
      i < 16 ∧ path (sublocation c) ++ [i] `prefix_of` path k
      ∨ i = 16 ∧ k = sublocation c ∧ vleaf V k = Some v).
    { intros i' ci' v0 Hi' Hh. destruct (lookup17 _ _ _ Hlen Hi') as [Hlt | ->].
      - left. split; [done|]. by eapply rec_holds_below; eauto.
      - right. by destruct (leafrec_holds _ _ _ _ _ (H16 _ Hi') Hh) as (-> & ? & ?). }
    destruct (Hkey _ _ _ Hi1 Hr1) as [[Hlt H1]|(-> & -> & H1)],
             (Hkey _ _ _ Hi2 Hr2) as [[Hlt2 H2]|(-> & E2 & H2)].
    + assert (i = j) as -> by (by eapply prefix_snoc_inv). simplify_eq. eauto.
    + subst. by apply snoc_not_prefix in H1.
    + by apply snoc_not_prefix in H2.
    + congruence.
Qed.

(** ** Framing of in-memory nodes *)

Lemma agree_at V V' p l :
  agree p V V' → wf_loc l → p `prefix_of` path l → vnode V l = vnode V' l.
Proof. intros Ha ? ?. by destruct (Ha l). Qed.

Lemma agree_leaf V V' p l :
  agree p V V' → even_loc l → p `prefix_of` path l → vleaf V l = vleaf V' l.
Proof. intros Ha He ?. destruct (Ha l) as [_ E]; auto with ceg. Qed.

Lemma summary_frame V V' n r :
  wf_loc (location_ n) → agree (path (location_ n)) V V' → summary V n r → summary V' n r.
Proof.
  intros Hl Ha [(? & E & ?)|[?|?]]; [left|by right; left|by right; right].
  split_and!; try done. by rewrite <- (agree_at _ _ _ _ Ha).
Qed.

Lemma leaf_even V p n v :
  wf_node V p n → leaf_deleted_ n = false → leaf_ n = Some v → even_loc (location_ n).
Proof.
  intros Hw E1 E2. by destruct (wf_node_leaf V p n (location_ n) v); [|split_and!; auto|].
Qed.

Lemma synced_frame V V' p n r :
  wf_node V p n → agree p V V' → synced V n r → synced V' n r.
Proof.
  intros Hw Ha [Hs Hv]. pose proof Hw as [Hl Hp _ _ _ _ _ _ _].
  assert (agree (path (location_ n)) V V') as Ha' by eauto with ceg.
  split; [by eapply summary_frame|].
  intros v E1 E2. rewrite <- (agree_leaf _ _ _ _ Ha'); eauto using leaf_even.
Qed.

Lemma leaf_ok_frame V V' n :
  agree (path (location_ n)) V V' → leaf_ok V n → leaf_ok V' n.
Proof.
  intros Ha Hl c Hc. specialize (Hl c Hc).
  destruct (leaf_deleted_ n); [done|]. destruct (leaf_ n); [done|].
  by eapply wf_leafrec_frame.
Qed.

Lemma wf_node_frame V V' p n : agree p V V' → wf_node V p n → wf_node V' p n.
Proof.
  intros Ha Hw. revert Ha.
  induction Hw as [p n Hl Hp Hc Hi Hlf Hr Hm IH Hs Hmod]; intros Ha.
  assert (Hsub : ∀ i, agree (path (location_ n) ++ [i]) V V').
  { intros i. eapply agree_weaken; [|exact Ha]. etrans; [exact Hp|]. by apply prefix_app_r. }
  constructor; [exact Hl|exact Hp|exact Hc|exact Hi| | | | |exact Hmod].
  - eapply leaf_ok_frame; [|exact Hlf]. by eapply agree_weaken.
  - intros i r E1 E2. eapply wf_rec_frame; [apply Hsub|eauto].
  - intros i c E1. by apply IH.
  - intros i c r E1 E2 E3. eapply synced_frame; [by eapply Hm|apply Hsub|eauto].
Qed.

Lemma node_holds_frame V V' p n k v :
  agree p V V' → wf_node V p n → node_holds V n k v → node_holds V' n k v.
Proof.
  intros Ha Hw Hh. revert p Ha Hw.
  induction Hh as [n v E1 E2|n c v E1 E2 E3 E4 E5|n i c k v E1 E2 IH|n i r k v E1 E2 E3];
    intros p Ha Hw; pose proof Hw as [Hl Hp _ _ _ Hr Hc _ _].
  - by apply node_leaf.
  - apply (node_dbleaf V' n c); try done. rewrite <- (agree_leaf _ _ _ _ Ha); [done| |done].
    assert (own_holds V n (location_ n) v) as Ho by (split_and!; eauto 8).
    by destruct (wf_node_leaf _ _ _ _ _ Hw Ho).
  - apply (node_mem V' n i c); [done|]. eapply IH; [|by apply Hc].
    eapply agree_weaken; [|exact Ha]. etrans; [exact Hp|]. by apply prefix_app_r.
  - apply (node_rec V' n i r); try done. eapply rec_holds_frame; [|by apply Hr|done].
    eapply agree_weaken; [|exact Ha]. etrans; [exact Hp|]. by apply prefix_app_r.
Qed.

Lemma slot_wf_frame V V' p o r : agree p V V' → slot_wf V p o r → slot_wf V' p o r.
Proof.
  intros Ha. destruct o as [c|]; simpl; [|by apply wf_rec_frame].
  intros [Hw Hs]. split; [by eapply wf_node_frame|]. intros Hm. eapply synced_frame; eauto.
Qed.

Lemma slot_holds_frame V V' p o r k v :
  agree p V V' → slot_wf V p o r → slot_holds V o r k v ↔ slot_holds V' o r k v.
Proof.
  intros Ha Hw. assert (slot_wf V' p o r) as Hw' by (by eapply slot_wf_frame).
  assert (agree p V' V) as Ha' by eauto with ceg.
  destruct o as [c|]; simpl in *.
  - destruct Hw, Hw'. split; by eapply node_holds_frame.
  - split; by eapply rec_holds_frame.
Qed.

(** ** An unmodified node means what its record means *)

(** For a node whose slots are all synced, the pairs are those of its entries. *)
Lemma entries_hold V p n k v :
  wf_node V p n →
  (∀ v, leaf_deleted_ n = false → leaf_ n = Some v → vleaf V (location_ n) = Some v) →
  (∀ i o r k v, children_ n !! i = Some o → info_ n !! i = Some r →
     slot_holds V o r k v ↔ rec_holds V r k v) →
  node_holds V n k v ↔ ∃ i r, info_ n !! i = Some r ∧ rec_holds V r k v.
Proof.
  intros [_ _ Hc Hi Hlf _ _ _ _] Hsync Heq. rewrite node_holds_iff by done.
  destruct (lookup_lt_is_Some_2 (info_ n) 16) as [c16 Hc16]; [lia|].
  specialize (Hlf c16 Hc16).
  assert (own_holds V n k v ↔ rec_holds V c16 k v) as Hown.
  { unfold own_holds. destruct (leaf_deleted_ n).
    - destruct Hlf as (_ & -> & _). split; [by intros (_ & [=] & _)|]. by intros ?%rec_holds_none.
    - destruct (leaf_ n) as [w|].
      + destruct Hlf as (_ & Ht & Hs). rewrite <- Hs in *. split.
        * intros (-> & _ & [[= ->]|[? _]]); [|done]. apply rec_leaf; auto.
        * intros [-> E]%rec_holds_leaf_inv; [|done].
          rewrite (Hsync w) in E by done. split_and!; auto.
      + split.
        * intros (-> & _ & [?|(_ & c & Hc' & Ht & E)]); [done|]. simplify_eq.
          destruct Hlf as [->|(_ & Hs & _)]; [done|]. rewrite <- Hs in *. by apply rec_leaf.
        * intros Hr. destruct (leafrec_holds _ _ _ _ _ Hlf Hr) as (-> & _ & E).
          destruct Hlf as [->|([Ht _] & _)]; [by apply rec_holds_none in Hr|]. eauto 10. }
  rewrite Hown. split.
  - intros [?|(i & o & r & ? & ? & ?)]; [eauto|]. exists i, r. split; [done|]. by eapply Heq.
  - intros (i & r & Hir & Hr). destruct (lookup17 _ _ _ Hi Hir) as [Hlt | ->].
    + right. destruct (lookup_lt_is_Some_2 (children_ n) i) as [o Ho]; [lia|].
      exists i, o, r. split_and!; [done..|]. by eapply Heq.
    + left. congruence.
Qed.

Lemma summary_holds V n r k v :
  summary V n r →
  (∃ i r', info_ n !! i = Some r' ∧ rec_holds V r' k v) ↔ rec_holds V r k v.
Proof.
  intros [(-> & E & _)|[(o & Ho & Hn)|(-> & Hn)]].
  - split.
    + intros (i & r' & Hi & Hr). by apply (rec_inner V _ (info_ n) i r').
    + intros Hr. inversion Hr as [|? info i ci ? ? ? E' Hi Hr']; subst; [done|].
      cbn in E'. rewrite E in E'. simplify_eq. eauto.
  - split; [|eauto]. intros (i & r' & Hi & Hr). destruct (decide (i = o)) as [->|Hne]; [congruence|].
    by apply rec_holds_none in Hr; [|eapply Hn].
  - split; [|by intros ?%rec_holds_none].
    intros (i & r' & Hi & Hr). by apply rec_holds_none in Hr; [|eapply Hn].
Qed.

Lemma synced_holds V p n r k v :
  wf_node V p n → modified_ n = false → synced V n r → node_holds V n k v ↔ rec_holds V r k v.
Proof.
  intros Hw. revert r k v.
  induction Hw as [p n Hl Hp Hc Hi Hlf Hr Hm IH Hs Hmod]; intros r k v Hmn [Hsum Hsl].
  rewrite <- (summary_holds V n r k v Hsum).
  apply (entries_hold V p); [by constructor|by intros w ? ?; apply Hsl|].
  intros i o r' k' v' Ho Hr'. destruct o as [c|]; simpl; [|done].
  eapply IH; eauto.
Qed.

Lemma synced_wf_rec V p n r :
  wf_node V p n → modified_ n = false → synced V n r → wf_rec V p r.
Proof.
  intros Hw. revert r.
  induction Hw as [p n Hl Hp Hc Hi Hlf Hr Hm IH Hs Hmod]; intros r Hmn [Hsum Hsl].
  assert (Hent : ∀ i r', i < 16 → info_ n !! i = Some r' → wf_rec V (path (location_ n) ++ [i]) r').
  { intros i r' Hlt Hr'. destruct (lookup_lt_is_Some_2 (children_ n) i) as [[c|] Ho]; [lia| |eauto].
    eapply IH; eauto. }
  assert (H16 : ∀ r', info_ n !! 16 = Some r' → wf_leafrec V (location_ n) r').
  { intros r' Hr'. specialize (Hlf r' Hr'). destruct (leaf_deleted_ n); [by left; destruct Hlf as (_ & ? & _)|].
    destruct (leaf_ n) as [w|]; [|done]. destruct Hlf as (? & ? & Es). right. split_and!; try done.
    split; [done|]. exists w. rewrite Es. destruct (Hsl w) as [? Hh]; auto. }
  destruct Hsum as [(-> & E & Htwo)|[(o & Ho & _)|(-> & _)]].
  - by apply (wf_rec_inner V p _ (info_ n)).
  - destruct (lookup17 _ _ _ Hi Ho) as [Hlt | ->].
    + destruct (Hent _ _ Hlt Ho) as [|? ? Hp'|info ? ? Hp'].
      * by apply wf_rec_none.
      * apply wf_rec_leaf; try done. etrans; [exact Hp|]. etrans; [|exact Hp']. by apply prefix_app_r.
      * apply (wf_rec_inner V p r info); try done.
        etrans; [exact Hp|]. etrans; [|exact Hp']. by apply prefix_app_r.
    + destruct (H16 _ Ho) as [?|(? & Hsub & ?)]; [by apply wf_rec_none|].
      apply wf_rec_leaf; by rewrite ?Hsub.
  - by apply wf_rec_none.
Qed.
End wf.

#[export] Hint Resolve agree_weaken agree_sym agree_refl : ceg.
