(* ===== verification/TrieOps.v ===== *)
(** * [Set] and [Delete] implement a finite map

    The effect of [SetItem] and [DeleteItem] on the pairs of a node ([node_holds]),
    for every storage whose reads return its committed view. *)
From S2P Require Import Prelude Location Trie TrieSpec.
From stdpp Require Import base list.
From Stdlib Require Import ZArith Lia.

(** ** What the trie relies on: the laws of a storage

    [cview] is what reads return, [pview] what they return once the pending writes
    are committed; [healthy] excludes read errors of the database. *)
Class TrieStorageLaws (S : Type) `{TrieStorage S} := {
  cview : S → view;
  pview : S → view;
  healthy : S → Prop;
  load_law s l : healthy s → storage_load s l = Ok (vnode (cview s) l);
  getleaf_law s l : healthy s → StorageGetLeaf s l = Ok (vleaf (cview s) l);
  save_node_frame s l n : cview (StorageSaveNode s l n) = cview s;
  delete_node_frame s l : cview (StorageDeleteNode s l) = cview s;
  save_leaf_frame s l v : cview (StorageSaveLeaf s l v) = cview s;
  delete_leaf_frame s l : cview (StorageDeleteLeaf s l) = cview s;
  save_node_law s l n l' : wf_loc l → wf_loc l' →
    vnode (pview (StorageSaveNode s l n)) l' = (if decide (l = l') then Some n else vnode (pview s) l')
    ∧ (even_loc l' → vleaf (pview (StorageSaveNode s l n)) l' = vleaf (pview s) l');
  delete_node_law s l l' : wf_loc l → wf_loc l' →
    vnode (pview (StorageDeleteNode s l)) l' = (if decide (l = l') then None else vnode (pview s) l')
    ∧ (even_loc l' → vleaf (pview (StorageDeleteNode s l)) l' = vleaf (pview s) l');
  save_leaf_law s l v l' : even_loc l → wf_loc l' →
    vnode (pview (StorageSaveLeaf s l v)) l' = vnode (pview s) l'
    ∧ (even_loc l' →
       vleaf (pview (StorageSaveLeaf s l v)) l' = (if decide (l = l') then Some v else vleaf (pview s) l'));
  delete_leaf_law s l l' : even_loc l → wf_loc l' →
    vnode (pview (StorageDeleteLeaf s l)) l' = vnode (pview s) l'
    ∧ (even_loc l' →
       vleaf (pview (StorageDeleteLeaf s l)) l' = (if decide (l = l') then None else vleaf (pview s) l')) }.

(** ** New nodes *)

Section nodes.
Context `{NH : NodeHash}.

Lemma lookup_replicate_None {A} n i (x y : A) : replicate n x !! i = Some y → y = x ∧ i < n.
Proof. by intros [? ?]%lookup_replicate. Qed.

Lemma wf_value_node V p l d :
  even_loc l → p `prefix_of` path l → wf_node V p (SetValue (NewNodeFrm l) d).
Proof.
  intros Hl Hp. constructor; cbn [location_ children_ info_ modified_ SetValue NewNodeFrm].
  - by apply even_wf.
  - exact Hp.
  - reflexivity.
  - reflexivity.
  - intros c [= <-]. by split_and!.
  - intros i r Hi%lookup_replicate_None Hr. destruct Hi as [_ Hi].
    do 16 (destruct i as [|i]; [simpl in Hr; simplify_eq; by apply wf_rec_none|]). lia.
  - intros i c [[=] _]%lookup_replicate_None.
  - intros i c r [[=] _]%lookup_replicate_None.
  - intros i c _ [[=] _]%lookup_replicate_None.
Qed.

Lemma value_node_holds V l d k v :
  node_holds V (SetValue (NewNodeFrm l) d) k v ↔ k = l ∧ v = d.
Proof.
  rewrite node_holds_iff by done. split.
  - intros [(-> & _ & [[= ->]|[[=] _]])|(i & o & r & Ho & Hr & Hh)]; [done|].
    apply lookup_replicate_None in Ho as [-> Hi]. simpl in Hr, Hh.
    exfalso. do 16 (destruct i as [|i]; [simpl in Hr; simplify_eq; by apply rec_holds_none in Hh|]). lia.
  - intros [-> ->]. left. split_and!; auto.
Qed.

Lemma wf_new_node V p l : wf_loc l → p `prefix_of` path l → wf_node V p (NewNodeFrm l).
Proof.
  intros Hl Hp. constructor; cbn [location_ children_ info_ modified_ NewNodeFrm].
  - exact Hl.
  - exact Hp.
  - reflexivity.
  - reflexivity.
  - intros c [= <-]. by left.
  - intros i r _ [-> _]%lookup_replicate_None. by apply wf_rec_none.
  - intros i c [[=] _]%lookup_replicate_None.
  - intros i c r [[=] _]%lookup_replicate_None.
  - intros i c _ [[=] _]%lookup_replicate_None.
Qed.

Lemma new_node_holds V l k v : ¬ node_holds V (NewNodeFrm l) k v.
Proof.
  rewrite node_holds_iff by done. intros [(-> & _ & [[=]|(_ & c & Hc & Ht & _)])|(i & o & r & Ho & Hr & Hh)].
  - simpl in Hc. naive_solver.
  - apply lookup_replicate_None in Ho as [-> _]. apply lookup_replicate_None in Hr as [-> _].
    by apply rec_holds_none in Hh.
Qed.

(** ** Replacing one slot of a node *)

(** [n] with the child [c] in slot [b], the entries [info'] and the flag [m]. *)
Definition put_child (n : NodeFrm) (b : nat) (c : NodeFrm) (info' : Node) (m : bool) : NodeFrm :=
  MkNode (location_ n) (<[b := Some c]> (children_ n)) info' m (leaf_deleted_ n) (leaf_ n).

Lemma wf_put_child V p n b c info' m :
  wf_node V p n → b < 16 → length info' = 17 →
  (∀ j, j ≠ b → info' !! j = info_ n !! j) →
  wf_node V (path (location_ n) ++ [b]) c →
  (modified_ c = false → ∀ r, info' !! b = Some r → synced V c r) →
  (m = false → modified_ n = false ∧ modified_ c = false) →
  wf_node V p (put_child n b c info' m).
Proof.
  intros [Hl Hp Hc Hi Hlf Hr Hm Hs Hmod] Hb Hlen Heq Hwc Hsync Hm'.
  constructor; cbn [location_ children_ info_ modified_ put_child].
  - exact Hl.
  - exact Hp.
  - by rewrite length_insert.
  - exact Hlen.
  - intros c' Hc'. simpl in Hc'. rewrite Heq in Hc' by lia. by apply Hlf.
  - intros i r. rewrite lookup_insert_list by lia. case_decide; [done|].
    rewrite Heq by done. apply Hr.
  - intros i c'. rewrite lookup_insert_list by lia. case_decide; [intros [= <-]; by subst|]. apply Hm.
  - intros i c' r. rewrite lookup_insert_list by lia. case_decide as Eb.
    { intros [= <-]. subst. auto. }
    rewrite Heq by done. apply Hs.
  - intros i c' [Hn Hcm]%Hm'. rewrite lookup_insert_list by lia. case_decide; [by intros [= <-]|].
    by apply Hmod.
Qed.

Lemma put_child_holds V n b c info' m k v :
  length (children_ n) = 16 → length (info_ n) = 17 → b < 16 → length info' = 17 →
  (∀ j, j ≠ b → info' !! j = info_ n !! j) →
  node_holds V (put_child n b c info' m) k v ↔
  own_holds V n k v ∨ node_holds V c k v ∨
  ∃ i o r, i ≠ b ∧ children_ n !! i = Some o ∧ info_ n !! i = Some r ∧ slot_holds V o r k v.
Proof.
  intros Hc Hi Hb Hlen Heq. rewrite node_holds_iff by (simpl; rewrite ?length_insert; done).
  assert (own_holds V (put_child n b c info' m) k v ↔ own_holds V n k v) as ->.
  { unfold own_holds. simpl. by rewrite Heq by lia. }
  f_equiv. split.
  - intros (i & o & r & Ho & Hr & Hh). simpl in Ho. rewrite lookup_insert_list in Ho by lia.
    case_decide; simplify_eq; [by left|]. right. simpl in Hr. rewrite Heq in Hr by done.
    by exists i, o, r.
  - intros [Hh|(i & o & r & Hne & Ho & Hr & Hh)].
    + destruct (lookup_lt_is_Some_2 info' b) as [r Hr]; [lia|].
      exists b, (Some c), r. split_and!; [|done..]. simpl.
      rewrite lookup_insert_list by lia. by rewrite decide_True.
    + exists i, o, r. simpl. rewrite lookup_insert_list by lia.
      rewrite decide_False by done. by rewrite Heq.
Qed.

(** The pairs of a node whose path is not below slot [b] do not come from it. *)
Lemma slots_split V p n b ob rb k v :
  wf_node V p n → children_ n !! b = Some ob → info_ n !! b = Some rb →
  node_holds V n k v ↔
  own_holds V n k v ∨ slot_holds V ob rb k v ∨
  ∃ i o r, i ≠ b ∧ children_ n !! i = Some o ∧ info_ n !! i = Some r ∧ slot_holds V o r k v.
Proof.
  intros [_ _ Hc Hi _ _ _ _ _] Hob Hrb. rewrite node_holds_iff by done. f_equiv. split.
  - intros (i & o & r & Ho & Hr & Hh). destruct (decide (i = b)) as [->|?]; [|eauto 10].
    left. by simplify_eq.
  - intros [Hh|(i & o & r & Hne & Ho & Hr & Hh)]; eauto 8.
Qed.

(** Every other part of the node is silent on keys below branch [b]. *)
Lemma others_below V p n b k v :
  wf_node V p n → path (location_ n) ++ [b] `prefix_of` path k →
  ¬ (own_holds V n k v ∨
     ∃ i o r, i ≠ b ∧ children_ n !! i = Some o ∧ info_ n !! i = Some r ∧ slot_holds V o r k v).
Proof.
  intros Hw Hk [Ho|(i & o & r & Hne & Ho & Hr & Hh)].
  - destruct (wf_node_leaf _ _ _ _ _ Hw Ho) as [_ ->]. by apply snoc_not_prefix in Hk.
  - pose proof (wf_node_slot _ _ _ _ _ _ Hw Ho Hr) as Hsw.
    destruct (slot_holds_below _ _ _ _ _ _ Hsw Hh) as [_ Hp].
    destruct Hne. by eapply prefix_snoc_inv.
Qed.

(** Filling a slot with a node of the same pairs changes nothing. *)
Lemma put_same_holds V p n b c r info' m k v :
  wf_node V p n → b < 16 → info_ n !! b = Some r → length info' = 17 →
  (∀ j, j ≠ b → info' !! j = info_ n !! j) →
  (∀ ob k v, children_ n !! b = Some ob → node_holds V c k v ↔ slot_holds V ob r k v) →
  node_holds V (put_child n b c info' m) k v ↔ node_holds V n k v.
Proof.
  intros Hw Hb Hr Hlen Heq Hsame. pose proof Hw as [_ _ Hc Hi _ _ _ _ _].
  destruct (lookup_lt_is_Some_2 (children_ n) b) as [ob Hob]; [lia|].
  rewrite put_child_holds, (slots_split V p n b ob r) by done.
  by rewrite (Hsame ob) by done.
Qed.

Lemma set_children_put n b c : set_children (<[b := Some c]> (children_ n)) n = put_child n b c (info_ n) (modified_ n).
Proof. done. Qed.

Lemma set_children_id n : set_children (children_ n) n = n.
Proof. by destruct n. Qed.

(** ** [ChildMayFromDB] *)

(** The node loaded for a record. *)
Lemma loaded_leaf V p r :
  childtype r = LEAF → wf_rec V p r →
  let frm := set_info (<[16 := r]> (replicate 17 empty_child))
               (set_modified false (NewNodeFrm (sublocation r))) in
  wf_node V p frm ∧ synced V frm r.
Proof.
  intros Ht Hr. assert (even_loc (sublocation r) ∧ p `prefix_of` path (sublocation r) ∧ leaf_of V r)
    as (Hev & Hp & Hv) by (destruct Hr as [->| |]; [done|done|congruence]).
  split.
  - constructor; cbn [location_ children_ info_ modified_ set_info set_modified NewNodeFrm].
    + by apply even_wf.
    + exact Hp.
    + reflexivity.
    + reflexivity.
    + intros c [= <-]. right. by split_and!.
    + intros i r' [_ Hi]%lookup_replicate_None Hr'. rewrite list_lookup_insert_ne in Hr' by lia.
      apply lookup_replicate_None in Hr' as [-> _]. by apply wf_rec_none.
    + intros i c [[=] _]%lookup_replicate_None.
    + intros i c r' [[=] _]%lookup_replicate_None.
    + intros i c _ [[=] _]%lookup_replicate_None.
  - split; [|done]. right. left. exists 16. split; [done|].
    intros j c Hj Hc. cbn [info_ set_info] in Hc. rewrite list_lookup_insert_ne in Hc by done.
    by apply lookup_replicate_None in Hc as [-> _].
Qed.

Lemma loaded_inner V p r info :
  childtype r = INNER → wf_rec V p r → vnode V (sublocation r) = Some info →
  let frm := set_info info (set_modified false (NewNodeFrm (sublocation r))) in
  wf_node V p frm ∧ synced V frm r.
Proof.
  intros Ht Hr Hn. destruct Hr as [->|[? _]|info' _ Hl Hp Hn' Hlen Hh Htwo Hc H16]; [done|congruence|].
  rewrite Hn in Hn'. simplify_eq. split.
  - constructor; cbn [location_ children_ info_ modified_ set_info set_modified NewNodeFrm].
    + exact Hl.
    + exact Hp.
    + reflexivity.
    + exact Hlen.
    + intros c Hc'. by apply H16.
    + intros i r' [_ Hi]%lookup_replicate_None Hr'. by apply Hc.
    + intros i c [[=] _]%lookup_replicate_None.
    + intros i c r' [[=] _]%lookup_replicate_None.
    + intros i c _ [[=] _]%lookup_replicate_None.
  - split; [|done]. left. cbn. rewrite <- Hh. split_and!; [|done..]. destruct r. cbn in *. by subst.
Qed.

(** ** Descending towards a key *)

Lemma descend l key :
  wf_loc l → wf_loc key → path l `prefix_of` path key → l ≠ key →
  ∃ b, NextBranch (CommonPrefix l key) key = Ok b ∧ b < 16 ∧ path l ++ [b] `prefix_of` path key.
Proof.
  intros Hl Hk Hp Hne. rewrite CommonPrefix_prefix by done.
  destruct (prefix_proper_lookup (path l) (path key)) as (b & Hb & Hpb); [done| |].
  { intros E. by apply Hne, path_inj. }
  exists b. split_and!; [by apply NextBranch_spec| |done].
  apply (path_bound key); [done|]. by eapply list_elem_of_lookup_2.
Qed.

(** The effect of an update of [key] inside slot [b] on the whole node. *)
Lemma put_update_holds V p n b X ob r info' m key (Q : bytes → Prop) k v :
  wf_node V p n → b < 16 → children_ n !! b = Some ob → info_ n !! b = Some r →
  length info' = 17 → (∀ j, j ≠ b → info' !! j = info_ n !! j) →
  path (location_ n) ++ [b] `prefix_of` path key →
  (∀ k v, node_holds V X k v ↔ (k = key ∧ Q v) ∨ (k ≠ key ∧ slot_holds V ob r k v)) →
  node_holds V (put_child n b X info' m) k v ↔ (k = key ∧ Q v) ∨ (k ≠ key ∧ node_holds V n k v).
Proof.
  intros Hw Hb Hob Hr Hlen Heq Hp HX. pose proof Hw as [_ _ Hc Hi _ _ _ _ _].
  rewrite put_child_holds, (slots_split V p n b ob r) by done. rewrite HX.
  destruct (decide (k = key)) as [->|Hne]; [|tauto].
  pose proof (others_below V p n b key v Hw Hp) as Ho. tauto.
Qed.

(** ** Keys whose leaf the next [update_hash] writes or deletes *)

Inductive touched : NodeFrm → bytes → option bytes → Prop :=
  | touched_del n : leaf_deleted_ n = true → touched n (location_ n) None
  | touched_set n v :
      leaf_deleted_ n = false → leaf_ n = Some v → touched n (location_ n) (Some v)
  | touched_child n i c k o :
      children_ n !! i = Some (Some c) → modified_ c = true → touched c k o → touched n k o.

Definition is_touched (n : NodeFrm) (k : bytes) : Prop := ∃ o, touched n k o.

Lemma touched_put n b c info' m k :
  b < length (children_ n) → is_touched n k →
  (∀ c0, children_ n !! b = Some (Some c0) → modified_ c0 = true → is_touched c0 k →
     modified_ c = true ∧ is_touched c k) →
  is_touched (put_child n b c info' m) k.
Proof.
  intros Hb [o Ht] Hc. inversion Ht as [? E|? v E1 E2|? i c0 ? ? E1 E2 E3]; subst.
  - exists None. by apply (touched_del (put_child n b c info' m)).
  - exists (Some v). by apply (touched_set (put_child n b c info' m)).
  - destruct (decide (i = b)) as [->|Hne].
    + destruct (Hc _ E1 E2) as [Hm [o' Ht']]; [by exists o|]. exists o'.
      apply (touched_child _ b c); [|done..]. simpl. by rewrite list_lookup_insert_eq.
    + exists o. apply (touched_child _ i c0); [|done..]. simpl. by rewrite list_lookup_insert_ne.
Qed.

Lemma touched_put_new n b c info' m k :
  b < length (children_ n) → modified_ c = true → is_touched c k →
  is_touched (put_child n b c info' m) k.
Proof.
  intros Hb Hm [o Ht]. exists o. apply (touched_child _ b c); [|done..]. simpl.
  by rewrite list_lookup_insert_eq.
Qed.

Lemma touched_value l d : is_touched (SetValue (NewNodeFrm l) d) l.
Proof. exists (Some d). by apply (touched_set (SetValue (NewNodeFrm l) d)). Qed.

(** The fields that the record of an unmodified node depends on. *)
Definition same_summary (n n' : NodeFrm) : Prop :=
  info_ n' = info_ n ∧ location_ n' = location_ n ∧
  leaf_deleted_ n' = leaf_deleted_ n ∧ leaf_ n' = leaf_ n.

Lemma synced_same V n n' r : same_summary n n' → synced V n r → synced V n' r.
Proof. intros (E1 & E2 & E3 & E4). unfold synced, summary. by rewrite E1, E2, E3, E4. Qed.
End nodes.

Section ops.
Context {S : Type} `{TrieStorage S} (s : S) (V : view).
Context (Hload : ∀ l, storage_load s l = Ok (vnode V l)).

Lemma ChildMayFromDB_spec p n b :
  wf_node V p n → b < 16 →
  ∃ n1 o r, ChildMayFromDB s n b = Ok (n1, o) ∧ wf_node V p n1 ∧
    n1 = set_children (<[b := o]> (children_ n)) n ∧
    info_ n !! b = Some r ∧
    (∀ k v, node_holds V n1 k v ↔ node_holds V n k v) ∧
    (o = None → childtype r = NONE) ∧
    (∀ c, o = Some c → children_ n !! b = Some (Some c) ∨ children_ n !! b = Some None ∧ modified_ c = false
       ∧ childtype r ≠ NONE).
Proof.
  intros Hw Hb. pose proof Hw as [Hl Hp Hc Hi _ Hrec Hmem _ _].
  destruct (lookup_lt_is_Some_2 (children_ n) b) as [ob Hob]; [lia|].
  destruct (lookup_lt_is_Some_2 (info_ n) b) as [r Hr]; [lia|].
  unfold ChildMayFromDB. rewrite (at_Some _ _ _ Hob). cbn.
  destruct ob as [c|].
  { exists n, (Some c), r. rewrite list_insert_id, set_children_id by done.
    split_and!; [done..|]. intros c' [= <-]. by left. }
  rewrite (at_Some _ _ _ Hr). cbn. pose proof (Hrec _ _ Hob Hr) as Hwr.
  assert (Hload1 : ∀ c, wf_node V (path (location_ n) ++ [b]) c → synced V c r → modified_ c = false →
    let n1 := set_children (<[b := Some c]> (children_ n)) n in
    wf_node V p n1 ∧ ∀ k v, node_holds V n1 k v ↔ node_holds V n k v).
  { intros c Hwc Hsc Hmc n1. subst n1. rewrite set_children_put. split.
    - apply wf_put_child; try done. intros _ r' Hr'. congruence.
    - intros k v. apply (put_same_holds V p n b c r); try done.
      intros ob k' v' Hob'. simplify_eq. simpl. by eapply synced_holds. }
  destruct (childtype r) eqn:Ht.
  - exists n, None, r. rewrite list_insert_id, set_children_id by done. split_and!; try done.
  - assert (∃ info, vnode V (sublocation r) = Some info) as [info Hn]
      by (destruct Hwr as [->|[? _]|info]; [done|congruence|by exists info]).
    rewrite Hload, Hn. cbn.
    destruct (loaded_inner V _ r info Ht Hwr Hn) as [Hwc Hsc].
    eexists _, _, r. split; [done|]. destruct (Hload1 _ Hwc Hsc eq_refl) as [H1 H2].
    split_and!; try done. intros c [= <-]. right. by rewrite Ht.
  - destruct (loaded_leaf V _ r Ht Hwr) as [Hwc Hsc].
    eexists _, _, r. split; [done|]. destruct (Hload1 _ Hwc Hsc eq_refl) as [H1 H2].
    split_and!; try done. intros c [= <-]. right. by rewrite Ht.
Qed.

(** Filling the slot from the database touches nothing. *)
Lemma ChildMayFromDB_touched n b n1 o k :
  ChildMayFromDB s n b = Ok (n1, o) → n1 = set_children (<[b := o]> (children_ n)) n →
  (∀ c, o = Some c → children_ n !! b = Some (Some c) ∨ modified_ c = false) →
  b < length (children_ n) → is_touched n k → is_touched n1 k.
Proof.
  intros Hdb -> Ho Hb [o' Ht]. exists o'.
  inversion Ht as [? E|? v E1 E2|? i c0 ? ? E1 E2 E3]; subst.
  - by apply (touched_del (set_children _ n)).
  - by apply (touched_set (set_children _ n)).
  - apply (touched_child _ i c0); [|done..]. simpl. rewrite lookup_insert_list by done.
    case_decide; [|done]. subst. f_equal. unfold ChildMayFromDB in Hdb.
    rewrite (at_Some _ _ _ E1) in Hdb. cbn in Hdb. unfold mret, res_ret in Hdb. congruence.
Qed.

(** [n1] is the node [n] with slot [b] filled from the database by [ChildMayFromDB]:
    the slot is [o] and its record is [r]. *)
Record opened (p : list nat) (n : NodeFrm) (b : nat) (n1 : NodeFrm) (o : option NodeFrm) (r : Child)
    : Prop := {
  op_wf : wf_node V p n1;
  op_bound : b < 16;
  op_same : same_summary n n1;
  op_mod : modified_ n1 = modified_ n;
  op_slot : children_ n1 !! b = Some o;
  op_rec : info_ n1 !! b = Some r;
  op_holds k v : node_holds V n1 k v ↔ node_holds V n k v;
  op_touched k : is_touched n k → is_touched n1 k;
  op_none : o = None → childtype r = NONE }.

Lemma open_child p n b : wf_node V p n → b < 16 →
  ∃ n1 o r, ChildMayFromDB s n b = Ok (n1, o) ∧ opened p n b n1 o r.
Proof.
  intros Hw Hb. pose proof Hw as [_ _ Hlc _ _ _ _ _ _].
  destruct (ChildMayFromDB_spec p n b Hw Hb) as (n1 & o & r & Hdb & Hw1 & Hn1 & Hr & Hh1 & Hno & Hso).
  exists n1, o, r. split; [done|]. split; [exact Hw1|exact Hb|by rewrite Hn1|by rewrite Hn1| |
    by rewrite Hn1|exact Hh1| |exact Hno].
  - rewrite Hn1. simpl. apply list_lookup_insert_eq. lia.
  - intros k Ht. eapply ChildMayFromDB_touched; eauto; [|lia].
    intros c Hc. destruct (Hso c Hc) as [?|(_ & ? & _)]; auto.
Qed.

Lemma opened_loc p n b n1 o r : opened p n b n1 o r → location_ n1 = location_ n.
Proof. intros Ho. by destruct (op_same _ _ _ _ _ _ Ho) as (_ & ? & _). Qed.

Lemma opened_slot p n b n1 o r :
  opened p n b n1 o r → slot_wf V (path (location_ n) ++ [b]) o r.
Proof.
  intros Ho. rewrite <- (opened_loc _ _ _ _ _ _ Ho).
  eapply wf_node_slot; [apply Ho|apply (op_slot _ _ _ _ _ _ Ho)|apply Ho].
Qed.

(** The contract of an update of [key] on node [n] that returned [n']. *)
Record updated (key : bytes) (Q : bytes → Prop) (p : list nat) (n n' : NodeFrm) : Prop := {
  up_wf : wf_node V p n';
  up_loc : location_ n' = location_ n;
  up_holds k v : node_holds V n' k v ↔ (k = key ∧ Q v) ∨ (k ≠ key ∧ node_holds V n k v);
  up_touched k : is_touched n k → is_touched n' k }.

(** Updating [key] in slot [b] updates it in the node. *)
Lemma updated_put key Q p n b n1 o r X info' m :
  opened p n b n1 o r → path (location_ n) ++ [b] `prefix_of` path key →
  length info' = 17 → (∀ j, j ≠ b → info' !! j = info_ n1 !! j) →
  wf_node V (path (location_ n) ++ [b]) X →
  (modified_ X = false → ∀ r', info' !! b = Some r' → synced V X r') →
  (m = false → modified_ n1 = false ∧ modified_ X = false) →
  (∀ k v, node_holds V X k v ↔ (k = key ∧ Q v) ∨ (k ≠ key ∧ slot_holds V o r k v)) →
  (∀ c k, o = Some c → modified_ c = true → is_touched c k → modified_ X = true ∧ is_touched X k) →
  updated key Q p n (put_child n1 b X info' m).
Proof.
  intros Ho Hpb Hlen Heq HwX HsX HmX HX HtX. pose proof (opened_loc _ _ _ _ _ _ Ho) as Hl1.
  destruct Ho as [Hw1 Hb _ _ Hslot Hrec Hh1 Ht1 _]. rewrite <- Hl1 in HwX, Hpb. split.
  - by apply wf_put_child.
  - done.
  - intros k v. rewrite <- Hh1. by apply (put_update_holds V p n1 b X o r).
  - intros k Ht. apply touched_put; [by destruct Hw1; lia|auto|].
    intros c0 Hc0 Hm0 Ht0. rewrite Hslot in Hc0. simplify_eq. eauto.
Qed.

(** The same for a modified node in the slot, as [SetItem] leaves it. *)
Lemma updated_set key d p n b n1 o r X info' :
  opened p n b n1 o r → path (location_ n) ++ [b] `prefix_of` path key →
  length info' = 17 → (∀ j, j ≠ b → info' !! j = info_ n1 !! j) →
  wf_node V (path (location_ n) ++ [b]) X → modified_ X = true →
  (∀ k v, node_holds V X k v ↔ (k = key ∧ v = d) ∨ (k ≠ key ∧ slot_holds V o r k v)) →
  is_touched X key → (∀ c k, o = Some c → modified_ c = true → is_touched c k → is_touched X k) →
  let n' := put_child n1 b X info' true in
  updated key (λ v, v = d) p n n' ∧ modified_ n' = true ∧ is_touched n' key.
Proof.
  intros Ho Hpb Hlen Heq HwX HmX HX HtX HtX' n'. split_and!.
  - eapply updated_put; eauto; congruence.
  - done.
  - destruct Ho as [Hw1 Hb _ _ _ _ _ _ _]. apply touched_put_new; [by destruct Hw1; lia|done..].
Qed.

(** The three ways to place a new leaf next to the node found in the slot. *)

(** [newnode] above [node2]. *)
Lemma newnode_above p key d b1 node2 child2 :
  let newnode := SetChild (SetValue (NewNodeFrm key) d) b1 node2 in
  let newnode := set_info (<[b1 := child2]> (info_ newnode)) newnode in
  even_loc key → p `prefix_of` path key → b1 < 16 → path key ++ [b1] `prefix_of` path (location_ node2) →
  wf_node V p node2 → (modified_ node2 = false → synced V node2 child2) →
  wf_node V p newnode ∧
  (∀ k v, node_holds V newnode k v ↔ (k = key ∧ v = d) ∨ (k ≠ key ∧ node_holds V node2 k v)) ∧
  is_touched newnode key ∧
  (∀ k, modified_ node2 = true → is_touched node2 k → is_touched newnode k).
Proof.
  intros newnode0 newnode Hk Hp Hb Hp2 Hw2 Hs2. subst newnode0.
  set (info' := <[b1 := child2]> (alter (with_sublocation (location_ node2)) b1
                  (info_ (SetValue (NewNodeFrm key) d)))).
  assert (newnode = put_child (SetValue (NewNodeFrm key) d) b1 node2 info' true) as -> by done.
  assert (length info' = 17) as Hlen by (unfold info'; rewrite length_insert, length_alter; done).
  assert (Heq : ∀ j, j ≠ b1 → info' !! j = info_ (SetValue (NewNodeFrm key) d) !! j).
  { intros j Hj. unfold info'. rewrite list_lookup_insert_ne by done. by apply list_lookup_alter_ne. }
  assert (wf_node V p (SetValue (NewNodeFrm key) d)) as Hwn by (by apply wf_value_node).
  split_and!.
  - apply wf_put_child; [exact Hwn|exact Hb|exact Hlen|exact Heq|by eapply wf_node_weaken| |done].
    intros Hm r. unfold info'. rewrite list_lookup_insert_eq by (rewrite length_alter; simpl; lia).
    intros [= <-]. by apply Hs2.
  - intros k v. rewrite put_child_holds by done.
    assert (Hb2 : node_holds V node2 k v → k ≠ key).
    { intros Hh ->. destruct (node_holds_below _ _ _ _ _ Hw2 Hh) as [_ Hpre].
      apply (snoc_not_prefix (path key) b1). by etrans. }
    assert (Hv := value_node_holds V key d k v). rewrite node_holds_iff in Hv by done.
    split; [|intros [Hkv|[? ?]]].
    + intros [?|[?|(i & o & r & _ & ?)]]; [left; tauto|right; auto|].
      left. apply Hv. right. eauto.
    + apply Hv in Hkv as [?|(i & o & r & Ho & Hr & Hh)]; [by left|]. right. right.
      destruct (decide (i = b1)) as [->|]; [|eauto 10].
      apply lookup_replicate_None in Ho as [-> _]. simpl in Hh, Hr.
      exfalso. do 16 (destruct b1 as [|b1]; [simpl in Hr; simplify_eq; by apply rec_holds_none in Hh|]). lia.
    + auto.
  - eapply touched_put; [simpl; lia|apply touched_value|]. intros c0. by intros [[=] _]%lookup_replicate_None.
  - intros k Hm Ht. by apply touched_put_new; [simpl; lia|..].
Qed.

(** [mnode] above [node2] and [newnode]. *)
Lemma mnode_above p nc key d b1 b2 node2 child2 :
  let newnode := SetValue (NewNodeFrm key) d in
  let mnode := SetChild (SetChild (NewNodeFrm nc) b1 newnode) b2 node2 in
  let mnode := set_info (<[b2 := child2]> (info_ mnode)) mnode in
  even_loc key → wf_loc nc → p `prefix_of` path nc → b1 < 16 → b2 < 16 → b1 ≠ b2 →
  path nc ++ [b1] `prefix_of` path key → path nc ++ [b2] `prefix_of` path (location_ node2) →
  wf_node V p node2 → (modified_ node2 = false → synced V node2 child2) →
  wf_node V p mnode ∧
  (∀ k v, node_holds V mnode k v ↔ (k = key ∧ v = d) ∨ (k ≠ key ∧ node_holds V node2 k v)) ∧
  is_touched mnode key ∧
  (∀ k, modified_ node2 = true → is_touched node2 k → is_touched mnode k).
Proof.
  intros newnode mnode0 mnode Hk Hnc Hp Hb1 Hb2 Hne Hp1 Hp2 Hw2 Hs2. subst mnode0.
  set (info1 := alter (with_sublocation key) b1 (info_ (NewNodeFrm nc))).
  set (m1 := put_child (NewNodeFrm nc) b1 newnode info1 true).
  set (info2 := <[b2 := child2]> (alter (with_sublocation (location_ node2)) b2 info1)).
  assert (mnode = put_child m1 b2 node2 info2 true) as -> by done.
  assert (length info1 = 17) as Hl1 by (unfold info1; by rewrite length_alter).
  assert (length info2 = 17) as Hl2 by (unfold info2; rewrite length_insert, length_alter; done).
  assert (Heq1 : ∀ j, j ≠ b1 → info1 !! j = info_ (NewNodeFrm nc) !! j).
  { intros j Hj. by apply list_lookup_alter_ne. }
  assert (Heq2 : ∀ j, j ≠ b2 → info2 !! j = info_ m1 !! j).
  { intros j Hj. unfold info2. rewrite list_lookup_insert_ne by done. by apply list_lookup_alter_ne. }
  assert (wf_node V p m1) as Hwm1.
  { apply wf_put_child; [by apply wf_new_node|exact Hb1|exact Hl1|exact Heq1| |done|done].
    by apply wf_value_node. }
  assert (Hm1 : ∀ k v, node_holds V m1 k v ↔ k = key ∧ v = d).
  { intros k v. unfold m1. rewrite put_child_holds by done. unfold newnode. rewrite value_node_holds.
    split; [|by auto]. intros [Hh|[?|(i & o & r & _ & Ho & Hr & Hh)]]; [|done|];
      destruct (new_node_holds V nc k v); apply node_holds_iff; eauto 8. }
  assert (Hslot : children_ m1 !! b2 = Some None).
  { unfold m1. cbn [children_ put_child NewNodeFrm].
    rewrite list_lookup_insert_ne by done. by apply lookup_replicate_2. }
  assert (Hlenm : length (children_ m1) = 16) by (simpl; by rewrite length_insert).
  split_and!.
  - apply wf_put_child; [exact Hwm1|exact Hb2|exact Hl2|exact Heq2|by eapply wf_node_weaken| |done].
    intros Hm r. unfold info2. rewrite list_lookup_insert_eq by (rewrite length_alter; lia).
    intros [= <-]. by apply Hs2.
  - intros k v. destruct (lookup_lt_is_Some_2 (info_ m1) b2) as [r2 Hr2]; [simpl; lia|].
    assert (Hb : node_holds V node2 k v → k ≠ key).
    { intros Hh ->. destruct (node_holds_below _ _ _ _ _ Hw2 Hh) as [_ Hpre].
      destruct Hne. eapply (prefix_snoc_inv (path nc)); [exact Hp1|]. by etrans. }
    specialize (Hm1 k v). rewrite (slots_split V p m1 b2 None r2) in Hm1 by done.
    assert (Hnone : ¬ slot_holds V None r2 k v).
    { intros Hh. unfold m1 in Hr2. cbn [info_ put_child] in Hr2. simpl in Hh. rewrite Heq1 in Hr2 by done.
      apply lookup_replicate_None in Hr2 as [-> _]. by apply rec_holds_none in Hh. }
    rewrite put_child_holds by done. tauto.
  - eapply touched_put; [lia| |by rewrite Hslot].
    apply touched_put_new; [simpl; lia|done|apply touched_value].
  - intros k Hm Ht. by apply touched_put_new; [lia|..].
Qed.

(** Marking a node as modified. *)
Lemma mark_modified p n : wf_node V p n →
  wf_node V p (set_modified true n) ∧
  (∀ k v, node_holds V (set_modified true n) k v ↔ node_holds V n k v) ∧
  ∀ k, is_touched n k → is_touched (set_modified true n) k.
Proof.
  intros Hw. split_and!.
  - destruct Hw as [? ? ? ? ? ? ? ? ?]. by constructor.
  - intros k v. pose proof Hw as [_ _ ? ? _ _ _ _ _]. by rewrite !node_holds_iff.
  - intros k [o Ht]. exists o. inversion Ht; subst.
    + by apply (touched_del (set_modified true n)).
    + by apply (touched_set (set_modified true n)).
    + by eapply touched_child.
Qed.

Lemma wf_SetValue p n d :
  wf_node V p n → even_loc (location_ n) → wf_node V p (SetValue n d).
Proof.
  intros [? ? ? Hlen ? Hr Hm Hs Hmod] Hev. constructor; simpl in *; try assumption; try done.
  - by rewrite length_alter.
  - intros c Hc. simpl in *. rewrite list_lookup_alter_eq in Hc.
    apply fmap_Some in Hc as (c0 & _ & ->). done.
  - intros i r Hi Hri. rewrite list_lookup_alter_ne in Hri by (apply lookup_lt_Some in Hi; lia). eauto.
  - intros i c r Hi Hmc Hri. rewrite list_lookup_alter_ne in Hri by (apply lookup_lt_Some in Hi; lia). eauto.
Qed.

Lemma SetValue_spec p n d :
  wf_node V p n → even_loc (location_ n) →
  updated (location_ n) (λ v, v = d) p n (SetValue n d) ∧ is_touched (SetValue n d) (location_ n).
Proof.
  intros Hw Hev. pose proof Hw as [_ _ Hlc Hli _ _ _ _ _].
  assert (is_touched (SetValue n d) (location_ n)) as Htn
    by (exists (Some d); by apply (touched_set (SetValue n d))).
  split; [|exact Htn]. split; [by apply wf_SetValue|done| |].
  - intros k v. rewrite (node_holds_iff _ n), node_holds_iff by (simpl; rewrite ?length_alter; done).
    assert (Hslots : (∃ i o r, children_ (SetValue n d) !! i = Some o ∧ info_ (SetValue n d) !! i = Some r
        ∧ slot_holds V o r k v) ↔
       ∃ i o r, children_ n !! i = Some o ∧ info_ n !! i = Some r ∧ slot_holds V o r k v).
    { split; intros (i & o & r & Ho & Hr & Hh); exists i, o, r; simpl in *;
        rewrite list_lookup_alter_ne in * by (apply lookup_lt_Some in Ho; lia); done. }
    rewrite Hslots. unfold own_holds. simpl. split.
    + intros [(-> & _ & [[= ->]|[[=] _]])|(i & o & r & Ho & Hr & Hh)]; [by left|right].
      split; [|by eauto 8]. intros ->. pose proof (wf_node_slot _ _ _ _ _ _ Hw Ho Hr) as Hsw.
      destruct (slot_holds_below _ _ _ _ _ _ Hsw Hh) as [_ Hp]. by apply snoc_not_prefix in Hp.
    + intros [[-> ->]|[Hne [(-> & _)|?]]]; [|done|by right]. left. auto.
  - intros k [o Ht]. inversion Ht as [? E|? v E1 E2|? i c0 ? ? E1 E2 E3]; subst; [exact Htn|exact Htn|].
    exists o. by apply (touched_child (SetValue n d) i c0).
Qed.

(** [SetItem] when the slot is empty, and when it holds a node off the path of the key. *)
Definition set_slot (n1 : NodeFrm) (b : nat) (o : option NodeFrm) (child2 : Child) (key d : bytes)
    : res (NodeFrm * bool) :=
  match o with
  | None =>
      let node := SetChild n1 b (SetValue (NewNodeFrm key) d) in
      mret (set_info (alter (with_childtype LEAF) b (info_ node)) node, true)
  | Some node2 =>
      let nc := CommonPrefix key (location_ node2) in
      if decide (nc = key) then
        b1 ← NextBranch nc (location_ node2);
        let newnode := SetChild (SetValue (NewNodeFrm key) d) b1 node2 in
        let newnode := set_info (<[b1 := child2]> (info_ newnode)) newnode in
        let node := SetChild n1 b newnode in
        mret (set_info (alter (with_childtype INNER) b (info_ node)) node, true)
      else
        b1 ← NextBranch nc key;
        b2 ← NextBranch nc (location_ node2);
        let mnode := SetChild (SetChild (NewNodeFrm nc) b1 (SetValue (NewNodeFrm key) d)) b2 node2 in
        let mnode := set_info (<[b2 := child2]> (info_ mnode)) mnode in
        mret (SetChild n1 b mnode, true)
  end.

Lemma set_slot_spec key d p n b n1 o r : even_loc key →
  opened p n b n1 o r → path (location_ n) ++ [b] `prefix_of` path key →
  (∀ node2, o = Some node2 → CommonPrefix key (location_ node2) ≠ location_ node2) →
  ∃ n', set_slot n1 b o r key d = Ok (n', true) ∧
    updated key (λ v, v = d) p n n' ∧ modified_ n' = true ∧ is_touched n' key.
Proof.
  intros Hk Ho Hpb Hoff. pose proof (even_wf _ Hk) as Hkw.
  pose proof (opened_slot _ _ _ _ _ _ Ho) as Hsl. pose proof (op_none _ _ _ _ _ _ Ho) as Hno.
  assert (length (info_ n1) = 17) as Hi1 by (by destruct Ho as [[] _ _ _ _ _ _ _ _]).
  destruct o as [node2|]; cbn [set_slot].
  2:{ eexists. split; [done|].
      apply (updated_set key d p n b n1 None r (SetValue (NewNodeFrm key) d)
        (alter (with_childtype LEAF) b (alter (with_sublocation key) b (info_ n1))));
        [exact Ho|exact Hpb| | | |reflexivity| | |discriminate].
      - by rewrite !length_alter.
      - intros j Hj. by rewrite !list_lookup_alter_ne.
      - by apply wf_value_node.
      - intros k v. rewrite value_node_holds. simpl.
        pose proof (rec_holds_none V r k v (Hno eq_refl)). tauto.
      - apply touched_value. }
  destruct Hsl as [Hw2 Hs2]. specialize (Hoff node2 eq_refl).
  pose proof Hw2 as [Hl2 Hp2 _ _ _ _ _ _ _].
  destruct (CommonPrefix_spec key (location_ node2) Hkw Hl2) as [Hncw Hncp].
  case_decide as E3.
  { assert (Hpk : path key `prefix_of` path (location_ node2)) by (by apply CommonPrefix_is_l).
    rewrite E3 in *. destruct (descend key (location_ node2)) as (b1 & Hnb1 & Hb1 & Hpb1); [done..|].
    rewrite CommonPrefix_prefix in Hnb1 by done. rewrite Hnb1. cbn. eexists. split; [done|].
    destruct (newnode_above (path (location_ n) ++ [b]) key d b1 node2 r) as (HwX & HX & HtX & HtX');
      [done..|].
    match goal with |- context [SetChild n1 b ?X] =>
      apply (updated_set key d p n b n1 (Some node2) r X
        (alter (with_childtype INNER) b (alter (with_sublocation key) b (info_ n1))));
        [exact Ho|exact Hpb| | |exact HwX|reflexivity|exact HX|exact HtX|] end.
    - by rewrite !length_alter.
    - intros j Hj. by rewrite !list_lookup_alter_ne.
    - intros c k [= <-]. apply HtX'. }
  set (nc := CommonPrefix key (location_ node2)) in *.
  assert (Hpc : path (location_ n) ++ [b] `prefix_of` path nc) by (rewrite Hncp; by apply lcp_greatest).
  assert (Hck : path nc `prefix_of` path key) by (rewrite Hncp; apply lcp_prefix_l).
  assert (Hc2 : path nc `prefix_of` path (location_ node2)) by (rewrite Hncp; apply lcp_prefix_r).
  destruct (descend nc key) as (b1 & Hnb1 & Hb1 & Hpb1); [done..|].
  destruct (descend nc (location_ node2)) as (b2 & Hnb2 & Hb2 & Hpb2); [done..|].
  rewrite CommonPrefix_prefix in Hnb1, Hnb2 by done. rewrite Hnb1. cbn. rewrite Hnb2. cbn.
  eexists. split; [done|].
  destruct (mnode_above (path (location_ n) ++ [b]) nc key d b1 b2 node2 r) as (HwX & HX & HtX & HtX');
    try assumption.
  { assert (Hsnoc : ∀ x l, path nc ++ [x] `prefix_of` l → l !! length (path nc) = Some x).
    { intros x l [q ->]. rewrite <- app_assoc. by apply list_lookup_middle. }
    apply Hsnoc in Hpb1, Hpb2. rewrite Hncp in Hpb1, Hpb2. by eapply lcp_diverge. }
  match goal with |- context [SetChild n1 b ?X] =>
    apply (updated_set key d p n b n1 (Some node2) r X (alter (with_sublocation nc) b (info_ n1)));
      [exact Ho|exact Hpb| | |exact HwX|reflexivity|exact HX|exact HtX|] end.
  - by rewrite !length_alter.
  - intros j Hj. by rewrite !list_lookup_alter_ne.
  - intros c k [= <-]. apply HtX'.
Qed.

Lemma updated_mark key Q p n n' :
  wf_node V p n → updated key Q p (set_modified true n) n' → updated key Q p n n'.
Proof.
  intros Hw [Uw Ul Uh Ut]. destruct (mark_modified p n Hw) as (_ & Hh & Ht). split; auto.
  intros k v. by rewrite Uh, Hh.
Qed.

Lemma SetItem_spec key d : even_loc key →
  ∀ fuel p n, wf_node V p n → path (location_ n) `prefix_of` path key →
  length (path key) < fuel + length (path (location_ n)) →
  ∃ n' b, SetItem fuel s n key d = Ok (n', b) ∧ updated key (λ v, v = d) p n n'
    ∧ modified_ n' = true ∧ is_touched n' key.
Proof.
  intros Hk. pose proof (even_wf _ Hk) as Hkw.
  induction fuel as [|fuel IH]; intros p n Hw Hpre Hfuel.
  { apply prefix_length in Hpre. lia. }
  destruct (mark_modified p n Hw) as (Hw0 & _ & _).
  assert (∃ n' b, SetItem (Datatypes.S fuel) s n key d = Ok (n', b) ∧
    updated key (λ v, v = d) p (set_modified true n) n' ∧ modified_ n' = true ∧ is_touched n' key)
    as (n' & b & ? & ? & ? & ?); [|exists n', b; split_and!; [done|by apply updated_mark|done..]].
  simpl SetItem. case_decide as Eloc.
  { subst key. eexists _, _. split; [done|]. destruct (SetValue_spec p _ d Hw0 Hk) as [Hu Ht]. done. }
  set (n0 := set_modified true n) in *. change (location_ n) with (location_ n0) in Hpre, Hfuel.
  destruct (descend (location_ n0) key) as (b & Hnb & Hb & Hpb); [by destruct Hw0|done..|].
  change (location_ n0) with (location_ n) in Hnb. rewrite Hnb. cbn.
  destruct (open_child p n0 b Hw0 Hb) as (n1 & o & r & Hdb & Ho).
  rewrite Hdb. cbn. rewrite (at_Some _ _ _ (op_rec _ _ _ _ _ _ Ho)). cbn.
  pose proof (set_slot_spec key d p n0 b n1 o r Hk Ho Hpb) as Hss.
  destruct o as [node2|]; [|destruct Hss as (n' & Hs & ?); [done|]; exists n', true; done].
  destruct (decide (CommonPrefix key (location_ node2) = location_ node2)) as [E2|E2].
  2:{ destruct Hss as (n' & Hs & ?); [by intros ? [= <-]|]. exists n', true. done. }
  destruct (opened_slot _ _ _ _ _ _ Ho) as [Hw2 _]. pose proof Hw2 as [Hl2 Hp2 _ _ _ _ _ _ _].
  assert (Hpk : path (location_ node2) `prefix_of` path key).
  { apply CommonPrefix_is_l; [done..|]. by rewrite CommonPrefix_comm. }
  destruct (IH _ node2 Hw2 Hpk) as (node2' & ret & Hset & [Hwf Hloc Hho Hto] & Hm2 & Ht2).
  { apply prefix_length in Hp2. rewrite length_app in Hp2. simpl in Hp2, Hfuel. simpl. lia. }
  rewrite Hset. cbn. eexists _, _. split; [done|].
  assert (modified_ n1 = true) as Hmn1 by apply (op_mod _ _ _ _ _ _ Ho).
  replace (set_children (<[b:=Some node2']> (children_ n1)) n1)
    with (put_child n1 b node2' (info_ n1) true) by (by rewrite set_children_put, Hmn1).
  eapply updated_set; [exact Ho|exact Hpb|by destruct Ho as [[] _ _ _ _ _ _ _ _]|done|exact Hwf|exact Hm2|exact Hho|exact Ht2|].
  intros c k [= <-] _. apply Hto.
Qed.

(** ** [DeleteItem] *)

Lemma MarkRemove_spec p n :
  wf_node V p n → even_loc (location_ n) →
  updated (location_ n) (λ _, False) p n (MarkRemove n) ∧ is_touched (MarkRemove n) (location_ n).
Proof.
  intros Hw Hev. assert (is_touched (MarkRemove n) (location_ n)) as Ht.
  { exists None. by apply (touched_del (MarkRemove n)). }
  split; [|done]. pose proof Hw as [Hl Hp Hlc Hli Hlf Hr Hm Hs Hmod].
  assert (Hinfo : ∀ i, i < 16 → <[16 := empty_child]> (info_ n) !! i = info_ n !! i).
  { intros i Hi. apply list_lookup_insert_ne. lia. }
  split.
  - constructor; cbn [location_ children_ info_ modified_ MarkRemove]; try assumption; try done.
    + by rewrite length_insert.
    + intros c. simpl. rewrite list_lookup_insert_eq by lia. by intros [= <-].
    + intros i r Hi Hri. rewrite Hinfo in Hri by (apply lookup_lt_Some in Hi; lia). eauto.
    + intros i c r Hi Hmc Hri. rewrite Hinfo in Hri by (apply lookup_lt_Some in Hi; lia). eauto.
  - done.
  - intros k v. rewrite (node_holds_iff _ n), node_holds_iff by (simpl; rewrite ?length_insert; done).
    split.
    + intros [(_ & [=] & _)|(i & o & r & Ho & Hri & Hh)]. right. simpl in Ho, Hri.
      rewrite Hinfo in Hri by (apply lookup_lt_Some in Ho; lia).
      split; [|by eauto 8]. intros ->. pose proof (wf_node_slot _ _ _ _ _ _ Hw Ho Hri) as Hsw.
      destruct (slot_holds_below _ _ _ _ _ _ Hsw Hh) as [_ Hpre]. by apply snoc_not_prefix in Hpre.
    + intros [[_ []]|[Hne [(-> & _)|(i & o & r & Ho & Hri & Hh)]]]; [done|]. right.
      exists i, o, r. simpl. rewrite Hinfo by (apply lookup_lt_Some in Ho; lia). done.
  - intros k [o Htk]. inversion Htk as [? E|? v E1 E2|? i c0 ? ? E1 E2 E3]; subst; try done.
    exists o. by apply (touched_child (MarkRemove n) i c0).
Qed.

(** A node that does not hold [key] already meets the contract of its deletion. *)
Lemma updated_absent key p n n' :
  wf_node V p n' → location_ n' = location_ n →
  (∀ k v, node_holds V n' k v ↔ node_holds V n k v) → (∀ v, ¬ node_holds V n key v) →
  (∀ k, is_touched n k → is_touched n' k) → updated key (λ _, False) p n n'.
Proof.
  intros Hw Hl Hh Hk Ht. split; try done.
  intros k v. rewrite Hh. split; [|by intros [[_ []]|[_ ?]]].
  intros Hn. right. split; [|done]. intros ->. by eapply Hk.
Qed.

Lemma wf_loc_length l1 l2 :
  wf_loc l1 → wf_loc l2 → path l1 `prefix_of` path l2 → length l1 ≤ length l2.
Proof.
  intros (p1 & r1 & -> & _ & Hr1 & E1)%wf_loc_inv (p2 & r2 & -> & _ & Hr2 & E2)%wf_loc_inv.
  rewrite E1, E2. intros Hpre%prefix_length. rewrite !length_rpath in Hpre by done. simpl.
  destruct (bool_decide (p1 = ODD_PREFIX)), (bool_decide (p2 = ODD_PREFIX));
    try apply rwf_pos in Hr1; try apply rwf_pos in Hr2; lia.
Qed.

(** A slot that does not hold [key] leaves the node as it was. *)
Lemma opened_absent key p n b n1 o r :
  opened p n b n1 o r → path (location_ n) ++ [b] `prefix_of` path key →
  (∀ v, ¬ slot_holds V o r key v) →
  updated key (λ _, False) p n n1 ∧ modified_ n1 = modified_ n || false
  ∧ same_summary n n1 ∧ ∀ v, ¬ node_holds V n key v.
Proof.
  intros Ho Hpb Hslot. pose proof (opened_loc _ _ _ _ _ _ Ho) as Hl1.
  destruct Ho as [Hw1 Hb Hsame Hm1 Hc1 Hi1 Hh1 Ht1 _].
  assert (∀ v, ¬ node_holds V n key v) as Hnone.
  { intros v. rewrite <- Hh1, (slots_split V p n1 b o r) by done. rewrite <- Hl1 in Hpb.
    pose proof (others_below V p n1 b key v Hw1 Hpb). specialize (Hslot v). tauto. }
  split_and!; [|by rewrite orb_false_r|done..]. by apply updated_absent.
Qed.

(** Putting back the child after a deletion in it. *)
Lemma deleted_put key p n b n1 node2 r node2' ret :
  opened p n b n1 (Some node2) r → path (location_ n) ++ [b] `prefix_of` path key →
  updated key (λ _, False) (path (location_ n) ++ [b]) node2 node2' →
  modified_ node2' = modified_ node2 || ret →
  (if ret then is_touched node2' key else same_summary node2 node2' ∧ ∀ v, ¬ node_holds V node2 key v) →
  let n' := put_child n1 b node2' (info_ n1) (modified_ n1 || ret) in
  updated key (λ _, False) p n n' ∧ modified_ n' = modified_ n || ret
  ∧ (if ret then is_touched n' key else same_summary n n' ∧ ∀ v, ¬ node_holds V n key v).
Proof.
  intros Ho Hpb [Hwf Hloc Hho Hto] Hm2 Hret n'. pose proof (opened_slot _ _ _ _ _ _ Ho) as [Hw2 Hs2].
  pose proof Ho as [Hw1 Hb Hsame Hm1 Hc1 Hi1 _ _ _]. pose proof Hw1 as [_ _ Hlc Hli _ _ _ _ Hmod].
  split_and!.
  - eapply updated_put; [exact Ho|exact Hpb|exact Hli|done|exact Hwf| | |exact Hho|].
    + intros Hm' r' Hr'. rewrite Hi1 in Hr'. simplify_eq.
      rewrite Hm2 in Hm'. apply orb_false_iff in Hm' as [Hm' ->].
      destruct Hret as [Hsm _]. eapply synced_same; [exact Hsm|]. by apply Hs2.
    + intros [E ->]%orb_false_iff. split; [exact E|]. rewrite Hm2, orb_false_r. eauto.
    + intros c k [= <-] Hmc Ht. rewrite Hm2, Hmc. auto.
  - simpl. by rewrite Hm1.
  - destruct ret.
    + apply touched_put_new; [lia| |done]. by rewrite Hm2, orb_true_r.
    + split; [by destruct Hsame as (? & ? & ? & ?)|].
      destruct (opened_absent key _ _ _ _ _ _ Ho Hpb) as (_ & _ & _ & Ha); [|done]. by destruct Hret.
Qed.

Lemma DeleteItem_spec key : even_loc key →
  ∀ fuel p n, wf_node V p n → path (location_ n) `prefix_of` path key →
  length (path key) < fuel + length (path (location_ n)) →
  ∃ n' b, DeleteItem fuel s n key = Ok (n', b) ∧ updated key (λ _, False) p n n'
    ∧ modified_ n' = modified_ n || b
    ∧ (if b then is_touched n' key else same_summary n n' ∧ ∀ v, ¬ node_holds V n key v).
Proof.
  intros Hk. pose proof (even_wf _ Hk) as Hkw.
  induction fuel as [|fuel IH]; intros p n Hw Hpre Hfuel.
  { apply prefix_length in Hpre. lia. }
  pose proof Hw as [Hl _ _ _ _ _ _ _ _].
  simpl DeleteItem. rewrite decide_False by (pose proof (wf_loc_length _ _ Hl Hkw Hpre); lia).
  case_decide as Eloc.
  { subst key. destruct (MarkRemove_spec p n Hw Hk) as [Hu Ht].
    eexists _, true. split; [done|]. split_and!; [done| |done]. by rewrite orb_true_r. }
  destruct (descend (location_ n) key) as (b & Hnb & Hb & Hpb); [done..|congruence|].
  rewrite Hnb. cbn. destruct (open_child p n b Hw Hb) as (n1 & o & r & Hdb & Ho). rewrite Hdb. cbn.
  destruct o as [node2|].
  2:{ eexists _, false. split; [done|]. eapply opened_absent; [exact Ho|exact Hpb|].
      intros v. simpl. by apply rec_holds_none, (op_none _ _ _ _ _ _ Ho). }
  destruct (opened_slot _ _ _ _ _ _ Ho) as [Hw2 _]. pose proof Hw2 as [Hl2 Hp2 _ _ _ _ _ _ _].
  case_decide as E2.
  { eexists _, false. split; [done|]. eapply opened_absent; [exact Ho|exact Hpb|].
    intros v Hh. destruct E2. destruct (node_holds_below _ _ _ _ _ Hw2 Hh) as [_ Hp].
    by rewrite CommonPrefix_prefix. }
  assert (Hpk : path (location_ node2) `prefix_of` path key) by (by apply CommonPrefix_is_l).
  destruct (IH _ node2 Hw2 Hpk) as (node2' & ret & Hdel & Hu & Hm2 & Hret).
  { apply prefix_length in Hp2. rewrite length_app in Hp2. simpl in Hp2. lia. }
  rewrite Hdel. cbn. eexists _, ret. split; [done|].
  by apply (deleted_put key p n b n1 node2 r node2' ret).
Qed.
End ops.
