(* ===== verification/TrieHash.v ===== *)
(** * [update_hash]: the pending writes describe the same map

    [update_hash_spec]: after [update_hash] the pending view of the storage holds,
    below the record it returns, exactly the pairs that the in-memory node held, and
    the leaf records are those of the pairs. *)
From S2P Require Import Prelude Location Trie TrieSpec TrieOps.
From stdpp Require Import base list.
From Stdlib Require Import ZArith Lia.

(** ** Counting the branches *)

Lemma fold_count info idxs acc acc' :
  foldl (λ a j, count_branch info j a) acc idxs = acc' →
  acc.1 ≤ acc'.1
  ∧ (acc'.1 = acc.1 → acc' = acc ∧ ∀ j, j ∈ idxs → childtype (info !!! j) = NONE)
  ∧ (acc'.1 = S acc.1 → ∃ o, acc'.2 = Some o ∧ o ∈ idxs ∧
       ∀ j, j ∈ idxs → j ≠ o → childtype (info !!! j) = NONE).
Proof.
  revert acc. induction idxs as [|i idxs IH]; intros acc; simpl.
  { intros <-. split_and!; [done| |lia]. intros _. split; [done|]. by intros j ?%not_elem_of_nil. }
  intros E. destruct (IH _ E) as (H1 & H2 & H3). clear IH.
  unfold count_branch in H1, H2, H3. case_decide as Ei; simpl in *.
  - split_and!; [done| |].
    + intros Heq. destruct (H2 Heq) as [-> Hn]. split; [done|].
      intros j [->|Hj]%elem_of_cons; auto.
    + intros Heq. destruct (H3 Heq) as (o & Ho & Hin & Hn). exists o. split_and!; [done|by right|].
      intros j [->|Hj]%elem_of_cons Hne; auto.
  - split_and!; [lia|lia|]. intros Heq. destruct (H2 Heq) as [-> Hn]. exists i. simpl.
    split_and!; [done|by left|]. intros j [->|Hj]%elem_of_cons Hne; [done|auto].
Qed.

(** The entries counted by [update_hash]: its own leaf, then the sixteen branches. *)
Definition count_entries (info : Node) : nat * option nat :=
  foldl (λ a j, count_branch info j a) (0, None) (16 :: seq 0 16).

Lemma entries_in_range (info : Node) j c :
  length info = 17 → info !! j = Some c → j ∈ (16 :: seq 0 16) ∧ info !!! j = c.
Proof.
  intros Hl Hj. split; [|by apply list_lookup_total_correct].
  apply lookup_lt_Some in Hj. destruct (decide (j = 16)) as [->|]; [by left|right].
  apply elem_of_seq. lia.
Qed.

Lemma count_zero info j c :
  length info = 17 → (count_entries info).1 = 0 → info !! j = Some c → childtype c = NONE.
Proof.
  intros Hl Hz Hj. destruct (entries_in_range _ _ _ Hl Hj) as [Hin <-].
  destruct (fold_count info (16 :: seq 0 16) (0, None) _ eq_refl) as (_ & H2 & _).
  by apply (H2 Hz).
Qed.

Lemma count_one info :
  length info = 17 → (count_entries info).1 = 1 →
  ∃ o, (count_entries info).2 = Some o ∧ info !! o = Some (info !!! o) ∧
    ∀ j c, j ≠ o → info !! j = Some c → childtype c = NONE.
Proof.
  intros Hl Hz.
  destruct (fold_count info (16 :: seq 0 16) (0, None) _ eq_refl) as (_ & _ & H3).
  destruct (H3 Hz) as (o & Ho & Hin & Hn). exists o. split_and!; [done| |].
  - apply list_lookup_lookup_total_lt.
    apply elem_of_cons in Hin as [->|Hin%elem_of_seq]; lia.
  - intros j c Hne Hj. destruct (entries_in_range _ _ _ Hl Hj) as [Hjn <-]. by apply Hn.
Qed.

(** If all entries but [o] are empty, at most one is counted. *)
Lemma fold_count_le info o idxs acc :
  NoDup idxs → (∀ j, j ∈ idxs → j ≠ o → childtype (info !!! j) = NONE) →
  (foldl (λ a j, count_branch info j a) acc idxs).1 ≤ acc.1 + (if decide (o ∈ idxs) then 1 else 0).
Proof.
  intros Hnd. revert acc. induction Hnd as [|i idxs Hi Hnd IH]; intros acc Hj; simpl; [lia|].
  specialize (IH (count_branch info i acc)).
  assert (Hj' : ∀ j, j ∈ idxs → j ≠ o → childtype (info !!! j) = NONE) by (intros; apply Hj; [by right|done]).
  specialize (IH Hj'). destruct (decide (i = o)) as [->|Hne].
  - rewrite decide_False in IH by done. rewrite decide_True by (by left).
    assert ((count_branch info o acc).1 ≤ acc.1 + 1) by (unfold count_branch; case_decide; simpl; lia). lia.
  - assert (count_branch info i acc = acc) as E.
    { unfold count_branch. rewrite decide_True; [done|]. apply Hj; [by left|done]. }
    rewrite E in *. destruct (decide (o ∈ idxs)).
    + rewrite decide_True by (by right). lia.
    + rewrite decide_False; [lia|]. by intros [?|?]%elem_of_cons.
Qed.

Lemma count_two info : length info = 17 → 2 ≤ (count_entries info).1 → two_entries info.
Proof.
  intros Hl Hc o.
  destruct (decide (Exists (λ j, j ≠ o ∧ childtype (info !!! j) ≠ NONE) (16 :: seq 0 16))) as [He|Hne].
  - apply Exists_exists in He as (j & Hj & Hjo & Ht). exists j, (info !!! j). split_and!; [done| |done].
    apply list_lookup_lookup_total_lt. apply elem_of_cons in Hj as [->|Hj%elem_of_seq]; lia.
  - exfalso. apply (Nat.nle_succ_diag_l 1). etrans; [exact Hc|]. unfold count_entries.
    etrans; [apply (fold_count_le info o)|].
    + apply NoDup_cons. split; [rewrite elem_of_seq; lia|apply NoDup_seq].
    + intros j Hj Hjo. destruct (decide (childtype (info !!! j) = NONE)); [done|].
      destruct Hne. apply Exists_exists. eauto.
    + simpl. case_decide; lia.
Qed.

(** ** The loop over the children *)

Section nodes.
Context `{NH : NodeHash}.

Definition slot_touched (o : option NodeFrm) (k : bytes) (x : option bytes) : Prop :=
  ∃ c, o = Some c ∧ modified_ c = true ∧ touched c k x.

(** Leaf reads of [P'] below [p] are those of [P0] with the touched keys updated. *)
Definition leaves_updated (P0 P' : view) (p : list nat) (T : bytes → option bytes → Prop) : Prop :=
  ∀ k, even_loc k → p `prefix_of` path k →
    (∀ x, T k x → vleaf P' k = x) ∧ ((¬ ∃ x, T k x) → vleaf P' k = vleaf P0 k).

(** The views are equal outside the locations selected by [In]. *)
Definition same_outside (In : bytes → Prop) (P P' : view) : Prop :=
  ∀ l, wf_loc l → ¬ In l → vnode P' l = vnode P l ∧ (even_loc l → vleaf P' l = vleaf P l).

(** What [update_hash] guarantees of a child at path [p]. *)
Record hashed (V P P' : view) (p : list nat) (n n' : NodeFrm) (r : Child) : Prop := {
  hs_wf : wf_node P' p n';
  hs_loc : location_ n' = location_ n;
  hs_clean : modified_ n' = false;
  hs_sync : synced P' n' r;
  hs_root : location_ n = rootl →
    r = mkChild rootl (node_hash (info_ n')) INNER ∧ vnode P' rootl = Some (info_ n');
  hs_holds k v : node_holds P' n' k v ↔ node_holds V n k v;
  hs_leaves : leaves_updated P P' (path (location_ n)) (touched n);
  hs_outside : same_outside (λ l, path (location_ n) `prefix_of` path l) P P' }.

Record slot_done (V P P' : view) (p : list nat) (o : option NodeFrm) (r : Child)
    (o' : option NodeFrm) (r' : Child) : Prop := {
  sd_wf : slot_wf P' p o' r';
  sd_clean c' : o' = Some c' → modified_ c' = false;
  sd_holds k v : slot_holds P' o' r' k v ↔ slot_holds V o r k v;
  sd_leaves : leaves_updated P P' p (slot_touched o) }.

Lemma leaves_frame P0 P P' p T :
  agree p P P' → leaves_updated P0 P p T → leaves_updated P0 P' p T.
Proof.
  intros Ha Hl k Hk Hp. rewrite <- (agree_leaf _ _ _ _ Ha) by done. by apply Hl.
Qed.

Lemma slot_done_frame V P0 P P' p o r o' r' :
  agree p P P' → slot_done V P0 P p o r o' r' → slot_done V P0 P' p o r o' r'.
Proof.
  intros Ha [Hw Hc Hh Hl]. split; [by eapply slot_wf_frame|done| |by eapply leaves_frame].
  intros k v. rewrite <- Hh. symmetry. by eapply slot_holds_frame.
Qed.

Lemma same_outside_agree In P P' p :
  same_outside In P P' → (∀ l, wf_loc l → p `prefix_of` path l → ¬ In l) → agree p P P'.
Proof.
  intros Ho Hp l Hl Hpl. destruct (Ho l Hl (Hp l Hl Hpl)) as [-> E]. split; [done|].
  intros He. by rewrite E.
Qed.

Lemma same_outside_trans (A B C : bytes → Prop) P1 P2 P3 :
  same_outside A P1 P2 → same_outside B P2 P3 →
  (∀ l, A l → C l) → (∀ l, B l → C l) → same_outside C P1 P3.
Proof.
  intros H1 H2 HA HB l Hl Hn.
  destruct (H1 l Hl) as [E1 F1]; [auto|]. destruct (H2 l Hl) as [E2 F2]; [auto|].
  split; [congruence|]. intros He. by rewrite F2, F1.
Qed.

(** An unmodified slot is left alone. *)
Lemma slot_done_same V P p o r :
  agree p V P → slot_wf V p o r → (∀ c, o = Some c → modified_ c = false) →
  slot_done V P P p o r o r.
Proof.
  intros Ha Hw Hm. split; [by eapply slot_wf_frame|done| |].
  - intros k v. symmetry. by eapply slot_holds_frame.
  - intros k Hk Hp. split; [|done]. intros x (c & -> & Hmc & _). by rewrite Hm in Hmc.
Qed.

(** A base view that agrees below the slot will do as well. *)
Lemma slot_done_base V P0 P0' P p o r o' r' :
  agree p P0 P0' → slot_done V P0 P p o r o' r' → slot_done V P0' P p o r o' r'.
Proof.
  intros Ha [Hw Hc Hh Hl]. split; [exact Hw|exact Hc|exact Hh|].
  intros k Hk Hp. destruct (Hl k Hk Hp) as [H1 H2]. split; [exact H1|].
  intros Hn. rewrite (H2 Hn). by apply (agree_leaf _ _ _ _ Ha).
Qed.

Lemma touched_below V p n k x :
  wf_node V p n → touched n k x → path (location_ n) `prefix_of` path k.
Proof.
  intros Hw Ht. revert p Hw. induction Ht as [n E|n v E1 E2|n i c k o E1 E2 E3 IH]; intros p Hw; [done..|].
  destruct Hw as [_ _ _ _ _ _ Hm _ _]. pose proof (Hm _ _ E1) as Hwc.
  specialize (IH _ Hwc). destruct Hwc as [_ Hp _ _ _ _ _ _ _].
  etrans; [|exact IH]. etrans; [|exact Hp]. by apply prefix_app_r.
Qed.

Lemma slot_done_hashed V P P' p c r c' r' :
  wf_node V p c → modified_ c = true → hashed V P P' p c c' r' →
  slot_done V P P' p (Some c) r (Some c') r'.
Proof.
  intros Hw Hmc [Hwf Hloc Hcl Hsy _ Hh Hlv Hout]. split.
  - simpl. split; [exact Hwf|done].
  - by intros c0 [= <-].
  - exact Hh.
  - intros k Hk Hp. destruct (decide (path (location_ c) `prefix_of` path k)) as [Hin|Hnin].
    + destruct (Hlv k Hk Hin) as [H1 H2]. split.
      * intros x (c0 & [= <-] & _ & Ht). auto.
      * intros Hn. apply H2. intros [x Ht]. apply Hn. exists x, c. auto.
    + split.
      * intros x (c0 & [= <-] & _ & Ht). destruct Hnin. by eapply touched_below.
      * intros _. destruct (Hout k) as [_ E]; auto with ceg.
Qed.
End nodes.

Section hash.
Context {S : Type} `{TrieStorageLaws S} (V : view).

(** The result of the loop from branch [i] on the slots [cs]. *)
Definition loop_post (loc : bytes) (i : nat) (cs : list (option NodeFrm)) (s : S) (info : Node)
    (acc : nat * option nat) (out : S * list (option NodeFrm) * Node * (nat * option nat)) : Prop :=
  let '(s', cs', info', acc') := out in
  length cs' = length cs ∧ length info' = 17 ∧ cview s' = cview s ∧
  (∀ j, j < i ∨ j = 16 → info' !! j = info !! j) ∧
  (∀ j o r, cs !! j = Some o → info !! (i + j) = Some r →
     ∃ o' r', cs' !! j = Some o' ∧ info' !! (i + j) = Some r' ∧
       slot_done V (pview s) (pview s') (path loc ++ [i + j]) o r o' r') ∧
  same_outside (λ l, ∃ j, i ≤ j < i + length cs ∧ path loc ++ [j] `prefix_of` path l)
    (pview s) (pview s') ∧
  acc' = foldl (λ a j, count_branch info' j a) acc (seq i (length cs)).

Lemma count_branch_ext info info' i acc :
  info !! i = info' !! i → count_branch info i acc = count_branch info' i acc.
Proof. intros E. unfold count_branch. by rewrite !list_lookup_total_alt, E. Qed.

Lemma fold_count_ext info info' idxs acc :
  (∀ j, j ∈ idxs → info !! j = info' !! j) →
  foldl (λ a j, count_branch info j a) acc idxs = foldl (λ a j, count_branch info' j a) acc idxs.
Proof.
  revert acc. induction idxs as [|i idxs IH]; intros acc Hj; [done|]. simpl.
  rewrite (count_branch_ext info info') by (apply Hj; by left). apply IH. intros j ?. apply Hj. by right.
Qed.

(** One turn of the loop, at branch [i]. *)
Lemma update_slot_spec loc (uh : S → NodeFrm → S * NodeFrm * Child) i c s info r0 :
  i < 16 → length info = 17 → info !! i = Some r0 →
  slot_wf V (path loc ++ [i]) c r0 → agree (path loc ++ [i]) V (pview s) →
  (∀ child, c = Some child → agree (path (location_ child)) V (pview s) →
     let '(s', c', r) := uh s child in
     cview s' = cview s ∧ hashed V (pview s) (pview s') (path loc ++ [i]) child c' r) →
  ∃ s1 c1 info1 r1,
    match c with
    | Some child =>
        if modified_ child then
          let '(s, child, childresult) := uh s child in (s, Some child, <[i:=childresult]> info)
        else (s, c, info)
    | None => (s, c, info)
    end = (s1, c1, info1) ∧ length info1 = 17 ∧ (∀ j, j ≠ i → info1 !! j = info !! j) ∧
    info1 !! i = Some r1 ∧ cview s1 = cview s ∧
    slot_done V (pview s) (pview s1) (path loc ++ [i]) c r0 c1 r1 ∧
    same_outside (λ l, path loc ++ [i] `prefix_of` path l) (pview s) (pview s1).
Proof.
  intros Hi Hinfo Hr0 Hw0 Ha0 Huh. destruct c as [child|]; [destruct (modified_ child) eqn:Hm|].
  - destruct Hw0 as [Hwc _]. pose proof Hwc as [_ Hpc _ _ _ _ _ _ _].
    specialize (Huh child eq_refl (agree_weaken _ _ _ _ Hpc Ha0)).
    destruct (uh s child) as [[s1 c1] r1]. destruct Huh as [Hcv Hh].
    eexists s1, (Some c1), (<[i:=r1]> info), r1. split_and!; [done| | | |exact Hcv| |].
    + by rewrite length_insert.
    + intros j Hj. by apply list_lookup_insert_ne.
    + apply list_lookup_insert_eq. lia.
    + by eapply slot_done_hashed.
    + destruct Hh as [_ _ _ _ _ _ _ Hout]. intros l Hl Hn. apply Hout; [done|].
      intros Hp. apply Hn. by etrans.
  - exists s, (Some child), info, r0. split_and!; [done|exact Hinfo|done|exact Hr0|done| |done].
    apply slot_done_same; [exact Ha0|exact Hw0|]. by intros c' [= <-].
  - exists s, None, info, r0. split_and!; [done|exact Hinfo|done|exact Hr0|done| |done].
    apply slot_done_same; [exact Ha0|exact Hw0|done].
Qed.

(** Prepending the turn at branch [i] to the loop from the next branch. *)
Lemma loop_post_cons loc i c cs s info acc s1 c1 info1 r0 r1 s2 cs2 info2 acc2 :
  i + Datatypes.S (length cs) = 16 → info !! i = Some r0 →
  (∀ j, j ≠ i → info1 !! j = info !! j) → info1 !! i = Some r1 → cview s1 = cview s →
  slot_done V (pview s) (pview s1) (path loc ++ [i]) c r0 c1 r1 →
  same_outside (λ l, path loc ++ [i] `prefix_of` path l) (pview s) (pview s1) →
  loop_post loc (Datatypes.S i) cs s1 info1 (count_branch info1 i acc) (s2, cs2, info2, acc2) →
  loop_post loc i (c :: cs) s info acc (s2, c1 :: cs2, info2, acc2).
Proof.
  intros Hlen Hr0 He1 Hr1 Hcv1 Hd1 Ho1 (IHl & IHi & IHc & IHe & IHs & IHo & IHa). split_and!.
  - simpl. by rewrite IHl.
  - done.
  - congruence.
  - intros j Hj. rewrite IHe by lia. apply He1. lia.
  - intros [|j] o r Ho Hr; simpl in Ho.
    + rewrite Nat.add_0_r in *. simplify_eq. exists c1, r1. split_and!; [done| |].
      * rewrite IHe by lia. done.
      * eapply slot_done_frame; [|exact Hd1]. eapply same_outside_agree; [exact IHo|].
        intros l Hl Hp (j & Hj & Hp2). pose proof (prefix_snoc_inv _ _ _ _ Hp Hp2). lia.
    + rewrite Nat.add_succ_r in *. rewrite <- He1 in Hr by lia.
      destruct (IHs j o r Ho Hr) as (o' & r' & Ho' & Hr' & Hsd).
      exists o', r'. split_and!; [exact Ho'|exact Hr'|]. eapply slot_done_base; [|exact Hsd].
      apply agree_sym. eapply same_outside_agree; [exact Ho1|].
      intros l _ Hp Hp'. pose proof (prefix_snoc_inv _ _ _ _ Hp Hp'). lia.
  - eapply same_outside_trans; [exact Ho1|exact IHo| |].
    + intros l Hp. exists i. simpl. split; [lia|done].
    + intros l (j & Hj & Hp). exists j. simpl. split; [lia|done].
  - rewrite IHa. simpl. f_equal. apply count_branch_ext. symmetry. apply IHe. lia.
Qed.

Lemma update_loop_spec loc (uh : S → NodeFrm → S * NodeFrm * Child) :
  ∀ cs i s info acc,
  i + length cs = 16 → length info = 17 →
  (∀ j o r, cs !! j = Some o → info !! (i + j) = Some r → slot_wf V (path loc ++ [i + j]) o r) →
  (∀ j, j < length cs → agree (path loc ++ [i + j]) V (pview s)) →
  (∀ j c s, cs !! j = Some (Some c) → agree (path (location_ c)) V (pview s) →
     let '(s', c', r) := uh s c in
     cview s' = cview s ∧ hashed V (pview s) (pview s') (path loc ++ [i + j]) c c' r) →
  loop_post loc i cs s info acc (update_loop uh i cs s info acc).
Proof.
  induction cs as [|c cs IH]; intros i s info acc Hlen Hinfo Hwf Hag Huh.
  { simpl. split_and!; try done. }
  simpl in Hlen. cbn [update_loop].
  destruct (lookup_lt_is_Some_2 info i) as [r0 Hr0]; [lia|].
  pose proof (Hwf 0 c r0 eq_refl) as Hw0. rewrite Nat.add_0_r in Hw0. specialize (Hw0 Hr0).
  pose proof (Hag 0) as Ha0. rewrite Nat.add_0_r in Ha0. specialize (Ha0 ltac:(simpl; lia)).
  destruct (update_slot_spec loc uh i c s info r0)
    as (s1 & c1 & info1 & r1 & -> & Hl1 & He1 & Hr1 & Hcv1 & Hd1 & Ho1); [lia|done..| |].
  { intros child -> Hac. specialize (Huh 0 child s eq_refl Hac). by rewrite Nat.add_0_r in Huh. }
  specialize (IH (Datatypes.S i) s1 info1 (count_branch info1 i acc)).
  destruct (update_loop uh (Datatypes.S i) cs s1 info1 (count_branch info1 i acc))
    as [[[s2 cs2] info2] acc2].
  eapply loop_post_cons; [exact Hlen|exact Hr0|exact He1|exact Hr1|exact Hcv1|exact Hd1|exact Ho1|].
  apply IH; [lia|done|..].
  - intros j o r Ho Hr. rewrite He1 in Hr by lia.
    specialize (Hwf (Datatypes.S j) o r Ho). rewrite Nat.add_succ_r in Hwf. by apply Hwf.
  - intros j Hj. eapply agree_trans; [|eapply same_outside_agree; [exact Ho1|]].
    + specialize (Hag (Datatypes.S j)). rewrite Nat.add_succ_r in Hag. apply Hag. simpl. lia.
    + intros l Hl Hp1 Hp2. pose proof (prefix_snoc_inv _ _ _ _ Hp1 Hp2). lia.
  - intros j c' s' Hc' Ha'. specialize (Huh (Datatypes.S j) c' s' Hc' Ha').
    by rewrite Nat.add_succ_r in Huh.
Qed.

(** ** What a relation closed under the writes says of [update_hash] *)

Section closed.
Context (R : S → S → Prop).
Context (Hrefl : ∀ s, R s s) (Htrans : ∀ s1 s2 s3, R s1 s2 → R s2 s3 → R s1 s3).
Context (Hsn : ∀ s l n, R s (StorageSaveNode s l n)) (Hdn : ∀ s l, R s (StorageDeleteNode s l)).
Context (Hsl : ∀ s l v, R s (StorageSaveLeaf s l v)) (Hdl : ∀ s l, R s (StorageDeleteLeaf s l)).

Lemma update_loop_closed uh cs : ∀ i s info acc,
  (∀ j c s, cs !! j = Some (Some c) → R s (uh s c).1.1) →
  R s (update_loop uh i cs s info acc).1.1.1.
Proof.
  induction cs as [|o cs IH]; intros i s info acc Huh; [apply Hrefl|]. cbn [update_loop].
  assert (Hs1 : ∀ s1 o1 info1 acc1, R s s1 → R s (let '(s', cs', info', acc') :=
    update_loop uh (Datatypes.S i) cs s1 info1 acc1 in (s', o1 :: cs', info', acc' : nat * option nat)).1.1.1).
  { intros s1 o1 info1 acc1 HR. specialize (IH (Datatypes.S i) s1 info1 acc1).
    destruct (update_loop _ _ _ _ _ _) as [[[? ?] ?] ?]. simpl in *.
    eapply Htrans; [exact HR|]. apply IH. intros j c st Hj. by apply (Huh (Datatypes.S j)). }
  destruct o as [c|]; [destruct (modified_ c)|]; try (by apply Hs1).
  pose proof (Huh 0 c s eq_refl) as Hc. destruct (uh s c) as [[s1 c1] r1]. by apply Hs1.
Qed.

Lemma update_hash_closed p n : wf_node V p n → ∀ s, R s (update_hash s n).1.1.
Proof.
  intros Hw. induction Hw as [p [loc cs info m ld lf] _ _ _ _ _ _ _ IH _ _]. intros s. simpl in *.
  assert (H1 : R s (update_leaf s loc info ld lf).1).
  { unfold update_leaf. destruct ld, lf; simpl; auto. }
  destruct (update_leaf _ _ _ _ _) as [s1 info1].
  pose proof (update_loop_closed update_hash cs 0 s1 info1 (count_branch info1 16 (0, None)) (λ j c st Hj, IH j c Hj st)) as H2.
  destruct (update_loop _ _ _ _ _ _) as [[[s2 cs2] info2] acc2].
  assert (H3 : R s2 (update_result s2 loc info2 acc2).1).
  { unfold update_result. destruct acc2. by repeat case_decide; simpl. }
  destruct (update_result _ _ _ _) as [s3 r]. simpl in *. eauto.
Qed.
End closed.

(** ** The leaf part and the summary *)

(** What [update_leaf] does at a node: [info1] is the new list of entries. *)
Record leaf_updated (n : NodeFrm) (P P1 : view) (info1 : Node) : Prop := {
  lu_len : length info1 = 17;
  lu_other j : j ≠ 16 → info1 !! j = info_ n !! j;
  lu_outside : same_outside (λ l, l = location_ n) P P1;
  lu_del : leaf_deleted_ n = true → vleaf P1 (location_ n) = None;
  lu_set v : leaf_deleted_ n = false → leaf_ n = Some v →
    vleaf P1 (location_ n) = Some v ∧ info1 !! 16 = Some (mkChild (location_ n) (leaf_hash v) LEAF);
  lu_same : leaf_deleted_ n = false → leaf_ n = None → P1 = P ∧ info1 = info_ n;
  lu_ok m : location_ m = location_ n → info_ m !! 16 = info1 !! 16 →
    leaf_deleted_ m = leaf_deleted_ n → leaf_ m = leaf_ n → leaf_ok P1 m }.

Lemma update_leaf_spec p n s s1 info1 :
  wf_node V p n → agree (path (location_ n)) V (pview s) →
  update_leaf s (location_ n) (info_ n) (leaf_deleted_ n) (leaf_ n) = (s1, info1) →
  cview s1 = cview s ∧ leaf_updated n (pview s) (pview s1) info1.
Proof.
  intros Hw Ha. pose proof Hw as [Hl _ _ Hi Hlf _ _ _ _]. unfold update_leaf.
  destruct (lookup_lt_is_Some_2 (info_ n) 16) as [c16 Hc16]; [lia|].
  specialize (Hlf c16 Hc16).
  assert (Hins : ∀ c : Child, <[16 := c]> (info_ n) !! 16 = Some c)
    by (intros; apply list_lookup_insert_eq; lia).
  destruct (leaf_deleted_ n) eqn:Hd; [|destruct (leaf_ n) as [v|] eqn:Hlv]; intros [= <- <-].
  - destruct Hlf as (Hlv & _ & Hev). pose proof (delete_leaf_law s (location_ n)) as Hlaw.
    split; [apply delete_leaf_frame|]. split; rewrite ?Hd; try done.
    + by rewrite length_insert.
    + intros j Hj. by apply list_lookup_insert_ne.
    + intros l Hwl Hne. destruct (Hlaw l Hev Hwl) as [E1 E2]. split; [done|].
      intros He. rewrite E2 by done. by rewrite decide_False.
    + intros _. destruct (Hlaw (location_ n) Hev Hl) as [_ E]. by rewrite E, decide_True.
    + intros m E1 E2 E3 E4 c. rewrite E2, Hins. intros [= <-]. by rewrite E3, E1, E4.
  - destruct Hlf as (Hev & _ & _). pose proof (save_leaf_law s (location_ n) v) as Hlaw.
    split; [apply save_leaf_frame|]. split; rewrite ?Hd, ?Hlv; try done.
    + by rewrite length_insert.
    + intros j Hj. by apply list_lookup_insert_ne.
    + intros l Hwl Hne. destruct (Hlaw l Hev Hwl) as [E1 E2]. split; [done|].
      intros He. rewrite E2 by done. by rewrite decide_False.
    + intros w _ [= <-]. destruct (Hlaw (location_ n) Hev Hl) as [_ E]. by rewrite E, decide_True.
    + intros m E1 E2 E3 E4 c. rewrite E2, Hins. intros [= <-]. by rewrite E3, E1, E4.
  - split; [done|]. split; rewrite ?Hd, ?Hlv; try done.
    intros m E1 E2 E3 E4 c. rewrite E2, E3, E1, E4, Hc16. intros [= <-].
    by eapply wf_leafrec_frame.
Qed.

(** [update_result] only writes or deletes the node record at [loc]. *)
Lemma update_result_spec s loc info s2 r :
  wf_loc loc → length info = 17 →
  update_result s loc info (count_entries info) = (s2, r) →
  cview s2 = cview s ∧
  (∀ l, wf_loc l → l ≠ loc → vnode (pview s2) l = vnode (pview s) l) ∧
  (∀ l, even_loc l → vleaf (pview s2) l = vleaf (pview s) l) ∧
  (∀ m, location_ m = loc → info_ m = info → summary (pview s2) m r) ∧
  (loc = rootl → r = mkChild rootl (node_hash info) INNER ∧ vnode (pview s2) rootl = Some info).
Proof.
  intros Hl Hlen. unfold update_result. destruct (count_entries info) as [cnt only] eqn:Ec.
  pose proof (count_zero info) as Hz. pose proof (count_one info Hlen) as H1.
  pose proof (count_two info Hlen) as H2. rewrite Ec in Hz, H1, H2. simpl in Hz, H1, H2.
  assert (Hdel : ∀ l, wf_loc l → l ≠ loc → vnode (pview (StorageDeleteNode s loc)) l = vnode (pview s) l).
  { intros l Hwl Hne. destruct (delete_node_law s loc l Hl Hwl) as [-> _]. by rewrite decide_False. }
  assert (Hdell : ∀ l, even_loc l → vleaf (pview (StorageDeleteNode s loc)) l = vleaf (pview s) l).
  { intros l Hev. apply delete_node_law; auto with ceg. }
  case_decide as E0; [|case_decide as E1]; intros [= <- <-].
  - destruct E0 as [-> Hr]. split_and!; try done; [apply delete_node_frame|].
    intros m Em Ei. right. right. split; [done|]. rewrite Ei. eauto.
  - destruct E1 as [-> Hr]. split_and!; try done; [apply delete_node_frame|].
    intros m Em Ei. right. left. destruct (H1 eq_refl) as (o & -> & Ho & Hn). exists o.
    simpl. rewrite Ei. done.
  - destruct (save_node_law s loc info loc Hl Hl) as [Hsv _]. rewrite decide_True in Hsv by done.
    split_and!.
    + apply save_node_frame.
    + intros l Hwl Hne. destruct (save_node_law s loc info l Hl Hwl) as [-> _]. by rewrite decide_False.
    + intros l Hev. apply save_node_law; auto with ceg.
    + intros m Em Ei. left. rewrite Em, Ei. split_and!; [done|exact Hsv|].
      destruct (decide (loc = rootl)); [by left|right]. apply H2. destruct cnt as [|[|]]; [naive_solver..|lia].
    + intros ->. done.
Qed.

Lemma update_hash_eq s n :
  update_hash s n =
  let '(s1, info1) := update_leaf s (location_ n) (info_ n) (leaf_deleted_ n) (leaf_ n) in
  let '(s2, children, info2, acc) :=
    update_loop update_hash 0 (children_ n) s1 info1 (count_branch info1 16 (0, None)) in
  let '(s3, r) := update_result s2 (location_ n) info2 acc in
  (s3, MkNode (location_ n) children info2 false (leaf_deleted_ n) (leaf_ n), r).
Proof. by destruct n. Qed.

(** A well-formed location at or below [path loc] is [loc] or below one branch. *)
Lemma below_cases loc l :
  wf_loc loc → wf_loc l → path loc `prefix_of` path l →
  l = loc ∨ ∃ j, j < 16 ∧ path loc ++ [j] `prefix_of` path l.
Proof.
  intros Hl Hwl Hp. destruct (decide (loc = l)) as [->|Hne]; [by left|right].
  destruct (descend loc l) as (b & _ & Hb & Hpb); [done..|]. eauto.
Qed.

Lemma touched_own n k x :
  length (children_ n) = 16 → touched n k x →
  k = location_ n ∧ (leaf_deleted_ n = true ∧ x = None ∨ leaf_deleted_ n = false ∧ x = leaf_ n ∧ x ≠ None)
  ∨ ∃ j o, j < 16 ∧ children_ n !! j = Some o ∧ slot_touched o k x.
Proof.
  intros Hlen Ht. inversion Ht as [? E|? v E1 E2|? i c0 ? ? E1 E2 E3]; subst.
  - left. eauto.
  - left. split; [done|]. right. by rewrite E2.
  - right. exists i, (Some c0). split_and!; [by apply lookup_lt_Some in E1; lia|done|]. by exists c0.
Qed.

Lemma slot_touched_below p n j o k x :
  wf_node V p n → children_ n !! j = Some o → slot_touched o k x →
  path (location_ n) ++ [j] `prefix_of` path k.
Proof.
  intros [_ _ _ _ _ _ Hm _ _] Ho (c & -> & _ & Ht).
  pose proof (touched_below _ _ _ _ _ (Hm _ _ Ho) Ht) as Hb.
  destruct (Hm _ _ Ho) as [_ Hpc _ _ _ _ _ _ _]. by etrans.
Qed.

(** ** Assembling a hashed node from its parts

    [n'] is [n] after the loop: its own leaf and each of its slots are done. *)
Record node_parts (P P' : view) (n n' : NodeFrm) : Prop := {
  np_loc : location_ n' = location_ n;
  np_children : length (children_ n') = 16;
  np_info : length (info_ n') = 17;
  np_clean : modified_ n' = false;
  np_leaf_ok : leaf_ok P' n';
  np_own k v : own_holds P' n' k v ↔ own_holds V n k v;
  np_del : leaf_deleted_ n = true → vleaf P' (location_ n) = None;
  np_set v : leaf_deleted_ n = false → leaf_ n = Some v → vleaf P' (location_ n) = Some v;
  np_same : even_loc (location_ n) → leaf_deleted_ n = false → leaf_ n = None →
    vleaf P' (location_ n) = vleaf P (location_ n);
  np_slot j o r : children_ n !! j = Some o → info_ n !! j = Some r →
    ∃ o' r', children_ n' !! j = Some o' ∧ info_ n' !! j = Some r' ∧
      slot_done V P P' (path (location_ n) ++ [j]) o r o' r' }.

Lemma parts_inv P P' p n n' j o' :
  wf_node V p n → node_parts P P' n n' → children_ n' !! j = Some o' →
  ∃ o r r', children_ n !! j = Some o ∧ info_ n !! j = Some r ∧ info_ n' !! j = Some r' ∧
    slot_done V P P' (path (location_ n) ++ [j]) o r o' r'.
Proof.
  intros [_ _ Hc Hi _ _ _ _ _] Hnp Ho'. apply lookup_lt_Some in Ho' as Hj. rewrite (np_children _ _ _ _ Hnp) in Hj.
  destruct (lookup_lt_is_Some_2 (children_ n) j) as [o Ho]; [lia|].
  destruct (lookup_lt_is_Some_2 (info_ n) j) as [r Hr]; [lia|].
  destruct (np_slot _ _ _ _ Hnp _ _ _ Ho Hr) as (o'' & r' & Ho'' & Hr' & Hsd). simplify_eq. eauto 10.
Qed.

Lemma parts_wf P P' p n n' : wf_node V p n → node_parts P P' n n' → wf_node P' p n'.
Proof.
  intros Hw Hnp. pose proof Hw as [Hl Hp _ _ _ _ _ _ _]. rewrite <- (np_loc _ _ _ _ Hnp) in Hl, Hp.
  assert (Hinv : ∀ j o', children_ n' !! j = Some o' → ∃ r', info_ n' !! j = Some r' ∧
    slot_wf P' (path (location_ n') ++ [j]) o' r' ∧ ∀ c', o' = Some c' → modified_ c' = false).
  { intros j o' Ho'. destruct (parts_inv _ _ _ _ _ _ _ Hw Hnp Ho') as (o & r & r' & _ & _ & Hr' & [Hsw Hcl _ _]).
    rewrite (np_loc _ _ _ _ Hnp). eauto. }
  constructor; [exact Hl|exact Hp|by destruct Hnp|by destruct Hnp|by destruct Hnp|..].
  - intros j r' Hj Hr'. destruct (Hinv _ _ Hj) as (r'' & E & Hsw & _). by simplify_eq.
  - intros j c' Hj. by destruct (Hinv _ _ Hj) as (r'' & E & [Hsw _] & _).
  - intros j c' r' Hj Hmc Hr'. destruct (Hinv _ _ Hj) as (r'' & E & [_ Hsy] & _). simplify_eq. auto.
  - intros j c' _ Hj. destruct (Hinv _ _ Hj) as (_ & _ & _ & Hcl). auto.
Qed.

Lemma parts_holds P P' p n n' k v :
  wf_node V p n → node_parts P P' n n' → node_holds P' n' k v ↔ node_holds V n k v.
Proof.
  intros Hw Hnp. pose proof Hw as [_ _ Hc Hi _ _ _ _ _]. rewrite !node_holds_iff by (done || by destruct Hnp).
  rewrite (np_own _ _ _ _ Hnp). f_equiv. split.
  - intros (j & o' & r' & Ho' & Hr' & Hh).
    destruct (parts_inv _ _ _ _ _ _ _ Hw Hnp Ho') as (o & r & r'' & Ho & Hr & E & [_ _ Hsh _]).
    simplify_eq. exists j, o, r. split_and!; try done. by apply Hsh.
  - intros (j & o & r & Ho & Hr & Hh).
    destruct (np_slot _ _ _ _ Hnp _ _ _ Ho Hr) as (o' & r' & Ho' & Hr' & [_ _ Hsh _]).
    exists j, o', r'. split_and!; try done. by apply Hsh.
Qed.

(** The leaf record of the node itself. *)
Lemma parts_own_leaf P P' p n n' : wf_node V p n → node_parts P P' n n' → even_loc (location_ n) →
  (∀ x, touched n (location_ n) x → vleaf P' (location_ n) = x) ∧
  ((¬ ∃ x, touched n (location_ n) x) → vleaf P' (location_ n) = vleaf P (location_ n)).
Proof.
  intros Hw Hnp Hev. pose proof Hw as [_ _ Hc _ _ _ _ _ _]. split.
  - intros x Ht. apply touched_own in Ht as [[_ [[E ->]|(E & -> & Hx)]]|(j & o & Hj & Ho & Ht)]; [..|done].
    + by apply (np_del _ _ _ _ Hnp).
    + destruct (leaf_ n) as [v|] eqn:El; [|done]. by apply (np_set _ _ _ _ Hnp).
    + pose proof (slot_touched_below _ _ _ _ _ _ Hw Ho Ht) as Hb. by apply snoc_not_prefix in Hb.
  - intros Hnt. destruct (leaf_deleted_ n) eqn:Ed.
    + destruct Hnt. exists None. by apply touched_del.
    + destruct (leaf_ n) as [v|] eqn:El; [destruct Hnt; exists (Some v); by apply touched_set|].
      by apply (np_same _ _ _ _ Hnp).
Qed.

Lemma parts_leaves P P' p n n' :
  wf_node V p n → node_parts P P' n n' → leaves_updated P P' (path (location_ n)) (touched n).
Proof.
  intros Hw Hnp k Hk Hpk. pose proof Hw as [Hl _ Hc Hi _ _ _ _ _].
  destruct (below_cases (location_ n) k) as [->|(j & Hj & Hpj)]; [done|auto with ceg|done| |].
  { by eapply parts_own_leaf. }
  destruct (lookup_lt_is_Some_2 (children_ n) j) as [o Ho]; [lia|].
  destruct (lookup_lt_is_Some_2 (info_ n) j) as [r Hr]; [lia|].
  destruct (np_slot _ _ _ _ Hnp _ _ _ Ho Hr) as (o' & r' & _ & _ & [_ _ _ Hsl]).
  destruct (Hsl k Hk Hpj) as [H1 H2]. split.
  - intros x Ht. apply touched_own in Ht as [[-> _]|(j' & o1 & Hj' & Ho1 & Hst)]; [..|done].
    { by apply snoc_not_prefix in Hpj. }
    assert (j' = j) as ->.
    { eapply prefix_snoc_inv; [|exact Hpj]. by eapply slot_touched_below. }
    simplify_eq. by apply H1.
  - intros Hnt. apply H2. intros (x & c & -> & Hmc & Ht). apply Hnt. exists x. by eapply touched_child.
Qed.

(** The own leaf of a node whose pending leaf record is in [P3]. *)
Lemma own_holds_updated p n n' P P1 P3 info1 k v :
  wf_node V p n → agree (path (location_ n)) V P → leaf_updated n P P1 info1 →
  location_ n' = location_ n → leaf_deleted_ n' = leaf_deleted_ n → leaf_ n' = leaf_ n →
  info_ n' !! 16 = info1 !! 16 → leaf_ok P3 n' → length (info_ n') = 17 →
  (even_loc (location_ n) → vleaf P3 (location_ n) = vleaf P1 (location_ n)) →
  own_holds P3 n' k v ↔ own_holds V n k v.
Proof.
  intros Hw Ha Hlu E1 E2 E3 E16 Hok Hlen Hleaf. unfold own_holds. rewrite E1, E2, E3, E16.
  pose proof Hw as [_ _ _ _ Hlf _ _ _ _].
  split; intros (-> & Ed & Hv); (split_and!; [done..|]);
    (destruct Hv as [?|(Ev & c & Hc & Ht & Hv)]; [by left|right]; split; [done|exists c]);
    destruct (lu_same _ _ _ _ Hlu Ed Ev) as [-> ->]; (split_and!; [done..|]).
  - specialize (Hlf c Hc). rewrite Ed, Ev in Hlf. destruct Hlf as [->|(_ & _ & Hev)]; [done|].
    rewrite (agree_leaf _ _ _ _ Ha) by done. by rewrite <- Hleaf.
  - specialize (Hlf c Hc). rewrite Ed, Ev in Hlf. destruct Hlf as [->|(_ & _ & Hev)]; [done|].
    rewrite Hleaf by done. by rewrite <- (agree_leaf _ _ _ _ Ha).
Qed.

(** The leaf fields, once the loop and the summary have left the leaf record alone. *)
Lemma leaf_ok_same_leaf P P' n :
  (even_loc (location_ n) → vleaf P' (location_ n) = vleaf P (location_ n)) →
  leaf_ok P n → leaf_ok P' n.
Proof.
  intros Hv Hok c Hc. specialize (Hok c Hc).
  destruct (leaf_deleted_ n); [done|]. destruct (leaf_ n); [done|].
  destruct Hok as [?|([Et (v & Ev & Eh)] & Es & He)]; [by left|right]. split_and!; [|done..].
  split; [done|]. exists v. split; [|done]. rewrite Es in *. by rewrite Hv.
Qed.

(** The loop and the summary, from the state after [update_leaf]. *)
Lemma node_parts_intro p n P P1 P2 P3 info1 info2 cs2 :
  wf_node V p n → agree (path (location_ n)) V P → leaf_updated n P P1 info1 →
  length cs2 = 16 → length info2 = 17 → info2 !! 16 = info1 !! 16 →
  same_outside (λ l, ∃ j, 0 ≤ j < 0 + length (children_ n) ∧
    path (location_ n) ++ [j] `prefix_of` path l) P1 P2 →
  (∀ l, wf_loc l → l ≠ location_ n → vnode P3 l = vnode P2 l) →
  (∀ l, even_loc l → vleaf P3 l = vleaf P2 l) →
  (∀ j o r, children_ n !! j = Some o → info1 !! j = Some r →
     ∃ o' r', cs2 !! j = Some o' ∧ info2 !! j = Some r' ∧
       slot_done V P1 P2 (path (location_ n) ++ [j]) o r o' r') →
  node_parts P P3 n (MkNode (location_ n) cs2 info2 false (leaf_deleted_ n) (leaf_ n)).
Proof.
  intros Hw Ha Hlu Hc2 Hl2 H16 Ho2 Hn3 Hlf3 Hd2. pose proof Hw as [Hl Hp Hc Hi Hlf _ _ _ _].
  set (n' := MkNode _ _ _ _ _ _).
  assert (Hbelow : ∀ j l, path (location_ n) ++ [j] `prefix_of` path l → l ≠ location_ n).
  { intros j l Hp' ->. by apply snoc_not_prefix in Hp'. }
  assert (Hleaf : even_loc (location_ n) → vleaf P3 (location_ n) = vleaf P1 (location_ n)).
  { intros He. rewrite Hlf3 by done. apply Ho2; [done| |done].
    intros (j & _ & Hpj). by apply snoc_not_prefix in Hpj. }
  assert (Hok : leaf_ok P3 n').
  { apply (leaf_ok_same_leaf P1); [exact Hleaf|]. by apply (lu_ok _ _ _ _ Hlu). }
  split; [done|done|done|done|exact Hok|..].
  - intros k v. by eapply (own_holds_updated p n n' P P1 P3 info1).
  - intros Ed. rewrite Hleaf; [by apply (lu_del _ _ _ _ Hlu)|].
    destruct (lookup_lt_is_Some_2 (info_ n) 16) as [c16 Hc16]; [lia|].
    specialize (Hlf c16 Hc16). rewrite Ed in Hlf. by destruct Hlf as (_ & _ & ?).
  - intros v Ed Ev. rewrite Hleaf by (by eapply leaf_even). by apply (lu_set _ _ _ _ Hlu).
  - intros He Ed Ev. rewrite Hleaf by done. by destruct (lu_same _ _ _ _ Hlu Ed Ev) as [-> _].
  - intros j o r Ho Hr. destruct (Hd2 j o r Ho) as (o' & r' & Ho' & Hr' & Hsd).
    { rewrite <- Hr. apply (lu_other _ _ _ _ Hlu). apply lookup_lt_Some in Ho. lia. }
    exists o', r'. split_and!; [done..|]. eapply slot_done_frame; [|eapply slot_done_base; [|exact Hsd]].
    + intros l Hwl Hpl. split; [symmetry; by apply Hn3, (Hbelow j)|]. intros He. by rewrite Hlf3.
    + apply agree_sym. eapply same_outside_agree; [exact (lu_outside _ _ _ _ Hlu)|].
      intros l _. apply Hbelow.
Qed.

Lemma update_hash_spec p n : wf_node V p n →
  ∀ s, agree (path (location_ n)) V (pview s) →
  let '(s', n', r) := update_hash s n in
  cview s' = cview s ∧ hashed V (pview s) (pview s') p n n' r.
Proof.
  intros Hw. induction Hw as [p n Hl Hp Hc Hi Hlf Hr Hm IH Hs Hmod]. intros s Ha.
  assert (wf_node V p n) as Hw by (by constructor).
  rewrite update_hash_eq.
  destruct (update_leaf s _ _ _ _) as [s1 info1] eqn:Elf.
  destruct (update_leaf_spec p n s s1 info1 Hw Ha Elf) as [Hcv1 Hlu].
  pose proof Hlu as [Hl1 He1 Ho1 _ Hset _ _].
  pose proof (update_loop_spec (location_ n) update_hash (children_ n) 0 s1 info1
    (count_branch info1 16 (0, None))) as Hloop.
  destruct (update_loop update_hash 0 (children_ n) s1 info1 _) as [[[s2 cs2] info2] acc2].
  destruct Hloop as (Hlc2 & Hl2 & Hcv2 & He2 & Hd2 & Ho2 & Hacc); [lia|done|..].
  { intros j o r Ho Hrj. rewrite He1 in Hrj by (apply lookup_lt_Some in Ho; simpl; lia).
    eapply wf_node_slot; eauto. }
  { intros j _. eapply agree_trans; [|eapply same_outside_agree; [exact Ho1|]].
    - eapply agree_weaken; [|exact Ha]. by apply prefix_app_r.
    - intros l _ Hpl ->. by apply snoc_not_prefix in Hpl. }
  { intros j c s' Hj Ha'. by apply (IH j c Hj). }
  assert (acc2 = count_entries info2) as ->.
  { rewrite Hacc, Hc. unfold count_entries. cbn [foldl]. f_equal.
    apply count_branch_ext. symmetry. apply He2. lia. }
  destruct (update_result s2 (location_ n) info2 _) as [s3 r] eqn:Eres.
  destruct (update_result_spec s2 (location_ n) info2 s3 r Hl Hl2 Eres)
    as (Hcv3 & Hn3 & Hlf3 & Hsum & Hroot).
  assert (H16 : info2 !! 16 = info1 !! 16) by (apply He2; lia).
  pose proof (node_parts_intro p n _ _ _ _ info1 info2 cs2 Hw Ha Hlu ltac:(lia) Hl2 H16 Ho2 Hn3 Hlf3 Hd2) as Hnp.
  split; [congruence|]. split.
  - by eapply parts_wf.
  - done.
  - done.
  - split; [by apply Hsum|]. cbn [leaf_deleted_ leaf_ location_ info_]. intros v Ed Ev.
    split; [by apply (np_set _ _ _ _ Hnp)|]. intros c. rewrite H16. destruct (Hset v Ed Ev) as [_ ->].
    by intros [= <-].
  - exact Hroot.
  - intros k v. by eapply parts_holds.
  - by eapply parts_leaves.
  - intros l Hwl Hnl. assert (l ≠ location_ n) as Hne by (intros ->; by apply Hnl).
    destruct (Ho1 l Hwl Hne) as [E1 F1]. destruct (Ho2 l Hwl) as [E2 F2].
    { intros (j & _ & Hpj). apply Hnl. etrans; [|exact Hpj]. by apply prefix_app_r. }
    split; [rewrite Hn3; congruence|]. intros He. by rewrite Hlf3, F2, F1.
Qed.
End hash.
