(* ===== verification/KVTrie.v ===== *)
(** * The key-value backed trie (src/src/ledger/kv_trie.h, kv_trie.cpp)

    [KVTrie] implements the storage interface of [Trie] over a key-value database
    ([KeyValueDb]) and a write batch; reads go to the database only, writes to the
    batch only, until [AddToDB] writes the batch. *)
From S2P Require Import Prelude Location Trie TrieSpec TrieOps.
From stdpp Require Import base gmap list.
From Stdlib Require Import ZArith.

(** ** [KeyValueDb] and [WRITE_BATCH]

    The content of the database, and the keys whose read returns the error status
    [-1]; [write_ok] tells whether [WriteBatch] succeeds. *)
Record KeyValueDb := mkDb {
  content : gmap bytes bytes;
  read_error : bytes → bool;
  write_ok : bool }.

Inductive batch_op := BPut (key value : bytes) | BDelete (key : bytes).

Definition apply_op (m : gmap bytes bytes) (o : batch_op) : gmap bytes bytes :=
  match o with BPut k v => <[k := v]> m | BDelete k => delete k m end.

Definition apply_batch (b : list batch_op) (m : gmap bytes bytes) : gmap bytes bytes :=
  foldl apply_op m b.

Record KVStore := mkKV { mdb_ : KeyValueDb; prefix_ : bytes; batch_ : list batch_op }.

Section kv.
(** The protobuf encoding of [protocol::Node] and [HashWrapper::Crypto]. *)
Context (SerializeAsString : Node → bytes) (ParseFromString : bytes → Node).
Context (Crypto : bytes → bytes).

Definition Location2DBkey (kv : KVStore) (location : bytes) (leaf : bool) : bytes :=
  prefix_ kv ++ (if leaf then <[0 := LEAF_PREFIX]> location else location).

Definition db_get (kv : KVStore) (key : bytes) : res (option bytes) :=
  if read_error (mdb_ kv) key then Err ProcessExit else mret (content (mdb_ kv) !! key).

Definition kv_storage_load (kv : KVStore) (location : bytes) : res (option Node) :=
  o ← db_get kv (Location2DBkey kv location false);
  mret (ParseFromString <$> (o : option bytes)).

Definition push (kv : KVStore) (o : batch_op) : KVStore :=
  mkKV (mdb_ kv) (prefix_ kv) (batch_ kv ++ [o]).

Definition kv_StorageSaveNode (kv : KVStore) (location : bytes) (info : Node) : KVStore :=
  push kv (BPut (Location2DBkey kv location false) (SerializeAsString info)).

Definition kv_StorageSaveLeaf (kv : KVStore) (location leaf : bytes) : KVStore :=
  push kv (BPut (Location2DBkey kv location true) leaf).

Definition kv_StorageDeleteNode (kv : KVStore) (location : bytes) : KVStore :=
  push kv (BDelete (Location2DBkey kv location false)).

Definition kv_StorageDeleteLeaf (kv : KVStore) (location : bytes) : KVStore :=
  push kv (BDelete (Location2DBkey kv location true)).

Definition kv_StorageGetLeaf (kv : KVStore) (location : bytes) : res (option bytes) :=
  db_get kv (Location2DBkey kv location true).

#[local] Instance KVTrie : TrieStorage KVStore := {
  storage_load := kv_storage_load;
  StorageSaveNode := kv_StorageSaveNode;
  StorageSaveLeaf := kv_StorageSaveLeaf;
  StorageDeleteNode := kv_StorageDeleteNode;
  StorageDeleteLeaf := kv_StorageDeleteLeaf;
  StorageGetLeaf := kv_StorageGetLeaf;
  SerializeNode := SerializeAsString;
  HashCrypto := Crypto }.

Definition AddToDB (t : Trie KVStore) : Trie KVStore * bool :=
  let kv := store_ t in
  let db := mdb_ kv in
  let b := write_ok db in
  let content' := if b then apply_batch (batch_ kv) (content db) else content db in
  (mkTrie (mkKV (mkDb content' (read_error db) (write_ok db)) (prefix_ kv) [])
     (root_ t) (root_hash_ t), b).

(** [Load] with [depth >= 0]: the levels still to load are [depth + 1]. *)
Fixpoint Load_levels (levels : nat) (s : KVStore) (node : NodeFrm) : res NodeFrm :=
  match levels with
  | O => mret node
  | S levels =>
      foldl (λ acc i,
        node ← acc;
        '(node, o) ← ChildMayFromDB s node i;
        match o with
        | None => mret node
        | Some child =>
            child ← Load_levels levels s child;
            mret (set_children (<[i := Some child]> (children_ node)) node)
        end) (mret node) (seq 0 16)
  end.

Definition Load (s : KVStore) (node : NodeFrm) (depth : Z) : res NodeFrm :=
  Load_levels (Z.to_nat (depth + 1)) s node.

Definition Init (db : KeyValueDb) (batch : list batch_op) (prefix : bytes) (depth : Z)
    : res (Trie KVStore) :=
  let s := mkKV db prefix batch in
  let location := [EVEN_PREFIX] in
  let root := NewNodeFrm location in
  o ← storage_load s location;
  root ← match o with
         | Some info => Load s (set_info info root) depth
         | None => mret root
         end;
  mret (mkTrie s root []).

(** ** [KVTrie] satisfies the storage laws *)

Context (Hparse : ∀ n, ParseFromString (SerializeAsString n) = n).

Definition kv_view (prefix : bytes) (m : gmap bytes bytes) : view :=
  mkView (λ l, ParseFromString <$> m !! (prefix ++ l))
         (λ l, m !! (prefix ++ <[0 := LEAF_PREFIX]> l)).

Definition kv_cview (kv : KVStore) : view := kv_view (prefix_ kv) (content (mdb_ kv)).
Definition kv_pview (kv : KVStore) : view :=
  kv_view (prefix_ kv) (apply_batch (batch_ kv) (content (mdb_ kv))).

Lemma leaf_key_inj l l' :
  even_loc l → even_loc l' → <[0 := LEAF_PREFIX]> l = <[0 := LEAF_PREFIX]> l' → l = l'.
Proof. intros [r ->] [r' ->]. simpl. naive_solver. Qed.

Lemma leaf_node_key l l' : wf_loc l → even_loc l' → l ≠ <[0 := LEAF_PREFIX]> l'.
Proof.
  intros (p & r & -> & Hp & _)%wf_loc_inv [r' ->]. simpl. destruct Hp as [-> | ->]; by intros [=].
Qed.

Lemma apply_push kv o :
  apply_batch (batch_ (push kv o)) (content (mdb_ (push kv o))) =
  apply_op (apply_batch (batch_ kv) (content (mdb_ kv))) o.
Proof. unfold apply_batch, push. simpl. by rewrite foldl_app. Qed.

#[local] Instance KVTrie_laws : TrieStorageLaws KVStore.
Proof.
  refine {| cview := kv_cview; pview := kv_pview;
            healthy := λ kv, ∀ k, read_error (mdb_ kv) k = false |}.
  - intros kv l Hh. cbn. unfold kv_storage_load, db_get, Location2DBkey. by rewrite Hh.
  - intros kv l Hh. cbn. unfold kv_StorageGetLeaf, db_get, Location2DBkey. by rewrite Hh.
  - done.
  - done.
  - done.
  - done.
  - intros kv l n l' Hl Hl'. unfold kv_pview. cbn [StorageSaveNode KVTrie].
    unfold kv_StorageSaveNode, Location2DBkey.
    rewrite apply_push. cbn [kv_view vnode vleaf apply_op prefix_ push]. split.
    + case_decide as E; [subst; rewrite lookup_insert_eq; simpl; by rewrite Hparse|].
      rewrite lookup_insert_ne; [done|]. intros Hx%app_inv_head. congruence.
    + intros He. rewrite lookup_insert_ne; [done|]. intros E%app_inv_head. by apply (leaf_node_key l l' Hl He).
  - intros kv l l' Hl Hl'. unfold kv_pview. cbn [StorageDeleteNode KVTrie].
    unfold kv_StorageDeleteNode, Location2DBkey.
    rewrite apply_push. cbn [kv_view vnode vleaf apply_op prefix_ push]. split.
    + case_decide as E; [subst; by rewrite lookup_delete_eq|].
      rewrite lookup_delete_ne; [done|]. intros Hx%app_inv_head. congruence.
    + intros He. rewrite lookup_delete_ne; [done|]. intros E%app_inv_head. by apply (leaf_node_key l l' Hl He).
  - intros kv l v l' Hl Hl'. unfold kv_pview. cbn [StorageSaveLeaf KVTrie].
    unfold kv_StorageSaveLeaf, Location2DBkey.
    rewrite apply_push. cbn [kv_view vnode vleaf apply_op prefix_ push]. split.
    + rewrite lookup_insert_ne; [done|]. intros E%app_inv_head. by apply (leaf_node_key l' l Hl' Hl).
    + intros He. case_decide as E; [subst; by rewrite lookup_insert_eq|].
      rewrite lookup_insert_ne; [done|]. intros Hx%app_inv_head. by apply E, leaf_key_inj.
  - intros kv l l' Hl Hl'. unfold kv_pview. cbn [StorageDeleteLeaf KVTrie].
    unfold kv_StorageDeleteLeaf, Location2DBkey.
    rewrite apply_push. cbn [kv_view vnode vleaf apply_op prefix_ push]. split.
    + rewrite lookup_delete_ne; [done|]. intros E%app_inv_head. by apply (leaf_node_key l' l Hl' Hl).
    + intros He. case_decide as E; [subst; by rewrite lookup_delete_eq|].
      rewrite lookup_delete_ne; [done|]. intros Hx%app_inv_head. by apply E, leaf_key_inj.
Defined.
End kv.
