(* ===== verification/TrieMap.v ===== *)
(** * The trie is a persistent finite map

    Lookup ([Exists], [Get]), eviction ([Release]), loading ([Load], [Init]), and the
    refinement of a finite map by [Set], [Delete], [UpdateHash]/[AddToDB], [Get],
    [FreeMemory] and [Init]. *)
From stdpp Require Import base gmap list.
From Stdlib Require Import ZArith Lia.
From S2P Require Import Prelude Location Trie TrieSpec TrieOps TrieHash KVTrie.

(** ** Lookup in an unmodified trie *)

Section nodes.
Context `{NH : NodeHash}.

Lemma rec_sublocation_below V p r k v :
  wf_rec V p r → rec_holds V r k v →
  wf_loc (sublocation r) ∧ path (sublocation r) `prefix_of` path k.
Proof.
  intros Hw Hr. destruct Hw as [->|[Hl _] Hev Hp|info Hi Hloc Hp Hn Hlen Hhash Htwo Hc H16].
  - by apply rec_holds_none in Hr.
  - apply rec_holds_leaf_inv in Hr as [-> _]; [|done]. auto with ceg.
  - split; [done|]. inversion Hr as [|? info' i ci ? ? ? Hn' Hi' Hr']; subst; [congruence|].
    rewrite Hn in Hn'. simplify_eq. destruct (lookup17 _ _ _ Hlen Hi') as [Hlt | ->].
    + destruct (rec_holds_below _ _ _ _ _ (Hc _ _ Hlt Hi') Hr') as [_ Hp'].
      etrans; [|exact Hp']. by apply prefix_app_r.
    + by destruct (leafrec_holds _ _ _ _ _ (H16 _ Hi') Hr') as (-> & _ & _).
Qed.

Lemma rec_holds_vleaf V r k v : rec_holds V r k v → vleaf V k = Some v.
Proof. by induction 1. Qed.

(** The record of an unmodified node lies at or below the node. *)
Lemma synced_sublocation V p c r :
  wf_node V p c → modified_ c = false → synced V c r → childtype r ≠ NONE →
  wf_loc (sublocation r) ∧ path (location_ c) `prefix_of` path (sublocation r).
Proof.
  intros Hw Hm [[(-> & _)|[(o & Ho & _)|(-> & _)]] Hsl] Hr; [by destruct Hw| |done].
  pose proof Hw as [Hl _ Hc Hi Hlf Hrec Hmem Hs Hmod].
  destruct (lookup17 _ _ _ Hi Ho) as [Hlt | ->].
  - destruct (lookup_lt_is_Some_2 (children_ c) o) as [oc Hoc]; [lia|].
    assert (wf_rec V (path (location_ c) ++ [o]) r) as Hwr.
    { destruct oc as [c'|]; [|eauto]. eapply synced_wf_rec; eauto. }
    assert (wf_loc (sublocation r) ∧ path (location_ c) ++ [o] `prefix_of` path (sublocation r)) as [? Hp]
      by (destruct Hwr as [->| |]; auto with ceg; done).
    split; [done|]. etrans; [|exact Hp]. by apply prefix_app_r.
  - specialize (Hlf r Ho). destruct (leaf_deleted_ c); [by destruct Hlf as (_ & -> & _)|].
    destruct (leaf_ c); [by destruct Hlf as (_ & _ & ->)|].
    destruct Hlf as [->|(_ & -> & _)]; done.
Qed.

(** No child in memory has changes that are not in the database. *)
Definition children_clean (n : NodeFrm) : Prop :=
  ∀ i c, children_ n !! i = Some (Some c) → modified_ c = false.

Lemma unmodified_clean V p n : wf_node V p n → modified_ n = false → children_clean n.
Proof. intros [_ _ _ _ _ _ _ _ Hmod] Hm i c. eauto. Qed.

End nodes.

Section lookup.
Context {S : Type} `{TrieStorage S} (s : S) (V : view).
Context (Hload : ∀ l, storage_load s l = Ok (vnode V l)).

(** [n'] is [n] with more of the database cached in its slots. *)
Record cached (p : list nat) (n n' : NodeFrm) : Prop := {
  ca_wf : wf_node V p n';
  ca_same : same_summary n n';
  ca_mod : modified_ n' = modified_ n;
  ca_clean : children_clean n → children_clean n';
  ca_holds k v : node_holds V n' k v ↔ node_holds V n k v;
  ca_touched k : is_touched n k → is_touched n' k }.

Lemma cached_refl p n : wf_node V p n → cached p n n.
Proof. intros Hw. split; [exact Hw|done..]. Qed.

Lemma cached_trans p n1 n2 n3 : cached p n1 n2 → cached p n2 n3 → cached p n1 n3.
Proof.
  intros [W1 (E1 & E2 & E3 & E4) M1 C1 H1 T1] [W2 (F1 & F2 & F3 & F4) M2 C2 H2 T2]. split; [exact W2|..].
  - split_and!; congruence.
  - congruence.
  - auto.
  - intros k v. by rewrite H2.
  - auto.
Qed.

Lemma cached_child p n b : wf_node V p n → b < 16 →
  ∃ n1 o r, ChildMayFromDB s n b = Ok (n1, o) ∧ cached p n n1 ∧ info_ n !! b = Some r ∧
    children_ n1 !! b = Some o ∧ (o = None → childtype r = NONE).
Proof.
  intros Hw Hb. pose proof Hw as [_ _ Hlc _ _ _ _ _ _].
  destruct (ChildMayFromDB_spec s V Hload p n b Hw Hb)
    as (n1 & o & r & Hdb & Hw1 & Hn1 & Hr & Hh1 & Hno & Hso).
  exists n1, o, r. split_and!; [done| |done| |done].
  - split; [exact Hw1|by rewrite Hn1|by rewrite Hn1| |exact Hh1|].
    { intros Hcl i c. rewrite Hn1. simpl. rewrite lookup_insert_list by lia.
      case_decide as E; [subst; intros [= ->]|apply Hcl].
      destruct (Hso c eq_refl) as [?|(_ & ? & _)]; [by eapply Hcl|done]. }
    intros k Ht. eapply ChildMayFromDB_touched; eauto; [|lia].
    intros c Hc. destruct (Hso c Hc) as [?|(_ & ? & _)]; auto.
  - rewrite Hn1. simpl. apply list_lookup_insert_eq. lia.
Qed.

(** Putting a cached child back. *)
Lemma cached_put p n b c c' :
  wf_node V p n → children_ n !! b = Some (Some c) → cached (path (location_ n) ++ [b]) c c' →
  cached p n (set_children (<[b := Some c']> (children_ n)) n).
Proof.
  intros Hw Hb [W E M C Hh T]. pose proof Hw as [_ _ Hlc Hli _ _ _ Hs Hmod].
  assert (b < 16) by (apply lookup_lt_Some in Hb; lia).
  destruct (lookup_lt_is_Some_2 (info_ n) b) as [r Hr]; [lia|].
  rewrite set_children_put. split; [|done|done| | |].
  - apply wf_put_child; try assumption; [done|intros Hm r' Hr'|].
    + eapply synced_same; [exact E|]. rewrite M in Hm. eauto.
    + intros Hm. split; [done|]. rewrite M. eauto.
  - intros Hcl i c0. simpl. rewrite lookup_insert_list by lia.
    case_decide as Ei; [intros [= <-]|apply Hcl]. rewrite M. by eapply Hcl.
  - intros k v. apply (put_same_holds V p n b c' r); try assumption; [done|].
    intros ob k' v' Hob. rewrite Hb in Hob. simplify_eq. apply Hh.
  - intros k Ht. apply touched_put; [lia|done|].
    intros c0 Hc0 Hm0 Ht0. rewrite Hb in Hc0. simplify_eq. rewrite M. auto.
Qed.

Lemma Exists_spec key : even_loc key →
  ∀ fuel p n, wf_node V p n → children_clean n →
  path (location_ n) `prefix_of` path key →
  length (path key) < fuel + length (path (location_ n)) →
  ∃ n' b, Exists fuel s n key = Ok (n', b) ∧ cached p n n' ∧
    (b = false → ∀ v, ¬ node_holds V n key v).
Proof.
  intros Hk. pose proof (even_wf _ Hk) as Hkw.
  induction fuel as [|fuel IH]; intros p n Hw Hm Hpre Hfuel.
  { apply prefix_length in Hpre. lia. }
  pose proof Hw as [Hl _ _ Hli _ Hrec _ _ _]. simpl Exists. case_decide as Eloc.
  { exists n, true. split_and!; [done|by apply cached_refl|done]. }
  destruct (descend (location_ n) key) as (b & Hnb & Hb & Hpb); [done..|].
  rewrite Hnb. cbn.
  destruct (cached_child p n b Hw Hb) as (n1 & o & r & Hdb & Hca & Hr & Ho & Hno).
  pose proof Hca as [Hw1 (Hi1 & Hl1 & _) _ Hm1 Hh1 _]. specialize (Hm1 Hm).
  assert (Hr1 : info_ n1 !! b = Some r) by (by rewrite Hi1).
  assert (Hslot : ∀ v, node_holds V n key v → slot_holds V o r key v).
  { intros v Hh. apply Hh1 in Hh. rewrite (slots_split V p n1 b o r) in Hh by done.
    rewrite <- Hl1 in Hpb. pose proof (others_below V p n1 b key v Hw1 Hpb). tauto. }
  pose proof (wf_node_slot _ _ _ _ _ _ Hw1 Ho Hr1) as Hsw.
  assert (Hrec' : wf_rec V (path (location_ n1) ++ [b]) r ∧
    ∀ v, slot_holds V o r key v → rec_holds V r key v).
  { destruct o as [c|]; [|done]. destruct Hsw as [Hwc Hsc].
    assert (modified_ c = false) as Hmc by eauto.
    split; [by eapply synced_wf_rec; eauto|]. intros v. simpl. by rewrite synced_holds by eauto. }
  destruct Hrec' as [Hwr Hrh].
  rewrite (at_Some _ _ _ Hr). cbn. case_decide as Et.
  { exists n, false. split_and!; [done|by apply cached_refl|]. intros _ v Hh.
    by apply Hslot, Hrh, rec_holds_none in Hh. }
  case_decide as E2.
  { exists n, false. split_and!; [done|by apply cached_refl|]. intros _ v Hh. apply E2.
    apply Hslot, Hrh in Hh. destruct (rec_sublocation_below _ _ _ _ _ Hwr Hh) as [Hws Hps].
    by apply CommonPrefix_prefix. }
  rewrite Hdb. cbn. destruct o as [c|]; [|by destruct Et; auto].
  destruct Hsw as [Hwc Hsc].
  assert (modified_ c = false) as Hmc by eauto.
  destruct (synced_sublocation _ _ _ _ Hwc Hmc (Hsc Hmc) Et) as [Hws Hps].
  assert (path (location_ c) `prefix_of` path key) as Hpc.
  { etrans; [exact Hps|]. by apply CommonPrefix_is_l. }
  destruct (IH _ c Hwc (unmodified_clean _ _ _ Hwc Hmc) Hpc) as (c' & ret & Hex & Hcc & Hret).
  { destruct Hwc as [_ Hpw _ _ _ _ _ _ _]. rewrite Hl1 in Hpw. apply prefix_length in Hpw.
    rewrite length_app in Hpw. simpl in Hpw. lia. }
  rewrite Hex. cbn. eexists _, ret. split; [done|]. split.
  - eapply cached_trans; [exact Hca|]. by eapply cached_put.
  - intros -> v Hh. by apply Hslot, (Hret eq_refl) in Hh.
Qed.

(** ** Loading levels from the database *)

Lemma Load_fold_spec p (f : NodeFrm → res NodeFrm) :
  (∀ p' c, wf_node V p' c → ∃ c', f c = Ok c' ∧ cached p' c c') →
  ∀ idxs n, (∀ i, i ∈ idxs → i < 16) → wf_node V p n →
  ∃ n', foldl (λ acc i, node ← acc;
          '(node, o) ← ChildMayFromDB s node i;
          match o with
          | None => mret node
          | Some child => child ← f child;
              mret (set_children (<[i := Some child]> (children_ node)) node)
          end) (mret n) idxs = Ok n' ∧ cached p n n'.
Proof.
  intros Hf. induction idxs as [|i idxs IH]; intros n Hi Hw.
  { exists n. split; [done|by apply cached_refl]. }
  destruct (cached_child p n i Hw) as (n1 & o & r & Hdb & Hca & _ & Ho & _); [apply Hi; by left|].
  simpl. cbn. rewrite Hdb. cbn. pose proof Hca as [Hw1 _ _ _ _ _].
  destruct o as [c|].
  - pose proof Hw1 as [_ _ _ _ _ _ Hmem _ _]. destruct (Hf _ _ (Hmem _ _ Ho)) as (c' & -> & Hcc). cbn.
    pose proof (cached_put p n1 i c c' Hw1 Ho Hcc) as Hcp. pose proof Hcp as [Hw2 _ _ _ _ _].
    destruct (IH _ (λ j Hj, Hi j (list_elem_of_further _ _ _ Hj)) Hw2) as (n' & -> & Hc').
    exists n'. split; [done|]. eapply cached_trans; [exact Hca|]. by eapply cached_trans.
  - destruct (IH _ (λ j Hj, Hi j (list_elem_of_further _ _ _ Hj)) Hw1) as (n' & -> & Hc').
    exists n'. split; [done|]. by eapply cached_trans.
Qed.
End lookup.

(** ** Evicting nodes *)

(** The slot that [Release] leaves. *)
Definition release_slot (depth : Z) (o : option NodeFrm) : option NodeFrm :=
  match o with
  | None => None
  | Some c => if bool_decide (depth ≤ 0)%Z then None else Some (Release c (depth - 1))
  end.

Lemma Release_eq n depth :
  Release n depth = set_children (release_slot depth <$> children_ n) n.
Proof. by destruct n. Qed.

Section evict.
Context `{NH : NodeHash}.

(** Replacing each slot by an unmodified one with the same meaning. *)
Lemma wf_map_slots V p n (f : option NodeFrm → option NodeFrm) :
  wf_node V p n →
  (∀ i o r, children_ n !! i = Some o → info_ n !! i = Some r →
    slot_wf V (path (location_ n) ++ [i]) (f o) r ∧ ∀ c, f o = Some c → modified_ c = false) →
  wf_node V p (set_children (f <$> children_ n) n) ∧
  children_clean (set_children (f <$> children_ n) n).
Proof.
  intros [Hl Hp Hc Hi Hlf Hr Hm Hs Hmod] Hslot.
  assert (Hinv : ∀ i o', (f <$> children_ n) !! i = Some o' → ∃ r, info_ n !! i = Some r ∧
    slot_wf V (path (location_ n) ++ [i]) o' r ∧ ∀ c, o' = Some c → modified_ c = false).
  { intros i o' Ho'. rewrite list_lookup_fmap in Ho'. apply fmap_Some in Ho' as (o & Ho & ->).
    destruct (lookup_lt_is_Some_2 (info_ n) i) as [r Hir]; [apply lookup_lt_Some in Ho; lia|]. eauto. }
  assert (Hcl : children_clean (set_children (f <$> children_ n) n)).
  { intros i c Ho'. destruct (Hinv _ _ Ho') as (r & _ & _ & Hcl). auto. }
  split; [|exact Hcl].
  constructor; cbn [location_ children_ info_ modified_ set_children];
    [exact Hl|exact Hp|by rewrite length_fmap|exact Hi|exact Hlf|..].
  - intros i r Ho' Hir. destruct (Hinv _ _ Ho') as (r' & E & Hsw & _). by simplify_eq.
  - intros i c Ho'. by destruct (Hinv _ _ Ho') as (r' & E & [Hsw _] & _).
  - intros i c r Ho' Hmc Hir. destruct (Hinv _ _ Ho') as (r' & E & [_ Hsy] & _). simplify_eq. auto.
  - intros i c _. apply Hcl.
Qed.

Lemma map_slots_holds V n (f : option NodeFrm → option NodeFrm) k v :
  length (children_ n) = 16 → length (info_ n) = 17 →
  (∀ i o r, children_ n !! i = Some o → info_ n !! i = Some r →
    slot_holds V (f o) r k v ↔ slot_holds V o r k v) →
  node_holds V (set_children (f <$> children_ n) n) k v ↔ node_holds V n k v.
Proof.
  intros Hc Hi Hslot. rewrite !node_holds_iff by (simpl; rewrite ?length_fmap; done).
  apply or_iff_compat_l. split.
  - intros (i & o' & r & Ho' & Hir & Hh). simpl in Ho', Hir. rewrite list_lookup_fmap in Ho'.
    apply fmap_Some in Ho' as (o & Ho & ->). exists i, o, r. split_and!; [done..|]. by eapply Hslot.
  - intros (i & o & r & Ho & Hir & Hh). exists i, (f o), r. simpl.
    rewrite list_lookup_fmap, Ho. split_and!; [done..|]. by eapply Hslot.
Qed.

Lemma Release_spec V p n : wf_node V p n → children_clean n → ∀ depth,
  wf_node V p (Release n depth) ∧ same_summary n (Release n depth) ∧
  modified_ (Release n depth) = modified_ n ∧ children_clean (Release n depth) ∧
  ∀ k v, node_holds V (Release n depth) k v ↔ node_holds V n k v.
Proof.
  intros Hw. induction Hw as [p n Hl Hp Hc Hi Hlf Hr Hm IH Hs Hmod]. intros Hmn depth.
  assert (wf_node V p n) as Hw by (by constructor).
  rewrite Release_eq.
  assert (Hslot : ∀ i o r, children_ n !! i = Some o → info_ n !! i = Some r →
    slot_wf V (path (location_ n) ++ [i]) (release_slot depth o) r ∧
    (∀ c, release_slot depth o = Some c → modified_ c = false) ∧
    ∀ k v, slot_holds V (release_slot depth o) r k v ↔ slot_holds V o r k v).
  { intros i [c|] r Ho Hir; [|simpl; split_and!; [by eapply Hr|done|done]].
    assert (modified_ c = false) as Hmc by eauto.
    destruct (IH _ _ Ho (unmodified_clean _ _ _ (Hm _ _ Ho) Hmc) (depth - 1)%Z) as (W & E & M & _ & Hh).
    simpl. case_bool_decide; simpl.
    - split_and!; [eapply synced_wf_rec; [exact (Hm _ _ Ho)|done|eauto]|done|].
      intros k v. symmetry. eapply synced_holds; [exact (Hm _ _ Ho)|done|eauto].
    - split_and!; [exact W| |intros c' [= <-]; congruence|exact Hh]. intros _. eapply synced_same; eauto. }
  destruct (wf_map_slots V p n (release_slot depth) Hw) as [Hw' Hcl].
  { intros i o r Ho Hir. by destruct (Hslot _ _ _ Ho Hir) as (? & ? & _). }
  split_and!; [exact Hw'|done|done|exact Hcl|].
  intros k v. apply map_slots_holds; [done..|]. intros i o r Ho Hir. by apply (Hslot _ _ _ Ho Hir).
Qed.
End evict.

Lemma touched_holds V n k v : touched n k (Some v) → node_holds V n k v.
Proof.
  remember (Some v) as o eqn:Eo. induction 1 as [n E|n w E1 E2|n i c k o E1 E2 E3 IH]; [done|..].
  - simplify_eq. by apply node_leaf.
  - eapply node_mem; eauto.
Qed.
