(* ===== verification/TrieRefinement.v ===== *)
(** * [KVTrie] refines a finite map

    [trie_rel t m]: the trie [t], whose write batch has no key of the trie yet, stands
    for the map [m] (its in-memory changes included); [clean]: every change has been written.  The
    operations keep the relation, and a clean trie answers [Get] from the map, also
    after eviction and after a restart from the database. *)
From stdpp Require Import base gmap list strings.
From Stdlib Require Import ZArith Lia.
From S2P Require Import Prelude Location Trie TrieSpec TrieOps TrieHash KVTrie TrieMap.

Section refinement.
Context (SerializeAsString : Node → bytes) (ParseFromString : bytes → Node).
Context (Crypto : bytes → bytes).
Context (Hparse : ∀ n, ParseFromString (SerializeAsString n) = n).

#[local] Instance kv_inst : TrieStorage KVStore := KVTrie SerializeAsString ParseFromString Crypto.
#[local] Instance kv_laws : TrieStorageLaws KVStore :=
  KVTrie_laws SerializeAsString ParseFromString Crypto Hparse.

Implicit Types (t : Trie KVStore) (m : gmap bytes bytes).

Definition committed_view t : view := kv_cview ParseFromString (store_ t).

(** The database works: no read error, and batches are written. *)
Definition db_ok t : Prop :=
  (∀ k, read_error (mdb_ (store_ t)) k = false) ∧ write_ok (mdb_ (store_ t)) = true.

Record trie_rel t m : Prop := {
  tr_batch : agree [] (committed_view t) (kv_pview ParseFromString (store_ t));
  tr_db : db_ok t;
  tr_wf : wf_node (committed_view t) [] (root_ t);
  tr_root : location_ (root_ t) = rootl;
  tr_holds k v : node_holds (committed_view t) (root_ t) (Key2Location k) v ↔ m !! k = Some v;
  tr_leaf k v : vleaf (committed_view t) (Key2Location k) = Some v →
    m !! k = Some v ∨ is_touched (root_ t) (Key2Location k) }.

(** The record of the root. *)
Definition root_rec (info : Node) : Child := mkChild rootl (node_hash info) INNER.

(** The root [n] is in the database, or there is no root and no pair. *)
Definition root_stored (V : view) m (n : NodeFrm) : Prop :=
  vnode V rootl = Some (info_ n) ∧ synced V n (root_rec (info_ n)) ∨ vnode V rootl = None ∧ m = ∅.

(** Every change has been written: the database answers reads from the map. *)
Record clean t m : Prop := {
  cl_rel : trie_rel t m;
  cl_batch : batch_ (store_ t) = [];
  cl_children : children_clean (root_ t);
  cl_info : root_stored (committed_view t) m (root_ t);
  cl_leaf k : vleaf (committed_view t) (Key2Location k) = m !! k }.

Lemma load_committed t : db_ok t → ∀ l, storage_load (store_ t) l = Ok (vnode (committed_view t) l).
Proof. intros [Hr _] l. exact (load_law (TrieStorageLaws := kv_laws) (store_ t) l Hr). Qed.

Lemma fuel_enough l : wf_loc l → length (path l) < path_fuel l.
Proof.
  intros (p & r & -> & _ & Hr & ->)%wf_loc_inv. rewrite length_rpath by done.
  unfold path_fuel. simpl. destruct (bool_decide _); lia.
Qed.

Lemma root_prefix t m key : trie_rel t m → path (location_ (root_ t)) `prefix_of` path key.
Proof. intros [_ _ _ -> _ _]. apply prefix_nil. Qed.

Lemma root_fuel t m key : trie_rel t m →
  length (path (Key2Location key)) < path_fuel (Key2Location key) + length (path (location_ (root_ t))).
Proof.
  intros _. assert (wf_loc (Key2Location key)) as Hk by auto with ceg.
  pose proof (fuel_enough _ Hk). lia.
Qed.

(** A contract of [updated] at the root is an update of the map. *)
Lemma updated_rel t m r' key (Q : bytes → Prop) m' :
  trie_rel t m →
  updated (committed_view t) (Key2Location key) Q [] (root_ t) r' →
  (∀ k v, m' !! k = Some v ↔ (k = key ∧ Q v) ∨ (k ≠ key ∧ m !! k = Some v)) →
  (is_touched r' (Key2Location key) ∨ ∀ v, m !! key ≠ Some v) →
  trie_rel (mkTrie (store_ t) r' (root_hash_ t)) m'.
Proof.
  intros [Hb Hdb Hw Hr Hh Hl] [Uw Ul Uh Ut] Hm' Hk. split; cbn [store_ root_].
  - exact Hb.
  - exact Hdb.
  - exact Uw.
  - congruence.
  - intros k v. change (committed_view (mkTrie (store_ t) r' (root_hash_ t))) with (committed_view t).
    rewrite Uh, Hm', Hh. split.
    + intros [[->%Key2Location_inj ?]|[Hne ?]]; [by left|right]. split; [|done]. by intros ->.
    + intros [[-> ?]|[Hne ?]]; [by left|right]. split; [|done]. by intros ?%Key2Location_inj.
  - intros k v Hv. destruct (decide (k = key)) as [->|Hne].
    + destruct (Hl _ _ Hv) as [Hmk|?]; [|by right; apply Ut].
      destruct Hk as [?|Hk]; [by right|]. by destruct (Hk v).
    + destruct (Hl _ _ Hv) as [?|?]; [left|by right; apply Ut]. apply Hm'. by right.
Qed.

(** ** [Set] and [Delete] *)

Lemma Set_rel t m key value : trie_rel t m →
  ∃ t' b, Set_ t key value = Ok (t', b) ∧ trie_rel t' (<[key := value]> m).
Proof.
  intros Ht. destruct (SetItem_spec (store_ t) (committed_view t) (load_committed t (tr_db _ _ Ht))
    (Key2Location key) value (Key2Location_even key) (path_fuel (Key2Location key)) [] (root_ t))
    as (r' & b & Hs & Hu & _ & Htk);
    [by destruct Ht|by eapply root_prefix|by eapply root_fuel|].
  unfold Set_. rewrite Hs. cbn. eexists _, b. split; [done|].
  eapply updated_rel; [exact Ht|exact Hu| |by left].
  intros k v. rewrite lookup_insert. case_decide; subst; intuition congruence.
Qed.

Lemma Delete_rel t m key : trie_rel t m →
  ∃ t' b, Delete t key = Ok (t', b) ∧ trie_rel t' (delete key m) ∧ (is_Some (m !! key) → b = true).
Proof.
  intros Ht. destruct (DeleteItem_spec (store_ t) (committed_view t) (load_committed t (tr_db _ _ Ht))
    (Key2Location key) (Key2Location_even key) (path_fuel (Key2Location key)) [] (root_ t))
    as (r' & b & Hs & Hu & _ & Hb);
    [by destruct Ht|by eapply root_prefix|by eapply root_fuel|].
  assert (Hn : b = false → ∀ v, m !! key ≠ Some v).
  { intros -> v Hv. destruct Hb as [_ Hb]. apply (Hb v). by apply (tr_holds _ _ Ht). }
  unfold Delete. rewrite Hs. cbn. eexists _, b. split; [done|]. split.
  - eapply updated_rel; [exact Ht|exact Hu| |].
    + intros k v. rewrite lookup_delete. case_decide; subst; intuition congruence.
    + destruct b; [by left|right; auto].
  - intros [v Hv]. destruct b; [done|]. by destruct (Hn eq_refl v).
Qed.

(** ** [UpdateHash] followed by [AddToDB] *)

Definition Commit t : Trie KVStore * bool := AddToDB (UpdateHash t).

(** The storage of a trie only grows its batch while hashing. *)
Definition only_batch (kv kv' : KVStore) : Prop :=
  mdb_ kv' = mdb_ kv ∧ prefix_ kv' = prefix_ kv.

Lemma update_hash_db V p n kv : wf_node V p n → only_batch kv (update_hash kv n).1.1.
Proof.
  intros Hw. apply (update_hash_closed V only_batch) with (p := p); try done.
  intros s1 s2 s3 [E1 E2] [E3 E4]. split; congruence.
Qed.

(** The leaf records after hashing are the map. *)
Lemma hashed_leaf t m P' r' c k :
  trie_rel t m →
  hashed (committed_view t) (pview (store_ t)) P' [] (root_ t) r' c →
  vleaf P' (Key2Location k) = m !! k.
Proof.
  intros [Hb _ Hw Hr Hh Hl] [Uw Ul Um Us _ Uh Ulv _].
  destruct (m !! k) as [v|] eqn:Ek.
  - apply (rec_holds_vleaf P' c).
    rewrite <- (synced_holds P' [] r' c); [by apply Uh, Hh|exact Uw|exact Um|exact Us].
  - destruct (vleaf P' (Key2Location k)) as [v|] eqn:Ev; [exfalso|done].
    destruct (Ulv (Key2Location k)) as [H1 H2];
      [apply Key2Location_even|rewrite Hr; apply prefix_nil|].
    assert (Hnt : ¬ is_touched (root_ t) (Key2Location k)).
    { intros [x Hx]. rewrite (H1 _ Hx) in Ev. subst.
      apply (touched_holds (committed_view t)), Hh in Hx. congruence. }
    rewrite (H2 Hnt) in Ev. cbn [pview kv_laws KVTrie_laws] in Ev.
    rewrite <- (agree_leaf _ _ [] _ Hb (Key2Location_even k) (prefix_nil _)) in Ev.
    destruct (Hl _ _ Ev) as [?|?]; [congruence|done].
Qed.

Lemma Commit_clean t m : trie_rel t m → ∃ t', Commit t = (t', true) ∧ clean t' m ∧
  root_hash_ t' = node_hash (info_ (root_ t')) ∧
  vnode (committed_view t') rootl = Some (info_ (root_ t')) ∧
  synced (committed_view t') (root_ t') (root_rec (info_ (root_ t'))).
Proof.
  intros Ht. pose proof Ht as [Hb [Hre Hwo] Hw Hr Hh Hl].
  assert (agree (path (location_ (root_ t))) (committed_view t) (pview (store_ t))) as Ha.
  { eapply agree_weaken; [apply prefix_nil|exact Hb]. }
  pose proof (update_hash_spec (committed_view t) [] (root_ t) Hw (store_ t) Ha) as Hu.
  destruct (update_hash_db _ [] (root_ t) (store_ t) Hw) as [Emdb Epre].
  unfold Commit, UpdateHash, AddToDB.
  destruct (update_hash (store_ t) (root_ t)) as [[s' r'] c]. cbn [store_ root_ root_hash_ fst snd] in *.
  destruct Hu as [_ Hu]. pose proof Hu as [Uw Ul Um Us Ur Uh _ _]. destruct (Ur Hr) as [-> Un].
  rewrite Emdb, Hwo. eexists. split; [done|].
  set (t' := mkTrie _ _ _).
  assert (committed_view t' = pview s') as Hv.
  { unfold committed_view, t'. cbn. unfold kv_cview, kv_pview. cbn. by rewrite Emdb. }
  assert (Hleaf : ∀ k, vleaf (committed_view t') (Key2Location k) = m !! k).
  { intros k. rewrite Hv. by eapply hashed_leaf. }
  split; [|by rewrite Hv]. split; [|done|by eapply unmodified_clean|left; by rewrite Hv|exact Hleaf].
  split; rewrite ?Hv; cbn [root_ store_ t']; try done.
  - rewrite <- Hv. apply agree_refl.
  - congruence.
  - intros k v. rewrite <- Hh. apply Uh.
  - intros k v. rewrite <- Hv, Hleaf. by left.
Qed.

Lemma store_eta kv : batch_ kv = [] → mkKV (mdb_ kv) (prefix_ kv) [] = kv.
Proof. destruct kv. by intros [= ->]. Qed.

(** A root that stands for the same map is as clean. *)
Lemma clean_node t m n h : clean t m →
  wf_node (committed_view t) [] n → children_clean n → location_ n = rootl →
  (∀ k v, node_holds (committed_view t) n (Key2Location k) v ↔ m !! k = Some v) →
  root_stored (committed_view t) m n →
  clean (mkTrie (store_ t) n h) m.
Proof.
  intros [[Tb Td Tw Tr Th Tl] Hcb Hc _ Hl] Hw Hcn Hloc Hh Hi.
  split; [split| | | |]; cbn [root_ store_]; try done.
  intros k v Hv. left. by rewrite <- Hl.
Qed.

Lemma root_stored_same V m n n' : same_summary n n' → root_stored V m n → root_stored V m n'.
Proof.
  intros Hs [[Hn Hy]|?]; [left|by right]. pose proof Hs as (E & _). rewrite E. split; [done|].
  by eapply synced_same.
Qed.

(** ** [Get] *)

Lemma Get_clean t m key : clean t m → ∃ t', Get t key = Ok (t', m !! key) ∧ clean t' m.
Proof.
  intros Hcl. pose proof Hcl as [Ht _ Hc Hi Hl].
  destruct (Exists_spec (store_ t) (committed_view t) (load_committed t (tr_db _ _ Ht))
    (Key2Location key) (Key2Location_even key) (path_fuel (Key2Location key)) [] (root_ t))
    as (r' & b & He & [Cw Cs Cm Cc Ch Ct] & Hb);
    [by destruct Ht|exact Hc|by eapply root_prefix|by eapply root_fuel|].
  assert (Hcl' : clean (mkTrie (store_ t) r' (root_hash_ t)) m).
  { apply clean_node; [done|done|auto| | |by eapply root_stored_same].
    { destruct Cs as (_ & -> & _). apply Ht. }
    intros k v. rewrite Ch. apply Ht. }
  unfold Get. rewrite He. cbn. destruct b.
  - rewrite (getleaf_law (TrieStorageLaws := kv_laws) (store_ t)); [|exact (proj1 (tr_db _ _ Ht))]. cbn.
    eexists. split; [|exact Hcl']. by rewrite <- Hl.
  - eexists. split; [|exact Hcl']. destruct (m !! key) as [v|] eqn:Ek; [|done].
    exfalso. apply (Hb eq_refl v). by apply (tr_holds _ _ Ht).
Qed.

(** ** [FreeMemory] *)

Lemma FreeMemory_clean t m depth : clean t m → clean (FreeMemory t depth) m.
Proof.
  intros Hcl. pose proof Hcl as [[Tb Td Tw Tr Th Tl] _ Hc Hi Hl].
  destruct (Release_spec _ _ _ Tw Hc depth) as (Rw & Rs & _ & Rc & Rh).
  apply clean_node; [done|exact Rw|done| | |by eapply root_stored_same].
  { by destruct Rs as (_ & -> & _). }
  intros k v. rewrite <- Th. apply Rh.
Qed.

Lemma rootl_wf : wf_loc rootl.
Proof. apply even_wf, (Key2Location_even []). Qed.

(** ** Opening a trie on its database *)

(** The node that [Init] builds from the record of the root. *)
Definition loaded_root (info : Node) : NodeFrm := set_info info (NewNodeFrm rootl).

Lemma loaded_root_wf V info :
  wf_rec V [] (root_rec info) → vnode V rootl = Some info →
  wf_node V [] (loaded_root info) ∧ synced V (loaded_root info) (root_rec info) ∧
  ∀ k v, node_holds V (loaded_root info) k v ↔ rec_holds V (root_rec info) k v.
Proof.
  intros Hw Hn. destruct (loaded_inner V [] (root_rec info) info) as [Hwn Hs]; [done..|].
  change (set_info info (set_modified false (NewNodeFrm (sublocation (root_rec info)))))
    with (set_modified false (loaded_root info)) in Hwn, Hs.
  split_and!.
  - destruct Hwn. by constructor.
  - destruct Hs. by split.
  - intros k v. rewrite <- (synced_holds _ _ _ _ k v Hwn eq_refl Hs).
    destruct Hwn. by rewrite !node_holds_iff.
Qed.

Lemma Load_spec kv V n levels p :
  (∀ l, storage_load kv l = Ok (vnode V l)) → wf_node V p n →
  ∃ n', Load_levels SerializeAsString ParseFromString Crypto levels kv n = Ok n' ∧ cached V p n n'.
Proof.
  intros Hload. revert p n. induction levels as [|levels IH]; intros p n Hw.
  { exists n. split; [done|by apply cached_refl]. }
  apply (Load_fold_spec kv V Hload p); [intros p' c; apply IH| |exact Hw].
  intros i Hi%elem_of_seq. lia.
Qed.

Lemma clean_rec t m :
  clean t m → synced (committed_view t) (root_ t) (root_rec (info_ (root_ t))) →
  wf_rec (committed_view t) [] (root_rec (info_ (root_ t))) ∧
  ∀ k v, rec_holds (committed_view t) (root_rec (info_ (root_ t))) (Key2Location k) v ↔ m !! k = Some v.
Proof.
  intros [[Tb Td Tw Tr Th Tl] _ Hc _ Hl] Hs.
  assert (wf_node (committed_view t) [] (set_modified false (root_ t))) as Hw.
  { destruct Tw. constructor; cbn [set_modified location_ children_ info_ modified_]; try assumption.
    intros i c _. apply Hc. }
  assert (synced (committed_view t) (set_modified false (root_ t)) (root_rec (info_ (root_ t)))) as Hs'.
  { destruct Hs. by split. }
  split; [by eapply synced_wf_rec|]. intros k v. rewrite <- Th.
  rewrite <- (synced_holds _ [] (set_modified false (root_ t))) by done.
  destruct Tw. rewrite !node_holds_iff by done. done.
Qed.

(** The tree that [Init] loads does not depend on the write batch it is given. *)
Lemma Init_root t m depth b : clean t m →
  ∃ n', Init SerializeAsString ParseFromString Crypto (mdb_ (store_ t)) b (prefix_ (store_ t)) depth
      = Ok (mkTrie (mkKV (mdb_ (store_ t)) (prefix_ (store_ t)) b) n' []) ∧
    clean (mkTrie (store_ t) n' []) m.
Proof.
  intros Hc. pose proof Hc as [Ht Hcb Hcc Hi Hl]. unfold Init.
  set (kv := mkKV (mdb_ (store_ t)) (prefix_ (store_ t)) b).
  change (kv_storage_load ParseFromString) with (storage_load (S := KVStore)).
  assert (∀ l, storage_load kv l = Ok (vnode (committed_view t) l)) as Hload.
  { intros l. exact (load_committed _ (tr_db _ _ Ht) l). }
  change [EVEN_PREFIX] with rootl. rewrite Hload. cbn [mbind res_bind].
  destruct Hi as [[Hi Hy]|[Hi ->]]; rewrite Hi; cbn [mbind res_bind].
  - destruct (clean_rec _ _ Hc Hy) as [Hr Hh].
    destruct (loaded_root_wf _ _ Hr Hi) as (Hw & Hs & Hhl).
    destruct (Load_spec kv (committed_view t) (loaded_root (info_ (root_ t)))
      (Z.to_nat (depth + 1)) [] Hload Hw) as (n' & Hn & [Cw Cs Cm Cc Ch _]).
    unfold Load. change (set_info ?i (NewNodeFrm rootl)) with (loaded_root i). rewrite Hn.
    eexists. split; [done|]. apply (clean_node t); [done|done|..].
    + apply Cc. intros i c. by intros [[=] _]%lookup_replicate_None.
    + by destruct Cs as (_ & -> & _).
    + intros k v. by rewrite Ch, Hhl, Hh.
    + eapply root_stored_same; [exact Cs|]. by left.
  - eexists. split; [done|]. apply (clean_node t); [done|..].
    + apply wf_new_node; [apply rootl_wf|apply prefix_nil].
    + intros i c. by intros [[=] _]%lookup_replicate_None.
    + done.
    + intros k v. rewrite lookup_empty. split; [by intros ?%new_node_holds|done].
    + by right.
Qed.

Lemma Init_clean t m depth : clean t m →
  ∃ t', Init SerializeAsString ParseFromString Crypto (mdb_ (store_ t)) [] (prefix_ (store_ t)) depth = Ok t' ∧ clean t' m.
Proof.
  intros Hc. destruct (Init_root t m depth [] Hc) as (n' & E & Hn). rewrite E. eexists. split; [done|].
  by rewrite (store_eta _ (cl_batch _ _ Hc)).
Qed.

(** A database without the keys of the trie opens as the empty map. *)
Lemma Init_empty db prefix depth :
  (∀ k, read_error db k = false) → write_ok db = true → (∀ k, content db !! (prefix ++ k) = None) →
  ∃ t', Init SerializeAsString ParseFromString Crypto db [] prefix depth = Ok t' ∧ clean t' ∅.
Proof.
  intros Hr Hw Hn. apply (Init_clean (mkTrie (mkKV db prefix []) (NewNodeFrm rootl) []) ∅).
  assert (Hv : ∀ k, vleaf (kv_view ParseFromString prefix (content db)) k = None).
  { intros k. cbn. apply Hn. }
  split; [split|..]; cbn [store_ root_ batch_].
  - apply agree_refl.
  - split; assumption.
  - apply wf_new_node; [apply rootl_wf|apply prefix_nil].
  - reflexivity.
  - intros k v. rewrite lookup_empty. split; [by intros ?%new_node_holds|done].
  - intros k v. unfold committed_view, kv_cview. cbn [store_ prefix_ mdb_]. by rewrite Hv.
  - reflexivity.
  - intros i c. by intros [[=] _]%lookup_replicate_None.
  - right. split; [|done]. unfold committed_view, kv_cview. cbn. by rewrite Hn.
  - intros k. unfold committed_view, kv_cview. cbn [store_ prefix_ mdb_]. by rewrite Hv.
Qed.

(** ** Programs over a trie

    What a ledger does with its trie: change it, commit it ([UpdateHash] then
    [AddToDB]), read it, evict nodes, and reopen it from the database (a restart,
    or another [KVTrie] on the same prefix). *)
Inductive trie_op :=
  | OSet (key value : bytes) | ODelete (key : bytes) | OCommit
  | OGet (key : bytes) | OFree (depth : Z) | OReopen (depth : Z).

Definition trie_step t (o : trie_op) : res (Trie KVStore * list (option bytes)) :=
  match o with
  | OSet k v => '(t, _) ← Set_ t k v; mret (t, [])
  | ODelete k => '(t, _) ← Delete t k; mret (t, [])
  | OCommit => let '(t, _) := Commit t in mret (t, [])
  | OGet k => '(t, v) ← Get t k; mret (t, [v])
  | OFree d => mret (FreeMemory t d, [])
  | OReopen d =>
      t ← Init SerializeAsString ParseFromString Crypto (mdb_ (store_ t)) [] (prefix_ (store_ t)) d;
      mret (t, [])
  end.

Fixpoint trie_run t (ops : list trie_op) : res (Trie KVStore * list (option bytes)) :=
  match ops with
  | [] => mret (t, [])
  | o :: ops => '(t, out) ← trie_step t o; '(t, outs) ← trie_run t ops; mret (t, out ++ outs)
  end.

(** The specification: a finite map, and whether it has uncommitted changes.  Reads,
    eviction and reopening are specified on a committed map. *)
Definition map_step (st : gmap bytes bytes * bool) (o : trie_op)
    : option (gmap bytes bytes * bool * list (option bytes)) :=
  let '(m, dirty) := st in
  match o with
  | OSet k v => Some (<[k := v]> m, true, [])
  | ODelete k => Some (delete k m, true, [])
  | OCommit => Some (m, false, [])
  | OGet k => if dirty then None else Some (m, false, [m !! k])
  | OFree _ | OReopen _ => if dirty then None else Some (m, false, [])
  end.

Fixpoint map_run (st : gmap bytes bytes * bool) (ops : list trie_op)
    : option (gmap bytes bytes * bool * list (option bytes)) :=
  match ops with
  | [] => Some (st, [])
  | o :: ops => '(st, out) ← map_step st o; '(st, outs) ← map_run st ops; Some (st, out ++ outs)
  end.

Definition simulates t (st : gmap bytes bytes * bool) : Prop :=
  if st.2 then trie_rel t st.1 else clean t st.1.

Lemma simulates_rel t st : simulates t st → trie_rel t st.1.
Proof. unfold simulates. destruct st as [m []]; [done|by intros []]. Qed.

Lemma step_simulates t st o st' out :
  simulates t st → map_step st o = Some (st', out) →
  ∃ t', trie_step t o = Ok (t', out) ∧ simulates t' st'.
Proof.
  intros Hs Hm. pose proof (simulates_rel _ _ Hs) as Hr. destruct st as [m d], o; cbn [trie_step map_step fst] in *.
  - destruct (Set_rel t m key value Hr) as (t' & b & -> & ?). simplify_eq. by exists t'.
  - destruct (Delete_rel t m key Hr) as (t' & b & -> & ? & _). simplify_eq. by exists t'.
  - destruct (Commit_clean t m Hr) as (t' & -> & Hc & _). simplify_eq. exists t'. split; [done|exact Hc].
  - destruct d; [done|]. destruct (Get_clean t m key Hs) as (t' & -> & ?). simplify_eq. by exists t'.
  - destruct d; [done|]. simplify_eq. eexists. split; [done|]. by apply FreeMemory_clean.
  - destruct d; [done|]. destruct (Init_clean t m depth Hs) as (t' & -> & ?). simplify_eq. by exists t'.
Qed.

Lemma run_simulates ops : ∀ t st st' outs,
  simulates t st → map_run st ops = Some (st', outs) →
  ∃ t', trie_run t ops = Ok (t', outs) ∧ simulates t' st'.
Proof.
  induction ops as [|o ops IH]; intros t st st' outs Hs Hm; simpl in *.
  { simplify_eq. by exists t. }
  destruct (map_step st o) as [[st1 out]|] eqn:Es; [|done]. simpl in Hm.
  destruct (map_run st1 ops) as [[st2 outs']|] eqn:Er; [|done]. simplify_eq/=.
  destruct (step_simulates _ _ _ _ _ Hs Es) as (t1 & -> & Hs1). cbn.
  destruct (IH _ _ _ _ Hs1 Er) as (t2 & -> & Hs2). exists t2. split; [done|exact Hs2].
Qed.
End refinement.

(** C1: a [KVTrie] opened on a database without keys of its prefix, which reads and writes
    without errors, behaves as a finite map for every sequence of sets, deletes, commits
    ([UpdateHash], [AddToDB]), gets, evictions ([FreeMemory]) and restarts ([Init]) in which
    gets, evictions and restarts happen only when every set and delete before them is
    committed ([map_run] refuses the other sequences; between commits there are only sets and
    deletes): no call faults, and every [Get] returns the value of the map. *)
Theorem trie_refines_map SerializeAsString ParseFromString Crypto db prefix depth ops outs
    (Hparse : ∀ n, ParseFromString (SerializeAsString n) = n)
    (Hread : ∀ k, read_error db k = false) (Hwrite : write_ok db = true)
    (Hfresh : ∀ k, content db !! (prefix ++ k) = None)
    (Hspec : snd <$> map_run (∅, false) ops = Some outs) :
  ∃ t0 t, Init SerializeAsString ParseFromString Crypto db [] prefix depth = Ok t0 ∧
    trie_run SerializeAsString ParseFromString Crypto t0 ops = Ok (t, outs).
Proof.
  apply fmap_Some in Hspec as ([st l] & Hspec & ->).
  destruct (Init_empty SerializeAsString ParseFromString Crypto Hparse db prefix depth)
    as (t0 & Ht0 & Hc); [done..|].
  destruct (run_simulates SerializeAsString ParseFromString Crypto Hparse ops t0 (∅, false) st l)
    as (t & Ht & _); [exact Hc|done|]. by exists t0, t.
Qed.

(** ** A concrete instance for the witnesses *)

#[global] Instance CHILDTYPE_countable : Countable CHILDTYPE.
Proof.
  refine (inj_countable' (λ c, match c with NONE => 0 | INNER => 1 | LEAF => 2 end)
    (λ n, match n with 0 => NONE | 1 => INNER | _ => LEAF end) _). by intros [].
Defined.

#[global] Instance Child_countable : Countable Child.
Proof.
  refine (inj_countable' (λ c, (sublocation c, hash c, childtype c))
    (λ '(l, h, t), mkChild l h t) _). by intros [].
Defined.

Fixpoint bits (p : positive) : bytes :=
  match p with
  | xH => []
  | xO p => Init.Byte.x00 :: bits p
  | xI p => Init.Byte.x01 :: bits p
  end.

Fixpoint unbits (l : bytes) : positive :=
  match l with
  | [] => xH
  | b :: l => if decide (b = Init.Byte.x00) then xO (unbits l) else xI (unbits l)
  end.

Lemma unbits_bits p : unbits (bits p) = p.
Proof. by induction p; simpl; f_equal. Qed.

(** An injective encoding of [protocol::Node], decoded by [toy_parse]. *)
Definition toy_serialize (n : Node) : bytes := bits (encode n).
Definition toy_parse (b : bytes) : Node := default [] (decode (unbits b)).

Lemma toy_parse_serialize n : toy_parse (toy_serialize n) = n.
Proof. unfold toy_parse, toy_serialize. by rewrite unbits_bits, decode_encode. Qed.

Definition toy_db : KeyValueDb := mkDb ∅ (λ _, false) true.

Definition demo_ops : list trie_op :=
  [OSet (str "alice") (str "10"); OSet (str "al") (str "7"); OSet (str "bob") (str "3"); OCommit;
   OGet (str "al"); OFree 1; ODelete (str "al"); OCommit; OReopen 2; OGet (str "alice"); OGet (str "al")].

Lemma trie_refines_map_witness :
  ∃ t0 t, Init toy_serialize toy_parse (λ x, x) toy_db [] (str "acc") 1 = Ok t0 ∧
    trie_run toy_serialize toy_parse (λ x, x) t0 demo_ops
      = Ok (t, [Some (str "7"); Some (str "10"); None]).
Proof.
  apply (trie_refines_map toy_serialize toy_parse (λ x, x) toy_db (str "acc") 1 demo_ops).
  - exact toy_parse_serialize.
  - reflexivity.
  - reflexivity.
  - reflexivity.
  - vm_compute. reflexivity.
Defined.
