(* ===== verification/TrieCanon.v ===== *)
(** * The root hash identifies the map

    A well-formed record is determined by the pairs below it ([canon_unique]), so two
    committed tries with the same map have the same root hash, whatever operations built
    them; and two committed tries with the same root hash have the same map, or the hash
    function has a collision. *)
From stdpp Require Import base gmap list strings.
From Stdlib Require Import ZArith Lia.
From S2P Require Import Prelude Location Trie TrieSpec TrieOps TrieHash KVTrie TrieMap TrieRefinement.

Section canon.
Context `{NH : NodeHash}.

(** The entries of a well-formed node at [loc]. *)
Record wf_info (V : view) (loc : bytes) (info : Node) : Prop := {
  wi_len : length info = 17;
  wi_rec i c : i < 16 → info !! i = Some c → wf_rec V (path loc ++ [i]) c;
  wi_leaf c : info !! 16 = Some c → wf_leafrec V loc c }.

Definition info_holds (V : view) (info : Node) (k v : bytes) : Prop :=
  ∃ i c, info !! i = Some c ∧ rec_holds V c k v.

(** The keys of entry [i] of the node at [loc]. *)
Definition in_entry (loc : bytes) (i : nat) (k : bytes) : Prop :=
  if decide (i = 16) then k = loc else path loc ++ [i] `prefix_of` path k.

Lemma entry_keys V loc info i c k v :
  wf_info V loc info → info !! i = Some c → rec_holds V c k v → in_entry loc i k.
Proof.
  intros [Hlen Hr Hl] Hi Hh. unfold in_entry. destruct (lookup17 _ _ _ Hlen Hi) as [Hlt | ->].
  - rewrite decide_False by lia. by eapply rec_holds_below; [apply Hr|].
  - rewrite decide_True by done. by eapply leafrec_holds; [apply Hl|].
Qed.

Lemma in_entry_inj loc i j k : in_entry loc i k → in_entry loc j k → i = j.
Proof.
  unfold in_entry. do 2 case_decide; subst; try done.
  - by intros -> ?%snoc_not_prefix.
  - intros Hp ->. by apply snoc_not_prefix in Hp.
  - apply prefix_snoc_inv.
Qed.

(** The pairs of an entry are those of the node at its keys. *)
Lemma entry_holds V loc info i c k v :
  wf_info V loc info → info !! i = Some c →
  rec_holds V c k v ↔ info_holds V info k v ∧ in_entry loc i k.
Proof.
  intros Hw Hi. split.
  - intros Hh. split; [by exists i, c|]. by eapply entry_keys.
  - intros [(j & c' & Hj & Hh) Hk]. pose proof (entry_keys _ _ _ _ _ _ _ Hw Hj Hh) as Hk'.
    pose proof (in_entry_inj _ _ _ _ Hk Hk') as ->. by simplify_eq.
Qed.

Lemma leaf_of_holds V c : leaf_of V c → ∃ v, rec_holds V c (sublocation c) v ∧ hash c = leaf_hash v.
Proof. intros [Ht (v & Hv & Hh)]. exists v. split; [by apply rec_leaf|done]. Qed.

Lemma inner_info V p c info :
  wf_rec V p c → childtype c = INNER → vnode V (sublocation c) = Some info →
  wf_info V (sublocation c) info ∧ hash c = node_hash info ∧ wf_loc (sublocation c) ∧
  (p ≠ [] → two_entries info) ∧ ∀ k v, rec_holds V c k v ↔ info_holds V info k v.
Proof.
  intros [->|[? _]|info' Ht Hl Hp Hn Hlen Hh Htwo Hr H16] Hc Hi; [done|congruence|].
  rewrite Hn in Hi. simplify_eq. split_and!; [by split|done|done| |].
  - intros Hne. destruct Htwo as [E|?]; [|done]. rewrite E in Hp. destruct Hp as [q Hq].
    by destruct p.
  - intros k v. split.
    + intros Hh'. inversion Hh' as [|? info2 i ci ? ? ? Hn2 Hi Hr']; subst; [congruence|].
      rewrite Hn in Hn2. simplify_eq. by exists i, ci.
    + intros (i & ci & Hi & Hr'). by eapply rec_inner.
Qed.

(** Every record that is not empty holds a pair. *)
Lemma wf_rec_inhabited V p c :
  wf_rec V p c → p ≠ [] → childtype c ≠ NONE → ∃ k v, rec_holds V c k v.
Proof.
  induction 1 as [p c ->|p c Hl Hev Hp|p c info Ht Hl Hp Hn Hlen Hh Htwo Hr IH H16]; intros Hne Hc.
  - done.
  - apply leaf_of_holds in Hl as (v & ? & _). eauto.
  - destruct Htwo as [E|Htwo]; [rewrite E in Hp; destruct Hp as [q Hq]; by destruct p|].
    destruct (Htwo 17) as (j & cj & _ & Hj & Htj).
    assert (∃ k v, rec_holds V cj k v) as (k & v & Hh').
    { destruct (lookup17 _ _ _ Hlen Hj) as [Hlt | ->].
      - eapply IH; [done..| |done]. by destruct (path _).
      - destruct (H16 _ Hj) as [->|(Hlo & _)]; [done|]. apply leaf_of_holds in Hlo as (v & ? & _). eauto. }
    exists k, v. by eapply rec_inner.
Qed.

Lemma wf_info_inhabited V loc info j c :
  wf_info V loc info → info !! j = Some c → childtype c ≠ NONE → ∃ k v, rec_holds V c k v.
Proof.
  intros [Hlen Hr H16] Hj Ht. destruct (lookup17 _ _ _ Hlen Hj) as [Hlt | ->].
  - eapply wf_rec_inhabited; [by apply Hr|by destruct (path loc)|done].
  - destruct (H16 _ Hj) as [->|(Hlo & _)]; [done|]. apply leaf_of_holds in Hlo as (v & ? & _). eauto.
Qed.

(** Outside any given entry there is another pair. *)
Lemma two_entries_holds V loc info o :
  wf_info V loc info → two_entries info → ∃ j k v, j ≠ o ∧ in_entry loc j k ∧ info_holds V info k v.
Proof.
  intros Hw Htwo. destruct (Htwo o) as (j & c & Hne & Hj & Ht).
  destruct (wf_info_inhabited _ _ _ _ _ Hw Hj Ht) as (k & v & Hh).
  exists j, k, v. split_and!; [done|by eapply entry_keys|by exists j, c].
Qed.

(** The path of a node with two entries is the longest common prefix of its keys. *)
Lemma info_greatest V loc info q :
  wf_info V loc info → two_entries info → (∀ k v, info_holds V info k v → q `prefix_of` path k) →
  q `prefix_of` path loc.
Proof.
  intros Hw Htwo Hq.
  destruct (two_entries_holds V loc info 17 Hw Htwo) as (j1 & k1 & v1 & _ & Hk1 & Hh1).
  destruct (two_entries_holds V loc info j1 Hw Htwo) as (j2 & k2 & v2 & Hne & Hk2 & Hh2).
  apply Hq in Hh1, Hh2.
  assert (Hin : ∀ j k, in_entry loc j k → q `prefix_of` path k →
    q `prefix_of` path loc ∨ path loc ++ [j] `prefix_of` q).
  { intros j k. unfold in_entry. case_decide; [intros ->; by left|]. intros Hp Hqk.
    destruct (prefix_weak_total q (path loc ++ [j]) (path k)) as [H1|H1]; [done..| |by right].
    destruct (decide (q = path loc ++ [j])) as [->|Hq1]; [by right|left].
    destruct H1 as [r Hr]. destruct r as [|x r _] using rev_ind; [by rewrite app_nil_r in Hr|].
    rewrite app_assoc in Hr. apply app_inj_tail in Hr as [Hr _]. by exists r. }
  destruct (Hin _ _ Hk1 Hh1) as [?|H1]; [done|]. destruct (Hin _ _ Hk2 Hh2) as [?|H2]; [done|].
  destruct Hne. by eapply prefix_snoc_inv.
Qed.

Lemma info_prefix V loc info k v :
  wf_info V loc info → info_holds V info k v → path loc `prefix_of` path k.
Proof.
  intros Hw (i & c & Hi & Hh). pose proof (entry_keys _ _ _ _ _ _ _ Hw Hi Hh) as Hk.
  revert Hk. unfold in_entry. case_decide; [by intros ->|]. intros Hk. etrans; [|exact Hk].
  by apply prefix_app_r.
Qed.

(** Entries with the same pairs are equal if their records are. *)
Lemma infos_eq V1 V2 loc info1 info2 :
  wf_info V1 loc info1 → wf_info V2 loc info2 →
  (∀ i c1 c2, i < 16 → info1 !! i = Some c1 → wf_rec V2 (path loc ++ [i]) c2 →
     (∀ k v, rec_holds V1 c1 k v ↔ rec_holds V2 c2 k v) → c1 = c2) →
  (∀ k v, info_holds V1 info1 k v ↔ info_holds V2 info2 k v) →
  info1 = info2.
Proof.
  intros Hw1 Hw2 Hrec Hsame. pose proof Hw1 as [Hl1 _ H16]. pose proof Hw2 as [Hl2 Hr2 H16'].
  apply list_eq_same_length with 17; [done..|]. intros i c1 c2 Hi Hc1 Hc2.
  assert (Hh : ∀ k v, rec_holds V1 c1 k v ↔ rec_holds V2 c2 k v).
  { intros k v. rewrite (entry_holds V1 loc info1 i), (entry_holds V2 loc info2 i) by done.
    by rewrite Hsame. }
  destruct (decide (i = 16)) as [->|Hne]; [|eapply Hrec; [|done| |done]; [lia|apply Hr2; [lia|done]]].
  destruct (H16 _ Hc1) as [->|(Lo1 & Es1 & _)], (H16' _ Hc2) as [->|(Lo2 & Es2 & _)].
  - done.
  - apply leaf_of_holds in Lo2 as (v & Hv & _). apply Hh in Hv. by apply rec_holds_none in Hv.
  - apply leaf_of_holds in Lo1 as (v & Hv & _). apply Hh in Hv. by apply rec_holds_none in Hv.
  - destruct Lo1 as [T1 (v1 & E1 & Eh1)], Lo2 as [T2 (v2 & E2 & Eh2)].
    pose proof (rec_leaf V1 c1 v1 T1 E1) as Hv. apply Hh in Hv.
    apply rec_holds_leaf_inv in Hv as [_ Hv]; [|done].
    destruct c1, c2. cbn in *. congruence.
Qed.

Lemma leaf_rec_eq V1 V2 c1 c2 :
  leaf_of V1 c1 → leaf_of V2 c2 → (∀ k v, rec_holds V1 c1 k v ↔ rec_holds V2 c2 k v) → c1 = c2.
Proof.
  intros [T1 (v1 & E1 & Eh1)] [T2 (v2 & E2 & Eh2)] Hh.
  pose proof (rec_leaf V1 c1 v1 T1 E1) as Hv. apply Hh in Hv.
  apply rec_holds_leaf_inv in Hv as [Hs Hv]; [|done].
  destruct c1, c2. cbn in *. congruence.
Qed.

(** A leaf and an inner record differ in their keys. *)
Lemma leaf_inner_differ V1 V2 p c1 c2 info :
  p ≠ [] → childtype c1 = LEAF → wf_rec V2 p c2 → childtype c2 = INNER →
  vnode V2 (sublocation c2) = Some info →
  ¬ (∀ k v, rec_holds V1 c1 k v ↔ rec_holds V2 c2 k v).
Proof.
  intros Hne Ht1 Hw2 Ht2 Hn Hh.
  destruct (inner_info _ _ _ _ Hw2 Ht2 Hn) as (Hwi & _ & _ & Htwo & Hih). specialize (Htwo Hne).
  destruct (two_entries_holds _ _ _ 17 Hwi Htwo) as (j1 & k1 & v1 & _ & Hk1 & Hh1).
  destruct (two_entries_holds _ _ _ j1 Hwi Htwo) as (j2 & k2 & v2 & Hj & Hk2 & Hh2).
  apply Hih, Hh, rec_holds_leaf_inv in Hh1 as [-> _], Hh2 as [-> _]; [|done..].
  destruct Hj. by eapply in_entry_inj.
Qed.

(** A record is determined by its pairs. *)
Lemma canon_unique V1 V2 p c1 c2 :
  wf_rec V1 p c1 → wf_rec V2 p c2 → p ≠ [] →
  (∀ k v, rec_holds V1 c1 k v ↔ rec_holds V2 c2 k v) → c1 = c2.
Proof.
  intros Hw1. revert c2.
  induction Hw1 as [p c1 ->|p c1 Hl Hev Hp|p c1 info1 Ht Hl Hp Hn Hlen Hhash Htwo Hr IH H16];
    intros c2 Hw2 Hne Hh.
  - destruct (decide (childtype c2 = NONE)) as [E|E].
    + destruct Hw2 as [->|[? _]|]; congruence.
    + destruct (wf_rec_inhabited _ _ _ Hw2 Hne E) as (k & v & Hkv). apply Hh in Hkv.
      by apply rec_holds_none in Hkv.
  - pose proof Hw2 as [->|Hl2 _ _|info2 Ht2 _ _ Hn2 _ _ _ _ _].
    + apply leaf_of_holds in Hl as (v & Hv & _). apply Hh in Hv. by apply rec_holds_none in Hv.
    + by eapply leaf_rec_eq.
    + destruct Hl as [Ht _]. by destruct (leaf_inner_differ V1 V2 p c1 c2 info2).
  - assert (wf_rec V1 p c1) as Hw1 by (by eapply wf_rec_inner).
    destruct (inner_info _ _ _ _ Hw1 Ht Hn) as (Hwi1 & _ & _ & Htwo1 & Hi1). specialize (Htwo1 Hne).
    pose proof Hw2 as [->|[Ht2 _] _ _|info2 Ht2 Hl2 _ Hn2 _ Hhash2 _ _ _].
    + destruct (wf_rec_inhabited _ _ _ Hw1 Hne) as (k & v & Hkv); [congruence|]. apply Hh in Hkv.
      by apply rec_holds_none in Hkv.
    + by destruct (leaf_inner_differ V2 V1 p c2 c1 info1).
    + destruct (inner_info _ _ _ _ Hw2 Ht2 Hn2) as (Hwi2 & _ & _ & Htwo2 & Hi2). specialize (Htwo2 Hne).
      assert (Hsame : ∀ k v, info_holds V1 info1 k v ↔ info_holds V2 info2 k v).
      { intros k v. by rewrite <- Hi1, <- Hi2. }
      assert (sublocation c1 = sublocation c2) as Es.
      { apply path_inj; [done..|]. apply (anti_symm prefix).
        - apply (info_greatest V2 _ info2); [done..|]. intros k v Hkv. apply Hsame in Hkv.
          by eapply info_prefix.
        - apply (info_greatest V1 _ info1); [done..|]. intros k v Hkv. apply Hsame in Hkv.
          by eapply info_prefix. }
      assert (info1 = info2) as ->.
      { apply (infos_eq V1 V2 (sublocation c1)); [done|by rewrite Es| |done].
        intros i ci ci' Hlt Hi Hw' Hh'. eapply IH; [done..|by destruct (path _)|done]. }
      destruct c1, c2. cbn in *. congruence.
Qed.

(** ** Equal records with different pairs give a collision *)

Definition hash_collision : Prop :=
  (∃ v v', v ≠ v' ∧ leaf_hash v = leaf_hash v') ∨ (∃ n n', n ≠ n' ∧ node_hash n = node_hash n').

Lemma node_hash_eq n n' : node_hash n = node_hash n' → n = n' ∨ hash_collision.
Proof. intros E. destruct (decide (n = n')); [by left|]. right. right. eauto. Qed.

Lemma rec_holds_binding V1 V2 c k v :
  rec_holds V1 c k v → ∀ p1 p2, wf_rec V1 p1 c → wf_rec V2 p2 c →
  rec_holds V2 c k v ∨ hash_collision.
Proof.
  induction 1 as [c v Ht Hv|c info i ci k v Ht Hn Hi Hh IH]; intros p1 p2 Hw1 Hw2.
  - destruct Hw1 as [->|[_ (v1 & E1 & H1)] _ _|]; [done| |congruence].
    destruct Hw2 as [->|[_ (v2 & E2 & H2)] _ _|]; [done| |congruence].
    destruct (decide (v1 = v2)) as [->|Hne].
    + left. apply rec_leaf; congruence.
    + right. left. exists v1, v2. split; congruence.
  - destruct (inner_info _ _ _ _ Hw1 Ht Hn) as (Hwi1 & E1 & _ & _ & _).
    assert (∃ info2, vnode V2 (sublocation c) = Some info2) as [info2 Hn2]
      by (destruct Hw2 as [->|[? _]|info2]; [done|congruence|by exists info2]).
    destruct (inner_info _ _ _ _ Hw2 Ht Hn2) as (Hwi2 & E2 & _ & _ & Hih).
    destruct (node_hash_eq info info2) as [->|?]; [congruence| |by right].
    destruct Hwi1 as [Hlen Hr1 H1], Hwi2 as [_ Hr2 H2].
    destruct (lookup17 _ _ _ Hlen Hi) as [Hlt | ->].
    + destruct (IH _ _ (Hr1 _ _ Hlt Hi) (Hr2 _ _ Hlt Hi)) as [?|?]; [left|by right].
      by eapply rec_inner.
    + assert (Hleaf : ∀ V, wf_leafrec V (sublocation c) ci → wf_rec V (path (sublocation c)) ci).
      { intros V [->|(Hl & Es & Hev)]; [by apply wf_rec_none|]. rewrite <- Es in *. by apply wf_rec_leaf. }
      destruct (IH _ _ (Hleaf _ (H1 _ Hi)) (Hleaf _ (H2 _ Hi))) as [?|?]; [left|by right].
      by eapply rec_inner.
Qed.
End canon.

(** ** The root of a committed trie *)

Section root.
Context (SerializeAsString : Node → bytes) (ParseFromString : bytes → Node).
Context (Crypto : bytes → bytes).
Context (Hparse : ∀ n, ParseFromString (SerializeAsString n) = n).

#[local] Instance kv_store : TrieStorage KVStore := KVTrie SerializeAsString ParseFromString Crypto.

(** The committed root [info] of a trie stands for the map [m]. *)
Record root_of (V : view) (info : Node) (m : gmap bytes bytes) : Prop := {
  ro_wf : wf_rec V [] (mkChild rootl (node_hash info) INNER);
  ro_node : vnode V rootl = Some info;
  ro_holds k v : rec_holds V (mkChild rootl (node_hash info) INNER) (Key2Location k) v ↔ m !! k = Some v }.

Lemma Commit_root t m : trie_rel SerializeAsString ParseFromString Crypto t m →
  ∃ t' V info, Commit SerializeAsString ParseFromString Crypto t = (t', true) ∧
    root_of V info m ∧ root_hash_ t' = node_hash info.
Proof.
  intros Ht. destruct (Commit_clean SerializeAsString ParseFromString Crypto Hparse t m Ht)
    as (t' & Hc & Hcl & Hh & Hn & Hs).
  destruct (clean_rec SerializeAsString ParseFromString Crypto t' m Hcl Hs) as [Hw Hr].
  exists t', (committed_view ParseFromString t'), (info_ (root_ t')). split_and!; [done| |done].
  by split.
Qed.

Lemma root_holds V info m k v : root_of V info m →
  rec_holds V (mkChild rootl (node_hash info) INNER) k v ↔ ∃ r, k = Key2Location r ∧ m !! r = Some v.
Proof.
  intros [Hw _ Hh]. split.
  - intros Hk. destruct (rec_holds_below _ _ _ _ _ Hw Hk) as [[r ->] _]. exists r. split; [done|].
    by apply Hh.
  - intros (r & -> & Hr). by apply Hh.
Qed.

Lemma root_of_fun V1 V2 info1 info2 m : root_of V1 info1 m → root_of V2 info2 m → info1 = info2.
Proof.
  intros H1 H2. pose proof H1 as [Hw1 Hn1 _]. pose proof H2 as [Hw2 Hn2 _].
  destruct (inner_info _ _ _ _ Hw1 eq_refl Hn1) as (Hwi1 & _ & _ & _ & Hi1).
  destruct (inner_info _ _ _ _ Hw2 eq_refl Hn2) as (Hwi2 & _ & _ & _ & Hi2).
  apply (infos_eq V1 V2 rootl); [exact Hwi1|exact Hwi2| |].
  - intros i c1 c2 Hlt Hc1 Hw Hh. destruct Hwi1 as [_ Hr _].
    eapply canon_unique; [by apply Hr|exact Hw|by destruct (path _)|exact Hh].
  - intros k v. rewrite <- Hi1, <- Hi2. rewrite (root_holds V1 info1 m), (root_holds V2 info2 m) by done. done.
Qed.

Lemma root_of_binding V1 V2 info m1 m2 k v :
  root_of V1 info m1 → root_of V2 info m2 → m1 !! k = Some v → m2 !! k = Some v ∨ hash_collision.
Proof.
  intros [Hw1 _ Hh1] [Hw2 _ Hh2] Hk. apply Hh1 in Hk.
  destruct (rec_holds_binding _ _ _ _ _ Hk _ _ Hw1 Hw2) as [?|?]; [left|by right]. by apply Hh2.
Qed.

Lemma collision_bytes : hash_collision → ∃ x y, x ≠ y ∧ Crypto x = Crypto y.
Proof.
  intros [(v & v' & ? & ?)|(n & n' & Hne & E)]; [by exists v, v'|].
  exists (SerializeAsString n), (SerializeAsString n'). split; [|exact E].
  intros Es. apply Hne. by rewrite <- (Hparse n), <- (Hparse n'), Es.
Qed.
End root.

(** ** Programs over a trie, and the root hash they end with *)

(** The database works and has no key of the prefix. *)
Record fresh_db (db : KeyValueDb) (prefix : bytes) : Prop := {
  fd_read k : read_error db k = false;
  fd_write : write_ok db = true;
  fd_none k : content db !! (prefix ++ k) = None }.

(** Run [ops] on a new trie, commit, and read [GetRootHash]. *)
Definition root_hash_after SerializeAsString ParseFromString Crypto (db : KeyValueDb) (prefix : bytes)
    (depth : Z) (ops : list trie_op) : res bytes :=
  t ← Init SerializeAsString ParseFromString Crypto db [] prefix depth;
  '(t, _) ← trie_run SerializeAsString ParseFromString Crypto t ops;
  mret (root_hash_ (Commit SerializeAsString ParseFromString Crypto t).1).

(** The map that [ops] build, if they respect the specification. *)
Definition map_after (ops : list trie_op) : option (gmap bytes bytes) :=
  (λ r, r.1.1) <$> map_run (∅, false) ops.

Lemma map_neq_lookup (m1 m2 : gmap bytes bytes) : m1 ≠ m2 → ∃ k, m1 !! k ≠ m2 !! k.
Proof.
  intros Hne. destruct (decide (set_Forall (λ k, m1 !! k = m2 !! k) (dom m1 ∪ dom m2))) as [Hall|He].
  - destruct Hne. apply map_eq. intros k. destruct (decide (k ∈ dom m1 ∪ dom m2)) as [Hk|Hk]; [by apply Hall|].
    apply not_elem_of_union in Hk as [?%not_elem_of_dom ?%not_elem_of_dom]. congruence.
  - apply (not_set_Forall_Exists _) in He as (k & _ & Hk). by exists k.
Qed.

Lemma root_hash_after_root SerializeAsString ParseFromString Crypto db prefix depth ops m :
  (∀ n, ParseFromString (SerializeAsString n) = n) → fresh_db db prefix → map_after ops = Some m →
  ∃ V info, root_hash_after SerializeAsString ParseFromString Crypto db prefix depth ops
      = Ok (Crypto (SerializeAsString info)) ∧
    root_of SerializeAsString ParseFromString Crypto V info m.
Proof.
  intros Hparse [Hr Hw Hn] Hm. apply fmap_Some in Hm as ([[m' d] outs] & Hm & ->). cbn [fst].
  destruct (Init_empty SerializeAsString ParseFromString Crypto Hparse db prefix depth)
    as (t0 & Ht0 & Hc); [done..|].
  destruct (run_simulates SerializeAsString ParseFromString Crypto Hparse ops t0 (∅, false) (m', d) outs)
    as (t & Ht & Hs); [exact Hc|exact Hm|]. apply simulates_rel in Hs.
  destruct (Commit_root SerializeAsString ParseFromString Crypto Hparse t m' Hs)
    as (t' & V & info & Hcm & Hro & Hh).
  exists V, info. split; [|exact Hro]. unfold root_hash_after. rewrite Ht0. cbn [mbind res_bind].
  rewrite Ht. cbn [mbind res_bind]. rewrite Hcm. cbn [fst]. by rewrite Hh.
Qed.


(** C30: the root hash commits to the map.  If two committed tries have the same root hash,
    their maps are equal, or two different byte strings have the same hash. *)
Theorem root_hash_binding SerializeAsString ParseFromString Crypto
    db1 prefix1 depth1 ops1 m1 db2 prefix2 depth2 ops2 m2 h
    (Hparse : ∀ n, ParseFromString (SerializeAsString n) = n)
    (Hdb1 : fresh_db db1 prefix1) (Hdb2 : fresh_db db2 prefix2)
    (Hm1 : map_after ops1 = Some m1) (Hm2 : map_after ops2 = Some m2)
    (Hh1 : root_hash_after SerializeAsString ParseFromString Crypto db1 prefix1 depth1 ops1 = Ok h)
    (Hh2 : root_hash_after SerializeAsString ParseFromString Crypto db2 prefix2 depth2 ops2 = Ok h) :
  m1 = m2 ∨ ∃ x y, x ≠ y ∧ Crypto x = Crypto y.
Proof.
  destruct (root_hash_after_root SerializeAsString ParseFromString Crypto db1 prefix1 depth1 ops1 m1)
    as (V1 & i1 & E1 & H1); [done..|].
  destruct (root_hash_after_root SerializeAsString ParseFromString Crypto db2 prefix2 depth2 ops2 m2)
    as (V2 & i2 & E2 & H2); [done..|].
  assert (Crypto (SerializeAsString i1) = Crypto (SerializeAsString i2)) as Eh by congruence.
  destruct (decide (m1 = m2)) as [?|Hne]; [by left|right].
  apply (collision_bytes SerializeAsString ParseFromString Crypto Hparse).
  destruct (node_hash_eq (NH := @storage_hash _ (KVTrie SerializeAsString ParseFromString Crypto)) i1 i2 Eh)
    as [<-|?]; [|done].
  apply map_neq_lookup in Hne as [k Hk].
  destruct (m1 !! k) as [v|] eqn:Ek.
  - destruct (root_of_binding _ _ _ _ _ _ _ _ _ _ H1 H2 Ek); [congruence|done].
  - destruct (m2 !! k) as [v|] eqn:Ek2; [|done].
    destruct (root_of_binding _ _ _ _ _ _ _ _ _ _ H2 H1 Ek2); [congruence|done].
Qed.

(** ** Witnesses *)

Lemma toy_db_fresh prefix : fresh_db toy_db prefix.
Proof. split; reflexivity. Qed.

(** The same map, built in two ways. *)
Definition build1 : list trie_op :=
  [OSet (str "alice") (str "10"); OSet (str "al") (str "7"); OCommit; OGet (str "al")].
Definition build2 : list trie_op :=
  [OSet (str "al") (str "1"); OSet (str "bob") (str "3"); OCommit; OFree 0; ODelete (str "bob");
   OSet (str "alice") (str "10"); OCommit; OReopen 1; OSet (str "al") (str "7")].


Definition short1 : list trie_op := [OSet (str "a") (str "1")].
Definition short2 : list trie_op := [OSet (str "a") (str "2"); OCommit; OSet (str "a") (str "1")].
Definition short_hash : bytes :=
  match root_hash_after toy_serialize toy_parse (λ x, x) toy_db (str "a") 1 short1 with
  | Ok h => h | Err _ => [] end.

Lemma root_hash_binding_witness :
  default ∅ (map_after short1) = default ∅ (map_after short2)
  ∨ ∃ x y : bytes, x ≠ y ∧ (λ x, x) x = (λ x, x) y.
Proof.
  apply (root_hash_binding toy_serialize toy_parse (λ x, x) toy_db (str "a") 1 short1 _
    toy_db (str "b") 0 short2 _ short_hash).
  - exact toy_parse_serialize.
  - apply toy_db_fresh.
  - apply toy_db_fresh.
  - apply (bool_decide_unpack _). vm_compute. exact I.
  - apply (bool_decide_unpack _). vm_compute. exact I.
  - vm_compute. reflexivity.
  - vm_compute. reflexivity.
Defined.
