(* ===== verification/TrieShared.v ===== *)
(** * Tries that share a database and a write batch

    The ledger keeps one trie of accounts and two small tries per account, assets and
    metadata, in one database, each under a prefix of its own, and collects the writes of
    all of them in one batch.  [tree_at C p m]: the content [C] holds the map [m] under the
    prefix [p].  Writes under one prefix do not disturb a trie under another one. *)
From stdpp Require Import base gmap list.
From Stdlib Require Import ZArith Lia.
From S2P Require Import Prelude Location Trie TrieSpec TrieOps TrieHash KVTrie TrieMap TrieRefinement TrieCanon.

Definition op_key (o : batch_op) : bytes := match o with BPut k _ => k | BDelete k => k end.

(** All keys of the batch are under the prefix; no key is. *)
Definition on (p : bytes) (b : list batch_op) : Prop := Forall (λ o, p `prefix_of` op_key o) b.
Definition off (p : bytes) (b : list batch_op) : Prop := Forall (λ o, ¬ p `prefix_of` op_key o) b.

(** Two prefixes with no key in common. *)
Definition apart (p q : bytes) : Prop := ∀ k, p `prefix_of` k → ¬ q `prefix_of` k.

Lemma on_off p q b : apart p q → on p b → off q b.
Proof. intros Ha Hb. eapply list.Forall_impl; [exact Hb|]. intros o. apply Ha. Qed.

Lemma apart_sym p q : apart p q → apart q p.
Proof. intros H k Hq Hp. exact (H k Hp Hq). Qed.

(** Prefixes that differ at some place have no key in common. *)
Lemma apart_app (p : bytes) x y a b : x ≠ y → apart (p ++ x :: a) (p ++ y :: b).
Proof.
  intros Hne k [u ->] [v E]. rewrite <- !app_assoc in E. apply app_inv_head in E. simpl in E. congruence.
Qed.

(** Suffixes of the same length. *)
Lemma apart_length p (a b : bytes) : length a = length b → a ≠ b → apart (p ++ a) (p ++ b).
Proof.
  intros Hl Hne k [u ->] [v E]. rewrite <- !app_assoc in E. apply app_inv_head in E.
  apply app_inj_1 in E as [-> _]; done.
Qed.

Definition same_under (p : bytes) (C C' : gmap bytes bytes) : Prop := ∀ k, C !! (p ++ k) = C' !! (p ++ k).

Lemma apply_batch_app b b' C : apply_batch (b ++ b') C = apply_batch b' (apply_batch b C).
Proof. apply foldl_app. Qed.

Lemma same_under_off p b C : off p b → same_under p C (apply_batch b C).
Proof.
  intros Hb k. revert C. induction Hb as [|o b Ho Hb IH]; intros C; [done|]. cbn. unfold apply_batch in IH. rewrite <- IH.
  destruct o as [q v|q]; cbn in *.
  - rewrite lookup_insert_ne; [done|]. intros ->. apply Ho. by exists k.
  - rewrite lookup_delete_ne; [done|]. intros ->. apply Ho. by exists k.
Qed.

Lemma same_under_trans p C1 C2 C3 : same_under p C1 C2 → same_under p C2 C3 → same_under p C1 C3.
Proof. intros H1 H2 k. by rewrite H1. Qed.

(** A database that works. *)
Definition good_db (C : gmap bytes bytes) : KeyValueDb := mkDb C (λ _, false) true.

Section shared.
Context (SerializeAsString : Node → bytes) (ParseFromString : bytes → Node).
Context (Crypto : bytes → bytes).
Context (Hparse : ∀ n, ParseFromString (SerializeAsString n) = n).

#[local] Instance kv_shared : TrieStorage KVStore := KVTrie SerializeAsString ParseFromString Crypto.
Local Abbreviation clean := (clean SerializeAsString ParseFromString Crypto).
Local Abbreviation trie_rel := (trie_rel SerializeAsString ParseFromString Crypto).
Local Abbreviation root_of := (root_of SerializeAsString ParseFromString Crypto).
Local Abbreviation Init := (Init SerializeAsString ParseFromString Crypto).

Definition tree_at (C : gmap bytes bytes) (p : bytes) (m : gmap bytes bytes) : Prop :=
  ∃ n, clean (mkTrie (mkKV (good_db C) p []) n []) m.

Lemma same_under_agree p C C' : same_under p C C' → agree [] (kv_view ParseFromString p C) (kv_view ParseFromString p C').
Proof. intros H l _ _. cbn. by rewrite !H. Qed.

Lemma same_under_sym p C C' : same_under p C C' → same_under p C' C.
Proof. intros H k. by rewrite H. Qed.

Lemma holds_frame V V' n k v : agree [] V V' → wf_node V [] n → node_holds V n k v ↔ node_holds V' n k v.
Proof.
  intros Ha Hw. split; [by eapply node_holds_frame|].
  eapply node_holds_frame; [by apply agree_sym|by eapply wf_node_frame].
Qed.

(** A trie sees nothing but the keys under its prefix. *)
Lemma clean_same C C' p n h m : same_under p C C' →
  clean (mkTrie (mkKV (good_db C) p []) n h) m → clean (mkTrie (mkKV (good_db C') p []) n h) m.
Proof.
  intros Hs [[_ _ Tw Tr Th Tl] _ Hc Hi Hl]. apply same_under_agree in Hs as Ha.
  change (committed_view ParseFromString (mkTrie (mkKV (good_db C) p []) n h)) with (kv_view ParseFromString p C) in *.
  set (V' := kv_view ParseFromString p C') in *. set (V := kv_view ParseFromString p C) in *.
  assert (committed_view ParseFromString (mkTrie (mkKV (good_db C') p []) n h) = V') as EV by reflexivity.
  split; [split|..]; rewrite ?EV.
  - apply agree_refl.
  - by split.
  - by eapply wf_node_frame.
  - exact Tr.
  - intros k v. rewrite <- Th. symmetry. by apply holds_frame.
  - intros k v Hv. left. rewrite <- Hl. rewrite <- (agree_leaf _ _ [] _ Ha) in Hv; [done|apply Key2Location_even|apply prefix_nil].
  - reflexivity.
  - exact Hc.
  - destruct Hi as [[Hi Hy]|[Hi Hm]]; [left|right]; (split; [|try done]).
    + rewrite <- (agree_at _ _ [] _ Ha); [done|apply rootl_wf|apply prefix_nil].
    + by eapply synced_frame.
    + rewrite <- (agree_at _ _ [] _ Ha); [done|apply rootl_wf|apply prefix_nil].
  - intros k. rewrite <- Hl. symmetry. apply (agree_leaf _ _ [] _ Ha); [apply Key2Location_even|apply prefix_nil].
Qed.

Lemma tree_at_same C C' p m : same_under p C C' → tree_at C p m → tree_at C' p m.
Proof. intros Hs [n Hc]. exists n. by eapply clean_same. Qed.

Lemma tree_at_off C p m b : off p b → tree_at C p m → tree_at (apply_batch b C) p m.
Proof. intros Hb. by apply tree_at_same, same_under_off. Qed.

(** A content without the keys of the prefix. *)
Lemma tree_at_empty C p : (∀ k, C !! (p ++ k) = None) → tree_at C p ∅.
Proof.
  intros Hn. destruct (Init_empty SerializeAsString ParseFromString Crypto Hparse (good_db C) p 0) as (t & E & Ht);
    [done..|]. pose proof (cl_batch _ _ _ _ _ Ht) as Hb. destruct t as [[d q b] n h]. simpl in Hb.
  unfold KVTrie.Init in E. cbn in E. rewrite Hn in E. cbn in E. injection E as <- <- <- <- <-. by exists (NewNodeFrm rootl).
Qed.

(** Writes of other tries may be waiting in the batch. *)
Lemma trie_rel_batch d p b n h m b' :
  off p b' → trie_rel (mkTrie (mkKV d p b) n h) m → trie_rel (mkTrie (mkKV d p (b ++ b')) n h) m.
Proof.
  intros Hb [Tb Td Tw Tr Th Tl]. split; try done. eapply agree_trans; [exact Tb|].
  change (agree [] (kv_view ParseFromString p (apply_batch b (content d))) (kv_view ParseFromString p (apply_batch (b ++ b') (content d)))).
  rewrite apply_batch_app. by apply same_under_agree, same_under_off.
Qed.

(** Opening a trie while writes of other tries are waiting. *)
Lemma open_rel C p m b depth :
  off p b → tree_at C p m →
  ∃ n, Init (good_db C) b p depth = Ok (mkTrie (mkKV (good_db C) p b) n []) ∧ trie_rel (mkTrie (mkKV (good_db C) p b) n []) m.
Proof.
  intros Hb [n0 Hc]. destruct (Init_root SerializeAsString ParseFromString Crypto Hparse _ m depth b Hc) as (n & E & Hn).
  exists n. split; [exact E|]. apply (trie_rel_batch _ _ [] _ _ _ b Hb). apply Hn.
Qed.

Lemma Set_store (t t' : Trie KVStore) k v r : Set_ t k v = Ok (t', r) → store_ t' = store_ t.
Proof. unfold Set_. destruct (SetItem _ _ _ _ _) as [[n b]|]; [|done]. by intros [= <- _]. Qed.

Lemma Delete_store (t t' : Trie KVStore) k r : Delete t k = Ok (t', r) → store_ t' = store_ t.
Proof. unfold Delete. destruct (DeleteItem _ _ _ _) as [[n b]|]; [|done]. by intros [= <- _]. Qed.

(** Hashing appends writes under the prefix to the batch. *)
Definition appends (kv kv' : KVStore) : Prop :=
  mdb_ kv' = mdb_ kv ∧ prefix_ kv' = prefix_ kv ∧ ∃ b, batch_ kv' = batch_ kv ++ b ∧ on (prefix_ kv) b.

Lemma appends_push kv o : prefix_ kv `prefix_of` op_key o → appends kv (push kv o).
Proof. intros Ho. split_and!; [done..|]. exists [o]. split; [done|]. by constructor. Qed.

Lemma appends_trans kv1 kv2 kv3 : appends kv1 kv2 → appends kv2 kv3 → appends kv1 kv3.
Proof.
  intros (E1 & E2 & b & E3 & Hb) (E4 & E5 & b' & E6 & Hb'). rewrite E2 in Hb'.
  split_and!; [congruence..|]. exists (b ++ b'). rewrite E6, E3, app_assoc. split; [done|]. by apply Forall_app.
Qed.

Lemma update_hash_appends V p n kv : wf_node V p n → appends kv (update_hash kv n).1.1.
Proof.
  intros Hw. apply (update_hash_closed V appends) with (p := p); try done;
    [|exact appends_trans|intros; apply appends_push; cbn; eexists; reflexivity..].
  intros s. split_and!; [done..|]. exists []. rewrite app_nil_r. split; [done|]. by constructor.
Qed.

(** *** The hash of a map *)

Definition puts (m : gmap bytes bytes) : list trie_op := (λ kv, OSet kv.1 kv.2) <$> map_to_list m.

(** The root hash of a trie that holds [m]: here it is built in an empty database. *)
Definition tree_hash (m : gmap bytes bytes) : bytes :=
  match root_hash_after SerializeAsString ParseFromString Crypto (good_db ∅) [] 0 (puts m) with
  | Ok h => h | Err _ => [] end.

Lemma map_run_puts l : ∀ m d, ∃ d', map_run (m, d) ((λ kv : bytes * bytes, OSet kv.1 kv.2) <$> l) =
  Some (foldl (λ m kv, <[kv.1 := kv.2]> m) m l, d', []).
Proof.
  induction l as [|[k v] l IH]; intros m d; cbn; [by exists d|]. destruct (IH (<[k := v]> m) true) as [d' E].
  exists d'. by rewrite E.
Qed.

Lemma foldl_insert_map (l : list (bytes * bytes)) : ∀ m : gmap bytes bytes, NoDup l.*1 →
  foldl (λ m kv, <[kv.1 := kv.2]> m) m l = list_to_map l ∪ m.
Proof.
  induction l as [|[k v] l IH]; intros m Hd; cbn; [by rewrite (left_id_L ∅ (∪))|].
  apply NoDup_cons in Hd as [Hk Hd]. rewrite IH by done.
  rewrite <- insert_union_r, insert_union_l; [done|]. by apply not_elem_of_list_to_map_1.
Qed.

Lemma map_after_puts m : map_after (puts m) = Some m.
Proof.
  unfold map_after, puts. destruct (map_run_puts (map_to_list m) ∅ false) as [d ->]. cbn. f_equal.
  rewrite foldl_insert_map by apply NoDup_fst_map_to_list. by rewrite list_to_map_to_list, (right_id_L ∅ (∪)).
Qed.

Lemma tree_hash_root V info m : root_of V info m → tree_hash m = Crypto (SerializeAsString info).
Proof.
  intros Hr. unfold tree_hash.
  destruct (root_hash_after_root SerializeAsString ParseFromString Crypto (good_db ∅) [] 0 (puts m) m Hparse)
    as (V' & info' & -> & Hr'); [|apply map_after_puts|].
  - split; [done..|]. intros k. apply lookup_empty.
  - by rewrite (root_of_fun SerializeAsString ParseFromString Crypto _ _ _ _ _ Hr' Hr).
Qed.

(** Hashing writes the whole change to the batch and computes the hash of the map. *)
Lemma hash_rel C p b n h m :
  trie_rel (mkTrie (mkKV (good_db C) p b) n h) m →
  ∃ b' n', UpdateHash (mkTrie (mkKV (good_db C) p b) n h) = mkTrie (mkKV (good_db C) p (b ++ b')) n' (tree_hash m) ∧
    on p b' ∧ clean (mkTrie (mkKV (good_db (apply_batch (b ++ b') C)) p []) n' (tree_hash m)) m.
Proof.
  intros Ht. destruct (Commit_clean SerializeAsString ParseFromString Crypto Hparse _ m Ht) as (t' & E & Hc & Hh & Hn & Hs).
  assert (appends (mkKV (good_db C) p b) (store_ (UpdateHash (mkTrie (mkKV (good_db C) p b) n h)))) as (E1 & E2 & b' & E3 & Hb').
  { pose proof (update_hash_appends _ [] n (mkKV (good_db C) p b) (tr_wf _ _ _ _ _ Ht)) as Ha.
    unfold UpdateHash. cbn. by destruct (update_hash _ _) as [[s r] c]. }
  destruct (clean_rec SerializeAsString ParseFromString Crypto t' m Hc Hs) as [Hw Hr].
  assert (tree_hash m = root_hash_ t') as Eh by (rewrite Hh; eapply tree_hash_root; by split).
  unfold Commit, AddToDB in E.
  change (KVTrie SerializeAsString ParseFromString Crypto) with kv_shared in E.
  change (kv_inst SerializeAsString ParseFromString Crypto) with kv_shared in E.
  destruct (UpdateHash _) as [[d q b1] n' h']. cbn in E1, E2, E3, E. subst d q b1. cbn in E. injection E as <-.
  cbn in Eh. subst h'. by exists b', n'.
Qed.

(** The content after the batch holds the map; so does every later content that differs
    elsewhere. *)
Lemma clean_tree_at C p n h m : clean (mkTrie (mkKV (good_db C) p []) n h) m → tree_at C p m.
Proof.
  intros Hc. exists n. apply (clean_node SerializeAsString ParseFromString Crypto _ m n [] Hc); try apply Hc; apply (cl_rel _ _ _ _ _ Hc).
Qed.
End shared.
