(* ===== verification/TrieRehash.v ===== *)
(** * Hashing a trie that has not changed

    [LedgerManager::Initialize] computes the hash of the tree it has just opened: only the
    record of the root is written again, and what the trie stands for stays the same. *)
From stdpp Require Import base gmap list.
From Stdlib Require Import ZArith Lia.
From S2P Require Import Prelude Location Trie TrieSpec TrieOps TrieHash KVTrie TrieMap TrieRefinement TrieCanon TrieShared.

Section generic.
Context {S : Type} `{TrieStorage S}.

Lemma update_loop_unmodified uh cs : (∀ i c, cs !! i = Some (Some c) → modified_ c = false) →
  ∀ i (s : S) info acc, ∃ acc', update_loop uh i cs s info acc = (s, cs, info, acc').
Proof.
  induction cs as [|o cs IH]; intros Hcs i s info acc; cbn [update_loop]; [by exists acc|].
  assert (match o with Some child => if modified_ child then let '(s0, child0, childresult) := uh s child in (s0, Some child0, <[i:=childresult]> info)
    else (s, o, info) | None => (s, o, info) end = (s, o, info)) as ->.
  { destruct o as [c|]; [|done]. by rewrite (Hcs 0 c eq_refl). }
  destruct (IH (λ j c Hj, Hcs (Datatypes.S j) c Hj) (Datatypes.S i) s info (count_branch info i acc)) as [acc' ->]. by exists acc'.
Qed.

(** The root is saved, and nothing else. *)
Lemma update_hash_clean (s : S) n :
  location_ n = rootl → children_clean n → leaf_ n = None → leaf_deleted_ n = false →
  update_hash s n = (StorageSaveNode s rootl (info_ n), set_modified false n, mkChild rootl (HashCrypto (SerializeNode (info_ n))) INNER).
Proof.
  destruct n as [loc cs info md ld lf]. cbn [location_ leaf_ leaf_deleted_ info_ set_modified update_hash]. intros -> Hc -> ->.
  cbn [update_leaf]. destruct (update_loop_unmodified update_hash cs Hc 0 s info (count_branch info 16 (0, None))) as [[bc ob] ->].
  unfold update_result. by rewrite !decide_False by (by intros [_ ?]).
Qed.

Lemma ChildMayFromDB_leaf (s : S) n i n' o : ChildMayFromDB s n i = Ok (n', o) →
  leaf_ n' = leaf_ n ∧ leaf_deleted_ n' = leaf_deleted_ n.
Proof. unfold ChildMayFromDB. intros E. repeat (invert_ok; case_in E); invert_ok; by simplify_eq. Qed.

(** Setting another key does not touch the leaf of the root. *)
Lemma SetItem_leaf fuel (s : S) n location data n' b : SetItem fuel s n location data = Ok (n', b) → location_ n ≠ location →
  leaf_ n' = leaf_ n ∧ leaf_deleted_ n' = leaf_deleted_ n.
Proof.
  destruct fuel as [|fuel]; [done|]. cbn [SetItem]. intros E Hne. rewrite decide_False in E by done.
  apply bind_Ok_inv in E as (br & _ & E). apply bind_Ok_inv in E as ([n1 o] & E1 & E). apply ChildMayFromDB_leaf in E1 as [L1 D1].
  cbn [set_modified leaf_ leaf_deleted_] in L1, D1. rewrite <- L1, <- D1. apply bind_Ok_inv in E as (c2 & _ & E).
  destruct o as [n2|]; [|injection E as <- _; by destruct n1].
  repeat case_decide.
  - apply bind_Ok_inv in E as ([n3 b3] & _ & E). injection E as <- _. by destruct n1.
  - apply bind_Ok_inv in E as (b1 & _ & E). injection E as <- _. by destruct n1.
  - apply bind_Ok_inv in E as (b1 & _ & E). apply bind_Ok_inv in E as (b2 & _ & E). injection E as <- _. by destruct n1.
Qed.

Lemma Set_leaf (t t' : Trie S) k v b : Set_ t k v = Ok (t', b) → location_ (root_ t) ≠ Key2Location k →
  leaf_ (root_ t') = leaf_ (root_ t) ∧ leaf_deleted_ (root_ t') = leaf_deleted_ (root_ t).
Proof.
  unfold Set_. intros E Hne. apply bind_Ok_inv in E as ([r b'] & E & E'). injection E' as <- _. by eapply SetItem_leaf.
Qed.

Lemma UpdateHash_leaf (t : Trie S) :
  leaf_ (root_ (UpdateHash t)) = leaf_ (root_ t) ∧ leaf_deleted_ (root_ (UpdateHash t)) = leaf_deleted_ (root_ t).
Proof.
  destruct t as [s [loc cs info m ld lf] h]. unfold UpdateHash. cbn [store_ root_ update_hash].
  destruct (update_leaf _ _ _ _ _). destruct (update_loop _ _ _ _ _ _) as [[[? ?] ?] ?]. by destruct (update_result _ _ _ _).
Qed.
End generic.

Section kv.
Context (SerializeAsString : Node → bytes) (ParseFromString : bytes → Node).
Context (Crypto : bytes → bytes).
Context (Hparse : ∀ n, ParseFromString (SerializeAsString n) = n).

#[local] Instance kv_rehash : TrieStorage KVStore := KVTrie SerializeAsString ParseFromString Crypto.
Local Abbreviation clean := (clean SerializeAsString ParseFromString Crypto).
Local Abbreviation trie_rel := (trie_rel SerializeAsString ParseFromString Crypto).
Local Abbreviation tree_hash := (tree_hash SerializeAsString ParseFromString Crypto).
Local Abbreviation Init := (Init SerializeAsString ParseFromString Crypto).
Local Abbreviation Load_levels := (Load_levels SerializeAsString ParseFromString Crypto).

(** Loading does not touch the leaf of a node. *)
Lemma Load_levels_leaf levels : ∀ s n n', Load_levels levels s n = Ok n' → leaf_ n' = leaf_ n ∧ leaf_deleted_ n' = leaf_deleted_ n.
Proof.
  induction levels as [|levels IH]; intros s n n' E; cbn [KVTrie.Load_levels] in E; [by injection E as <-|].
  set (f := λ (acc : res NodeFrm) i, _) in E.
  assert (∀ l acc, foldl f acc l = Ok n' → ∃ n0, acc = Ok n0 ∧ leaf_ n' = leaf_ n0 ∧ leaf_deleted_ n' = leaf_deleted_ n0) as Hf.
  { induction l as [|i l IHl]; intros acc El; cbn [foldl] in El; [by exists n'|].
    apply IHl in El as (n1 & E1 & L1 & D1). unfold f in E1. destruct acc as [n0|]; [|done]. exists n0. split; [done|].
    cbn [mbind res_bind] in E1. apply bind_Ok_inv in E1 as ([n2 o] & E2 & E1). apply ChildMayFromDB_leaf in E2 as [L2 D2].
    rewrite L1, D1, <- L2, <- D2. destruct o as [c|]; [|by injection E1 as ->].
    apply bind_Ok_inv in E1 as (c' & _ & E1). by injection E1 as <-. }
  apply Hf in E as (n0 & [= <-] & ?). done.
Qed.

Lemma Init_leaf db b p depth t : Init db b p depth = Ok t → leaf_ (root_ t) = None ∧ leaf_deleted_ (root_ t) = false.
Proof.
  unfold KVTrie.Init. intros E. apply bind_Ok_inv in E as (o & _ & E). apply bind_Ok_inv in E as (r & Er & E). injection E as <-.
  destruct o as [info|]; [|by injection Er as <-]. by apply Load_levels_leaf in Er.
Qed.

Lemma rehash C p b n h0 h m :
  clean (mkTrie (mkKV (good_db C) p []) n h0) m → m ≠ ∅ → leaf_ n = None → leaf_deleted_ n = false →
  same_under p C (apply_batch b C) →
  let t := mkTrie (mkKV (good_db C) p (b ++ [BPut (p ++ rootl) (SerializeAsString (info_ n))])) (set_modified false n) (tree_hash m) in
  UpdateHash (mkTrie (mkKV (good_db C) p b) n h) = t ∧ trie_rel t m.
Proof.
  intros Hc Hm Hl Hd Hb t. pose proof Hc as [[Tb Td Tw Tr Th Tl] _ Hcc Hi Hcl]. cbn [root_] in *.
  assert (∀ b' h', UpdateHash (mkTrie (mkKV (good_db C) p b') n h') =
    mkTrie (mkKV (good_db C) p (b' ++ [BPut (p ++ rootl) (SerializeAsString (info_ n))])) (set_modified false n)
      (Crypto (SerializeAsString (info_ n)))) as Hu.
  { intros b' h'. unfold UpdateHash. cbn [store_ root_]. by rewrite update_hash_clean. }
  destruct (hash_rel _ _ _ Hparse C p [] n h0 m (cl_rel _ _ _ _ _ Hc)) as (b1 & n1 & E1 & _).
  change (kv_shared SerializeAsString ParseFromString Crypto) with kv_rehash in E1. rewrite Hu in E1. injection E1 as _ _ Eh.
  split; [unfold t; rewrite Hu; by f_equal|].
  assert (vnode (kv_view ParseFromString p C) rootl = Some (info_ n)) as Hroot.
  { destruct Hi as [[Hi _]|[_ ?]]; [exact Hi|done]. }
  split.
  - change (agree [] (kv_view ParseFromString p C) (kv_view ParseFromString p (apply_batch (b ++ [BPut (p ++ rootl) (SerializeAsString (info_ n))]) C))).
    rewrite apply_batch_app. eapply agree_trans; [apply same_under_agree, Hb|].
    intros l Hwl _. cbn. split.
    + destruct (decide (l = rootl)) as [->|Hne].
      * rewrite lookup_insert_eq. cbn. rewrite Hparse, <- Hb. exact Hroot.
      * rewrite lookup_insert_ne; [done|]. intros E%app_inv_head. by rewrite E in Hne.
    + intros He. rewrite lookup_insert_ne; [done|]. intros E%app_inv_head. by apply (leaf_node_key rootl l rootl_wf He) in E.
  - exact Td.
  - destruct Tw. constructor; cbn [set_modified location_ children_ info_ modified_ root_ t]; try assumption.
    intros i c _. apply Hcc.
  - exact Tr.
  - intros k v. rewrite <- Th. destruct Tw. unfold t. cbn [root_]. rewrite !node_holds_iff by done. done.
  - intros k v Hv. left. rewrite <- Hcl. exact Hv.
Qed.
End kv.
