(* ===== verification/TrieClaims.v ===== *)
(** * Locations, and deletion of absent keys

    [CommonPrefix] and [NextBranch] on packed locations are the operations on nibble
    paths that the trie needs, and a deletion on a trie answers as the comment in trie.h
    says only for keys that are present. *)
From stdpp Require Import base gmap list strings.
From Stdlib Require Import ZArith Lia.
From S2P Require Import Prelude Location Trie TrieSpec TrieOps TrieHash KVTrie TrieMap TrieRefinement.

(** [CommonPrefix] packs the longest common nibble path.  For well-formed locations
    (even, or odd with a zero pad nibble) the result is well formed, its path is a prefix
    of both, every common prefix is a prefix of it, and it is the only such location. *)
Theorem common_prefix_longest l1 l2 (H1 : wf_loc l1) (H2 : wf_loc l2) :
  let c := CommonPrefix l1 l2 in
  wf_loc c ∧ path c `prefix_of` path l1 ∧ path c `prefix_of` path l2 ∧
  (∀ q, q `prefix_of` path l1 → q `prefix_of` path l2 → q `prefix_of` path c) ∧
  ∀ c', wf_loc c' → path c' = path c → c' = c.
Proof.
  intros c. destruct (CommonPrefix_spec l1 l2 H1 H2) as [Hw Hp]. fold c in Hw, Hp. rewrite Hp.
  split_and!; [done|apply lcp_prefix_l|apply lcp_prefix_r|intros; by apply lcp_greatest|].
  intros c' Hc' E. apply path_inj; congruence.
Qed.

Lemma common_prefix_longest_witness :
  CommonPrefix (Key2Location [Init.Byte.x12; Init.Byte.x34]) (Key2Location [Init.Byte.x12; Init.Byte.x35])
    = [ODD_PREFIX; Init.Byte.x12; Init.Byte.x30] ∧
  path (CommonPrefix (Key2Location [Init.Byte.x12; Init.Byte.x34]) (Key2Location [Init.Byte.x12; Init.Byte.x35]))
    `prefix_of` [1; 2; 3; 4].
Proof.
  split; [vm_compute; reflexivity|].
  apply (common_prefix_longest (Key2Location [Init.Byte.x12; Init.Byte.x34])
    (Key2Location [Init.Byte.x12; Init.Byte.x35])); apply even_wf, Key2Location_even.
Defined.

(** Branching is total and in range.  When the location [c] of a node is a proper
    prefix of the location searched, [NextBranch] reads no byte out of range and returns
    the next nibble, an index of the 16 children. *)
Theorem next_branch_total c l (Hc : wf_loc c) (Hl : wf_loc l)
    (Hp : path c `prefix_of` path l) (Hne : c ≠ l) :
  ∃ x, NextBranch c l = Ok x ∧ x < 16 ∧ path c ++ [x] `prefix_of` path l.
Proof.
  destruct Hp as [[|x q] E].
  { rewrite app_nil_r in E. destruct Hne. by apply path_inj. }
  assert (path c ++ [x] `prefix_of` path l) as Hx.
  { rewrite E. exists q. by rewrite <- app_assoc. }
  exists x. split_and!; [by apply NextBranch_spec| |done].
  apply (path_bound l); [done|]. rewrite E. apply elem_of_app. right. by left.
Qed.

Lemma next_branch_total_witness : ∃ x,
  NextBranch rootl (Key2Location [Init.Byte.xff]) = Ok x ∧ x < 16 ∧ path rootl ++ [x] `prefix_of` [15; 15].
Proof.
  apply (next_branch_total rootl (Key2Location [Init.Byte.xff])).
  - apply rootl_wf.
  - apply even_wf, Key2Location_even.
  - apply prefix_nil.
  - discriminate.
Defined.

(** Two keys below a common inner node. *)
Definition two_keys : list trie_op :=
  [OSet [Init.Byte.x00; Init.Byte.x10] (str "a"); OSet [Init.Byte.x00; Init.Byte.x20] (str "b"); OCommit].

Definition demo_trie : Trie KVStore :=
  match Init toy_serialize toy_parse (λ x, x) toy_db [] (str "acc") 1 with
  | Ok t => match trie_run toy_serialize toy_parse (λ x, x) t two_keys with Ok (t, _) => t | Err _ => t end
  | Err _ => mkTrie (mkKV toy_db [] []) (NewNodeFrm rootl) []
  end.

(** [Delete] of an absent key may report success.  The comment in trie.h promises
    [false] for a key that is not there, but a key whose location is an inner node of
    the trie (a common prefix of two keys) gives [true], although [Get] finds nothing. *)
Theorem delete_absent_reports_true :
  let C := KVTrie toy_serialize toy_parse (λ x, x) in
  (∃ t, Get demo_trie [Init.Byte.x00] = Ok (t, None)) ∧ ∃ t, Delete demo_trie [Init.Byte.x00] = Ok (t, true).
Proof. split; eexists; vm_compute; reflexivity. Qed.
