(* ===== verification/TxQueue.v ===== *)
(** * The transaction queue (src/src/glue/transaction_queue.h, transaction_queue.cpp)

    Transactions wait in two multisets (by priority and by arrival time) with indexes
    by account and nonce and by hash.  An iterator is the identity of a node of a
    multiset; dereferencing one that was erased is the fault [NullDeref].  The lock is
    taken for the whole of each public operation, so operations are atomic. *)
From Stdlib Require Import ZArith Lia.
From stdpp Require Import base gmap list.
From S2P Require Import Prelude.

Open Scope Z_scope.

(** ** Transactions (src/src/ledger/transaction_frm.h)

    The fields of [TransactionEnv] that the queue reads, and the others as one string. *)
Record TransactionEnv := mkEnv {
  source_address : bytes; nonce : Z; gas_price : Z; env_rest : bytes }.

Record TransactionFrm := mkTx {
  transaction_env_ : TransactionEnv; hash_ : bytes; incoming_time_ : Z }.

Definition GetSourceAddress (tx : TransactionFrm) : bytes := source_address (transaction_env_ tx).
Definition GetNonce (tx : TransactionFrm) : Z := nonce (transaction_env_ tx).
Definition GetGasPrice (tx : TransactionFrm) : Z := gas_price (transaction_env_ tx).
Definition GetContentHash (tx : TransactionFrm) : bytes := hash_ tx.
Definition GetInComingTime (tx : TransactionFrm) : Z := incoming_time_ tx.

(** The result code that [CheckTimeout] also stores in the transaction is not read by
    the queue. *)
Definition tx_CheckTimeout (tx : TransactionFrm) (expire_time : Z) : bool :=
  incoming_time_ tx <? expire_time.

(** ** The price comparison *)

(** The literal [0.1]. *)
Definition one_tenth : double := (3602879701896397, -55).

(** [(tx->GetGasPrice() - p) >= (p * 0.1)] *)
Definition price_bump (new p : Z) : bool :=
  double_ge (double_of_int (i64 (new - p))) (double_mul (double_of_int p) one_tenth).

(** ** State *)

(** A node of a multiset: its identity and its element. *)
Abbreviation node := (nat * TransactionFrm)%type.

Record TransactionQueue := mkQueue {
  queue_ : list node;
  time_queue_ : list node;
  queue_by_address_and_nonce_ : gmap bytes (gmap Z (nat * nat));
  queue_by_hash_ : gmap bytes TransactionFrm;
  account_nonce_ : gmap bytes Z;
  queue_limit_ : Z;
  account_txs_limit_ : Z;
  next_node : nat }.

Definition QUEUE_TRANSACTION_TIMEOUT : Z := 600 * 1000000.
Definition TXSET_LIMIT_SIZE : Z := 16 * 1024 * 1024.
Definition ERRCODE_TX_INSERT_QUEUE_FAIL : Z := 160.

(** [account_nonce_[address]] where the address is present: the invariant of the queue
    says it is, for every transaction in it, so the read never adds an entry. *)
Definition nonce_of (m : gmap bytes Z) (address : bytes) : Z := default 0 (m !! address).

Definition height (m : gmap bytes Z) (tx : TransactionFrm) : Z :=
  i64 (GetNonce tx - nonce_of m (GetSourceAddress tx)).

Definition PriorityCompare (m : gmap bytes Z) (first second : TransactionFrm) : bool :=
  (height m first <? height m second) ||
  ((height m first =? height m second) && (GetGasPrice second <? GetGasPrice first)).

Definition TimePriorityCompare (first second : TransactionFrm) : bool :=
  GetInComingTime first <? GetInComingTime second.

(** ** [std::multiset] insertion

    The search for the insertion point goes left at an element that is greater than the
    new one and right otherwise, so it ends in a gap whose left neighbour is not greater
    and whose right neighbour is greater.  Which gap, when the elements are not sorted
    by the current comparison, depends on the shape of the tree: [insert_pos] stands
    for it. *)
Definition gap (lt : TransactionFrm → TransactionFrm → bool) (x : TransactionFrm)
    (l : list TransactionFrm) (pos : nat) : Prop :=
  (pos ≤ length l)%nat ∧
  (∀ y, l !! pos = Some y → lt x y = true) ∧
  (∀ i y, pos = S i → l !! i = Some y → lt x y = false).

Class Multiset := {
  insert_pos : (TransactionFrm → TransactionFrm → bool) → TransactionFrm → list TransactionFrm → nat;
  insert_gap lt x l : gap lt x l (insert_pos lt x l) }.

(** The leftmost gap. *)
Fixpoint leftmost_pos (lt : TransactionFrm → TransactionFrm → bool) (x : TransactionFrm)
    (l : list TransactionFrm) : nat :=
  match l with
  | [] => 0
  | y :: l => if lt x y then 0 else S (leftmost_pos lt x l)
  end.

Lemma leftmost_gap lt x l : gap lt x l (leftmost_pos lt x l).
Proof.
  induction l as [|y l (IH1 & IH2 & IH3)]; simpl; [by split_and!|].
  destruct (lt x y) eqn:E; split_and!; simpl; try done; try lia.
  - by intros ? [= <-].
  - intros i z [= <-] Hi. destruct (leftmost_pos lt x l) as [|i'] eqn:El; simpl in Hi.
    + by simplify_eq.
    + by apply (IH3 i').
Qed.

Definition linear_multiset : Multiset := {| insert_gap := leftmost_gap |}.

Definition emplace `{Multiset} (lt : TransactionFrm → TransactionFrm → bool) (n : node)
    (l : list node) : list node :=
  let pos := insert_pos lt n.2 l.*2 in take pos l ++ n :: drop pos l.

Definition deref (l : list node) (it : nat) : res TransactionFrm :=
  match list_find (λ p, p.1 = it) l with Some (_, (_, tx)) => Ok tx | None => Err NullDeref end.

Definition erase (l : list node) (it : nat) : list node := filter (λ p, p.1 ≠ it) l.

Section operations.
Context `{Multiset}.
(** [ByteSize] of a transaction envelope and of a set of them. *)
Context (ByteSize : TransactionEnv → Z) (set_ByteSize : list TransactionEnv → Z).

Implicit Types q : TransactionQueue.

Definition new_TransactionQueue (queue_limit account_txs_limit : Z) : TransactionQueue :=
  mkQueue [] [] ∅ ∅ ∅ queue_limit account_txs_limit 0.

Definition set_account_nonce (m : gmap bytes Z) q : TransactionQueue :=
  mkQueue (queue_ q) (time_queue_ q) (queue_by_address_and_nonce_ q) (queue_by_hash_ q) m
    (queue_limit_ q) (account_txs_limit_ q) (next_node q).

(** [Remove(account_it, tx_it, del_empty)]: [account_it] points to [(address, m)] and
    [tx_it] to [(nonce, it)] in [m]. *)
Definition Remove_it q (address : bytes) (m : gmap Z (nat * nat)) (nonce : Z) (it : nat * nat)
    (del_empty : bool) : res (TransactionQueue * TransactionFrm) :=
  ptr ← deref (queue_ q) it.1;
  let m := delete nonce m in
  let dead := del_empty && bool_decide (m = ∅) in
  mret (mkQueue (erase (queue_ q) it.1) (erase (time_queue_ q) it.2)
    (if dead then delete address (queue_by_address_and_nonce_ q)
     else <[address := m]> (queue_by_address_and_nonce_ q))
    (delete (GetContentHash ptr) (queue_by_hash_ q))
    (if dead then delete address (account_nonce_ q) else account_nonce_ q)
    (queue_limit_ q) (account_txs_limit_ q) (next_node q), ptr).

(** [Remove(account_address, nonce)]: the removed transaction, if any. *)
Definition Remove q (account_address : bytes) (nonce : Z)
    : res (TransactionQueue * option TransactionFrm) :=
  match queue_by_address_and_nonce_ q !! account_address with
  | None => mret (q, None)
  | Some m =>
      match m !! nonce with
      | None => mret (q, None)
      | Some it =>
          ptr ← deref (queue_ q) it.1;
          let m := delete nonce m in
          let dead := bool_decide (m = ∅) in
          mret (mkQueue (erase (queue_ q) it.1) (erase (time_queue_ q) it.2)
            (if dead then delete account_address (queue_by_address_and_nonce_ q)
             else <[account_address := m]> (queue_by_address_and_nonce_ q))
            (delete (GetContentHash ptr) (queue_by_hash_ q))
            (if dead then delete account_address (account_nonce_ q) else account_nonce_ q)
            (queue_limit_ q) (account_txs_limit_ q) (next_node q), Some ptr)
      end
  end.

(** A present [(address, nonce)] keeps its entry and gets the new iterators. *)
Definition Insert q (tx : TransactionFrm) : TransactionQueue :=
  let id := next_node q in
  let m := default ∅ (queue_by_address_and_nonce_ q !! GetSourceAddress tx) in
  mkQueue (emplace (PriorityCompare (account_nonce_ q)) (id, tx) (queue_ q))
    (emplace TimePriorityCompare (id, tx) (time_queue_ q))
    (<[GetSourceAddress tx := <[GetNonce tx := (id, id)]> m]> (queue_by_address_and_nonce_ q))
    (<[GetContentHash tx := tx]> (queue_by_hash_ q))
    (account_nonce_ q) (queue_limit_ q) (account_txs_limit_ q) (S id).

(** The loop [while (queue_.size() > queue_limit_)] of [Import]. *)
Fixpoint evict (fuel : nat) q (tx : TransactionFrm) (inserted : bool) (code : Z)
    : res (TransactionQueue * bool * Z) :=
  if Z.of_nat (length (queue_ q)) <=? queue_limit_ q then mret (q, inserted, code) else
  match fuel, last (queue_ q) with
  | O, _ => Err OutOfFuel
  | _, None => Err NullDeref
  | S fuel, Some (_, t) =>
      '(q, _) ← Remove q (GetSourceAddress t) (GetNonce t);
      if decide (GetContentHash t = GetContentHash tx)
      then evict fuel q tx false ERRCODE_TX_INSERT_QUEUE_FAIL
      else evict fuel q tx inserted code
  end.

(** The lookup of a transaction with the same account and nonce in [Import]: the queue
    without it and its account's transaction count when the new one replaces it, or
    [None] when the new one is dropped for its low price. *)
Definition replace_step q (tx : TransactionFrm) (cur_source_nonce : Z)
    : res (option (TransactionQueue * bool * Z)) :=
  match queue_by_address_and_nonce_ q !! GetSourceAddress tx with
  | None => mret (Some (q, false, 0))
  | Some m =>
      let account_txs_size := u32 (Z.of_nat (size m)) in
      match m !! GetNonce tx with
      | None => mret (Some (q, false, account_txs_size))
      | Some it =>
          old ← deref (queue_ q) it.1;
          if price_bump (GetGasPrice tx) (GetGasPrice old) then
            '(q, _) ← Remove_it q (GetSourceAddress tx) m (GetNonce tx) it true;
            let q := set_account_nonce
              (<[GetSourceAddress tx := cur_source_nonce]> (account_nonce_ q)) q in
            mret (Some (q, true, u32 (account_txs_size - 1)))
          else mret None
      end
  end.

(** The queue, [inserted], and the code of [result] ([code] when it is not set). *)
Definition Import q (tx : TransactionFrm) (cur_source_nonce : Z) (code : Z)
    : res (TransactionQueue * bool * Z) :=
  let q := set_account_nonce (<[GetSourceAddress tx := cur_source_nonce]> (account_nonce_ q)) q in
  o ← replace_step q tx cur_source_nonce;
  match o with
  | None => mret (q, false, ERRCODE_TX_INSERT_QUEUE_FAIL)
  | Some (q, replace, account_txs_size) =>
      '(q, inserted, code) ←
        (if replace || (account_txs_size <? account_txs_limit_ q) then
           let q := Insert q tx in evict (length (queue_ q)) q tx true code
         else mret (q, false, code));
      if account_txs_limit_ q <=? account_txs_size
      then mret (q, false, ERRCODE_TX_INSERT_QUEUE_FAIL)
      else mret (q, inserted, code)
  end.

(** The loop of [TopTransaction] over the rest of the queue. *)
Fixpoint top_loop (l : list node) (limit : Z) (set : list TransactionEnv) (i set_size : Z)
    (topic_seqs break_nonce_accounts account_nonce : gmap bytes Z)
    : list TransactionEnv * gmap bytes Z :=
  match l with
  | [] => (set, account_nonce)
  | (_, tx) :: l =>
      if limit <=? Z.of_nat (length set) then (set, account_nonce) else
      let sz := ByteSize (transaction_env_ tx) in
      if (TXSET_LIMIT_SIZE <=? i + set_size + sz) && (TXSET_LIMIT_SIZE <=? set_ByteSize set + sz)
      then (set, account_nonce) else
      let set_size := set_size + sz in
      let a := GetSourceAddress tx in
      match break_nonce_accounts !! a with
      | Some _ => top_loop l limit set i set_size topic_seqs break_nonce_accounts account_nonce
      | None =>
          let '(last_seq, account_nonce) :=
            match topic_seqs !! a with
            | Some s => (s, account_nonce)
            | None => let v := default 0 (account_nonce !! a) in (v, <[a := v]> account_nonce)
            end in
          if i64 (last_seq + 1) <? GetNonce tx then
            top_loop l limit set i set_size topic_seqs
              (<[a := i64 (last_seq + 1)]> break_nonce_accounts) account_nonce
          else
            top_loop l limit (set ++ [transaction_env_ tx]) (i + 1) set_size
              (<[a := GetNonce tx]> topic_seqs) break_nonce_accounts account_nonce
      end
  end.

Definition TopTransaction q (limit : Z) : TransactionQueue * list TransactionEnv :=
  let '(set, m) := top_loop (queue_ q) limit [] 0 0 ∅ ∅ (account_nonce_ q) in
  (set_account_nonce m q, set).

(** One iteration of either [RemoveTxs]. *)
Definition RemoveTx q (source_address : bytes) (nonce : Z) (close_ledger : bool)
    : res (TransactionQueue * bool) :=
  '(q, o) ← Remove q source_address nonce;
  let q :=
    match account_nonce_ q !! source_address with
    | Some v =>
        if close_ledger && (v <? nonce)
        then set_account_nonce (<[source_address := nonce]> (account_nonce_ q)) q else q
    | None => q
    end in
  mret (q, bool_decide (is_Some (o : option TransactionFrm))).

Fixpoint RemoveTxs_set q (set : list TransactionEnv) (close_ledger : bool) (ret : Z)
    : res (TransactionQueue * Z) :=
  match set with
  | [] => mret (q, ret)
  | t :: set =>
      '(q, b) ← RemoveTx q (source_address t) (nonce t) close_ledger;
      RemoveTxs_set q set close_ledger (if b : bool then ret + 1 else ret)
  end.

Fixpoint RemoveTxs q (txs : list TransactionFrm) (close_ledger : bool) : res TransactionQueue :=
  match txs with
  | [] => mret q
  | t :: txs =>
      '(q, _) ← RemoveTx q (GetSourceAddress t) (GetNonce t) close_ledger;
      RemoveTxs q txs close_ledger
  end.

Definition SafeRemoveTx q (account_address : bytes) (nonce : Z) : res TransactionQueue :=
  '(q, _) ← Remove q account_address nonce; mret q.

Definition expire (current_time : Z) : Z := i64 (current_time - QUEUE_TRANSACTION_TIMEOUT).

Fixpoint CheckTimeout_loop (l : list node) (expire_time : Z) : list TransactionFrm :=
  match l with
  | [] => []
  | (_, t) :: l => if tx_CheckTimeout t expire_time then t :: CheckTimeout_loop l expire_time else []
  end.

Definition CheckTimeout q (current_time : Z) (timeout_txs : list TransactionFrm)
    : list TransactionFrm :=
  timeout_txs ++ CheckTimeout_loop (time_queue_ q) (expire current_time).

Fixpoint timeout_loop (fuel : nat) q (expire_time : Z) (timeout_txs : list TransactionFrm)
    : res (TransactionQueue * list TransactionFrm) :=
  match time_queue_ q with
  | [] => mret (q, timeout_txs)
  | (_, t) :: _ =>
      if tx_CheckTimeout t expire_time then
        match fuel with
        | O => Err OutOfFuel
        | S fuel =>
            '(q, _) ← Remove q (GetSourceAddress t) (GetNonce t);
            timeout_loop fuel q expire_time (timeout_txs ++ [t])
        end
      else mret (q, timeout_txs)
  end.

Definition CheckTimeoutAndDel q (current_time : Z) (timeout_txs : list TransactionFrm)
    : res (TransactionQueue * list TransactionFrm) :=
  timeout_loop (length (time_queue_ q)) q (expire current_time) timeout_txs.

Definition IsExist q (tx : TransactionFrm) : res bool :=
  match queue_by_address_and_nonce_ q !! GetSourceAddress tx with
  | None => mret false
  | Some m =>
      match m !! GetNonce tx with
      | None => mret false
      | Some it => t ← deref (queue_ q) it.1; mret (bool_decide (GetContentHash t = GetContentHash tx))
      end
  end.

Definition IsExist_hash q (hash : bytes) : bool :=
  bool_decide (is_Some (queue_by_hash_ q !! hash)).

Definition Size q : Z := Z.of_nat (length (queue_ q)).

Definition Query q (num : Z) : list TransactionFrm := take (Z.to_nat num) (queue_ q).*2.

Definition Query_hash q (hash : bytes) : option TransactionFrm := queue_by_hash_ q !! hash.
End operations.
