(* ===== verification/TxQueueSpec.v ===== *)
(** * Correctness of the transaction queue

    The invariant [wf] ties the two multisets and the two indexes together; every
    operation keeps it and, on a well-formed queue, does not fault. *)
From Stdlib Require Import ZArith Lia.
From stdpp Require Import base gmap list sorting.
From S2P Require Import Prelude TxQueue.

Open Scope Z_scope.
Implicit Types (q : TransactionQueue) (tx : TransactionFrm).

Definition index q (a : bytes) (n : Z) : option (nat * nat) :=
  queue_by_address_and_nonce_ q !! a ≫= (.!! n).

Definition time_le tx1 tx2 : Prop := GetInComingTime tx1 ≤ GetInComingTime tx2.

Record wf q : Prop := {
  wf_nodup : NoDup (queue_ q).*1;
  wf_fresh i tx : (i, tx) ∈ queue_ q → (i < next_node q)%nat;
  wf_time : time_queue_ q ≡ₚ queue_ q;
  wf_index a n it : index q a n = Some it ↔
    it.1 = it.2 ∧ ∃ tx, (it.1, tx) ∈ queue_ q ∧ GetSourceAddress tx = a ∧ GetNonce tx = n;
  wf_nonempty a m : queue_by_address_and_nonce_ q !! a = Some m → m ≠ ∅;
  wf_hash h tx : queue_by_hash_ q !! h = Some tx ↔
    GetContentHash tx = h ∧ ∃ i, (i, tx) ∈ queue_ q;
  wf_nonce a m : queue_by_address_and_nonce_ q !! a = Some m → is_Some (account_nonce_ q !! a);
  wf_sorted : StronglySorted time_le (time_queue_ q).*2 }.

(** ** Multisets *)

Lemma emplace_perm `{Multiset} lt n l : emplace lt n l ≡ₚ n :: l.
Proof.
  unfold emplace. rewrite <- Permutation_middle. by rewrite take_drop.
Qed.

Lemma deref_in l i tx : NoDup l.*1 → (i, tx) ∈ l → deref l i = Ok tx.
Proof.
  intros Hn Hi. unfold deref. destruct (list_find _ l) as [[k [j tx']]|] eqn:E.
  - apply list_find_Some in E as (Hk & Hj & _). simpl in Hj. subst.
    apply list_elem_of_lookup_2 in Hk. f_equal.
    apply elem_of_Permutation in Hi as [l' Hl]. rewrite Hl in Hn, Hk. simpl in Hn.
    apply NoDup_cons in Hn as [Hn _]. apply elem_of_cons in Hk as [[=]|Hk]; [done|].
    destruct Hn. by apply (list_elem_of_fmap_2 fst) in Hk.
  - apply list_find_None in E. rewrite list.Forall_forall in E. by destruct (E _ Hi).
Qed.

Lemma elem_of_erase l i j tx : (j, tx) ∈ erase l i ↔ (j, tx) ∈ l ∧ j ≠ i.
Proof. unfold erase. rewrite list_elem_of_filter. simpl. tauto. Qed.

Lemma erase_fmap {B} (f : node → B) l i : f <$> erase l i `sublist_of` f <$> l.
Proof. unfold erase. induction l; [done|]. rewrite filter_cons. case_decide; by constructor. Qed.

Lemma erase_length l i tx : NoDup l.*1 → (i, tx) ∈ l → length l = S (length (erase l i)).
Proof.
  intros Hn Hi. apply elem_of_Permutation in Hi as [l' Hl]. unfold erase. rewrite Hl in *.
  rewrite filter_cons, decide_False by (simpl; tauto). simpl. f_equal. simpl in Hn.
  apply NoDup_cons in Hn as [Hn _]. f_equal. symmetry. apply filter_all.
  intros [j t] Hj E. simpl in E. subst. apply Hn. by apply (list_elem_of_fmap_2 fst) in Hj.
Qed.

(** ** Consequences of the invariant *)

Lemma wf_same_key q i j tx tx' : wf q →
  (i, tx) ∈ queue_ q → (j, tx') ∈ queue_ q →
  GetSourceAddress tx = GetSourceAddress tx' → GetNonce tx = GetNonce tx' → i = j ∧ tx = tx'.
Proof.
  intros Hw Hi Hj Ha Hn.
  assert (index q (GetSourceAddress tx') (GetNonce tx') = Some (i, i)) as E1 by (apply (wf_index _ Hw); eauto).
  assert (index q (GetSourceAddress tx') (GetNonce tx') = Some (j, j)) as E2 by (apply (wf_index _ Hw); eauto).
  assert (i = j) as -> by congruence. split; [done|].
  pose proof (deref_in _ _ _ (wf_nodup _ Hw) Hi). pose proof (deref_in _ _ _ (wf_nodup _ Hw) Hj). congruence.
Qed.

Lemma wf_same_hash q i j tx tx' : wf q →
  (i, tx) ∈ queue_ q → (j, tx') ∈ queue_ q → GetContentHash tx = GetContentHash tx' → i = j ∧ tx = tx'.
Proof.
  intros Hw Hi Hj Hh.
  assert (queue_by_hash_ q !! GetContentHash tx' = Some tx) as E1 by (apply (wf_hash _ Hw); eauto).
  assert (queue_by_hash_ q !! GetContentHash tx' = Some tx') as E2 by (apply (wf_hash _ Hw); eauto).
  assert (tx = tx') as -> by congruence. by eapply wf_same_key.
Qed.

Lemma wf_lookup q a n : wf q →
  (∃ m i tx, queue_by_address_and_nonce_ q !! a = Some m ∧ m !! n = Some (i, i) ∧
     (i, tx) ∈ queue_ q ∧ GetSourceAddress tx = a ∧ GetNonce tx = n)
  ∨ (index q a n = None ∧ ∀ i tx, (i, tx) ∈ queue_ q → ¬ (GetSourceAddress tx = a ∧ GetNonce tx = n)).
Proof.
  intros Hw. destruct (index q a n) as [[i j]|] eqn:E.
  - left. pose proof E as E'. apply (wf_index _ Hw) in E' as (Hij & tx & Htx & ? & ?). simpl in *. subst j.
    unfold index in E. apply bind_Some in E as (m & Hm & Hn). by exists m, i, tx.
  - right. split; [done|]. intros i tx Hi [<- <-].
    assert (index q (GetSourceAddress tx) (GetNonce tx) = Some (i, i)) by (apply (wf_index _ Hw); eauto).
    congruence.
Qed.

(** ** Removing one transaction *)

(** The state after removing the node [(i, tx)] of the account entry [m]. *)
Definition unlink q (i : nat) tx (m : gmap Z (nat * nat)) : TransactionQueue :=
  let m := delete (GetNonce tx) m in
  let dead := bool_decide (m = ∅) in
  let a := GetSourceAddress tx in
  mkQueue (erase (queue_ q) i) (erase (time_queue_ q) i)
    (if dead then delete a (queue_by_address_and_nonce_ q) else <[a := m]> (queue_by_address_and_nonce_ q))
    (delete (GetContentHash tx) (queue_by_hash_ q))
    (if dead then delete a (account_nonce_ q) else account_nonce_ q)
    (queue_limit_ q) (account_txs_limit_ q) (next_node q).

Lemma unlink_index q i tx m a n :
  queue_by_address_and_nonce_ q !! GetSourceAddress tx = Some m →
  index (unlink q i tx m) a n =
  if decide (a = GetSourceAddress tx ∧ n = GetNonce tx) then None else index q a n.
Proof.
  intros Hm. unfold index, unlink. cbn [queue_by_address_and_nonce_].
  destruct (decide (a = GetSourceAddress tx)) as [->|Ha].
  - rewrite Hm. simpl. destruct (bool_decide _) eqn:E.
    + apply bool_decide_eq_true in E. rewrite lookup_delete_eq. simpl. case_decide as D; [done|].
      rewrite <- (lookup_delete_ne m (GetNonce tx)) by naive_solver. by rewrite E.
    + apply bool_decide_eq_false in E. rewrite lookup_insert_eq. simpl. case_decide as D.
      * destruct D as [_ ->]. by rewrite lookup_delete_eq.
      * rewrite lookup_delete_ne by naive_solver. done.
  - rewrite decide_False by (by intros [? _]). case_bool_decide.
    + by rewrite lookup_delete_ne.
    + by rewrite lookup_insert_ne.
Qed.

Lemma unlink_account q i tx m a :
  queue_by_address_and_nonce_ (unlink q i tx m) !! a =
  if decide (a = GetSourceAddress tx)
  then (if decide (delete (GetNonce tx) m = ∅) then None else Some (delete (GetNonce tx) m))
  else queue_by_address_and_nonce_ q !! a.
Proof.
  unfold unlink. cbn [queue_by_address_and_nonce_]. case_decide as D; [subst|].
  - case_bool_decide as E; [rewrite lookup_delete_eq|rewrite lookup_insert_eq];
      [by rewrite decide_True|by rewrite decide_False].
  - case_bool_decide as E; by rewrite ?lookup_delete_ne, ?lookup_insert_ne by done.
Qed.

Lemma unlink_wf q i tx m :
  wf q → (i, tx) ∈ queue_ q → queue_by_address_and_nonce_ q !! GetSourceAddress tx = Some m →
  wf (unlink q i tx m).
Proof.
  intros Hw Hi Hm. pose proof Hw as [W1 W2 W3 W4 W5 W6 W7 W8]. split.
  - eapply sublist_NoDup; [exact W1|]. apply erase_fmap.
  - intros j t [Hj _]%elem_of_erase. by eapply W2.
  - cbn [time_queue_ queue_ unlink]. unfold erase. by rewrite W3.
  - intros a n [l r]. rewrite unlink_index by done. simpl. case_decide as D.
    + destruct D as [-> ->]. split; [done|]. intros (-> & t & [Ht Hne]%elem_of_erase & E1 & E2).
      by destruct (wf_same_key q r i t tx).
    + rewrite W4. simpl. split; intros (-> & t & Ht & E1 & E2); (split; [done|]); exists t.
      * split_and!; [|done..]. apply elem_of_erase. split; [done|]. intros ->. apply D.
        pose proof (deref_in _ _ _ W1 Ht). pose proof (deref_in _ _ _ W1 Hi).
        assert (t = tx) as -> by congruence. done.
      * apply elem_of_erase in Ht as [Ht _]. done.
  - intros a m'. rewrite unlink_account. repeat case_decide; [done|by intros [= <-]|by apply W5].
  - intros h t. cbn [queue_by_hash_ unlink]. rewrite lookup_delete_Some, W6. split.
    + intros (Hne & Hh & j & Hj). split; [done|]. exists j. apply elem_of_erase. split; [done|].
      intros ->. pose proof (deref_in _ _ _ W1 Hj). pose proof (deref_in _ _ _ W1 Hi). congruence.
    + intros (Hh & j & [Hj Hne]%elem_of_erase). split_and!; [|done|eauto].
      intros E. destruct (wf_same_hash q i j tx t Hw Hi Hj); congruence.
  - intros a m'. rewrite unlink_account. cbn [account_nonce_ unlink].
    case_decide as D; [subst; case_decide as D2; [done|]|].
    + intros _. rewrite bool_decide_eq_false_2 by done. by eapply W7.
    + intros Ha%W7. case_bool_decide; [by rewrite lookup_delete_ne|done].
  - eapply sorted_sublist; [|exact W8]. apply erase_fmap.
Qed.

(** [Remove] on a well-formed queue: it removes the transaction of the account with that
    nonce, or there is none and nothing changes. *)
Lemma Remove_spec q a n : wf q →
  (∃ i tx m, (i, tx) ∈ queue_ q ∧ GetSourceAddress tx = a ∧ GetNonce tx = n ∧
     queue_by_address_and_nonce_ q !! a = Some m ∧
     Remove q a n = Ok (unlink q i tx m, Some tx) ∧ wf (unlink q i tx m))
  ∨ ((∀ i tx, (i, tx) ∈ queue_ q → ¬ (GetSourceAddress tx = a ∧ GetNonce tx = n)) ∧
     Remove q a n = Ok (q, None)).
Proof.
  intros Hw. unfold Remove. destruct (wf_lookup q a n Hw) as [(m & i & tx & Hm & Hn & Hi & <- & <-)|[Hx Hn]].
  - left. exists i, tx, m. split_and!; [done..| |by apply unlink_wf].
    rewrite Hm, Hn. cbn [fst]. rewrite (deref_in _ _ _ (wf_nodup _ Hw) Hi). reflexivity.
  - right. split; [done|]. unfold index in Hx.
    destruct (queue_by_address_and_nonce_ q !! a) as [m|]; [|done]. simpl in Hx. by rewrite Hx.
Qed.

(** ** Inserting one transaction *)

(** No other transaction of the queue has the hash of [tx]: the hash covers the source
    address and the nonce. *)
Definition hash_fresh q tx : Prop :=
  ∀ i t, (i, t) ∈ queue_ q → GetContentHash t = GetContentHash tx →
    GetSourceAddress t = GetSourceAddress tx ∧ GetNonce t = GetNonce tx.

Section insert.
Context `{Multiset}.

Lemma gap_time tx l pos :
  gap TimePriorityCompare tx l pos → StronglySorted time_le l →
  StronglySorted time_le (take pos l ++ tx :: drop pos l).
Proof.
  intros (Hp & Hr & Hl) Hs. rewrite <- (take_drop pos l) in Hs.
  apply StronglySorted_app in Hs as (Hx & Hs1 & Hs2).
  assert (H1 : ∀ x, x ∈ take pos l → time_le x tx).
  { intros x Hx'. destruct pos as [|i]; [by rewrite take_0 in Hx'; apply not_elem_of_nil in Hx'|].
    destruct (lookup_lt_is_Some_2 l i) as [y Hy]; [lia|]. specialize (Hl i y eq_refl Hy).
    unfold TimePriorityCompare in Hl. apply Z.ltb_ge in Hl.
    rewrite (take_S_r _ _ _ Hy) in Hx', Hs1. apply elem_of_app in Hx' as [Hx'|Hx']; [|apply list_elem_of_singleton in Hx' as ->; done].
    apply StronglySorted_app in Hs1 as (Hx1 & _ & _). specialize (Hx1 x y Hx' (list_elem_of_here _ _)).
    unfold time_le in *. lia. }
  assert (H2 : ∀ x, x ∈ drop pos l → time_le tx x).
  { intros x Hx'. destruct (lookup_lt_is_Some_2 l pos) as [y Hy].
    { apply list_elem_of_lookup_1 in Hx' as [k Hk]. rewrite lookup_drop in Hk. apply lookup_lt_Some in Hk. lia. }
    specialize (Hr y Hy). unfold TimePriorityCompare in Hr. apply Z.ltb_lt in Hr.
    rewrite (drop_S _ _ _ Hy) in Hx', Hs2. apply elem_of_cons in Hx' as [->|Hx']; [unfold time_le; lia|].
    apply StronglySorted_inv in Hs2 as [_ Hf]. rewrite list.Forall_forall in Hf. specialize (Hf x Hx').
    unfold time_le in *. lia. }
  apply StronglySorted_app. split_and!; [|done|].
  - intros x y Hx1 [->|Hy]%elem_of_cons; [by apply H1|by apply Hx].
  - constructor; [done|]. by apply list.Forall_forall.
Qed.

Lemma Insert_index q tx a n : index (Insert q tx) a n =
  if decide (a = GetSourceAddress tx ∧ n = GetNonce tx)
  then Some (next_node q, next_node q) else index q a n.
Proof.
  unfold index, Insert. cbn [queue_by_address_and_nonce_].
  destruct (decide (a = GetSourceAddress tx)) as [->|Ha].
  - rewrite lookup_insert_eq. simpl. case_decide as D.
    + destruct D as [_ ->]. by rewrite lookup_insert_eq.
    + rewrite lookup_insert_ne by (intros E; by apply D).
      destruct (queue_by_address_and_nonce_ q !! _); [done|]. apply lookup_empty.
  - rewrite lookup_insert_ne by done. rewrite decide_False by naive_solver. done.
Qed.

Lemma Insert_wf q tx :
  wf q → index q (GetSourceAddress tx) (GetNonce tx) = None → hash_fresh q tx →
  is_Some (account_nonce_ q !! GetSourceAddress tx) → wf (Insert q tx).
Proof.
  intros Hw Hnone Hfresh Hacc. pose proof Hw as [W1 W2 W3 W4 W5 W6 W7 W8].
  assert (Hin : ∀ j t, (j, t) ∈ queue_ (Insert q tx) ↔ (j, t) = (next_node q, tx) ∨ (j, t) ∈ queue_ q).
  { intros j t. cbn [queue_ Insert]. by rewrite emplace_perm, elem_of_cons. }
  assert (Hno : ∀ j t, (j, t) ∈ queue_ q → ¬ (GetSourceAddress t = GetSourceAddress tx ∧ GetNonce t = GetNonce tx)).
  { intros j t Hj [E1 E2]. assert (index q (GetSourceAddress tx) (GetNonce tx) = Some (j, j)); [|congruence].
    apply W4. eauto. }
  split.
  - cbn [queue_ Insert]. rewrite emplace_perm. simpl. apply NoDup_cons. split; [|done].
    intros ([j t] & E & Hj)%list_elem_of_fmap. simpl in E. subst. apply W2 in Hj. lia.
  - intros j t [[= -> ->]|Hj]%Hin; cbn [next_node Insert]; [lia|]. apply W2 in Hj. lia.
  - cbn [queue_ time_queue_ Insert]. by rewrite !emplace_perm, W3.
  - intros a n [l r]. rewrite Insert_index. simpl. case_decide as D.
    + destruct D as [-> ->]. split.
      * intros [= <- <-]. split; [done|]. exists tx. split_and!; try done. apply Hin. by left.
      * intros (-> & t & [[= -> ->]|Ht]%Hin & E1 & E2); [done|]. by destruct (Hno _ _ Ht).
    + rewrite W4. simpl. split; intros (-> & t & Ht & E1 & E2); (split; [done|]); exists t; (split_and!; [|done..]).
      * apply Hin. by right.
      * apply Hin in Ht as [[= -> ->]|Ht]; [|done]. naive_solver.
  - intros a m. cbn [queue_by_address_and_nonce_ Insert]. rewrite lookup_insert_Some.
    intros [[_ <-]|[_ Hm]]; [apply insert_non_empty|by eapply W5].
  - intros h t. cbn [queue_by_hash_ Insert]. rewrite lookup_insert_Some, W6. setoid_rewrite Hin. split.
    + intros [[<- <-]|(Hne & Hh & j & Hj)]; [by eauto|]. split; [done|]. eauto.
    + intros (<- & j & [[= -> ->]|Hj]); [by left|right]. split_and!; [|done|eauto].
      intros E. destruct (Hfresh _ _ Hj); [done|]. by destruct (Hno _ _ Hj).
  - intros a m. cbn [queue_by_address_and_nonce_ account_nonce_ Insert]. rewrite lookup_insert_Some.
    intros [[<- _]|[_ Hm]]; [done|by eapply W7].
  - cbn [time_queue_ Insert]. unfold emplace. rewrite fmap_app, fmap_take. cbn [fmap list_fmap].
    rewrite fmap_drop. apply gap_time; [apply insert_gap|done].
Qed.
End insert.

(** ** [Import] *)

Definition holds q tx : Prop := ∃ i, (i, tx) ∈ queue_ q.

(** The configured limits are [uint32_t], and no account exceeds its share. *)
Record bounded q : Prop := {
  bd_queue : 0 ≤ queue_limit_ q < 2 ^ 32;
  bd_account : 0 ≤ account_txs_limit_ q < 2 ^ 32;
  bd_share a m : queue_by_address_and_nonce_ q !! a = Some m → Z.of_nat (size m) ≤ account_txs_limit_ q }.

Lemma set_nonce_wf q m' :
  wf q → (∀ a m, queue_by_address_and_nonce_ q !! a = Some m → is_Some (m' !! a)) →
  wf (set_account_nonce m' q).
Proof. intros [] Hm. by split. Qed.

Lemma set_nonce_insert_wf q a n : wf q → wf (set_account_nonce (<[a := n]> (account_nonce_ q)) q).
Proof.
  intros Hw. apply set_nonce_wf; [done|]. intros a' m Hm. apply (wf_nonce _ Hw) in Hm as [v Hv].
  rewrite lookup_insert. case_decide; eauto.
Qed.

Lemma set_nonce_bounded q m' : bounded q → bounded (set_account_nonce m' q).
Proof. by intros []. Qed.

Lemma unlink_bounded q i tx m :
  queue_by_address_and_nonce_ q !! GetSourceAddress tx = Some m → bounded q → bounded (unlink q i tx m).
Proof.
  intros Hm [B1 B2 B3]. split; [done..|]. intros a m'. rewrite unlink_account.
  repeat case_decide; [done| |by apply B3]. intros [= <-]. specialize (B3 _ _ Hm).
  rewrite map_size_delete. cbn [account_txs_limit_ unlink]. unfold id. destruct (m !! _); lia.
Qed.

Lemma erase_last l i tx : NoDup (l ++ [(i, tx)]).*1 → erase (l ++ [(i, tx)]) i = l.
Proof.
  rewrite fmap_app. simpl. intros (_ & Hn & _)%NoDup_app. unfold erase.
  rewrite filter_app, filter_cons, decide_False by (simpl; tauto). rewrite filter_nil, app_nil_r.
  apply filter_all. intros [j t] Hj E. simpl in E. subst.
  apply (Hn i); [|by left]. by apply (list_elem_of_fmap_2 fst) in Hj.
Qed.

(** The loop of [Import] drops the transactions of lowest priority. *)
Lemma evict_spec fuel q tx ins code :
  wf q → bounded q → (length (queue_ q) ≤ fuel)%nat →
  ∃ q' b c, evict fuel q tx ins code = Ok (q', b, c) ∧ wf q' ∧ bounded q' ∧
    queue_ q' = take (Z.to_nat (queue_limit_ q)) (queue_ q) ∧
    queue_limit_ q' = queue_limit_ q ∧ account_txs_limit_ q' = account_txs_limit_ q ∧
    account_nonce_ q' ⊆ account_nonce_ q ∧
    ((b, c) = (ins, code) ∧
       (∀ i t, (i, t) ∈ drop (Z.to_nat (queue_limit_ q)) (queue_ q) → GetContentHash t ≠ GetContentHash tx)
     ∨ (b, c) = (false, ERRCODE_TX_INSERT_QUEUE_FAIL) ∧
       ∃ i t, (i, t) ∈ drop (Z.to_nat (queue_limit_ q)) (queue_ q) ∧ GetContentHash t = GetContentHash tx).
Proof.
  revert q ins code. induction fuel as [|fuel IH]; intros q ins code Hw Hb Hf.
  - destruct (queue_ q) as [|? ?] eqn:E; simpl in Hf; [|lia]. pose proof Hb as [B1 _ _]. simpl. rewrite E. simpl.
    rewrite (proj2 (Z.leb_le _ _)) by lia. exists q, ins, code. rewrite E, take_nil, drop_nil.
    split_and!; try done. left. split; [done|]. intros i t ?%not_elem_of_nil. done.
  - simpl. pose proof Hb as [B1 _ _]. destruct (Z.leb_spec (Z.of_nat (length (queue_ q))) (queue_limit_ q)) as [Hle|Hgt].
    { exists q, ins, code. rewrite take_ge, drop_ge by lia. split_and!; try done.
      left. split; [done|]. intros i t ?%not_elem_of_nil. done. }
    destruct (last (queue_ q)) as [[i t]|] eqn:El;
      [apply last_Some in El as [l El]|apply last_None in El; rewrite El in Hgt; simpl in Hgt; lia].
    destruct (Remove_spec q (GetSourceAddress t) (GetNonce t) Hw)
      as [(j & t' & m & Hj & Ea & En & Hm & -> & Hw')|[Hno _]].
    2:{ destruct (Hno i t); [rewrite El; apply elem_of_app; right; by left|done]. }
    destruct (wf_same_key q i j t t' Hw) as [-> ->]; [rewrite El; apply elem_of_app; right; by left|done..|].
    cbn [mbind res_bind].
    assert (Eq : queue_ (unlink q j t' m) = l).
    { cbn [queue_ unlink]. rewrite El. apply erase_last. rewrite <- El. apply (wf_nodup _ Hw). }
    pose proof (unlink_bounded q j t' m Hm Hb) as Hb'.
    rewrite El, length_app in Hgt, Hf. simpl in Hgt, Hf.
    assert (Ht : take (Z.to_nat (queue_limit_ q)) (queue_ q) = take (Z.to_nat (queue_limit_ q)) l).
    { rewrite El, take_app_le by lia. done. }
    assert (Hd : drop (Z.to_nat (queue_limit_ q)) (queue_ q) = drop (Z.to_nat (queue_limit_ q)) l ++ [(j, t')]).
    { rewrite El, drop_app_le by lia. done. }
    assert (Hacc : account_nonce_ (unlink q j t' m) ⊆ account_nonce_ q).
    { cbn [account_nonce_ unlink]. case_bool_decide; [apply delete_subseteq|done]. }
    case_decide as Eh.
    + destruct (IH (unlink q j t' m) false ERRCODE_TX_INSERT_QUEUE_FAIL Hw' Hb') as (q' & b & c & He & Hwq & Hbq & Eq' & E1 & E2 & E3 & Hr);
        [rewrite Eq; lia|]. exists q', b, c. rewrite Eq in Eq'. split_and!; try done; [by rewrite Ht|by etrans|]. right.
      split; [by destruct Hr as [[-> _]|[-> _]]|]. exists j, t'. split; [|done]. rewrite Hd.
      apply elem_of_app. right. by left.
    + destruct (IH (unlink q j t' m) ins code Hw' Hb') as (q' & b & c & He & Hwq & Hbq & Eq' & E1 & E2 & E3 & Hr);
        [rewrite Eq; lia|]. exists q', b, c. rewrite Eq in Eq', Hr. split_and!; try done; [by rewrite Ht|by etrans|].
      rewrite Hd. destruct Hr as [[-> Hr]|[-> (i & u & Hu & Ehu)]]; [left|right]; (split; [done|]).
      * intros i u [Hu|Hu]%elem_of_app; [by eapply Hr|]. apply list_elem_of_singleton in Hu. by simplify_eq.
      * exists i, u. split; [|done]. apply elem_of_app. by left.
Qed.
