(* ===== verification/TxQueueProps.v ===== *)
(** * What the transaction queue promises

    [Import], [RemoveTxs], [CheckTimeoutAndDel], [TopTransaction], and the price rule. *)
From Stdlib Require Import ZArith Lia.
From stdpp Require Import base gmap list sorting strings.
From S2P Require Import Prelude TxQueue TxQueueSpec.

Open Scope Z_scope.
Implicit Types (q : TransactionQueue) (tx : TransactionFrm).

(** ** [Import] *)

Section import.
Context `{Multiset}.

Lemma unlink_index_none q i tx m :
  queue_by_address_and_nonce_ q !! GetSourceAddress tx = Some m →
  index (unlink q i tx m) (GetSourceAddress tx) (GetNonce tx) = None.
Proof. intros Hm. rewrite unlink_index by done. by rewrite decide_True. Qed.

(** The count that [Import] compares with the limit of the account is the number of
    other transactions of the account. *)
Definition others q (a : bytes) : Z :=
  match queue_by_address_and_nonce_ q !! a with Some m => Z.of_nat (size m) | None => 0 end.

(** The outcomes of the lookup in [Import]. *)
Definition replaced q tx n (o : option (TransactionQueue * bool * Z)) : Prop :=
  match o with
  | None => ∃ i old, (i, old) ∈ queue_ q ∧ GetSourceAddress old = GetSourceAddress tx ∧
      GetNonce old = GetNonce tx ∧ price_bump (GetGasPrice tx) (GetGasPrice old) = false
  | Some (q1, rep, size) =>
      wf q1 ∧ bounded q1 ∧ index q1 (GetSourceAddress tx) (GetNonce tx) = None ∧
      account_nonce_ q1 !! GetSourceAddress tx = Some n ∧
      size = others q1 (GetSourceAddress tx) ∧ (rep = true → size < account_txs_limit_ q1) ∧
      queue_limit_ q1 = queue_limit_ q ∧ account_txs_limit_ q1 = account_txs_limit_ q ∧
      (length (queue_ q1) ≤ length (queue_ q))%nat ∧
      (∀ t, holds q1 t → holds q t) ∧
      (∀ t, holds q t → holds q1 t ∨ GetSourceAddress t = GetSourceAddress tx ∧
         GetNonce t = GetNonce tx ∧ price_bump (GetGasPrice tx) (GetGasPrice t) = true)
  end.

Lemma unlink_others q i tx m :
  queue_by_address_and_nonce_ q !! GetSourceAddress tx = Some m → m !! GetNonce tx = Some (i, i) →
  others (unlink q i tx m) (GetSourceAddress tx) = Z.of_nat (size m) - 1.
Proof.
  intros Hm Hn. unfold others. rewrite unlink_account, decide_True by done.
  assert (size (delete (GetNonce tx) m) = pred (size m)) as Hs by (rewrite map_size_delete, Hn; done).
  assert (size m ≠ 0)%nat as Hpos.
  { intros E%map_size_empty_iff. by rewrite E, lookup_empty in Hn. }
  case_decide as E.
  - rewrite E, map_size_empty in Hs. lia.
  - rewrite Hs. lia.
Qed.

Lemma replace_step_spec q tx n :
  wf q → bounded q → account_nonce_ q !! GetSourceAddress tx = Some n →
  ∃ o, replace_step q tx n = Ok o ∧ replaced q tx n o.
Proof.
  intros Hw Hb Hn. unfold replace_step.
  destruct (wf_lookup q (GetSourceAddress tx) (GetNonce tx) Hw)
    as [(m & i & old & Hm & Hi & Hold & Ea & En)|[Hx _]].
  - rewrite Hm, Hi. cbn [fst]. rewrite (deref_in _ _ _ (wf_nodup _ Hw) Hold). cbn [mbind res_bind].
    destruct (price_bump _ _) eqn:Ep; [|by eexists; split; [done|]; exists i, old].
    unfold Remove_it. cbn [fst snd]. rewrite (deref_in _ _ _ (wf_nodup _ Hw) Hold). cbn [mbind res_bind].
    eexists. split; [reflexivity|]. unfold replaced. rewrite <- Ea, <- En in *. cbn [andb].
    change (mkQueue _ _ _ _ _ _ _ _) with (unlink q i old m).
    pose proof (unlink_others q i old m Hm Hi) as Ho. pose proof (bd_share _ Hb _ _ Hm) as Hsh.
    pose proof (bd_account _ Hb) as Hba.
    assert (0 ≤ others (unlink q i old m) (GetSourceAddress old)) as Hpos.
    { unfold others. case_match; lia. }
    rewrite !u32_small by (rewrite ?u32_small; lia).
    split_and!.
    + apply set_nonce_insert_wf. by apply unlink_wf.
    + apply set_nonce_bounded. by apply unlink_bounded.
    + by apply unlink_index_none.
    + apply lookup_insert_eq.
    + by rewrite <- Ho.
    + cbn [account_txs_limit_ set_account_nonce unlink]. lia.
    + done.
    + done.
    + cbn [queue_ set_account_nonce unlink]. rewrite (erase_length _ _ _ (wf_nodup _ Hw) Hold). lia.
    + intros t [j Hj]. cbn in Hj. apply elem_of_erase in Hj as [Hj _]. by exists j.
    + intros t [j Hj]. destruct (decide (j = i)) as [->|Hne].
      * right. pose proof (deref_in _ _ _ (wf_nodup _ Hw) Hj). pose proof (deref_in _ _ _ (wf_nodup _ Hw) Hold).
        assert (t = old) as -> by congruence. done.
      * left. exists j. by apply elem_of_erase.
  - unfold index in Hx. destruct (queue_by_address_and_nonce_ q !! GetSourceAddress tx) as [m|] eqn:Hm.
    + simpl in Hx. rewrite Hx. eexists. split; [reflexivity|].
      pose proof (bd_share _ Hb _ _ Hm). pose proof (bd_account _ Hb).
      split_and!; try done; try (by auto).
      * unfold index. by rewrite Hm.
      * unfold others. rewrite Hm. apply u32_small. lia.
    + eexists. split; [reflexivity|]. split_and!; try done; try (by auto).
      * unfold index. by rewrite Hm.
      * unfold others. by rewrite Hm.
Qed.

Lemma Insert_bounded q tx :
  bounded q → index q (GetSourceAddress tx) (GetNonce tx) = None →
  others q (GetSourceAddress tx) < account_txs_limit_ q → bounded (Insert q tx).
Proof.
  intros [B1 B2 B3] Hx Ho. split; [done..|]. intros a m.
  cbn [queue_by_address_and_nonce_ account_txs_limit_ Insert]. rewrite lookup_insert_Some.
  intros [[<- <-]|[_ Hm]]; [|by eapply B3]. unfold index in Hx. unfold others in Ho.
  destruct (queue_by_address_and_nonce_ q !! GetSourceAddress tx) as [m|]; simpl in *.
  - rewrite map_size_insert, Hx. lia.
  - rewrite map_size_insert, lookup_empty, map_size_empty. lia.
Qed.

Lemma Insert_holds q tx t : holds (Insert q tx) t ↔ t = tx ∨ holds q t.
Proof.
  unfold holds. cbn [queue_ Insert]. setoid_rewrite emplace_perm. setoid_rewrite elem_of_cons. split.
  - intros [i [[= -> ->]|Hi]]; eauto.
  - intros [->|[i Hi]]; eauto.
Qed.

Lemma take_holds q q' k t : queue_ q' = take k (queue_ q) → holds q' t → holds q t.
Proof. intros E [i Hi]. exists i. rewrite E in Hi. by eapply elem_of_take in Hi as (? & ?%list_elem_of_lookup_2 & _). Qed.

Lemma holds_take q q' t :
  queue_ q' = take (Z.to_nat (queue_limit_ q)) (queue_ q) → 0 ≤ queue_limit_ q → holds q t →
  holds q' t ∨ Size q' = queue_limit_ q ∧ ∃ i, (i, t) ∈ drop (Z.to_nat (queue_limit_ q)) (queue_ q).
Proof.
  intros E Hl [i Hi]. rewrite <- (take_drop (Z.to_nat (queue_limit_ q)) (queue_ q)) in Hi.
  apply elem_of_app in Hi as [Hi|Hi]; [left; exists i; by rewrite E|right]. split; [|by exists i].
  unfold Size. rewrite E, length_take. apply list_elem_of_lookup_1 in Hi as [j Hj].
  rewrite lookup_drop in Hj. apply lookup_lt_Some in Hj. lia.
Qed.

(** A list without duplicate identifiers has no node before and after a position. *)
Lemma take_drop_disjoint (l : list node) k i t t' :
  NoDup l.*1 → (i, t) ∈ take k l → (i, t') ∈ drop k l → False.
Proof.
  intros Hn H1 H2. rewrite <- (take_drop k l), fmap_app in Hn. apply NoDup_app in Hn as (_ & Hd & _).
  apply (Hd i); [by apply (list_elem_of_fmap_2 fst) in H1|by apply (list_elem_of_fmap_2 fst) in H2].
Qed.

(** Insertion followed by eviction. *)
Lemma Insert_evict_spec q tx n code :
  wf q → bounded q → hash_fresh q tx → index q (GetSourceAddress tx) (GetNonce tx) = None →
  account_nonce_ q !! GetSourceAddress tx = Some n →
  others q (GetSourceAddress tx) < account_txs_limit_ q →
  ∃ q' b c, evict (length (queue_ (Insert q tx))) (Insert q tx) tx true code = Ok (q', b, c) ∧
    wf q' ∧ bounded q' ∧ Size q' ≤ queue_limit_ q ∧
    queue_limit_ q' = queue_limit_ q ∧ account_txs_limit_ q' = account_txs_limit_ q ∧
    (b = true → holds q' tx ∧ c = code ∧ account_nonce_ q' !! GetSourceAddress tx = Some n) ∧
    (b = false → c = ERRCODE_TX_INSERT_QUEUE_FAIL ∧ ¬ holds q' tx) ∧
    (∀ t, holds q' t → t = tx ∨ holds q t) ∧
    (∀ t, holds q t → holds q' t ∨ Size q' = queue_limit_ q).
Proof.
  intros Hw Hb Hf Hx Hn Ho.
  pose proof (Insert_wf q tx Hw Hx Hf (mk_is_Some _ _ Hn)) as Hw1.
  pose proof (Insert_bounded q tx Hb Hx Ho) as Hb1.
  destruct (evict_spec (length (queue_ (Insert q tx))) (Insert q tx) tx true code Hw1 Hb1)
    as (q' & b & c & -> & Hw' & Hb' & Eq & E1 & E2 & E3 & Hr); [done|].
  pose proof (bd_queue _ Hb) as Hl. exists q', b, c. cbn [queue_limit_ account_txs_limit_ account_nonce_ Insert] in *.
  assert (Htx : holds (Insert q tx) tx) by (apply Insert_holds; by left).
  split_and!; try done.
  - unfold Size. rewrite Eq, length_take. lia.
  - intros ->. destruct Hr as [[[= <-] Hr]|[[=] _]].
    assert (holds q' tx) as Hh.
    { destruct (holds_take _ _ _ Eq (proj1 Hl) Htx) as [?|(_ & i & Hi)]; [done|]. by destruct (Hr i tx Hi). }
    split_and!; [done..|]. destruct Hh as [i Hi].
    assert (index q' (GetSourceAddress tx) (GetNonce tx) = Some (i, i)) as Hix by (apply (wf_index _ Hw'); eauto).
    unfold index in Hix. apply bind_Some in Hix as (m & Hm & _). destruct (wf_nonce _ Hw' _ _ Hm) as [v Hv].
    pose proof (lookup_weaken _ _ _ _ Hv E3). congruence.
  - intros ->. destruct Hr as [[[=] _]|[[= ->] (j & t & Hj & Eh)]]. split; [done|]. intros [i Hi]. rewrite Eq in Hi.
    assert ((j, t) ∈ queue_ (Insert q tx)) as Hin
      by (rewrite <- (take_drop (Z.to_nat (queue_limit_ q)) (queue_ _)); apply elem_of_app; by right).
    assert ((i, tx) ∈ queue_ (Insert q tx)) as Hin'
      by (rewrite <- (take_drop (Z.to_nat (queue_limit_ q)) (queue_ _)); apply elem_of_app; by left).
    destruct (wf_same_hash _ j i t tx Hw1 Hin Hin' Eh) as [-> ->].
    by eapply (take_drop_disjoint (queue_ (Insert q tx))); [apply (wf_nodup _ Hw1)|exact Hi|exact Hj].
  - intros t Ht. apply Insert_holds. by eapply take_holds.
  - intros t Ht. destruct (holds_take _ _ t Eq (proj1 Hl)) as [?|[? _]]; [apply Insert_holds; by right|by left|by right].
Qed.
End import.

(** The outcomes of [Import]. *)
Definition import_outcome q tx (n code : Z) (r : TransactionQueue * bool * Z) : Prop :=
  let '(q', b, c) := r in
  (b = true → holds q' tx ∧ c = code ∧ account_nonce_ q' !! GetSourceAddress tx = Some n) ∧
  (b = false → c = ERRCODE_TX_INSERT_QUEUE_FAIL ∧ (holds q' tx → holds q tx)) ∧
  (∀ t, holds q' t → t = tx ∨ holds q t) ∧
  (∀ t, holds q t → holds q' t
     ∨ (GetSourceAddress t = GetSourceAddress tx ∧ GetNonce t = GetNonce tx ∧
        price_bump (GetGasPrice tx) (GetGasPrice t) = true)
     ∨ Size q' = queue_limit_ q').

(** The invariant of the queue between operations. *)
Definition good q : Prop := wf q ∧ bounded q ∧ Size q ≤ queue_limit_ q.

Lemma Import_lemma `{Multiset} q tx n code :
  good q → hash_fresh q tx →
  ∃ r, Import q tx n code = Ok r ∧ good r.1.1 ∧ import_outcome q tx n code r.
Proof.
  intros (Hw & Hb & Hs) Hf. unfold Import.
  set (q0 := set_account_nonce _ q).
  assert (Hw0 : wf q0) by (by apply set_nonce_insert_wf).
  destruct (replace_step_spec q0 tx n Hw0 (set_nonce_bounded _ _ Hb)) as (o & -> & Ho); [apply lookup_insert_eq|].
  cbn [mbind res_bind]. destruct o as [[[q1 rep] sz]|].
  2:{ eexists (q0, false, _). unfold good, import_outcome. cbn [fst snd]. split_and!; try done; [by apply set_nonce_bounded|..];
      intros t Ht; [right|left]; exact Ht. }
  destruct Ho as (Hw1 & Hb1 & Hx & Hn & Hsz & Hrep & L1 & L2 & Hlen & Hold & Hnew).
  destruct (rep || (sz <? account_txs_limit_ q1)) eqn:Ec.
  - assert (sz < account_txs_limit_ q1) as Hlt.
    { apply orb_prop in Ec as [->|Ec]; [by apply Hrep|by apply Z.ltb_lt]. }
    assert (Hf1 : hash_fresh q1 tx).
    { intros i t Hi. destruct (Hold t) as [j Hj]; [by exists i|]. by apply (Hf j t). }
    destruct (Insert_evict_spec q1 tx n code Hw1 Hb1 Hf1 Hx Hn) as (q' & b & c & -> & Hw' & Hb' & S1 & S2 & S3 & P1 & P2 & P3 & P4);
      [lia|]. cbn [mbind res_bind].
    rewrite (proj2 (Z.leb_gt _ _)) by lia. exists (q', b, c). unfold good, import_outcome. cbn [fst snd]. split_and!; try done.
    + lia.
    + intros E. destruct (P2 E) as [? Hno]. split; [done|]. by intros ?%Hno.
    + intros t Ht. destruct (P3 t Ht) as [->|Ht']; [by left|right]. by apply (Hold t).
    + intros t Ht. destruct (Hnew t Ht) as [Ht'|?]; [|auto]. destruct (P4 t Ht'); [by left|]. right. right. lia.
  - apply orb_false_iff in Ec as [-> Ec]. apply Z.ltb_ge in Ec. cbn [mbind res_bind mret res_ret].
    rewrite (proj2 (Z.leb_le _ _)) by lia. eexists (q1, false, _). unfold good, import_outcome. cbn [fst snd]. split_and!; try done.
    + unfold Size in *. rewrite L1. simpl. simpl in Hlen. lia.
    + intros _. split; [done|]. apply Hold.
    + intros t Ht. right. by apply (Hold t).
    + intros t Ht. destruct (Hnew t Ht); auto.
Qed.

(** ** Removal *)

Lemma Remove_good q a n : good q →
  ∃ q' o, Remove q a n = Ok (q', o) ∧ good q' ∧
    (∀ t, holds q' t ↔ holds q t ∧ ¬ (GetSourceAddress t = a ∧ GetNonce t = n)) ∧
    (∀ t, o = Some t ↔ holds q t ∧ GetSourceAddress t = a ∧ GetNonce t = n).
Proof.
  intros (Hw & Hb & Hs).
  destruct (Remove_spec q a n Hw) as [(i & tx & m & Hi & <- & <- & Hm & -> & Hw')|[Hno ->]].
  - eexists _, _. split; [done|]. unfold good. split_and!.
    + done.
    + by apply unlink_bounded.
    + unfold Size in *. cbn [queue_ queue_limit_ unlink]. rewrite (erase_length _ _ _ (wf_nodup _ Hw) Hi) in Hs. lia.
    + intros t. split.
      * intros [j [Hj Hne]%elem_of_erase]. split; [by exists j|]. intros [E1 E2].
        by destruct (wf_same_key q j i t tx).
      * intros [[j Hj] Hne]. exists j. apply elem_of_erase. split; [done|]. intros ->. apply Hne.
        pose proof (deref_in _ _ _ (wf_nodup _ Hw) Hj). pose proof (deref_in _ _ _ (wf_nodup _ Hw) Hi).
        by assert (t = tx) as -> by congruence.
    + intros t. split; [intros [= <-]; split; [by exists i|done]|]. intros ([j Hj] & E1 & E2).
      destruct (wf_same_key q j i t tx Hw Hj Hi E1 E2). congruence.
  - exists q, None. split_and!; try done.
    + intros t. split; [|by intros []]. intros [j Hj]. split; [by exists j|]. by eapply Hno.
    + intros t. split; [done|]. intros ([j Hj] & E). by destruct (Hno j t Hj).
Qed.

Lemma RemoveTx_good q a n close : good q →
  ∃ q' b, RemoveTx q a n close = Ok (q', b) ∧ good q' ∧
    (∀ t, holds q' t ↔ holds q t ∧ ¬ (GetSourceAddress t = a ∧ GetNonce t = n)).
Proof.
  intros Hg. unfold RemoveTx. destruct (Remove_good q a n Hg) as (q' & o & -> & (Hw & Hb & Hs) & Hh & _).
  cbn [mbind res_bind]. eexists _, _. split; [reflexivity|]. case_match; [|done].
  case_match; [|done]. unfold good. split_and!; [by apply set_nonce_insert_wf|by apply set_nonce_bounded|done|done].
Qed.

(** The keys of a transaction set. *)
Definition named (keys : list (bytes * Z)) tx : Prop := (GetSourceAddress tx, GetNonce tx) ∈ keys.

Lemma RemoveTxs_set_good set close : ∀ q ret, good q →
  ∃ q' r, RemoveTxs_set q set close ret = Ok (q', r) ∧ good q' ∧
    ∀ t, holds q' t ↔ holds q t ∧ ¬ named ((λ e, (source_address e, nonce e)) <$> set) t.
Proof.
  induction set as [|e set IH]; intros q ret Hg; simpl.
  { eexists q, _. split_and!; try done. intros t. split; [|tauto]. intros. split; [done|]. by intros ?%not_elem_of_nil. }
  destruct (RemoveTx_good q (source_address e) (nonce e) close Hg) as (q1 & b & -> & Hg1 & Hh1).
  cbn [mbind res_bind]. destruct (IH q1 (if b then ret + 1 else ret) Hg1) as (q' & r & -> & Hg' & Hh').
  exists q', r. split_and!; [done..|]. intros t. rewrite Hh', Hh1. unfold named. rewrite elem_of_cons.
  assert ((GetSourceAddress t, GetNonce t) = (source_address e, nonce e) ↔
    GetSourceAddress t = source_address e ∧ GetNonce t = nonce e) as -> by (split; [by intros [= -> ->]|by intros [-> ->]]).
  tauto.
Qed.

Lemma RemoveTxs_good txs close : ∀ q, good q →
  ∃ q', RemoveTxs q txs close = Ok q' ∧ good q' ∧
    ∀ t, holds q' t ↔ holds q t ∧ ¬ named ((λ t, (GetSourceAddress t, GetNonce t)) <$> txs) t.
Proof.
  induction txs as [|e txs IH]; intros q Hg; simpl.
  { exists q. split_and!; try done. intros t. split; [|tauto]. intros. split; [done|]. by intros ?%not_elem_of_nil. }
  destruct (RemoveTx_good q (GetSourceAddress e) (GetNonce e) close Hg) as (q1 & b & -> & Hg1 & Hh1).
  cbn [mbind res_bind]. destruct (IH q1 Hg1) as (q' & -> & Hg' & Hh').
  exists q'. split_and!; [done..|]. intros t. rewrite Hh', Hh1. unfold named. rewrite elem_of_cons.
  assert ((GetSourceAddress t, GetNonce t) = (GetSourceAddress e, GetNonce e) ↔
    GetSourceAddress t = GetSourceAddress e ∧ GetNonce t = GetNonce e) as -> by (split; [by intros [= -> ->]|by intros [-> ->]]).
  tauto.
Qed.

(** ** Timeouts *)

Lemma holds_time q t : wf q → holds q t ↔ t ∈ (time_queue_ q).*2.
Proof.
  intros Hw. unfold holds. rewrite list_elem_of_fmap. setoid_rewrite (wf_time _ Hw). split.
  - intros [i Hi]. by exists (i, t).
  - intros ([i t'] & -> & Hi). by exists i.
Qed.

Lemma timeout_loop_good expire_time : ∀ fuel q acc, good q → (length (time_queue_ q) ≤ fuel)%nat →
  ∃ q', timeout_loop fuel q expire_time acc =
      Ok (q', acc ++ filter (λ t, tx_CheckTimeout t expire_time = true) (time_queue_ q).*2) ∧
    good q' ∧ ∀ t, holds q' t ↔ holds q t ∧ expire_time ≤ GetInComingTime t.
Proof.
  induction fuel as [|fuel IH]; intros q acc Hg Hf.
  { destruct (time_queue_ q) as [|] eqn:E; simpl in Hf; [|lia]. simpl. rewrite E. simpl. rewrite app_nil_r.
    exists q. split_and!; try done. intros t. pose proof Hg as (Hw & _). rewrite (holds_time q t Hw), E.
    split; [by intros ?%not_elem_of_nil|tauto]. }
  pose proof Hg as (Hw & _). simpl. pose proof (wf_sorted _ Hw) as Hsort. pose proof (wf_time _ Hw) as Hp.
  destruct (time_queue_ q) as [|[i t] l] eqn:E.
  { rewrite app_nil_r. exists q. split_and!; try done. intros t. rewrite (holds_time q t Hw), E.
    split; [by intros ?%not_elem_of_nil|tauto]. }
  simpl in Hsort. apply StronglySorted_inv in Hsort as [_ Hle]. rewrite list.Forall_forall in Hle.
  destruct (tx_CheckTimeout t expire_time) eqn:Et.
  - destruct (Remove_spec q (GetSourceAddress t) (GetNonce t) Hw)
      as [(j & t' & m & Hj & E1 & E2 & Hm & Hr & _)|[Hno _]].
    2:{ destruct (Hno i t); [rewrite <- Hp; by left|done]. }
    assert ((i, t) ∈ queue_ q) as Hit by (rewrite <- Hp; by left).
    destruct (wf_same_key q j i t' t Hw Hj Hit E1 E2) as [-> ->].
    destruct (Remove_good q (GetSourceAddress t) (GetNonce t) Hg) as (q1 & o & Hr' & Hg1 & Hh1 & _).
    assert (time_queue_ q1 = l) as El.
    { rewrite Hr in Hr'. injection Hr' as <- _. cbn [time_queue_ unlink]. rewrite E. unfold erase.
      rewrite filter_cons, decide_False by (simpl; tauto). apply filter_all. intros [k u] Hk Eu. simpl in Eu. subst k.
      pose proof (wf_nodup _ Hw) as Hn. rewrite <- Hp in Hn. simpl in Hn. apply NoDup_cons in Hn as [Hn _].
      apply Hn. by apply (list_elem_of_fmap_2 fst) in Hk. }
    rewrite Hr'. cbn [mbind res_bind]. destruct (IH q1 (acc ++ [t]) Hg1) as (q' & -> & Hg' & Hh').
    { rewrite El. simpl in Hf. lia. }
    exists q'. rewrite El. cbn [fmap list_fmap]. simpl. rewrite filter_cons, decide_True by done.
    rewrite <- app_assoc. split_and!; [done..|]. intros u. rewrite Hh', Hh1. unfold tx_CheckTimeout in Et.
    apply Z.ltb_lt in Et. split; [tauto|]. intros [Hu Hx]. split_and!; [done| |done]. intros [E3 E4].
    destruct Hu as [k Hk]. destruct (wf_same_key q k i u t Hw Hk Hit E3 E4) as [-> ->].
    unfold GetInComingTime in Hx. lia.
  - exists q. assert (Hall : ∀ u, holds q u → expire_time ≤ GetInComingTime u).
    { intros u Hu. rewrite (holds_time q u Hw), E in Hu. unfold tx_CheckTimeout in Et. apply Z.ltb_ge in Et.
      apply elem_of_cons in Hu as [->|Hu]; [done|]. specialize (Hle _ Hu). unfold time_le, GetInComingTime in *. lia. }
    split_and!; try done.
    + rewrite <- (app_nil_r acc) at 1. do 3 f_equal. symmetry. apply filter_none.
      intros u Hu Hx. apply Z.ltb_lt in Hx. assert (holds q u) as Hu' by (by apply (holds_time q u Hw); rewrite E).
      specialize (Hall u Hu'). unfold GetInComingTime in Hall. lia.
    + intros u. split; [|tauto]. intros Hu. split; [done|]. by apply Hall.
Qed.

(** ** [TopTransaction] *)

Section top.
Context (ByteSize : TransactionEnv → Z) (set_ByteSize : list TransactionEnv → Z).

(** The nonces that a set holds for an account, in order. *)
Definition nonces_of (a : bytes) (set : list TransactionEnv) : list Z :=
  nonce <$> filter (λ e, source_address e = a) set.

Lemma nonces_of_snoc a set e :
  nonces_of a (set ++ [e]) =
  nonces_of a set ++ (if decide (source_address e = a) then [nonce e] else []).
Proof.
  unfold nonces_of. rewrite filter_app, fmap_app. f_equal. rewrite filter_cons. by case_decide.
Qed.

Lemma top_loop_nonce l limit : ∀ set i sz topic brk m a,
  is_Some (m !! a) →
  (top_loop ByteSize set_ByteSize l limit set i sz topic brk m).2 !! a = m !! a.
Proof.
  induction l as [|[j tx] l IH]; intros set i sz topic brk m a Ha; simpl; [done|].
  case_match; [done|]. case_match; [done|]. case_match; [by apply IH|].
  destruct (topic !! GetSourceAddress tx) as [s|]; [case_match; by apply IH|].
  assert (E : <[GetSourceAddress tx := default 0 (m !! GetSourceAddress tx)]> m !! a = m !! a).
  { destruct Ha as [v Hv]. rewrite lookup_insert. case_decide; [subst; by rewrite Hv|done]. }
  case_match; rewrite IH; rewrite ?E; done.
Qed.

Lemma TopTransaction_good q limit : good q → good (TopTransaction ByteSize set_ByteSize q limit).1.
Proof.
  intros (Hw & Hb & Hs). unfold TopTransaction.
  pose proof (top_loop_nonce (queue_ q) limit [] 0 0 ∅ ∅ (account_nonce_ q)) as Hn.
  destruct (top_loop _ _ _ _ _ _ _ _ _ _) as [set m]. cbn [fst snd] in *.
  unfold good. split_and!; [|by apply set_nonce_bounded|done]. apply set_nonce_wf; [done|].
  intros a mm Hm. pose proof (wf_nonce _ Hw _ _ Hm) as Ha. by rewrite Hn.
Qed.

Lemma top_loop_limit l limit : ∀ set i sz topic brk m, 0 ≤ limit →
  Z.of_nat (length set) ≤ limit →
  Z.of_nat (length (top_loop ByteSize set_ByteSize l limit set i sz topic brk m).1) ≤ limit.
Proof.
  induction l as [|[j tx] l IH]; intros set i sz topic brk m H0 Hl; simpl; [done|].
  case_match eqn:E1; [done|]. apply Z.leb_gt in E1. case_match; [done|]. case_match; [by apply IH|].
  destruct (topic !! GetSourceAddress tx) as [s|]; case_match; apply IH; try done;
    rewrite length_app; simpl; lia.
Qed.

(** What the loop has selected so far from the account [a] with nonce [n0]: the
    consecutive nonces after [n0], up to the last one in [topic]. *)
Definition progress (n0 : Z) (topic : option Z) (ns : list Z) : Prop :=
  ns = seqZ (n0 + 1) (default n0 topic - n0) ∧ n0 ≤ default n0 topic.

Lemma progress_next n0 topic ns n :
  progress n0 topic ns → n = default n0 topic + 1 → progress n0 (Some n) (ns ++ [n]).
Proof.
  intros [-> Hle] ->. split; simpl; [|lia].
  replace (default n0 topic + 1 - n0) with ((default n0 topic - n0) + 1) by lia.
  rewrite seqZ_app by lia. f_equal.
  replace (n0 + 1 + (default n0 topic - n0)) with (default n0 topic + 1) by lia. done.
Qed.

(** The later transactions of an account have larger nonces. *)
Definition ascending (l : list TransactionFrm) : Prop :=
  StronglySorted (λ x y, GetSourceAddress x = GetSourceAddress y → GetNonce x < GetNonce y) l.

Lemma top_loop_contiguous l limit (n0 : bytes → Z) : ∀ set i sz topic brk m,
  ascending l.*2 →
  (∀ a, topic !! a = None → nonce_of m a = n0 a) →
  (∀ a, progress (n0 a) (topic !! a) (nonces_of a set)) →
  (∀ t, t ∈ l.*2 → default (n0 (GetSourceAddress t)) (topic !! GetSourceAddress t) < GetNonce t) →
  (∀ t, t ∈ l.*2 → GetNonce t < 2 ^ 63) → (∀ a, - 2 ^ 63 ≤ n0 a) →
  ∀ a, ∃ s, progress (n0 a) s
    (nonces_of a (top_loop ByteSize set_ByteSize l limit set i sz topic brk m).1).
Proof.
  induction l as [|[j tx] l IH]; intros set i sz topic brk m Hasc Hm Hp Hlt Hmax Hmin a; simpl; [by eexists|].
  case_match; [by eexists|]. case_match; [by eexists|].
  simpl in Hasc. apply StronglySorted_inv in Hasc as [Hasc Hhd]. rewrite list.Forall_forall in Hhd.
  assert (Hlt' : ∀ t, t ∈ l.*2 → default (n0 (GetSourceAddress t)) (topic !! GetSourceAddress t) < GetNonce t)
    by (intros t Ht; apply Hlt; by right).
  assert (Hmax' : ∀ t, t ∈ l.*2 → GetNonce t < 2 ^ 63) by (intros t Ht; apply Hmax; by right).
  destruct (brk !! GetSourceAddress tx); [by apply IH|].
  set (b := GetSourceAddress tx) in *.
  set (last := default (n0 b) (topic !! b)).
  pose proof (Hlt tx (list_elem_of_here _ _)) as Hn. fold b last in Hn.
  pose proof (Hmax tx (list_elem_of_here _ _)) as Hx.
  assert (n0 b ≤ last) as Hle by (apply Hp).
  assert (Hi64 : i64 (last + 1) = last + 1) by (apply i64_small; specialize (Hmin b); lia).
  assert (E : (match topic !! b with
               | Some s => (s, m)
               | None => (default 0 (m !! b), <[b := default 0 (m !! b)]> m)
               end) = (last, match topic !! b with Some _ => m | None => <[b := last]> m end)).
  { unfold last. destruct (topic !! b) as [s|] eqn:Et; [done|]. simpl. by rewrite <- (Hm b Et). }
  rewrite E, Hi64. set (m' := match topic !! b with Some _ => m | None => _ end).
  assert (Hm' : ∀ c, topic !! c = None → nonce_of m' c = n0 c).
  { intros c Hc. unfold m'. destruct (topic !! b) as [s|] eqn:Et; [by apply Hm|]. unfold nonce_of.
    rewrite lookup_insert. case_decide as Ec; [subst c|by apply Hm]. unfold last. by rewrite ?Et. }
  clearbody m'. clear E. destruct (Z.ltb_spec (last + 1) (GetNonce tx)) as [_|Eg]; [by apply IH|].
  assert (GetNonce tx = last + 1) as En by lia.
  apply IH; try done.
  - intros c. rewrite lookup_insert. case_decide; [done|]. apply Hm'.
  - intros c. rewrite nonces_of_snoc, lookup_insert. change (source_address (transaction_env_ tx)) with b.
    change (nonce (transaction_env_ tx)) with (GetNonce tx). case_decide as Ec.
    + subst c. by apply progress_next with (topic := topic !! b).
    + rewrite app_nil_r. apply Hp.
  - intros t Ht. rewrite lookup_insert. case_decide as Ec; [|by apply Hlt']. simpl. by apply Hhd.
Qed.
End top.

(** The transactions of the queue are not applied yet. *)
Definition pending q : Prop := ∀ i t, (i, t) ∈ queue_ q →
  0 ≤ nonce_of (account_nonce_ q) (GetSourceAddress t) < GetNonce t ∧ GetNonce t < 2 ^ 63.

(** A queue sorted by priority lists the transactions of an account by nonce. *)
Lemma sorted_ascending q :
  wf q → pending q →
  StronglySorted (λ x y, PriorityCompare (account_nonce_ q) y x = false) (queue_ q).*2 →
  ascending (queue_ q).*2.
Proof.
  intros Hw Hr Hs. assert (Hsub : queue_ q `sublist_of` queue_ q) by done.
  revert Hs Hsub. generalize (queue_ q) at 1 2 4. intros l. induction l as [|[i x] l IH]; intros Hs Hsub; [constructor|].
  simpl in *. apply StronglySorted_inv in Hs as [Hs Hf].
  constructor; [apply IH; [done|]; etrans; [|exact Hsub]; by constructor|].
  rewrite list.Forall_forall in *. intros y Hy Ea. specialize (Hf y Hy).
  apply list_elem_of_fmap in Hy as ([j y'] & -> & Hy). simpl in *.
  assert (Hix : (i, x) ∈ queue_ q) by (eapply elem_of_sublist; [|exact Hsub]; by left).
  assert (Hiy : (j, y') ∈ queue_ q) by (eapply elem_of_sublist; [|exact Hsub]; by right).
  pose proof (Hr _ _ Hix) as Rx. pose proof (Hr _ _ Hiy) as Ry.
  unfold PriorityCompare, height in Hf. rewrite <- Ea in *. rewrite !i64_small in Hf by lia.
  apply orb_false_iff in Hf as [Hf _]. apply Z.ltb_ge in Hf.
  assert (GetNonce x ≠ GetNonce y'); [|lia]. intros En.
  destruct (wf_same_key q i j x y' Hw Hix Hiy Ea En) as [-> ->].
  assert (NoDup ((j, y') :: l)) as Hn.
  { eapply sublist_NoDup; [|exact Hsub]. eapply NoDup_fmap_1, (wf_nodup _ Hw). }
  apply NoDup_cons in Hn as [Hn _]. done.
Qed.

(** ** The price rule *)

(** The comparison of [d * 2^55] with the rounded product. *)
Lemma tenth_cmp p d k s :
  let m := p * 3602879701896397 in
  0 ≤ p < 2 ^ 49 → 0 ≤ s → 2 * Z.abs (m - k * 2 ^ s) ≤ 2 ^ s →
  (s = 0 → k = m ∧ m < 2 ^ 53) → (0 < s → 2 ^ (52 + s) ≤ m < 2 ^ (53 + s)) →
  k * 2 ^ s ≤ d * 2 ^ 55 ↔ p ≤ 10 * d.
Proof.
  intros m Hp Hs Hk H0 Hr. destruct (Z.eq_dec s 0) as [->|Hne].
  { destruct (H0 eq_refl) as [-> Hm]. rewrite Z.mul_1_r. unfold m in *. lia. }
  specialize (Hr ltac:(lia)). assert (s < 50) as Hs50.
  { assert (52 + s < 102); [|lia]. apply (Z.pow_lt_mono_r_iff 2); [lia..|]. unfold m in Hr. lia. }
  rewrite !Z.pow_add_r in Hr by lia.
  set (B := 2 ^ s) in *. set (T := 2 ^ (55 - s)).
  assert (T * B = 2 ^ 55) as ETB.
  { unfold T, B. rewrite <- Z.pow_add_r by lia. f_equal. lia. }
  assert (32 ≤ T) as HT by (unfold T; change 32 with (2 ^ 5); apply Z.pow_le_mono_r; lia).
  assert (0 < B) as HB by (apply Z.pow_pos_nonneg; lia).
  assert (d * 2 ^ 55 = d * T * B) as Ed by (rewrite <- ETB; ring).
  assert (32 * B ≤ 2 ^ 55) as H32 by (rewrite <- ETB; nia).
  clearbody B T. unfold m in *. split.
  - intros Hle. lia.
  - intros Hle. destruct (Z.le_gt_cases (k * B) (d * 2 ^ 55)) as [|Hgt]; [done|exfalso].
    assert (d * T + 1 ≤ k) as Hk1 by (rewrite Ed in Hgt; nia).
    assert (d * 2 ^ 55 + B ≤ k * B) by (rewrite Ed; nia). lia.
Qed.
