(* ===== verification/TxQueueClaims.v ===== *)
(** * Theorems about the transaction queue *)
From Stdlib Require Import ZArith Lia.
From stdpp Require Import base gmap list sorting strings.
From S2P Require Import Prelude TxQueue TxQueueSpec TxQueueProps.

Open Scope Z_scope.
Implicit Types (q : TransactionQueue) (tx : TransactionFrm).

(** ** Sequences of operations *)

Inductive queue_op :=
  | QImport tx (cur_source_nonce : Z)
  | QRemoveSet (set : list TransactionEnv) (close_ledger : bool)
  | QRemoveTxs (txs : list TransactionFrm) (close_ledger : bool)
  | QSafeRemove (account_address : bytes) (nonce : Z)
  | QTimeout (current_time : Z)
  | QTop (limit : Z).

Section runs.
Context `{Multiset} (ByteSize : TransactionEnv → Z) (set_ByteSize : list TransactionEnv → Z).

Definition queue_exec q (o : queue_op) : res TransactionQueue :=
  match o with
  | QImport tx n => '(q, _, _) ← Import q tx n 0; mret q
  | QRemoveSet set close => '(q, _) ← RemoveTxs_set q set close 0; mret q
  | QRemoveTxs txs close => RemoveTxs q txs close
  | QSafeRemove a n => SafeRemoveTx q a n
  | QTimeout now => '(q, _) ← CheckTimeoutAndDel q now []; mret q
  | QTop limit => mret (TopTransaction ByteSize set_ByteSize q limit).1
  end.

Fixpoint queue_run q (ops : list queue_op) : res TransactionQueue :=
  match ops with [] => mret q | o :: ops => q ← queue_exec q o; queue_run q ops end.

Fixpoint imports (ops : list queue_op) : list TransactionFrm :=
  match ops with
  | [] => []
  | QImport tx _ :: ops => tx :: imports ops
  | _ :: ops => imports ops
  end.

(** Equal hashes mean the same account and nonce. *)
Definition no_collision (P : TransactionFrm → Prop) : Prop :=
  ∀ t t', P t → P t' → GetContentHash t = GetContentHash t' →
    GetSourceAddress t = GetSourceAddress t' ∧ GetNonce t = GetNonce t'.

Lemma exec_good q o : good q →
  (∀ tx n, o = QImport tx n → hash_fresh q tx) →
  ∃ q', queue_exec q o = Ok q' ∧ good q' ∧
    ∀ t, holds q' t → holds q t ∨ ∃ n, o = QImport t n.
Proof.
  intros Hg Hf. destruct o; simpl.
  - destruct (Import_lemma q tx cur_source_nonce 0 Hg) as ([[q' b] c] & -> & Hg' & _ & _ & Hh & _); [by eapply Hf|].
    exists q'. split_and!; try done. intros t Ht. destruct (Hh t Ht) as [->|]; eauto.
  - destruct (RemoveTxs_set_good set close_ledger q 0 Hg) as (q' & r & -> & Hg' & Hh).
    exists q'. split_and!; try done. intros t Ht%Hh. tauto.
  - destruct (RemoveTxs_good txs close_ledger q Hg) as (q' & -> & Hg' & Hh).
    exists q'. split_and!; try done. intros t Ht%Hh. tauto.
  - unfold SafeRemoveTx. destruct (Remove_good q account_address nonce Hg) as (q' & o & -> & Hg' & Hh & _).
    exists q'. split_and!; try done. intros t Ht%Hh. tauto.
  - unfold CheckTimeoutAndDel.
    destruct (timeout_loop_good (expire current_time) (length (time_queue_ q)) q [] Hg) as (q' & -> & Hg' & Hh); [done|].
    exists q'. split_and!; try done. intros t Ht%Hh. tauto.
  - eexists. split; [done|]. split; [by apply TopTransaction_good|]. intros t Ht. left.
    unfold TopTransaction in Ht. by destruct (top_loop _ _ _ _ _ _ _ _ _ _).
Qed.

Lemma run_good ops : ∀ q, good q → no_collision (λ t, holds q t ∨ t ∈ imports ops) →
  ∃ q', queue_run q ops = Ok q' ∧ good q'.
Proof.
  induction ops as [|o ops IH]; intros q Hg Hc; simpl; [by exists q|].
  destruct (exec_good q o Hg) as (q1 & -> & Hg1 & Hh).
  { intros tx n -> i t Hi. apply Hc; [left; by exists i|right; simpl; by left]. }
  cbn [mbind res_bind]. apply IH; [done|]. intros t t' Ht Ht'.
  assert (Himp : ∀ u, u ∈ imports ops → u ∈ imports (o :: ops)).
  { intros u Hu. destruct o; simpl; try done. by right. }
  apply Hc.
  - destruct Ht as [Ht|]; [destruct (Hh t Ht) as [|[n ->]]; [by left|right; by left]|right; auto].
  - destruct Ht' as [Ht'|]; [destruct (Hh t' Ht') as [|[n ->]]; [by left|right; by left]|right; auto].
Qed.
End runs.

Lemma new_good l1 l2 : 0 ≤ l1 < 2 ^ 32 → 0 ≤ l2 < 2 ^ 32 → good (new_TransactionQueue l1 l2).
Proof.
  intros H1 H2. unfold good, Size. split_and!; [|by split|simpl; lia]. split; simpl; try done.
  - constructor.
  - intros i tx ?%not_elem_of_nil. done.
  - intros a n it. split; [done|]. by intros (_ & tx & ?%not_elem_of_nil & _).
  - intros h tx. split; [done|]. by intros (_ & i & ?%not_elem_of_nil).
  - constructor.
Qed.

(** C36: the queue never faults and stays consistent.  From an empty queue with [uint32_t]
    limits, any sequence of imports, removals, timeouts and selections runs to the end
    without a fault (no dangling iterator, no endless loop), and leaves the two
    multisets and both indexes describing the same transactions, at most [queue_limit]
    of them and at most [account_txs_limit] per account. *)
Theorem queue_run_good `{Multiset} ByteSize set_ByteSize l1 l2 ops :
  0 ≤ l1 < 2 ^ 32 → 0 ≤ l2 < 2 ^ 32 → no_collision (λ t, t ∈ imports ops) →
  ∃ q, queue_run ByteSize set_ByteSize (new_TransactionQueue l1 l2) ops = Ok q ∧
    wf q ∧ bounded q ∧ Size q ≤ queue_limit_ q.
Proof.
  intros H1 H2 Hc. destruct (run_good ByteSize set_ByteSize ops (new_TransactionQueue l1 l2) (new_good _ _ H1 H2))
    as (q & Hr & Hw & Hb & Hs); [|by exists q].
  intros t t' [[i Hi]|Ht] [[j Hj]|Ht'];
    [by apply not_elem_of_nil in Hi|by apply not_elem_of_nil in Hi|by apply not_elem_of_nil in Hj|by apply Hc].
Qed.

(** ** Concrete transactions *)

Definition tx_of (a : string) (n price time : Z) (h : string) : TransactionFrm :=
  mkTx (mkEnv (str a) n price []) (str h) time.

Definition tA1 : TransactionFrm := tx_of "A" 1 100 10 "a1".
Definition tA1' : TransactionFrm := tx_of "A" 1 110 11 "a1bis".
Definition tA2 : TransactionFrm := tx_of "A" 2 100 12 "a2".
Definition tB1 : TransactionFrm := tx_of "B" 1 500 13 "b1".
Definition demo_ops : list queue_op :=
  [QImport tA2 0; QImport tA1 0; QImport tB1 0; QImport tA1' 0; QTop 10;
   QRemoveSet [transaction_env_ tB1] true; QTimeout (600 * 1000000 + 12)].

Lemma queue_run_good_witness :
  ∃ q, @queue_run linear_multiset (λ _, 100) (λ l, 100 * Z.of_nat (length l)) (new_TransactionQueue 10 5) demo_ops = Ok q ∧
    wf q ∧ bounded q ∧ Size q ≤ queue_limit_ q.
Proof.
  apply (@queue_run_good linear_multiset (λ _, 100) (λ l, 100 * Z.of_nat (length l)) 10 5 demo_ops); [lia|lia|].
  intros t t' Ht Ht'. simpl in Ht, Ht'. rewrite !elem_of_cons, elem_of_nil in Ht, Ht'.
  destruct Ht as [->|[->|[->|[->|[]]]]], Ht' as [->|[->|[->|[->|[]]]]]; vm_compute; intros E; split; congruence.
Defined.

(** Three imported transactions, in priority order. *)
Definition demo_queue : TransactionQueue :=
  match @queue_run linear_multiset (λ _, 100) (λ _, 100) (new_TransactionQueue 10 5)
          [QImport tA2 0; QImport tA1 0; QImport tB1 0] with
  | Ok q => q
  | Err _ => new_TransactionQueue 10 5
  end.

Lemma demo_queue_good : good demo_queue.
Proof.
  destruct (@run_good linear_multiset (λ _, 100) (λ _, 100) [QImport tA2 0; QImport tA1 0; QImport tB1 0]
    (new_TransactionQueue 10 5)) as (q & Hq & Hg); [apply new_good; lia| |].
  - intros t t' [[i Hi]|Ht] [[j Hj]|Ht'];
      [by apply not_elem_of_nil in Hi|by apply not_elem_of_nil in Hi|by apply not_elem_of_nil in Hj|].
    simpl in Ht, Ht'. rewrite !elem_of_cons, elem_of_nil in Ht, Ht'.
    destruct Ht as [->|[->|[->|[]]]], Ht' as [->|[->|[->|[]]]]; vm_compute; intros E; split; congruence.
  - unfold demo_queue. by rewrite Hq.
Qed.

Lemma demo_queue_content : queue_ demo_queue = [(2%nat, tB1); (1%nat, tA1); (0%nat, tA2)].
Proof. vm_compute. reflexivity. Qed.

(** C37: [Import] answers [true] only when the transaction is in the queue, with the nonce
    of its account recorded; otherwise it reports ERRCODE_TX_INSERT_QUEUE_FAIL, and the
    transaction is in the queue only if it was there before.  Nothing else enters the queue,
    and a transaction leaves it only when the new one has the same account and nonce and a
    sufficiently higher price, or when the queue is full. *)
Theorem Import_spec `{Multiset} q tx n code :
  wf q → bounded q → Size q ≤ queue_limit_ q → hash_fresh q tx →
  ∃ q' b c, Import q tx n code = Ok (q', b, c) ∧
    (b = true → holds q' tx ∧ c = code ∧ account_nonce_ q' !! GetSourceAddress tx = Some n) ∧
    (b = false → c = ERRCODE_TX_INSERT_QUEUE_FAIL ∧ (holds q' tx → holds q tx)) ∧
    (∀ t, holds q' t → t = tx ∨ holds q t) ∧
    (∀ t, holds q t → holds q' t
       ∨ (GetSourceAddress t = GetSourceAddress tx ∧ GetNonce t = GetNonce tx ∧
          price_bump (GetGasPrice tx) (GetGasPrice t) = true)
       ∨ Size q' = queue_limit_ q').
Proof.
  intros Hw Hb Hs Hf. destruct (Import_lemma q tx n code (conj Hw (conj Hb Hs)) Hf) as ([[q' b] c] & -> & _ & Ho).
  by exists q', b, c.
Qed.

Lemma Import_spec_witness :
  ∃ q' b c, @Import linear_multiset demo_queue tA1' 0 0 = Ok (q', b, c) ∧
    (b = true → holds q' tA1' ∧ c = 0 ∧ account_nonce_ q' !! GetSourceAddress tA1' = Some 0).
Proof.
  destruct demo_queue_good as (Hw & Hb & Hs).
  destruct (@Import_spec linear_multiset demo_queue tA1' 0 0 Hw Hb Hs) as (q' & b & c & E & Ht & _).
  - intros i t Hi. rewrite demo_queue_content, !elem_of_cons, elem_of_nil in Hi.
    destruct Hi as [[= -> ->]|[[= -> ->]|[[= -> ->]|[]]]]; vm_compute; intros E; split; congruence.
  - exists q', b, c. split; [exact E|exact Ht].
Defined.

(** The test [(new - p) >= (p * 0.1)] in double precision is exact: for prices below
    [2^49] a transaction replaces a pending one exactly when it pays at least ten percent
    more. *)
Theorem price_bump_exact new p :
  0 ≤ p < 2 ^ 49 → 0 ≤ new < 2 ^ 49 → price_bump new p = true ↔ p ≤ 10 * (new - p).
Proof.
  intros Hp Hn. unfold price_bump. rewrite i64_small by lia.
  rewrite !double_of_int_small by lia. unfold double_mul, one_tenth. cbn [fst snd].
  replace (0 + -55) with (-55) by lia.
  destruct (rnd53_near (p * 3602879701896397) (-55)) as (k & s & -> & Hs & Hk & H0 & Hr); [lia|].
  rewrite <- (tenth_cmp p (new - p) k s Hp Hs Hk H0 Hr).
  assert (Hs50 : s < 52).
  { destruct (Z.eq_dec s 0) as [->|]; [done|]. assert (52 + s < 102); [|lia].
    apply (Z.pow_lt_mono_r_iff 2); [lia..|]. lia. }
  unfold double_ge. cbn [fst snd]. rewrite Z.min_r by lia. rewrite Z.leb_le.
  replace (-55 + s - (-55 + s)) with 0 by lia. replace (0 - (-55 + s)) with (55 - s) by lia.
  replace (2 ^ 55) with (2 ^ (55 - s) * 2 ^ s) by (rewrite <- Z.pow_add_r by lia; f_equal; lia).
  assert (0 < 2 ^ s) by (apply Z.pow_pos_nonneg; lia). nia.
Qed.

Lemma price_bump_exact_witness : price_bump 110 100 = true ↔ 100 ≤ 10 * (110 - 100).
Proof. apply (price_bump_exact 110 100); lia. Defined.

(** [CheckTimeoutAndDel] removes exactly the transactions that arrived more than
    QUEUE_TRANSACTION_TIMEOUT before [current_time], and appends them to [timeout_txs] in
    order of arrival. *)
Theorem CheckTimeoutAndDel_spec q current_time timeout_txs :
  wf q → bounded q → Size q ≤ queue_limit_ q →
  ∃ q' expired, CheckTimeoutAndDel q current_time timeout_txs = Ok (q', timeout_txs ++ expired) ∧
    (∀ t, holds q' t ↔ holds q t ∧ expire current_time ≤ GetInComingTime t) ∧
    (∀ t, t ∈ expired ↔ holds q t ∧ GetInComingTime t < expire current_time) ∧
    StronglySorted (λ x y, GetInComingTime x ≤ GetInComingTime y) expired.
Proof.
  intros Hw Hb Hs. unfold CheckTimeoutAndDel.
  destruct (timeout_loop_good (expire current_time) (length (time_queue_ q)) q timeout_txs (conj Hw (conj Hb Hs)))
    as (q' & -> & _ & Hh); [done|]. eexists _, _. split; [done|]. split; [done|]. split.
  - intros t. rewrite list_elem_of_filter, (holds_time q t Hw). unfold tx_CheckTimeout. rewrite Z.ltb_lt.
    unfold GetInComingTime. tauto.
  - eapply sorted_sublist; [|exact (wf_sorted _ Hw)]. generalize (time_queue_ q).*2. intros l.
    induction l; [done|]. rewrite filter_cons. case_decide; by constructor.
Qed.

Lemma CheckTimeoutAndDel_spec_witness :
  let now := 600 * 1000000 + 12 in
  ∃ q' expired, CheckTimeoutAndDel demo_queue now [] = Ok (q', [] ++ expired) ∧
    (∀ t, holds q' t ↔ holds demo_queue t ∧ expire now ≤ GetInComingTime t).
Proof.
  intros now. destruct demo_queue_good as (Hw & Hb & Hs).
  destruct (CheckTimeoutAndDel_spec demo_queue now [] Hw Hb Hs) as (q' & e & E & Hh & _).
  exists q', e. split; [exact E|exact Hh].
Defined.

(** [TopTransaction] selects at most [limit] transactions, and when the queue is in
    priority order and its transactions are not applied yet, the selected transactions of
    every account have the consecutive nonces that follow the nonce of the account. *)
Theorem TopTransaction_contiguous ByteSize set_ByteSize q limit a :
  wf q → pending q → 0 ≤ limit → (∀ b, 0 ≤ nonce_of (account_nonce_ q) b) →
  StronglySorted (λ x y, PriorityCompare (account_nonce_ q) y x = false) (queue_ q).*2 →
  let set := (TopTransaction ByteSize set_ByteSize q limit).2 in
  Z.of_nat (length set) ≤ limit ∧
  ∃ k, 0 ≤ k ∧ nonces_of a set = seqZ (nonce_of (account_nonce_ q) a + 1) k.
Proof.
  intros Hw Hp Hl Hn Hs set. subst set. unfold TopTransaction.
  pose proof (top_loop_limit ByteSize set_ByteSize (queue_ q) limit [] 0 0 ∅ ∅ (account_nonce_ q) Hl Hl) as H1.
  destruct (top_loop_contiguous ByteSize set_ByteSize (queue_ q) limit (nonce_of (account_nonce_ q))
    [] 0 0 ∅ ∅ (account_nonce_ q)) with (a := a) as [s [E Hle]]; try done.
  - by apply sorted_ascending.
  - intros b. split; [|done]. simpl. by rewrite Z.sub_diag.
  - intros t ([i t'] & -> & Hi)%list_elem_of_fmap. rewrite lookup_empty. simpl. by apply (Hp i).
  - intros t ([i t'] & -> & Hi)%list_elem_of_fmap. by apply (Hp i).
  - intros b. specialize (Hn b). lia.
  - destruct (top_loop _ _ _ _ _ _ _ _ _ _) as [set m]. simpl in *. split; [done|].
    eexists. split; [|exact E]. lia.
Qed.

Lemma demo_queue_accounts : map_to_list (account_nonce_ demo_queue) = [(str "B", 0); (str "A", 0)].
Proof. vm_compute. reflexivity. Qed.

Lemma demo_queue_nonces b : nonce_of (account_nonce_ demo_queue) b = 0.
Proof.
  unfold nonce_of. destruct (account_nonce_ demo_queue !! b) as [v|] eqn:E; [|done].
  apply elem_of_map_to_list in E. rewrite demo_queue_accounts in E.
  rewrite !elem_of_cons, elem_of_nil in E. by destruct E as [[= -> ->]|[[= -> ->]|[]]].
Qed.

Lemma demo_queue_sorted :
  StronglySorted (λ x y, PriorityCompare (account_nonce_ demo_queue) y x = false) (queue_ demo_queue).*2.
Proof.
  rewrite demo_queue_content. pose proof demo_queue_nonces as Hm. revert Hm.
  generalize (account_nonce_ demo_queue). intros m Hm.
  repeat constructor; cbn [snd]; unfold PriorityCompare, height; rewrite !Hm; reflexivity.
Qed.

Lemma TopTransaction_contiguous_witness :
  ∃ k, 0 ≤ k ∧ nonces_of (str "A") (TopTransaction (λ _, 100) (λ _, 100) demo_queue 10).2 =
    seqZ (nonce_of (account_nonce_ demo_queue) (str "A") + 1) k.
Proof.
  apply (TopTransaction_contiguous (λ _, 100) (λ _, 100) demo_queue 10 (str "A")).
  - exact (proj1 demo_queue_good).
  - intros i t Hi. rewrite demo_queue_nonces. rewrite demo_queue_content in Hi.
    rewrite !elem_of_cons, elem_of_nil in Hi.
    destruct Hi as [[= -> ->]|[[= -> ->]|[[= -> ->]|[]]]]; vm_compute; split_and!; congruence.
  - lia.
  - intros b. by rewrite demo_queue_nonces.
  - exact demo_queue_sorted.
Defined.

(** The order of the priority multiset is not restored when the nonce of an account
    advances, so [TopTransaction] can miss an executable transaction.  Here account A has
    transaction 6 in the queue when its nonce becomes 5; transaction 7, imported then, is
    placed before transaction 6, and the selection is empty although transaction 6 is the
    next one of its account. *)
Theorem stale_order_hides_transaction :
  (λ q, ((queue_ q).*2, nonce_of (account_nonce_ q) (str "A"),
         (TopTransaction (λ _, 100) (λ _, 100) q 10).2)) <$>
    @queue_run linear_multiset (λ _, 100) (λ _, 100) (new_TransactionQueue 10 5)
      [QImport (tx_of "B" 5 100 1 "b5") 0; QImport (tx_of "A" 6 100 2 "a6") 0;
       QRemoveSet [mkEnv (str "A") 5 100 []] true; QImport (tx_of "A" 7 100 3 "a7") 5]
  = Ok ([tx_of "A" 7 100 3 "a7"; tx_of "B" 5 100 1 "b5"; tx_of "A" 6 100 2 "a6"], 5, []).
Proof. vm_compute. reflexivity. Qed.
