(* ===== verification/TxSet.v ===== *)
(** * Transaction sets (src/src/glue/transaction_set.h, transaction_set.cpp)

    [TransactionSetFrm::Add] builds the transaction set of a block, and [TopicKey]
    orders transactions by account and sequence number. *)
From Stdlib Require Import ZArith Lia.
From stdpp Require Import base gmap list strings.
From S2P Require Import Prelude TxQueue TxQueueSpec TxQueueProps.

Open Scope Z_scope.

Record TransactionSetFrm := mkTxSet {
  raw_txs_ : list TransactionEnv; topic_seqs_ : gmap bytes Z }.

Definition new_TransactionSetFrm : TransactionSetFrm := mkTxSet [] ∅.
Definition TransactionSetFrm_of (env : list TransactionEnv) : TransactionSetFrm := mkTxSet env ∅.

Section add.
(** The nonce of an account in the database ([Environment::AccountFromDB]), and the
    protobuf sizes of an envelope and of a set. *)
Context (AccountFromDB : bytes → option Z).
Context (ByteSize : TransactionEnv → Z) (set_ByteSize : list TransactionEnv → Z).

Definition last_seq (s : TransactionSetFrm) (a : bytes) : Z :=
  match topic_seqs_ s !! a with Some n => n | None => default 0 (AccountFromDB a) end.

(** 1: added; 0: not now; -1: already applied. *)
Definition Add (s : TransactionSetFrm) (tx : TransactionFrm) : TransactionSetFrm * Z :=
  if TXSET_LIMIT_SIZE <=? set_ByteSize (raw_txs_ s) + ByteSize (transaction_env_ tx) then (s, 0) else
  let last := last_seq s (GetSourceAddress tx) in
  if i64 (last + 1) <? GetNonce tx then (s, 0)
  else if GetNonce tx <=? last then (s, -1)
  else (mkTxSet (raw_txs_ s ++ [transaction_env_ tx])
          (<[GetSourceAddress tx := GetNonce tx]> (topic_seqs_ s)), 1).

Definition GetRaw (s : TransactionSetFrm) : list TransactionEnv := raw_txs_ s.
Definition set_Size (s : TransactionSetFrm) : Z := Z.of_nat (length (raw_txs_ s)).

Definition add_all (s : TransactionSetFrm) (txs : list TransactionFrm) : TransactionSetFrm :=
  foldl (λ s tx, (Add s tx).1) s txs.

(** For every account the set holds the nonces that follow the one of the database. *)
Definition set_ok (s : TransactionSetFrm) : Prop :=
  ∀ a, progress (default 0 (AccountFromDB a)) (topic_seqs_ s !! a) (nonces_of a (raw_txs_ s)).

Context (Hdb : ∀ a, 0 ≤ default 0 (AccountFromDB a)).

Lemma last_seq_default s a : last_seq s a = default (default 0 (AccountFromDB a)) (topic_seqs_ s !! a).
Proof. unfold last_seq. by destruct (_ !! _). Qed.

Lemma Add_ok s tx : GetNonce tx < 2 ^ 63 → set_ok s → set_ok (Add s tx).1.
Proof.
  intros Hx Hs. unfold Add. case_match; [done|].
  destruct (Z.ltb_spec (i64 (last_seq s (GetSourceAddress tx) + 1)) (GetNonce tx)) as [|H1]; [done|].
  destruct (Z.leb_spec (GetNonce tx) (last_seq s (GetSourceAddress tx))) as [|H2]; [done|].
  pose proof (Hs (GetSourceAddress tx)) as [_ Hle]. rewrite <- last_seq_default in Hle.
  pose proof (Hdb (GetSourceAddress tx)).
  rewrite i64_small in H1 by lia. intros b. cbn [raw_txs_ topic_seqs_ fst].
  rewrite nonces_of_snoc, lookup_insert. change (source_address (transaction_env_ tx)) with (GetSourceAddress tx).
  case_decide as Eb; [subst b|rewrite app_nil_r; apply Hs].
  change (nonce (transaction_env_ tx)) with (GetNonce tx).
  eapply progress_next; [apply Hs|]. rewrite <- last_seq_default. lia.
Qed.

Lemma add_all_ok txs : ∀ s, (∀ t, t ∈ txs → GetNonce t < 2 ^ 63) → set_ok s → set_ok (add_all s txs).
Proof.
  induction txs as [|t txs IH]; intros s Hx Hs; [done|]. apply IH.
  - intros u Hu. apply Hx. by right.
  - apply Add_ok; [apply Hx; by left|done].
Qed.
End add.

(** Whatever transactions are offered, in whatever order, a transaction set built with
    [Add] holds for every account the consecutive nonces after the nonce of the account in
    the database. *)
Theorem Add_contiguous AccountFromDB ByteSize set_ByteSize txs a :
  (∀ b, 0 ≤ default 0 (AccountFromDB b)) → (∀ t, t ∈ txs → GetNonce t < 2 ^ 63) →
  ∃ k, 0 ≤ k ∧
    nonces_of a (GetRaw (add_all AccountFromDB ByteSize set_ByteSize new_TransactionSetFrm txs)) =
    seqZ (default 0 (AccountFromDB a) + 1) k.
Proof.
  intros Hdb Hx. destruct (add_all_ok AccountFromDB ByteSize set_ByteSize Hdb txs new_TransactionSetFrm Hx) with (a := a)
    as [E Hle].
  - intros b. cbn [topic_seqs_ raw_txs_ new_TransactionSetFrm]. rewrite lookup_empty.
    split; [|done]. simpl. by rewrite Z.sub_diag.
  - eexists. split; [|exact E]. lia.
Qed.

Lemma Add_contiguous_witness :
  ∃ k, 0 ≤ k ∧
    nonces_of (str "A") (GetRaw (add_all (λ _, Some 4) (λ _, 10) (λ _, 10) new_TransactionSetFrm
      [mkTx (mkEnv (str "A") 6 1 []) (str "x") 0; mkTx (mkEnv (str "A") 5 1 []) (str "y") 0;
       mkTx (mkEnv (str "A") 6 1 []) (str "x") 0])) = seqZ (default 0 (Some 4) + 1) k.
Proof.
  apply (Add_contiguous (λ _, Some 4) (λ _, 10) (λ _, 10)).
  - intros b. simpl. lia.
  - intros t Ht. rewrite !elem_of_cons, elem_of_nil in Ht. destruct Ht as [->|[->|[->|[]]]]; vm_compute; reflexivity.
Defined.

(** ** [TopicKey] *)

Record TopicKey := mkTopicKey { topic_ : bytes; sequence_ : Z }.

(** [std::string] comparison: byte values, then length. *)
Fixpoint string_ltb (s t : bytes) : bool :=
  match s, t with
  | _, [] => false
  | [], _ :: _ => true
  | a :: s, b :: t => if uchar a <? uchar b then true else (uchar a =? uchar b) && string_ltb s t
  end.

Definition TopicKey_lt (x y : TopicKey) : bool :=
  if string_ltb (topic_ x) (topic_ y) then true
  else bool_decide (topic_ x = topic_ y) && (sequence_ x <? sequence_ y).

Lemma uchar_inj a b : uchar a = uchar b → a = b.
Proof.
  unfold uchar. intros E%N2Z.inj. apply (f_equal Strings.Byte.of_N) in E.
  rewrite !Strings.Byte.of_to_N in E. by injection E.
Qed.

Lemma string_ltb_irrefl s : string_ltb s s = false.
Proof. induction s as [|a s IH]; simpl; [done|]. by rewrite Z.ltb_irrefl, Z.eqb_refl. Qed.

Lemma string_ltb_cons a s b t :
  string_ltb (a :: s) (b :: t) = true ↔
  uchar a < uchar b ∨ uchar a = uchar b ∧ string_ltb s t = true.
Proof. simpl. destruct (Z.ltb_spec (uchar a) (uchar b)); rewrite ?andb_true_iff, ?Z.eqb_eq; intuition lia. Qed.

Lemma string_ltb_trans s t u : string_ltb s t = true → string_ltb t u = true → string_ltb s u = true.
Proof.
  revert t u. induction s as [|a s IH]; intros [|b t] [|c u]; try done.
  rewrite !string_ltb_cons. intros [?|[? H1]] [?|[? H2]]; [left; lia..|right]. split; [lia|]. by eapply IH.
Qed.

Lemma string_ltb_total s t : s ≠ t → string_ltb s t = true ∨ string_ltb t s = true.
Proof.
  revert t. induction s as [|a s IH]; intros [|b t] Hne; simpl; auto.
  destruct (Z.ltb_spec (uchar a) (uchar b)); [by left|]. destruct (Z.ltb_spec (uchar b) (uchar a)); [by right|].
  assert (a = b) as -> by (apply uchar_inj; lia). rewrite Z.eqb_refl. apply IH. congruence.
Qed.

(** [TopicKey::operator<] is a strict total order, as the keys of a [std::map] need:
    irreflexive, transitive, and total on different keys. *)
Theorem TopicKey_lt_strict_total x y z :
  TopicKey_lt x x = false ∧
  implb (TopicKey_lt x y && TopicKey_lt y z) (TopicKey_lt x z) = true ∧
  (TopicKey_lt x y || TopicKey_lt y x || bool_decide (topic_ x = topic_ y ∧ sequence_ x = sequence_ y) = true).
Proof.
  unfold TopicKey_lt. split_and!.
  - by rewrite string_ltb_irrefl, Z.ltb_irrefl, andb_false_r.
  - apply Bool.implb_true_iff. rewrite andb_true_iff. intros [H1 H2].
    destruct (string_ltb (topic_ x) (topic_ y)) eqn:E1, (string_ltb (topic_ y) (topic_ z)) eqn:E2.
    + by rewrite (string_ltb_trans _ _ _ E1 E2).
    + apply andb_true_iff in H2 as [E%bool_decide_eq_true _]. by rewrite <- E, E1.
    + apply andb_true_iff in H1 as [E%bool_decide_eq_true _]. by rewrite E, E2.
    + apply andb_true_iff in H1 as [E%bool_decide_eq_true H1], H2 as [E'%bool_decide_eq_true H2].
      case_match; [done|]. rewrite bool_decide_eq_true_2 by congruence. simpl. lia.
  - destruct (decide (topic_ x = topic_ y)) as [E|E].
    + rewrite E, string_ltb_irrefl, !bool_decide_eq_true_2 by done. simpl.
      destruct (Z.lt_total (sequence_ x) (sequence_ y)) as [|[|]].
      * by rewrite (proj2 (Z.ltb_lt _ _)).
      * rewrite (bool_decide_eq_true_2 (_ ∧ _)) by done. apply orb_true_r.
      * rewrite (proj2 (Z.ltb_lt (sequence_ y) (sequence_ x))) by done. by rewrite orb_true_r.
    + destruct (string_ltb_total _ _ E) as [-> | ->]; [done|]. by rewrite orb_true_r.
Qed.
