(* ===== verification/PbftMsg.v ===== *)
(** * PBFT messages and instances

    The messages of src/src/proto/consensus.proto and the records of
    src/src/consensus/bft_instance.h: [PbftInstance] (one proposal) and
    [PbftVcInstance] (one view change), with their small predicates
    (bft_instance.cpp).  An unset sub-message reads as the default one. *)
From Stdlib Require Import ZArith Lia.
From stdpp Require Import base gmap list sorting.
From S2P Require Import Prelude.

Open Scope Z_scope.

(** ** Messages *)

Inductive PbftMessageType :=
  | PBFT_TYPE_PREPREPARE | PBFT_TYPE_PREPARE | PBFT_TYPE_COMMIT | PBFT_TYPE_VIEWCHANGE
  | PBFT_TYPE_NEWVIEW | PBFT_TYPE_VIEWCHANG_WITH_RAWVALUE | PBFT_TYPE_UNKNOWN (n : Z).

#[global] Instance PbftMessageType_eq_dec : EqDecision PbftMessageType.
Proof. solve_decision. Defined.

Definition type_number (t : PbftMessageType) : Z :=
  match t with
  | PBFT_TYPE_PREPREPARE => 0 | PBFT_TYPE_PREPARE => 1 | PBFT_TYPE_COMMIT => 2
  | PBFT_TYPE_VIEWCHANGE => 3 | PBFT_TYPE_NEWVIEW => 4 | PBFT_TYPE_VIEWCHANG_WITH_RAWVALUE => 5
  | PBFT_TYPE_UNKNOWN n => n
  end.

Record PbftPrePrepare := mkPrePrepare {
  pp_view_number : Z; pp_sequence : Z; pp_replica_id : Z; pp_value : bytes; pp_value_digest : bytes }.

Record PbftPrepare := mkPrepare {
  p_view_number : Z; p_sequence : Z; p_replica_id : Z; p_value_digest : bytes }.

Record PbftCommit := mkCommit {
  c_view_number : Z; c_sequence : Z; c_replica_id : Z; c_value_digest : bytes }.

Record PbftViewChange := mkViewChange {
  vc_view_number : Z; vc_sequence : Z; vc_prepred_value_digest : bytes; vc_replica_id : Z }.

Record Signature := mkSignature { public_key : bytes; sign_data : bytes }.

(** [PbftEnv], [Pbft], [PbftPreparedSet], [PbftViewChangeWithRawValue] and [PbftNewView]
    contain each other. *)
Inductive PbftEnv : Type :=
  mkPbftEnv { env_pbft : option Pbft; env_signature : Signature }
with Pbft : Type :=
  mkPbft {
    round_number : Z; pbft_type : PbftMessageType; pbft_pre_prepare : option PbftPrePrepare;
    pbft_prepare : option PbftPrepare; pbft_commit : option PbftCommit;
    pbft_view_change : option PbftViewChange; pbft_new_view : option PbftNewView;
    pbft_rawvalue : option PbftViewChangeWithRawValue; chain_id : Z }
with PbftPreparedSet : Type :=
  mkPreparedSet { ps_pre_prepare : option PbftEnv; ps_prepare : list PbftEnv }
with PbftViewChangeWithRawValue : Type :=
  mkRawValue { raw_view_change_env : option PbftEnv; raw_prepared_set : option PbftPreparedSet }
with PbftNewView : Type :=
  mkNewView {
    nv_view_number : Z; nv_sequence : Z; nv_replica_id : Z;
    nv_view_changes : list PbftEnv; nv_pre_prepare : option PbftEnv }.

(** Default instances, and reading through unset fields. *)
Definition no_pre_prepare : PbftPrePrepare := mkPrePrepare 0 0 0 [] [].
Definition no_prepare : PbftPrepare := mkPrepare 0 0 0 [].
Definition no_commit : PbftCommit := mkCommit 0 0 0 [].
Definition no_view_change : PbftViewChange := mkViewChange 0 0 [] 0.
Definition no_signature : Signature := mkSignature [] [].
Definition no_pbft : Pbft := mkPbft 0 PBFT_TYPE_PREPREPARE None None None None None None 0.
Definition no_env : PbftEnv := mkPbftEnv None no_signature.
Definition no_prepared_set : PbftPreparedSet := mkPreparedSet None [].
Definition no_rawvalue : PbftViewChangeWithRawValue := mkRawValue None None.
Definition no_new_view : PbftNewView := mkNewView 0 0 0 [] None.

Definition pbft_of (env : PbftEnv) : Pbft := default no_pbft (env_pbft env).
Definition pre_prepare_of (p : Pbft) : PbftPrePrepare := default no_pre_prepare (pbft_pre_prepare p).
Definition prepare_of (p : Pbft) : PbftPrepare := default no_prepare (pbft_prepare p).
Definition commit_of (p : Pbft) : PbftCommit := default no_commit (pbft_commit p).
Definition view_change_of (p : Pbft) : PbftViewChange := default no_view_change (pbft_view_change p).
Definition new_view_of (p : Pbft) : PbftNewView := default no_new_view (pbft_new_view p).
Definition rawvalue_of (p : Pbft) : PbftViewChangeWithRawValue := default no_rawvalue (pbft_rawvalue p).
Definition has_pbft (env : PbftEnv) : bool := bool_decide (is_Some (env_pbft env)).

Definition GetMessageType (env : PbftEnv) : PbftMessageType := pbft_type (pbft_of env).

Definition GetSeq (env : PbftEnv) : Z :=
  let p := pbft_of env in
  match pbft_type p with
  | PBFT_TYPE_PREPREPARE => pp_sequence (pre_prepare_of p)
  | PBFT_TYPE_PREPARE => p_sequence (prepare_of p)
  | PBFT_TYPE_COMMIT => c_sequence (commit_of p)
  | PBFT_TYPE_VIEWCHANGE => vc_sequence (view_change_of p)
  | PBFT_TYPE_NEWVIEW => nv_sequence (new_view_of p)
  | _ => 0
  end.

Definition GetValue (env : PbftEnv) : list bytes :=
  let p := pbft_of env in
  let value_of (o : option PbftEnv) := pp_value (pre_prepare_of (pbft_of (default no_env o))) in
  match pbft_type p with
  | PBFT_TYPE_PREPREPARE =>
      match pbft_pre_prepare p with Some pp => [pp_value pp] | None => [] end
  | PBFT_TYPE_VIEWCHANG_WITH_RAWVALUE =>
      match pbft_rawvalue p with
      | Some raw => [value_of (ps_pre_prepare (default no_prepared_set (raw_prepared_set raw)))]
      | None => []
      end
  | PBFT_TYPE_NEWVIEW =>
      match pbft_new_view p with Some nv => [value_of (nv_pre_prepare nv)] | None => [] end
  | _ => []
  end.

(** ** [PbftInstance] *)

Inductive PbftInstancePhase :=
  PBFT_PHASE_NONE | PBFT_PHASE_PREPREPARED | PBFT_PHASE_PREPARED | PBFT_PHASE_COMMITED.

#[global] Instance PbftInstancePhase_eq_dec : EqDecision PbftInstancePhase.
Proof. solve_decision. Defined.

Definition phase_number (p : PbftInstancePhase) : nat :=
  match p with
  | PBFT_PHASE_NONE => 0 | PBFT_PHASE_PREPREPARED => 1 | PBFT_PHASE_PREPARED => 2
  | PBFT_PHASE_COMMITED => 3
  end.

Definition PBFT_PHASE_MAX : nat := 4.

(** Times in microseconds. *)
Definition g_pbft_vcinstance_timeout : Z := 60 * 1000000.
Definition g_pbft_instance_timeout : Z := 30 * 1000000.
Definition g_pbft_commit_send_interval : Z := 15 * 1000000.
Definition g_pbft_newview_send_interval : Z := 15 * 1000000.

Inductive CheckValueResult := CHECK_VALUE_VALID | CHECK_VALUE_MAYVALID | CHECK_VALUE_INVALID.
#[global] Instance CheckValueResult_eq_dec : EqDecision CheckValueResult.
Proof. solve_decision. Defined.

Record PbftInstance := mkInstance {
  phase_ : PbftInstancePhase;
  phase_item_ : nat;
  pre_prepare_ : PbftPrePrepare;
  prepares_ : gmap Z PbftPrepare;
  commits_ : gmap Z PbftCommit;
  msg_buf_ : list (list PbftEnv);
  pre_prepare_msg_ : PbftEnv;
  start_time_ : Z;
  end_time_ : Z;
  last_propose_time_ : Z;
  last_commit_send_time_ : Z;
  have_send_viewchange_ : bool;
  pre_prepare_round_ : Z;
  commit_round_ : Z;
  check_value_result_ : CheckValueResult }.

Definition new_PbftInstance (now : Z) : PbftInstance :=
  mkInstance PBFT_PHASE_NONE 0 no_pre_prepare ∅ ∅ (replicate PBFT_PHASE_MAX []) no_env
    now 0 now 0 false 1 1 CHECK_VALUE_VALID.

(** Setters. *)
Definition set_phase (p : PbftInstancePhase) (i : PbftInstance) : PbftInstance :=
  mkInstance p 0 (pre_prepare_ i) (prepares_ i) (commits_ i) (msg_buf_ i) (pre_prepare_msg_ i)
    (start_time_ i) (end_time_ i) (last_propose_time_ i) (last_commit_send_time_ i)
    (have_send_viewchange_ i) (pre_prepare_round_ i) (commit_round_ i) (check_value_result_ i).
Definition set_phase_item (n : nat) (i : PbftInstance) : PbftInstance :=
  mkInstance (phase_ i) n (pre_prepare_ i) (prepares_ i) (commits_ i) (msg_buf_ i) (pre_prepare_msg_ i)
    (start_time_ i) (end_time_ i) (last_propose_time_ i) (last_commit_send_time_ i)
    (have_send_viewchange_ i) (pre_prepare_round_ i) (commit_round_ i) (check_value_result_ i).
Definition set_pre_prepare (pp : PbftPrePrepare) (i : PbftInstance) : PbftInstance :=
  mkInstance (phase_ i) (phase_item_ i) pp (prepares_ i) (commits_ i) (msg_buf_ i) (pre_prepare_msg_ i)
    (start_time_ i) (end_time_ i) (last_propose_time_ i) (last_commit_send_time_ i)
    (have_send_viewchange_ i) (pre_prepare_round_ i) (commit_round_ i) (check_value_result_ i).
Definition set_prepares (m : gmap Z PbftPrepare) (i : PbftInstance) : PbftInstance :=
  mkInstance (phase_ i) (phase_item_ i) (pre_prepare_ i) m (commits_ i) (msg_buf_ i) (pre_prepare_msg_ i)
    (start_time_ i) (end_time_ i) (last_propose_time_ i) (last_commit_send_time_ i)
    (have_send_viewchange_ i) (pre_prepare_round_ i) (commit_round_ i) (check_value_result_ i).
Definition set_commits (m : gmap Z PbftCommit) (i : PbftInstance) : PbftInstance :=
  mkInstance (phase_ i) (phase_item_ i) (pre_prepare_ i) (prepares_ i) m (msg_buf_ i) (pre_prepare_msg_ i)
    (start_time_ i) (end_time_ i) (last_propose_time_ i) (last_commit_send_time_ i)
    (have_send_viewchange_ i) (pre_prepare_round_ i) (commit_round_ i) (check_value_result_ i).
Definition set_msg_buf (b : list (list PbftEnv)) (i : PbftInstance) : PbftInstance :=
  mkInstance (phase_ i) (phase_item_ i) (pre_prepare_ i) (prepares_ i) (commits_ i) b (pre_prepare_msg_ i)
    (start_time_ i) (end_time_ i) (last_propose_time_ i) (last_commit_send_time_ i)
    (have_send_viewchange_ i) (pre_prepare_round_ i) (commit_round_ i) (check_value_result_ i).
Definition set_pre_prepare_msg (e : PbftEnv) (i : PbftInstance) : PbftInstance :=
  mkInstance (phase_ i) (phase_item_ i) (pre_prepare_ i) (prepares_ i) (commits_ i) (msg_buf_ i) e
    (start_time_ i) (end_time_ i) (last_propose_time_ i) (last_commit_send_time_ i)
    (have_send_viewchange_ i) (pre_prepare_round_ i) (commit_round_ i) (check_value_result_ i).
Definition set_end_time (t : Z) (i : PbftInstance) : PbftInstance :=
  mkInstance (phase_ i) (phase_item_ i) (pre_prepare_ i) (prepares_ i) (commits_ i) (msg_buf_ i) (pre_prepare_msg_ i)
    (start_time_ i) t (last_propose_time_ i) (last_commit_send_time_ i)
    (have_send_viewchange_ i) (pre_prepare_round_ i) (commit_round_ i) (check_value_result_ i).
Definition SetLastProposeTime (t : Z) (i : PbftInstance) : PbftInstance :=
  mkInstance (phase_ i) (phase_item_ i) (pre_prepare_ i) (prepares_ i) (commits_ i) (msg_buf_ i) (pre_prepare_msg_ i)
    (start_time_ i) (end_time_ i) t (last_commit_send_time_ i)
    (have_send_viewchange_ i) (pre_prepare_round_ i) (commit_round_ i) (check_value_result_ i).
Definition SetLastCommitSendTime (t : Z) (i : PbftInstance) : PbftInstance :=
  mkInstance (phase_ i) (phase_item_ i) (pre_prepare_ i) (prepares_ i) (commits_ i) (msg_buf_ i) (pre_prepare_msg_ i)
    (start_time_ i) (end_time_ i) (last_propose_time_ i) t
    (have_send_viewchange_ i) (pre_prepare_round_ i) (commit_round_ i) (check_value_result_ i).
Definition set_have_send_viewchange (b : bool) (i : PbftInstance) : PbftInstance :=
  mkInstance (phase_ i) (phase_item_ i) (pre_prepare_ i) (prepares_ i) (commits_ i) (msg_buf_ i) (pre_prepare_msg_ i)
    (start_time_ i) (end_time_ i) (last_propose_time_ i) (last_commit_send_time_ i)
    b (pre_prepare_round_ i) (commit_round_ i) (check_value_result_ i).
Definition set_pre_prepare_round (n : Z) (i : PbftInstance) : PbftInstance :=
  mkInstance (phase_ i) (phase_item_ i) (pre_prepare_ i) (prepares_ i) (commits_ i) (msg_buf_ i) (pre_prepare_msg_ i)
    (start_time_ i) (end_time_ i) (last_propose_time_ i) (last_commit_send_time_ i)
    (have_send_viewchange_ i) n (commit_round_ i) (check_value_result_ i).
Definition set_commit_round (n : Z) (i : PbftInstance) : PbftInstance :=
  mkInstance (phase_ i) (phase_item_ i) (pre_prepare_ i) (prepares_ i) (commits_ i) (msg_buf_ i) (pre_prepare_msg_ i)
    (start_time_ i) (end_time_ i) (last_propose_time_ i) (last_commit_send_time_ i)
    (have_send_viewchange_ i) (pre_prepare_round_ i) n (check_value_result_ i).
Definition set_check_value_result (r : CheckValueResult) (i : PbftInstance) : PbftInstance :=
  mkInstance (phase_ i) (phase_item_ i) (pre_prepare_ i) (prepares_ i) (commits_ i) (msg_buf_ i) (pre_prepare_msg_ i)
    (start_time_ i) (end_time_ i) (last_propose_time_ i) (last_commit_send_time_ i)
    (have_send_viewchange_ i) (pre_prepare_round_ i) (commit_round_ i) r.

Definition IsExpire (i : PbftInstance) (current_time : Z) : bool :=
  (g_pbft_instance_timeout <=? current_time - start_time_ i) &&
  (phase_number (phase_ i) <? phase_number PBFT_PHASE_COMMITED)%nat.

Definition NeedSendAgain (i : PbftInstance) (current_time : Z) : bool :=
  (g_pbft_instance_timeout / 4 <=? current_time - last_propose_time_ i) &&
  (phase_number (phase_ i) <? phase_number PBFT_PHASE_COMMITED)%nat.

Definition NeedSendCommitAgain (i : PbftInstance) (current_time : Z) : bool :=
  negb (last_commit_send_time_ i =? 0) &&
  (g_pbft_commit_send_interval <=? current_time - last_commit_send_time_ i) &&
  (phase_number PBFT_PHASE_PREPARED <=? phase_number (phase_ i))%nat.

(** ** [PbftVcInstance]

    [seq] is not initialised by the constructors: its value there is a parameter. *)
Record PbftVcInstance := mkVcInstance {
  view_change_msg_ : PbftEnv;
  vci_view_number_ : Z;
  seq : Z;
  viewchanges_ : gmap Z PbftViewChange;
  pre_prepared_env_set : PbftPreparedSet;
  view_change_round_ : Z;
  vci_msg_buf_ : list PbftEnv;
  vci_start_time_ : Z;
  vci_last_propose_time_ : Z;
  vci_end_time_ : Z;
  last_newview_time_ : Z;
  newview_ : PbftEnv;
  new_view_round_ : Z }.

Definition new_PbftVcInstance (garbage now view_number : Z) : PbftVcInstance :=
  mkVcInstance no_env view_number garbage ∅ no_prepared_set 0 [] now now 0 0 no_env 1.

Definition set_vc_seq (s : Z) (v : PbftVcInstance) : PbftVcInstance :=
  mkVcInstance (view_change_msg_ v) (vci_view_number_ v) s (viewchanges_ v) (pre_prepared_env_set v)
    (view_change_round_ v) (vci_msg_buf_ v) (vci_start_time_ v) (vci_last_propose_time_ v)
    (vci_end_time_ v) (last_newview_time_ v) (newview_ v) (new_view_round_ v).
Definition set_view_change_msg (e : PbftEnv) (v : PbftVcInstance) : PbftVcInstance :=
  mkVcInstance e (vci_view_number_ v) (seq v) (viewchanges_ v) (pre_prepared_env_set v)
    (view_change_round_ v) (vci_msg_buf_ v) (vci_start_time_ v) (vci_last_propose_time_ v)
    (vci_end_time_ v) (last_newview_time_ v) (newview_ v) (new_view_round_ v).
Definition add_viewchange (env : PbftEnv) (vc : PbftViewChange) (v : PbftVcInstance) : PbftVcInstance :=
  mkVcInstance (view_change_msg_ v) (vci_view_number_ v) (seq v)
    (<[vc_replica_id vc := vc]> (viewchanges_ v)) (pre_prepared_env_set v)
    (view_change_round_ v) (vci_msg_buf_ v ++ [env]) (vci_start_time_ v) (vci_last_propose_time_ v)
    (vci_end_time_ v) (last_newview_time_ v) (newview_ v) (new_view_round_ v).
Definition set_pre_prepared_env_set (s : PbftPreparedSet) (v : PbftVcInstance) : PbftVcInstance :=
  mkVcInstance (view_change_msg_ v) (vci_view_number_ v) (seq v) (viewchanges_ v) s
    (view_change_round_ v) (vci_msg_buf_ v) (vci_start_time_ v) (vci_last_propose_time_ v)
    (vci_end_time_ v) (last_newview_time_ v) (newview_ v) (new_view_round_ v).
Definition set_vc_resent (round now : Z) (v : PbftVcInstance) : PbftVcInstance :=
  mkVcInstance (view_change_msg_ v) (vci_view_number_ v) (seq v) (viewchanges_ v) (pre_prepared_env_set v)
    round (vci_msg_buf_ v) (vci_start_time_ v) now
    (vci_end_time_ v) (last_newview_time_ v) (newview_ v) (new_view_round_ v).
Definition set_newview (now round : Z) (e : PbftEnv) (v : PbftVcInstance) : PbftVcInstance :=
  mkVcInstance (view_change_msg_ v) (vci_view_number_ v) (seq v) (viewchanges_ v) (pre_prepared_env_set v)
    (view_change_round_ v) (vci_msg_buf_ v) (vci_start_time_ v) (vci_last_propose_time_ v)
    (vci_end_time_ v) now e round.
Definition ChangeComplete (now : Z) (v : PbftVcInstance) : PbftVcInstance :=
  mkVcInstance (view_change_msg_ v) (vci_view_number_ v) (seq v) (viewchanges_ v) (pre_prepared_env_set v)
    (view_change_round_ v) (vci_msg_buf_ v) (vci_start_time_ v) (vci_last_propose_time_ v)
    now (last_newview_time_ v) (newview_ v) (new_view_round_ v).

Definition vc_NeedSendAgain (v : PbftVcInstance) (current_time : Z) : bool :=
  (g_pbft_vcinstance_timeout <? current_time - vci_last_propose_time_ v) && (vci_end_time_ v =? 0).

(** [IsInitialized] holds of every proto3 message. *)
Definition vc_NeedSendNewViewAgain (v : PbftVcInstance) (current_time : Z) : bool :=
  (g_pbft_newview_send_interval <? current_time - last_newview_time_ v) && (0 <? vci_end_time_ v).

Definition ShouldTeminated (v : PbftVcInstance) (current_time time_out : Z) : bool :=
  time_out <=? current_time - vci_start_time_ v.

(** ** Ordered maps

    [std::map] iterates in key order; indexes are ordered by view, then sequence. *)
Abbreviation PbftInstanceIndex := (Z * Z)%type.

Definition index_lt (x y : PbftInstanceIndex) : bool :=
  (x.1 <? y.1) || ((x.1 =? y.1) && (x.2 <? y.2)).
Definition index_le (x y : PbftInstanceIndex) : Prop := index_lt y x = false.
#[global] Instance index_le_dec : RelDecision index_le.
Proof. intros x y. unfold index_le. apply _. Defined.

Definition entry_le {A} (x y : PbftInstanceIndex * A) : Prop := index_le x.1 y.1.
#[global] Instance entry_le_dec {A} : RelDecision (@entry_le A).
Proof. intros x y. unfold entry_le. apply _. Defined.

Definition in_order {A} (m : gmap PbftInstanceIndex A) : list (PbftInstanceIndex * A) :=
  merge_sort entry_le (map_to_list m).

#[global] Instance index_le_total : Total index_le.
Proof. intros [a b] [c d]. unfold index_le, index_lt. simpl. destruct (Z.ltb_spec a c), (Z.ltb_spec c a), (Z.eqb_spec a c), (Z.eqb_spec c a), (Z.ltb_spec b d), (Z.ltb_spec d b); simpl; try (by left); try (by right); lia. Qed.

#[global] Instance index_le_trans : Transitive index_le.
Proof.
  intros [a b] [c d] [e f]. unfold index_le, index_lt. simpl. rewrite !orb_false_iff, !andb_false_iff, !Z.ltb_ge, !Z.eqb_neq. lia.
Qed.

Lemma elem_of_in_order {A} (m : gmap PbftInstanceIndex A) k x : (k, x) ∈ in_order m ↔ m !! k = Some x.
Proof. unfold in_order. rewrite merge_sort_Permutation. apply elem_of_map_to_list. Qed.
