(* ===== verification/Pbft.v ===== *)
(** * The PBFT replica: state and message checks
    (src/src/consensus/consensus.h, consensus.cpp, bft.h, bft.cpp)

    [PbftObj] is the object [Pbft] with its base [Consensus].  The calls that leave the
    object (network, ledger, timers) are recorded in [events_]; the typed content of the
    consensus keys of the key-value store is [db_].  The handlers run under one mutex, so
    they are atomic; the recursive mutex lets [OnTimer] call [OnTxTimeout].  View and
    sequence numbers are block heights: their signed additions are unbounded here, while
    [%] and the quorum arithmetic are computed at the width of [size_t]. *)
From Stdlib Require Import ZArith Lia.
From stdpp Require Import base gmap list sorting.
From S2P Require Import Prelude PbftMsg.

Open Scope Z_scope.

(** ** What the replica relies on

    The protobuf encodings, the hash, the signature scheme, the configuration and the
    clock ([clock n] is the reading of the [n]-th call); [garbage] is the value of the
    field that the constructors of [PbftVcInstance] leave uninitialised. *)
Class PbftContext := {
  SerializePbft : Pbft → bytes;
  SerializeEnv : PbftEnv → bytes;
  SerializeProof : list PbftEnv → bytes;
  ParseProof : bytes → option (list PbftEnv);
  Crypto : bytes → bytes;
  Verify : bytes → bytes → bytes → bool;
  GetEncAddress : bytes → bytes;
  Sign : bytes → bytes;
  EncPublicKey : bytes;
  EncAddress : bytes;
  GetSelfChainId : Z;
  clock : nat → Z;
  garbage : Z }.

(** ** State *)

Inductive event :=
  | SendConsensusMessage (m : PbftEnv)
  | ValueCommited (request_seq : Z) (value : bytes) (proof : list PbftEnv)
  | ViewChanged (last_consvalue : bytes)
  | ResetCloseTimer
  | AddTimer (id view_number : Z) (set : PbftPreparedSet)
  | DelTimer (id : Z).

(** The consensus keys of the key-value store, decoded. *)
Record PbftDb := mkDb {
  db_view_active : option Z;
  db_view_number : option Z;
  db_last_exe_seq : option Z;
  db_validators : option (list bytes);
  db_vc_instances : option (list (Z * PbftVcInstance)) }.

Record PbftObj := mkObj {
  is_validator_ : bool;
  replica_id_ : Z;
  validators_ : gmap bytes Z;
  instances_ : gmap PbftInstanceIndex PbftInstance;
  view_number_ : Z;
  last_exe_seq_ : Z;
  fault_number_ : Z;
  view_active_ : bool;
  vc_instances_ : gmap Z PbftVcInstance;
  out_pbft_instances_ : gmap PbftInstanceIndex PbftInstance;
  new_view_repond_timer_ : Z;
  abnormal_records_ : gmap bytes Z;
  db_ : PbftDb;
  events_ : list event;
  ticks_ : nat;
  timers_ : Z }.

Definition ckp_interval_ : Z := 10.

(** Setters. *)
Section setters.
Implicit Type s : PbftObj.

Definition set_validators (b : bool) (r : Z) (v : gmap bytes Z) s : PbftObj :=
  mkObj b r v (instances_ s) (view_number_ s) (last_exe_seq_ s) (fault_number_ s) (view_active_ s)
    (vc_instances_ s) (out_pbft_instances_ s) (new_view_repond_timer_ s) (abnormal_records_ s)
    (db_ s) (events_ s) (ticks_ s) (timers_ s).
Definition set_instances (m : gmap PbftInstanceIndex PbftInstance) s : PbftObj :=
  mkObj (is_validator_ s) (replica_id_ s) (validators_ s) m (view_number_ s) (last_exe_seq_ s)
    (fault_number_ s) (view_active_ s) (vc_instances_ s) (out_pbft_instances_ s)
    (new_view_repond_timer_ s) (abnormal_records_ s) (db_ s) (events_ s) (ticks_ s) (timers_ s).
Definition set_view (v : Z) (active : bool) s : PbftObj :=
  mkObj (is_validator_ s) (replica_id_ s) (validators_ s) (instances_ s) v (last_exe_seq_ s)
    (fault_number_ s) active (vc_instances_ s) (out_pbft_instances_ s)
    (new_view_repond_timer_ s) (abnormal_records_ s) (db_ s) (events_ s) (ticks_ s) (timers_ s).
Definition set_last_exe_seq (n : Z) s : PbftObj :=
  mkObj (is_validator_ s) (replica_id_ s) (validators_ s) (instances_ s) (view_number_ s) n
    (fault_number_ s) (view_active_ s) (vc_instances_ s) (out_pbft_instances_ s)
    (new_view_repond_timer_ s) (abnormal_records_ s) (db_ s) (events_ s) (ticks_ s) (timers_ s).
Definition set_fault_number (n : Z) s : PbftObj :=
  mkObj (is_validator_ s) (replica_id_ s) (validators_ s) (instances_ s) (view_number_ s)
    (last_exe_seq_ s) n (view_active_ s) (vc_instances_ s) (out_pbft_instances_ s)
    (new_view_repond_timer_ s) (abnormal_records_ s) (db_ s) (events_ s) (ticks_ s) (timers_ s).
Definition set_vc_instances (m : gmap Z PbftVcInstance) s : PbftObj :=
  mkObj (is_validator_ s) (replica_id_ s) (validators_ s) (instances_ s) (view_number_ s)
    (last_exe_seq_ s) (fault_number_ s) (view_active_ s) m (out_pbft_instances_ s)
    (new_view_repond_timer_ s) (abnormal_records_ s) (db_ s) (events_ s) (ticks_ s) (timers_ s).
Definition set_out_instances (m : gmap PbftInstanceIndex PbftInstance) s : PbftObj :=
  mkObj (is_validator_ s) (replica_id_ s) (validators_ s) (instances_ s) (view_number_ s)
    (last_exe_seq_ s) (fault_number_ s) (view_active_ s) (vc_instances_ s) m
    (new_view_repond_timer_ s) (abnormal_records_ s) (db_ s) (events_ s) (ticks_ s) (timers_ s).
Definition set_timer (id : Z) s : PbftObj :=
  mkObj (is_validator_ s) (replica_id_ s) (validators_ s) (instances_ s) (view_number_ s)
    (last_exe_seq_ s) (fault_number_ s) (view_active_ s) (vc_instances_ s) (out_pbft_instances_ s)
    id (abnormal_records_ s) (db_ s) (events_ s) (ticks_ s) id.
Definition set_abnormal_records (m : gmap bytes Z) s : PbftObj :=
  mkObj (is_validator_ s) (replica_id_ s) (validators_ s) (instances_ s) (view_number_ s)
    (last_exe_seq_ s) (fault_number_ s) (view_active_ s) (vc_instances_ s) (out_pbft_instances_ s)
    (new_view_repond_timer_ s) m (db_ s) (events_ s) (ticks_ s) (timers_ s).
Definition set_db (d : PbftDb) s : PbftObj :=
  mkObj (is_validator_ s) (replica_id_ s) (validators_ s) (instances_ s) (view_number_ s)
    (last_exe_seq_ s) (fault_number_ s) (view_active_ s) (vc_instances_ s) (out_pbft_instances_ s)
    (new_view_repond_timer_ s) (abnormal_records_ s) d (events_ s) (ticks_ s) (timers_ s).
Definition emit (e : event) s : PbftObj :=
  mkObj (is_validator_ s) (replica_id_ s) (validators_ s) (instances_ s) (view_number_ s)
    (last_exe_seq_ s) (fault_number_ s) (view_active_ s) (vc_instances_ s) (out_pbft_instances_ s)
    (new_view_repond_timer_ s) (abnormal_records_ s) (db_ s) (events_ s ++ [e]) (ticks_ s) (timers_ s).
Definition tick s : PbftObj :=
  mkObj (is_validator_ s) (replica_id_ s) (validators_ s) (instances_ s) (view_number_ s)
    (last_exe_seq_ s) (fault_number_ s) (view_active_ s) (vc_instances_ s) (out_pbft_instances_ s)
    (new_view_repond_timer_ s) (abnormal_records_ s) (db_ s) (events_ s) (S (ticks_ s)) (timers_ s).

Definition set_instance (k : PbftInstanceIndex) (i : PbftInstance) s : PbftObj :=
  set_instances (<[k := i]> (instances_ s)) s.

(** [saver.SaveValue] of one key. *)
Definition save_view_active (v : Z) s : PbftObj :=
  set_db (mkDb (Some v) (db_view_number (db_ s)) (db_last_exe_seq (db_ s)) (db_validators (db_ s))
    (db_vc_instances (db_ s))) s.
Definition save_view_number (v : Z) s : PbftObj :=
  set_db (mkDb (db_view_active (db_ s)) (Some v) (db_last_exe_seq (db_ s)) (db_validators (db_ s))
    (db_vc_instances (db_ s))) s.
Definition save_last_exe_seq (v : Z) s : PbftObj :=
  set_db (mkDb (db_view_active (db_ s)) (db_view_number (db_ s)) (Some v) (db_validators (db_ s))
    (db_vc_instances (db_ s))) s.
End setters.

Section replica.
Context `{PbftContext}.
Implicit Types (s : PbftObj) (env : PbftEnv).

Definition HighResolution s : Z * PbftObj := (clock (ticks_ s), tick s).

(** ** [Consensus] *)

Definition GetValidatorIndex (node_address : bytes) (validators : gmap bytes Z) : Z :=
  default (-1) (validators !! node_address).

(** [Consensus::SendMessage] through [Pbft::SendMessage]. *)
Definition SendMessage s (m : PbftEnv) : PbftObj * bool :=
  (if is_validator_ s then emit (SendConsensusMessage m) s else s, true).

(** The positions of the addresses; a repeated address keeps its first one. *)
Fixpoint number_validators (counter : Z) (validators : list bytes) (m : gmap bytes Z) : gmap bytes Z :=
  match validators with
  | [] => m
  | a :: validators =>
      number_validators (counter + 1) validators
        (match m !! a with Some _ => m | None => <[a := counter]> m end)
  end.

Definition Consensus_UpdateValidators s (validators : list bytes) : PbftObj :=
  let m := number_validators 0 validators ∅ in
  let is_validator := bool_decide (EncAddress ∈ validators) in
  set_validators is_validator (if is_validator then default 0 (m !! EncAddress) else -1) m s.

(** The addresses by position ([GetValidation] and [SaveValidators]): a position out of
    range of the vector is the fault. *)
Definition validator_vector (m : gmap bytes Z) : res (list bytes) :=
  foldl (λ acc '(a, i), v ← acc;
    if decide (0 ≤ u32 i < Z.of_nat (size m)) then mret (<[Z.to_nat (u32 i) := a]> (v : list bytes))
    else Err OutOfRange)
    (mret (replicate (size m) [])) (map_to_list m).

(** ** Quorums, at the width of [size_t] *)

Definition QuorumSize (n : Z) : Z :=
  if n =? 1 then 0 else if (n =? 2) || (n =? 3) then 1 else
  let fault_number := u64 (n - 1) / 3 in
  if n =? u64 (3 * fault_number + 1) then u64 (2 * fault_number)
  else if n =? u64 (3 * fault_number + 2) then u64 (2 * fault_number + 1)
  else if n =? u64 (3 * fault_number + 3) then u64 (2 * fault_number + 1)
  else n.

Definition GetQuorumSize s : Z := QuorumSize (Z.of_nat (size (validators_ s))).

Definition map_size {A} (m : gmap Z A) : Z := Z.of_nat (size m).

(** [view_number % validators_.size()], and its comparison with [replica_id_]. *)
Definition leader_id s (view_number : Z) : res Z :=
  if decide (validators_ s = ∅) then Err DivByZero
  else mret (u64 view_number mod Z.of_nat (size (validators_ s))).
Definition leads s (view_number : Z) : res bool :=
  l ← leader_id s view_number; mret (l =? u64 (replica_id_ s)).

Definition IsLeader s : res Z :=
  if is_validator_ s then b ← leads s (view_number_ s); mret (if b : bool then 1 else 0) else mret 0.

(** The last match in the iteration is the only one: positions are distinct. *)
Definition CurrentLeader s : res bytes :=
  l ← leader_id s (view_number_ s);
  mret (foldl (λ acc '(a, i), if decide (i = l) then a else acc) [] (map_to_list (validators_ s))).

(** ** Building messages *)

Definition signed (p : Pbft) : PbftEnv :=
  mkPbftEnv (Some p) (mkSignature EncPublicKey (Sign (SerializePbft p))).

Definition NewPrePrepare s (value : bytes) (sequence : Z) : PbftEnv :=
  signed (mkPbft 1 PBFT_TYPE_PREPREPARE
    (Some (mkPrePrepare (view_number_ s) sequence (replica_id_ s) value (Crypto value)))
    None None None None None GetSelfChainId).

Definition NewPrePrepare_of (pp : PbftPrePrepare) : PbftEnv :=
  signed (mkPbft 1 PBFT_TYPE_PREPREPARE (Some pp) None None None None None GetSelfChainId).

Definition NewPrepare s (pp : PbftPrePrepare) (round : Z) : PbftEnv :=
  signed (mkPbft round PBFT_TYPE_PREPARE None
    (Some (mkPrepare (pp_view_number pp) (pp_sequence pp) (replica_id_ s) (pp_value_digest pp)))
    None None None None GetSelfChainId).

Definition NewCommit s (p : PbftPrepare) (round : Z) : PbftEnv :=
  signed (mkPbft round PBFT_TYPE_COMMIT None None
    (Some (mkCommit (p_view_number p) (p_sequence p) (replica_id_ s) (p_value_digest p)))
    None None None GetSelfChainId).

(** The prepared set of the last prepared instance: its first pre-prepare message and all
    its prepare messages. *)
Fixpoint last_prepared (l : list (PbftInstanceIndex * PbftInstance)) (exe : Z)
    : res (option PbftPreparedSet) :=
  match l with
  | [] => mret None
  | (k, i) :: l =>
      if (exe <? k.2) && bool_decide (phase_ i = PBFT_PHASE_PREPARED) then
        pps ← at_ (msg_buf_ i) 0; pp ← at_ pps 0; ps ← at_ (msg_buf_ i) 1;
        mret (Some (mkPreparedSet (Some pp) ps))
      else last_prepared l exe
  end.

Definition NewViewChangeRawValue s (view_number : Z) (prepared_set : PbftPreparedSet) : res PbftEnv :=
  set ← match ps_pre_prepare prepared_set with
        | Some _ => mret (Some prepared_set)
        | None => last_prepared (reverse (in_order (instances_ s))) (last_exe_seq_ s)
        end;
  let digest :=
    match set with
    | Some st => pp_value_digest (pre_prepare_of (pbft_of (default no_env (ps_pre_prepare st))))
    | None => []
    end in
  let inner := signed (mkPbft 0 PBFT_TYPE_VIEWCHANGE None None None
    (Some (mkViewChange view_number (last_exe_seq_ s) digest (replica_id_ s))) None None GetSelfChainId) in
  mret (signed (mkPbft 0 PBFT_TYPE_VIEWCHANG_WITH_RAWVALUE None None None None None
    (Some (mkRawValue (Some inner) set)) GetSelfChainId)).

Definition NewNewView s (v : PbftVcInstance) : PbftEnv :=
  signed (mkPbft 0 PBFT_TYPE_NEWVIEW None None None None
    (Some (mkNewView (vci_view_number_ v) (seq v) (replica_id_ s)
       ((λ e, default no_env (raw_view_change_env (rawvalue_of (pbft_of e)))) <$> vci_msg_buf_ v)
       (ps_pre_prepare (pre_prepared_env_set v))))
    None GetSelfChainId).

Definition IncPeerMessageRound env (round : Z) : PbftEnv :=
  let p := pbft_of env in
  signed (mkPbft round (pbft_type p) (pbft_pre_prepare p) (pbft_prepare p) (pbft_commit p)
    (pbft_view_change p) (pbft_new_view p) (pbft_rawvalue p) GetSelfChainId).

(** ** Checking messages *)

(** The checks of the prepare messages of a prepared set against its pre-prepare, [chk]
    being [CheckMessageItem]: the replicas, or [None] when a check fails. *)
Section prepared.
Context (chk : PbftEnv → bool) (pp : PbftPrePrepare).

Fixpoint check_prepares (l : list PbftEnv) (ids : gset Z) : option (gset Z) :=
  match l with
  | [] => Some ids
  | e :: l =>
      if chk e then
        let p := prepare_of (pbft_of e) in
        if decide (p_view_number p = pp_view_number pp ∧ p_sequence p = pp_sequence pp ∧
                   p_value_digest p = pp_value_digest pp)
        then check_prepares l ({[p_replica_id p]} ∪ ids)
        else None
      else None
  end.
End prepared.

(** [CheckMessageItem] and [CheckViewChangeWithRawValue]. *)
Fixpoint CheckMessageItem env (validators : gmap bytes Z) {struct env} : bool :=
  match env with
  | mkPbftEnv None _ => false
  | mkPbftEnv (Some (mkPbft round ty pp p c vc nv raw chain)) sig =>
      if negb (chain =? GetSelfChainId) then false else
      let should_replica_id := GetValidatorIndex (GetEncAddress (public_key sig)) validators in
      if should_replica_id <? 0 then false else
      let replica_id : option Z :=
        match ty with
        | PBFT_TYPE_PREPREPARE => pp_replica_id <$> pp
        | PBFT_TYPE_PREPARE => p_replica_id <$> p
        | PBFT_TYPE_COMMIT => c_replica_id <$> c
        | PBFT_TYPE_VIEWCHANGE => vc_replica_id <$> vc
        | PBFT_TYPE_VIEWCHANG_WITH_RAWVALUE =>
            match raw with
            | None => None
            | Some (mkRawValue None _) => None
            | Some (mkRawValue (Some vce) set) =>
                if decide (GetMessageType vce = PBFT_TYPE_VIEWCHANGE) then
                  if CheckMessageItem vce validators then
                    let digest : option bytes :=
                      match set with
                      | None => Some []
                      | Some (mkPreparedSet None _) => None
                      | Some (mkPreparedSet (Some ppe) ps) =>
                          if CheckMessageItem ppe validators then
                            let pp := pre_prepare_of (pbft_of ppe) in
                            match check_prepares (λ e, CheckMessageItem e validators) pp ps ∅ with
                            | Some ids =>
                                if Z.of_nat (size ids) <? QuorumSize (Z.of_nat (size validators))
                                then None else Some (pp_value_digest pp)
                            | None => None
                            end
                          else None
                      end in
                    match digest with
                    | Some d =>
                        if decide (vc_prepred_value_digest (view_change_of (pbft_of vce)) = d)
                        then Some (vc_replica_id (view_change_of (pbft_of vce))) else None
                    | None => None
                    end
                  else None
                else None
            end
        | PBFT_TYPE_NEWVIEW => nv_replica_id <$> nv
        | PBFT_TYPE_UNKNOWN _ => None
        end in
      match replica_id with
      | None => false
      | Some r =>
          (r =? should_replica_id) &&
          Verify (SerializePbft (mkPbft round ty pp p c vc nv raw chain)) (sign_data sig) (public_key sig)
      end
  end.

(** ** [CheckProof] *)

Fixpoint check_commits (l : list PbftEnv) (hash : bytes) (temp_vs : gmap bytes Z) : option (gmap bytes Z) :=
  match l with
  | [] => Some temp_vs
  | env :: l =>
      if CheckMessageItem env temp_vs then
        let p := pbft_of env in
        if decide (pbft_type p = PBFT_TYPE_COMMIT ∧ is_Some (pbft_commit p)) then
          if decide (c_value_digest (commit_of p) = hash) then
            let address := GetEncAddress (public_key (env_signature env)) in
            match temp_vs !! address with
            | Some _ => check_commits l hash (delete address temp_vs)
            | None => None
            end
          else None
        else None
      else None
  end.

Definition CheckProof (validators : list bytes) (previous_value_hash proof : bytes) : bool :=
  let temp_vs := number_validators 0 validators ∅ in
  let total_size := Z.of_nat (size temp_vs) in
  let qsize := u64 (QuorumSize total_size + 1) in
  match ParseProof proof with
  | None => false
  | Some commits =>
      match check_commits commits previous_value_hash temp_vs with
      | None => false
      | Some temp_vs => qsize <=? total_size - Z.of_nat (size temp_vs)
      end
  end.
End replica.
