(* ===== verification/PbftQuorum.v ===== *)
(** * Quorums and proofs of commitment

    [QuorumSize] guarantees intersection and availability, and [CheckProof] accepts
    exactly the commit messages of a quorum: two accepted proofs for different values
    expose more than [f] validators. *)
From Stdlib Require Import ZArith Lia.
From stdpp Require Import base gmap list sorting strings.
From S2P Require Import Prelude PbftMsg Pbft.

Open Scope Z_scope.

(** ** Quorum arithmetic *)

(** The number of faulty replicas that [n] replicas tolerate. *)
Definition max_faulty (n : Z) : Z := (n - 1) / 3.

Lemma quorum_cases n : 1 ≤ n < 2 ^ 63 →
  let f := max_faulty n in let q := QuorumSize n + 1 in
  n + f + 1 ≤ 2 * q ∧ q ≤ n - f ∧ 0 ≤ QuorumSize n < 2 ^ 63.
Proof.
  intros Hn. unfold max_faulty, QuorumSize. destruct (Z.eqb_spec n 1) as [->|H1]; [by vm_compute|].
  destruct (Z.eqb_spec n 2) as [->|H2]; [by vm_compute|]. destruct (Z.eqb_spec n 3) as [->|H3]; [by vm_compute|].
  cbn [orb]. rewrite (u64_small (n - 1)) by lia. set (f := (n - 1) / 3).
  assert (3 * f ≤ n - 1 < 3 * f + 3) as Hf.
  { pose proof (Z.div_mod (n - 1) 3). pose proof (Z.mod_pos_bound (n - 1) 3). unfold f. lia. }
  clearbody f.
  rewrite !u64_small by lia.
  destruct (Z.eqb_spec n (3 * f + 1)); [lia|]. destruct (Z.eqb_spec n (3 * f + 2)); [lia|].
  destruct (Z.eqb_spec n (3 * f + 3)); [lia|]. lia.
Qed.

Lemma size_intersection (X Y U : gset bytes) :
  X ⊆ U → Y ⊆ U → (size X + size Y ≤ size U + size (X ∩ Y))%nat.
Proof.
  intros HX HY. assert (size (X ∪ Y) ≤ size U)%nat by (apply subseteq_size; set_solver).
  pose proof (size_union_alt X Y). assert (size (Y ∖ X) = size Y - size (Y ∩ X))%nat by (apply size_difference_alt).
  assert (size (Y ∩ X) ≤ size Y)%nat by (apply subseteq_size; set_solver).
  replace (X ∩ Y) with (Y ∩ X) by set_solver. lia.
Qed.

Lemma size_list_to_set_le (l : list bytes) : (size (list_to_set l : gset bytes) ≤ length l)%nat.
Proof.
  induction l as [|x l IH]; [done|]. cbn [list_to_set length].
  rewrite size_union_alt, size_singleton.
  assert (size ((list_to_set l : gset bytes) ∖ {[x]}) ≤ size (list_to_set l : gset bytes))%nat
    by (apply subseteq_size; set_solver). lia.
Qed.

(** Quorums intersect and are available.  For every number [n] of validators, two
    sets of at least [QuorumSize n + 1] of them share more than [f = (n-1)/3] members,
    and the [n - f] correct ones are enough for one. *)
Theorem quorum_intersection (U X Y : gset bytes) :
  let n := Z.of_nat (size U) in
  1 ≤ n < 2 ^ 63 → X ⊆ U → Y ⊆ U →
  QuorumSize n + 1 ≤ Z.of_nat (size X) → QuorumSize n + 1 ≤ Z.of_nat (size Y) →
  max_faulty n < Z.of_nat (size (X ∩ Y)) ∧ QuorumSize n + 1 ≤ n - max_faulty n.
Proof.
  intros n Hn HX HY Qx Qy. destruct (quorum_cases n Hn) as (H1 & H2 & _).
  pose proof (size_intersection X Y U HX HY). unfold n in *. lia.
Qed.

Definition four : gset bytes := {[ [Init.Byte.x01]; [Init.Byte.x02]; [Init.Byte.x03]; [Init.Byte.x04] ]}.
Definition three_a : gset bytes := {[ [Init.Byte.x01]; [Init.Byte.x02]; [Init.Byte.x03] ]}.
Definition three_b : gset bytes := {[ [Init.Byte.x02]; [Init.Byte.x03]; [Init.Byte.x04] ]}.

Lemma quorum_intersection_witness :
  max_faulty 4 < Z.of_nat (size (three_a ∩ three_b)) ∧ QuorumSize 4 + 1 ≤ 4 - max_faulty 4.
Proof.
  apply (quorum_intersection four three_a three_b); unfold three_a, three_b, four; try set_solver;
    vm_compute; intuition congruence.
Defined.

(** ** Validators by position *)

Lemma number_validators_dom l : ∀ c m a,
  is_Some (number_validators c l m !! a) ↔ is_Some (m !! a) ∨ a ∈ l.
Proof.
  induction l as [|b l IH]; intros c m a; simpl.
  { rewrite elem_of_nil. tauto. }
  rewrite IH, elem_of_cons. destruct (m !! b) as [v|] eqn:Eb.
  - split; [tauto|]. intros [?|[->|?]]; eauto.
  - destruct (decide (a = b)) as [->|Hne]; [rewrite lookup_insert_eq; split; eauto|].
    rewrite lookup_insert_ne by done. split; [tauto|]. intros [?|[?|?]]; tauto.
Qed.

Lemma number_validators_range l : ∀ c m a i,
  (∀ b j, m !! b = Some j → 0 ≤ j < c) → 0 ≤ c →
  number_validators c l m !! a = Some i → 0 ≤ i < c + Z.of_nat (length l).
Proof.
  induction l as [|b l IH]; intros c m a i Hm Hc Hi; simpl in *; [apply Hm in Hi; lia|].
  apply IH in Hi; [lia| |lia]. intros d j. destruct (m !! b) as [v|]; [intros Hd%Hm; lia|].
  rewrite lookup_insert_Some. intros [[_ <-]|[_ Hd%Hm]]; lia.
Qed.

(** ** Accepted messages *)

Section proofs.
Context `{PbftContext}.

(** [env] is a commit message for the digest [h], signed by the validator [a]. *)
Record signed_commit (V : gmap bytes Z) (h : bytes) (env : PbftEnv) (a : bytes) : Prop := {
  sc_addr : GetEncAddress (public_key (env_signature env)) = a;
  sc_type : pbft_type (pbft_of env) = PBFT_TYPE_COMMIT;
  sc_commit : ∃ c, pbft_commit (pbft_of env) = Some c ∧ c_value_digest c = h ∧
    V !! a = Some (c_replica_id c) ∧ 0 ≤ c_replica_id c;
  sc_chain : chain_id (pbft_of env) = GetSelfChainId;
  sc_sign : Verify (SerializePbft (pbft_of env)) (sign_data (env_signature env))
              (public_key (env_signature env)) = true;
  sc_has : env_pbft env = Some (pbft_of env) }.

(** [CheckMessageItem] on a commit message. *)
Lemma check_commit_item V h env :
  CheckMessageItem env V = true → pbft_type (pbft_of env) = PBFT_TYPE_COMMIT →
  c_value_digest (commit_of (pbft_of env)) = h →
  signed_commit V h env (GetEncAddress (public_key (env_signature env))).
Proof.
  destruct env as [[[round ty pp p c vc nv raw chain]|] sig]; [|done]. cbn.
  intros Hc -> Hh. destruct (Z.eqb_spec chain GetSelfChainId) as [->|]; [|done]. cbn in Hc.
  destruct (Z.ltb_spec (GetValidatorIndex (GetEncAddress (public_key sig)) V) 0) as [|Hi]; [done|].
  destruct c as [c|]; [|done]. cbn in Hc. apply andb_true_iff in Hc as [Hr Hv]. apply Z.eqb_eq in Hr.
  split; cbn; try done. exists c. unfold GetValidatorIndex in *.
  destruct (V !! GetEncAddress (public_key sig)) as [i|] eqn:EV; simpl in *; [|lia].
  split_and!; try done; congruence.
Qed.

Lemma commit_item_check V V' h env a :
  signed_commit V h env a → V' !! a = V !! a → CheckMessageItem env V' = true.
Proof.
  intros [Ha Ht (c & Hc & Hh & Hr & Hpos) Hch Hs Hp] Hv.
  destruct env as [[[round ty pp p c' vc nv raw chain]|] sig]; [|done]. cbn in *. subst.
  rewrite Z.eqb_refl. cbn. unfold GetValidatorIndex. rewrite Hv, Hr. simpl.
  rewrite (proj2 (Z.ltb_ge _ _)) by lia. rewrite Z.eqb_refl. cbn. exact Hs.
Qed.

(** The loop of [CheckProof]: the addresses it strikes out signed a commit. *)
Lemma check_commits_sound h l : ∀ V V', check_commits l h V = Some V' →
  ∃ X : gset bytes, X ⊆ dom V ∧ dom V' = dom V ∖ X ∧
    ∀ a, a ∈ X → ∃ env, env ∈ l ∧ signed_commit V h env a.
Proof.
  induction l as [|env l IH]; intros V V' Hc; simpl in Hc.
  { simplify_eq. exists ∅. set_solver. }
  destruct (CheckMessageItem env V) eqn:Ei; [|done]. case_decide as E1; [|done].
  case_decide as E2; [|done]. destruct E1 as [E1 _].
  pose proof (check_commit_item V h env Ei E1 E2) as Hsc.
  set (a := GetEncAddress (public_key (env_signature env))) in *.
  destruct (V !! a) as [i|] eqn:Ea; [|done].
  destruct (IH _ _ Hc) as (X & HX & Hd & Hs). rewrite dom_delete_L in HX, Hd.
  assert (a ∈ dom V) by (by apply elem_of_dom_2 in Ea).
  exists ({[a]} ∪ X). split_and!; [set_solver|set_solver|].
  intros b [->%elem_of_singleton|Hb]%elem_of_union; [exists env; split; [by left|done]|].
  destruct (Hs b Hb) as (env' & Hin & [S1 S2 (c & Hc1 & Hc2 & Hc3 & Hc4) S4 S5 S6]).
  exists env'. split; [by right|]. split; try done. exists c. split_and!; try done.
  by apply lookup_delete_Some in Hc3 as [_ ?].
Qed.

Lemma check_commits_complete h l : ∀ V,
  NoDup ((λ e, GetEncAddress (public_key (env_signature e))) <$> l) →
  (∀ env, env ∈ l → ∃ a, signed_commit V h env a) →
  ∃ V', check_commits l h V = Some V' ∧ size V = (size V' + length l)%nat.
Proof.
  induction l as [|env l IH]; intros V Hn Hs; simpl; [exists V; split; [done|lia]|].
  simpl in Hn. apply NoDup_cons in Hn as [Hnin Hn].
  destruct (Hs env (list_elem_of_here _ _)) as [a Ha].
  rewrite (commit_item_check V V h env a Ha eq_refl).
  pose proof Ha as [Hadr Hty (c & Hc & Hh & Hr & _) _ _ _].
  rewrite decide_True by (rewrite Hc; eauto). unfold commit_of. rewrite Hc. simpl. rewrite decide_True by done.
  rewrite Hadr, Hr. destruct (IH (delete a V)) as (V' & -> & Hsz); [done| |].
  - intros e He. destruct (Hs e) as [b [S1 S2 (c' & Hc1 & Hc2 & Hc3 & Hc4) S4 S5 S6]]; [by right|]. exists b.
    split; try done. exists c'. split_and!; try done. rewrite lookup_delete_ne; [done|].
    intros <-. apply Hnin. rewrite Hadr. apply list_elem_of_fmap. by exists e.
  - exists V'. split; [done|]. rewrite map_size_delete, Hr in Hsz.
    assert (size V ≠ 0)%nat; [|lia]. intros E%map_size_empty_iff. by rewrite E, lookup_empty in Hr.
Qed.

Lemma size_dom_Z (V : gmap bytes Z) : size (dom V) = size V.
Proof. apply size_dom. Qed.

(** What an accepted proof shows. *)
Lemma CheckProof_quorum validators h proof :
  Z.of_nat (length validators) < 2 ^ 63 →
  CheckProof validators h proof = true →
  let V := number_validators 0 validators ∅ in
  ∃ commits (X : gset bytes), ParseProof proof = Some commits ∧ X ⊆ dom V ∧ 1 ≤ Z.of_nat (size V) < 2 ^ 63 ∧
    QuorumSize (Z.of_nat (size V)) + 1 ≤ Z.of_nat (size X) ∧
    ∀ a, a ∈ X → ∃ env, env ∈ commits ∧ signed_commit V h env a.
Proof.
  intros Hlen. unfold CheckProof. set (V := number_validators 0 validators ∅). intros Hc.
  destruct (ParseProof proof) as [commits|]; [|done].
  destruct (check_commits commits h V) as [V'|] eqn:Ec; [|done].
  destruct (check_commits_sound h commits V V' Ec) as (X & HX & Hd & Hs).
  assert (Hsz : size V = (size V' + size X)%nat).
  { rewrite <- !size_dom_Z, Hd. rewrite size_difference by done.
    assert (size X ≤ size (dom V))%nat by (by apply subseteq_size). lia. }
  assert (HV : (size V ≤ length validators)%nat).
  { rewrite <- size_dom_Z. transitivity (size (list_to_set validators : gset bytes)).
    - apply subseteq_size. intros a Ha. apply elem_of_list_to_set. apply elem_of_dom in Ha.
      apply number_validators_dom in Ha as [Ha|?]; [by rewrite lookup_empty in Ha; destruct Ha|done].
    - apply size_list_to_set_le. }
  apply Z.leb_le in Hc. exists commits, X.
  assert (1 ≤ Z.of_nat (size V)) as Hpos.
  { destruct (decide (size V = 0)%nat) as [E|]; [|lia]. exfalso. rewrite E in Hc.
    change (u64 (QuorumSize (Z.of_nat 0) + 1)) with 12297829382473034411 in Hc. lia. }
  destruct (quorum_cases (Z.of_nat (size V))) as (_ & _ & Hq); [lia|].
  rewrite u64_small in Hc by lia. split_and!; try done; lia.
Qed.
End proofs.

(** An accepted proof is a quorum certificate.  When [CheckProof] accepts, at least
    [QuorumSize n + 1] different validators each signed a commit message of this chain
    for the hash, under the position they have in the list. *)
Theorem CheckProof_sound `{PbftContext} validators h proof :
  Z.of_nat (length validators) < 2 ^ 63 → CheckProof validators h proof = true →
  let V := number_validators 0 validators ∅ in
  ∃ commits (X : gset bytes), ParseProof proof = Some commits ∧ X ⊆ list_to_set validators ∧
    QuorumSize (Z.of_nat (size V)) + 1 ≤ Z.of_nat (size X) ∧
    ∀ a, a ∈ X → ∃ env, env ∈ commits ∧ signed_commit V h env a.
Proof.
  intros Hl Hc. destruct (CheckProof_quorum validators h proof Hl Hc) as (commits & X & Hp & HX & _ & Hq & Hs).
  exists commits, X. split_and!; try done. intros a Ha%HX. apply elem_of_list_to_set.
  apply elem_of_dom, number_validators_dom in Ha as [[? Ha]|?]; [by rewrite lookup_empty in Ha|done].
Qed.

(** A proof of valid commit messages of a quorum is accepted: [CheckProof] answers
    [true] when every message is a correctly signed commit for the hash by a different
    validator and there are at least [QuorumSize n + 1] of them. *)
Theorem CheckProof_complete `{PbftContext} validators h proof commits :
  let V := number_validators 0 validators ∅ in
  1 ≤ Z.of_nat (size V) < 2 ^ 63 → ParseProof proof = Some commits →
  NoDup ((λ e, GetEncAddress (public_key (env_signature e))) <$> commits) →
  (∀ env, env ∈ commits → ∃ a, signed_commit V h env a) →
  QuorumSize (Z.of_nat (size V)) + 1 ≤ Z.of_nat (length commits) →
  CheckProof validators h proof = true.
Proof.
  intros V Hn Hp Hd Hs Hq. unfold CheckProof. fold V. rewrite Hp.
  destruct (check_commits_complete h commits V Hd Hs) as (V' & -> & Hsz).
  apply Z.leb_le. destruct (quorum_cases _ Hn) as (_ & _ & Hb). rewrite u64_small by lia. lia.
Qed.

(** Two quorums of the same validators share more than [f] of them. *)
Lemma conflicting_quorums `{PbftContext} validators h1 h2 proof1 proof2 :
  Z.of_nat (length validators) < 2 ^ 63 →
  CheckProof validators h1 proof1 = true → CheckProof validators h2 proof2 = true →
  let V := number_validators 0 validators ∅ in
  ∃ X : gset bytes, max_faulty (Z.of_nat (size V)) < Z.of_nat (size X) ∧ X ⊆ list_to_set validators ∧
    ∀ a, a ∈ X → (∃ e1, signed_commit V h1 e1 a) ∧ (∃ e2, signed_commit V h2 e2 a).
Proof.
  intros Hl H1 H2 V.
  destruct (CheckProof_quorum validators h1 proof1 Hl H1) as (c1 & X1 & _ & HX1 & Hn & Hq1 & Hs1).
  destruct (CheckProof_quorum validators h2 proof2 Hl H2) as (c2 & X2 & _ & HX2 & _ & Hq2 & Hs2).
  fold V in HX1, HX2, Hn, Hq1, Hq2, Hs1, Hs2. exists (X1 ∩ X2). split_and!.
  - pose proof (size_intersection X1 X2 (dom V) HX1 HX2). rewrite size_dom_Z in *.
    destruct (quorum_cases _ Hn) as (Hc & _). lia.
  - intros a [Ha _]%elem_of_intersection. apply HX1 in Ha. apply elem_of_list_to_set.
    apply elem_of_dom, number_validators_dom in Ha as [[? Ha]|?]; [by rewrite lookup_empty in Ha|done].
  - intros a [Ha1 Ha2]%elem_of_intersection. destruct (Hs1 a Ha1) as (? & _ & ?), (Hs2 a Ha2) as (? & _ & ?). eauto.
Qed.

(** Two accepted proofs for different hashes under the same validators show that more
    than [f] validators signed commits for both: with at most [f] faulty validators a
    proof exists for at most one value. *)
Theorem conflicting_proofs_expose `{PbftContext} validators h1 h2 proof1 proof2 :
  Z.of_nat (length validators) < 2 ^ 63 →
  CheckProof validators h1 proof1 = true → CheckProof validators h2 proof2 = true →
  let V := number_validators 0 validators ∅ in
  ∃ X : gset bytes, max_faulty (Z.of_nat (size V)) < Z.of_nat (size X) ∧ X ⊆ list_to_set validators ∧
    ∀ a, a ∈ X → (∃ e1, signed_commit V h1 e1 a) ∧ (∃ e2, signed_commit V h2 e2 a).
Proof. apply conflicting_quorums. Qed.

(** ** Concrete instances for the witnesses *)

(** Four validators "0" ... "3" whose public keys are their addresses; a signature is
    accepted when it is the signer's name. *)
Definition validator_name (n : nat) : bytes := [to_char (48 + Z.of_nat n)].

Definition commit_by (n : nat) (view sequence : Z) (digest : bytes) : PbftEnv :=
  mkPbftEnv (Some (mkPbft 1 PBFT_TYPE_COMMIT None None
    (Some (mkCommit view sequence (Z.of_nat n) digest)) None None None 7))
    (mkSignature (validator_name n) (validator_name n)).

(** Byte [x01] encodes the commits of validators 0, 1, 2 for digest "a", [x02] those of
    validators 1, 2, 3 for digest "b". *)
Definition toy_proofs (b : bytes) : option (list PbftEnv) :=
  if decide (b = [Init.Byte.x01]) then Some [commit_by 0 0 2 (str "a"); commit_by 1 0 2 (str "a"); commit_by 2 0 2 (str "a")]
  else if decide (b = [Init.Byte.x02]) then Some [commit_by 1 0 2 (str "b"); commit_by 2 0 2 (str "b"); commit_by 3 0 2 (str "b")]
  else None.

Definition toy_context : PbftContext := {|
  SerializePbft := λ _, []; SerializeEnv := λ _, []; SerializeProof := λ _, [];
  ParseProof := toy_proofs; Crypto := λ x, x; Verify := λ _ s pk, bool_decide (s = pk);
  GetEncAddress := λ pk, pk; Sign := λ _, validator_name 0; EncPublicKey := validator_name 0;
  EncAddress := validator_name 0; GetSelfChainId := 7; clock := λ n, Z.of_nat n + 1; garbage := 0 |}.

Definition toy_validators : list bytes := validator_name <$> [0; 1; 2; 3]%nat.

Lemma CheckProof_sound_witness :
  let V := number_validators 0 toy_validators ∅ in
  ∃ commits (X : gset bytes), @ParseProof toy_context [Init.Byte.x01] = Some commits ∧
    X ⊆ list_to_set toy_validators ∧ QuorumSize (Z.of_nat (size V)) + 1 ≤ Z.of_nat (size X) ∧
    ∀ a, a ∈ X → ∃ env, env ∈ commits ∧ @signed_commit toy_context V (str "a") env a.
Proof. apply (@CheckProof_sound toy_context toy_validators (str "a") [Init.Byte.x01]); vm_compute; reflexivity. Defined.

Lemma toy_commits_signed env :
  env ∈ [commit_by 0 0 2 (str "a"); commit_by 1 0 2 (str "a"); commit_by 2 0 2 (str "a")] →
  ∃ a, @signed_commit toy_context (number_validators 0 toy_validators ∅) (str "a") env a.
Proof.
  rewrite !elem_of_cons, elem_of_nil. intros [->|[->|[->|[]]]]; eexists; split; try reflexivity;
    (eexists; split_and!; [reflexivity|reflexivity|vm_compute; reflexivity|vm_compute; congruence]).
Qed.

Lemma CheckProof_complete_witness : @CheckProof toy_context toy_validators (str "a") [Init.Byte.x01] = true.
Proof.
  apply (@CheckProof_complete toy_context toy_validators (str "a") [Init.Byte.x01]
    [commit_by 0 0 2 (str "a"); commit_by 1 0 2 (str "a"); commit_by 2 0 2 (str "a")]).
  - vm_compute. split; congruence.
  - reflexivity.
  - apply (bool_decide_unpack _). vm_compute. exact I.
  - apply toy_commits_signed.
  - vm_compute. congruence.
Defined.

Lemma conflicting_proofs_expose_witness :
  let V := number_validators 0 toy_validators ∅ in
  ∃ X : gset bytes, max_faulty (Z.of_nat (size V)) < Z.of_nat (size X) ∧ X ⊆ list_to_set toy_validators ∧
    ∀ a, a ∈ X → (∃ e1, @signed_commit toy_context V (str "a") e1 a) ∧
      (∃ e2, @signed_commit toy_context V (str "b") e2 a).
Proof.
  apply (@conflicting_proofs_expose toy_context toy_validators (str "a") (str "b") [Init.Byte.x01] [Init.Byte.x02]);
    vm_compute; reflexivity.
Defined.
