(* ===== verification/PbftHandlers.v ===== *)
(** * The PBFT replica: handlers (src/src/consensus/bft.cpp, bft_instance.cpp)

    A handler takes the object and returns it with its result.  A [PbftInstance &] is
    the entry of [instances_] at its index: using it after the entry was erased is the
    fault [NullDeref]. *)
From Stdlib Require Import ZArith Lia.
From stdpp Require Import base gmap list sorting.
From S2P Require Import Prelude PbftMsg Pbft.

Open Scope Z_scope.

Section handlers.
Context `{PbftContext}.
Implicit Types (s : PbftObj) (env : PbftEnv) (k : PbftInstanceIndex).

Definition instance_at s k : res PbftInstance :=
  match instances_ s !! k with Some i => Ok i | None => Err NullDeref end.

Definition InWaterMark s (seq : Z) : bool :=
  (last_exe_seq_ s <=? seq) && (seq <=? last_exe_seq_ s + ckp_interval_).

Definition phase_lt (p q : PbftInstancePhase) : bool := (phase_number p <? phase_number q)%nat.

(** ** Persistence *)

Definition SaveViewChange s : PbftObj :=
  set_db (mkDb (db_view_active (db_ s)) (db_view_number (db_ s)) (db_last_exe_seq (db_ s))
    (db_validators (db_ s)) (Some (in_key_order (vc_instances_ s)))) s.

Definition SaveValidators s : res PbftObj :=
  v ← validator_vector (validators_ s);
  mret (set_db (mkDb (db_view_active (db_ s)) (db_view_number (db_ s)) (db_last_exe_seq (db_ s))
    (Some v) (db_vc_instances (db_ s))) s).

(** ** Execution *)

(** The commit messages of the buffer, one per public key. *)
Fixpoint commit_proof (l : list PbftEnv) (commit_node : gset bytes) : list PbftEnv :=
  match l with
  | [] => []
  | env :: l =>
      let pk := public_key (env_signature env) in
      if decide (pk ∈ commit_node) then commit_proof l commit_node
      else env :: commit_proof l ({[pk]} ∪ commit_node)
  end.

(** The loop over the instances, [keys] being those not visited yet. *)
Fixpoint exec_loop (keys : list PbftInstanceIndex) s : res PbftObj :=
  match keys with
  | [] => mret s
  | k :: keys =>
      match instances_ s !! k with
      | None => exec_loop keys s
      | Some i =>
          if k.2 <=? last_exe_seq_ s then exec_loop keys s else
          if (k.2 =? last_exe_seq_ s + 1) && negb (phase_lt (phase_ i) PBFT_PHASE_COMMITED) then
            let s := set_last_exe_seq (last_exe_seq_ s + 1) s in
            vec ← at_ (msg_buf_ i) 2;
            let s := emit (ValueCommited k.2 (pp_value (pre_prepare_ i)) (commit_proof vec ∅)) s in
            let s := set_instances
              (filter (λ e, k.2 - ckp_interval_ / 2 < e.1.2) (instances_ s)) s in
            exec_loop keys s
          else mret s
      end
  end.

Definition TryExecuteValue s : res (PbftObj * bool) :=
  s ← exec_loop ((in_order (instances_ s)).*1) s; mret (s, true).

(** ** The three phases *)

Definition OnPrePrepare s k (p : Pbft) (check : CheckValueResult) : res (PbftObj * bool) :=
  lead ← leads s (view_number_ s);
  if lead && negb (Z.of_nat (size (validators_ s)) =? 1) then mret (s, true) else
  let pp := pre_prepare_of p in
  if decide (pp_value_digest pp ≠ Crypto (pp_value pp)) then mret (s, false) else
  if decide (check = CHECK_VALUE_INVALID) then mret (s, false) else
  i ← instance_at s k;
  if decide (phase_ i ≠ PBFT_PHASE_NONE) then
    if decide (pp_value (pre_prepare_ i) ≠ pp_value pp) then mret (s, false) else
    if decide (check ≠ CHECK_VALUE_VALID) then mret (s, true) else
    let '(s, sent) := SendMessage s (NewPrepare s pp (round_number p)) in
    mret (s, sent)
  else
    let i := set_check_value_result check (set_pre_prepare pp (set_phase PBFT_PHASE_PREPREPARED i)) in
    let s := set_instance k i s in
    if decide (check ≠ CHECK_VALUE_VALID) then mret (s, true) else
    let '(s, sent) := SendMessage s (NewPrepare s pp 1) in
    mret (s, sent).

(** [std::map::insert] keeps a present entry. *)
Definition insert_new {A} (n : Z) (x : A) (m : gmap Z A) : gmap Z A :=
  match m !! n with Some _ => m | None => <[n := x]> m end.

Definition OnPrepare s k (p : Pbft) : res (PbftObj * bool) :=
  i ← instance_at s k;
  let prep := prepare_of p in
  if decide (pp_value_digest (pre_prepare_ i) ≠ p_value_digest prep) then mret (s, false) else
  let i := set_prepares (insert_new (p_replica_id prep) prep (prepares_ i)) i in
  let s := set_instance k i s in
  if GetQuorumSize s <=? map_size (prepares_ i) then
    let i := if phase_lt (phase_ i) PBFT_PHASE_PREPARED then set_phase PBFT_PHASE_PREPARED i else i in
    let s := set_instance k i s in
    if decide (check_value_result_ i = CHECK_VALUE_VALID) then
      let commit_msg := NewCommit s prep (round_number p) in
      let '(now, s) := HighResolution s in
      let s := set_instance k (SetLastCommitSendTime now i) s in
      let '(s, sent) := SendMessage s commit_msg in
      mret (s, sent)
    else mret (s, true)
  else mret (s, true).

Definition OnCommit s k (p : Pbft) : res (PbftObj * bool) :=
  i ← instance_at s k;
  let c := commit_of p in
  if decide (pp_value_digest (pre_prepare_ i) ≠ c_value_digest c) then mret (s, false) else
  match commits_ i !! c_replica_id c with
  | Some _ => mret (s, true)
  | None =>
      let i := set_commits (<[c_replica_id c := c]> (commits_ i)) i in
      if (u64 (GetQuorumSize s + 1) <=? map_size (commits_ i)) && phase_lt (phase_ i) PBFT_PHASE_COMMITED
      then
        let '(now, s) := HighResolution s in
        let s := set_instance k (set_end_time now (set_phase PBFT_PHASE_COMMITED i)) s in
        TryExecuteValue s
      else mret (set_instance k i s, true)
  end.

(** [switch (pbft.type())] of [Go]. *)
Definition dispatch s k (p : Pbft) (check : CheckValueResult) (ret : bool) : res (PbftObj * bool) :=
  match pbft_type p with
  | PBFT_TYPE_PREPREPARE => OnPrePrepare s k p check
  | PBFT_TYPE_PREPARE => OnPrepare s k p
  | PBFT_TYPE_COMMIT => OnCommit s k p
  | _ => mret (s, ret)
  end.

Fixpoint go_loop (fuel : nat) s k (check : CheckValueResult) (doret : bool) : res (PbftObj * bool) :=
  i ← instance_at s k;
  buf ← at_ (msg_buf_ i) (phase_number (phase_ i));
  match buf !! phase_item_ i with
  | None => mret (s, doret)
  | Some env =>
      match fuel with
      | O => Err OutOfFuel
      | S fuel =>
          let s := set_instance k (set_phase_item (S (phase_item_ i)) i) s in
          '(s, doret) ← dispatch s k (pbft_of env) check doret;
          go_loop fuel s k check doret
      end
  end.

(** Each message of each phase is handled at most once. *)
Definition go_fuel (i : PbftInstance) : nat := length (concat (msg_buf_ i)).

Definition Go s k env (check : CheckValueResult) : res (PbftObj * bool) :=
  i ← instance_at s k;
  let p := pbft_of env in
  if type_number (pbft_type p) <? Z.of_nat (phase_number (phase_ i)) then
    '(s, _) ← dispatch s k p check false; mret (s, false)
  else go_loop (go_fuel i) s k check false.

(** ** Messages outside the window *)

Definition TryDoTraceOut s k (i : PbftInstance) : PbftObj :=
  if (u64 (GetQuorumSize s + 1) <=? map_size (commits_ i)) && (ckp_interval_ <=? k.2 - last_exe_seq_ s)
  then
    let s := set_last_exe_seq k.2 (set_view k.1 true s) in
    let s := save_view_active 1 s in
    let s := set_vc_instances (filter (λ e, has_pbft (view_change_msg_ e.2) = false) (vc_instances_ s)) s in
    let s := SaveViewChange s in
    let s := set_instances (filter (λ e, k.2 < e.1.2) (instances_ s)) s in
    let s := set_out_instances ∅ s in
    emit ResetCloseTimer s
  else s.

Definition TraceOutPbftPrePrepare s env : PbftObj * bool :=
  let pp := pre_prepare_of (pbft_of env) in
  let k := (pp_view_number pp, pp_sequence pp) in
  let '(s, i) :=
    match out_pbft_instances_ s !! k with
    | Some i => (s, i)
    | None => let '(now, s) := HighResolution s in (s, new_PbftInstance now)
    end in
  let old := pre_prepare_ i in
  let i := set_pre_prepare (mkPrePrepare (pp_view_number old) (pp_sequence old) (pp_replica_id old)
    (pp_value pp) (pp_value_digest pp)) i in
  let s := set_out_instances (<[k := i]> (out_pbft_instances_ s)) s in
  (TryDoTraceOut s k i, true).

Definition TraceOutPbftCommit s env : res (PbftObj * bool) :=
  let p := pbft_of env in
  let c := commit_of p in
  let k := (c_view_number c, c_sequence c) in
  match instances_ s !! k with
  | Some _ => OnCommit s k p
  | None =>
      let '(s, i) :=
        match out_pbft_instances_ s !! k with
        | Some i => (s, i)
        | None =>
            let '(now, s) := HighResolution s in
            let i := set_pre_prepare (mkPrePrepare 0 0 0 [] (c_value_digest c)) (new_PbftInstance now) in
            (set_out_instances (<[k := i]> (out_pbft_instances_ s)) s, i)
        end in
      if decide (pp_value_digest (pre_prepare_ i) ≠ c_value_digest c) then mret (s, false) else
      let i := set_commits (insert_new (c_replica_id c) c (commits_ i)) i in
      let s := set_out_instances (<[k := i]> (out_pbft_instances_ s)) s in
      mret (TryDoTraceOut s k i, true)
  end.

(** The view and sequence of a message of one of the three phases, and the index of its
    buffer. *)
Definition phase_message (p : Pbft) : option (PbftInstanceIndex * nat) :=
  match pbft_type p with
  | PBFT_TYPE_PREPREPARE => Some ((pp_view_number (pre_prepare_of p), pp_sequence (pre_prepare_of p)), 0%nat)
  | PBFT_TYPE_PREPARE => Some ((p_view_number (prepare_of p), p_sequence (prepare_of p)), 1%nat)
  | PBFT_TYPE_COMMIT => Some ((c_view_number (commit_of p), c_sequence (commit_of p)), 2%nat)
  | _ => None
  end.

Definition CreateInstanceIfNotExist s env : res (PbftObj * option PbftInstanceIndex) :=
  let p := pbft_of env in
  match phase_message p with
  | None => mret (s, None)
  | Some (k, slot) =>
      if negb (InWaterMark s k.2) || negb (view_number_ s =? k.1) then
        if (last_exe_seq_ s <? k.2) && bool_decide (pbft_type p = PBFT_TYPE_COMMIT) then
          '(s, _) ← TraceOutPbftCommit s env; mret (s, None)
        else mret (s, None)
      else if negb (view_active_ s) then mret (s, None)
      else if k.2 <=? last_exe_seq_ s then mret (s, None)
      else
        let s :=
          match instances_ s !! k with
          | Some _ => s
          | None =>
              let '(now, s) := HighResolution s in
              let s := set_instance k (new_PbftInstance now) s in
              set_instances (filter (λ e, ¬ (e.1.1 < k.1 ∧ e.1.2 = k.2)) (instances_ s)) s
          end in
        i ← instance_at s k;
        buf ← at_ (msg_buf_ i) slot;
        mret (set_instance k (set_msg_buf (<[slot := buf ++ [env]]> (msg_buf_ i)) i) s, Some k)
  end.

(** ** View changes *)

Definition ClearViewChanges s : PbftObj :=
  SaveViewChange (set_vc_instances
    (filter (λ e, ¬ (vci_end_time_ e.2 = 0 ∨ vci_view_number_ e.2 < view_number_ s - 5))
      (vc_instances_ s)) s).

(** Instances that survive a view change: committed, or prepared and not executed. *)
Definition drop_unprepared s : PbftObj :=
  set_instances (filter (λ e, phase_ e.2 = PBFT_PHASE_COMMITED ∨
    (phase_ e.2 = PBFT_PHASE_PREPARED ∧ last_exe_seq_ s < e.1.2)) (instances_ s)) s.

(** The leader that is abandoned gets one more abnormal record. *)
Definition record_abnormal s : PbftObj :=
  let vsize := Z.of_nat (size (validators_ s)) in
  match list_find (λ e, e.2 = Z.rem (view_number_ s) vsize) (map_to_list (validators_ s)) with
  | Some (_, (a, _)) =>
      set_abnormal_records (<[a := default 0 (abnormal_records_ s !! a) + 1]> (abnormal_records_ s)) s
  | None => s
  end.

Definition vc_at s (v : Z) : res PbftVcInstance :=
  match vc_instances_ s !! v with Some x => Ok x | None => Err NullDeref end.
Definition set_vc (v : Z) (x : PbftVcInstance) s : PbftObj :=
  set_vc_instances (<[v := x]> (vc_instances_ s)) s.

(** [v] is the key of [vc_instance] in [vc_instances_]. *)
Definition ProcessQuorumViewChange s (v : Z) : res (PbftObj * bool) :=
  x ← vc_at s v;
  let s := record_abnormal s in
  lead ← leads s (vci_view_number_ x);
  if negb lead then
    let id := timers_ s + 1 in
    mret (emit (AddTimer id (vci_view_number_ x) (pre_prepared_env_set x)) (set_timer id s), true)
  else
    let msg := NewNewView s x in
    let '(now, s) := HighResolution s in
    let x := set_newview now (new_view_round_ x) msg x in
    let '(s, _) := SendMessage (set_vc v x s) msg in
    let last_cons_value :=
      match ps_pre_prepare (pre_prepared_env_set x) with
      | Some e => pp_value (pre_prepare_of (pbft_of e))
      | None => []
      end in
    let s := drop_unprepared s in
    let s := set_view (vci_view_number_ x) true s in
    let s := save_view_active 1 s in
    let '(now, s) := HighResolution s in
    let s := set_vc v (ChangeComplete now x) s in
    let s := save_view_number (view_number_ s) s in
    let s := ClearViewChanges s in
    let s := emit ResetCloseTimer s in
    mret (emit (ViewChanged last_cons_value) s, true).

Definition OnViewChangeWithRawValue s env : res (PbftObj * bool) :=
  let p := pbft_of env in
  let raw := rawvalue_of p in
  let vc := view_change_of (pbft_of (default no_env (raw_view_change_env raw))) in
  let v := vc_view_number vc in
  if v =? view_number_ s then mret (s, true) else
  if v <? view_number_ s then mret (s, false) else
  let '(s, x) :=
    match vc_instances_ s !! v with
    | Some x => (s, x)
    | None => let '(now, s) := HighResolution s in
        (s, set_vc_seq (vc_sequence vc) (new_PbftVcInstance garbage now v))
    end in
  let x := if (vc_replica_id vc =? replica_id_ s) && negb (has_pbft (view_change_msg_ x))
           then set_view_change_msg env x else x in
  let x := match viewchanges_ x !! vc_replica_id vc with
           | Some _ => x
           | None => add_viewchange env vc x
           end in
  let seq_of (o : option PbftEnv) := pp_sequence (pre_prepare_of (pbft_of (default no_env o))) in
  let x := match raw_prepared_set raw with
           | None => x
           | Some set =>
               let msg_seq := seq_of (ps_pre_prepare set) in
               let last_seq := seq_of (ps_pre_prepare (pre_prepared_env_set x)) in
               if (last_seq <? msg_seq) && (last_exe_seq_ s <? msg_seq)
               then set_pre_prepared_env_set set x else x
           end in
  let s := set_vc v x s in
  if (GetQuorumSize s <? map_size (viewchanges_ x)) && (vci_end_time_ x =? 0) then
    '(s, ret) ← ProcessQuorumViewChange s v; mret (SaveViewChange s, ret)
  else mret (s, true).

(** The loop over the view changes of a new view message: the replicas, or [None].  The
    check is made on [env], the new view message, not on the view change. *)
Fixpoint check_view_changes env (validators : gmap bytes Z) (v : Z) (l : list PbftEnv) (ids : gset Z)
    : option (gset Z) :=
  match l with
  | [] => Some ids
  | e :: l =>
      if CheckMessageItem env validators then
        let vc := view_change_of (pbft_of e) in
        if decide (v = vc_view_number vc)
        then check_view_changes env validators v l ({[vc_replica_id vc]} ∪ ids) else None
      else None
  end.

Definition OnNewView s env : res (PbftObj * bool) :=
  let nv := new_view_of (pbft_of env) in
  let v := nv_view_number nv in
  if v =? view_number_ s then mret (s, true) else
  if v <? view_number_ s then mret (s, false) else
  let s := emit (DelTimer (new_view_repond_timer_ s)) s in
  lead ← leads s v;
  if lead : bool then mret (s, true) else
  let '(_, s) := HighResolution s in
  match check_view_changes env (validators_ s) v (nv_view_changes nv) ∅ with
  | None => mret (s, false)
  | Some ids =>
      if Z.of_nat (size ids) <=? GetQuorumSize s then mret (s, false) else
      let s := drop_unprepared s in
      let s := set_view v true s in
      let s := match vc_instances_ s !! v with
               | Some x => let '(now, s) := HighResolution s in set_vc v (ChangeComplete now x) s
               | None => s
               end in
      let s := ClearViewChanges s in
      let s := emit (ViewChanged []) s in
      mret (save_view_active 1 (save_view_number v s), true)
  end.

(** ** Entry points *)

(** [check] is the answer of [CheckValue] to the proposed value. *)
Definition OnRecv s env (check : bytes → CheckValueResult) : res (PbftObj * bool) :=
  if negb (CheckMessageItem env (validators_ s)) then mret (s, false) else
  let p := pbft_of env in
  match pbft_type p with
  | PBFT_TYPE_PREPREPARE | PBFT_TYPE_PREPARE | PBFT_TYPE_COMMIT =>
      let ret := if decide (pbft_type p = PBFT_TYPE_PREPREPARE)
                 then check (pp_value (pre_prepare_of p)) else CHECK_VALUE_VALID in
      '(s, o) ← CreateInstanceIfNotExist s env;
      match o with
      | Some k => Go s k env ret
      | None => mret (s, false)
      end
  | PBFT_TYPE_VIEWCHANG_WITH_RAWVALUE => OnViewChangeWithRawValue s env
  | PBFT_TYPE_NEWVIEW => OnNewView s env
  | _ => mret (s, false)
  end.

Definition Request s (value : bytes) : res (PbftObj * bool) :=
  lead ← leads s (view_number_ s);
  if negb lead then mret (s, false) else
  if negb (view_active_ s) then mret (s, false) else
  let s := set_instances (filter (λ e, ¬ (last_exe_seq_ s < e.1.2 ∧
    phase_lt (phase_ e.2) PBFT_PHASE_COMMITED = true)) (instances_ s)) s in
  let sequence := last_exe_seq_ s + 1 in
  let env := NewPrePrepare s value sequence in
  let '(now, s) := HighResolution s in
  let i := new_PbftInstance now in
  buf ← at_ (msg_buf_ i) 0;
  let i := set_msg_buf (<[0%nat := buf ++ [env]]> (msg_buf_ i))
    (set_pre_prepare (pre_prepare_of (pbft_of env))
      (set_phase PBFT_PHASE_PREPREPARED (set_pre_prepare_msg env i))) in
  let '(s, sent) := SendMessage (set_instance (view_number_ s, sequence) i s) env in
  mret (s, sent).

Definition OnTxTimeout s : res PbftObj :=
  if negb (is_validator_ s) then mret s else
  let s := set_view (view_number_ s) false s in
  msg ← NewViewChangeRawValue s (view_number_ s + 1) no_prepared_set;
  let '(s, _) := SendMessage s msg in
  mret (save_view_active 0 s).

(** The callback of the timer set by [ProcessQuorumViewChange]. *)
Definition OnNewViewTimer s (data : Z) (set : PbftPreparedSet) : res PbftObj :=
  if view_active_ s then mret s else
  msg ← NewViewChangeRawValue s (data + 1) set;
  let '(s, _) := SendMessage s msg in mret s.

(** The first loop of [OnTimer]: the object and the last prepared instance. *)
Fixpoint timer_loop (keys : list PbftInstanceIndex) (now : Z) s (last : option PbftInstanceIndex)
    : res (PbftObj * option PbftInstanceIndex) :=
  match keys with
  | [] => mret (s, last)
  | k :: keys =>
      i ← instance_at s k;
      s ← (if IsExpire i now && negb (have_send_viewchange_ i) then
             s ← OnTxTimeout s; mret (set_instance k (set_have_send_viewchange true i) s)
           else mret s);
      i ← instance_at s k;
      let s :=
        if NeedSendAgain i now && view_active_ s && has_pbft (pre_prepare_msg_ i) then
          let round := u32 (pre_prepare_round_ i + 1) in
          let '(s, _) := SendMessage s (IncPeerMessageRound (pre_prepare_msg_ i) round) in
          set_instance k (SetLastProposeTime now (set_pre_prepare_round round i)) s
        else s in
      timer_loop keys now s (if phase_lt (phase_ i) PBFT_PHASE_PREPARED then last else Some k)
  end.

(** The second loop, over the view changes. *)
Fixpoint timer_vc_loop (keys : list Z) (now : Z) s (last : option Z) : res (PbftObj * option Z) :=
  match keys with
  | [] => mret (s, last)
  | v :: keys =>
      x ← vc_at s v;
      let '(s, x) :=
        if vc_NeedSendAgain x now && has_pbft (view_change_msg_ x) then
          let round := u32 (view_change_round_ x + 1) in
          let '(s, _) := SendMessage s (IncPeerMessageRound (view_change_msg_ x) round) in
          let x := set_vc_resent round now x in (set_vc v x s, x)
        else (s, x) in
      if vc_NeedSendNewViewAgain x now then
        lead ← leads s (vci_view_number_ x);
        timer_vc_loop keys now s (if lead : bool then Some v else last)
      else timer_vc_loop keys now s last
  end.

Definition OnTimer s (now : Z) : res PbftObj :=
  '(s, last) ← timer_loop ((in_order (instances_ s)).*1) now s None;
  s ← match last with
      | None => mret s
      | Some k =>
          i ← instance_at s k;
          if bool_decide (check_value_result_ i = CHECK_VALUE_VALID) && NeedSendCommitAgain i now then
            match in_key_order (prepares_ i) with
            | [] => Err NullDeref
            | (_, prep) :: _ =>
                let round := u32 (commit_round_ i + 1) in
                let '(s, _) := SendMessage s (NewCommit s prep round) in
                mret (set_instance k (SetLastCommitSendTime now (set_commit_round round i)) s)
            end
          else mret s
      end;
  '(s, lastvc) ← timer_vc_loop ((in_key_order (vc_instances_ s)).*1) now s None;
  match lastvc with
  | None => mret s
  | Some v =>
      x ← vc_at s v;
      let round := u32 (new_view_round_ x + 1) in
      let s := set_vc v (set_newview now round (newview_ x) x) s in
      let '(s, _) := SendMessage s (IncPeerMessageRound (newview_ x) round) in
      mret s
  end.

(** ** Validators *)

Definition ClearNotCommitedInstance s : PbftObj :=
  set_instances (filter (λ e, phase_lt (phase_ e.2) PBFT_PHASE_COMMITED = false) (instances_ s)) s.

(** Whether the new list differs from the validators in place. *)
Fixpoint same_positions (l : list bytes) (index : Z) (m : gmap bytes Z) : bool :=
  match l with
  | [] => true
  | a :: l =>
      match m !! a with
      | None => false
      | Some i => if decide (i = index) then same_positions l (index + 1) m else false
      end
  end.

Definition UpdateValidators s (validators : list bytes) (proof : bytes) : res (PbftObj * bool) :=
  let targets : option (Z * Z) :=
    if decide (proof = []) then Some (0, -1) else
    match ParseProof proof with
    | None => None
    | Some [] => Some (-1, -1)
    | Some (env :: _) =>
        let c := commit_of (pbft_of env) in
        Some (if view_number_ s <=? c_view_number c then c_view_number c + 1 else -1,
              if last_exe_seq_ s <? c_sequence c then c_sequence c else -1)
    end in
  match targets with
  | None => mret (s, false)
  | Some (new_view_number, new_seq) =>
      let changed := negb (Z.of_nat (length validators) =? Z.of_nat (size (validators_ s))) ||
                     negb (same_positions validators 0 (validators_ s)) in
      s ← (if changed then
             let s := Consensus_UpdateValidators s validators in
             let s := set_fault_number (u64 (Z.of_nat (size (validators_ s)) - 1) / 3) s in
             s ← SaveValidators s;
             _ ← leads s (view_number_ s);
             let s := emit ResetCloseTimer (ClearNotCommitedInstance s) in
             mret (set_abnormal_records ∅ s)
           else mret s);
      let s := if 0 <? new_seq then save_last_exe_seq new_seq (set_last_exe_seq new_seq s) else s in
      if (0 <? new_view_number) || (0 <? new_seq) then
        let s := ClearNotCommitedInstance s in
        let s := set_view (if 0 <? new_view_number then new_view_number else view_number_ s) true s in
        _ ← (if 0 <=? replica_id_ s then IsLeader s else mret 0);
        let s := save_view_number (view_number_ s) (save_view_active 1 s) in
        let s := set_vc_instances
          (filter (λ e, ¬ (vci_end_time_ e.2 = 0 ∨ vci_view_number_ e.2 < view_number_ s - 5))
            (vc_instances_ s)) s in
        mret (emit ResetCloseTimer s, true)
      else mret (s, true)
  end.

(** ** Starting up *)

Definition new_Pbft (db : PbftDb) (ticks : nat) : PbftObj :=
  mkObj false (-1) ∅ ∅ 0 1 0 true ∅ ∅ 0 ∅ db [] (S ticks) 0.

(** A view-change instance as it is loaded: the fields that are saved, over a new one. *)
Definition load_vc (s : PbftObj) (e : Z * PbftVcInstance) : PbftObj :=
  let '(v, y) := e in
  let '(s, x) :=
    match vc_instances_ s !! v with
    | Some x => (s, x)
    | None => let '(now, s) := HighResolution s in (s, new_PbftVcInstance garbage now 0)
    end in
  set_vc v (mkVcInstance (view_change_msg_ y) (vci_view_number_ y) (seq x)
    (foldl (λ m e, insert_new (vc_replica_id e.2) e.2 m) (viewchanges_ x) (in_key_order (viewchanges_ y)))
    (pre_prepared_env_set x) (view_change_round_ y) (vci_msg_buf_ x ++ vci_msg_buf_ y)
    (vci_start_time_ y) (vci_last_propose_time_ y) (vci_end_time_ y) (last_newview_time_ y)
    (newview_ y) (new_view_round_ y)) s.

Definition LoadValues s : PbftObj :=
  let active := default 1 (db_view_active (db_ s)) in
  let s := set_view (default (view_number_ s) (db_view_number (db_ s))) (0 <? active) s in
  match db_vc_instances (db_ s) with
  | Some l => foldl load_vc s l
  | None => s
  end.

Definition LoadValidators s : PbftObj :=
  match db_validators (db_ s) with
  | Some l => Consensus_UpdateValidators s l
  | None => s
  end.

Definition Initialize s (key_is_valid : bool) : PbftObj * bool :=
  if key_is_valid then (LoadValues s, true) else (s, false).

Definition ClearStatus (db : PbftDb) : PbftDb :=
  mkDb None None (db_last_exe_seq db) (db_validators db) None.
End handlers.
