(* ===== verification/PbftInv.v ===== *)
(** * Invariants of the replica

    [Inv past V s]: with the validators [V], every instance is consistent, every executed
    value is backed by the commits of a quorum of one of the validator sets [past] that were
    in force, and values are executed in increasing sequence order.  Every handler keeps it;
    [UpdateValidators] takes it to the new validators: instances under way under the old ones
    are dropped, committed ones keep the certificate they have. *)
From Stdlib Require Import ZArith Lia.
From stdpp Require Import base gmap list sorting.
From S2P Require Import Prelude PbftMsg Pbft PbftQuorum PbftHandlers.

Open Scope Z_scope.

Create HintDb pbft discriminated.
#[export] Hint Unfold save_view_active save_view_number save_last_exe_seq SaveViewChange ClearViewChanges
  drop_unprepared set_vc : pbft.

Section certificates.
Context `{PbftContext} (V : gmap bytes Z).
Implicit Types (k : PbftInstanceIndex) (p : Pbft).

(** The validator [a] signed a message with the commit [c]. *)
Definition committed_by (a : bytes) (c : PbftCommit) : Prop :=
  ∃ env, pbft_commit (pbft_of env) = Some c ∧ signed_commit V (c_value_digest c) env a.
Definition from_validator (c : PbftCommit) : Prop := ∃ a, committed_by a c.
Definition quorum : Z := u64 (QuorumSize (Z.of_nat (size V)) + 1).

(** A message for buffer [t] of the instance [k], received under the validators [V]. *)
Definition msg_ok k (t : nat) p : Prop :=
  phase_message p = Some (k, t) ∧ (t = 2%nat → from_validator (commit_of p)).

(** The commits counted for the instance [k] with proposal [pp]: an empty digest can only
    be counted before the proposal is known. *)
Definition commits_ok k (pp : PbftPrePrepare) (m : gmap Z PbftCommit) : Prop :=
  ∀ r c, m !! r = Some c → c_replica_id c = r ∧ from_validator c ∧
    (c_view_number c, c_sequence c) = k ∧
    (c_value_digest c = pp_value_digest pp ∨ c_value_digest c = []).
End certificates.

Section invariant.
Context `{PbftContext} (past : gmap bytes Z → Prop) (V : gmap bytes Z) (Hpast : past V).
Implicit Types (s : PbftObj) (k : PbftInstanceIndex) (i : PbftInstance) (p : Pbft).

(** An instance under way has messages of the current validators only; a committed one had
    the commits of a quorum of the validators of its time. *)
Record inst_ok k i : Prop := {
  io_buf : length (msg_buf_ i) = PBFT_PHASE_MAX;
  io_msgs t buf env : msg_buf_ i !! t = Some buf → env ∈ buf → phase_message (pbft_of env) = Some (k, t);
  io_from buf env : phase_ i ≠ PBFT_PHASE_COMMITED → msg_buf_ i !! 2%nat = Some buf → env ∈ buf →
    from_validator V (commit_of (pbft_of env));
  io_none : phase_ i = PBFT_PHASE_NONE → pre_prepare_ i = no_pre_prepare;
  io_digest : pp_value_digest (pre_prepare_ i) = Crypto (pp_value (pre_prepare_ i)) ∨
    pp_value_digest (pre_prepare_ i) = [];
  io_commits : phase_ i ≠ PBFT_PHASE_COMMITED → commits_ok V k (pre_prepare_ i) (commits_ i);
  io_quorum : phase_ i = PBFT_PHASE_COMMITED → ∃ U cs, past U ∧ quorum U ≤ map_size cs ∧
    commits_ok U k (pre_prepare_ i) cs;
  io_first : phase_ i = PBFT_PHASE_PREPREPARED ∨ phase_ i = PBFT_PHASE_PREPARED →
    ∃ env l, msg_buf_ i !! 0%nat = Some (env :: l);
  io_prepares : last_commit_send_time_ i ≠ 0 → prepares_ i ≠ ∅ }.

(** A value is executed at sequence [q] with the commits of a quorum of validators in force
    at some time, all for one view and this sequence; their digest is that of the value. *)
Definition justified (e : event) : Prop :=
  match e with
  | ValueCommited q v _ => ∃ U view (cs : gmap Z PbftCommit), past U ∧ quorum U ≤ map_size cs ∧
      ∀ r c, cs !! r = Some c → c_replica_id c = r ∧ from_validator U c ∧
        c_view_number c = view ∧ c_sequence c = q ∧
        (c_value_digest c = Crypto v ∨ c_value_digest c = [])
  | _ => True
  end.

(** The sequence numbers executed so far. *)
Fixpoint executed (l : list event) : list Z :=
  match l with
  | [] => []
  | ValueCommited q _ _ :: l => q :: executed l
  | _ :: l => executed l
  end.

Lemma executed_app l1 l2 : executed (l1 ++ l2) = executed l1 ++ executed l2.
Proof. induction l1 as [|[] l1 IH]; simpl; by rewrite ?IH. Qed.

Record Inv s : Prop := {
  inv_validators : validators_ s = V;
  inv_instances k i : instances_ s !! k = Some i → inst_ok k i;
  inv_events : Forall justified (events_ s);
  inv_sorted : StronglySorted Z.lt (executed (events_ s));
  inv_last q : q ∈ executed (events_ s) → q ≤ last_exe_seq_ s }.

(** ** Steps that keep the invariant *)

(** [s'] agrees with [s] on what the invariant reads, except that instances may be
    gone, other events recorded and the execution pointer advanced. *)
Lemma Inv_frame s s' :
  Inv s → validators_ s' = validators_ s → instances_ s' ⊆ instances_ s →
  (∃ l, events_ s' = events_ s ++ l ∧ executed l = []) → last_exe_seq_ s ≤ last_exe_seq_ s' → Inv s'.
Proof.
  intros [I1 I2 I3 I4 I5] Ev Ei (l & El & Ex) Ell. split.
  - congruence.
  - intros k i Hk. by apply I2, (lookup_weaken _ _ _ _ Hk).
  - rewrite El. apply Forall_app. split; [done|]. clear -Ex. induction l as [|[] l IH]; simpl in *; try done;
      constructor; auto; done.
  - rewrite El, executed_app, Ex, app_nil_r. done.
  - rewrite El, executed_app, Ex, app_nil_r. intros q Hq%I5. lia.
Qed.

Ltac frame := eapply Inv_frame; [eassumption|reflexivity|first [reflexivity|apply map_filter_subseteq]
  |first [exists []; split; [by rewrite app_nil_r|done]|eexists; split; [reflexivity|done]]|reflexivity].

Lemma Inv_set s k i : Inv s → inst_ok k i → Inv (set_instance k i s).
Proof.
  intros [I1 I2 I3 I4 I5] Hi. split; cbn [set_instance set_instances validators_ instances_ events_ last_exe_seq_]; try done.
  intros k' i'. rewrite lookup_insert_Some. intros [[<- <-]|[_ ?]]; eauto.
Qed.

Lemma Inv_filter s (P : PbftInstanceIndex * PbftInstance → Prop) `{∀ x, Decision (P x)} :
  Inv s → Inv (set_instances (filter P (instances_ s)) s).
Proof. intros Hi. frame. Qed.

Lemma Inv_tick s : Inv s → Inv (tick s).
Proof. intros Hi. frame. Qed.

Lemma Inv_send s m s' b : Inv s → SendMessage s m = (s', b) → Inv s'.
Proof. unfold SendMessage. intros Hi [= <- _]. destruct (is_validator_ s); [|done]. frame. Qed.

(** Name the outcome of a [SendMessage] in [Hs]. *)
Ltac case_send Hs :=
  match type of Hs with
  | context [SendMessage ?x ?m] =>
      let s1 := fresh "s" in let b1 := fresh "sent" in let Es := fresh "Esend" in
      destruct (SendMessage x m) as [s1 b1] eqn:Es
  end.

Lemma send_instances s m s' b : SendMessage s m = (s', b) → instances_ s' = instances_ s.
Proof. unfold SendMessage. intros [= <- _]. by destruct (is_validator_ s). Qed.

Lemma Inv_at s k i : Inv s → instance_at s k = Ok i → inst_ok k i ∧ instances_ s !! k = Some i.
Proof.
  unfold instance_at. intros [_ I2 _ _ _]. destruct (instances_ s !! k) eqn:E; [|done]. intros [= <-]. auto.
Qed.

(** ** Consistency of the instances *)

Lemma new_inst_ok k now : inst_ok k (new_PbftInstance now).
Proof.
  split; cbn; try done.
  - intros t buf env Ht. do 4 (destruct t as [|t]; [simpl in Ht; simplify_eq; by intros ?%not_elem_of_nil|]). done.
  - intros buf env _ [= <-]. by intros ?%not_elem_of_nil.
  - by right.
  - by intros [|].
Qed.

Lemma push_ok k i t buf env :
  inst_ok k i → msg_buf_ i !! t = Some buf → msg_ok V k t (pbft_of env) →
  inst_ok k (set_msg_buf (<[t := buf ++ [env]]> (msg_buf_ i)) i).
Proof.
  intros [H1 H2 Hf H3 H4 H5 H6 H7 H8] Ht [Hm Hv]. apply lookup_lt_Some in Ht as Hlt. split; cbn; try done.
  - by rewrite length_insert.
  - intros t' buf' e. rewrite lookup_insert_list by done.
    case_decide as E; [subst t'|by apply H2]. intros [= <-] [He|He]%elem_of_app; [by eapply H2|].
    apply list_elem_of_singleton in He. by subst.
  - intros buf' e Hp. rewrite lookup_insert_list by done.
    case_decide as E; [subst t|by apply Hf]. intros [= <-] [He|He]%elem_of_app; [by eapply Hf|].
    apply list_elem_of_singleton in He. subst. by apply Hv.
  - intros Hp. destruct (H7 Hp) as (e & l & He). destruct t as [|t].
    + rewrite Ht in He. simplify_eq. exists e, (l ++ [env]). rewrite list_lookup_insert_eq; [done|].
      by apply lookup_lt_Some in Ht.
    + exists e, l. by rewrite list_lookup_insert_ne.
Qed.

Lemma item_ok k i n : inst_ok k i → inst_ok k (set_phase_item n i).
Proof. intros []. by split. Qed.

Lemma prepreparing_ok k i pp check :
  inst_ok k i → phase_ i = PBFT_PHASE_NONE → pp_value_digest pp = Crypto (pp_value pp) →
  (∃ env l, msg_buf_ i !! 0%nat = Some (env :: l)) →
  inst_ok k (set_check_value_result check (set_pre_prepare pp (set_phase PBFT_PHASE_PREPREPARED i))).
Proof.
  intros [H1 H2 Hfr H3 H4 H5 H6 H7 H8] Hn Hd Hf. split; cbn; try done; [|by left|].
  { intros buf env _. apply Hfr. by rewrite Hn. }
  intros _ r c Hc. destruct (H5 ltac:(by rewrite Hn) r c Hc) as (E1 & E2 & E3 & E4). split_and!; try done. right.
  rewrite (H3 Hn) in E4. by destruct E4.
Qed.

Lemma prepare_ok k i n x : inst_ok k i → inst_ok k (set_prepares (insert_new n x (prepares_ i)) i).
Proof.
  intros [H1 H2 Hf H3 H4 H5 H6 H7 H8]. split; cbn; try done. intros _. unfold insert_new.
  destruct (prepares_ i !! n) eqn:E; [intros Hx; by rewrite Hx, lookup_empty in E|apply insert_non_empty].
Qed.

Lemma prepared_ok k i :
  inst_ok k i → phase_ i ≠ PBFT_PHASE_NONE →
  inst_ok k (if phase_lt (phase_ i) PBFT_PHASE_PREPARED then set_phase PBFT_PHASE_PREPARED i else i).
Proof.
  intros Hi Hn. case_match eqn:Ep; [|done]. pose proof Hi as [H1 H2 Hf H3 H4 H5 H6 H7 H8].
  assert (phase_ i ≠ PBFT_PHASE_COMMITED) as Hc by (intros Ec; by rewrite Ec in Ep).
  split; cbn; try done; [intros ? ? _; by apply Hf|intros _; by apply H5|].
  intros _. apply H7. destruct (phase_ i); try done; by left.
Qed.

Lemma commit_time_ok k i now :
  inst_ok k i → prepares_ i ≠ ∅ → inst_ok k (SetLastCommitSendTime now i).
Proof. intros [H1 H2 Hf H3 H4 H5 H6 H7 H8] Hp. by split. Qed.

Lemma commit_ok k i c :
  inst_ok k i → phase_ i ≠ PBFT_PHASE_COMMITED → from_validator V c → (c_view_number c, c_sequence c) = k →
  pp_value_digest (pre_prepare_ i) = c_value_digest c →
  commits_ok V k (pre_prepare_ i) (<[c_replica_id c := c]> (commits_ i)).
Proof.
  intros Hi Hp Hf Hk Hd r c'. rewrite lookup_insert_Some. intros [[<- <-]|[_ Hc]].
  - split_and!; try done. by left.
  - by apply (io_commits _ _ Hi).
Qed.

(** ** Execution *)

Lemma exec_loop_inv keys : ∀ s s', Inv s → exec_loop keys s = Ok s' →
  Inv s' ∧ last_exe_seq_ s ≤ last_exe_seq_ s' ∧ view_number_ s' = view_number_ s ∧
  instances_ s' ⊆ instances_ s.
Proof.
  induction keys as [|k keys IH]; intros s s' Hi Hs; simpl in Hs; [by invert_ok|].
  destruct (instances_ s !! k) as [i|] eqn:Ek; [|by apply IH]. case_match; [by apply IH|].
  case_match eqn:Ec; [|by invert_ok]. apply andb_true_iff in Ec as [Eq Ep]. apply Z.eqb_eq in Eq.
  invert_ok. pose proof Hi as [I1 I2 I3 I4 I5]. specialize (I2 _ _ Ek).
  apply IH in Hs as (J1 & J2 & J3 & J4).
  - split_and!; [done| | |].
    + cbn in J2. lia.
    + done.
    + etrans; [exact J4|]. apply map_filter_subseteq.
  - split; cbn [set_instances emit set_last_exe_seq validators_ instances_ events_ last_exe_seq_]; try done.
    + intros k' i' [Hk' _]%map_lookup_filter_Some. by apply (inv_instances _ Hi).
    + apply Forall_app. split; [done|]. constructor; [|done]. simpl.
      destruct (io_quorum _ _ I2) as (U & cs & HU & Hcq & Hcs); [by destruct (phase_ i)|].
      exists U, k.1, cs. split_and!; [done|done|].
      * intros r c Hc. destruct (Hcs r c Hc) as (E1 & E2 & E3 & E4).
        pose proof (f_equal fst E3) as E5. pose proof (f_equal snd E3) as E6. simpl in E5, E6. split_and!; try done.
        destruct E4 as [E4|E4]; [|by right]. rewrite E4. apply (io_digest _ _ I2).
    + rewrite executed_app. simpl. apply StronglySorted_app. split_and!; [|done|repeat constructor].
      intros x y Hx%I5 Hy. apply list_elem_of_singleton in Hy. lia.
    + rewrite executed_app. simpl. intros q [Hq%I5|Hq]%elem_of_app; [lia|].
      apply list_elem_of_singleton in Hq. lia.
Qed.

(** ** The three phases *)

(** A handler keeps the invariant, the view, and does not move execution back. *)
Definition keeps s s' : Prop :=
  Inv s' ∧ last_exe_seq_ s ≤ last_exe_seq_ s' ∧ view_number_ s' = view_number_ s.

Lemma keeps_same s s' :
  Inv s' → last_exe_seq_ s' = last_exe_seq_ s → view_number_ s' = view_number_ s → keeps s s'.
Proof. intros. split_and!; [done|lia|done]. Qed.

Lemma keeps_refl s : Inv s → keeps s s.
Proof. intros. by apply keeps_same. Qed.

Lemma keeps_trans s1 s2 s3 : keeps s1 s2 → keeps s2 s3 → keeps s1 s3.
Proof. intros (_ & ? & ?) (? & ? & ?). split_and!; [done|lia|congruence]. Qed.

Lemma keeps_send s m s' b : Inv s → SendMessage s m = (s', b) → keeps s s'.
Proof.
  intros Hi Hs. apply keeps_same; [by eapply Inv_send|..]; unfold SendMessage in Hs;
    injection Hs as <- _; by destruct (is_validator_ s).
Qed.

(** Message [t] may be handled by the instance [i]. *)
Definition ready (t : nat) i : Prop :=
  phase_ i = PBFT_PHASE_NONE → t ≠ 1%nat ∧ (t = 0%nat → ∃ env l, msg_buf_ i !! 0%nat = Some (env :: l)).

Lemma OnPrePrepare_keeps s k p check s' b :
  Inv s → (∀ i, instances_ s !! k = Some i → ready 0 i) →
  OnPrePrepare s k p check = Ok (s', b) → keeps s s'.
Proof.
  intros Hi Hr Hs. unfold OnPrePrepare in Hs. invert_ok. case_match; [invert_ok; by apply keeps_refl|].
  case_decide as Ed; [invert_ok; by apply keeps_refl|]. case_decide; [invert_ok; by apply keeps_refl|].
  invert_ok. destruct (Inv_at _ _ _ Hi E0) as [Hio Hk].
  case_decide as Ep.
  - case_decide; [invert_ok; by apply keeps_refl|]. case_decide; [invert_ok; by apply keeps_refl|].
    case_send Hs. invert_ok. by eapply keeps_send.
  -
    assert (Inv (set_instance k (set_check_value_result check
      (set_pre_prepare (pre_prepare_of p) (set_phase PBFT_PHASE_PREPREPARED a0))) s)) as Hi'.
    { apply Inv_set; [done|]. apply prepreparing_ok; try done. by apply (Hr _ Hk). }
    case_decide; [invert_ok; by apply keeps_same|].
    case_send Hs. invert_ok. eapply keeps_trans; [|eapply keeps_send; [exact Hi'|exact Esend]].
    by apply keeps_same.
Qed.

Lemma OnPrepare_keeps s k p s' b :
  Inv s → (∀ i, instances_ s !! k = Some i → ready 1 i) →
  OnPrepare s k p = Ok (s', b) → keeps s s'.
Proof.
  intros Hi Hr Hs. unfold OnPrepare in Hs. invert_ok. destruct (Inv_at _ _ _ Hi E) as [Hio Hk].
  assert (Hph : phase_ a ≠ PBFT_PHASE_NONE) by (intros Hn; by destruct (Hr _ Hk Hn)).
  case_decide; [invert_ok; by apply keeps_refl|].
  set (i1 := set_prepares _ a) in *.
  assert (Hi1 : inst_ok k i1) by (by apply prepare_ok).
  assert (Hn1 : phase_ i1 ≠ PBFT_PHASE_NONE) by done.
  assert (Hp1 : prepares_ i1 ≠ ∅).
  { cbn. unfold insert_new. destruct (prepares_ a !! _) eqn:E1;
      [intros Hx; by rewrite Hx, lookup_empty in E1|apply insert_non_empty]. }
  pose proof (Inv_set s k i1 Hi Hi1) as J1.
  case_match; [|invert_ok; by apply keeps_same].
  set (i2 := if phase_lt (phase_ i1) PBFT_PHASE_PREPARED then _ else i1) in *.
  assert (Hi2 : inst_ok k i2) by (by apply prepared_ok).
  assert (Hp2 : prepares_ i2 = prepares_ i1) by (unfold i2; by destruct (phase_lt _ _)).
  pose proof (Inv_set _ k i2 J1 Hi2) as J2.
  case_decide; [|invert_ok; by apply keeps_same].
  cbn [HighResolution] in Hs. unfold HighResolution in Hs. case_send Hs. invert_ok.
  eapply keeps_trans; [|eapply keeps_send; [|exact Esend]].
  - apply keeps_same; [|done|done]. apply Inv_set; [by apply Inv_tick|]. apply commit_time_ok; congruence.
  - apply Inv_set; [by apply Inv_tick|]. apply commit_time_ok; congruence.
Qed.

(** The commit in [p] may be counted for the instance [k]. *)
Definition countable s k p : Prop :=
  ∀ i, instances_ s !! k = Some i → phase_ i ≠ PBFT_PHASE_COMMITED → from_validator V (commit_of p).

(** The instance with one more commit, its phase moved on when this makes a quorum. *)
Lemma committed_ok k i m now :
  inst_ok k i → phase_ i ≠ PBFT_PHASE_COMMITED → commits_ok V k (pre_prepare_ i) m → quorum V ≤ map_size m →
  inst_ok k (set_end_time now (set_phase PBFT_PHASE_COMMITED (set_commits m i))).
Proof.
  intros [H1 H2 Hf H3 H4 H5 H6 H7 H8] Hp Hm Hq. split; cbn; try done; [|by intros [|]]. intros _. by exists V, m.
Qed.

Lemma commit_key k p :
  phase_message p = Some (k, 2%nat) → (c_view_number (commit_of p), c_sequence (commit_of p)) = k.
Proof. clear Hpast. unfold phase_message. destruct (pbft_type p); congruence. Qed.

Lemma OnCommit_keeps s k p s' b :
  Inv s → phase_message p = Some (k, 2%nat) → countable s k p → OnCommit s k p = Ok (s', b) → keeps s s'.
Proof.
  intros Hi Hm Hf Hs. unfold OnCommit in Hs. invert_ok. destruct (Inv_at _ _ _ Hi E) as [Hio Hk].
  case_decide as Ed; [invert_ok; by apply keeps_refl|].
  destruct (commits_ a !! c_replica_id (commit_of p)); [invert_ok; by apply keeps_refl|].
  case_match eqn:Eq.
  - unfold HighResolution in Hs. unfold TryExecuteValue in Hs. invert_ok.
    apply andb_true_iff in Eq as [Eq%Z.leb_le Ep].
    assert (phase_ a ≠ PBFT_PHASE_COMMITED) as Hph by (intros Ec; cbn in Ep; by rewrite Ec in Ep).
    pose proof (commit_ok k a _ Hio Hph (Hf _ Hk Hph) (commit_key _ _ Hm) Ed) as Hc.
    unfold GetQuorumSize in Eq. rewrite (inv_validators _ Hi) in Eq.
    assert (Inv (set_instance k (set_end_time (clock (ticks_ s)) (set_phase PBFT_PHASE_COMMITED
      (set_commits (<[c_replica_id (commit_of p) := commit_of p]> (commits_ a)) a))) (tick s))) as Hi'
      by (apply Inv_set; [by apply Inv_tick|by apply committed_ok]).
    apply exec_loop_inv in E0 as (J1 & J2 & J3 & _); [by split_and!|exact Hi'].
  - invert_ok. apply keeps_same; [|done|done]. apply Inv_set; [done|].
    pose proof Hio as [H1 H2 Hfr H3 H4 H5 H6 H7 H8]. split; cbn; try done.
    intros Hph. apply commit_ok; [done|done|by eapply Hf|by apply commit_key|done].
Qed.

Lemma dispatch_keeps s k t p check ret s' b :
  Inv s → phase_message p = Some (k, t) → (t = 2%nat → countable s k p) →
  (∀ i, instances_ s !! k = Some i → ready t i) →
  dispatch s k p check ret = Ok (s', b) → keeps s s'.
Proof.
  intros Hi Hm Hf Hr Hs. unfold dispatch in Hs. pose proof Hm as Ht. unfold phase_message in Ht.
  destruct (pbft_type p); try (invert_ok; by apply keeps_refl); injection Ht as _ <-.
  - by eapply OnPrePrepare_keeps.
  - by eapply OnPrepare_keeps.
  - eapply OnCommit_keeps; eauto.
Qed.

Lemma go_loop_keeps fuel : ∀ s k check ret s' b,
  Inv s → go_loop fuel s k check ret = Ok (s', b) → keeps s s'.
Proof.
  induction fuel as [|fuel IH]; intros s k check ret s' b Hi Hs; simpl in Hs; invert_ok;
    destruct (a0 !! phase_item_ a) as [env|] eqn:Ee; try done; try (invert_ok; by apply keeps_refl).
  invert_ok. destruct (Inv_at _ _ _ Hi E) as [Hio Hk]. destruct a1 as [s1 ret1].
  set (s0 := set_instance k _ s) in *.
  assert (Hi0 : Inv s0) by (apply Inv_set; [done|by apply item_ok]).
  assert (Hin : env ∈ a0) by (by apply list_elem_of_lookup_2 in Ee).
  assert (Hd : keeps s0 s1).
  { eapply dispatch_keeps; [exact Hi0|exact (io_msgs _ _ Hio _ _ _ E0 Hin)| | |exact E1].
    { intros Ht i. cbn. rewrite lookup_insert_eq. intros [= <-] Hn. cbn in Hn. rewrite Ht in E0.
      by eapply (io_from _ _ Hio). }
    intros i. cbn. rewrite lookup_insert_eq. intros [= <-] Hn. cbn in Hn. cbn [msg_buf_ set_phase_item].
    rewrite Hn in *. split; [done|]. intros _. destruct a0; [done|]. eauto. }
  eapply keeps_trans; [|eapply IH; [apply Hd|exact Hs]]. eapply keeps_trans; [|exact Hd]. by apply keeps_same.
Qed.

Lemma Go_keeps s k t env check s' b :
  Inv s → msg_ok V k t (pbft_of env) → Go s k env check = Ok (s', b) → keeps s s'.
Proof.
  intros Hi Hm Hs. unfold Go in Hs. invert_ok. destruct (Inv_at _ _ _ Hi E) as [Hio Hk].
  case_match eqn:Et; [|by eapply go_loop_keeps]. invert_ok. destruct a0 as [s1 b1]. invert_ok.
  destruct Hm as [Hm Hf]. eapply dispatch_keeps; [done|exact Hm| | |exact E0].
  { intros Ht i _ _. by apply Hf. }
  intros i Hk' Hn. rewrite Hk in Hk'. simplify_eq.
  rewrite Hn in Et. apply Z.ltb_lt in Et. unfold phase_message in Hm.
  destruct (pbft_type (pbft_of env)); simpl in Et; try lia; done.
Qed.

(** ** Other steps *)

(** The invariant holds in [s'], and execution did not move back since [s]. *)
Definition moves s s' : Prop := Inv s' ∧ last_exe_seq_ s ≤ last_exe_seq_ s'.

Lemma keeps_moves s s' : keeps s s' → moves s s'.
Proof. by intros (? & ? & _). Qed.

Lemma moves_refl s : Inv s → moves s s.
Proof. intros. split; [done|lia]. Qed.

Lemma moves_trans s1 s2 s3 : moves s1 s2 → moves s2 s3 → moves s1 s3.
Proof. intros [_ ?] [? ?]. split; [done|lia]. Qed.

Section setters.
Context (s0 : PbftObj).

Lemma mv_view v b s : moves s0 s → moves s0 (set_view v b s).
Proof. intros [Hi ?]. split; [frame|done]. Qed.
Lemma mv_db d s : moves s0 s → moves s0 (set_db d s).
Proof. intros [Hi ?]. split; [frame|done]. Qed.
Lemma mv_vc m s : moves s0 s → moves s0 (set_vc_instances m s).
Proof. intros [Hi ?]. split; [frame|done]. Qed.
Lemma mv_out m s : moves s0 s → moves s0 (set_out_instances m s).
Proof. intros [Hi ?]. split; [frame|done]. Qed.
Lemma mv_timer n s : moves s0 s → moves s0 (set_timer n s).
Proof. intros [Hi ?]. split; [frame|done]. Qed.
Lemma mv_abnormal m s : moves s0 s → moves s0 (set_abnormal_records m s).
Proof. intros [Hi ?]. split; [frame|done]. Qed.
Lemma mv_tick s : moves s0 s → moves s0 (tick s).
Proof. intros [Hi ?]. split; [frame|done]. Qed.
Lemma mv_filter (P : PbftInstanceIndex * PbftInstance → Prop) `{∀ x, Decision (P x)} s :
  moves s0 s → moves s0 (set_instances (filter P (instances_ s)) s).
Proof. intros [Hi ?]. split; [by apply Inv_filter|done]. Qed.
Lemma mv_set k i s : moves s0 s → inst_ok k i → moves s0 (set_instance k i s).
Proof. intros [Hi ?] ?. split; [by apply Inv_set|done]. Qed.
Lemma mv_emit e s : executed [e] = [] → moves s0 s → moves s0 (emit e s).
Proof.
  intros He [Hi ?]. split; [|done]. eapply Inv_frame; [exact Hi|reflexivity|reflexivity| |reflexivity].
  by exists [e].
Qed.
Lemma mv_last n s : moves s0 s → last_exe_seq_ s ≤ n → moves s0 (set_last_exe_seq n s).
Proof.
  intros [Hi ?] Hn. split; [|cbn; lia]. eapply Inv_frame; [exact Hi|reflexivity|reflexivity| |exact Hn].
  exists []. by rewrite app_nil_r.
Qed.
Lemma mv_send m s s' b : SendMessage s m = (s', b) → moves s0 s → moves s0 s'.
Proof. intros Hs [Hi ?]. eapply moves_trans; [by split|]. eapply keeps_moves, keeps_send; eauto. Qed.
End setters.

(** Peel off the setters around a state. *)
Ltac mv := autounfold with pbft; repeat first
  [ assumption | simple apply mv_emit; [reflexivity|] | simple apply mv_view | simple apply mv_db
  | simple apply mv_vc | simple apply mv_out | simple apply mv_timer | simple apply mv_abnormal
  | simple apply mv_tick | simple apply mv_filter | simple apply moves_refl ].

Lemma TryDoTraceOut_moves s0 s k i : moves s0 s → moves s0 (TryDoTraceOut s k i).
Proof.
  intros Hm. unfold TryDoTraceOut. case_match eqn:E; [|done]. apply andb_true_iff in E as [_ E%Z.leb_le].
  mv. apply mv_last; [mv|]. cbn. unfold ckp_interval_ in E. lia.
Qed.

Lemma TraceOutPbftCommit_moves s env s' b :
  Inv s → msg_ok V (c_view_number (commit_of (pbft_of env)), c_sequence (commit_of (pbft_of env))) 2 (pbft_of env) →
  TraceOutPbftCommit s env = Ok (s', b) → moves s s'.
Proof.
  intros Hi Hm Hs. unfold TraceOutPbftCommit in Hs.
  set (k := (c_view_number _, c_sequence _)) in *.
  destruct (instances_ s !! k); [eapply keeps_moves, OnCommit_keeps; [done|apply Hm| |exact Hs]; intros i _ _; by apply Hm|].
  assert (moves s s) as Hr by mv.
  destruct (out_pbft_instances_ s !! k); cbn [HighResolution] in Hs; unfold HighResolution in Hs;
    (case_decide; [invert_ok; by mv|]); invert_ok; apply TryDoTraceOut_moves; mv.
Qed.

(** ** Creating instances and receiving messages *)

Lemma CreateInstance_moves s env s' o :
  Inv s → (∀ k t, phase_message (pbft_of env) = Some (k, t) → msg_ok V k t (pbft_of env)) →
  CreateInstanceIfNotExist s env = Ok (s', o) →
  moves s s' ∧ ∀ k, o = Some k → ∃ t, msg_ok V k t (pbft_of env).
Proof.
  intros Hi Hm Hs. unfold CreateInstanceIfNotExist in Hs. assert (moves s s) as Hr by mv.
  destruct (phase_message (pbft_of env)) as [[k t]|] eqn:Ep; [|invert_ok; by split].
  specialize (Hm k t eq_refl). case_match.
  { case_match eqn:Ec; [|invert_ok; by split]. invert_ok. destruct a as [s1 b1]. invert_ok. split; [|done].
    eapply TraceOutPbftCommit_moves; [done| |exact E]. apply andb_true_iff in Ec as [_ Ec%bool_decide_eq_true].
    unfold phase_message in Ep. rewrite Ec in Ep. injection Ep as -> <-. exact Hm. }
  case_match; [invert_ok; by split|]. case_match; [invert_ok; by split|].
  set (s1 := match instances_ s !! k with Some _ => s | None => _ end) in *.
  assert (moves s s1) as Hm1.
  { unfold s1. destruct (instances_ s !! k); [done|]. cbn. unfold set_instance.
    apply (mv_filter s _ (set_instance k _ (tick s))). apply mv_set; [by mv|apply new_inst_ok]. }
  clearbody s1. invert_ok. destruct Hm1 as [Hi1 Hl1]. destruct (Inv_at _ _ _ Hi1 E) as [Hio _].
  split; [|intros ? [= <-]; eauto]. apply mv_set; [by split|]. by apply push_ok.
Qed.

(** A commit message that [CheckMessageItem] accepts comes from a validator. *)
Lemma checked_msg_ok env k t :
  CheckMessageItem env V = true → phase_message (pbft_of env) = Some (k, t) → msg_ok V k t (pbft_of env).
Proof.
  clear Hpast. intros Hc Hp. split; [done|]. intros ->.
  assert (Ht : pbft_type (pbft_of env) = PBFT_TYPE_COMMIT).
  { unfold phase_message in Hp. destruct (pbft_type (pbft_of env)); done. }
  pose proof (check_commit_item V _ env Hc Ht eq_refl) as Hs. pose proof (sc_commit _ _ _ _ Hs) as (c & Ec & _).
  unfold commit_of in *. rewrite Ec in *. by eexists _, env.
Qed.

(** ** View changes *)

Lemma record_abnormal_moves s0 s : moves s0 s → moves s0 (record_abnormal s).
Proof. intros Hm. unfold record_abnormal. destruct (list_find _ _) as [[? [? ?]]|]; [by mv|done]. Qed.

Lemma ProcessQuorumViewChange_moves s0 s v s' b :
  moves s0 s → ProcessQuorumViewChange s v = Ok (s', b) → moves s0 s'.
Proof.
  intros Hm Hs. unfold ProcessQuorumViewChange in Hs. invert_ok. apply record_abnormal_moves in Hm.
  case_match; [invert_ok; by mv|]. unfold HighResolution in Hs. case_send Hs. invert_ok.
  assert (moves s0 s1) as Hm1 by (eapply mv_send; [exact Esend|]; by mv). by mv.
Qed.

Lemma OnViewChange_moves s env s' b :
  Inv s → OnViewChangeWithRawValue s env = Ok (s', b) → moves s s'.
Proof.
  intros Hi Hs. unfold OnViewChangeWithRawValue in Hs. assert (moves s s) as Hr by mv.
  case_match; [invert_ok; done|]. case_match; [invert_ok; done|].
  set (v := vc_view_number _) in *.
  destruct (match vc_instances_ s !! v with Some x => (s, x) | None => _ end) as [s1 x] eqn:E1.
  assert (moves s s1) as Hm by (unfold HighResolution in E1; destruct (vc_instances_ s !! v); simplify_eq; by mv).
  case_match; [|invert_ok; by mv]. invert_ok. destruct a as [s2 b2]. invert_ok.
  eapply ProcessQuorumViewChange_moves in E; [mv; exact E|by mv].
Qed.

Lemma OnNewView_moves s env s' b : Inv s → OnNewView s env = Ok (s', b) → moves s s'.
Proof.
  intros Hi Hs. unfold OnNewView in Hs. assert (moves s s) as Hr by mv.
  case_match; [invert_ok; done|]. case_match; [invert_ok; done|]. invert_ok.
  case_match; [invert_ok; by mv|]. unfold HighResolution in Hs. case_match; [|invert_ok; by mv].
  case_match; [invert_ok; by mv|]. invert_ok. case_match; by mv.
Qed.

(** ** Entry points *)

Lemma OnRecv_moves s env check s' b : Inv s → OnRecv s env check = Ok (s', b) → moves s s'.
Proof.
  intros Hi Hs. unfold OnRecv in Hs. rewrite (inv_validators _ Hi) in Hs.
  destruct (CheckMessageItem env V) eqn:Hc; cbn [negb] in Hs; [|invert_ok; by mv].
  pose proof (λ k t, checked_msg_ok env k t Hc) as Hm.
  destruct (pbft_type (pbft_of env)) eqn:Et;
    try (by eapply OnViewChange_moves); try (by eapply OnNewView_moves); try (invert_ok; by mv).
  all: invert_ok; destruct a as [s1 [k|]]; apply (CreateInstance_moves _ _ _ _ Hi Hm) in E as [E1 E2];
    [|by invert_ok]; destruct (E2 k eq_refl) as [t Ht]; eapply moves_trans; [exact E1|];
    eapply keeps_moves, Go_keeps; [apply E1|exact Ht|exact Hs].
Qed.

(** The instance that [Request] makes. *)
Lemma proposed_ok s value q now :
  let env := NewPrePrepare s value q in
  inst_ok (view_number_ s, q) (set_msg_buf [[env]; []; []; []]
    (set_pre_prepare (pre_prepare_of (pbft_of env))
      (set_phase PBFT_PHASE_PREPREPARED (set_pre_prepare_msg env (new_PbftInstance now))))).
Proof.
  split; cbn; try done.
  - intros [|t] buf e Ht; simpl in Ht; simplify_eq.
    + by intros ->%list_elem_of_singleton.
    + do 3 (destruct t as [|t]; [simpl in Ht; simplify_eq; by intros ?%not_elem_of_nil|]). done.
  - intros buf env _ [= <-]. by intros ?%not_elem_of_nil.
  - by left.
  - eauto.
Qed.

Lemma Request_moves s value s' b : Inv s → Request s value = Ok (s', b) → moves s s'.
Proof.
  intros Hi Hs. unfold Request in Hs. assert (moves s s) as Hr by mv. invert_ok.
  case_match; [invert_ok; done|]. case_match; [invert_ok; done|]. unfold HighResolution in Hs. invert_ok.
  cbn in E0. simplify_eq. case_send Hs. invert_ok. eapply mv_send; [exact Esend|].
  apply mv_set; [by mv|]. apply (proposed_ok (set_instances _ s) value).
Qed.

Lemma OnTxTimeout_moves s0 s s' : moves s0 s → OnTxTimeout s = Ok s' → moves s0 s'.
Proof.
  intros Hm Hs. unfold OnTxTimeout in Hs. case_match; [by invert_ok|]. invert_ok. case_send Hs. invert_ok.
  mv. eapply mv_send; [exact Esend|]. by mv.
Qed.

Lemma OnNewViewTimer_moves s data set s' : Inv s → OnNewViewTimer s data set = Ok s' → moves s s'.
Proof.
  intros Hi Hs. unfold OnNewViewTimer in Hs. case_match; [invert_ok; by mv|]. invert_ok. case_send Hs.
  invert_ok. eapply mv_send; [exact Esend|]. by mv.
Qed.

Lemma resend_ok k i round now : inst_ok k i → inst_ok k (SetLastProposeTime now (set_pre_prepare_round round i)).
Proof. intros []. by split. Qed.

Lemma mark_ok k i b : inst_ok k i → inst_ok k (set_have_send_viewchange b i).
Proof. intros []. by split. Qed.

Lemma commit_again_ok k i round now :
  inst_ok k i → prepares_ i ≠ ∅ → inst_ok k (SetLastCommitSendTime now (set_commit_round round i)).
Proof. intros [] ?. by split. Qed.

Lemma timer_loop_moves s0 keys now : ∀ s last s' last',
  moves s0 s → timer_loop keys now s last = Ok (s', last') → moves s0 s'.
Proof.
  induction keys as [|k keys IH]; intros s last s' last' Hm Hs; cbn [timer_loop] in Hs; invert_ok; [done|].
  assert (moves s0 a0) as Hm1.
  { destruct (IsExpire a now && _); [|by invert_ok]. invert_ok. apply mv_set; [by eapply OnTxTimeout_moves|].
    apply mark_ok. by eapply Inv_at; [apply Hm|]. }
  eapply IH; [|exact Hs]. destruct (_ && has_pbft _); [|done]. destruct (SendMessage a0 _) as [s1 b1] eqn:Esend.
  apply mv_set; [by eapply mv_send|]. apply resend_ok. by eapply Inv_at; [apply Hm1|].
Qed.

Lemma timer_vc_loop_moves s0 keys now : ∀ s last s' last',
  moves s0 s → timer_vc_loop keys now s last = Ok (s', last') → moves s0 s'.
Proof.
  induction keys as [|v keys IH]; intros s last s' last' Hm Hs; cbn [timer_vc_loop] in Hs; invert_ok; [done|].
  destruct (if vc_NeedSendAgain a now && has_pbft (view_change_msg_ a) then _ else (s, a)) as [s1 x] eqn:E1.
  assert (moves s0 s1) as Hm1.
  { destruct (vc_NeedSendAgain a now && _); [|by simplify_eq]. case_send E1. simplify_eq. mv. by eapply mv_send. }
  case_match; [invert_ok|]; by eapply IH.
Qed.

Lemma OnTimer_moves s now s' : Inv s → OnTimer s now = Ok s' → moves s s'.
Proof.
  intros Hi Hs. unfold OnTimer in Hs. invert_ok. destruct a as [s1 last]. invert_ok.
  assert (moves s s1) as Hm1 by (eapply timer_loop_moves; [|exact E]; by mv). destruct a0 as [s3 lastvc].
  assert (moves s a) as Hm2.
  { destruct last as [k|]; [|by invert_ok]. invert_ok. destruct (bool_decide _ && _); [|by invert_ok].
    destruct (in_key_order (prepares_ a0)) as [|[n prep] l] eqn:Ep; [done|]. case_send E0. invert_ok.
    apply mv_set; [by eapply mv_send|]. apply commit_again_ok; [by eapply Inv_at; [apply Hm1|]|].
    intros Hx. by rewrite Hx in Ep. }
  assert (moves s s3) as Hm3 by (eapply timer_vc_loop_moves; [|eassumption]; done).
  destruct lastvc as [v|]; [|by invert_ok]. invert_ok. case_send Hs. invert_ok.
  eapply mv_send; [exact Esend|]. by mv.
Qed.
End invariant.

(** ** New validators *)

Section validators.
Context `{PbftContext} (past : gmap bytes Z → Prop).
Implicit Types (s : PbftObj) (k : PbftInstanceIndex) (i : PbftInstance).

Lemma committed_kept V V' k i : inst_ok past V k i → phase_ i = PBFT_PHASE_COMMITED → inst_ok past V' k i.
Proof. intros [] Hc. by split. Qed.

(** The validators change and the instances under way are gone. *)
Lemma Inv_revalidate V V' s s' :
  Inv past V s → validators_ s' = V' →
  (∀ k i, instances_ s' !! k = Some i → instances_ s !! k = Some i ∧ (V' = V ∨ phase_ i = PBFT_PHASE_COMMITED)) →
  (∃ l, events_ s' = events_ s ++ l ∧ executed l = []) → last_exe_seq_ s ≤ last_exe_seq_ s' →
  moves past V' s s'.
Proof.
  intros [I1 I2 I3 I4 I5] Ev Ei (l & El & Ex) Ell. split; [split; [done|..]|done].
  - intros k i [Hk [->|Hc]]%Ei; [by apply I2|]. by eapply committed_kept; [apply I2|].
  - rewrite El. apply Forall_app. split; [done|]. clear -Ex. induction l as [|[] l IH]; simpl in *; try done;
      constructor; auto; done.
  - by rewrite El, executed_app, Ex, app_nil_r.
  - rewrite El, executed_app, Ex, app_nil_r. intros q Hq%I5. lia.
Qed.

Lemma cleared_committed s k i :
  instances_ (ClearNotCommitedInstance s) !! k = Some i →
  instances_ s !! k = Some i ∧ phase_ i = PBFT_PHASE_COMMITED.
Proof. cbn. intros [Hk Hp]%map_lookup_filter_Some. split; [done|]. simpl in Hp. by destruct (phase_ i). Qed.

(** The first half of [UpdateValidators]: the new set, when it is another one. *)
Lemma new_validators_moves V s (validators : list bytes) (changed : bool) s' :
  Inv past V s →
  (if changed then
     let s := Consensus_UpdateValidators s validators in
     let s := set_fault_number (u64 (Z.of_nat (size (validators_ s)) - 1) / 3) s in
     s ← SaveValidators s;
     _ ← leads s (view_number_ s);
     let s := emit ResetCloseTimer (ClearNotCommitedInstance s) in
     mret (set_abnormal_records ∅ s)
   else mret s) = Ok s' → moves past (validators_ s') s s' ∧ last_exe_seq_ s' = last_exe_seq_ s.
Proof.
  intros Hi Hs. destruct changed; invert_ok.
  - unfold SaveValidators in *. invert_ok. split; [|done]. eapply Inv_revalidate; [exact Hi|done| |by eexists; split|done].
    intros k i Hk. destruct (cleared_committed s k i Hk) as [? ?]. by split; [|right].
  - split; [|done]. rewrite (inv_validators _ _ _ Hi). by apply moves_refl.
Qed.

Lemma UpdateValidators_moves V s validators proof s' b :
  Inv past V s → UpdateValidators s validators proof = Ok (s', b) → moves past (validators_ s') s s'.
Proof.
  intros Hi Hs. unfold UpdateValidators in Hs.
  match type of Hs with (match ?t with _ => _ end) = _ => destruct t as [[v n]|] eqn:Et end;
    [|invert_ok; rewrite (inv_validators _ _ _ Hi); by apply moves_refl].
  assert (n ≤ 0 ∨ last_exe_seq_ s < n) as Hn.
  { destruct (decide (proof = [])); [simplify_eq; lia|]. destruct (ParseProof proof) as [[|env l]|]; simplify_eq; [lia|].
    destruct (Z.ltb_spec (last_exe_seq_ s) (c_sequence (commit_of (pbft_of env)))); lia. }
  invert_ok. eapply new_validators_moves in E as [Ea El]; [|exact Hi].
  set (s1 := if 0 <? n then _ else a) in *.
  assert (moves past (validators_ a) s s1 ∧ validators_ s1 = validators_ a) as [Hm1 Hv1].
  { unfold s1. destruct (Z.ltb_spec 0 n); [|done]. split; [|done]. autounfold with pbft. apply mv_db.
    apply mv_last; [done|]. lia. }
  clearbody s1. destruct ((0 <? v) || (0 <? n)); [|invert_ok; by rewrite Hv1].
  invert_ok. cbn. rewrite Hv1. apply mv_emit; [done|]. apply mv_vc. autounfold with pbft. do 2 apply mv_db.
  apply mv_view. unfold ClearNotCommitedInstance. by apply mv_filter.
Qed.
End validators.
