(* ===== verification/PbftGo.v ===== *)
(** * Termination of the message loop

    [PbftInstance::Go] handles each buffered message at most once: a handler leaves the
    buffers alone and either keeps the position or moves to a later phase.  So the loop
    ends, and [go_fuel] iterations are enough for it. *)
From Stdlib Require Import ZArith Lia.
From stdpp Require Import base gmap list sorting.
From S2P Require Import Prelude PbftMsg Pbft PbftHandlers.

Open Scope Z_scope.

Section go.
Context `{PbftContext}.
Implicit Types (s : PbftObj) (k : PbftInstanceIndex) (i : PbftInstance) (p : Pbft).

(** [i'] is [i] after a handler. *)
Definition advances i i' : Prop :=
  msg_buf_ i' = msg_buf_ i ∧
  ((phase_ i' = phase_ i ∧ phase_item_ i' = phase_item_ i) ∨
   (phase_number (phase_ i) < phase_number (phase_ i'))%nat ∧ phase_item_ i' = 0%nat).

(** The instance [k] advances from [s] to [s'], if it is still there. *)
Definition step_at k i s' : Prop := ∀ i', instances_ s' !! k = Some i' → advances i i'.

Lemma advances_refl i : advances i i.
Proof. split; [done|by left]. Qed.

Lemma step_set k i i' s : advances i i' → step_at k i (set_instance k i' s).
Proof. intros Ha i1. cbn. rewrite lookup_insert_eq. by intros [= <-]. Qed.

Lemma step_send k i s m s' b : step_at k i s → SendMessage s m = (s', b) → step_at k i s'.
Proof. unfold SendMessage. intros Ha [= <- _]. by destruct (is_validator_ s). Qed.

Lemma step_here k i s : instances_ s !! k = Some i → step_at k i s.
Proof. intros Hk i' Hi'. rewrite Hk in Hi'. simplify_eq. apply advances_refl. Qed.

Lemma exec_loop_sub keys : ∀ s s', exec_loop keys s = Ok s' → instances_ s' ⊆ instances_ s.
Proof.
  induction keys as [|k keys IH]; intros s s' Hs; simpl in Hs; [by invert_ok|].
  destruct (instances_ s !! k) as [i|]; [|by apply IH]. case_match; [by apply IH|].
  case_match; [|by invert_ok]. invert_ok. apply IH in Hs. etrans; [exact Hs|]. apply map_filter_subseteq.
Qed.

Lemma instance_at_Some s k i : instance_at s k = Ok i → instances_ s !! k = Some i.
Proof. unfold instance_at. case_match; [|done]. congruence. Qed.

Lemma OnPrePrepare_steps s k i p check s' b :
  instances_ s !! k = Some i → OnPrePrepare s k p check = Ok (s', b) → step_at k i s'.
Proof.
  intros Hk Hs. pose proof (step_here k i s Hk) as Hr. unfold OnPrePrepare in Hs. invert_ok.
  case_match; [by invert_ok|]. do 2 (case_decide; [by invert_ok|]).
  invert_ok. apply instance_at_Some in E0. rewrite Hk in E0. simplify_eq. case_decide as En.
  - do 2 (case_decide; [by invert_ok|]). destruct (SendMessage _ _) eqn:Es. invert_ok. by eapply step_send.
  - assert (step_at k a0 (set_instance k (set_check_value_result check (set_pre_prepare (pre_prepare_of p)
      (set_phase PBFT_PHASE_PREPREPARED a0))) s)) as Hst.
    { apply step_set. split; [done|right]. split; [|done]. cbn. rewrite En. cbn. lia. }
    case_decide; [by invert_ok|]. destruct (SendMessage _ _) eqn:Es. invert_ok. by eapply step_send.
Qed.

Lemma OnPrepare_steps s k i p s' b :
  instances_ s !! k = Some i → OnPrepare s k p = Ok (s', b) → step_at k i s'.
Proof.
  intros Hk Hs. pose proof (step_here k i s Hk) as Hr. unfold OnPrepare in Hs. invert_ok.
  apply instance_at_Some in E. rewrite Hk in E. simplify_eq. case_decide; [by invert_ok|].
  case_match; [|invert_ok; apply step_set; split; [done|by left]].
  set (i2 := if phase_lt _ _ then _ else _) in *.
  assert (advances a i2) as Ha.
  { unfold i2. destruct (phase_lt _ _) eqn:Ep; [|split; [done|by left]]. split; [done|right]. split; [|done].
    by apply Nat.ltb_lt in Ep. }
  case_decide; [|invert_ok; by apply step_set].
  unfold HighResolution in Hs. destruct (SendMessage _ _) eqn:Es. invert_ok. eapply step_send; [|exact Es].
  by apply step_set.
Qed.

Lemma OnCommit_steps s k i p s' b :
  instances_ s !! k = Some i → OnCommit s k p = Ok (s', b) → step_at k i s'.
Proof.
  intros Hk Hs. pose proof (step_here k i s Hk) as Hr. unfold OnCommit in Hs. invert_ok.
  apply instance_at_Some in E. rewrite Hk in E. simplify_eq. case_decide; [by invert_ok|].
  case_match; [by invert_ok|]. case_match eqn:Ec; [|invert_ok; apply step_set; split; [done|by left]].
  unfold HighResolution, TryExecuteValue in Hs. invert_ok. apply exec_loop_sub in E.
  intros i' Hi'. eapply lookup_weaken in Hi'; [|exact E]. revert i' Hi'. apply step_set. split; [done|right].
  split; [|done]. apply andb_true_iff in Ec as [_ Ec]. by apply Nat.ltb_lt in Ec.
Qed.

Lemma dispatch_steps s k i p check ret s' b :
  instances_ s !! k = Some i → dispatch s k p check ret = Ok (s', b) → step_at k i s'.
Proof.
  intros Hk Hs. unfold dispatch in Hs. destruct (pbft_type p);
    eauto using OnPrePrepare_steps, OnPrepare_steps, OnCommit_steps; invert_ok; by apply step_here.
Qed.

(** ** No handler runs out of fuel by itself *)

Definition ends {A} (m : res A) : Prop := m ≠ Err OutOfFuel.

Lemma ends_bind {A B} (m : res A) (f : A → res B) : ends m → (∀ a, ends (f a)) → ends (m ≫= f).
Proof. unfold ends. intros Hm Hf. destruct m as [a|e]; [apply Hf|]. cbn. congruence. Qed.

Lemma ends_at {A} (l : list A) n : ends (at_ l n).
Proof. unfold ends, at_. by case_match. Qed.
Lemma ends_instance s k : ends (instance_at s k).
Proof. unfold ends, instance_at. by case_match. Qed.
Lemma ends_vc s v : ends (vc_at s v).
Proof. unfold ends, vc_at. by case_match. Qed.
Lemma ends_leads s v : ends (leads s v).
Proof. unfold ends, leads, leader_id. by case_decide. Qed.
Lemma ends_ret {A} (a : A) : ends (mret a).
Proof. done. Qed.

Ltac ends := repeat first
  [ simple apply ends_ret | simple apply ends_at | simple apply ends_instance | simple apply ends_vc
  | simple apply ends_leads | simple apply ends_bind; [|intros]
  | match goal with |- ends (match ?x with _ => _ end) => destruct x end ].

Lemma exec_loop_ends keys : ∀ s, ends (exec_loop keys s).
Proof. induction keys as [|k keys IH]; intros s; simpl; ends; apply IH. Qed.

Lemma OnCommit_ends s k p : ends (OnCommit s k p).
Proof. unfold OnCommit, TryExecuteValue. ends. apply exec_loop_ends. Qed.

Lemma dispatch_ends s k p check ret : ends (dispatch s k p check ret).
Proof.
  unfold dispatch. destruct (pbft_type p); [| |apply OnCommit_ends|..]; unfold OnPrePrepare, OnPrepare; ends.
Qed.

Lemma CreateInstance_ends s env : ends (CreateInstanceIfNotExist s env).
Proof. unfold CreateInstanceIfNotExist, TraceOutPbftCommit. ends. apply OnCommit_ends. Qed.

Lemma OnViewChange_ends s env : ends (OnViewChangeWithRawValue s env).
Proof. unfold OnViewChangeWithRawValue, ProcessQuorumViewChange. ends. Qed.

Lemma OnNewView_ends s env : ends (OnNewView s env).
Proof. unfold OnNewView. ends. Qed.

(** ** The loop *)

(** The messages that are still to handle. *)
Definition remaining i : nat :=
  (length (concat (drop (phase_number (phase_ i)) (msg_buf_ i))) - phase_item_ i)%nat.

Lemma concat_drop_step (l : list (list PbftEnv)) n x :
  l !! n = Some x → length (concat (drop n l)) = (length x + length (concat (drop (S n) l)))%nat.
Proof. intros Hx. rewrite (drop_S l x n Hx). simpl. by rewrite length_app. Qed.

Lemma concat_drop_le (l : list (list PbftEnv)) n m :
  (n ≤ m)%nat → (length (concat (drop m l)) ≤ length (concat (drop n l)))%nat.
Proof.
  intros Hle. replace m with (n + (m - n))%nat by lia. rewrite <- drop_drop.
  set (r := drop n l). rewrite <- (take_drop (m - n) r) at 2. rewrite concat_app, length_app. lia.
Qed.

Lemma remaining_step i i' buf env :
  msg_buf_ i !! phase_number (phase_ i) = Some buf → buf !! phase_item_ i = Some env →
  advances (set_phase_item (S (phase_item_ i)) i) i' → (remaining i' < remaining i)%nat.
Proof.
  intros Hb He [Hm Ha]. cbn in Hm, Ha. apply lookup_lt_Some in He. unfold remaining. rewrite Hm.
  pose proof (concat_drop_step _ _ _ Hb) as Hs. destruct Ha as [[-> ->]|[Hlt ->]]; [lia|].
  pose proof (concat_drop_le (msg_buf_ i) (S (phase_number (phase_ i))) (phase_number (phase_ i'))). lia.
Qed.

Lemma go_loop_fuel fuel : ∀ s k check ret,
  (∀ i, instances_ s !! k = Some i → (remaining i ≤ fuel)%nat) → go_loop fuel s k check ret ≠ Err OutOfFuel.
Proof.
  induction fuel as [|fuel IH]; intros s k check ret Hf; simpl; unfold instance_at;
    (destruct (instances_ s !! k) as [i|] eqn:Ek; [|done]); specialize (Hf i eq_refl); cbn; unfold at_;
    (destruct (msg_buf_ i !! _) as [buf|] eqn:Eb; [|done]); cbn;
    (destruct (buf !! _) as [env|] eqn:Ee; [|done]).
  { pose proof (remaining_step i _ buf env Eb Ee (advances_refl _)). lia. }
  match goal with |- (?m ≫= _) ≠ _ => pose proof (dispatch_ends _ _ _ _ _ : ends m) as Hd;
    destruct m as [[s1 b1]|[]] eqn:Ed; try done end.
  cbn. apply IH. intros i' Hi'. eapply dispatch_steps in Ed; [|cbn; apply lookup_insert_eq].
  pose proof (remaining_step i i' buf env Eb Ee (Ed i' Hi')). lia.
Qed.

Lemma Go_ends s k env check : ends (Go s k env check).
Proof.
  unfold Go. unfold instance_at. destruct (instances_ s !! k) as [i|] eqn:Ek; [|done]. cbn. case_match.
  - apply ends_bind; [apply dispatch_ends|]. by intros [].
  - apply go_loop_fuel. intros i' Hi'. rewrite Ek in Hi'. simplify_eq. unfold remaining, go_fuel.
    pose proof (concat_drop_le (msg_buf_ i') 0 (phase_number (phase_ i')) ltac:(lia)). rewrite drop_0 in *. lia.
Qed.
End go.
