(* ===== verification/PbftStore.v ===== *)
(** * The validators on disk

    [SaveValidators] writes the addresses by position and [LoadValidators] numbers them
    again: a restarted replica has the validators, and the position among them, that it
    had. *)
From Stdlib Require Import ZArith Lia.
From stdpp Require Import base gmap list sorting strings.
From S2P Require Import Prelude PbftMsg Pbft PbftQuorum PbftHandlers.

Open Scope Z_scope.

(** ** Numbering *)

Lemma number_validators_lookup l : ∀ c m (j : nat) a,
  NoDup l → (∀ b, b ∈ l → m !! b = None) → l !! j = Some a →
  number_validators c l m !! a = Some (c + Z.of_nat j).
Proof.
  assert (∀ l c (m : gmap bytes Z) a i, m !! a = Some i → number_validators c l m !! a = Some i) as Hkeep.
  { clear. induction l as [|b l IH]; intros c m a i Ha; simpl; [done|]. apply IH.
    destruct (m !! b) eqn:Eb; [done|]. rewrite lookup_insert_ne; [done|]. intros ->. congruence. }
  induction l as [|b l IH]; intros c m j a Hn Hm Hj; [done|]. apply NoDup_cons in Hn as [Hb Hn]. simpl.
  rewrite (Hm b) by (by left). destruct j as [|j]; simpl in Hj.
  - simplify_eq. rewrite Z.add_0_r. apply Hkeep, lookup_insert_eq.
  - rewrite (IH (c + 1) _ j a Hn); [f_equal; lia| |done].
    intros d Hd. rewrite lookup_insert_ne; [apply Hm; by right|]. by intros ->.
Qed.

Lemma number_validators_size l : ∀ c m,
  NoDup l → (∀ b, b ∈ l → m !! b = None) → size (number_validators c l m) = (size m + length l)%nat.
Proof.
  induction l as [|b l IH]; intros c m Hn Hm; simpl; [lia|]. apply NoDup_cons in Hn as [Hb Hn].
  rewrite (Hm b) by (by left). rewrite IH; [|done|].
  - rewrite map_size_insert_None by (apply Hm; by left). lia.
  - intros d Hd. rewrite lookup_insert_ne; [apply Hm; by right|]. by intros ->.
Qed.

(** Every numbered address is at its position. *)
Lemma number_validators_inv l a i :
  NoDup l → number_validators 0 l ∅ !! a = Some i → ∃ j : nat, i = Z.of_nat j ∧ l !! j = Some a.
Proof.
  intros Hn Ha. assert (a ∈ l) as [j Hj]%list_elem_of_lookup_1.
  { destruct (proj1 (number_validators_dom l 0 ∅ a)) as [[? H0]|]; [eauto| |done]. by rewrite lookup_empty in H0. }
  exists j. split; [|done]. rewrite (number_validators_lookup l 0 ∅ j a Hn) in Ha; [by simplify_eq| |done].
  intros b _. apply lookup_empty.
Qed.

(** ** The vector *)

(** Writing entries at their places in a vector, when each entry agrees with [l]. *)
Lemma vector_fold (l : list bytes) (n : Z) es : ∀ v : list bytes,
  n = Z.of_nat (length l) → n < 2 ^ 32 → length v = length l →
  (∀ a i, (a, i) ∈ es → ∃ j : nat, i = Z.of_nat j ∧ l !! j = Some a) →
  ∃ v' : list bytes, foldl (λ acc '(a, i), v ← acc;
      if decide (0 ≤ u32 i < n) then mret (<[Z.to_nat (u32 i) := a]> (v : list bytes)) else Err OutOfRange)
      (mret v) es = Ok v' ∧ length v' = length l ∧
    ∀ j : nat, v !! j = l !! j ∨ (∃ a, (a, Z.of_nat j) ∈ es) → v' !! j = l !! j.
Proof.
  induction es as [|[a i] es IH]; intros v Hn Hn32 Hv Hes.
  { exists v. split_and!; try done. intros j [Hj|[b Hb%not_elem_of_nil]]; done. }
  destruct (Hes a i (list_elem_of_here _ _)) as (j & -> & Hj). pose proof (lookup_lt_Some _ _ _ Hj) as Hlt.
  cbn [foldl]. cbn [mbind res_bind mret res_ret]. rewrite u32_small by lia. rewrite decide_True by lia. rewrite Nat2Z.id.
  destruct (IH (<[j := a]> v)) as (v' & Ev & Hv' & Hl); [done|done|by rewrite length_insert| |].
  { intros b i Hb. apply Hes. by right. }
  exists v'. split_and!; [done|done|]. intros j' Hj'. apply Hl.
  destruct (decide (j' = j)) as [->|Hne]; [left; rewrite list_lookup_insert_eq by lia; congruence|].
  rewrite list_lookup_insert_ne by done. destruct Hj' as [?|[b [Hb|Hb]%elem_of_cons]]; [by left| |by eauto].
  by simplify_eq.
Qed.

Lemma validator_vector_numbered l :
  NoDup l → Z.of_nat (length l) < 2 ^ 32 → validator_vector (number_validators 0 l ∅) = Ok l.
Proof.
  intros Hn Hlen. unfold validator_vector. set (m := number_validators 0 l ∅).
  assert (size m = length l) as Hsz.
  { unfold m. rewrite number_validators_size; [by rewrite map_size_empty|done|]. intros b _. apply lookup_empty. }
  destruct (vector_fold l (Z.of_nat (size m)) (map_to_list m) (replicate (size m) [])) as (v & Ev & Hl & Hv);
    [by rewrite Hsz|by rewrite Hsz|by rewrite length_replicate| |].
  { intros a i Ha%elem_of_map_to_list. by apply number_validators_inv. }
  rewrite Ev. f_equal. apply list_eq. intros j. apply Hv. destruct (l !! j) as [a|] eqn:Ej.
  - right. exists a. apply elem_of_map_to_list. unfold m. rewrite (number_validators_lookup l 0 ∅ j a Hn); [done| |done].
    intros b _. apply lookup_empty.
  - left. apply lookup_ge_None in Ej. apply lookup_ge_None. rewrite length_replicate. lia.
Qed.

(** Validators survive a restart.  When the validators are different addresses,
    [UpdateValidators] in the base class followed by [SaveValidators] stores them, and
    [LoadValidators] on a replica with that store gives the same positions, the same
    [is_validator_] and the same [replica_id_]. *)
Theorem validators_roundtrip `{PbftContext} s s1 l :
  NoDup l → Z.of_nat (length l) < 2 ^ 32 →
  SaveValidators (Consensus_UpdateValidators s l) = Ok s1 →
  ∀ ticks, let s2 := LoadValidators (new_Pbft (db_ s1) ticks) in
  db_validators (db_ s1) = Some l ∧ validators_ s2 = validators_ s1 ∧
  is_validator_ s2 = is_validator_ s1 ∧ replica_id_ s2 = replica_id_ s1.
Proof.
  intros Hn Hl Hs ticks. unfold SaveValidators in Hs. cbn in Hs.
  rewrite (validator_vector_numbered l Hn Hl) in Hs. cbn in Hs. injection Hs as <-. done.
Qed.

Lemma validators_roundtrip_witness :
  let s := @new_Pbft (mkDb None None None None None) 0 in
  ∃ s1, SaveValidators (@Consensus_UpdateValidators toy_context s toy_validators) = Ok s1 ∧
    db_validators (db_ s1) = Some toy_validators.
Proof.
  intros s. eexists. split; [vm_compute; reflexivity|].
  refine (proj1 (@validators_roundtrip toy_context s _ toy_validators _ _ _ 0%nat));
    [apply (bool_decide_unpack _); vm_compute; exact I|vm_compute; reflexivity..].
Defined.
