(* ===== verification/PbftClaims.v ===== *)
(** * Runs of the replica

    A replica starts ([boot]) and handles messages, proposals, timers and changes of the
    validators in any order ([pbft_run]); the node posts [UpdateValidators] after every
    block it closes.  The values it executes are certified by quorums of the validators in
    force, its timers never fault, and concrete runs show where the code falls short. *)
From Stdlib Require Import ZArith Lia.
From stdpp Require Import base gmap list sorting strings.
From S2P Require Import Prelude PbftMsg Pbft PbftQuorum PbftHandlers PbftInv PbftGo PbftStore.

Open Scope Z_scope.

(** ** Runs *)

Inductive pbft_op :=
  | DoRecv (env : PbftEnv) (check : bytes → CheckValueResult)
  | DoRequest (value : bytes)
  | DoTimer (now : Z)
  | DoTxTimeout
  | DoNewViewTimer (data : Z) (set : PbftPreparedSet)
  | DoUpdateValidators (validators : list bytes) (proof : bytes).

Section runs.
Context `{PbftContext}.
Implicit Types (s : PbftObj) (op : pbft_op).

Definition pbft_step op s : res PbftObj :=
  match op with
  | DoRecv env check => '(s, _) ← OnRecv s env check; mret s
  | DoRequest value => '(s, _) ← Request s value; mret s
  | DoTimer now => OnTimer s now
  | DoTxTimeout => OnTxTimeout s
  | DoNewViewTimer data set => OnNewViewTimer s data set
  | DoUpdateValidators validators proof => '(s, _) ← UpdateValidators s validators proof; mret s
  end.

Fixpoint pbft_run (ops : list pbft_op) s : res PbftObj :=
  match ops with
  | [] => mret s
  | op :: ops => s ← pbft_step op s; pbft_run ops s
  end.

(** The sets of validators in force along a run, the first one included. *)
Fixpoint run_validators (ops : list pbft_op) s : list (gmap bytes Z) :=
  validators_ s ::
  match ops with
  | [] => []
  | op :: ops => match pbft_step op s with Ok s' => run_validators ops s' | Err _ => [] end
  end.

(** Constructor, [Initialize] and the first [UpdateValidators] of the node. *)
Definition boot (db : PbftDb) (ticks : nat) (validators : list bytes) (proof : bytes) : res PbftObj :=
  '(s, _) ← UpdateValidators (Initialize (new_Pbft db ticks) true).1 validators proof; mret s.

(** ** The invariant along a run *)

Lemma load_vc_frame l : ∀ s, instances_ (foldl load_vc s l) = instances_ s ∧
  events_ (foldl load_vc s l) = events_ s ∧ validators_ (foldl load_vc s l) = validators_ s.
Proof.
  induction l as [|[v y] l IH]; intros s; [done|]. cbn [foldl].
  destruct (IH (load_vc s (v, y))) as (-> & -> & ->).
  unfold load_vc. unfold HighResolution. by destruct (vc_instances_ s !! v).
Qed.

Section past.
Context (past : gmap bytes Z → Prop).

(** Nothing is under way and nothing was executed. *)
Lemma idle_Inv s : instances_ s = ∅ → events_ s = [] → Inv past (validators_ s) s.
Proof.
  intros Hi He. split; rewrite ?He; [done| |constructor|constructor|by intros q ?%not_elem_of_nil].
  intros k i. by rewrite Hi, lookup_empty.
Qed.

Lemma boot_Inv db ticks validators proof s :
  boot db ticks validators proof = Ok s → Inv past (validators_ s) s.
Proof.
  intros Hs. unfold boot in Hs. invert_ok. destruct a as [s1 b]. invert_ok.
  eapply UpdateValidators_moves in E; [apply E|]. apply idle_Inv; cbn; unfold LoadValues; (case_match; [|done]).
  - by rewrite (proj1 (load_vc_frame _ _)).
  - by rewrite (proj1 (proj2 (load_vc_frame _ _))).
Qed.

Lemma moves_here V s s' : moves past V s s' → moves past (validators_ s') s s'.
Proof. intros [Hi ?]. by rewrite (inv_validators _ _ _ Hi). Qed.

Lemma pbft_step_moves op s s' :
  past (validators_ s) → Inv past (validators_ s) s → pbft_step op s = Ok s' → moves past (validators_ s') s s'.
Proof.
  intros Hp Hi Hs. destruct op; simpl in Hs; invert_ok; try destruct a as [s1 b]; invert_ok;
    [| | | | |by eapply UpdateValidators_moves]; eapply moves_here;
    eauto using OnRecv_moves, Request_moves, OnTimer_moves, OnTxTimeout_moves, OnNewViewTimer_moves, moves_refl.
Qed.

Lemma pbft_run_moves ops : ∀ s s',
  (∀ U, U ∈ run_validators ops s → past U) → Inv past (validators_ s) s → pbft_run ops s = Ok s' →
  moves past (validators_ s') s s' ∧ validators_ s' ∈ run_validators ops s.
Proof.
  induction ops as [|op ops IH]; intros s s' Hp Hi Hs; simpl in Hs; invert_ok.
  - split; [by apply moves_refl|by left].
  - assert (past (validators_ s)) as Hv by (apply Hp; by left).
    pose proof (pbft_step_moves op s a Hv Hi E) as [Ha Hla]. destruct (IH a s') as [[Hm Hlm] Hin]; [|done|done|].
    + intros U HU. apply Hp. simpl. rewrite E. by right.
    + split; [split; [done|lia]|]. simpl. rewrite E. by right.
Qed.
End past.

(** The run with the sets in force along it. *)
Lemma booted_run db ticks validators proof ops s0 s :
  boot db ticks validators proof = Ok s0 → pbft_run ops s0 = Ok s →
  moves (.∈ run_validators ops s0) (validators_ s) s0 s ∧ validators_ s ∈ run_validators ops s0.
Proof. intros Hb Hr. apply pbft_run_moves; [done|by eapply boot_Inv|done]. Qed.

(** ** Certificates *)

(** The validators [X] signed commits of the value [v] at sequence [q] in the view [w]. *)
Definition certificate (V : gmap bytes Z) (w q : Z) (v : bytes) (X : gset bytes) : Prop :=
  X ⊆ dom V ∧ QuorumSize (Z.of_nat (size V)) + 1 ≤ Z.of_nat (size X) ∧
  ∀ a, a ∈ X → ∃ c, committed_by V a c ∧ c_view_number c = w ∧ c_sequence c = q ∧
    (c_value_digest c = Crypto v ∨ c_value_digest c = []).

(** The signers of commits that are counted per replica. *)
Lemma signers (V : gmap bytes Z) (cs : gmap Z PbftCommit) :
  (∀ r c, cs !! r = Some c → c_replica_id c = r ∧ from_validator V c) →
  ∃ X : gset bytes, size X = size cs ∧ X ⊆ dom V ∧
    ∀ a, a ∈ X → ∃ c, cs !! c_replica_id c = Some c ∧ V !! a = Some (c_replica_id c) ∧ committed_by V a c.
Proof.
  induction cs as [|r c cs Hr IH] using map_ind; intros Hc.
  { exists ∅. rewrite size_empty, map_size_empty. set_solver. }
  destruct IH as (X & Hsz & Hd & HX).
  { intros r' c' Hl. apply Hc. rewrite lookup_insert_ne; [done|]. intros ->. congruence. }
  destruct (Hc r c (lookup_insert_eq _ _ _)) as [Er [a Ha]].
  assert (V !! a = Some r) as Hva.
  { destruct Ha as (env & Ec & Hs). destruct (sc_commit _ _ _ _ Hs) as (c' & Ec' & _ & Hv & _). congruence. }
  assert (a ∉ X).
  { intros (c' & Hl & Hv & _)%HX. rewrite Hva in Hv. congruence. }
  exists ({[a]} ∪ X). split_and!.
  - rewrite size_union by set_solver. rewrite size_singleton, map_size_insert_None by done. lia.
  - apply elem_of_dom_2 in Hva. set_solver.
  - intros b [->%elem_of_singleton|Hb]%elem_of_union.
    + exists c. rewrite Er, lookup_insert_eq. by rewrite Hva.
    + destruct (HX b Hb) as (c' & Hl & Hv & Hs). exists c'. split_and!; [|done|done].
      rewrite lookup_insert_ne; [done|congruence].
Qed.

Lemma justified_certificate past q v proof :
  (∀ U, past U → Z.of_nat (size U) < 2 ^ 63) → justified past (ValueCommited q v proof) →
  ∃ V w X, past V ∧ 1 ≤ Z.of_nat (size V) ∧ certificate V w q v X.
Proof.
  intros Hn (V & w & cs & HV & Hq & Hc). specialize (Hn V HV). destruct (signers V cs) as (X & Hsz & Hd & HX).
  { intros r c Hl. by destruct (Hc r c Hl) as (? & ? & _). }
  assert (size X ≤ size V)%nat by (rewrite <- size_dom; by apply subseteq_size).
  unfold quorum, map_size in Hq. rewrite <- Hsz in Hq. assert (1 ≤ Z.of_nat (size V)) as Hpos.
  { destruct (decide (size V = 0)%nat) as [E|]; [|lia]. exfalso. rewrite E in Hq.
    change (u64 (QuorumSize (Z.of_nat 0) + 1)) with 12297829382473034411 in Hq. lia. }
  destruct (quorum_cases (Z.of_nat (size V))) as (_ & _ & Hb); [lia|]. rewrite u64_small in Hq by lia.
  exists V, w, X. do 2 (split; [done|]). split_and!; [done|lia|]. intros a Ha. destruct (HX a Ha) as (c & Hl & _ & Hs).
  destruct (Hc _ _ Hl) as (_ & _ & ? & ? & ?). eauto 6.
Qed.

Lemma run_certificate db ticks validators proof ops s0 s q v p :
  boot db ticks validators proof = Ok s0 → pbft_run ops s0 = Ok s →
  Forall (λ U, Z.of_nat (size U) < 2 ^ 63) (run_validators ops s0) → ValueCommited q v p ∈ events_ s →
  ∃ V w X, V ∈ run_validators ops s0 ∧ 1 ≤ Z.of_nat (size V) ∧ certificate V w q v X.
Proof.
  intros Hb Hr Hn Hin. apply justified_certificate with p; [by apply list.Forall_forall|].
  destruct (booted_run _ _ _ _ _ _ _ Hb Hr) as [[[_ _ He _ _] _] _].
  rewrite list.Forall_forall in He. by apply He.
Qed.

(** ** Handlers that cannot fault *)

Lemma leads_ok s v : validators_ s ≠ ∅ → ∃ b, leads s v = Ok b.
Proof. intros Hv. unfold leads, leader_id. rewrite decide_False by done. by eexists. Qed.

Lemma last_prepared_ok past V exe l : (∀ k i, (k, i) ∈ l → inst_ok past V k i) → ∃ o, last_prepared l exe = Ok o.
Proof.
  induction l as [|[k i] l IH]; intros Hl; simpl; [by eexists|]. case_match eqn:Ec.
  - apply andb_true_iff in Ec as [_ Ec%bool_decide_eq_true]. destruct (Hl k i (list_elem_of_here _ _)) as [Hb _ _ _ _ _ _ Hf _].
    destruct (Hf (or_intror Ec)) as (env & l0 & E0). destruct (msg_buf_ i !! 1%nat) as [ps|] eqn:E1.
    + unfold at_. rewrite E0. simpl. rewrite E1. by eexists.
    + apply lookup_ge_None in E1. rewrite Hb in E1. unfold PBFT_PHASE_MAX in E1. lia.
  - apply IH. intros k' i' Hin. apply Hl. by right.
Qed.

Lemma NewViewChange_ok past V s v set : Inv past V s → ∃ env, NewViewChangeRawValue s v set = Ok env.
Proof.
  intros Hi. unfold NewViewChangeRawValue. destruct (ps_pre_prepare set); [by eexists|].
  destruct (last_prepared_ok past V (last_exe_seq_ s) (reverse (in_order (instances_ s)))) as [o ->]; [|by eexists].
  intros k i. rewrite elem_of_reverse, elem_of_in_order. apply (inv_instances _ _ _ Hi).
Qed.

Lemma OnNewViewTimer_ok past V s data set : Inv past V s → ∃ s', OnNewViewTimer s data set = Ok s'.
Proof.
  intros Hi. unfold OnNewViewTimer. destruct (view_active_ s); [by eexists|].
  destruct (NewViewChange_ok past V s (data + 1) set Hi) as [env ->]. simpl. by eexists.
Qed.

(** [s'] has the instances and view changes of [s], possibly updated. *)
Definition same_keys s s' : Prop :=
  dom (instances_ s') = dom (instances_ s) ∧ vc_instances_ s' = vc_instances_ s.

Lemma same_keys_trans s1 s2 s3 : same_keys s1 s2 → same_keys s2 s3 → same_keys s1 s3.
Proof. intros [? ?] [? ?]. split; congruence. Qed.

Lemma send_keys s m : same_keys s (SendMessage s m).1.
Proof. unfold SendMessage. simpl. by destruct (is_validator_ s). Qed.

Lemma set_keys s s' k i : same_keys s s' → k ∈ dom (instances_ s) → same_keys s (set_instance k i s').
Proof. intros [E1 E2] Hk. split; [|done]. cbn. rewrite dom_insert_L, E1. set_solver. Qed.

Lemma instance_ok s k : k ∈ dom (instances_ s) → ∃ i, instance_at s k = Ok i.
Proof. intros [i Hk]%elem_of_dom. unfold instance_at. rewrite Hk. by eexists. Qed.

Lemma OnTxTimeout_ok past V s : Inv past V s → ∃ s', OnTxTimeout s = Ok s' ∧ same_keys s s'.
Proof.
  intros Hi. unfold OnTxTimeout. destruct (is_validator_ s) eqn:Ev; simpl; [|by eexists].
  destruct (NewViewChange_ok past V (set_view (view_number_ s) false s) (view_number_ s + 1) no_prepared_set) as [env ->].
  - eapply mv_view, moves_refl, Hi.
  - simpl. eexists. split; [reflexivity|]. by destruct (is_validator_ s).
Qed.

Lemma timer_loop_ok past V s0 keys now : ∀ s last,
  moves past V s0 s → same_keys s0 s → (∀ k, k ∈ keys → k ∈ dom (instances_ s0)) →
  (∀ k, last = Some k → k ∈ dom (instances_ s0)) →
  ∃ s' last', timer_loop keys now s last = Ok (s', last') ∧ same_keys s0 s' ∧
    ∀ k, last' = Some k → k ∈ dom (instances_ s0).
Proof.
  induction keys as [|k keys IH]; intros s last Hm Hk Hkeys Hlast; [by eauto|].
  assert (k ∈ dom (instances_ s0)) as Hk0 by (apply Hkeys; by left).
  cbn [timer_loop]. destruct (instance_ok s k) as [i Ei]; [by rewrite (proj1 Hk)|]. rewrite Ei. cbn.
  match goal with |- context [?m ≫= _] =>
    assert (∃ s1, m = Ok s1 ∧ moves past V s0 s1 ∧ same_keys s0 s1) as (s1 & -> & Hm1 & Hk1) end.
  { destruct (IsExpire i now && _); [|by eauto]. destruct (OnTxTimeout_ok past V s (proj1 Hm)) as (s1 & Es & Hs).
    rewrite Es. eexists. split; [reflexivity|]. split.
    - apply mv_set; [by eapply OnTxTimeout_moves|]. apply mark_ok. by eapply Inv_at; [apply Hm|].
    - apply set_keys; [by eapply same_keys_trans|done]. }
  cbn. destruct (instance_ok s1 k) as [i1 Ei1]; [by rewrite (proj1 Hk1)|]. rewrite Ei1. cbn.
  apply IH.
  - destruct (_ && has_pbft _); [|done].
    apply mv_set; [by eapply (mv_send past V s0 _ s1 _ true)|]. apply resend_ok. by eapply Inv_at; [apply Hm1|].
  - destruct (_ && has_pbft _); [|done]. apply set_keys; [|done].
    eapply same_keys_trans; [exact Hk1|apply (send_keys s1)].
  - intros k' Hk'. apply Hkeys. by right.
  - intros k'. case_match; [apply Hlast|]. by intros [= <-].
Qed.

Lemma timer_vc_loop_ok keys now : ∀ s last,
  validators_ s ≠ ∅ → (∀ v, v ∈ keys → v ∈ dom (vc_instances_ s)) →
  (∀ v, last = Some v → v ∈ dom (vc_instances_ s)) →
  ∃ s' last', timer_vc_loop keys now s last = Ok (s', last') ∧
    ∀ v, last' = Some v → v ∈ dom (vc_instances_ s').
Proof.
  induction keys as [|v keys IH]; intros s last Hv Hkeys Hlast; [by eauto|]. cbn [timer_vc_loop].
  assert (v ∈ dom (vc_instances_ s)) as Hv0 by (apply Hkeys; by left).
  destruct (proj1 (elem_of_dom _ _) Hv0) as [x Hx]. unfold vc_at. rewrite Hx. cbn.
  match goal with |- context [let '(_, _) := ?m in _] => destruct m as [s1 x1] eqn:E1 end.
  assert (validators_ s1 = validators_ s ∧ dom (vc_instances_ s1) = dom (vc_instances_ s)) as [Ev Ed].
  { destruct (vc_NeedSendAgain x now && _); simplify_eq; [|done]. cbn. rewrite dom_insert_L.
    destruct (is_validator_ s); cbn; split; try done; set_solver. }
  clear E1. destruct (vc_NeedSendNewViewAgain x1 now);
    [|apply IH; rewrite ?Ev, ?Ed; [done| |done]; intros; apply Hkeys; by right].
  destruct (leads_ok s1 (vci_view_number_ x1)) as [b Eb]; [by rewrite Ev|]. rewrite Eb. cbn.
  apply IH; rewrite ?Ev, ?Ed; [done|intros; apply Hkeys; by right|].
  intros v'. destruct b; [by intros [= <-]|apply Hlast].
Qed.

Lemma OnTimer_ok past V s now : Inv past V s → V ≠ ∅ → ∃ s', OnTimer s now = Ok s'.
Proof.
  intros Hi HV. unfold OnTimer.
  destruct (timer_loop_ok past V s ((in_order (instances_ s)).*1) now s None) as (s1 & last & E1 & Hk & Hlast);
    [by apply moves_refl|done| |done|].
  { intros k ([k' i] & -> & Hin)%list_elem_of_fmap. by apply elem_of_in_order, elem_of_dom_2 in Hin. }
  pose proof (timer_loop_moves past V s _ _ _ _ _ _ (moves_refl past V s Hi) E1) as [Hi1 _]. rewrite E1. cbn.
  match goal with |- context [?m ≫= _] => assert (∃ s2, m = Ok s2 ∧ validators_ s2 = validators_ s1) as (s2 & -> & Hv2) end.
  { destruct last as [k|]; [|by eauto]. destruct (instance_ok s1 k) as [i Ei]; [rewrite (proj1 Hk); by apply Hlast|].
    rewrite Ei. cbn. destruct (bool_decide _ && _) eqn:Ec; [|by eauto].
    apply andb_true_iff in Ec as [_ Ec]. unfold NeedSendCommitAgain in Ec.
    destruct (in_key_order (prepares_ i)) as [|[n prep] l] eqn:Ep.
    - exfalso. apply andb_true_iff in Ec as [[Ec _]%andb_true_iff _]. apply negb_true_iff, Z.eqb_neq in Ec.
      apply (io_prepares _ _ _ _ (proj1 (Inv_at past V s1 k i Hi1 Ei))) in Ec. apply map_choose in Ec as (r & p & Hr).
      apply elem_of_in_key_order in Hr. rewrite Ep in Hr. by apply not_elem_of_nil in Hr.
    - eexists. split; [reflexivity|]. cbn. by destruct (is_validator_ s1). }
  cbn. destruct (timer_vc_loop_ok ((in_key_order (vc_instances_ s2)).*1) now s2 None) as (s3 & lastvc & E3 & Hl3);
    [by rewrite Hv2, (inv_validators _ _ _ Hi1)| |done|].
  { intros v ([v' x] & -> & Hin)%list_elem_of_fmap. by apply elem_of_in_key_order, elem_of_dom_2 in Hin. }
  rewrite E3. cbn. destruct lastvc as [v|]; [|by eexists]. unfold vc_at.
  destruct (proj1 (elem_of_dom _ _) (Hl3 v eq_refl)) as [x ->]. cbn. by eexists.
Qed.

Lemma Request_ok s value : validators_ s ≠ ∅ → ∃ r, Request s value = Ok r.
Proof.
  intros HV. unfold Request. destruct (leads_ok s (view_number_ s) HV) as [b ->]. cbn.
  destruct b; [|by eexists]. cbn. destruct (view_active_ s); by eexists.
Qed.

Lemma ProcessQuorumViewChange_ok s v :
  validators_ s ≠ ∅ → v ∈ dom (vc_instances_ s) → ∃ s' b, ProcessQuorumViewChange s v = Ok (s', b).
Proof.
  intros HV Hv. unfold ProcessQuorumViewChange, vc_at. destruct (proj1 (elem_of_dom _ _) Hv) as [x ->]. cbn.
  destruct (leads_ok (record_abnormal s) (vci_view_number_ x)) as [b ->].
  - unfold record_abnormal. by destruct (list_find _ _) as [[? [? ?]]|].
  - cbn. destruct b; by eauto.
Qed.

Lemma OnViewChange_ok s env : validators_ s ≠ ∅ → ∃ r, OnViewChangeWithRawValue s env = Ok r.
Proof.
  intros HV. unfold OnViewChangeWithRawValue. case_match; [by eexists|]. case_match; [by eexists|].
  set (v := vc_view_number _) in *.
  destruct (match vc_instances_ s !! v with Some x => (s, x) | None => _ end) as [s1 x] eqn:E1.
  assert (validators_ s1 = validators_ s) as Hv.
  { unfold HighResolution in E1. destruct (vc_instances_ s !! v); by simplify_eq. }
  match goal with |- ∃ r, (if ?b then _ else _) = _ => destruct b end; [|by eexists].
  match goal with |- context [ProcessQuorumViewChange ?s2 v] =>
    destruct (ProcessQuorumViewChange_ok s2 v) as (s3 & b & ->) end; [by cbn; rewrite Hv| |by eexists].
  cbn. rewrite dom_insert_L. set_solver.
Qed.

Lemma OnNewView_ok s env : validators_ s ≠ ∅ → ∃ r, OnNewView s env = Ok r.
Proof.
  intros HV. unfold OnNewView. case_match; [by eexists|]. case_match; [by eexists|].
  match goal with |- context [leads ?s ?v] => destruct (leads_ok s v HV) as [b ->] end. cbn.
  destruct b; [by eexists|]. case_match; [|by eexists]. case_match; by eexists.
Qed.

Lemma UpdateValidators_ok s validators proof :
  validators_ s ≠ ∅ → validators ≠ [] → NoDup validators → Z.of_nat (length validators) < 2 ^ 32 →
  ∃ r, UpdateValidators s validators proof = Ok r.
Proof.
  intros HV Hne Hnd Hlen. unfold UpdateValidators.
  match goal with |- context [match ?t with _ => _ end] => destruct t as [[v n]|] end; [|by eexists].
  assert (number_validators 0 validators ∅ ≠ ∅) as Hm.
  { destruct validators as [|a l]; [done|]. intros E. destruct (proj2 (number_validators_dom (a :: l) 0 ∅ a)) as [i Hi].
    - right. by left.
    - by rewrite E, lookup_empty in Hi. }
  match goal with |- context [?m ≫= _] => assert (∃ s1, m = Ok s1 ∧ validators_ s1 ≠ ∅) as (s1 & -> & H1) end.
  { destruct (negb _ || negb _); [|by eauto]. unfold SaveValidators. cbn [validators_ set_fault_number Consensus_UpdateValidators set_validators].
    rewrite validator_vector_numbered by done. cbn. unfold leads, leader_id. cbn. rewrite decide_False by done. by eexists. }
  cbn. set (s2 := if 0 <? n then _ else s1).
  assert (validators_ s2 ≠ ∅) as H2 by (unfold s2; by destruct (0 <? n)). clearbody s2.
  destruct ((0 <? v) || (0 <? n)); [|by eexists]. cbn. destruct (0 <=? _); [|by eexists].
  unfold IsLeader. cbn. destruct (is_validator_ s2); [|by eexists]. unfold leads, leader_id. cbn. rewrite decide_False by done. by eexists.
Qed.

(** The operations other than a message of one of the three phases; new validators are
    given as different addresses, at least one. *)
Definition off_phase op : Prop :=
  match op with
  | DoRecv env _ => phase_message (pbft_of env) = None
  | DoUpdateValidators validators _ =>
      validators ≠ [] ∧ NoDup validators ∧ Z.of_nat (length validators) < 2 ^ 32
  | _ => True
  end.
End runs.

(** C2: what a replica executes is certified.  After any run from the start of a node,
    whatever messages it received and however its validators changed ([UpdateValidators]
    runs after every block), every value given to [OnValueCommited] at a sequence number has
    commits for that sequence, in one view, signed by more than a quorum of different
    validators of one of the sets in force during the run, with the digest of the value (or
    an empty one); values are executed in strictly increasing sequence order, up to
    [last_exe_seq_], which never decreases.  Each set has fewer than 2^63 validators. *)
Theorem run_executes_certified `{PbftContext} db ticks validators proof ops s0 s :
  boot db ticks validators proof = Ok s0 → pbft_run ops s0 = Ok s →
  Forall (λ U, Z.of_nat (size U) < 2 ^ 63) (run_validators ops s0) →
  (∀ q v p, ValueCommited q v p ∈ events_ s →
     ∃ V w X, V ∈ run_validators ops s0 ∧ certificate V w q v X) ∧
  StronglySorted Z.lt (executed (events_ s)) ∧ (∀ q, q ∈ executed (events_ s) → q ≤ last_exe_seq_ s) ∧
  last_exe_seq_ s0 ≤ last_exe_seq_ s.
Proof.
  intros Hb Hr Hn. destruct (booted_run _ _ _ _ _ _ _ Hb Hr) as [[[_ _ _ Hs Hl] Hm] _].
  split_and!; try done. intros q v p Hin.
  destruct (run_certificate _ _ _ _ _ _ _ _ _ _ Hb Hr Hn Hin) as (V & w & X & HV & _ & HX). eauto.
Qed.

(** C31: agreement.  When two replicas executed the values [v1] and [v2] at the same sequence
    number, whatever they received and however their validators changed, each value has a
    certificate of a set of validators in force at its replica, [U1] and [U2], and the
    validators [X] that signed commits for this sequence at both replicas (with the digest
    of the value, or an empty one) number at least the two quorums less the validators of
    [U1] and [U2] together; for [U1 = U2] they are more than [f]. *)
Theorem executions_agree (C1 C2 : PbftContext) db1 ticks1 l1 proof1 ops1 s1 s1' db2 ticks2 l2 proof2 ops2 s2 s2'
    q v1 v2 p1 p2 :
  @boot C1 db1 ticks1 l1 proof1 = Ok s1 → @pbft_run C1 ops1 s1 = Ok s1' →
  @boot C2 db2 ticks2 l2 proof2 = Ok s2 → @pbft_run C2 ops2 s2 = Ok s2' →
  Forall (λ U, Z.of_nat (size U) < 2 ^ 63) (@run_validators C1 ops1 s1 ++ @run_validators C2 ops2 s2) →
  ValueCommited q v1 p1 ∈ events_ s1' → ValueCommited q v2 p2 ∈ events_ s2' →
  ∃ U1 U2 (X : gset bytes), U1 ∈ @run_validators C1 ops1 s1 ∧ U2 ∈ @run_validators C2 ops2 s2 ∧
    X ⊆ dom U1 ∩ dom U2 ∧
    QuorumSize (Z.of_nat (size U1)) + 1 + (QuorumSize (Z.of_nat (size U2)) + 1)
      - Z.of_nat (size (dom U1 ∪ dom U2)) ≤ Z.of_nat (size X) ∧
    (U1 = U2 → max_faulty (Z.of_nat (size U1)) < Z.of_nat (size X)) ∧
    ∀ a, a ∈ X → ∃ c1 c2, @committed_by C1 U1 a c1 ∧ @committed_by C2 U2 a c2 ∧
      c_sequence c1 = q ∧ c_sequence c2 = q ∧
      (c_value_digest c1 = @Crypto C1 v1 ∨ c_value_digest c1 = []) ∧
      (c_value_digest c2 = @Crypto C2 v2 ∨ c_value_digest c2 = []).
Proof.
  intros Hb1 Hr1 Hb2 Hr2 [Hn1 Hn2]%Forall_app H1 H2.
  destruct (@run_certificate C1 _ _ _ _ _ _ _ _ _ _ Hb1 Hr1 Hn1 H1) as (U1 & w1 & X1 & HU1 & Hpos & Hd1 & Hq1 & HX1).
  destruct (@run_certificate C2 _ _ _ _ _ _ _ _ _ _ Hb2 Hr2 Hn2 H2) as (U2 & w2 & X2 & HU2 & _ & Hd2 & Hq2 & HX2).
  exists U1, U2, (X1 ∩ X2). split_and!; [done|done|set_solver| | |].
  - assert (size X1 + size X2 ≤ size (dom U1 ∪ dom U2) + size (X1 ∩ X2))%nat by (apply size_intersection; set_solver).
    lia.
  - intros <-. pose proof (size_intersection X1 X2 (dom U1) Hd1 Hd2) as Hs. rewrite size_dom in Hs.
    rewrite list.Forall_forall in Hn1. specialize (Hn1 U1 HU1).
    destruct (quorum_cases (Z.of_nat (size U1))) as (Hc & _); [lia|]. lia.
  - intros a [Ha1 Ha2]%elem_of_intersection.
    destruct (HX1 a Ha1) as (c1 & ? & _ & ? & ?), (HX2 a Ha2) as (c2 & ? & _ & ? & ?). exists c1, c2. eauto 10.
Qed.

(** C38: timers, proposals, view changes and changes of the validators do not fault.  In every
    state that a node can reach, whatever it received and however its validators changed,
    and that has at least one validator, [OnTimer], [OnTxTimeout], the new-view timer,
    [Request], [OnRecv] of a message of no phase (a view change or a new view) and
    [UpdateValidators] with a non-empty list of different addresses return: no [begin()] of
    an empty map, no access out of range and no division by zero. *)
Theorem off_phase_never_faults `{PbftContext} db ticks validators proof ops s0 s op :
  boot db ticks validators proof = Ok s0 → pbft_run ops s0 = Ok s → validators_ s ≠ ∅ → off_phase op →
  ∃ s', pbft_step op s = Ok s'.
Proof.
  intros Hb Hr HV Ho. destruct (booted_run _ _ _ _ _ _ _ Hb Hr) as [[Hi _] Hin].
  destruct op as [env check|value|now| |data set|l pf]; simpl in *.
  - assert (∃ r, OnRecv s env check = Ok r) as [[s' b] ->]; [|by eexists].
    unfold OnRecv. destruct (CheckMessageItem _ _); [|by eexists]. cbn [negb]. unfold phase_message in Ho.
    destruct (pbft_type (pbft_of env)); try done; try (by eexists); [by apply OnNewView_ok|by apply OnViewChange_ok].
  - destruct (Request_ok s value HV) as [[s' b] ->]. by eexists.
  - by eapply OnTimer_ok.
  - destruct (OnTxTimeout_ok _ _ s Hi) as (s' & -> & _). by eexists.
  - by eapply OnNewViewTimer_ok.
  - destruct Ho as (? & ? & ?). destruct (UpdateValidators_ok s l pf HV) as [[s' b] ->]; try done. by eexists.
Qed.

(** Receiving a message terminates: in every state the loop of [Go] ends within the
    number of buffered messages, whatever they are. *)
Theorem OnRecv_terminates `{PbftContext} s env check : OnRecv s env check ≠ Err OutOfFuel.
Proof.
  change (ends (OnRecv s env check)). unfold OnRecv. case_match; [done|].
  destruct (pbft_type (pbft_of env)); try done; try apply OnViewChange_ends; try apply OnNewView_ends;
    (apply ends_bind; [apply CreateInstance_ends|]); intros [s1 [k|]]; try done; apply Go_ends.
Qed.

(** ** Concrete runs *)

Definition no_db : PbftDb := mkDb None None None None None.
Definition accept : bytes → CheckValueResult := λ _, CHECK_VALUE_VALID.

(** The context of replica [n]. *)
Definition toy_replica (n : nat) : PbftContext := {|
  SerializePbft := λ _, []; SerializeEnv := λ _, []; SerializeProof := λ _, [];
  ParseProof := λ _, None; Crypto := λ x, x; Verify := λ _ s pk, bool_decide (s = pk);
  GetEncAddress := λ pk, pk; Sign := λ _, validator_name n; EncPublicKey := validator_name n;
  EncAddress := validator_name n; GetSelfChainId := 7; clock := λ n, Z.of_nat n + 1; garbage := 0 |}.

Definition message_by (n : nat) (p : Pbft) : PbftEnv :=
  mkPbftEnv (Some p) (mkSignature (validator_name n) (validator_name n)).
Definition pre_prepare_by (n : nat) (view sequence : Z) (value : bytes) : PbftEnv :=
  message_by n (mkPbft 1 PBFT_TYPE_PREPREPARE
    (Some (mkPrePrepare view sequence (Z.of_nat n) value value)) None None None None None 7).
Definition prepare_by (n : nat) (view sequence : Z) (digest : bytes) : PbftEnv :=
  message_by n (mkPbft 1 PBFT_TYPE_PREPARE None
    (Some (mkPrepare view sequence (Z.of_nat n) digest)) None None None None 7).

Definition recv (env : PbftEnv) : pbft_op := DoRecv env accept.

(** The prepare messages of two replicas and the commits of three. *)
Definition round_of (q : Z) (v : bytes) : list pbft_op :=
  recv <$> [prepare_by 1 0 q v; prepare_by 2 0 q v; commit_by 0 0 q v; commit_by 1 0 q v; commit_by 2 0 q v].

Definition leader_run : list pbft_op :=
  DoRequest (str "a") :: round_of 2 (str "a") ++ DoRequest (str "b") :: round_of 3 (str "b").

(** The state a run leaves, [d] when it faults. *)
Definition outcome (r : res PbftObj) (d : PbftObj) : PbftObj := match r with Ok s => s | Err _ => d end.
Definition run_from (n : nat) (ops : list pbft_op) : res PbftObj :=
  let C := toy_replica n in s ← boot no_db 0 toy_validators []; pbft_run ops s.

Definition booted (n : nat) : PbftObj := outcome (run_from n []) (@new_Pbft no_db 0).
Definition after (n : nat) (ops : list pbft_op) : PbftObj := outcome (run_from n ops) (booted n).

(** Two blocks under four validators, then one under the first three of them. *)
Definition era_run : list pbft_op :=
  leader_run ++ DoUpdateValidators (take 3 toy_validators) [] :: DoRequest (str "c") :: round_of 4 (str "c").

(** Everything for one proposal, at a replica that does not lead. *)
Definition follower_round (q : Z) : list pbft_op := recv (pre_prepare_by 0 0 q (str "a")) :: round_of q (str "a").

(** The values handed to [OnValueCommited], with their sequence numbers. *)
Fixpoint executions (l : list event) : list (Z * bytes) :=
  match l with
  | [] => []
  | ValueCommited q v _ :: l => (q, v) :: executions l
  | _ :: l => executions l
  end.

Lemma executions_elem l q v : (q, v) ∈ executions l → ∃ p, ValueCommited q v p ∈ l.
Proof.
  induction l as [|e l IH]; intros Hin; [by apply not_elem_of_nil in Hin|].
  destruct e; simpl in Hin; try (destruct (IH Hin) as [p Hp]; exists p; by right).
  apply elem_of_cons in Hin as [[= -> ->]|Hin]; [eexists; by left|]. destruct (IH Hin) as [p Hp]. exists p. by right.
Qed.

Lemma run_executes_certified_witness :
  executions (events_ (after 0 era_run)) = [(2, str "a"); (3, str "b"); (4, str "c")] ∧
  remove_dups (size <$> @run_validators (toy_replica 0) era_run (booted 0)) = [4%nat; 3%nat] ∧
  ∃ V w X, V ∈ @run_validators (toy_replica 0) era_run (booted 0) ∧ @certificate (toy_replica 0) V w 4 (str "c") X.
Proof.
  assert (executions (events_ (after 0 era_run)) = [(2, str "a"); (3, str "b"); (4, str "c")]) as He by (vm_compute; reflexivity).
  split; [exact He|]. split; [vm_compute; reflexivity|].
  destruct (executions_elem (events_ (after 0 era_run)) 4 (str "c")) as [p Hp]; [rewrite He; do 2 right; by left|].
  destruct (@run_executes_certified (toy_replica 0) no_db 0 toy_validators [] era_run (booted 0) (after 0 era_run))
    as [Hc _]; [vm_compute; reflexivity..|apply (bool_decide_unpack _); vm_compute; exact I|].
  exact (Hc _ _ _ Hp).
Defined.

Lemma executions_agree_witness :
  ∃ U1 U2 (X : gset bytes), U1 ∈ @run_validators (toy_replica 0) leader_run (booted 0) ∧
    U2 ∈ @run_validators (toy_replica 1) (follower_round 2) (booted 1) ∧ X ⊆ dom U1 ∩ dom U2 ∧
    (U1 = U2 → max_faulty (Z.of_nat (size U1)) < Z.of_nat (size X)).
Proof.
  destruct (executions_elem (events_ (after 0 leader_run)) 2 (str "a")) as [p1 Hp1].
  { replace (executions (events_ (after 0 leader_run))) with [(2, str "a"); (3, str "b")] by (vm_compute; reflexivity). by left. }
  destruct (executions_elem (events_ (after 1 (follower_round 2))) 2 (str "a")) as [p2 Hp2].
  { replace (executions (events_ (after 1 (follower_round 2)))) with [(2, str "a")] by (vm_compute; reflexivity). by left. }
  destruct (executions_agree (toy_replica 0) (toy_replica 1) no_db 0 toy_validators [] leader_run (booted 0) (after 0 leader_run)
    no_db 0 toy_validators [] (follower_round 2) (booted 1) (after 1 (follower_round 2)) 2 (str "a") (str "a") p1 p2)
    as (U1 & U2 & X & H1 & H2 & H3 & _ & H4 & _);
    [vm_compute; reflexivity..|apply (bool_decide_unpack _); vm_compute; exact I|exact Hp1|exact Hp2|].
  exists U1, U2, X. split_and!; [exact H1|exact H2|exact H3|exact H4].
Defined.

Lemma off_phase_never_faults_witness :
  ∃ s', @pbft_step (toy_replica 0) (DoTimer (100 * 1000000)) (after 0 (era_run ++ [DoRequest (str "d")])) = Ok s'.
Proof.
  apply (@off_phase_never_faults (toy_replica 0) no_db 0 toy_validators []
    (era_run ++ [DoRequest (str "d")]) (booted 0)); try (vm_compute; reflexivity).
  intros E. apply (f_equal size) in E. vm_compute in E. discriminate E.
Defined.

(** ** Where the code falls short *)

Definition fault_of {A} (r : res A) : option fault := match r with Ok _ => None | Err e => Some e end.

(** Sequences 3 to 7 are committed while 2 is missing. *)
Definition ahead : list pbft_op := concat (follower_round <$> [3; 4; 5; 6; 7]).

(** An instance is used after it was erased.  When the next six sequence numbers
    are committed and the commit of the first arrives last, [TryExecuteValue] executes
    them all and erases instances that are at least five behind, among them the one whose
    [Go] loop is running: the loop then reads the erased instance.  Without the last
    commit the run is fine. *)
Theorem commit_erases_running_instance :
  fault_of (run_from 1 (ahead ++ take 5 (follower_round 2))) = None ∧
  fault_of (run_from 1 (ahead ++ follower_round 2)) = Some NullDeref.
Proof. split; vm_compute; reflexivity. Qed.

(** A view-change message to the view [v] without a signature, in the name of replica [r]. *)
Definition unsigned_view_change (v r : Z) : PbftEnv :=
  mkPbftEnv (Some (mkPbft 0 PBFT_TYPE_VIEWCHANGE None None None
    (Some (mkViewChange v 1 [] r)) None None 7)) no_signature.

Section forged.
Context `{PbftContext}.

(** The loop over the view changes only reads their view and replica. *)
Lemma check_unsigned env V v ids : ∀ acc,
  CheckMessageItem env V = true →
  check_view_changes env V v (unsigned_view_change v <$> ids) acc = Some (list_to_set ids ∪ acc).
Proof.
  induction ids as [|r ids IH]; intros acc Hc; simpl; [f_equal; set_solver|].
  rewrite Hc, decide_True by done. rewrite IH by done. f_equal. set_solver.
Qed.

(** C40: a new-view message needs no view-change message of anyone else.  [OnNewView] checks
    the new-view message itself in place of each view change in it.  So in every state, a
    new-view message that one validator signed, for any later view that the replica does not
    lead, moves the replica to that view and makes it active, when it lists enough different
    replica numbers, with view changes that nobody signed. *)
Theorem unsigned_view_changes_accepted s env nv ids check :
  CheckMessageItem env (validators_ s) = true → pbft_type (pbft_of env) = PBFT_TYPE_NEWVIEW →
  pbft_new_view (pbft_of env) = Some nv → view_number_ s < nv_view_number nv →
  leads s (nv_view_number nv) = Ok false →
  nv_view_changes nv = unsigned_view_change (nv_view_number nv) <$> ids →
  GetQuorumSize s < Z.of_nat (size (list_to_set ids : gset Z)) →
  ∃ s', OnRecv s env check = Ok (s', true) ∧ view_number_ s' = nv_view_number nv ∧ view_active_ s' = true.
Proof.
  intros Hc Ht Hn Hv Hl Hu Hq. unfold OnRecv. rewrite Hc, Ht. cbn [negb]. unfold OnNewView, new_view_of. rewrite Hn. simpl default.
  rewrite (proj2 (Z.eqb_neq _ _)), (proj2 (Z.ltb_ge _ _)) by lia.
  change (leads (emit _ s)) with (leads s). rewrite Hl. cbn [mbind res_bind HighResolution]. unfold HighResolution.
  change (validators_ (tick _)) with (validators_ s). rewrite Hu, check_unsigned by done.
  change (GetQuorumSize (tick _)) with (GetQuorumSize s). rewrite union_empty_r_L, (proj2 (Z.leb_gt _ _)) by lia.
  eexists. split; [reflexivity|]. by case_match.
Qed.
End forged.

Definition forged_new_view : PbftEnv :=
  message_by 1 (mkPbft 0 PBFT_TYPE_NEWVIEW None None None None
    (Some (mkNewView 5 1 1 (unsigned_view_change 5 <$> [0; 2; 3]) None)) None 7).

Lemma unsigned_view_changes_accepted_witness :
  view_number_ (booted 0) = 0 ∧
  Forall (λ e, @CheckMessageItem (toy_replica 0) e (validators_ (booted 0)) = false)
    (nv_view_changes (new_view_of (pbft_of forged_new_view))) ∧
  ∃ s', @OnRecv (toy_replica 0) (booted 0) forged_new_view accept = Ok (s', true) ∧ view_number_ s' = 5 ∧
    view_active_ s' = true.
Proof.
  split_and!; [vm_compute; reflexivity|repeat constructor; vm_compute; reflexivity|].
  apply (@unsigned_view_changes_accepted (toy_replica 0) (booted 0) forged_new_view
    (mkNewView 5 1 1 (unsigned_view_change 5 <$> [0; 2; 3]) None) [0; 2; 3] accept); vm_compute; reflexivity.
Defined.

(** A commit for another digest arrives first. *)
Definition noisy_run : list pbft_op :=
  recv (pre_prepare_by 0 0 2 (str "a")) :: recv (commit_by 3 0 2 (str "x")) :: round_of 2 (str "a").

(** One commit message with another digest spoils the proof of a block.  The replica
    executes the value with enough matching commits, but the proof it hands on contains
    the stray commit, and the loop of [CheckProof] rejects such a proof. *)
Theorem stray_commit_spoils_proof : ∃ proof,
  ValueCommited 2 (str "a") proof ∈ events_ (after 1 noisy_run) ∧
  @check_commits (toy_replica 1) proof (str "a") (number_validators 0 toy_validators ∅) = None ∧
  is_Some (@check_commits (toy_replica 1) (filter (λ e, c_value_digest (commit_of (pbft_of e)) = str "a") proof)
    (str "a") (number_validators 0 toy_validators ∅)).
Proof.
  exists (commit_by 3 0 2 (str "x") :: ((λ n, commit_by n 0 2 (str "a")) <$> [0; 1; 2]%nat)).
  split_and!; [|vm_compute; reflexivity|vm_compute; by eexists]. vm_compute. repeat first [apply list_elem_of_here|apply list_elem_of_further].
Qed.
