(* ===== verification/SafeInt.v ===== *)
(** * Checked arithmetic on 64-bit integers (src/src/utils/base_int.h)

    [SafeIntAdd], [SafeIntSub] and [SafeIntMul] at the type [int64_t]: the operands are
    [volatile], so the sum is the wrapped one.  They return the exact result, or report an
    overflow; [SafeIntMul] divides by its first operand, which traps on the one input that
    overflows the division. *)
From S2P Require Import Prelude.
From stdpp Require Import base numbers.
From Stdlib Require Import ZArith Lia.
Local Open Scope Z_scope.

Definition INT64_MIN : Z := - 2 ^ 63.
Definition INT64_MAX : Z := 2 ^ 63 - 1.
Definition UINT32_MAX : Z := 2 ^ 32 - 1.

(** The values of an [int64_t]. *)
Definition is_i64 (z : Z) : Prop := (- 2 ^ 63 ≤ z < 2 ^ 63)%Z.

#[global] Instance is_i64_dec z : Decision (is_i64 z).
Proof. unfold is_i64. apply _. Defined.

(** [Some r]: the function returned [true] and set its result. *)
Definition SafeIntAdd (x y : Z) : option Z :=
  let sum := i64 (x + y) in
  let negOver := (x <? 0) && (y <? 0) && (0 <=? sum) in
  let posOver := (0 <=? x) && (0 <=? y) && (sum <? 0) in
  if negb negOver && negb posOver then Some sum else None.

Definition SafeIntSub (x y : Z) : option Z :=
  let dif := i64 (x - y) in
  let negOver := (x <? 0) && (0 <=? y) && (0 <=? dif) in
  let posOver := (0 <=? x) && (y <? 0) && (dif <=? 0) in
  if negb negOver && negb posOver then Some dif else None.

(** [mul / x] traps when [mul] is the least value and [x] is [-1]. *)
Definition SafeIntMul (x y : Z) : res (option Z) :=
  let mul := i64 (x * y) in
  if x =? 0 then Ok (Some mul)
  else if (x =? -1) && (mul =? INT64_MIN) then Err DivByZero
  else Ok (if Z.quot mul x =? y then Some mul else None).

(** The exact result, when it is a value of the type. *)
Definition exact (z : Z) : option Z := if decide (is_i64 z) then Some z else None.

Lemma i64_range z : is_i64 (i64 z).
Proof. unfold i64, is_i64. pose proof (Z.mod_pos_bound (z + 2 ^ 63) (2 ^ 64)). lia. Qed.

Lemma i64_id z : is_i64 z → i64 z = z.
Proof. apply i64_small. Qed.

(** The wrapped value differs by a multiple of [2 ^ 64]. *)
Lemma i64_wrap z : ∃ k, i64 z = z - k * 2 ^ 64.
Proof.
  exists ((z + 2 ^ 63) / 2 ^ 64). unfold i64.
  pose proof (Z.div_mod (z + 2 ^ 63) (2 ^ 64)). lia.
Qed.

Lemma SafeIntAdd_exact x y : is_i64 x → is_i64 y → SafeIntAdd x y = exact (x + y).
Proof.
  intros Hx Hy. unfold SafeIntAdd, exact. pose proof (i64_range (x + y)) as Hr.
  destruct (i64_wrap (x + y)) as [k Hk]. case_decide as Hd.
  - rewrite i64_id by done. unfold is_i64 in *.
    destruct (Z.ltb_spec x 0), (Z.ltb_spec y 0), (Z.leb_spec 0 (x + y)), (Z.leb_spec 0 x),
      (Z.leb_spec 0 y), (Z.ltb_spec (x + y) 0); simpl; try done; lia.
  - unfold is_i64 in *.
    destruct (Z.ltb_spec x 0), (Z.ltb_spec y 0), (Z.leb_spec 0 (i64 (x + y))), (Z.leb_spec 0 x),
      (Z.leb_spec 0 y), (Z.ltb_spec (i64 (x + y)) 0); simpl; try done; lia.
Qed.

Lemma SafeIntSub_exact x y : is_i64 x → is_i64 y → SafeIntSub x y = exact (x - y).
Proof.
  intros Hx Hy. unfold SafeIntSub, exact. pose proof (i64_range (x - y)) as Hr.
  destruct (i64_wrap (x - y)) as [k Hk]. case_decide as Hd.
  - rewrite i64_id by done. unfold is_i64 in *.
    destruct (Z.ltb_spec x 0), (Z.ltb_spec y 0), (Z.leb_spec 0 (x - y)), (Z.leb_spec 0 x),
      (Z.leb_spec 0 y), (Z.leb_spec (x - y) 0); simpl; try done; lia.
  - unfold is_i64 in *.
    destruct (Z.ltb_spec x 0), (Z.ltb_spec y 0), (Z.leb_spec 0 (i64 (x - y))), (Z.leb_spec 0 x),
      (Z.leb_spec 0 y), (Z.leb_spec (i64 (x - y)) 0); simpl; try done; lia.
Qed.

(** A quotient that equals [y] is closer to the product than a wrap-around. *)
Lemma quot_close m x y : x ≠ 0 → Z.quot m x = y → Z.abs (m - x * y) < Z.abs x.
Proof.
  intros Hx <-. pose proof (Z.quot_rem m x Hx). pose proof (Z.rem_bound_abs m x Hx).
  replace (m - x * Z.quot m x) with (Z.rem m x) by lia. done.
Qed.

Lemma SafeIntMul_exact x y :
  is_i64 x → is_i64 y → ¬ (x = -1 ∧ y = INT64_MIN) → SafeIntMul x y = Ok (exact (x * y)).
Proof.
  intros Hx Hy Hne. unfold SafeIntMul, exact. pose proof (i64_range (x * y)) as Hr.
  destruct (i64_wrap (x * y)) as [k Hk].
  destruct (Z.eqb_spec x 0) as [->|Hx0].
  { rewrite Z.mul_0_l, decide_True by (unfold is_i64; lia). by rewrite i64_id by (unfold is_i64; lia). }
  destruct (Z.eqb_spec x (-1)) as [->|Hx1].
  - assert (y ≠ INT64_MIN) by naive_solver. unfold INT64_MIN, is_i64 in *.
    rewrite i64_id, decide_True by (unfold is_i64; lia).
    destruct (Z.eqb_spec (-1 * y) (- 2 ^ 63)); [lia|]. simpl.
    replace (-1 * y) with (y * -1) by lia. rewrite Z.quot_mul by lia.
    by rewrite Z.eqb_refl.
  - simpl. case_decide as Hd.
    + rewrite i64_id by done. replace (x * y) with (y * x) at 1 by lia. rewrite Z.quot_mul by lia.
      by rewrite Z.eqb_refl.
    + destruct (Z.eqb_spec (Z.quot (i64 (x * y)) x) y) as [E|]; [|done]. exfalso.
      apply quot_close in E; [|done]. unfold is_i64 in *. assert (k ≠ 0) by lia. nia.
Qed.

Lemma exact_Some z r : exact z = Some r → r = z ∧ is_i64 z.
Proof. unfold exact. case_decide; naive_solver. Qed.

(** The checked operations are exact.  On 64-bit integers [SafeIntAdd] and [SafeIntSub]
    return the mathematical result if it is a 64-bit integer and report an overflow otherwise,
    although they look at the wrapped result only; so does [SafeIntMul], except that it traps
    at [-1] times the least integer, where it divides the least integer by [-1]. *)
Theorem SafeInt_exact x y : is_i64 x → is_i64 y →
  SafeIntAdd x y = exact (x + y) ∧ SafeIntSub x y = exact (x - y) ∧
  SafeIntMul x y = (if decide (x = -1 ∧ y = INT64_MIN) then Err DivByZero else Ok (exact (x * y))).
Proof.
  intros Hx Hy. split_and!; [by apply SafeIntAdd_exact|by apply SafeIntSub_exact|].
  destruct (decide _) as [[-> ->]|Hn]; [done|by apply SafeIntMul_exact].
Qed.

Lemma SafeInt_exact_witness :
  is_i64 (-1) ∧ is_i64 INT64_MIN ∧ SafeIntAdd (-1) INT64_MIN = None ∧ SafeIntMul (-1) INT64_MIN = Err DivByZero.
Proof.
  assert (is_i64 (-1)) as H1 by (unfold is_i64; lia).
  assert (is_i64 INT64_MIN) as H2 by (unfold is_i64, INT64_MIN; lia).
  destruct (SafeInt_exact (-1) INT64_MIN H1 H2) as (E1 & _ & E3).
  split; [exact H1|]. split; [exact H2|]. split; [rewrite E1|rewrite E3]; vm_compute; reflexivity.
Defined.

#[export] Hint Resolve i64_range : ceg.
