(* ===== verification/Strings.v ===== *)
(** * String conversions (src/src/utils/strings.h)

    [Trim], and the conversions between decimal strings and integers.  [atoll] and
    [snprintf] are the C library's: [atoll] skips white space, reads a sign and digits and
    saturates at the limits of the type. *)
From stdpp Require Import base numbers list.
From Stdlib Require Import ZArith Lia.
From S2P Require Import Prelude SafeInt.
Local Open Scope Z_scope.

(** [(nValue > 0) && isspace(nValue)]: the blank and the characters 9 to 13. *)
Definition IsSpace (c : byte) : bool := (uchar c =? 32) || ((9 <=? uchar c) && (uchar c <=? 13)).

(** [while (nLeftPos < str.size() && IsSpace(str[nLeftPos])) nLeftPos++]. *)
Fixpoint drop_spaces (s : bytes) : bytes :=
  match s with c :: s' => if IsSpace c then drop_spaces s' else s | [] => [] end.

Definition Trim (s : bytes) : bytes := reverse (drop_spaces (reverse (drop_spaces s))).

(** ** Decimal digits *)

Definition digit_of (d : Z) : byte := to_char (48 + d).

Definition digit_value (c : byte) : option Z :=
  if (48 <=? uchar c) && (uchar c <=? 57) then Some (uchar c - 48) else None.

(** The digits of [n] in front of [acc]; [fuel] bounds their number. *)
Fixpoint digits (fuel : nat) (n : Z) (acc : bytes) : bytes :=
  match fuel with
  | O => acc
  | S fuel =>
      let acc := digit_of (n mod 10) :: acc in
      if n <? 10 then acc else digits fuel (n / 10) acc
  end.

(** An integer of 64 bits has at most 20 digits. *)
Definition ToString (n : Z) : bytes :=
  if n <? 0 then to_char 45 :: digits 20 (- n) [] else digits 20 n [].

Fixpoint read_digits (s : bytes) (acc : Z) : Z :=
  match s with
  | c :: s => match digit_value c with Some d => read_digits s (10 * acc + d) | None => acc end
  | [] => acc
  end.

Definition clamp64 (n : Z) : Z := Z.max INT64_MIN (Z.min INT64_MAX n).

Definition atoll (s : bytes) : Z :=
  match drop_spaces s with
  | c :: s' =>
      if uchar c =? 45 then clamp64 (- read_digits s' 0)
      else if uchar c =? 43 then clamp64 (read_digits s' 0)
      else clamp64 (read_digits (c :: s') 0)
  | [] => 0
  end.

Definition Stoi64 (s : bytes) : Z := if decide (length s = 0%nat) then 0 else atoll s.

Definition SafeStoi64 (s : bytes) : option Z :=
  if decide (20 < length s)%nat then None
  else
    let temNum := Stoi64 s in
    if decide (s = ToString temNum) then Some temNum else None.

(** ** Printing and reading back *)

Lemma uchar_to_char z : 0 ≤ z < 256 → uchar (to_char z) = z.
Proof.
  intros Hz. unfold to_char, uchar. rewrite Z.mod_small by lia.
  destruct (Strings.Byte.of_N (Z.to_N z)) as [b|] eqn:E.
  - simpl. apply Strings.Byte.to_of_N in E. rewrite E. lia.
  - apply Strings.Byte.of_N_None_iff in E. lia.
Qed.

Lemma digit_value_of d : 0 ≤ d < 10 → digit_value (digit_of d) = Some d.
Proof.
  intros Hd. unfold digit_value, digit_of. rewrite uchar_to_char by lia.
  destruct (Z.leb_spec 48 (48 + d)), (Z.leb_spec (48 + d) 57); simpl; try lia. f_equal. lia.
Qed.

(** [digits] puts the digits of [n] in front: reading them gives [n]. *)
Lemma digits_spec fuel : ∀ n acc, 0 ≤ n < 10 ^ Z.of_nat fuel →
  ∃ ds, digits fuel n acc = ds ++ acc ∧ (length ds ≤ fuel)%nat ∧
    (fuel ≠ O → ds ≠ []) ∧ Forall (λ c, ∃ d, 0 ≤ d < 10 ∧ c = digit_of d) ds ∧
    ∀ rest a, read_digits (ds ++ rest) a = read_digits rest (a * 10 ^ Z.of_nat (length ds) + n).
Proof.
  induction fuel as [|fuel IH]; intros n acc Hn.
  { exists []. simpl in *. split_and!; try done. intros rest a. f_equal. lia. }
  simpl digits. set (d := n mod 10). assert (0 ≤ d < 10) as Hd by (apply Z.mod_pos_bound; lia).
  destruct (Z.ltb_spec n 10) as [Hlt|Hge].
  - exists [digit_of d]. assert (d = n) by (apply Z.mod_small; lia).
    split_and!; [done|simpl; lia|done|repeat constructor; eauto|].
    intros rest a. simpl. rewrite digit_value_of by done. f_equal. lia.
  - destruct (IH (n / 10) (digit_of d :: acc)) as (ds & -> & Hl & _ & Hall & Hr).
    { split; [apply Z.div_pos; lia|]. apply Z.div_lt_upper_bound; [lia|].
      rewrite Nat2Z.inj_succ, Z.pow_succ_r in Hn by lia. lia. }
    exists (ds ++ [digit_of d]). split_and!.
    + by rewrite <- app_assoc.
    + rewrite length_app. simpl. lia.
    + intros _. by destruct ds.
    + apply Forall_app. split; [done|]. repeat constructor. eauto.
    + intros rest a. rewrite <- app_assoc, Hr. simpl. rewrite digit_value_of by done. f_equal.
      rewrite length_app, Nat2Z.inj_add, Z.pow_add_r by lia. simpl.
      pose proof (Z.div_mod n 10). subst d. lia.
Qed.


(** A shorter bound on the number of digits. *)
Lemma digits_short fuel : ∀ k n acc, (k ≤ fuel)%nat → (0 < k)%nat → 0 ≤ n < 10 ^ Z.of_nat k →
  digits fuel n acc = digits k n acc.
Proof.
  induction fuel as [|fuel IH]; intros k n acc Hk Hk0 Hn; [lia|].
  destruct k as [|k]; [lia|]. simpl. destruct (Z.ltb_spec n 10); [done|].
  destruct k as [|k]; [simpl in Hn; lia|]. apply IH; [lia|lia|].
  split; [apply Z.div_pos; lia|]. apply Z.div_lt_upper_bound; [lia|].
  rewrite (Nat2Z.inj_succ (S k)), Z.pow_succ_r in Hn by lia. lia.
Qed.

Lemma digit_not_space d : 0 ≤ d < 10 → IsSpace (digit_of d) = false.
Proof.
  intros Hd. unfold IsSpace, digit_of. rewrite uchar_to_char by lia.
  destruct (Z.eqb_spec (48 + d) 32), (Z.leb_spec (48 + d) 13), (Z.leb_spec 9 (48 + d)); simpl; lia.
Qed.

(** The digits of a number below [2 ^ 63 + 1], as a list that reads back. *)
Lemma digits64 n : 0 ≤ n ≤ 2 ^ 63 →
  ∃ d ds, digits 20 n [] = digit_of d :: ds ∧ 0 ≤ d < 10 ∧ (length ds ≤ 18)%nat ∧
    read_digits (digit_of d :: ds) 0 = n.
Proof.
  intros Hn. rewrite (digits_short 20 19) by lia.
  destruct (digits_spec 19 n []) as (ds & -> & Hl & Hne & Hall & Hr); [lia|].
  rewrite app_nil_r. destruct ds as [|c ds]; [by destruct Hne|].
  apply Forall_cons in Hall as [(d & Hd & ->) _]. exists d, ds. split_and!; [done|lia|lia|simpl in Hl; lia|].
  specialize (Hr [] 0). rewrite app_nil_r in Hr. rewrite Hr. simpl. lia.
Qed.

Lemma atoll_ToString n : is_i64 n → atoll (ToString n) = n.
Proof.
  intros Hn. unfold is_i64 in Hn. unfold ToString, atoll.
  assert (IsSpace (to_char 45) = false) as Hsp by reflexivity.
  destruct (Z.ltb_spec n 0).
  - destruct (digits64 (- n)) as (d & ds & -> & Hd & _ & Hr); [lia|].
    cbn [drop_spaces]. rewrite Hsp, uchar_to_char by lia. cbn [Z.eqb Pos.eqb].
    rewrite Hr. unfold clamp64, INT64_MIN, INT64_MAX. lia.
  - destruct (digits64 n) as (d & ds & -> & Hd & _ & Hr); [lia|].
    cbn [drop_spaces]. rewrite digit_not_space by done.
    unfold digit_of at 1 2. rewrite uchar_to_char by lia.
    destruct (Z.eqb_spec (48 + d) 45); [lia|]. destruct (Z.eqb_spec (48 + d) 43); [lia|].
    rewrite Hr. unfold clamp64, INT64_MIN, INT64_MAX. lia.
Qed.

Lemma ToString_length n : is_i64 n → (0 < length (ToString n) ≤ 20)%nat.
Proof.
  intros Hn. unfold is_i64 in Hn. unfold ToString. destruct (Z.ltb_spec n 0).
  - destruct (digits64 (- n)) as (d & ds & -> & _ & Hl & _); [lia|]. simpl. lia.
  - destruct (digits64 n) as (d & ds & -> & _ & Hl & _); [lia|]. simpl. lia.
Qed.

Lemma atoll_i64 s : is_i64 (atoll s).
Proof.
  unfold atoll. assert (∀ z, is_i64 (clamp64 z)) as Hc.
  { intros z. unfold clamp64, is_i64, INT64_MIN, INT64_MAX. lia. }
  destruct (drop_spaces s); [unfold is_i64; lia|]. repeat case_match; apply Hc.
Qed.

Lemma SafeStoi64_range s n : SafeStoi64 s = Some n → is_i64 n.
Proof.
  unfold SafeStoi64. case_decide; [done|]. case_decide; [|done]. intros [= <-].
  unfold Stoi64. case_decide; [unfold is_i64; lia|apply atoll_i64].
Qed.

(** [SafeStoi64] accepts exactly the canonical decimal form of a 64-bit integer.
    Printing and reading back gives the same integer, and a string that is accepted is the
    one [ToString] prints for the result: no leading zeros, blanks or plus sign, and no
    value out of range. *)
Theorem SafeStoi64_canonical s n :
  SafeStoi64 s = Some n ↔ s = ToString n ∧ is_i64 n.
Proof.
  unfold SafeStoi64. split.
  - intros H. split; [|by eapply SafeStoi64_range]. revert H.
    case_decide; [done|]. case_decide as E; [|done]. by intros [= <-].
  - intros [-> Hn]. pose proof (ToString_length n Hn).
    assert (Stoi64 (ToString n) = n) as E.
    { unfold Stoi64. rewrite decide_False by lia. by apply atoll_ToString. }
    rewrite decide_False by lia. by rewrite E, decide_True.
Qed.
