(* ===== verification/Base58.v ===== *)
(** * Base-58 text (src/src/utils/crypto.cpp, class [Base58])

    The encoding of addresses and private keys.  A vector of digits that the code walks
    from its end is kept with the last element first.  [value] is the number that a list of
    digits denotes; both directions preserve it, and digits without leading zeros are
    determined by it. *)
From Stdlib Require Import ZArith Lia.
From stdpp Require Import base strings numbers list.
From S2P Require Import Prelude.
Local Open Scope Z_scope.

(** ** The program *)

Definition kBase58Dictionary : bytes := str "123456789AbCDEFGHJKLMNPQRSTuVWXYZaBcdefghijkmnopqrstUvwxyz".

Definition kBase58digits : list Z := [
  -1; -1; -1; -1; -1; -1; -1; -1; -1; -1; -1; -1; -1; -1; -1; -1;
  -1; -1; -1; -1; -1; -1; -1; -1; -1; -1; -1; -1; -1; -1; -1; -1;
  -1; -1; -1; -1; -1; -1; -1; -1; -1; -1; -1; -1; -1; -1; -1; -1;
  -1; 0; 1; 2; 3; 4; 5; 6; 7; 8; -1; -1; -1; -1; -1; -1;
  -1; 9; 34; 11; 12; 13; 14; 15; 16; -1; 17; 18; 19; 20; 21; -1;
  22; 23; 24; 25; 26; 52; 28; 29; 30; 31; 32; -1; -1; -1; -1; -1;
  -1; 33; 10; 35; 36; 37; 38; 39; 40; 41; 42; 43; -1; 44; 45; 46;
  47; 48; 49; 50; 51; 27; 53; 54; 55; 56; 57; -1; -1; -1; -1; -1].

(** How often [x] stands at the front. *)
Fixpoint leading {A} `{EqDecision A} (x : A) (l : list A) : nat :=
  match l with [] => 0 | y :: l => if decide (y = x) then S (leading x l) else 0 end.

(** One run of the inner loop of either direction: [v := v * mult + carry] on digits of the
    given base; what remains of the carry is dropped. *)
Fixpoint mul_add (base mult carry : Z) (l : list Z) : list Z :=
  match l with
  | [] => []
  | d :: l => let c := carry + mult * d in c `mod` base :: mul_add base mult (c / base) l
  end.

(** [kBase58Dictionary[d]]. *)
Definition digit_char (d : Z) : byte := kBase58Dictionary !!! Z.to_nat d.

Definition Encode (str_in : bytes) : bytes :=
  let zeros := leading (to_char 0) str_in in
  let first_no_zero := (zeros - 1)%nat in
  let b58 := replicate (length str_in * 138 / 100 + 1)%nat 0 in
  let b58 := reverse (foldl (λ b c, mul_add 58 256 (uchar c) b) b58 (drop first_no_zero str_in)) in
  replicate zeros (digit_char 0) ++ (digit_char <$> drop (leading 0 b58) b58).

(** [(unsigned char)kBase58digits[c]]: the table has 128 entries, and a [char] is signed. *)
Definition char_digit (c : byte) : res Z :=
  if schar c <? 0 then Err OutOfRange else d ← at_ kBase58digits (Z.to_nat (schar c)); mret (d `mod` 256).

(** [log2(58.0)], and [std::size_t(left_size * log2(58.0) / 8 + 2)]. *)
Definition log2_58 : double := (0x176e9291eaa65b, -50).

Definition decoded_size (left_size : nat) : nat :=
  Z.to_nat (double_to_int (double_add
    (double_shift (double_mul (double_of_int (Z.of_nat left_size)) log2_58) 3) (2, 0))).

Definition Decode (strIn : bytes) : res bytes :=
  let nZeros := leading (digit_char 0) strIn in
  let new_size := decoded_size (length strIn - nZeros) in
  digits ← mapM char_digit (drop nZeros strIn);
  let tmp_str := reverse (foldl (λ t d, mul_add 256 58 d t) (replicate new_size 0) digits) in
  mret (replicate nZeros (to_char 0) ++ (to_char <$> drop (leading 0 tmp_str) tmp_str)).

(** ** Digits and numbers *)

(** Most significant digit first. *)
Definition value (b : Z) (l : list Z) : Z := foldl (λ v d, v * b + d) 0 l.

(** Least significant digit first. *)
Fixpoint lvalue (b : Z) (l : list Z) : Z :=
  match l with [] => 0 | d :: l => d + b * lvalue b l end.

Definition digits_ok (b : Z) (l : list Z) : Prop := Forall (λ d, 0 ≤ d < b) l.

Lemma digits_ok_cons b d l : digits_ok b (d :: l) ↔ 0 ≤ d < b ∧ digits_ok b l.
Proof. unfold digits_ok. by rewrite list.Forall_cons. Qed.

Lemma value_app b l k : value b (l ++ k) = value b l * b ^ Z.of_nat (length k) + value b k.
Proof.
  unfold value. rewrite foldl_app. generalize (foldl (λ v d, v * b + d) 0 l) as v. clear l.
  assert (∀ v, foldl (λ v d, v * b + d) v k = v * b ^ Z.of_nat (length k) + foldl (λ v d, v * b + d) 0 k) as H.
  { induction k as [|d k IH]; intros v; [simpl; lia|]. cbn [foldl length].
    rewrite IH, (IH (0 * b + d)). rewrite Nat2Z.inj_succ, Z.pow_succ_r by lia. ring. }
  intros v. apply H.
Qed.

Lemma value_snoc b l d : value b (l ++ [d]) = value b l * b + d.
Proof. unfold value. by rewrite foldl_app. Qed.

Lemma lvalue_value b l : lvalue b l = value b (reverse l).
Proof.
  induction l as [|d l IH]; [done|]. simpl. rewrite reverse_cons, value_snoc, IH. lia.
Qed.

Lemma value_bound b l : 1 < b → digits_ok b l → 0 ≤ value b l < b ^ Z.of_nat (length l).
Proof.
  intros Hb. induction l as [|d l IH] using rev_ind; intros Hl; [unfold value; simpl; lia|].
  unfold digits_ok in *. rewrite Forall_app, Forall_singleton in Hl. destruct Hl as [Hl Hd].
  specialize (IH Hl). rewrite value_snoc, length_app, Nat2Z.inj_add. simpl (length [d]).
  rewrite Z.pow_add_r by lia. nia.
Qed.

Lemma value_replicate_0 b n l : value b (replicate n 0 ++ l) = value b l.
Proof.
  rewrite value_app. assert (value b (replicate n 0) = 0) as ->; [|lia].
  unfold value. induction n as [|n IH]; [done|]. simpl. exact IH.
Qed.

(** [mul_add] multiplies and adds, up to what does not fit. *)
Lemma mul_add_length b m c l : length (mul_add b m c l) = length l.
Proof. revert c. induction l; simpl; auto. Qed.

Lemma mul_add_ok b m l : ∀ c, 1 < b → digits_ok b (mul_add b m c l).
Proof.
  induction l as [|d l IH]; intros c Hb; constructor; [apply Z.mod_pos_bound; lia|by apply IH].
Qed.

Lemma mul_add_value b m l : ∀ c, 1 < b → 0 ≤ c → 0 ≤ m → digits_ok b l →
  c + m * lvalue b l < b ^ Z.of_nat (length l) → lvalue b (mul_add b m c l) = c + m * lvalue b l.
Proof.
  induction l as [|d l IH]; intros c Hb Hc Hm Hl H; cbn [mul_add lvalue length] in *; [lia|].
  apply digits_ok_cons in Hl as [Hd Hl]. rewrite Nat2Z.inj_succ, Z.pow_succ_r in H by lia.
  pose proof (Z.div_mod (c + m * d) b ltac:(lia)) as E. pose proof (Z.mod_pos_bound (c + m * d) b ltac:(lia)) as Hr.
  rewrite IH; [nia|lia|apply Z.div_pos; nia|done|done|]. nia.
Qed.

(** The outer loop of either direction computes the number that its input denotes. *)
Lemma loop_value b m ds : 1 < b → 1 ≤ m → Forall (λ d, 0 ≤ d) ds → ∀ l, digits_ok b l →
  let f := foldl (λ t d, mul_add b m d t) l ds in
  lvalue b l * m ^ Z.of_nat (length ds) + value m ds < b ^ Z.of_nat (length l) →
  lvalue b f = lvalue b l * m ^ Z.of_nat (length ds) + value m ds ∧ digits_ok b f ∧ length f = length l.
Proof.
  intros Hb Hm Hds. induction ds as [|d ds IH] using rev_ind; intros l Hl f H; subst f.
  { simpl in *. change (value m []) with 0. rewrite Z.add_0_r, Z.mul_1_r. by split_and!. }
  rewrite Forall_app, Forall_singleton in Hds. destruct Hds as [Hds Hd].
  rewrite foldl_app. cbn [foldl]. rewrite value_snoc, length_app, Nat2Z.inj_add in *. simpl (length [d]) in *.
  rewrite Z.pow_add_r, Z.pow_1_r in * by lia.
  assert (0 ≤ lvalue b l) as H0.
  { rewrite lvalue_value. apply value_bound; [done|]. by apply Forall_reverse. }
  assert (0 ≤ value m ds) as H1.
  { clear -Hds Hm. unfold value. assert (∀ v, 0 ≤ v → 0 ≤ foldl (λ v d, v * m + d) v ds) as G; [|by apply G].
    induction Hds; intros v Hv; simpl; [done|]. apply IHHds. nia. }
  assert (0 < m ^ Z.of_nat (length ds)) as H2 by (apply Z.pow_pos_nonneg; lia).
  set (X := lvalue b l * m ^ Z.of_nat (length ds) + value m ds) in *.
  assert (0 ≤ X) as HX by (unfold X; nia).
  replace (lvalue b l * (m ^ Z.of_nat (length ds) * m) + (value m ds * m + d)) with (d + m * X) in * by (unfold X; ring).
  assert (X ≤ m * X) by nia.
  destruct (IH Hds l Hl) as (E & Ho & En); [fold X; lia|]. fold X in E.
  split_and!; [|by apply mul_add_ok|by rewrite mul_add_length].
  rewrite mul_add_value; [by rewrite E|lia|lia|lia|done|]. by rewrite E, En.
Qed.

(** Digits without a leading zero are determined by the number. *)
Lemma value_inj_len b l k : 1 < b → digits_ok b l → digits_ok b k → length l = length k →
  value b l = value b k → l = k.
Proof.
  intros Hb. revert k. induction l as [|d l IH] using rev_ind; intros k Hl Hk Hn E.
  { by destruct k. }
  destruct k as [|e k _] using rev_ind; [rewrite length_app in Hn; simpl in Hn; lia|].
  unfold digits_ok in *. rewrite Forall_app, Forall_singleton in Hl, Hk. destruct Hl as [Hl Hd], Hk as [Hk He].
  rewrite !length_app in Hn. simpl in Hn. rewrite !value_snoc in E.
  assert (value b l = value b k) as E' by nia. assert (d = e) as -> by nia. f_equal. apply IH; auto; lia.
Qed.

Definition no_lead (l : list Z) : Prop := head l ≠ Some 0.

Lemma no_lead_value b l : 1 < b → digits_ok b l → no_lead l → l ≠ [] →
  b ^ (Z.of_nat (length l) - 1) ≤ value b l.
Proof.
  intros Hb Hl Hn Hne. destruct l as [|d l]; [done|]. apply digits_ok_cons in Hl as [Hd Hl].
  assert (d ≠ 0) by (intros ->; by apply Hn). change (d :: l) with ([d] ++ l). rewrite value_app.
  pose proof (value_bound b l Hb Hl). simpl (length _). change (value b [d]) with (0 * b + d).
  replace (Z.of_nat (S (length l)) - 1) with (Z.of_nat (length l)) by lia.
  assert (0 < b ^ Z.of_nat (length l)) by (apply Z.pow_pos_nonneg; lia). nia.
Qed.

Lemma value_inj b l k : 1 < b → digits_ok b l → digits_ok b k → no_lead l → no_lead k →
  value b l = value b k → l = k.
Proof.
  intros Hb Hl Hk Nl Nk E. apply (value_inj_len b); try done.
  assert (∀ l k, digits_ok b l → digits_ok b k → no_lead k → value b l = value b k → (length k ≤ length l)%nat) as H.
  { clear - Hb. intros l k Hl Hk Nk E. destruct (decide (k = [])) as [->|Hne]; [simpl; lia|].
    pose proof (no_lead_value b k Hb Hk Nk Hne). pose proof (value_bound b l Hb Hl) as [_ H2].
    assert (Z.of_nat (length k) - 1 < Z.of_nat (length l)); [|lia].
    apply (Z.pow_lt_mono_r_iff b); lia. }
  pose proof (H l k Hl Hk Nk E). pose proof (H k l Hk Hl Nl ltac:(done)). lia.
Qed.

Lemma leading_split {A} `{EqDecision A} (x : A) l :
  l = replicate (leading x l) x ++ drop (leading x l) l ∧ head (drop (leading x l) l) ≠ Some x.
Proof.
  induction l as [|y l [IH1 IH2]]; [done|]. simpl. case_decide as E; [subst|].
  - simpl. split; [f_equal; exact IH1|exact IH2].
  - simpl. split; [done|]. by intros [= ->].
Qed.

(** Dropping the leading zeros of a vector leaves the digits of its number. *)
Lemma strip_spec b l : digits_ok b l →
  let k := drop (leading 0 l) l in digits_ok b k ∧ no_lead k ∧ value b k = value b l.
Proof.
  intros Hl k. destruct (leading_split 0 l) as [E Hn]. split_and!; [by apply Forall_drop|exact Hn|].
  unfold k. symmetry. rewrite E at 1. apply value_replicate_0.
Qed.

(** ** The vectors are large enough *)

(** Comparing powers through a rational bound [P / Q] on the ratio of the logarithms. *)
Lemma pow_ratio x y P Q n m : 0 < x → 0 < y → 0 < Q → 0 ≤ P → 0 ≤ n → 0 ≤ m →
  x ^ Q ≤ y ^ P → 1 < y → P * n ≤ Q * m → x ^ n ≤ y ^ m.
Proof.
  intros Hx Hy HQ HP Hn Hm H Hy1 Hr. destruct (Z.le_gt_cases (x ^ n) (y ^ m)) as [|Hc]; [done|exfalso].
  assert ((y ^ m) ^ Q < (x ^ n) ^ Q) as Hp.
  { apply Z.pow_lt_mono_l; [done|]. split; [apply Z.pow_nonneg; lia|done]. }
  rewrite <- !Z.pow_mul_r in Hp by lia. assert (x ^ (n * Q) ≤ y ^ (m * Q)); [|lia].
  rewrite (Z.mul_comm n), Z.pow_mul_r by lia.
  transitivity ((y ^ P) ^ n); [apply Z.pow_le_mono_l; split; [apply Z.pow_nonneg; lia|done]|].
  rewrite <- Z.pow_mul_r by lia. apply Z.pow_le_mono_r; lia.
Qed.

(** 138 base-58 digits hold 100 bytes. *)
Lemma encoded_room n : 256 ^ Z.of_nat n ≤ 58 ^ Z.of_nat (n * 138 / 100 + 1).
Proof.
  apply (pow_ratio 256 58 138 100); [lia..|vm_compute; discriminate|lia|].
  pose proof (Nat.div_mod (n * 138) 100). pose proof (Nat.mod_upper_bound (n * 138) 100). lia.
Qed.

(** The bound on the length of a text; it keeps the rounding errors below one byte. *)
Definition text_max : Z := 2 ^ 24.

Lemma decoded_size_bound n : Z.of_nat n ≤ text_max → 4991 * Z.of_nat n ≤ 6816 * Z.of_nat (decoded_size n).
Proof.
  unfold text_max, decoded_size, log2_58. intros Hn. set (z := Z.of_nat n) in *. assert (0 ≤ z) as Hz by lia.
  rewrite double_of_int_small by lia. unfold double_mul. cbn [fst snd].
  set (C := 0x176e9291eaa65b). destruct (rnd53_near (z * C) (0 + -50)) as (k & s & -> & Hs & Hk & H0 & Hr); [lia|].
  assert (s ≤ 24) as Hs'.
  { destruct (Z.eq_dec s 0) as [->|]; [done|]. destruct Hr as [Hr _]; [lia|].
    destruct (Z.le_gt_cases s 24) as [|Hgt]; [done|]. assert (2 ^ 77 ≤ 2 ^ (52 + s)) by (apply Z.pow_le_mono_r; lia).
    unfold C in Hr. lia. }
  unfold double_shift, double_add. cbn [fst snd]. rewrite Z.min_l by lia.
  replace (0 + -50 + s - 3 - (0 + -50 + s - 3)) with 0 by lia. rewrite Z.mul_1_r.
  replace (0 - (0 + -50 + s - 3)) with (53 - s) by lia. set (y := k + 2 * 2 ^ (53 - s)).
  assert (2 ^ (53 - s) * 2 ^ s = 2 ^ 53) as Ep by (rewrite <- Z.pow_add_r by lia; f_equal; lia).
  assert (0 < 2 ^ s ≤ 2 ^ 24) as Hps by (split; [apply Z.pow_pos_nonneg; lia|apply Z.pow_le_mono_r; lia]).
  assert (0 ≤ k) as Hk0.
  { destruct (Z.le_gt_cases 0 k); [done|]. assert (k * 2 ^ s ≤ -1 * 2 ^ s) by (apply Z.mul_le_mono_nonneg_r; lia). unfold C in *. lia. }
  destruct (rnd53_near y (0 + -50 + s - 3)) as (k2 & s2 & -> & Hs2 & Hk2 & H2 & Hr2); [unfold y; lia|].
  assert (z * C + 2 ^ 54 - 2 ^ 24 ≤ y * 2 ^ s ≤ z * C + 2 ^ 54 + 2 ^ 24) as Hy.
  { unfold y. rewrite Z.mul_add_distr_r, <- Z.mul_assoc, Ep. lia. }
  assert (s + s2 ≤ 25) as Ht.
  { destruct (Z.eq_dec s2 0) as [->|]; [lia|]. destruct Hr2 as [Hr2 _]; [lia|].
    destruct (Z.le_gt_cases (s + s2) 25) as [|Hgt]; [done|exfalso].
    assert (2 ^ 78 ≤ 2 ^ (52 + s2) * 2 ^ s) by (rewrite <- Z.pow_add_r by lia; apply Z.pow_le_mono_r; lia).
    assert (2 ^ (52 + s2) * 2 ^ s ≤ y * 2 ^ s) by (apply Z.mul_le_mono_nonneg_r; lia). unfold C in *. lia. }
  set (t := s + s2) in *. unfold double_to_int. cbn [fst snd].
  replace (0 + -50 + s - 3 + s2) with (- (53 - t)) by (unfold t; lia).
  destruct (Z.ltb_spec (- (53 - t)) 0) as [_|]; [|lia]. rewrite Z.opp_involutive.
  assert (2 ^ (53 - t) * 2 ^ t = 2 ^ 53) as Et by (rewrite <- Z.pow_add_r by lia; f_equal; lia).
  assert (0 < 2 ^ t ≤ 2 ^ 25) as Hpt by (split; [apply Z.pow_pos_nonneg; lia|apply Z.pow_le_mono_r; lia]).
  assert (2 ^ s2 * 2 ^ s = 2 ^ t) as Est by (rewrite <- Z.pow_add_r by lia; f_equal; lia).
  assert (y * 2 ^ s - 2 ^ 24 ≤ k2 * 2 ^ t) as Hw.
  { assert (2 * (y - k2 * 2 ^ s2) * 2 ^ s ≤ 2 ^ s2 * 2 ^ s) by (apply Z.mul_le_mono_nonneg_r; lia).
    rewrite Est in *. replace (2 * (y - k2 * 2 ^ s2) * 2 ^ s) with (2 * (y * 2 ^ s - k2 * 2 ^ t)) in * by (rewrite <- Est; ring). lia. }
  assert (0 ≤ k2) as Hk2'.
  { destruct (Z.le_gt_cases 0 k2); [done|]. assert (k2 * 2 ^ t < 0) by (apply Z.mul_neg_pos; lia). unfold C in *. lia. }
  rewrite Z.quot_div_nonneg by lia.
  set (q := k2 / 2 ^ (53 - t)).
  assert (k2 < (q + 1) * 2 ^ (53 - t)) as Hq.
  { pose proof (Z.mul_succ_div_gt k2 (2 ^ (53 - t)) ltac:(lia)). unfold q. lia. }
  assert (k2 * 2 ^ t < (q + 1) * 2 ^ 53) as Hq'.
  { rewrite <- Et, Z.mul_assoc. apply Z.mul_lt_mono_pos_r; lia. }
  rewrite Z2Nat.id by (apply Z.div_pos; lia). unfold C in *. lia.
Qed.

Lemma decoded_room n : Z.of_nat n ≤ text_max → 58 ^ Z.of_nat n ≤ 256 ^ Z.of_nat (decoded_size n).
Proof.
  intros Hn%decoded_size_bound. change 256 with (2 ^ 8). rewrite <- Z.pow_mul_r by lia.
  apply (pow_ratio 58 2 4991 852); [lia..|vm_compute; discriminate|lia|lia].
Qed.

(** ** Characters *)

Lemma digits_58 d : 0 ≤ d < 58 → char_digit (digit_char d) = Ok d ∧ (digit_char d = digit_char 0 → d = 0).
Proof.
  assert (∀ d, 0 ≤ d < 58 → char_digit (digit_char d) = Ok d) as H.
  { clear. intros d Hd.
    assert (forallb (λ n, if char_digit (digit_char (Z.of_nat n)) is Ok e then e =? Z.of_nat n else false) (seq 0 58) = true)
      as H by (vm_compute; reflexivity).
    rewrite forallb_forall in H. specialize (H (Z.to_nat d)). rewrite Z2Nat.id in H by lia.
    destruct (char_digit (digit_char d)) as [e|]; [|by discriminate H; apply in_seq; lia].
    f_equal. apply Z.eqb_eq, H, in_seq. lia. }
  intros Hd. split; [by apply H|]. intros E. pose proof (H d Hd) as H1. rewrite E, H in H1 by lia. by injection H1.
Qed.

Lemma dictionary_digit c : c ∈ kBase58Dictionary → ∃ d, 0 ≤ d < 58 ∧ c = digit_char d.
Proof.
  intros (i & Hi)%list_elem_of_lookup. exists (Z.of_nat i). pose proof (lookup_lt_Some _ _ _ Hi) as Hl.
  split; [change (length kBase58Dictionary) with 58%nat in Hl; lia|].
  unfold digit_char. rewrite Nat2Z.id. symmetry. by apply list_lookup_total_correct.
Qed.

Lemma char_digit_range c d : char_digit c = Ok d → 0 ≤ d < 256.
Proof.
  unfold char_digit. destruct (_ <? 0); [done|]. intros H. invert_ok. apply Z.mod_pos_bound. lia.
Qed.

Lemma uchar_bound b : 0 ≤ uchar b < 256.
Proof. unfold uchar. pose proof (Strings.Byte.to_N_bounded b). lia. Qed.

Lemma to_char_uchar_id b : to_char (uchar b) = b.
Proof.
  unfold to_char, uchar. pose proof (Strings.Byte.to_N_bounded b).
  rewrite Z.mod_small by lia. rewrite N2Z.id, Strings.Byte.of_to_N. done.
Qed.

Lemma uchar_to_char_id d : 0 ≤ d < 256 → uchar (to_char d) = d.
Proof.
  intros Hd. unfold to_char, uchar. rewrite Z.mod_small by lia.
  destruct (Strings.Byte.of_N (Z.to_N d)) as [b|] eqn:E; simpl.
  - apply Strings.Byte.to_of_N in E. rewrite E. lia.
  - apply Strings.Byte.of_N_None_iff in E. lia.
Qed.

Lemma uchar_digits s : digits_ok 256 (uchar <$> s).
Proof. apply Forall_fmap, Forall_true. intros b. apply uchar_bound. Qed.

Lemma bytes_of_digits l : digits_ok 256 l → uchar <$> (to_char <$> l) = l.
Proof.
  intros Hl. rewrite <- list_fmap_compose. rewrite <- (list_fmap_id l) at 2.
  apply list_fmap_ext. intros i x Hx. apply uchar_to_char_id. by eapply Forall_lookup_1 in Hl.
Qed.

Lemma head_uchar s : head s ≠ Some (to_char 0) → no_lead (uchar <$> s).
Proof.
  destruct s as [|b s]; [done|]. intros Hn [= E]. apply Hn. simpl. by rewrite <- E, to_char_uchar_id.
Qed.

(** ** What the two directions compute *)

Lemma foldl_fmap {A B C} (f : A → B → A) (g : C → B) l a : foldl f a (g <$> l) = foldl (λ a c, f a (g c)) a l.
Proof. revert a. induction l as [|x l IH]; intros a; simpl; auto. Qed.

(** The digits of [str_in] after its zero bytes, in base 58. *)
Lemma Encode_digits s : let z := leading (to_char 0) s in ∃ ds,
  Encode s = replicate z (digit_char 0) ++ (digit_char <$> ds) ∧
  digits_ok 58 ds ∧ no_lead ds ∧ value 58 ds = value 256 (uchar <$> drop z s).
Proof.
  intros z. destruct (leading_split (to_char 0) s) as [E _]. fold z in E.
  set (rest := drop (z - 1) s). set (l0 := replicate (length s * 138 / 100 + 1)%nat 0).
  assert (value 256 (uchar <$> rest) = value 256 (uchar <$> drop z s)) as Ev.
  { unfold rest. destruct z as [|z'] eqn:Ez; [done|]. replace (S z' - 1)%nat with z' by lia.
    rewrite E at 1. rewrite drop_app_le by (rewrite length_replicate; lia).
    rewrite drop_replicate. replace (S z' - z')%nat with 1%nat by lia.
    rewrite fmap_app. change (uchar <$> replicate 1 (to_char 0)) with (replicate 1 0). apply value_replicate_0. }
  assert (lvalue 58 l0 = 0) as E0.
  { rewrite lvalue_value. unfold l0. rewrite reverse_replicate, <- (app_nil_r (replicate _ 0)). apply value_replicate_0. }
  destruct (loop_value 58 256 (uchar <$> rest) ltac:(lia) ltac:(lia)) with (l := l0) as (Hv & Ho & Hn).
  { eapply list.Forall_impl; [apply uchar_digits|]. simpl. lia. }
  { apply Forall_replicate. lia. }
  { rewrite E0. pose proof (value_bound 256 (uchar <$> rest) ltac:(lia) (uchar_digits rest)) as [_ Hb].
    unfold l0. rewrite length_replicate. pose proof (encoded_room (length s)). rewrite length_fmap in Hb.
    assert (256 ^ Z.of_nat (length rest) ≤ 256 ^ Z.of_nat (length s)); [|lia].
    apply Z.pow_le_mono_r; [lia|]. unfold rest. rewrite length_drop. lia. }
  rewrite E0, Z.mul_0_l, Z.add_0_l in Hv. rewrite foldl_fmap in Hv, Ho.
  set (b58 := reverse (foldl (λ b c, mul_add 58 256 (uchar c) b) l0 rest)).
  assert (digits_ok 58 b58) as Ho' by (by apply Forall_reverse).
  destruct (strip_spec 58 b58 Ho') as (S1 & S2 & S3).
  exists (drop (leading 0 b58) b58). split_and!; [done|done|done|].
  rewrite S3, <- Ev, <- Hv, lvalue_value. done.
Qed.

(** What [Decode] does on texts whose number fits: the digits may be larger than 57. *)
Lemma Decode_digits t ds : let k := leading (digit_char 0) t in
  mapM char_digit (drop k t) = Ok ds →
  value 58 ds < 256 ^ Z.of_nat (decoded_size (length ds)) → ∃ bs,
  Decode t = Ok (replicate k (to_char 0) ++ (to_char <$> bs)) ∧
  digits_ok 256 bs ∧ no_lead bs ∧ value 256 bs = value 58 ds.
Proof.
  intros k Hds Hb.
  assert (length ds = (length t - k)%nat) as Hl.
  { rewrite <- length_drop. clear -Hds. revert ds Hds. induction (drop k t) as [|c l IH]; intros ds H; simpl in *;
      invert_ok; simpl; [done|]. f_equal. by apply IH. }
  assert (Forall (λ d, 0 ≤ d) ds) as H0.
  { clear -Hds. revert ds Hds. induction (drop k t) as [|c l IH]; intros ds H; simpl in *; invert_ok; constructor.
    - apply char_digit_range in E. lia.
    - by apply IH. }
  set (l0 := replicate (decoded_size (length ds)) 0).
  assert (lvalue 256 l0 = 0) as E0.
  { rewrite lvalue_value. unfold l0. rewrite reverse_replicate, <- (app_nil_r (replicate _ 0)). apply value_replicate_0. }
  destruct (loop_value 256 58 ds ltac:(lia) ltac:(lia) H0 l0) as (Hv & Ho & _).
  { apply Forall_replicate. lia. }
  { rewrite E0. unfold l0. by rewrite length_replicate. }
  rewrite E0, Z.mul_0_l, Z.add_0_l in Hv.
  set (tmp := reverse (foldl (λ t d, mul_add 256 58 d t) l0 ds)).
  assert (digits_ok 256 tmp) as Ho' by (by apply Forall_reverse).
  destruct (strip_spec 256 tmp Ho') as (S1 & S2 & S3).
  exists (drop (leading 0 tmp) tmp). split_and!; [|done|done|by rewrite S3, <- Hv, lvalue_value].
  unfold Decode. fold k. rewrite Hds. cbn. rewrite <- Hl. done.
Qed.

Lemma mapM_digit_char ds : digits_ok 58 ds → mapM char_digit (digit_char <$> ds) = Ok ds.
Proof.
  induction 1 as [|d ds Hd Hds IH]; [done|]. simpl. rewrite (proj1 (digits_58 d Hd)). cbn [mbind res_bind].
  change (list_fmap Z byte digit_char ds) with (digit_char <$> ds). by rewrite IH.
Qed.

Lemma leading_replicate {A} `{EqDecision A} (x : A) n l : head l ≠ Some x → leading x (replicate n x ++ l) = n.
Proof.
  intros Hl. induction n as [|n IH]; simpl.
  - destruct l as [|y l]; [done|]. simpl. case_decide; [subst; by destruct Hl|done].
  - rewrite decide_True by done. by rewrite IH.
Qed.

Lemma drop_replicate_app {A} (x : A) n l : drop n (replicate n x ++ l) = l.
Proof. apply drop_app_length'. by rewrite length_replicate. Qed.

Lemma head_digit_char ds : digits_ok 58 ds → no_lead ds → head (digit_char <$> ds) ≠ Some (digit_char 0).
Proof.
  intros Hd Hn. destruct ds as [|d ds]; [done|]. apply digits_ok_cons in Hd as [Hd _].
  intros [= E]. apply Hn. simpl. f_equal. by apply digits_58.
Qed.

Lemma head_to_char bs : digits_ok 256 bs → no_lead bs → head (to_char <$> bs) ≠ Some (to_char 0).
Proof.
  intros Hd Hn. destruct bs as [|d bs]; [done|]. apply digits_ok_cons in Hd as [Hd _].
  intros [= E]. apply Hn. simpl. f_equal.
  rewrite <- (uchar_to_char_id d) by done. rewrite E. done.
Qed.

(** A text over the dictionary fits its vector. *)
Lemma digits_fit ds : digits_ok 58 ds → Z.of_nat (length ds) ≤ text_max →
  value 58 ds < 256 ^ Z.of_nat (decoded_size (length ds)).
Proof.
  intros Hd Hl. pose proof (value_bound 58 ds ltac:(lia) Hd). pose proof (decoded_room _ Hl). lia.
Qed.

(** [Decode] on a text over the dictionary, split at its leading ones. *)
Lemma Decode_text k ds : digits_ok 58 ds → no_lead ds → Z.of_nat (length ds) ≤ text_max → ∃ bs,
  Decode (replicate k (digit_char 0) ++ (digit_char <$> ds)) = Ok (replicate k (to_char 0) ++ (to_char <$> bs)) ∧
  digits_ok 256 bs ∧ no_lead bs ∧ value 256 bs = value 58 ds.
Proof.
  intros Hd Hn Hl. set (t := replicate k _ ++ _).
  assert (leading (digit_char 0) t = k) as Ek by (by apply leading_replicate, head_digit_char).
  destruct (Decode_digits t ds) as (bs & H); [|by apply digits_fit|by exists bs; rewrite Ek in H].
  rewrite Ek. unfold t. rewrite drop_replicate_app. by apply mapM_digit_char.
Qed.

(** The digits of the text of [s] are at most [text_max] if [s] is not too long. *)
Lemma encoded_length s ds z : digits_ok 58 ds → no_lead ds → value 58 ds = value 256 (uchar <$> drop z s) →
  (length ds ≤ length s * 138 / 100 + 1)%nat.
Proof.
  intros Hd Hn Hv. destruct (decide (ds = [])) as [->|Hne]; [simpl; lia|].
  pose proof (no_lead_value 58 ds ltac:(lia) Hd Hn Hne) as H1.
  pose proof (value_bound 256 (uchar <$> drop z s) ltac:(lia) (uchar_digits _)) as [_ H2].
  rewrite length_fmap, length_drop in H2. pose proof (encoded_room (length s)) as H3.
  assert (256 ^ Z.of_nat (length s - z) ≤ 256 ^ Z.of_nat (length s)) by (apply Z.pow_le_mono_r; lia).
  assert (Z.of_nat (length ds) - 1 < Z.of_nat (length s * 138 / 100 + 1)) as H4; [|lia].
  apply (Z.pow_lt_mono_r_iff 58); lia.
Qed.

(** A text over the dictionary has the digits of its characters. *)
Lemma dictionary_digits l : Forall (.∈ kBase58Dictionary) l →
  ∃ ds, l = digit_char <$> ds ∧ digits_ok 58 ds.
Proof.
  induction 1 as [|c l Hc _ (ds & -> & Hd)]; [exists []; split; [done|constructor]|].
  destruct (dictionary_digit c Hc) as (d & Hr & ->). exists (d :: ds). split; [done|]. by constructor.
Qed.

(** ** Round trips *)

(** Decoding gives back every string of bytes. *)
Lemma Decode_Encode s : Z.of_nat (length s) ≤ 2 ^ 23 → Decode (Encode s) = Ok s.
Proof.
  intros Hs. destruct (Encode_digits s) as (ds & -> & Hd & Hn & Hv). set (z := leading (to_char 0) s) in *.
  assert (Z.of_nat (length ds) ≤ text_max) as Hl.
  { pose proof (encoded_length s ds z Hd Hn Hv) as H. unfold text_max.
    pose proof (Nat.div_mod (length s * 138) 100). lia. }
  destruct (Decode_text z ds Hd Hn Hl) as (bs & -> & Hb & Hbn & Hbv). f_equal.
  destruct (leading_split (to_char 0) s) as [E Hh]. fold z in E, Hh. transitivity (replicate z (to_char 0) ++ drop z s); [|done]. f_equal.
  assert (bs = uchar <$> drop z s) as ->.
  { apply (value_inj 256); [lia|done|apply uchar_digits|done|by apply head_uchar|congruence]. }
  rewrite <- list_fmap_compose. rewrite <- (list_fmap_id (drop z s)) at 2.
  apply list_fmap_ext. intros i x _. apply to_char_uchar_id.
Qed.

(** Encoding gives back every text over the dictionary. *)
Lemma Encode_Decode t : Forall (.∈ kBase58Dictionary) t → Z.of_nat (length t) ≤ text_max →
  ∃ s, Decode t = Ok s ∧ Encode s = t.
Proof.
  intros Ht Hl. destruct (leading_split (digit_char 0) t) as [E Hh]. set (k := leading _ t) in *.
  destruct (dictionary_digits (drop k t)) as (ds & Ed & Hd); [by apply Forall_drop|].
  rewrite Ed in E, Hh.
  assert (no_lead ds) as Hn by (destruct ds as [|d ds]; [done|]; intros [= ->]; by apply Hh).
  assert (Z.of_nat (length ds) ≤ text_max) as Hld.
  { apply (f_equal length) in Ed. rewrite length_fmap, length_drop in Ed. lia. }
  destruct (Decode_text k ds Hd Hn Hld) as (bs & Hdec & Hb & Hbn & Hbv). rewrite <- E in Hdec.
  exists (replicate k (to_char 0) ++ (to_char <$> bs)). split; [done|].
  assert (leading (to_char 0) (replicate k (to_char 0) ++ (to_char <$> bs)) = k) as Ek.
  { by apply leading_replicate, head_to_char. }
  destruct (Encode_digits (replicate k (to_char 0) ++ (to_char <$> bs))) as (ds' & -> & Hd' & Hn' & Hv').
  rewrite Ek in *. rewrite drop_replicate_app, bytes_of_digits in Hv' by done.
  rewrite E. f_equal. f_equal. apply (value_inj 58); [lia|done|done|done|done|congruence].
Qed.

(** ** Two spellings of one string *)

Lemma mapM_app_Ok {A B} (f : A → res B) l k l' k' :
  mapM f l = Ok l' → mapM f k = Ok k' → mapM f (l ++ k) = Ok (l' ++ k').
Proof.
  intros Hl Hk. revert l' Hl. induction l as [|x l IH]; intros l' Hl; simpl in *; invert_ok; [done|].
  rewrite E. cbn [mbind res_bind]. rewrite (IH _ E0). done.
Qed.

Lemma leading_app {A} `{EqDecision A} (x : A) l k :
  leading x (l ++ k) = if decide (leading x l = length l) then (length l + leading x k)%nat else leading x l.
Proof.
  induction l as [|y l IH]; [done|]. simpl. destruct (decide (y = x)); [|by rewrite decide_False by lia]. rewrite IH.
  destruct (decide (leading x l = length l)) as [E'|E']; [rewrite decide_True by lia|rewrite decide_False by lia]; done.
Qed.

(** Texts with the same digits up to one number and the same leading ones decode alike. *)
Lemma Decode_same t t' ds ds' : let k := leading (digit_char 0) t in
  leading (digit_char 0) t' = k →
  mapM char_digit (drop k t) = Ok ds → mapM char_digit (drop k t') = Ok ds' →
  length ds = length ds' → value 58 ds = value 58 ds' →
  value 58 ds < 256 ^ Z.of_nat (decoded_size (length ds)) → Decode t = Decode t'.
Proof.
  intros k Ek Hd Hd' Hl Hv Hb. destruct (Decode_digits t ds Hd Hb) as (bs & -> & B1 & B2 & B3).
  destruct (Decode_digits t' ds') as (bs' & -> & B1' & B2' & B3'); [by rewrite Ek|by rewrite <- Hv, <- Hl|].
  rewrite Ek. do 3 f_equal. apply (value_inj 256); [lia|done..|congruence].
Qed.

(** A character outside the dictionary counts as the digit 255 = 4 * 58 + 23. *)
Lemma Decode_alias p q d x : 4 ≤ d < 58 → char_digit x = Ok 255 →
  d ≠ 4 ∨ leading (digit_char 0) p ≠ length p →
  Forall (.∈ kBase58Dictionary) p → Forall (.∈ kBase58Dictionary) q → Z.of_nat (length p + 2 + length q) ≤ text_max →
  Decode (p ++ digit_char d :: digit_char 23 :: q) = Decode (p ++ digit_char (d - 4) :: x :: q).
Proof.
  intros Hd Hx Hone Hp Hq Hlen.
  set (a := digit_char d :: digit_char 23 :: q). set (b := digit_char (d - 4) :: x :: q).
  set (k := leading (digit_char 0) p).
  assert (leading (digit_char 0) a = 0%nat) as Ha.
  { unfold a. cbn [leading]. rewrite decide_False; [done|]. intros E. apply digits_58 in E; lia. }
  assert (k = length p → leading (digit_char 0) b = 0%nat) as Hb.
  { intros Ek. unfold b. cbn [leading]. rewrite decide_False; [done|]. intros E. apply digits_58 in E; lia. }
  assert (leading (digit_char 0) (p ++ a) = k ∧ leading (digit_char 0) (p ++ b) = k) as [Ka Kb].
  { rewrite !leading_app. fold k. rewrite Ha. case_decide as Ek; [|done]. rewrite (Hb Ek). lia. }
  assert (k ≤ length p)%nat as Hk.
  { unfold k. clear. induction p as [|c p IH]; simpl; [done|]. case_decide; lia. }
  destruct (dictionary_digits (drop k p)) as (dp & Ep & Hdp); [by apply Forall_drop|].
  destruct (dictionary_digits q Hq) as (dq & Eq & Hdq).
  assert (mapM char_digit (drop k p) = Ok dp) as Mp by (rewrite Ep; by apply mapM_digit_char).
  assert (mapM char_digit q = Ok dq) as Mq by (rewrite Eq; by apply mapM_digit_char).
  apply (Decode_same _ _ (dp ++ d :: 23 :: dq) (dp ++ d - 4 :: 255 :: dq)); rewrite ?Ka; [done| | | | |].
  - rewrite drop_app_le by done. apply mapM_app_Ok; [done|]. unfold a. cbn [mapM].
    rewrite !(λ e H, proj1 (digits_58 e H)) by lia. cbn. by rewrite Mq.
  - rewrite drop_app_le by done. apply mapM_app_Ok; [done|]. unfold b. cbn [mapM].
    rewrite (λ e H, proj1 (digits_58 e H)) by lia. rewrite Hx. cbn. by rewrite Mq.
  - by rewrite !length_app.
  - rewrite !value_app. change (d :: 23 :: dq) with ([d; 23] ++ dq).
    change (d - 4 :: 255 :: dq) with ([d - 4; 255] ++ dq). rewrite !length_app, !value_app.
    assert (value 58 [d; 23] = value 58 [d - 4; 255]) as -> by (unfold value; cbn [foldl]; ring). done.
  - apply digits_fit.
    + apply Forall_app. split; [done|]. constructor; [lia|]. constructor; [lia|done].
    + apply (f_equal length) in Ep, Eq. rewrite length_fmap in Ep, Eq. rewrite length_drop in Ep.
      rewrite length_app. cbn [length]. lia.
Qed.

(** The text of a string determines it, whatever its length. *)
#[global] Instance Encode_inj : Inj (=) (=) Encode.
Proof.
  intros s s' E. destruct (Encode_digits s) as (ds & Es & Hd & Hn & Hv), (Encode_digits s') as (ds' & Es' & Hd' & Hn' & Hv').
  set (z := leading (to_char 0) s) in *. set (z' := leading (to_char 0) s') in *.
  rewrite Es, Es' in E.
  assert (z = z') as Ez.
  { rewrite <- (leading_replicate (digit_char 0) z (digit_char <$> ds)), E by by apply head_digit_char.
    by apply leading_replicate, head_digit_char. }
  rewrite Ez in E. apply app_inv_head in E.
  assert (ds = ds') as ->.
  { apply (f_equal (mapM char_digit)) in E. rewrite !mapM_digit_char in E by done. by injection E. }
  assert (drop z s = drop z' s') as Ed.
  { assert (∀ l l' : bytes, uchar <$> l = uchar <$> l' → l = l') as Hu.
    { intros l l' Hl. apply (f_equal (fmap to_char)) in Hl. rewrite <- !list_fmap_compose in Hl.
      rewrite <- (list_fmap_id l), <- (list_fmap_id l').
      rewrite <- !(list_fmap_ext (to_char ∘ uchar) id) by (intros; apply to_char_uchar_id). done. }
    apply Hu, (value_inj 256); [lia|apply uchar_digits|apply uchar_digits|apply head_uchar, leading_split..|congruence]. }
  transitivity (replicate z (to_char 0) ++ drop z s); [apply leading_split|].
  rewrite Ed, Ez. symmetry. apply leading_split.
Qed.

(** ** Addresses (src/src/common/private_key.cpp) *)

Definition EncodeAddress (address : bytes) : bytes := Encode address.

(** Where [Decode] reads beyond its table, which is undefined, the result is empty here. *)
Definition DecodeAddress (address : bytes) : bytes :=
  match Decode address with Ok s => s | Err _ => [] end.

(** An address in the spelling that [EncodeAddress] produces. *)
Definition spelled (k : bytes) : Prop := EncodeAddress (DecodeAddress k) = k.

#[global] Instance spelled_dec k : Decision (spelled k).
Proof. unfold spelled. apply _. Defined.
