(* ===== verification/AtomMap.v ===== *)
(** * The transactional map (src/src/utils/atom_map.h)

    [AtomMap] keeps changes in [buff_] until [Commit] moves them to [*data_]; the values are
    shared pointers.  The [heap] below makes the pointers explicit, and [layers] is the
    stack of maps: [buff_], the map [data_] points to, and, when the object is a stack frame
    whose [data_] is the change buffer of another one, the maps of the enclosing objects.

    [atom_run_refines]: as long as pointers are used before the next [Commit], the map
    behaves as a stack of plain maps of values ([layer]). *)
From stdpp Require Import base gmap list fin_maps.
From Stdlib Require Import Lia.
From S2P Require Import Prelude.

Inductive actType := ADD | MOD | DEL | REV | MAX.

#[global] Instance actType_eq_dec : EqDecision actType.
Proof. solve_decision. Defined.

(** [AtomMap::Record]; [Record(DEL)] has a null pointer. *)
Record Rec := mkRec { type_ : actType; ptr_ : option nat }.

Abbreviation Map := (gmap bytes Rec).

(** The specification: a layer maps a key to its value, or to [None] when it is deleted. *)
Abbreviation layer V := (gmap bytes (option V)).

Section atoms.
Context {V : Type}.
(** The virtual member [GetFromDB]. *)
Context (GetFromDB : bytes → option V).

Record atoms := mkAtoms { heap : gmap nat V; layers : list Map }.

(** [std::make_shared]. *)
Definition make_shared (s : atoms) (v : V) : atoms * nat :=
  let p := fresh (dom (heap s)) in (mkAtoms (<[p := v]> (heap s)) (layers s), p).

Definition deref (s : atoms) (p : option nat) : res V :=
  match p with
  | Some p => match heap s !! p with Some v => Ok v | None => Err NullDeref end
  | None => Err NullDeref
  end.

(** [buff_[key] = r]. *)
Definition put (s : atoms) (key : bytes) (r : Rec) : atoms :=
  match layers s with
  | buff :: outer => mkAtoms (heap s) (<[key := r]> buff :: outer)
  | [] => s
  end.

Definition SetValue (s : atoms) (key : bytes) (ptr : nat) : atoms := put s key (mkRec MOD (Some ptr)).

(** The pointer, or [None] when the function returns [false]. *)
Definition GetValue (s : atoms) (key : bytes) : res (atoms * option nat) :=
  match layers s with
  | buff :: data :: _ =>
      match buff !! key with
      | Some r =>
          if decide (type_ r = DEL) then mret (s, None)
          else match ptr_ r with Some p => mret (s, Some p) | None => Err NullDeref end
      | None =>
          match data !! key with
          | Some r =>
              if decide (type_ r = DEL) then mret (s, None)
              else
                v ← deref s (ptr_ r);
                let '(s, pv) := make_shared s v in
                mret (put s key (mkRec MOD (Some pv)), Some pv)
          | None =>
              match GetFromDB key with
              | None => mret (s, None)
              | Some v =>
                  let '(s, ptr) := make_shared s v in
                  mret (put s key (mkRec ADD (Some ptr)), Some ptr)
              end
          end
      end
  | _ => Err NullDeref
  end.

Definition Del (s : atoms) (key : bytes) : atoms := put s key (mkRec DEL None).

(** The loop of [DirectCommit] and [CopyCommit]: [m[act.first] = act.second]. *)
Definition assign_all (m buff : Map) : Map := map_fold (λ k r m, <[k := r]> m) m buff.

Definition DirectCommit (s : atoms) : atoms :=
  match layers s with
  | buff :: data :: outer => mkAtoms (heap s) (∅ :: assign_all data buff :: outer)
  | _ => s
  end.

Definition CopyCommit (s : atoms) : atoms :=
  match layers s with
  | buff :: data :: outer =>
      let copyBuf := assign_all data buff in
      let '(data, copyBuf) := (copyBuf, data) in
      mkAtoms (heap s) (∅ :: data :: outer)
  | _ => s
  end.

Definition Commit (s : atoms) (bakMode : bool) : atoms :=
  if bakMode then CopyCommit s else DirectCommit s.

Definition ClearChangeBuf (s : atoms) : atoms :=
  match layers s with buff :: outer => mkAtoms (heap s) (∅ :: outer) | [] => s end.

(** A new object over the change buffer of this one, and its end of life. *)
Definition push_frame (s : atoms) : atoms := mkAtoms (heap s) (∅ :: layers s).
Definition pop_frame (s : atoms) : atoms :=
  match layers s with _ :: (_ :: _ :: _) as outer => mkAtoms (heap s) outer | _ => s end.

(** Assignment through a pointer. *)
Definition write (s : atoms) (p : nat) (v : V) : atoms := mkAtoms (<[p := v]> (heap s)) (layers s).

(** ** The specification *)

Definition spec_get (L : list (layer V)) (key : bytes) : list (layer V) * option V :=
  match L with
  | b :: d :: outer =>
      match b !! key with
      | Some o => (L, o)
      | None =>
          match (match d !! key with Some o => o | None => GetFromDB key end) with
          | Some v => (<[key := Some v]> b :: d :: outer, Some v)
          | None => (L, None)
          end
      end
  | _ => (L, None)
  end.

Definition spec_put (L : list (layer V)) (key : bytes) (o : option V) : list (layer V) :=
  match L with b :: outer => <[key := o]> b :: outer | [] => L end.

Definition spec_commit (L : list (layer V)) : list (layer V) :=
  match L with b :: d :: outer => ∅ :: (b ∪ d) :: outer | _ => L end.

Definition spec_clear (L : list (layer V)) : list (layer V) :=
  match L with _ :: outer => ∅ :: outer | [] => L end.

Definition spec_pop (L : list (layer V)) : list (layer V) :=
  match L with _ :: (_ :: _ :: _) as outer => outer | _ => L end.

(** ** Programs *)

Inductive atom_op :=
  | AGet (key : bytes)                 (* read the value behind the pointer *)
  | AWrite (key : bytes) (v : V)       (* [Get], then assign through the pointer *)
  | ASet (key : bytes) (v : V) | ADel (key : bytes)
  | ACommit (bakMode : bool) | AClear | APush | APop.

Definition atom_step (s : atoms) (o : atom_op) : res (atoms * option (option V)) :=
  match o with
  | AGet key =>
      '(s, p) ← GetValue s key;
      match p with
      | None => mret (s, Some None)
      | Some p => v ← deref s (Some p); mret (s, Some (Some v))
      end
  | AWrite key v =>
      '(s, p) ← GetValue s key;
      match p with
      | None => mret (s, None)
      | Some p => mret (write s p v, None)
      end
  | ASet key v => let '(s, p) := make_shared s v in mret (SetValue s key p, None)
  | ADel key => mret (Del s key, None)
  | ACommit bak => mret (Commit s bak, None)
  | AClear => mret (ClearChangeBuf s, None)
  | APush => mret (push_frame s, None)
  | APop => mret (pop_frame s, None)
  end.

Definition spec_step (L : list (layer V)) (o : atom_op) : list (layer V) * option (option V) :=
  match o with
  | AGet key => let '(L, v) := spec_get L key in (L, Some v)
  | AWrite key v =>
      let '(L, old) := spec_get L key in
      (match old with Some _ => spec_put L key (Some v) | None => L end, None)
  | ASet key v => (spec_put L key (Some v), None)
  | ADel key => (spec_put L key None, None)
  | ACommit _ => (spec_commit L, None)
  | AClear => (spec_clear L, None)
  | APush => (∅ :: L, None)
  | APop => (spec_pop L, None)
  end.

Fixpoint atom_run (s : atoms) (ops : list atom_op) : res (atoms * list (option (option V))) :=
  match ops with
  | [] => mret (s, [])
  | o :: ops => '(s, out) ← atom_step s o; '(s, outs) ← atom_run s ops; mret (s, out :: outs)
  end.

Fixpoint spec_run (L : list (layer V)) (ops : list atom_op) : list (layer V) * list (option (option V)) :=
  match ops with
  | [] => (L, [])
  | o :: ops =>
      let '(L, out) := spec_step L o in let '(L, outs) := spec_run L ops in (L, out :: outs)
  end.

(** ** The simulation *)

(** A record stands for a value, or for a deletion. *)
Definition rec_rel (h : gmap nat V) (r : Rec) (o : option V) : Prop :=
  match o with
  | None => type_ r = DEL
  | Some v => type_ r ≠ DEL ∧ ∃ p, ptr_ r = Some p ∧ h !! p = Some v
  end.

Definition map_rel (h : gmap nat V) (m : Map) (vm : layer V) : Prop :=
  ∀ k, option_Forall2 (rec_rel h) (m !! k) (vm !! k).

(** The pointer of a live record. *)
Definition points (s : atoms) (i : nat) (k : bytes) (p : nat) : Prop :=
  ∃ m r, layers s !! i = Some m ∧ m !! k = Some r ∧ type_ r ≠ DEL ∧ ptr_ r = Some p.

Record sim (s : atoms) (L : list (layer V)) : Prop := {
  sim_layers : Forall2 (map_rel (heap s)) (layers s) L;
  sim_two : 2 ≤ length L;
  sim_alias i j k k' p : points s i k p → points s j k' p → i = j ∧ k = k' }.

Lemma map_rel_insert h m vm key r o :
  map_rel h m vm → rec_rel h r o → map_rel h (<[key := r]> m) (<[key := o]> vm).
Proof.
  intros Hm Hr k. rewrite !lookup_insert. case_decide; [by constructor|apply Hm].
Qed.

Lemma map_rel_heap h h' m vm :
  map_rel h m vm →
  (∀ k r p, m !! k = Some r → type_ r ≠ DEL → ptr_ r = Some p → h' !! p = h !! p) →
  map_rel h' m vm.
Proof.
  intros Hm Hh k. specialize (Hm k). inversion Hm as [r o Hr E1 E2|E1 E2]; constructor.
  destruct o as [v|]; [|done]. destruct Hr as (Ht & p & Hp & Hv). split; [done|]. exists p.
  split; [done|]. by rewrite (Hh k r p).
Qed.

Lemma map_rel_empty h : map_rel h ∅ ∅.
Proof. intros k. rewrite !lookup_empty. constructor. Qed.

(** The loop of a commit is a union that prefers the changes. *)
Lemma assign_all_union m buff : assign_all m buff = buff ∪ m.
Proof.
  unfold assign_all. apply (map_fold_weak_ind (λ acc b, acc = b ∪ m)); [by rewrite (left_id_L ∅ (∪))|].
  intros k r b acc Hk ->. by rewrite insert_union_l.
Qed.

Lemma map_rel_union h b d vb vd :
  map_rel h b vb → map_rel h d vd → map_rel h (b ∪ d) (vb ∪ vd).
Proof.
  intros Hb Hd k. specialize (Hb k). specialize (Hd k). rewrite !lookup_union.
  inversion Hb as [r o Hr E1 E2|E1 E2]; inversion Hd as [r' o' Hr' E1' E2'|E1' E2'];
    simpl; constructor; assumption.
Qed.

Lemma sim_cons s L :
  sim s L → ∃ b d outer vb vd vouter, layers s = b :: d :: outer ∧ L = vb :: vd :: vouter ∧
    map_rel (heap s) b vb ∧ map_rel (heap s) d vd ∧ Forall2 (map_rel (heap s)) outer vouter.
Proof.
  intros [Hl H2 _]. inversion Hl as [|b vb m2 L2 Hb Hl2 E1 E2]; subst; [simpl in H2; lia|].
  inversion Hl2 as [|d vd outer vouter Hd Ho]; subst; [simpl in H2; lia|]. naive_solver.
Qed.

(** Live pointers are allocated. *)
Lemma points_heap s L i k p : sim s L → points s i k p → is_Some (heap s !! p).
Proof.
  intros [Hl _ _] (m & r & Hm & Hr & Ht & Hp).
  destruct (Forall2_lookup_l _ _ _ _ _ Hl Hm) as (vm & _ & Hrel). specialize (Hrel k).
  rewrite Hr in Hrel. inversion Hrel as [? o Hro|]; subst. destruct o as [v|]; [|done].
  destruct Hro as (_ & p' & Hp' & Hv). rewrite Hp in Hp'. simplify_eq. eauto.
Qed.

(** A change of the heap outside the live pointers, and at the pointer of one record. *)
Lemma sim_alloc s L v : sim s L →
  let '(s', p) := make_shared s v in
  sim s' L ∧ heap s' !! p = Some v ∧ ∀ i k, ¬ points s' i k p.
Proof.
  intros Hs. unfold make_shared. set (p := fresh (dom (heap s))).
  assert (heap s !! p = None) as Hp by (apply not_elem_of_dom, is_fresh).
  assert (Hnp : ∀ i k, ¬ points s i k p).
  { intros i k Hpt. destruct (points_heap _ _ _ _ _ Hs Hpt) as [w Hw]. congruence. }
  split_and!; [|by simpl; rewrite lookup_insert_eq|exact Hnp]. destruct Hs as [Hl H2 Ha]. split; [|done|exact Ha].
  simpl. apply Forall2_same_length_lookup_2; [by eapply Forall2_length|].
  intros i m vm Hm Hvm. pose proof (Forall2_lookup_lr _ _ _ _ _ _ Hl Hm Hvm) as Hrel.
  eapply map_rel_heap; [exact Hrel|]. intros k r q Hr Ht Hq. rewrite lookup_insert_ne; [done|].
  intros ->. apply (Hnp i k). by exists m, r.
Qed.

Lemma points_put s key r i k p buff outer :
  layers s = buff :: outer → points (put s key r) i k p →
  (i = 0 ∧ k = key ∧ ptr_ r = Some p ∧ type_ r ≠ DEL) ∨ points s i k p.
Proof.
  intros El (m & r' & Hm & Hr & Ht & Hp). unfold put in Hm. rewrite El in Hm. simpl in Hm.
  destruct i as [|i]; simpl in Hm; simplify_eq.
  - rewrite lookup_insert in Hr. case_decide; simplify_eq; [by left|right].
    exists buff, r'. by rewrite El.
  - right. exists m, r'. by rewrite El.
Qed.

Lemma sim_put s L key r o : sim s L → rec_rel (heap s) r o →
  (∀ p, ptr_ r = Some p → type_ r ≠ DEL → ∀ i k, ¬ points s i k p) →
  sim (put s key r) (spec_put L key o).
Proof.
  intros Hs Hr Hp. pose proof Hs as [Hl H2 Ha].
  destruct (sim_cons _ _ Hs) as (b & d & outer & vb & vd & vouter & El & -> & Hb & Hd & Ho).
  assert (heap (put s key r) = heap s) as Hheap by (unfold put; by rewrite El).
  split.
  - rewrite Hheap. unfold put. rewrite El. simpl. apply Forall2_cons_2; [by apply map_rel_insert|by apply Forall2_cons_2].
  - done.
  - intros i j k k' p [(-> & -> & Hq & Ht)|H1]%(points_put _ _ _ _ _ _ _ _ El)
      [(-> & -> & Hq' & Ht')|H1']%(points_put _ _ _ _ _ _ _ _ El); try done.
    + by destruct (Hp p Hq Ht j k').
    + by destruct (Hp p Hq' Ht' i k).
    + by eapply Ha.
Qed.

Lemma sim_write s L key p v : sim s L → points s 0 key p → sim (write s p v) (spec_put L key (Some v)).
Proof.
  intros Hs Hpt. pose proof Hs as [Hl H2 Ha].
  destruct (sim_cons _ _ Hs) as (b & d & outer & vb & vd & vouter & El & -> & Hb & Hd & Ho).
  pose proof Hpt as (m & r & Hm & Hr & Ht & Hp). rewrite El in Hm. simplify_eq/=.
  assert (Hother : ∀ i m' vm', layers s !! S i = Some m' → map_rel (heap s) m' vm' →
    map_rel (<[p := v]> (heap s)) m' vm').
  { intros i m' vm' Hm' Hrel. eapply map_rel_heap; [exact Hrel|]. intros k r' q Hr' Ht' Hq.
    apply lookup_insert_ne. intros <-. by destruct (Ha (S i) 0 k key p) as [? _]; [exists m', r'|..]. }
  split; [|done|exact Ha]. simpl. rewrite El. constructor; [|constructor].
  - intros k. rewrite lookup_insert. case_decide as E.
    + subst k. rewrite Hr. constructor. split; [done|]. exists p. split; [done|]. by rewrite lookup_insert_eq.
    + assert (map_rel (<[p := v]> (heap s)) (delete key m) (delete key vb)) as Hrel.
      { eapply (map_rel_heap (heap s)).
        - intros k'. rewrite !lookup_delete. case_decide; [constructor|apply Hb].
        - intros k' r' q Hr' Ht' Hq. apply lookup_insert_ne. intros <-.
          rewrite lookup_delete in Hr'. case_decide; [done|].
          destruct (Ha 0 0 k' key p) as [_ ?]; [exists m, r'; by rewrite El|done|congruence]. }
      specialize (Hrel k). by rewrite !lookup_delete_ne in Hrel by done.
  - apply (Hother 0 d); [by rewrite El|done].
  - apply Forall2_same_length_lookup_2; [by eapply Forall2_length|].
    intros i m' vm' Hm' Hvm'. apply (Hother (S i)); [by rewrite El|]. by eapply Forall2_lookup_lr.
Qed.

Lemma points_new s key t p buff outer :
  layers s = buff :: outer → t ≠ DEL → points (put s key (mkRec t (Some p))) 0 key p.
Proof.
  intros El Ht. exists (<[key := mkRec t (Some p)]> buff), (mkRec t (Some p)).
  unfold put. rewrite El. simpl. by rewrite lookup_insert_eq.
Qed.

(** Allocating a value and recording it. *)
Lemma sim_cache s L key t v : sim s L → t ≠ DEL →
  ∃ s' p, make_shared s v = (s', p) ∧
    sim (put s' key (mkRec t (Some p))) (spec_put L key (Some v)) ∧
    points (put s' key (mkRec t (Some p))) 0 key p ∧
    heap (put s' key (mkRec t (Some p))) !! p = Some v.
Proof.
  intros Hs Ht. pose proof (sim_alloc s L v Hs) as Ha.
  destruct (make_shared s v) as [s' p]. destruct Ha as (Hs' & Hv & Hnp). exists s', p.
  destruct (sim_cons _ _ Hs') as (b & d & outer & vb & vd & vouter & El & _).
  assert (heap (put s' key (mkRec t (Some p))) = heap s') as Hheap by (unfold put; by rewrite El).
  split_and!; [done| |by eapply points_new|by rewrite Hheap].
  apply sim_put; [done| |by intros q [= <-] _]. split; [done|]. by exists p.
Qed.

Lemma GetValue_sim s L key : sim s L →
  ∃ s' p, GetValue s key = Ok (s', p) ∧ sim s' (spec_get L key).1 ∧
    match p with
    | None => (spec_get L key).2 = None
    | Some p => points s' 0 key p ∧ ∃ v, heap s' !! p = Some v ∧ (spec_get L key).2 = Some v
    end.
Proof.
  intros Hs.
  destruct (sim_cons _ _ Hs) as (b & d & outer & vb & vd & vouter & El & EL & Hb & Hd & Ho).
  unfold GetValue. rewrite El. subst L. cbn [spec_get].
  pose proof (Hb key) as Hbk. inversion Hbk as [r o Hr E1 E2|E1 E2].
  { destruct o as [v|]; simpl in Hr.
    - destruct Hr as (Ht & p & Hp & Hv). rewrite decide_False, Hp by done. cbn.
      exists s, (Some p). split_and!; [done|done|by exists b, r; rewrite El|eauto].
    - rewrite decide_True by done. by exists s, None. }
  pose proof (Hd key) as Hdk. inversion Hdk as [r o Hr E1' E2'|E1' E2'].
  - destruct o as [v|]; simpl in Hr.
    + destruct Hr as (Ht & p & Hp & Hv). rewrite decide_False, Hp by done. unfold deref. rewrite Hv. cbn [mbind res_bind].
      destruct (sim_cache s _ key MOD v Hs) as (s' & q & -> & Hs' & Hpt & Hq); [done|].
      eexists _, (Some q). split; [done|]. split_and!; [exact Hs'|exact Hpt|eauto].
    + rewrite decide_True by done. by exists s, None.
  - destruct (GetFromDB key) as [v|]; [|by exists s, None].
    destruct (sim_cache s _ key ADD v Hs) as (s' & q & -> & Hs' & Hpt & Hq); [done|].
    eexists _, (Some q). split; [done|]. split_and!; [exact Hs'|exact Hpt|eauto].
Qed.

(** ** The whole map after a commit, a discard and a change of frame *)

Lemma sim_commit s L bak : sim s L → sim (Commit s bak) (spec_commit L).
Proof.
  intros Hs. pose proof Hs as [_ H2 Ha].
  destruct (sim_cons _ _ Hs) as (b & d & outer & vb & vd & vouter & El & -> & Hb & Hd & Ho).
  assert (Commit s bak = mkAtoms (heap s) (∅ :: (b ∪ d) :: outer)) as ->.
  { unfold Commit, CopyCommit, DirectCommit. rewrite El, assign_all_union. by destruct bak. }
  split; simpl.
  - apply Forall2_cons_2; [apply map_rel_empty|]. apply Forall2_cons_2; [by apply map_rel_union|done].
  - lia.
  - assert (Hpt : ∀ i k p, points (mkAtoms (heap s) (∅ :: (b ∪ d) :: outer)) i k p →
      (i = 1 ∧ (points s 0 k p ∨ points s 1 k p)) ∨ (2 ≤ i ∧ points s i k p)).
    { intros [|[|i]] k p (m & r & Hm & Hr & Ht & Hp); simpl in Hm; simplify_eq.
      - left. split; [done|]. apply lookup_union_Some_raw in Hr as [Hr|[_ Hr]].
        + left. exists b, r. by rewrite El.
        + right. exists d, r. by rewrite El.
      - right. split; [lia|]. exists m, r. by rewrite El. }
    intros i j k k' p H1%Hpt H1'%Hpt.
    destruct H1 as [[-> [P|P]]|[Hi P]], H1' as [[-> [P'|P']]|[Hj P']];
      destruct (Ha _ _ _ _ _ P P'); subst; auto; lia.
Qed.

Lemma sim_sub s L s' L' (f : nat → nat) :
  sim s L → heap s' = heap s → Forall2 (map_rel (heap s)) (layers s') L' → 2 ≤ length L' →
  (∀ i j, f i = f j → i = j) → (∀ i k p, points s' i k p → points s (f i) k p) → sim s' L'.
Proof.
  intros [_ _ Ha] Eh Hl H2 Hf Hpt. split; [by rewrite Eh|done|].
  intros i j k k' p H1%Hpt H1'%Hpt. destruct (Ha _ _ _ _ _ H1 H1'). auto.
Qed.

Lemma sim_clear s L : sim s L → sim (ClearChangeBuf s) (spec_clear L).
Proof.
  intros Hs.
  destruct (sim_cons _ _ Hs) as (b & d & outer & vb & vd & vouter & El & -> & Hb & Hd & Ho).
  unfold ClearChangeBuf. rewrite El. apply (sim_sub s (vb :: vd :: vouter) _ _ id); simpl; try done.
  - apply Forall2_cons_2; [apply map_rel_empty|]. by apply Forall2_cons_2.
  - lia.
  - intros [|i] k p (m & r & Hm & Hr & Ht & Hp); simpl in Hm; simplify_eq.
    exists m, r. by rewrite El.
Qed.

Lemma sim_push s L : sim s L → sim (push_frame s) (∅ :: L).
Proof.
  intros Hs. pose proof Hs as [Hl H2 Ha]. split; simpl; [constructor; [apply map_rel_empty|done]|lia|].
  assert (Hpt : ∀ i k p, points (push_frame s) i k p → ∃ i', i = S i' ∧ points s i' k p).
  { intros [|i] k p (m & r & Hm & Hr & Ht & Hp); simpl in Hm; simplify_eq.
    exists i. split; [done|]. by exists m, r. }
  intros i j k k' p (i' & -> & P)%Hpt (j' & -> & P')%Hpt. destruct (Ha _ _ _ _ _ P P'). auto.
Qed.

Lemma sim_pop s L : sim s L → sim (pop_frame s) (spec_pop L).
Proof.
  intros Hs.
  destruct (sim_cons _ _ Hs) as (b & d & outer & vb & vd & vouter & El & -> & Hb & Hd & Ho).
  unfold pop_frame. rewrite El. destruct Ho as [|m vm outer vouter Hm Ho]; [exact Hs|].
  apply (sim_sub s (vb :: vd :: vm :: vouter) _ _ S); simpl; try done.
  - by repeat apply Forall2_cons_2.
  - lia.
  - intros i j. lia.
  - intros i k p (m' & r & Hm' & Hr & Ht & Hp). exists m', r. by rewrite El.
Qed.

Lemma atom_step_sim s L o : sim s L →
  ∃ s', atom_step s o = Ok (s', (spec_step L o).2) ∧ sim s' (spec_step L o).1.
Proof.
  intros Hs. destruct o as [key|key v|key v|key|bak| | |]; cbn [atom_step spec_step].
  - destruct (GetValue_sim s L key Hs) as (s' & p & -> & Hs' & Hp). destruct (spec_get L key) as [L' o].
    cbn [mbind res_bind fst snd] in *. exists s'. destruct p as [p|]; [|by subst].
    destruct Hp as (_ & v & Hv & ->). unfold deref. by rewrite Hv.
  - destruct (GetValue_sim s L key Hs) as (s' & p & -> & Hs' & Hp). destruct (spec_get L key) as [L' o].
    cbn [mbind res_bind fst snd] in *. destruct p as [p|]; [|subst; by exists s'].
    destruct Hp as (Hpt & w & _ & ->). exists (write s' p v). split; [done|]. by apply sim_write.
  - destruct (sim_cache s L key MOD v Hs) as (s' & p & -> & Hs' & _); [done|].
    exists (SetValue s' key p). split; [done|exact Hs'].
  - exists (Del s key). split; [done|]. by apply sim_put.
  - exists (Commit s bak). split; [done|]. by apply sim_commit.
  - exists (ClearChangeBuf s). split; [done|]. by apply sim_clear.
  - exists (push_frame s). split; [done|]. by apply sim_push.
  - exists (pop_frame s). split; [done|]. by apply sim_pop.
Qed.

Lemma atom_run_sim ops : ∀ s L, sim s L →
  ∃ s', atom_run s ops = Ok (s', (spec_run L ops).2) ∧ sim s' (spec_run L ops).1.
Proof.
  induction ops as [|o ops IH]; intros s L Hs; [by exists s|]. cbn [atom_run spec_run].
  destruct (atom_step_sim s L o Hs) as (s1 & -> & Hs1). destruct (spec_step L o) as [L1 out].
  cbn [mbind res_bind fst snd] in *. destruct (IH s1 L1 Hs1) as (s2 & -> & Hs2).
  destruct (spec_run L1 ops) as [L2 outs]. cbn [mbind res_bind fst snd] in *. by exists s2.
Qed.

Definition new_atoms : atoms := mkAtoms ∅ [∅; ∅].

Lemma new_atoms_sim : sim new_atoms [∅; ∅].
Proof.
  split; [by repeat (apply Forall2_cons_2; [apply map_rel_empty|])|done|].
  intros [|[|i]] j k k' p (m & r & Hm & Hr & _); by simpl in Hm; simplify_eq.
Qed.
End atoms.

(** [AtomMap] isolates changes until they are committed.  For every sequence of reads,
    assignments through the pointers that [Get] returns, [Set], [Del], [Commit] (in both
    modes), [ClearChangeBuf], and nested frames over the change buffer, the program with
    shared pointers runs without a null dereference and reads the same values as a stack of
    plain maps in which a change is a map update and a commit a union: no assignment
    reaches committed values through an alias. *)
Theorem atom_run_refines {V} (GetFromDB : bytes → option V) (ops : list (atom_op (V := V))) :
  ∃ s, atom_run GetFromDB new_atoms ops = Ok (s, (spec_run GetFromDB [∅; ∅] ops).2).
Proof.
  destruct (atom_run_sim GetFromDB ops new_atoms [∅; ∅] new_atoms_sim) as (s & -> & _). eauto.
Qed.
