(* ===== verification/Account.v ===== *)
(** * Accounts (src/src/ledger/account.cpp, account.h; messages of chain.proto)

    The messages of an account and the members of [AccountFrm]: balance, signers and
    thresholds, and the caches of assets and metadata over the tries on disk.  A
    [protocol::Account] that is read from the database is a value; what the asset and
    metadata tries hold is [LedgerDb]. *)
From stdpp Require Import base gmap list countable.
From Stdlib Require Import ZArith Lia.
From S2P Require Import Prelude SafeInt Base58 AtomMap.
Local Open Scope Z_scope.

(** ** Messages *)

Record Signer := mkSigner { signer_address : bytes; weight : Z }.

Record OperationTypeThreshold := mkTypeThreshold { threshold_type : Z; threshold : Z }.

Record AccountThreshold := mkThresholds {
  tx_threshold : Z; type_thresholds : list OperationTypeThreshold }.

Record AccountPrivilege := mkPrivilege {
  master_weight : Z; signers : list Signer; thresholds : option AccountThreshold }.

(** [protocol::Account]; [contract] is the payload of the message [Contract], and
    [has_contract] says whether the account has this message. *)
Record Account := mkAccount {
  address : bytes; nonce : Z; priv : AccountPrivilege; metadatas_hash : bytes;
  assets_hash : bytes; contract : bytes; has_contract : bool; balance : Z }.

Record AssetKey := mkAssetKey { issuer : bytes; code : bytes; asset_type : Z }.

Record AssetProperty := mkAssetProperty {
  decimal : Z; description : bytes; max_supply : Z; issued_amount : Z; fee_percent : Z }.

Record AssetStore := mkAssetStore {
  asset_key : AssetKey; amount : Z; property : option AssetProperty }.

Record KeyPair := mkKeyPair { key : bytes; value : bytes; version : Z }.

#[global] Instance AssetKey_eq_dec : EqDecision AssetKey.
Proof. solve_decision. Defined.

#[global] Instance AssetKey_countable : Countable AssetKey.
Proof.
  refine (inj_countable' (λ k, (issuer k, code k, asset_type k)) (λ '(i, c, t), mkAssetKey i c t) _).
  by intros [].
Defined.

(** Unset sub-messages read as their defaults. *)
Definition no_thresholds : AccountThreshold := mkThresholds 0 [].
Definition no_privilege : AccountPrivilege := mkPrivilege 0 [] None.
Definition no_account : Account := mkAccount [] 0 no_privilege [] [] [] false 0.

Definition thresholds_of (p : AccountPrivilege) : AccountThreshold := default no_thresholds (thresholds p).

(** ** [AccountFrm] *)

(** A cached asset or metadata with what was done to it ([DataCache]). *)
Record AccountFrm := mkAccountFrm {
  account_info_ : Account;
  assets_ : gmap AssetKey (actType * AssetStore);
  metadata_ : gmap bytes (actType * KeyPair) }.

(** [AccountFrm(protocol::Account)]. *)
Definition new_AccountFrm (a : Account) : AccountFrm := mkAccountFrm a ∅ ∅.

(** What the tries of the account database hold: accounts, and the assets and metadata of an
    account, by the decoded address. *)
Record LedgerDb := mkLedgerDb {
  db_account : gmap bytes Account;
  db_asset : bytes → AssetKey → option AssetStore;
  db_metadata : bytes → bytes → option KeyPair }.

(** Field updates of the messages. *)
Definition with_info (f : Account → Account) (a : AccountFrm) : AccountFrm :=
  mkAccountFrm (f (account_info_ a)) (assets_ a) (metadata_ a).
Definition set_balance (b : Z) (a : Account) : Account :=
  mkAccount (address a) (nonce a) (priv a) (metadatas_hash a) (assets_hash a) (contract a) (has_contract a) b.
Definition set_nonce (n : Z) (a : Account) : Account :=
  mkAccount (address a) n (priv a) (metadatas_hash a) (assets_hash a) (contract a) (has_contract a) (balance a).
Definition set_priv (p : AccountPrivilege) (a : Account) : Account :=
  mkAccount (address a) (nonce a) p (metadatas_hash a) (assets_hash a) (contract a) (has_contract a) (balance a).
Definition set_signers (l : list Signer) (p : AccountPrivilege) : AccountPrivilege :=
  mkPrivilege (master_weight p) l (thresholds p).
Definition set_type_thresholds (l : list OperationTypeThreshold) (p : AccountPrivilege) : AccountPrivilege :=
  mkPrivilege (master_weight p) (signers p) (Some (mkThresholds (tx_threshold (thresholds_of p)) l)).

Definition GetAccountBalance (a : AccountFrm) : Z := balance (account_info_ a).
Definition GetAccountAddress (a : AccountFrm) : bytes := address (account_info_ a).
Definition GetAccountNonce (a : AccountFrm) : Z := nonce (account_info_ a).

(** [None]: the sum overflowed. *)
Definition AddBalance (a : AccountFrm) (amt : Z) : option AccountFrm :=
  b ← SafeIntAdd (GetAccountBalance a) amt; Some (with_info (set_balance b) a).

Definition SIGNER_LIMIT : nat := 100.

(** The two loops of [UpdateSigner] on the list of signers. *)
Definition signer_found (s : bytes) (l : list Signer) : bool :=
  bool_decide (Exists (λ x, signer_address x = s) l).

Definition update_weight (s : bytes) (w : Z) (l : list Signer) : list Signer :=
  (λ x, if decide (signer_address x = s) then mkSigner (signer_address x) w else x) <$> l.

Definition drop_signer (s : bytes) (l : list Signer) : list Signer :=
  filter (λ x, signer_address x ≠ s) l.

Definition UpdateSigner (a : AccountFrm) (s : bytes) (w : Z) : AccountFrm * bool :=
  let p := priv (account_info_ a) in
  let l := signers p in
  let put l := with_info (set_priv (set_signers l p)) a in
  if 0 <? w then
    if signer_found s l then (put (update_weight s w l), true)
    else if decide (SIGNER_LIMIT ≤ length l)%nat then (a, false)
    else (put (l ++ [mkSigner s w]), true)
  else if signer_found s l then (put (drop_signer s l), true) else (a, true).

(** The first threshold of the type, or 0. *)
Definition GetTypeThreshold (a : AccountFrm) (type : Z) : Z :=
  default 0 (threshold <$> head (filter (λ t, threshold_type t = type)
    (type_thresholds (thresholds_of (priv (account_info_ a)))))).

Definition type_found (type : Z) (l : list OperationTypeThreshold) : bool :=
  bool_decide (Exists (λ x, threshold_type x = type) l).

(** [threshold & UINT64_MAX], converted back to [int64_t], is the threshold itself. *)
Definition UpdateTypeThreshold (a : AccountFrm) (type th : Z) : AccountFrm * bool :=
  let th := i64 (Z.land (u64 th) (2 ^ 64 - 1)) in
  let p := priv (account_info_ a) in
  let l := type_thresholds (thresholds_of p) in
  let put l := with_info (set_priv (set_type_thresholds l p)) a in
  if 0 <? th then
    if type_found type l then
      (put ((λ x, if decide (threshold_type x = type) then mkTypeThreshold (threshold_type x) th else x) <$> l), true)
    else if decide (SIGNER_LIMIT ≤ length l)%nat then (put l, false)
    else (put (l ++ [mkTypeThreshold type th]), true)
  else if type_found type l then (put (filter (λ x, threshold_type x ≠ type) l), true)
  else (put l, true).

Definition SetProtoMasterWeight (a : AccountFrm) (w : Z) : AccountFrm :=
  let p := priv (account_info_ a) in
  with_info (set_priv (mkPrivilege w (signers p) (thresholds p))) a.

Definition SetProtoTxThreshold (a : AccountFrm) (th : Z) : AccountFrm :=
  let p := priv (account_info_ a) in
  with_info (set_priv (mkPrivilege (master_weight p) (signers p)
    (Some (mkThresholds th (type_thresholds (thresholds_of p)))))) a.

(** Reads fill the cache. *)
Definition GetAsset (db : LedgerDb) (a : AccountFrm) (k : AssetKey) : AccountFrm * option AssetStore :=
  match assets_ a !! k with
  | Some (act, d) => if decide (act = DEL) then (a, None) else (a, Some d)
  | None =>
      match db_asset db (DecodeAddress (GetAccountAddress a)) k with
      | None => (a, None)
      | Some d => (mkAccountFrm (account_info_ a) (<[k := (MOD, d)]> (assets_ a)) (metadata_ a), Some d)
      end
  end.

Definition SetAsset (a : AccountFrm) (d : AssetStore) : AccountFrm :=
  mkAccountFrm (account_info_ a) (<[asset_key d := (ADD, d)]> (assets_ a)) (metadata_ a).

Definition GetMetaData (db : LedgerDb) (a : AccountFrm) (k : bytes) : AccountFrm * option KeyPair :=
  match metadata_ a !! k with
  | Some (act, d) => if decide (act = DEL) then (a, None) else (a, Some d)
  | None =>
      match db_metadata db (DecodeAddress (GetAccountAddress a)) k with
      | None => (a, None)
      | Some d => (mkAccountFrm (account_info_ a) (assets_ a) (<[k := (MOD, d)]> (metadata_ a)), Some d)
      end
  end.

Definition SetMetaData (a : AccountFrm) (d : KeyPair) : AccountFrm :=
  mkAccountFrm (account_info_ a) (assets_ a) (<[key d := (ADD, d)]> (metadata_ a)).

Definition DeleteMetaData (a : AccountFrm) (d : KeyPair) : AccountFrm :=
  mkAccountFrm (account_info_ a) (assets_ a) (<[key d := (DEL, d)]> (metadata_ a)).

Definition NonceIncrease (a : AccountFrm) : AccountFrm :=
  with_info (set_nonce (i64 (GetAccountNonce a + 1))) a.

Definition CreatAccountFrm (addr : bytes) (b : Z) : AccountFrm :=
  SetProtoTxThreshold (SetProtoMasterWeight
    (new_AccountFrm (mkAccount addr 0 no_privilege [] [] [] false b)) 1) 1.
