(* ===== verification/Hex.v ===== *)
(** * Hexadecimal encoding (src/src/utils/strings.h)

    [BinToHexString], [HexStringToBin] in its two modes, [IsHexString] and [Bin4ToHexString].
    [hex_strict_roundtrip]: the strict reader accepts exactly what the printer prints. *)
From stdpp Require Import base list strings numbers.
From Stdlib Require Import ZArith Lia.
From S2P Require Import Prelude Strings.
Local Open Scope Z_scope.

(** [(d <= 9) ? (d + '0') : (d - 10 + 'a')]. *)
Definition hex_char (d : Z) : byte := to_char (if d <=? 9 then d + 48 else d - 10 + 97).

Definition BinToHexString (v : bytes) : bytes :=
  v ≫= λ b, let item := uchar b in [hex_char (Z.shiftr item 4); hex_char (Z.land item 15)].

(** The value of a digit; capitals only when [force_little] is not set. *)
Definition hex_value (force_little : bool) (c : byte) : option Z :=
  let c := uchar c in
  if (48 <=? c) && (c <=? 57) then Some (c - 48)
  else if (97 <=? c) && (c <=? 102) then Some (c - 97 + 10)
  else if (65 <=? c) && (c <=? 70) && negb force_little then Some (c - 65 + 10)
  else None.

Fixpoint hex_pairs (force_little : bool) (s : bytes) : option bytes :=
  match s with
  | h :: l :: s =>
      high ← hex_value force_little h; low ← hex_value force_little l;
      r ← hex_pairs force_little s; Some (to_char (Z.shiftl high 4 + low) :: r)
  | _ => Some []
  end.

(** An error is the empty string. *)
Definition HexStringToBin (s : bytes) (force_little : bool) : bytes :=
  if bool_decide (Nat.modulo (length s) 2 ≠ 0%nat) || bool_decide (s = []) then []
  else default [] (hex_pairs force_little s).

Definition is_hex_char (b : byte) : bool :=
  let c := schar b in
  ((48 <=? c) && (c <=? 57)) || ((97 <=? c) && (c <=? 102)) || ((65 <=? c) && (c <=? 70)).

Definition IsHexString (s : bytes) : bool :=
  if decide (Nat.modulo (length s) 2 ≠ 0%nat) then false else forallb is_hex_char s.

(** The overload with an output parameter. *)
Definition HexStringToBin_checked (s : bytes) : option bytes :=
  if IsHexString s then Some (HexStringToBin s false) else None.

Definition Bin4ToHexString (v : bytes) : bytes := BinToHexString (take 4 v).

(** ** Digits *)

Lemma uchar_range b : 0 ≤ uchar b < 256.
Proof. unfold uchar. pose proof (Strings.Byte.to_N_bounded b). lia. Qed.

Lemma to_char_uchar b : to_char (uchar b) = b.
Proof.
  unfold to_char. rewrite Z.mod_small by apply uchar_range. unfold uchar.
  by rewrite N2Z.id, Strings.Byte.of_to_N.
Qed.

Lemma hex_value_char fl d : 0 ≤ d < 16 → hex_value fl (hex_char d) = Some d.
Proof.
  intros Hd. unfold hex_value, hex_char.
  assert (d ∈ [0;1;2;3;4;5;6;7;8;9;10;11;12;13;14;15]) as Hin.
  { rewrite !elem_of_cons. lia. }
  clear Hd. repeat (apply elem_of_cons in Hin as [->|Hin]; [by destruct fl|]). by apply elem_of_nil in Hin.
Qed.

Lemma hex_char_value c d : hex_value true c = Some d → c = hex_char d ∧ 0 ≤ d < 16.
Proof.
  unfold hex_value, hex_char. intros H. rewrite <- (to_char_uchar c) at 1.
  destruct (Z.leb_spec 48 (uchar c)), (Z.leb_spec (uchar c) 57), (Z.leb_spec 97 (uchar c)),
    (Z.leb_spec (uchar c) 102), (Z.leb_spec 65 (uchar c)), (Z.leb_spec (uchar c) 70);
    simplify_eq/=; try lia;
    (split; [|lia]); f_equal; case_match eqn:E; rewrite ?Z.leb_le, ?Z.leb_gt in *; lia.
Qed.

Lemma nibbles_join n : 0 ≤ n < 256 → Z.shiftl (Z.shiftr n 4) 4 + Z.land n 15 = n.
Proof.
  intros Hn. rewrite Z.shiftl_mul_pow2, Z.shiftr_div_pow2 by lia. change 15 with (Z.ones 4).
  rewrite Z.land_ones by lia. pose proof (Z.div_mod n (2 ^ 4)). lia.
Qed.

Lemma nibbles_split h l : 0 ≤ h < 16 → 0 ≤ l < 16 →
  Z.shiftr (Z.shiftl h 4 + l) 4 = h ∧ Z.land (Z.shiftl h 4 + l) 15 = l.
Proof.
  intros Hh Hl. rewrite Z.shiftl_mul_pow2, Z.shiftr_div_pow2 by lia. change 15 with (Z.ones 4).
  rewrite Z.land_ones by lia. change (2 ^ 4) with 16. split.
  - rewrite Z.div_add_l by lia. rewrite Z.div_small by lia. lia.
  - rewrite Z.add_comm, Z.mod_add by lia. by rewrite Z.mod_small.
Qed.

Lemma nibble_bounds n : 0 ≤ n < 256 → 0 ≤ Z.shiftr n 4 < 16 ∧ 0 ≤ Z.land n 15 < 16.
Proof.
  intros Hn. rewrite Z.shiftr_div_pow2 by lia. change 15 with (Z.ones 4). rewrite Z.land_ones by lia.
  change (2 ^ 4) with 16. split; [|by apply Z.mod_pos_bound].
  split; [apply Z.div_pos; lia|apply Z.div_lt_upper_bound; lia].
Qed.

Lemma hex_pairs_print fl v : hex_pairs fl (BinToHexString v) = Some v.
Proof.
  induction v as [|b v IH]; [done|]. change (BinToHexString (b :: v)) with
    ([hex_char (Z.shiftr (uchar b) 4); hex_char (Z.land (uchar b) 15)] ++ BinToHexString v).
  destruct (nibble_bounds (uchar b) (uchar_range b)) as [Hh Hl]. cbn [app hex_pairs].
  rewrite !hex_value_char by done. cbn [mbind option_bind]. rewrite IH. cbn [mbind option_bind].
  by rewrite nibbles_join, to_char_uchar by apply uchar_range.
Qed.

Lemma print_hex_pairs n : ∀ s v, (length s = 2 * n)%nat → hex_pairs true s = Some v → s = BinToHexString v.
Proof.
  induction n as [|n IH]; intros [|h [|l s]] v Hs; try (simpl in Hs; lia); [by intros [= <-]|].
  cbn [hex_pairs]. intros H.
  apply bind_Some in H as (high & E1 & H). apply bind_Some in H as (low & E2 & H).
  apply bind_Some in H as (r & E3 & [= <-]). apply hex_char_value in E1 as [-> Hh], E2 as [-> Hl].
  apply IH in E3; [|simpl in Hs; lia]. subst s.
  change (BinToHexString (to_char (Z.shiftl high 4 + low) :: r)) with
    ([hex_char (Z.shiftr (uchar (to_char (Z.shiftl high 4 + low))) 4);
      hex_char (Z.land (uchar (to_char (Z.shiftl high 4 + low))) 15)] ++ BinToHexString r).
  rewrite uchar_to_char.
  - by destruct (nibbles_split high low Hh Hl) as [-> ->].
  - rewrite Z.shiftl_mul_pow2 by lia. lia.
Qed.

Lemma BinToHexString_length v : length (BinToHexString v) = (2 * length v)%nat.
Proof. induction v as [|b v IH]; [done|]. simpl in *. lia. Qed.

(** Hexadecimal text is read back exactly.  Whatever the mode, reading what
    [BinToHexString] prints gives the bytes; and in the strict mode a string that reads as
    some bytes is the one the printer prints for them: every other string, with an odd
    length, a capital or a character that is not a digit, reads as the empty string. *)
Theorem hex_strict_roundtrip s v :
  HexStringToBin (BinToHexString v) false = v ∧
  (v ≠ [] → HexStringToBin s true = v ↔ s = BinToHexString v).
Proof.
  assert (Hprint : ∀ fl, HexStringToBin (BinToHexString v) fl = v).
  { intros fl. unfold HexStringToBin. rewrite BinToHexString_length, hex_pairs_print.
    rewrite bool_decide_eq_false_2 by (rewrite Nat.mul_comm, Nat.Div0.mod_mul; auto). simpl.
    case_bool_decide as E; [|done]. apply (f_equal length) in E. rewrite BinToHexString_length in E.
    by destruct v. }
  split; [apply Hprint|]. intros Hv. split; [|intros ->; apply Hprint].
  unfold HexStringToBin. case_bool_decide as Hodd; [by intros <-|]. simpl. case_bool_decide; [by intros <-|].
  destruct (hex_pairs true s) as [r|] eqn:E; simpl; [|by intros <-]. intros ->.
  apply (print_hex_pairs (length s / 2)) in E; [done|].
  pose proof (Nat.div_mod_eq (length s) 2). lia.
Qed.

(** A string of odd length, and one with a capital, are rejected in the strict mode. *)
Lemma hex_strict_roundtrip_witness :
  HexStringToBin (BinToHexString (str "a")) false = str "a" ∧
  (HexStringToBin (str "6A") true = str "j" ↔ str "6A" = BinToHexString (str "j")).
Proof.
  split; [apply (hex_strict_roundtrip [])|apply hex_strict_roundtrip; by vm_compute].
Defined.
