(* ===== verification/LedgerMsg.v ===== *)
(** * Transactions, operations and results (messages of chain.proto and common.proto)

    The messages the ledger executes, the state of a [TransactionFrm], the parameter of a
    contract call, the interface of contract programs, and what the ledger takes from the
    rest of the node ([LedgerHost], [Globals]). *)
From stdpp Require Import base gmap list strings.
From Stdlib Require Import ZArith Lia.
From S2P Require Import Prelude SafeInt Strings AtomMap Account.
Local Open Scope Z_scope.

(** ** Results *)

Inductive ERRORCODE :=
  | ERRCODE_SUCCESS | ERRCODE_INTERNAL_ERROR | ERRCODE_INVALID_PARAMETER | ERRCODE_ALREADY_EXIST
  | ERRCODE_NOT_EXIST | ERRCODE_TX_TIMEOUT | ERRCODE_ACCESS_DENIED | ERRCODE_MATH_OVERFLOW
  | ERRCODE_EXPR_CONDITION_RESULT_FALSE | ERRCODE_EXPR_CONDITION_SYNTAX_ERROR
  | ERRCODE_INVALID_PUBKEY | ERRCODE_INVALID_PRIKEY | ERRCODE_ASSET_INVALID | ERRCODE_INVALID_SIGNATURE
  | ERRCODE_INVALID_ADDRESS | ERRCODE_MISSING_OPERATIONS | ERRCODE_TOO_MANY_OPERATIONS
  | ERRCODE_BAD_SEQUENCE | ERRCODE_ACCOUNT_LOW_RESERVE | ERRCODE_ACCOUNT_SOURCEDEST_EQUAL
  | ERRCODE_ACCOUNT_DEST_EXIST | ERRCODE_ACCOUNT_NOT_EXIST | ERRCODE_ACCOUNT_ASSET_LOW_RESERVE
  | ERRCODE_ACCOUNT_ASSET_AMOUNT_TOO_LARGE | ERRCODE_ACCOUNT_INIT_LOW_RESERVE
  | ERRCODE_FEE_NOT_ENOUGH | ERRCODE_FEE_INVALID | ERRCODE_OUT_OF_TXCACHE
  | ERRCODE_WEIGHT_NOT_VALID | ERRCODE_THRESHOLD_NOT_VALID
  | ERRCODE_INVALID_DATAVERSION | ERRCODE_TX_SIZE_TOO_BIG
  | ERRCODE_CONTRACT_EXECUTE_FAIL | ERRCODE_CONTRACT_SYNTAX_ERROR | ERRCODE_CONTRACT_TOO_MANY_RECURSION
  | ERRCODE_CONTRACT_TOO_MANY_TRANSACTIONS | ERRCODE_CONTRACT_EXECUTE_EXPIRED
  | ERRCODE_TX_INSERT_QUEUE_FAIL.

#[global] Instance ERRORCODE_eq_dec : EqDecision ERRORCODE.
Proof. solve_decision. Defined.

(** [Json::Value]. *)
Inductive Json : Type :=
  | JNull | JBool (b : bool) | JInt (z : Z) | JString (s : bytes)
  | JArray (l : list Json) | JObject (m : list (bytes * Json)).

(** [Result]; the text of [desc] is left out. *)
Record Result := mkResult { rcode : ERRORCODE; contract_result : Json }.

Definition success : Result := mkResult ERRCODE_SUCCESS JNull.
Definition failure (c : ERRORCODE) : Result := mkResult c JNull.

(** ** Operations *)

Record OperationCreateAccount := mkCreateAccount {
  ca_dest_address : bytes; ca_payload : bytes; ca_priv : option AccountPrivilege;
  ca_metadatas : list KeyPair; ca_init_balance : Z; ca_init_input : bytes }.

Record OperationIssueAsset := mkIssueAsset { ia_code : bytes; ia_amount : Z }.

Record Asset := mkAsset { a_key : AssetKey; a_amount : Z }.

Record OperationPayAsset := mkPayAsset {
  pa_dest_address : bytes; pa_asset : option Asset; pa_input : bytes }.

Record OperationSetMetadata := mkSetMetadata {
  sm_key : bytes; sm_value : bytes; sm_version : Z; sm_delete_flag : bool }.

Record OperationSetSignerWeight := mkSetSignerWeight {
  sw_master_weight : Z; sw_signers : list Signer }.

Record OperationSetThreshold := mkSetThreshold {
  st_tx_threshold : Z; st_type_thresholds : list OperationTypeThreshold }.

Record OperationPayCoin := mkPayCoin { pc_dest_address : bytes; pc_amount : Z; pc_input : bytes }.

Record OperationLog := mkLog { log_topic : bytes; log_datas : list bytes }.

Record OperationSetPrivilege := mkSetPrivilege {
  sp_master_weight : bytes; sp_signers : list Signer; sp_tx_threshold : bytes;
  sp_type_thresholds : list OperationTypeThreshold }.

(** [Operation::Type]. *)
Definition CREATE_ACCOUNT : Z := 1.
Definition ISSUE_ASSET : Z := 2.
Definition PAY_ASSET : Z := 3.
Definition SET_METADATA : Z := 4.
Definition SET_SIGNER_WEIGHT : Z := 5.
Definition SET_THRESHOLD : Z := 6.
Definition PAY_COIN : Z := 7.
Definition LOG : Z := 8.
Definition SET_PRIVILEGE : Z := 9.
(** The two sentinels of the generated enumeration. *)
Definition TYPE_INT_MIN : Z := - 2 ^ 31.
Definition TYPE_INT_MAX : Z := 2 ^ 31 - 1.

(** A sub-message that is not set reads as its default. *)
Record Operation := mkOperation {
  op_type : Z; op_source_address : bytes; op_metadata : bytes;
  create_account : OperationCreateAccount; issue_asset : OperationIssueAsset;
  pay_asset : OperationPayAsset; set_metadata : OperationSetMetadata;
  set_signer_weight : OperationSetSignerWeight; set_threshold : OperationSetThreshold;
  pay_coin : OperationPayCoin; log : OperationLog; set_privilege : OperationSetPrivilege }.

(** An operation of the given type with every sub-message unset. *)
Definition blank_operation (type : Z) : Operation :=
  mkOperation type [] [] (mkCreateAccount [] [] None [] 0 []) (mkIssueAsset [] 0)
    (mkPayAsset [] None []) (mkSetMetadata [] [] 0 false) (mkSetSignerWeight 0 [])
    (mkSetThreshold 0 []) (mkPayCoin [] 0 []) (mkLog [] []) (mkSetPrivilege [] [] [] []).

Definition with_metadata (m : bytes) (o : Operation) : Operation :=
  mkOperation (op_type o) (op_source_address o) m (create_account o) (issue_asset o) (pay_asset o)
    (set_metadata o) (set_signer_weight o) (set_threshold o) (pay_coin o) (log o) (set_privilege o).
Definition with_create_account (c : OperationCreateAccount) (o : Operation) : Operation :=
  mkOperation (op_type o) (op_source_address o) (op_metadata o) c (issue_asset o) (pay_asset o)
    (set_metadata o) (set_signer_weight o) (set_threshold o) (pay_coin o) (log o) (set_privilege o).
Definition with_issue_asset (c : OperationIssueAsset) (o : Operation) : Operation :=
  mkOperation (op_type o) (op_source_address o) (op_metadata o) (create_account o) c (pay_asset o)
    (set_metadata o) (set_signer_weight o) (set_threshold o) (pay_coin o) (log o) (set_privilege o).
Definition with_pay_asset (c : OperationPayAsset) (o : Operation) : Operation :=
  mkOperation (op_type o) (op_source_address o) (op_metadata o) (create_account o) (issue_asset o) c
    (set_metadata o) (set_signer_weight o) (set_threshold o) (pay_coin o) (log o) (set_privilege o).
Definition with_set_metadata (c : OperationSetMetadata) (o : Operation) : Operation :=
  mkOperation (op_type o) (op_source_address o) (op_metadata o) (create_account o) (issue_asset o)
    (pay_asset o) c (set_signer_weight o) (set_threshold o) (pay_coin o) (log o) (set_privilege o).
Definition with_pay_coin (c : OperationPayCoin) (o : Operation) : Operation :=
  mkOperation (op_type o) (op_source_address o) (op_metadata o) (create_account o) (issue_asset o)
    (pay_asset o) (set_metadata o) (set_signer_weight o) (set_threshold o) c (log o) (set_privilege o).
Definition with_log (c : OperationLog) (o : Operation) : Operation :=
  mkOperation (op_type o) (op_source_address o) (op_metadata o) (create_account o) (issue_asset o)
    (pay_asset o) (set_metadata o) (set_signer_weight o) (set_threshold o) (pay_coin o) c (set_privilege o).

(** ** Transactions *)

Record Transaction := mkTransaction {
  tx_source_address : bytes; tx_nonce : Z; fee_limit : Z; gas_price : Z; ceil_ledger_seq : Z;
  tx_metadata : bytes; operations : list Operation; chain_id : Z }.

Record Signature := mkSignature { public_key : bytes; sign_data : bytes }.

(** The trigger of a transaction that a contract made: hash of the triggering transaction and
    index of its operation. *)
Record TransactionEnv := mkTransactionEnv {
  transaction : Transaction; signatures : list Signature; trigger : option (bytes * Z) }.

Definition with_nonce (n : Z) (t : Transaction) : Transaction :=
  mkTransaction (tx_source_address t) n (fee_limit t) (gas_price t) (ceil_ledger_seq t)
    (tx_metadata t) (operations t) (chain_id t).

(** What is stored of a transaction that a contract triggered. *)
Record TransactionEnvStore := mkEnvStore { store_env : TransactionEnv; error_code : ERRORCODE }.

(** The members of [TransactionFrm] that execution uses; [environment_] is a pointer, and
    [ledger_set] says whether [ledger_] is not null. *)
Record TransactionFrm := mkTransactionFrm {
  transaction_env_ : TransactionEnv; hash_ : bytes; valid_signature_ : gset bytes;
  result_ : Result; environment_ : option nat; ledger_set : bool;
  instructions_ : list TransactionEnvStore; processing_operation_ : Z; actual_gas_ : Z;
  max_end_time_ : Z; contract_step_ : Z; contract_memory_usage_ : Z;
  contract_stack_max_vaule_ : Z; contract_stack_usage_ : Z; enable_check_ : bool }.

(** ** Contracts *)

(** [ContractParameter]; the pointer to the ledger context is left out. *)
Record ContractParameter := mkParameter {
  init_ : bool; code_ : bytes; input_ : bytes; this_address_ : bytes;
  block_number_ : Z; block_timestamp_ : Z;
  cp_tx_initiator_ : bytes; cp_tx_sender_ : bytes; cp_gas_price_ : Z; cp_fee_limit_ : Z; cp_tx_hash_ : bytes;
  msg_initiator_ : bytes; msg_sender_ : bytes; msg_asset_ : option Asset; msg_coin_amount_ : Z;
  msg_operation_index_ : Z; msg_nonce_ : Z }.

(** The calls a script can make to the node, with arguments of the right JavaScript types.
    [InternalCheckTime] is the check that the engine inserts, and [CallBackUtility] one of
    [sha256], [ecVerify] and [toAddress], which count steps and whose answer [v] depends on
    their arguments only.  The functions on 64-bit integers, [assert], [addressCheck] and
    [log] neither read nor change the ledger: they are part of the script. *)
Inductive callback :=
  | CallBackTopicLog (topic : bytes) (datas : list bytes)
  | CallBackCall (dest : bytes) (asset : option AssetKey) (amount input : bytes)
  | CallBackCreate (init_balance code input : bytes)
  | CallBackPayCoin (dest amount input remark : bytes)
  | CallBackIssueAsset (code amount : bytes)
  | CallBackPayAsset (dest issuer code amount input remark : bytes)
  | CallBackStorageStore (key value : bytes)
  | CallBackStorageDel (key : bytes)
  | CallBackDelegateCall (address input : bytes)
  | CallBackConfigFee (json : Json)
  | CallBackSetValidators (json : Json)
  | CallBackGetBalance (address : bytes)
  | CallBackStorageLoad (key : bytes)
  | CallBackGetAccountAsset (address : bytes) (k : AssetKey)
  | CallBackGetAccountMetadata (address key : bytes)
  | CallBackGetContractProperty (address : bytes)
  | CallBackGetBlockHash (back : Z)
  | CallBackGetValidators
  | CallBackContractQuery (address input : bytes)
  | CallBackDelegateQuery (address input : bytes)
  | CallBackUtility (v : Json)
  | InternalCheckTime (used_heap_size remain_stack_size : Z).

(** The script gets a value back, or a JavaScript exception. *)
Inductive answer := Returned (v : Json) | Threw.

(** A run of a script in the V8 engine, as [V8Contract::ExecuteCode] sees it: the main function
    returns a value or ends with an uncaught exception, the script does not compile or load,
    it has no main function, or it calls the node and goes on with the answer. *)
Inductive prog :=
  | Finish (v : Json)
  | Uncaught
  | LoadFailed
  | LostMain
  | Call (c : callback) (k : answer → prog).

(** ** The surroundings of the ledger *)

(** Keys, hashes and encodings, the V8 engine and the clock. *)
Class LedgerHost := {
  IsAddressValid : bytes → bool;
  (* [PublicKey pubkey(s)]: [GetEncAddress] if [IsValid] *)
  pub_address : bytes → option bytes;
  Verify : bytes → bytes → bytes → bool;
  (* [PublicKey::Init] on a raw key, then [GetEncAddress] *)
  raw_address : bytes → bytes;
  Crypto : bytes → bytes;
  SerializeTx : Transaction → bytes;
  ByteSize : TransactionEnv → Z;
  V8_SourceCodeCheck : bytes → ERRORCODE;
  (* the main function of a script, and its query function without the functions that write *)
  v8 : ContractParameter → prog;
  v8_query : ContractParameter → prog;
  (* successive values of [Timestamp::HighResolution()] *)
  clock : nat → Z }.

(** Configuration and the last closed ledger. *)
Record Globals := mkGlobals {
  base_reserve : Z; sys_gas_price : Z; lcl_version : Z; lcl_seq : Z; self_chain_id : Z;
  forbid_addrs_ : list bytes; is_test_mode_ : bool;
  (* [LedgerManager::Validators()] and [LedgerManager::GetValidators] *)
  lcl_validators : list (bytes * Z); GetValidators_at : Z → option (list (bytes * Z));
  (* the hash of the header that [LedgerFrm::LoadFromDb] finds *)
  LedgerHash_at : Z → option bytes;
  db : LedgerDb }.

(** ** Constants of general.h and utils.h *)

Definition METADATA_KEY_MAXSIZE : Z := 1024.
Definition METADATA_MAX_VALUE_SIZE : Z := 256 * 1024.
Definition ASSET_CODE_MAX_SIZE : Z := 64.
Definition CONTRACT_MAX_RECURSIVE_DEPTH : Z := 4.
Definition CONTRACT_CODE_LIMIT : Z := 256 * 1024.
Definition CONTRACT_STEP_LIMIT : Z := 10 * 1024.
Definition CONTRACT_MEMORY_LIMIT : Z := 30 * (1024 * 1024).
Definition CONTRACT_STACK_LIMIT : Z := 256 * 1024.
Definition TX_EXECUTE_TIME_OUT : Z := 1000000.
Definition BLOCK_EXECUTE_TIME_OUT : Z := 5 * 1000000.
Definition TRANSACTION_LIMIT_SIZE : Z := 1024 * 1024.
Definition TRANSACTION_LOG_TOPIC_MAXSIZE : Z := 128.
Definition TRANSACTION_LOG_DATA_MAXSIZE : Z := 1024.
Definition MAX_OPERATIONS_NUM_PER_TRANSACTION : Z := 100.
Definition REWARD_PERIOD : Z := (5 * 365 * 24 * 60 * 60) / 10.
Definition REWARD_INIT_VALUE : Z := 8 * 100000000.

Definition CONTRACT_VALIDATOR_ADDRESS : bytes := str "cegQtxgoaDrVJGtoPT66YnA2S84yE8FbBqQDJ".
Definition CONTRACT_FEE_ADDRESS : bytes := str "cegQiQgRerQM1fUM3GkqUftpNxGzNg2AdJBpe".
Definition RESERVED_CREATOR_ADDRESS : bytes := str "cegQgCBN4MSZMWRfJbksh9PWpKqgY3tSEMM4d".
Definition CONTRACT_DPOS_ADDRESS : bytes := str "cegQqzdS9YSnokDjvzg4YaNatcFQfkgXqk6ss".
Definition RESERVED_ADDRESS4 : bytes := str "cegQcHGxxpPDBcPKys8cD5NY1CAiyAfFBjgtg".
Definition RESERVED_ADDRESS5 : bytes := str "cegQraU2Y5niuYyDdS7FNfJYRrGe8q21RmWc3".
Definition RESERVED_ADDRESS6 : bytes := str "cegQXoma4baahLbAcnZdC7hFqCHoAxbnytYxd".
Definition RESERVED_ADDRESS7 : bytes := str "cegQVpA6eKpuDcNfubXsgG9ihN32psE1jyygm".
Definition RESERVED_ADDRESS8 : bytes := str "cegQa9pRC8B38zd8Z47q97D4X5WwqhMry3VEm".

(** The size of a string, as the code compares it. *)
Definition size (s : bytes) : Z := Z.of_nat (length s).

Section versions.
Context (G : Globals).
Definition CHECK_VERSION_GT_1000 : bool := 1000 <? lcl_version G.
Definition CHECK_VERSION_GT_1001 : bool := 1001 <? lcl_version G.
Definition CHECK_VERSION_GT_1002 : bool := 1002 <? lcl_version G.
Definition GET_CONTRACT_VALIDATOR_ADDRESS : bytes :=
  if CHECK_VERSION_GT_1002 then CONTRACT_DPOS_ADDRESS else CONTRACT_VALIDATOR_ADDRESS.
Definition GET_CONTRACT_FEE_ADDRESS : bytes :=
  if CHECK_VERSION_GT_1002 then CONTRACT_DPOS_ADDRESS else CONTRACT_FEE_ADDRESS.
End versions.
