(* ===== verification/KeyFormat.v ===== *)
(** * Keys and addresses (src/src/common/private_key.cpp)

    The text forms of addresses, public keys and private keys: a prefix, the type of the
    signature, the data and four bytes of a double hash, in base 58 or in hexadecimal.  The
    two hashes and the curves are parameters. *)
From Stdlib Require Import ZArith Lia.
From stdpp Require Import base strings numbers list.
From S2P Require Import Prelude Strings Hex SafeInt AtomMap Account LedgerMsg Base58.
Local Open Scope Z_scope.

(** [SignatureType] is the enumeration, converted from a byte without a check. *)
Definition SIGNTYPE_ED25519 : Z := 1.
Definition SIGNTYPE_CFCASM2 : Z := 2.

Inductive PrivateKeyPrefix := ADDRESS_PREFIX | PUBLICKEY_PREFIX | PRIVATEKEY_PREFIX.

#[global] Instance PrivateKeyPrefix_eq_dec : EqDecision PrivateKeyPrefix.
Proof. solve_decision. Defined.

(** The values of the enumerators. *)
Definition prefix_byte (p : PrivateKeyPrefix) : Z :=
  match p with ADDRESS_PREFIX => 0xa0 | PUBLICKEY_PREFIX => 0xb0 | PRIVATEKEY_PREFIX => 0xc0 end.

Definition ED25519_ADDRESS_LENGTH : nat := 20.
Definition ED25519_PUBLICKEY_LENGTH : nat := 32.
Definition ED25519_PRIVATEKEY_LENGTH : nat := 32.
Definition SM2_ADDRESS_LENGTH : nat := 20.
Definition SM2_PUBLICKEY_LENGTH : nat := 65.
Definition SM2_PRIVATEKEY_LENGTH : nat := 32.

Definition EncodePublicKey (key : bytes) : bytes := BinToHexString key.
Definition DecodePublicKey (key : bytes) : bytes := HexStringToBin key false.
Definition EncodePrivateKey (key : bytes) : bytes := Encode key.

(** [(uint8_t)buff.at(i)], where the size was tested before. *)
Definition byte_at (buff : bytes) (i : nat) : Z := match buff !! i with Some b => uchar b | None => 0 end.

(** [buff.substr(pos, n)]. *)
Definition substr (buff : bytes) (pos n : nat) : bytes := take n (drop pos buff).

Record PublicKey := mkPublicKey { raw_pub_key_ : bytes; key_type_ : Z; valid_ : bool }.
Record PrivateKey := mkPrivateKey { raw_priv_key_ : bytes; priv_type_ : Z; pub_key_ : PublicKey; priv_valid_ : bool }.

Section keys.
(** [utils::Sm3::Crypto] and [utils::Sha256::Crypto], and the public keys of the curves. *)
Context (Sm3 Sha256 : bytes → bytes) (ed25519_publickey sm2_publickey : bytes → bytes).

Definition CalcHash (value : bytes) (sign_type : Z) : bytes :=
  if sign_type =? SIGNTYPE_CFCASM2 then Sm3 value else Sha256 value.

(** The first four bytes of the second hash. *)
Definition checksum (buff : bytes) (sign_type : Z) : bytes := take 4 (CalcHash (CalcHash buff sign_type) sign_type).

(** [None]: the function returns [false]. *)
Definition GetPublicKeyElement (encode_pub_key : bytes) : option (PrivateKeyPrefix * Z * bytes) :=
  let buff := DecodePublicKey encode_pub_key in
  let n := length buff in
  if decide (n < 6)%nat then None else
  if negb (byte_at buff 0 =? prefix_byte PUBLICKEY_PREFIX) then None else
  let sign_type := byte_at buff 1 in
  let datalen := (n - 6)%nat in
  let ret := if sign_type =? SIGNTYPE_ED25519 then bool_decide (ED25519_PUBLICKEY_LENGTH = datalen)
             else if sign_type =? SIGNTYPE_CFCASM2 then bool_decide (SM2_PUBLICKEY_LENGTH = datalen) else false in
  if ret then
    if decide (drop (n - 4) buff = checksum (substr buff 0 (n - 4)) sign_type)
    then Some (PUBLICKEY_PREFIX, sign_type, substr buff 2 (n - 6)) else None
  else None.

Definition GetKeyElement (encode_key : bytes) : option (PrivateKeyPrefix * Z * bytes) :=
  let buff := DecodeAddress encode_key in
  let n := length buff in
  let is_address := bool_decide (n = 27%nat) && (byte_at buff 0 =? 0x01) && (byte_at buff 1 =? 0x56) in
  let is_private := bool_decide (n = 41%nat) && (byte_at buff 0 =? 0xDA) && (byte_at buff 1 =? 0x37) && (byte_at buff 2 =? 0x9F) in
  if is_address || is_private then
    let sign_type := if is_address then byte_at buff 2 else byte_at buff 3 in
    let datalen := if is_address then (n - 7)%nat else (n - 9)%nat in
    let ret :=
      if sign_type =? SIGNTYPE_ED25519 then
        bool_decide ((if is_address then ED25519_ADDRESS_LENGTH else ED25519_PRIVATEKEY_LENGTH) = datalen)
      else if sign_type =? SIGNTYPE_CFCASM2 then
        bool_decide ((if is_address then SM2_ADDRESS_LENGTH else SM2_PRIVATEKEY_LENGTH) = datalen)
      else false in
    if ret then
      if decide (drop (n - 4) buff = checksum (substr buff 0 (n - 4)) sign_type) then
        if is_address then Some (ADDRESS_PREFIX, sign_type, substr buff 3 (n - 7))
        else Some (PRIVATEKEY_PREFIX, sign_type, substr buff 4 (n - 9))
      else None
    else None
  else None.

(** The constructor from a text; what [GetPublicKeyElement] leaves unset is the default. *)
Definition new_PublicKey (encode_pub_key : bytes) : PublicKey :=
  match GetPublicKeyElement encode_pub_key with
  | Some (prefix, sign_type, raw) => mkPublicKey raw sign_type (bool_decide (prefix = PUBLICKEY_PREFIX))
  | None => mkPublicKey [] SIGNTYPE_ED25519 false
  end.

(** [PublicKey::IsAddressValid]. *)
Definition address_valid (encode_address : bytes) : bool :=
  match GetKeyElement encode_address with
  | Some (prefix, _, _) => bool_decide (prefix = ADDRESS_PREFIX)
  | None => false
  end.

(** What [GetEncAddress] encodes. *)
Definition address_data (k : PublicKey) : bytes :=
  [to_char 0x01; to_char 0x56; to_char (key_type_ k)] ++ drop 12 (CalcHash (raw_pub_key_ k) (key_type_ k)).

Definition GetEncAddress (k : PublicKey) : bytes :=
  let str_result := address_data k in EncodeAddress (str_result ++ checksum str_result (key_type_ k)).

Definition GetEncPublicKey (k : PublicKey) : bytes :=
  let str_result := [to_char (prefix_byte PUBLICKEY_PREFIX); to_char (key_type_ k)] ++ raw_pub_key_ k in
  EncodePublicKey (str_result ++ checksum str_result (key_type_ k)).

(** [PrivateKey::From]: the key, or [None] when it returns [false]. *)
Definition PrivateKey_From (encode_private_key : bytes) : option PrivateKey :=
  match GetKeyElement encode_private_key with
  | Some (PRIVATEKEY_PREFIX, sign_type, raw) =>
      let tmp := if sign_type =? SIGNTYPE_ED25519 then ed25519_publickey raw
                 else if sign_type =? SIGNTYPE_CFCASM2 then sm2_publickey raw else [] in
      Some (mkPrivateKey raw sign_type (mkPublicKey tmp sign_type true) true)
  | _ => None
  end.

Definition GetEncPrivateKey (k : PrivateKey) : bytes :=
  let str_result := [to_char 0xDA; to_char 0x37; to_char 0x9F; to_char (priv_type_ k)] ++ raw_priv_key_ k ++ [to_char 0x00] in
  EncodePrivateKey (str_result ++ checksum str_result (priv_type_ k)).

(** ** Theorems *)

Context (Hsm : ∀ x, length (Sm3 x) = 32%nat) (Hsha : ∀ x, length (Sha256 x) = 32%nat).

Definition known_type (t : Z) : Prop := t = SIGNTYPE_ED25519 ∨ t = SIGNTYPE_CFCASM2.

Lemma length_CalcHash x t : length (CalcHash x t) = 32%nat.
Proof. unfold CalcHash. by destruct (t =? _). Qed.

Lemma length_checksum x t : length (checksum x t) = 4%nat.
Proof. unfold checksum. rewrite length_take, length_CalcHash. done. Qed.

(** The checksum at the end of a buffer, and the data before it. *)
Lemma checksum_split x t n : length x = n →
  let buff := x ++ checksum x t in
  length buff = (n + 4)%nat ∧ drop (n + 4 - 4) buff = checksum (substr buff 0 (n + 4 - 4)) t ∧
  ∀ pos k, (pos + k ≤ n)%nat → substr buff pos k = take k (drop pos x).
Proof.
  intros Hx buff. unfold buff, substr. rewrite length_app, length_checksum, Hx, Nat.add_sub, drop_0.
  rewrite take_app_length', drop_app_length' by done. split_and!; [done..|].
  intros pos k Hk. rewrite drop_app_le, take_app_le; rewrite ?length_drop; done || lia.
Qed.

Lemma DecodeAddress_Encode s : Z.of_nat (length s) ≤ 2 ^ 23 → DecodeAddress (Encode s) = s.
Proof. intros Hs. unfold DecodeAddress. by rewrite Decode_Encode. Qed.

Lemma known_type_byte t : known_type t → uchar (to_char t) = t.
Proof. by intros [->| ->]. Qed.

Lemma length_address_data k : length (address_data k) = 23%nat.
Proof. unfold address_data. rewrite length_app, length_drop, length_CalcHash. done. Qed.

Lemma DecodeAddress_GetEncAddress k :
  DecodeAddress (GetEncAddress k) = address_data k ++ checksum (address_data k) (key_type_ k).
Proof.
  unfold GetEncAddress, EncodeAddress. apply DecodeAddress_Encode.
  rewrite length_app, length_checksum, length_address_data. vm_compute. discriminate.
Qed.

(** What [GetKeyElement] reads from an address depends only on the decoded bytes. *)
Lemma GetKeyElement_decoded a b : DecodeAddress a = DecodeAddress b → GetKeyElement a = GetKeyElement b.
Proof. intros E. unfold GetKeyElement. by rewrite E. Qed.

Lemma GetKeyElement_address k : known_type (key_type_ k) →
  GetKeyElement (GetEncAddress k) = Some (ADDRESS_PREFIX, key_type_ k, drop 12 (CalcHash (raw_pub_key_ k) (key_type_ k))).
Proof.
  intros Ht. unfold GetKeyElement. rewrite DecodeAddress_GetEncAddress.
  destruct (checksum_split (address_data k) (key_type_ k) 23 (length_address_data k)) as (En & Ec & Es).
  set (buff := address_data k ++ _) in *. rewrite En.
  assert (byte_at buff 0 = 0x01 ∧ byte_at buff 1 = 0x56 ∧ byte_at buff 2 = key_type_ k) as (-> & -> & ->).
  { split_and!; [done..|]. exact (known_type_byte _ Ht). }
  rewrite bool_decide_true by done. cbn [andb orb Z.eqb Pos.eqb]. rewrite decide_True by exact Ec.
  rewrite Es by lia.
  assert (take (23 + 4 - 7) (drop 3 (address_data k)) = drop 12 (CalcHash (raw_pub_key_ k) (key_type_ k))) as ->.
  { unfold address_data. cbn [app drop]. apply take_ge. rewrite length_drop, length_CalcHash. lia. }
  destruct Ht as [-> | ->]; done.
Qed.

Lemma GetPublicKeyElement_enc k :
  known_type (key_type_ k) → length (raw_pub_key_ k) = (if key_type_ k =? SIGNTYPE_ED25519 then ED25519_PUBLICKEY_LENGTH else SM2_PUBLICKEY_LENGTH) →
  GetPublicKeyElement (GetEncPublicKey k) = Some (PUBLICKEY_PREFIX, key_type_ k, raw_pub_key_ k).
Proof.
  intros Ht Hl. unfold GetPublicKeyElement, GetEncPublicKey, EncodePublicKey, DecodePublicKey.
  set (x := [to_char (prefix_byte PUBLICKEY_PREFIX); to_char (key_type_ k)] ++ raw_pub_key_ k).
  assert (HexStringToBin (BinToHexString (x ++ checksum x (key_type_ k))) false = x ++ checksum x (key_type_ k)) as ->.
  { unfold HexStringToBin. rewrite hex_pairs_print. rewrite bool_decide_false, bool_decide_false; [done|done|].
    rewrite BinToHexString_length, Nat.mul_comm, Nat.Div0.mod_mul. by intros []. }
  destruct (checksum_split x (key_type_ k) (length x) eq_refl) as (En & Ec & Es).
  set (buff := x ++ _) in *. rewrite En.
  assert (length x = S (S (length (raw_pub_key_ k)))) as Ex by done.
  rewrite decide_False by lia.
  assert (byte_at buff 0 = 0xb0 ∧ byte_at buff 1 = key_type_ k) as (-> & ->).
  { split; [done|]. exact (known_type_byte _ Ht). }
  cbn [negb Z.eqb Pos.eqb prefix_byte]. rewrite decide_True by exact Ec. rewrite Es by lia.
  assert (take (length x + 4 - 6) (drop 2 x) = raw_pub_key_ k) as ->.
  { change (drop 2 x) with (raw_pub_key_ k). apply take_ge. lia. }
  assert (length x + 4 - 6 = length (raw_pub_key_ k))%nat as -> by lia.
  destruct Ht as [E|E]; rewrite E in *; cbn in Hl |- *; by rewrite Hl.
Qed.

Lemma GetKeyElement_private k :
  known_type (priv_type_ k) → length (raw_priv_key_ k) = 32%nat →
  GetKeyElement (GetEncPrivateKey k) = Some (PRIVATEKEY_PREFIX, priv_type_ k, raw_priv_key_ k).
Proof.
  intros Ht Hl. unfold GetKeyElement, GetEncPrivateKey, EncodePrivateKey.
  set (x := [_; _; _; _] ++ raw_priv_key_ k ++ [_]).
  assert (length x = 37%nat) as Hx by (unfold x; rewrite !length_app, Hl; done).
  destruct (checksum_split x (priv_type_ k) 37 Hx) as (En & Ec & Es).
  rewrite DecodeAddress_Encode by (rewrite En; vm_compute; discriminate).
  set (buff := x ++ _) in *. rewrite En.
  assert (byte_at buff 0 = 0xDA ∧ byte_at buff 1 = 0x37 ∧ byte_at buff 2 = 0x9F ∧ byte_at buff 3 = priv_type_ k) as (-> & -> & -> & ->).
  { split_and!; [done..|]. exact (known_type_byte _ Ht). }
  rewrite bool_decide_false by done. rewrite bool_decide_true by done. cbn [andb orb Z.eqb Pos.eqb].
  rewrite decide_True by exact Ec. rewrite Es by lia.
  assert (take (37 + 4 - 9) (drop 4 x) = raw_priv_key_ k) as ->.
  { change (drop 4 x) with (raw_priv_key_ k ++ [to_char 0x00]). rewrite take_app_le, take_ge; rewrite ?Hl; done || lia. }
  destruct Ht as [-> | ->]; done.
Qed.

(** *** The first characters of an address *)

(** The text of 27 bytes [01 56 01 ..] has 36 digits, the first of them [buQ]. *)
Lemma Encode_buQ rest : length rest = 24%nat →
  ∃ q, Encode ([to_char 0x01; to_char 0x56; to_char 1] ++ rest) = str "buQ" ++ q ∧
    Forall (.∈ kBase58Dictionary) q ∧ length q = 33%nat.
Proof.
  intros Hr. set (s := _ ++ rest). destruct (Encode_digits s) as (ds & E & Hd & Hn & Hv).
  change (leading (to_char 0) s) with 0%nat in E, Hv. rewrite drop_0 in Hv. cbn [replicate app] in E.
  assert (value 256 (uchar <$> s) = 0x015601 * 256 ^ 24 + value 256 (uchar <$> rest)) as Ev.
  { unfold s. rewrite fmap_app, value_app, length_fmap, Hr. reflexivity. }
  pose proof (value_bound 256 (uchar <$> rest) ltac:(lia) (uchar_digits _)) as Hb. rewrite length_fmap, Hr in Hb.
  set (v := value 256 (uchar <$> s)) in *. set (c := 10 * 58 ^ 2 + 27 * 58 + 23).
  assert (c * 58 ^ 33 ≤ 0x015601 * 256 ^ 24 ∧ 0x015601 * 256 ^ 24 + 256 ^ 24 ≤ (c + 1) * 58 ^ 33) as [H1 H2]
    by (split; vm_compute; discriminate).
  change (256 ^ Z.of_nat 24) with (256 ^ 24) in Hb.
  assert (c * 58 ^ 33 ≤ v < (c + 1) * 58 ^ 33) as Hc by lia. clear H1 H2 Hb Ev.
  assert (length ds = 36%nat) as Hl.
  { assert (ds ≠ []) as Hne 
    by (intros ->; change (value 58 []) with 0 in Hv; assert (0 < c * 58 ^ 33) by (vm_compute; reflexivity); lia).
    pose proof (no_lead_value 58 ds ltac:(lia) Hd Hn Hne) as L1. pose proof (value_bound 58 ds ltac:(lia) Hd) as [_ L2].
    assert (58 ^ 35 ≤ c * 58 ^ 33) as L3 by (vm_compute; discriminate).
    assert ((c + 1) * 58 ^ 33 ≤ 58 ^ 36) as L4 by (vm_compute; discriminate).
    assert (58 ^ 35 < 58 ^ Z.of_nat (length ds)) as L5 by lia.
    assert (58 ^ (Z.of_nat (length ds) - 1) < 58 ^ 36) as L6 by lia.
    apply Z.pow_lt_mono_r_iff in L5; [|lia..]. apply Z.pow_lt_mono_r_iff in L6; [|lia..]. lia. }
  assert (take 3 ds = [10; 27; 23]) as H3.
  { apply (value_inj_len 58); [lia|by apply Forall_take|by repeat constructor|rewrite length_take, Hl; done|].
    assert (value 58 ds = value 58 (take 3 ds) * 58 ^ 33 + value 58 (drop 3 ds)) as Es.
    { rewrite <- (take_drop 3 ds) at 1. rewrite value_app, length_drop, Hl. reflexivity. }
    pose proof (value_bound 58 (drop 3 ds) ltac:(lia) ltac:(by apply Forall_drop)) as Hb. rewrite length_drop, Hl in Hb.
    change (58 ^ Z.of_nat (36 - 3)) with (58 ^ 33) in Hb. change (value 58 [10; 27; 23]) with c.
    assert (0 < 58 ^ 33) by (by vm_compute). set (w := 58 ^ 33) in *. set (x := value 58 (take 3 ds)) in *. nia. }
  exists (digit_char <$> drop 3 ds). rewrite E. split_and!.
  - rewrite <- (take_drop 3 ds) at 1. rewrite fmap_app, H3. reflexivity.
  - apply Forall_fmap, Forall_drop. eapply list.Forall_impl; [exact Hd|]. intros d Hdd. simpl in *. unfold digit_char.
    apply list_elem_of_lookup_total_2. change (length kBase58Dictionary) with 58%nat. lia.
  - rewrite length_fmap, length_drop, Hl. done.
Qed.

Lemma GetEncAddress_spelled k : spelled (GetEncAddress k).
Proof. unfold spelled. rewrite DecodeAddress_GetEncAddress. reflexivity. Qed.

(** C28: Keys and addresses are read back.  For both kinds of keys, the text of a public key and
    of a private key reads back as that key, and the text of its address is a valid address,
    in the spelling that encoding gives, of 27 bytes. *)
Theorem key_texts_roundtrip (k : PublicKey) (p : PrivateKey) :
  known_type (key_type_ k) → known_type (priv_type_ p) → length (raw_priv_key_ p) = 32%nat →
  length (raw_pub_key_ k) = (if key_type_ k =? SIGNTYPE_ED25519 then ED25519_PUBLICKEY_LENGTH else SM2_PUBLICKEY_LENGTH) →
  new_PublicKey (GetEncPublicKey k) = mkPublicKey (raw_pub_key_ k) (key_type_ k) true ∧
  (∃ p', PrivateKey_From (GetEncPrivateKey p) = Some p' ∧ raw_priv_key_ p' = raw_priv_key_ p ∧ priv_type_ p' = priv_type_ p) ∧
  address_valid (GetEncAddress k) = true ∧ spelled (GetEncAddress k) ∧ length (DecodeAddress (GetEncAddress k)) = 27%nat.
Proof.
  intros Hk Hp Hlp Hlk. split_and!.
  - unfold new_PublicKey. by rewrite GetPublicKeyElement_enc.
  - unfold PrivateKey_From. rewrite GetKeyElement_private by done. eauto.
  - unfold address_valid. by rewrite GetKeyElement_address.
  - apply GetEncAddress_spelled.
  - by rewrite DecodeAddress_GetEncAddress, length_app, length_checksum, length_address_data.
Qed.

(** An address has other spellings that are accepted.  The address of an ed25519 key is
    [buQ] and 33 more characters; [bQ], any ASCII character outside of the alphabet, and the
    same 33 characters are accepted as an address and decode to the same bytes, the index of
    the same account on disk. *)
Theorem address_has_alias (k : PublicKey) (x : byte) :
  key_type_ k = SIGNTYPE_ED25519 → char_digit x = Ok 255 →
  ∃ q, GetEncAddress k = str "buQ" ++ q ∧ GetEncAddress k ≠ str "bQ" ++ x :: q ∧
    address_valid (str "bQ" ++ x :: q) = true ∧ DecodeAddress (str "bQ" ++ x :: q) = DecodeAddress (GetEncAddress k).
Proof.
  intros Ht Hx.
  destruct (Encode_buQ (drop 12 (CalcHash (raw_pub_key_ k) (key_type_ k)) ++ checksum (address_data k) (key_type_ k)))
    as (q & Eq & Hq & Hl).
  { by rewrite length_app, length_drop, length_CalcHash, length_checksum. }
  assert (GetEncAddress k = str "buQ" ++ q) as Ea.
  { unfold GetEncAddress, EncodeAddress. rewrite <- Eq. unfold address_data. by rewrite Ht. }
  assert (Decode (str "buQ" ++ q) = Decode (str "bQ" ++ x :: q)) as Ed.
  { apply (Decode_alias (str "b") q 27 x); [lia|done|by left| |done|cbn [length]; rewrite Hl; vm_compute; discriminate].
    constructor; [|constructor]. exact (bool_decide_unpack (str "b" !!! 0%nat ∈ kBase58Dictionary) I). }
  assert (DecodeAddress (str "bQ" ++ x :: q) = DecodeAddress (GetEncAddress k)) as E by (unfold DecodeAddress; by rewrite Ea, Ed).
  exists q. split_and!; [done| |by unfold address_valid; rewrite (GetKeyElement_decoded _ _ E), GetKeyElement_address by (by left)|done].
  rewrite Ea. intros [=].
Qed.

(** The addresses of the system contracts and the reserved addresses of general.cpp. *)
Definition system_addresses : list bytes :=
  [CONTRACT_VALIDATOR_ADDRESS; CONTRACT_FEE_ADDRESS; RESERVED_CREATOR_ADDRESS; CONTRACT_DPOS_ADDRESS; RESERVED_ADDRESS4;
   RESERVED_ADDRESS5; RESERVED_ADDRESS6; RESERVED_ADDRESS7; RESERVED_ADDRESS8].

(** The addresses of the system contracts are not addresses.  Whatever the hash functions,
    each address constant of general.cpp is rejected by [IsAddressValid] (it decodes to 28
    bytes), and no key has it as its address. *)
Theorem system_addresses_invalid a :
  a ∈ system_addresses → address_valid a = false ∧ ∀ k, known_type (key_type_ k) → GetEncAddress k ≠ a.
Proof.
  intros Ha.
  assert (length (DecodeAddress a) = 28%nat) as Hl.
  { revert a Ha. apply list.Forall_forall. repeat (constructor; [vm_compute; reflexivity|]). constructor. }
  assert (address_valid a = false) as Hv.
  { unfold address_valid, GetKeyElement. rewrite Hl. rewrite !bool_decide_false by done. done. }
  split; [done|]. intros k Hk <-. unfold address_valid in Hv. by rewrite GetKeyElement_address in Hv.
Qed.
End keys.

(** ** Witnesses *)

Definition toy_hash (x : bytes) : bytes := take 32 (x ++ replicate 32 Init.Byte.x2a).

Lemma length_toy_hash x : length (toy_hash x) = 32%nat.
Proof. unfold toy_hash. rewrite length_take, length_app, length_replicate. lia. Qed.

Definition toy_key : PublicKey := mkPublicKey (replicate 32 Init.Byte.x07) SIGNTYPE_ED25519 true.
Definition toy_private : PrivateKey := mkPrivateKey (replicate 32 Init.Byte.x09) SIGNTYPE_CFCASM2 toy_key true.

Lemma key_texts_roundtrip_witness :
  new_PublicKey toy_hash toy_hash (GetEncPublicKey toy_hash toy_hash toy_key) = toy_key ∧
  address_valid toy_hash toy_hash (GetEncAddress toy_hash toy_hash toy_key) = true.
Proof.
  destruct (key_texts_roundtrip toy_hash toy_hash id id length_toy_hash length_toy_hash toy_key toy_private)
    as (H1 & _ & H2 & _); [left; reflexivity|right; reflexivity|reflexivity|reflexivity|]. split; [exact H1|exact H2].
Defined.

Lemma address_has_alias_witness :
  ∃ q, GetEncAddress toy_hash toy_hash toy_key = str "buQ" ++ q ∧
    address_valid toy_hash toy_hash (str "bQ0" ++ q) = true.
Proof.
  destruct (address_has_alias toy_hash toy_hash length_toy_hash length_toy_hash toy_key Init.Byte.x30) as (q & H1 & _ & H2 & _);
    [reflexivity|vm_compute; reflexivity|]. exists q. split; [exact H1|exact H2].
Defined.

Lemma system_addresses_invalid_witness :
  CONTRACT_DPOS_ADDRESS ∈ system_addresses ∧ address_valid toy_hash toy_hash CONTRACT_DPOS_ADDRESS = false.
Proof.
  assert (CONTRACT_DPOS_ADDRESS ∈ system_addresses) as H by (do 3 right; left).
  split; [exact H|]. apply (system_addresses_invalid toy_hash toy_hash length_toy_hash length_toy_hash CONTRACT_DPOS_ADDRESS H).
Defined.
