(* ===== verification/Environment.v ===== *)
(** * The ledger context and its environments (src/src/ledger/environment.cpp)

    [Ctx] is the state that the execution of a block shares: the [Environment] objects, the
    [TransactionFrm] objects, the stack of running transactions of the [LedgerContext], and
    the clock.  Pointers to environments and transactions are indices.

    An environment is an [AtomMap] of accounts and one of settings.  Its [buff_] and
    [*data_] are layers in the sense of [AtomMap]: [data_] points to the map of the object
    itself, or to the [buff_] of the environment it is a frame of.  The members below are
    [spec_get], [spec_put], [spec_commit] and [spec_clear] of that file on the two layers;
    [AtomMap] proves that this is what the code with shared pointers does. *)
From stdpp Require Import base gmap list strings.
From Stdlib Require Import ZArith Lia.
From S2P Require Import Prelude SafeInt Strings Base58 AtomMap Account LedgerMsg.
Local Open Scope Z_scope.

(** [data_]. *)
Inductive data_ptr (V : Type) := Own (m : layer V) | BuffOf (e : nat).
Arguments Own {V} m.
Arguments BuffOf {V} e.

Record Environment := mkEnvironment {
  buff_ : layer AccountFrm; data_ : data_ptr AccountFrm;
  settings_buff_ : layer Json; settings_data_ : data_ptr Json }.

(** [seq_] and [close_time_] are those of the value being executed. *)
Record Ctx := mkCtx {
  envs : list Environment; txs : list TransactionFrm; transaction_stack_ : list nat;
  tick : nat; seq_ : Z; close_time_ : Z }.

(** ** A state and fault monad *)

Definition M (A : Type) : Type := Ctx → res (Ctx * A).

#[global] Instance M_ret : MRet M := λ A a c, Ok (c, a).
#[global] Instance M_bind : MBind M :=
  λ A B f m c, match m c with Ok (c, a) => f a c | Err e => Err e end.

Definition fault_ {A} (e : fault) : M A := λ _, Err e.
Definition get_ctx : M Ctx := λ c, Ok (c, c).
Definition modify (f : Ctx → Ctx) : M unit := λ c, Ok (f c, tt).
Definition lift_res {A} (r : res A) : M A := λ c, match r with Ok a => Ok (c, a) | Err e => Err e end.

(** ** Environments and transactions in the context *)

Definition with_envs (f : list Environment → list Environment) (c : Ctx) : Ctx :=
  mkCtx (f (envs c)) (txs c) (transaction_stack_ c) (tick c) (seq_ c) (close_time_ c).
Definition with_txs (f : list TransactionFrm → list TransactionFrm) (c : Ctx) : Ctx :=
  mkCtx (envs c) (f (txs c)) (transaction_stack_ c) (tick c) (seq_ c) (close_time_ c).
Definition with_stack (f : list nat → list nat) (c : Ctx) : Ctx :=
  mkCtx (envs c) (txs c) (f (transaction_stack_ c)) (tick c) (seq_ c) (close_time_ c).

Definition set_buff (b : layer AccountFrm) (v : Environment) : Environment :=
  mkEnvironment b (data_ v) (settings_buff_ v) (settings_data_ v).
Definition set_data (d : layer AccountFrm) (v : Environment) : Environment :=
  mkEnvironment (buff_ v) (Own d) (settings_buff_ v) (settings_data_ v).
Definition set_settings_buff (b : layer Json) (v : Environment) : Environment :=
  mkEnvironment (buff_ v) (data_ v) b (settings_data_ v).
Definition set_settings_data (d : layer Json) (v : Environment) : Environment :=
  mkEnvironment (buff_ v) (data_ v) (settings_buff_ v) (Own d).

Definition get_env (e : nat) : M Environment := λ c,
  match envs c !! e with Some v => Ok (c, v) | None => Err NullDeref end.
Definition upd_env (e : nat) (f : Environment → Environment) : M unit :=
  modify (with_envs (alter f e)).

(** [*data_]. *)
Definition get_data (v : Environment) : M (layer AccountFrm) :=
  match data_ v with Own d => mret d | BuffOf p => w ← get_env p; mret (buff_ w) end.
Definition put_data (e : nat) (v : Environment) (d : layer AccountFrm) : M unit :=
  match data_ v with Own _ => upd_env e (set_data d) | BuffOf p => upd_env p (set_buff d) end.
Definition get_settings_data (v : Environment) : M (layer Json) :=
  match settings_data_ v with Own d => mret d | BuffOf p => w ← get_env p; mret (settings_buff_ w) end.
Definition put_settings_data (e : nat) (v : Environment) (d : layer Json) : M unit :=
  match settings_data_ v with
  | Own _ => upd_env e (set_settings_data d)
  | BuffOf p => upd_env p (set_settings_buff d)
  end.

Definition get_tx (t : nat) : M TransactionFrm := λ c,
  match txs c !! t with Some v => Ok (c, v) | None => Err NullDeref end.
Definition upd_tx (t : nat) (f : TransactionFrm → TransactionFrm) : M unit :=
  modify (with_txs (alter f t)).
Definition new_tx (v : TransactionFrm) : M nat := λ c,
  Ok (with_txs (λ l, l ++ [v]) c, length (txs c)).

(** [transaction_stack_.front()] and [transaction_stack_.back()]. *)
Definition GetBottomTx : M nat := λ c,
  match transaction_stack_ c with t :: _ => Ok (c, t) | [] => Err NullDeref end.
Definition GetTopTx : M nat := λ c,
  match last (transaction_stack_ c) with Some t => Ok (c, t) | None => Err NullDeref end.
Definition push_tx (t : nat) : M unit := modify (with_stack (λ l, l ++ [t])).
Definition pop_tx : M unit := modify (with_stack (λ l, take (length l - 1) l)).

Section environment.
Context {LH : LedgerHost} (G : Globals).

(** [Timestamp::HighResolution()]. *)
Definition HighResolution : M Z := λ c,
  Ok (mkCtx (envs c) (txs c) (transaction_stack_ c) (S (tick c)) (seq_ c) (close_time_ c), clock (tick c)).

(** The tree of accounts; its key is the decoded address. *)
Definition AccountFromDB (addr : bytes) : option AccountFrm :=
  new_AccountFrm <$> (db_account (db G) !! DecodeAddress addr).

(** ** The members of [Environment] *)

(** [std::make_shared<Environment>()]. *)
Definition new_Environment : Environment := mkEnvironment ∅ (Own ∅) ∅ (Own ∅).

Definition GetEntry (e : nat) (k : bytes) : M (option AccountFrm) :=
  v ← get_env e; d ← get_data v;
  match spec_get AccountFromDB [buff_ v; d] k with
  | (b :: _, o) => upd_env e (set_buff b);; mret o
  | (_, o) => mret o
  end.

Definition AddEntry (e : nat) (k : bytes) (a : AccountFrm) : M unit :=
  upd_env e (λ v, set_buff (<[k := Some a]> (buff_ v)) v).

(** A read and an assignment through the pointer that [GetEntry] returned, which is the
    pointer of [buff_]. *)
Definition deref_entry (e : nat) (k : bytes) : M AccountFrm :=
  o ← GetEntry e k; match o with Some a => mret a | None => fault_ NullDeref end.
Definition assign_entry (e : nat) (k : bytes) (a : AccountFrm) : M unit := AddEntry e k a.

Definition Environment_Commit (e : nat) : M unit :=
  v ← get_env e; sd ← get_settings_data v; d ← get_data v;
  match spec_commit [settings_buff_ v; sd], spec_commit [buff_ v; d] with
  | [sb; sd], [b; d] =>
      upd_env e (set_settings_buff sb);; put_settings_data e v sd;;
      upd_env e (set_buff b);; put_data e v d
  | _, _ => mret tt
  end.

Definition Environment_ClearChangeBuf (e : nat) : M unit :=
  upd_env e (set_settings_buff ∅);; upd_env e (set_buff ∅).

Definition NewStackFrameEnv (e : nat) : M nat := λ c,
  Ok (with_envs (λ l, l ++ [mkEnvironment ∅ (BuffOf e) ∅ (BuffOf e)]) c, length (envs c)).

(** ** Settings *)

Definition validatorsKey : bytes := str "validators".
Definition feesKey : bytes := str "configFees".

Definition GetSetting (e : nat) (k : bytes) : M (option Json) :=
  v ← get_env e; d ← get_settings_data v;
  match spec_get (λ _, None) [settings_buff_ v; d] k with
  | (b :: _, o) => upd_env e (set_settings_buff b);; mret o
  | (_, o) => mret o
  end.

Definition SetSetting (e : nat) (k : bytes) (j : Json) : M unit :=
  upd_env e (λ v, set_settings_buff (<[k := Some j]> (settings_buff_ v)) v).

(** [obj[name] = value]. *)
Fixpoint json_set (name : bytes) (j : Json) (m : list (bytes * Json)) : list (bytes * Json) :=
  match m with
  | [] => [(name, j)]
  | (n, i) :: m => if decide (n = name) then (n, j) :: m else (n, i) :: json_set name j m
  end.

Definition json_members (j : Json) : list (bytes * Json) := match j with JObject m => m | _ => [] end.

Definition json_update (fees feeConfig : Json) : Json :=
  foldl (λ f nj, JObject (json_set nj.1 nj.2 (json_members f))) fees (json_members feeConfig).

Definition UpdateFeeConfig (e : nat) (feeConfig : Json) : M unit :=
  fees ← GetSetting e feesKey;
  match fees with
  | None => SetSetting e feesKey feeConfig
  | Some fees => SetSetting e feesKey (json_update fees feeConfig)
  end.

Definition UpdateNewValidators (e : nat) (validators : Json) : M unit :=
  SetSetting e validatorsKey validators.

(** The validators of the last closed ledger are the default. *)
Definition GetValidators (e : nat) : M Json :=
  validators ← GetSetting e validatorsKey;
  match validators with
  | Some j => mret j
  | None =>
      let j := JArray ((λ v, JArray [JString v.1; JString (ToString v.2)]) <$> lcl_validators G) in
      SetSetting e validatorsKey j;; mret j
  end.
End environment.
