(* ===== verification/Operation.v ===== *)
(** * Operations (src/src/ledger/operation_frm.cpp, fee_calculate.cpp)

    [op_CheckValid] is [OperationFrm::CheckValid] with its two helpers; the members that
    apply an operation run in the context, with the execution of contracts as an argument:
    [Contract] closes the recursion. *)
From stdpp Require Import base gmap list strings.
From Stdlib Require Import ZArith Lia.
From S2P Require Import Prelude SafeInt Strings Hex Base58 AtomMap Account LedgerMsg Environment.
Local Open Scope Z_scope.

(** ** Gas *)

Definition GetOperationTypeGas (o : Operation) : Z :=
  if op_type o =? CREATE_ACCOUNT then
    if decide (ca_payload (create_account o) = []) then 0 else 1000000
  else if op_type o =? ISSUE_ASSET then 5000000
  else 0.

Section check.
Context {LH : LedgerHost} (G : Globals).

(** [ContractManager::SourceCodeCheck] at [Contract::TYPE_V8]. *)
Definition SourceCodeCheck (src : bytes) (ldcontext_stack_size : Z) : ERRORCODE :=
  if CHECK_VERSION_GT_1001 G && (CONTRACT_MAX_RECURSIVE_DEPTH <? ldcontext_stack_size)
  then ERRCODE_CONTRACT_TOO_MANY_RECURSION
  else V8_SourceCodeCheck src.

Definition isReservedAddress (addr : bytes) : bool :=
  bool_decide (addr ∈ [CONTRACT_DPOS_ADDRESS; RESERVED_ADDRESS4; RESERVED_ADDRESS5;
                       RESERVED_ADDRESS6; RESERVED_ADDRESS7; RESERVED_ADDRESS8]).

Definition ReservedAddrAvailable (src dest : bytes) : bool :=
  negb (isReservedAddress dest && bool_decide (src ≠ RESERVED_CREATOR_ADDRESS) &&
        bool_decide (AccountFromDB G dest = None)).

Definition weight_ok (w : Z) : bool := (0 <=? w) && (w <=? UINT32_MAX).

(** The loop over the signers; [own] is the address that may not be among them and [seen]
    is [duplicate_set]. *)
Fixpoint check_signers (own : bytes) (dup : bool) (l : list Signer) (seen : gset bytes) : ERRORCODE :=
  match l with
  | [] => ERRCODE_SUCCESS
  | s :: l =>
      if negb (weight_ok (weight s)) then ERRCODE_WEIGHT_NOT_VALID
      else if decide (signer_address s = own) then ERRCODE_INVALID_ADDRESS
      else if negb (IsAddressValid (signer_address s)) then ERRCODE_INVALID_ADDRESS
      else if dup && bool_decide (signer_address s ∈ seen) then ERRCODE_INVALID_PARAMETER
      else check_signers own dup l ({[ signer_address s ]} ∪ seen)
  end.

(** The loop over the thresholds of operation types; [bad] is the code for a type out of
    range and [seen] is [duplicate_type]. *)
Fixpoint check_types (bad : ERRORCODE) (dup : bool) (l : list OperationTypeThreshold) (seen : gset Z) : ERRORCODE :=
  match l with
  | [] => ERRCODE_SUCCESS
  | t :: l =>
      if (100 <? threshold_type t) || (threshold_type t <=? 0) then bad
      else if threshold t <? 0 then ERRCODE_THRESHOLD_NOT_VALID
      else if dup && bool_decide (threshold_type t ∈ seen) then ERRCODE_INVALID_PARAMETER
      else check_types bad dup l ({[ threshold_type t ]} ∪ seen)
  end.

(** The loop over the metadata, which does not stop at an error. *)
Definition check_metadatas (l : list KeyPair) (result : ERRORCODE) : ERRORCODE :=
  foldl (λ r kp,
    let r := if (size (key kp) =? 0) || (METADATA_KEY_MAXSIZE <? size (key kp))
             then ERRCODE_INVALID_PARAMETER else r in
    if METADATA_MAX_VALUE_SIZE <? size (value kp) then ERRCODE_INVALID_PARAMETER else r) result l.

(** [{master_weight: w, thresholds: {tx_threshold: 1}}]. *)
Definition plain_priv (w : Z) (p : AccountPrivilege) : bool :=
  (master_weight p =? w) && bool_decide (signers p = []) &&
  (tx_threshold (thresholds_of p) =? 1) && bool_decide (type_thresholds (thresholds_of p) = []).

Definition CheckCreateAccountGt1000 (ca : OperationCreateAccount) (stack_size : Z) : ERRORCODE :=
  let is_create_contract := bool_decide (ca_payload ca ≠ []) in
  let dest_address := ca_dest_address ca in
  let has_dest_address := bool_decide (dest_address ≠ []) in
  let unimportant_address := bool_decide (dest_address ≠ GET_CONTRACT_VALIDATOR_ADDRESS G) &&
                             bool_decide (dest_address ≠ GET_CONTRACT_FEE_ADDRESS G) in
  if is_create_contract && has_dest_address && unimportant_address then ERRCODE_INVALID_ADDRESS
  else if negb is_create_contract && negb (IsAddressValid dest_address) then ERRCODE_INVALID_ADDRESS
  else match ca_priv ca with
  | None => ERRCODE_INVALID_PARAMETER
  | Some p =>
      if negb (weight_ok (master_weight p)) then ERRCODE_WEIGHT_NOT_VALID
      else match thresholds p with
      | None => ERRCODE_INVALID_PARAMETER
      | Some th =>
          if tx_threshold th <? 0 then ERRCODE_THRESHOLD_NOT_VALID
          else
            let result := check_types ERRCODE_INVALID_PARAMETER true (type_thresholds th) ∅ in
            if is_create_contract then
              if CONTRACT_CODE_LIMIT <? size (ca_payload ca) then ERRCODE_INVALID_PARAMETER
              else if negb (plain_priv 0 p) then ERRCODE_INVALID_PARAMETER
              else check_metadatas (ca_metadatas ca) (SourceCodeCheck (ca_payload ca) stack_size)
            else if negb (plain_priv 1 p) then ERRCODE_INVALID_PARAMETER
            else check_metadatas (ca_metadatas ca) result
      end
  end.

(** The check of a new account up to version 1000. *)
Definition CheckCreateAccount1000 (ca : OperationCreateAccount) (source_address : bytes) (stack_size : Z) : ERRORCODE :=
  if negb (IsAddressValid (ca_dest_address ca)) then ERRCODE_INVALID_ADDRESS
  else if negb (ReservedAddrAvailable source_address (ca_dest_address ca)) then ERRCODE_INVALID_ADDRESS
  else match ca_priv ca with
  | None => ERRCODE_INVALID_PARAMETER
  | Some p =>
      if negb (weight_ok (master_weight p)) then ERRCODE_WEIGHT_NOT_VALID
      else
        let result := check_signers (ca_dest_address ca) true (signers p) ∅ in
        if decide (result ≠ ERRCODE_SUCCESS) then result
        else match thresholds p with
        | None => ERRCODE_INVALID_PARAMETER
        | Some th =>
            if tx_threshold th <? 0 then ERRCODE_THRESHOLD_NOT_VALID
            else
              let result := check_types ERRCODE_INVALID_PARAMETER true (type_thresholds th) ∅ in
              if decide (ca_payload ca = []) then check_metadatas (ca_metadatas ca) result
              else if CONTRACT_CODE_LIMIT <? size (ca_payload ca) then ERRCODE_INVALID_PARAMETER
              else if negb (plain_priv 0 p) then ERRCODE_INVALID_PARAMETER
              else check_metadatas (ca_metadatas ca) (SourceCodeCheck (ca_payload ca) stack_size)
        end
  end.

Definition CheckSetPrivilege (sp : OperationSetPrivilege) (source_address : bytes) : ERRORCODE :=
  if bool_decide (sp_master_weight sp ≠ []) &&
     negb (match SafeStoi64 (sp_master_weight sp) with Some w => weight_ok w | None => false end)
  then ERRCODE_WEIGHT_NOT_VALID
  else
    let result := check_signers source_address true (sp_signers sp) ∅ in
    if decide (result ≠ ERRCODE_SUCCESS) then result
    else if bool_decide (sp_tx_threshold sp ≠ []) &&
      negb (match SafeStoi64 (sp_tx_threshold sp) with Some t => 0 <=? t | None => false end)
    then ERRCODE_THRESHOLD_NOT_VALID
    else check_types ERRCODE_INVALID_PARAMETER true (sp_type_thresholds sp) ∅.

Definition CheckPayAsset (pa : OperationPayAsset) (source_address : bytes) : ERRORCODE :=
  let asset_bad := match pa_asset pa with
    | None => false
    | Some a => bool_decide (asset_type (a_key a) ≠ 0) || (a_amount a <=? 0) ||
        (size (code (a_key a)) =? 0) || (ASSET_CODE_MAX_SIZE <? size (code (a_key a))) ||
        negb (IsAddressValid (issuer (a_key a)))
    end in
  if asset_bad then ERRCODE_ASSET_INVALID
  else if decide (source_address = pa_dest_address pa) then ERRCODE_ACCOUNT_SOURCEDEST_EQUAL
  else if negb (IsAddressValid (pa_dest_address pa)) then ERRCODE_INVALID_ADDRESS
  else ERRCODE_SUCCESS.

Definition CheckPayCoin (pc : OperationPayCoin) (source_address : bytes) : ERRORCODE :=
  if pc_amount pc <? 0 then ERRCODE_INVALID_PARAMETER
  else if decide (source_address = pc_dest_address pc) then ERRCODE_ACCOUNT_SOURCEDEST_EQUAL
  else if negb (IsAddressValid (pc_dest_address pc)) then ERRCODE_INVALID_ADDRESS
  else if negb (ReservedAddrAvailable source_address (pc_dest_address pc)) then ERRCODE_INVALID_ADDRESS
  else ERRCODE_SUCCESS.

(** The branches of the [switch] of [CheckValid]. *)
Definition check_type (o : Operation) (source_address : bytes) (stack_size : Z) : ERRORCODE :=
  let t := op_type o in
  if t =? CREATE_ACCOUNT then
    let ca := create_account o in
    if CHECK_VERSION_GT_1000 G then
      if negb (ReservedAddrAvailable source_address (ca_dest_address ca)) then ERRCODE_INVALID_ADDRESS
      else CheckCreateAccountGt1000 ca stack_size
    else CheckCreateAccount1000 ca source_address stack_size
  else if t =? PAY_ASSET then CheckPayAsset (pay_asset o) source_address
  else if t =? ISSUE_ASSET then
    let trim_code := Trim (ia_code (issue_asset o)) in
    if ia_amount (issue_asset o) <=? 0 then ERRCODE_ASSET_INVALID
    else if (size trim_code =? 0) || (ASSET_CODE_MAX_SIZE <? size trim_code) ||
            negb (size trim_code =? size (ia_code (issue_asset o))) then ERRCODE_ASSET_INVALID
    else ERRCODE_SUCCESS
  else if t =? SET_METADATA then
    let trim := sm_key (set_metadata o) in
    if (size trim =? 0) || (METADATA_KEY_MAXSIZE <? size trim) then ERRCODE_INVALID_PARAMETER
    else if METADATA_MAX_VALUE_SIZE <? size (sm_value (set_metadata o)) then ERRCODE_INVALID_PARAMETER
    else ERRCODE_SUCCESS
  else if t =? SET_SIGNER_WEIGHT then
    let sw := set_signer_weight o in
    if (sw_master_weight sw <? -1) || (UINT32_MAX <? sw_master_weight sw) then ERRCODE_WEIGHT_NOT_VALID
    else check_signers source_address false (sw_signers sw) ∅
  else if t =? SET_THRESHOLD then
    if st_tx_threshold (set_threshold o) <? -1 then ERRCODE_THRESHOLD_NOT_VALID
    else check_types ERRCODE_THRESHOLD_NOT_VALID false (st_type_thresholds (set_threshold o)) ∅
  else if t =? PAY_COIN then CheckPayCoin (pay_coin o) source_address
  else if t =? LOG then
    if (size (log_topic (log o)) =? 0) || (TRANSACTION_LOG_TOPIC_MAXSIZE <? size (log_topic (log o)))
    then ERRCODE_INVALID_PARAMETER
    else if existsb (λ d, (size d =? 0) || (TRANSACTION_LOG_DATA_MAXSIZE <? size d)) (log_datas (log o))
    then ERRCODE_INVALID_PARAMETER
    else ERRCODE_SUCCESS
  else if t =? SET_PRIVILEGE then CheckSetPrivilege (set_privilege o) source_address
  else if (t =? TYPE_INT_MIN) || (t =? TYPE_INT_MAX) then ERRCODE_SUCCESS
  else ERRCODE_INVALID_PARAMETER.

Definition op_CheckValid (o : Operation) (source_address : bytes) (stack_size : Z) : ERRORCODE :=
  if negb (IsAddressValid source_address) then ERRCODE_INVALID_ADDRESS
  else if bool_decide (source_address ∈ forbid_addrs_ G) then ERRCODE_INVALID_ADDRESS
  else check_type o source_address stack_size.
End check.

(** ** Signatures *)

(** The loop over the signers of [TransactionFrm::SignerHashPriv]. *)
Fixpoint signer_loop (valid : gset bytes) (l : list Signer) (th : Z) : bool :=
  match l with
  | [] => false
  | s :: l =>
      let th := if decide (signer_address s ∈ valid) then i64 (th - weight s) else th in
      if th <=? 0 then true else signer_loop valid l th
  end.

Definition SignerHashPriv (valid : gset bytes) (a : AccountFrm) (type : Z) : bool :=
  let p := priv (account_info_ a) in
  let th := tx_threshold (thresholds_of p) in
  let type_threshold := GetTypeThreshold a type in
  let th := if 0 <? type_threshold then type_threshold else th in
  let th := if decide (GetAccountAddress a ∈ valid) then i64 (th - master_weight p) else th in
  if th <=? 0 then true else signer_loop valid (signers p) th.

Section apply.
Context {LH : LedgerHost} (G : Globals).
(** [ContractManager::Execute] at [Contract::TYPE_V8]. *)
Context (Execute : ContractParameter → M Result).

(** The source of an operation is the source of its transaction unless it names another. *)
Definition operation_source (o : Operation) (t : nat) : M bytes :=
  if decide (op_source_address o = []) then
    tx ← get_tx t; mret (tx_source_address (transaction (transaction_env_ tx)))
  else mret (op_source_address o).

Definition CheckSignature (e t : nat) (o : Operation) : M ERRORCODE :=
  src ← operation_source o t;
  a ← GetEntry G e src;
  match a with
  | None => mret ERRCODE_ACCOUNT_NOT_EXIST
  | Some a =>
      tx ← get_tx t;
      mret (if SignerHashPriv (valid_signature_ tx) a (op_type o) then ERRCODE_SUCCESS
            else ERRCODE_INVALID_SIGNATURE)
  end.

(** [TransactionFrm::GetOperatingSourceAddress]. *)
Definition GetOperatingSourceAddress (tx : TransactionFrm) : bytes :=
  let tran := transaction (transaction_env_ tx) in
  if (processing_operation_ tx <? 0) || (Z.of_nat (length (operations tran)) <=? processing_operation_ tx)
  then []
  else match operations tran !! Z.to_nat (processing_operation_ tx) with
  | Some o => if decide (op_source_address o ≠ []) then op_source_address o else tx_source_address tran
  | None => []
  end.

(** The parameter of a contract call: the block, the bottom transaction, the calling
    transaction. *)
Definition contract_parameter (t : nat) (init : bool) (code input this_address sender : bytes)
    (asset : option Asset) (coin_amount : Z) : M ContractParameter :=
  c ← get_ctx; b ← GetBottomTx; bottom ← get_tx b; tx ← get_tx t;
  let btran := transaction (transaction_env_ bottom) in
  let tran := transaction (transaction_env_ tx) in
  mret (mkParameter init code input this_address (seq_ c) (close_time_ c)
    (tx_source_address btran) (GetOperatingSourceAddress bottom) (gas_price btran) (fee_limit btran) (BinToHexString (hash_ bottom))
    (tx_source_address tran) sender asset coin_amount (processing_operation_ tx) (tx_nonce tran)).

(** The loop over the metadata of a new account. *)
Fixpoint init_metadatas (l : list KeyPair) (a : AccountFrm) : option AccountFrm :=
  match l with
  | [] => Some a
  | kp :: l =>
      if bool_decide (version kp ≠ 0) && bool_decide (version kp ≠ 1) then None
      else init_metadatas l (SetMetaData a (mkKeyPair (key kp) (value kp) 1))
  end.

Definition ChangeCreateContractAmount (init_amount changed_amount : Z) : Z :=
  if CHECK_VERSION_GT_1001 G then init_amount else changed_amount.

(** The address of an account that is created without one. *)
Definition created_address (tran : Transaction) (index : Z) : bytes :=
  raw_address (tx_source_address tran ++ str "-" ++ ToString (tx_nonce tran) ++ str "-" ++ ToString index).

(** The call of the [init] function of a contract that was created. *)
Definition init_contract (t : nat) (ca : OperationCreateAccount) (dest_address sender : bytes) : M Result :=
  p ← contract_parameter t true (ca_payload ca) (ca_init_input ca) dest_address sender None
        (ChangeCreateContractAmount (ca_init_balance ca) 0);
  r ← Execute p;
  mret (if decide (rcode r = ERRCODE_SUCCESS)
        then mkResult ERRCODE_SUCCESS (JObject [(str "type", JString (str "address")); (str "value", JString dest_address)])
        else r).

Definition CreateAccount (e t : nat) (o : Operation) (index : Z) (src : bytes) : M Result :=
  let ca := create_account o in
  tx ← get_tx t;
  let dest_address := if decide (ca_dest_address ca = [])
    then created_address (transaction (transaction_env_ tx)) index else ca_dest_address ca in
  dest ← GetEntry G e dest_address;
  match dest with
  | Some _ => mret (failure ERRCODE_ACCOUNT_DEST_EXIST)
  | None =>
    if ca_init_balance ca <? base_reserve G then mret (failure ERRCODE_ACCOUNT_INIT_LOW_RESERVE)
    else
      source ← deref_entry G e src;
      match SafeIntSub (GetAccountBalance source) (base_reserve G) with
      | None => mret (failure ERRCODE_MATH_OVERFLOW)
      | Some limit_balance =>
        if limit_balance <? ca_init_balance ca then mret (failure ERRCODE_ACCOUNT_LOW_RESERVE)
        else match AddBalance source (i64 (-1 * ca_init_balance ca)) with
        | None => mret (failure ERRCODE_MATH_OVERFLOW)
        | Some source' =>
          assign_entry e src source';;
          let account := mkAccount dest_address 0 (default no_privilege (ca_priv ca)) [] []
                           (ca_payload ca) true (ca_init_balance ca) in
          match init_metadatas (ca_metadatas ca) (new_AccountFrm account) with
          | None => mret (failure ERRCODE_INVALID_DATAVERSION)
          | Some dest_account =>
            AddEntry e (GetAccountAddress dest_account) dest_account;;
            if decide (ca_payload ca = []) then mret success
            else init_contract t ca dest_address (GetAccountAddress source')
          end
        end
      end
  end.

Definition IssueAsset (e : nat) (o : Operation) (src : bytes) : M Result :=
  let ope := issue_asset o in
  source ← deref_entry G e src;
  let key := mkAssetKey (GetAccountAddress source) (ia_code ope) 0 in
  let '(source, asset_e) := GetAsset (db G) source key in
  assign_entry e src source;;
  match asset_e with
  | None => assign_entry e src (SetAsset source (mkAssetStore key (ia_amount ope) None));; mret success
  | Some asset_e =>
      match SafeIntAdd (amount asset_e) (ia_amount ope) with
      | None => mret (failure ERRCODE_MATH_OVERFLOW)
      | Some amt =>
          assign_entry e src (SetAsset source (mkAssetStore (asset_key asset_e) amt (property asset_e)));;
          mret success
      end
  end.

(** The transfer of [PayAsset]: [None] when it is done. *)
Definition transfer_asset (e : nat) (src dest : bytes) (a : Asset) : M (option ERRORCODE) :=
  let key := a_key a in
  source ← deref_entry G e src;
  let '(source, asset_e) := GetAsset (db G) source key in
  assign_entry e src source;;
  match asset_e with
  | None => mret (Some ERRCODE_ACCOUNT_ASSET_LOW_RESERVE)
  | Some asset_e =>
    if asset_type key =? 0 then
      match SafeIntSub (amount asset_e) (a_amount a) with
      | None => mret (Some ERRCODE_MATH_OVERFLOW)
      | Some sender_amount =>
        if sender_amount <? 0 then mret (Some ERRCODE_ACCOUNT_ASSET_LOW_RESERVE)
        else
          assign_entry e src (SetAsset source (mkAssetStore (asset_key asset_e) sender_amount (property asset_e)));;
          dest_account ← deref_entry G e dest;
          let '(dest_account, dest_asset) := GetAsset (db G) dest_account key in
          assign_entry e dest dest_account;;
          match dest_asset with
          | None =>
              assign_entry e dest (SetAsset dest_account (mkAssetStore key (a_amount a) None));; mret None
          | Some dest_asset =>
            match SafeIntAdd (amount dest_asset) (a_amount a) with
            | None => mret (Some ERRCODE_MATH_OVERFLOW)
            | Some receiver_amount =>
                assign_entry e dest
                  (SetAsset dest_account (mkAssetStore (asset_key dest_asset) receiver_amount (property dest_asset)));;
                mret None
            end
          end
      end
    else mret (Some ERRCODE_ASSET_INVALID)
  end.

(** The call of the contract of the destination, if it has one. *)
Definition call_contract (e t : nat) (src dest input : bytes) (asset : option Asset) (coin_amount : Z) : M Result :=
  dest_account ← deref_entry G e dest;
  let javascript := contract (account_info_ dest_account) in
  if decide (javascript = []) then mret success
  else
    source ← deref_entry G e src;
    p ← contract_parameter t false javascript input dest (GetAccountAddress source) asset coin_amount;
    Execute p.

Definition PayAsset (e t : nat) (o : Operation) (src : bytes) : M Result :=
  let pa := pay_asset o in
  dest ← GetEntry G e (pa_dest_address pa);
  match dest with
  | None => mret (failure ERRCODE_ACCOUNT_NOT_EXIST)
  | Some _ =>
      r ← match pa_asset pa with
          | None => mret None
          | Some a => transfer_asset e src (pa_dest_address pa) a
          end;
      match r with
      | Some c => mret (failure c)
      | None => call_contract e t src (pa_dest_address pa) (pa_input pa) (pa_asset pa) 0
      end
  end.

Definition op_SetMetaData (e : nat) (o : Operation) (src : bytes) : M Result :=
  let ope := set_metadata o in
  let ver := sm_version ope in
  source ← deref_entry G e src;
  let '(source, keypair_e) := GetMetaData (db G) source (sm_key ope) in
  assign_entry e src source;;
  if sm_delete_flag ope then
    match keypair_e with
    | None => mret (failure ERRCODE_NOT_EXIST)
    | Some kp =>
        if bool_decide (ver ≠ 0) && bool_decide (version kp ≠ ver) then mret (failure ERRCODE_INVALID_DATAVERSION)
        else if decide (sm_key ope = []) then mret (failure ERRCODE_INVALID_PARAMETER)
        else assign_entry e src (DeleteMetaData source kp);; mret success
    end
  else
    match keypair_e with
    | Some kp =>
        if bool_decide (ver ≠ 0) && bool_decide (i64 (version kp + 1) ≠ ver) then mret (failure ERRCODE_INVALID_DATAVERSION)
        else
          assign_entry e src (SetMetaData source (mkKeyPair (key kp) (sm_value ope) (i64 (version kp + 1))));;
          mret success
    | None =>
        if bool_decide (ver ≠ 1) && bool_decide (ver ≠ 0) then mret (failure ERRCODE_INVALID_DATAVERSION)
        else
          assign_entry e src (SetMetaData source (mkKeyPair (sm_key ope) (sm_value ope) 1));; mret success
    end.

(** The loops over signers and type thresholds, which ignore the result of the update. *)
Definition update_signers (l : list Signer) (a : AccountFrm) : AccountFrm :=
  foldl (λ a s, (UpdateSigner a (signer_address s) (weight s)).1) a l.
Definition update_type_thresholds (l : list OperationTypeThreshold) (a : AccountFrm) : AccountFrm :=
  foldl (λ a t, (UpdateTypeThreshold a (threshold_type t) (threshold t)).1) a l.

Definition SetSignerWeight (e : nat) (o : Operation) (src : bytes) : M Result :=
  let ope := set_signer_weight o in
  source ← deref_entry G e src;
  let source := if 0 <=? sw_master_weight ope then SetProtoMasterWeight source (sw_master_weight ope) else source in
  assign_entry e src (update_signers (sw_signers ope) source);; mret success.

Definition SetThreshold (e : nat) (o : Operation) (src : bytes) : M Result :=
  let ope := set_threshold o in
  source ← deref_entry G e src;
  let source := if 0 <=? st_tx_threshold ope then SetProtoTxThreshold source (st_tx_threshold ope) else source in
  assign_entry e src (update_type_thresholds (st_type_thresholds ope) source);; mret success.

(** The account that [PayCoin] creates. *)
Definition paid_account (addr : bytes) : AccountFrm :=
  new_AccountFrm (mkAccount addr 0 (mkPrivilege 1 [] (Some (mkThresholds 1 []))) [] [] [] false 0).

(** The transfer of [PayCoin]: [None] when it is done.  [source] is the object behind
    [source_account_], which nothing has changed since [Apply] read it. *)
Definition transfer_coin (e : nat) (src : bytes) (source : AccountFrm) (dest : bytes) (amt : Z) : M (option ERRORCODE) :=
  match SafeIntSub (GetAccountBalance source) amt with
  | None => mret (Some ERRCODE_MATH_OVERFLOW)
  | Some src_balance =>
      assign_entry e src (with_info (set_balance src_balance) source);;
      dest_account ← deref_entry G e dest;
      match SafeIntAdd (GetAccountBalance dest_account) amt with
      | None => mret (Some ERRCODE_MATH_OVERFLOW)
      | Some dest_balance => assign_entry e dest (with_info (set_balance dest_balance) dest_account);; mret None
      end
  end.

(** The destination of a payment is created if it does not exist. *)
Definition ensure_account (e : nat) (dest : bytes) (amt : Z) : M (option ERRORCODE) :=
  d ← GetEntry G e dest;
  match d with
  | Some _ => mret None
  | None =>
      if amt <? base_reserve G then mret (Some ERRCODE_ACCOUNT_INIT_LOW_RESERVE)
      else AddEntry e dest (paid_account dest);; mret None
  end.

Definition PayCoin (e t : nat) (o : Operation) (src : bytes) : M Result :=
  let ope := pay_coin o in
  source ← deref_entry G e src;
  match SafeIntAdd (pc_amount ope) (base_reserve G) with
  | None => mret (failure ERRCODE_MATH_OVERFLOW)
  | Some min_balance =>
    if GetAccountBalance source <? min_balance then mret (failure ERRCODE_ACCOUNT_LOW_RESERVE)
    else
      r ← ensure_account e (pc_dest_address ope) (pc_amount ope);
      match r with
      | Some c => mret (failure c)
      | None =>
        r ← transfer_coin e src source (pc_dest_address ope) (pc_amount ope);
        match r with
        | Some c => mret (failure c)
        | None => call_contract e t src (pc_dest_address ope) (pc_input ope) None (pc_amount ope)
        end
      end
  end.

Definition SetPrivilege (e : nat) (o : Operation) (src : bytes) : M Result :=
  let ope := set_privilege o in
  source ← deref_entry G e src;
  let source := if decide (sp_master_weight ope = []) then source
    else let w := Stoi64 (sp_master_weight ope) in if 0 <=? w then SetProtoMasterWeight source w else source in
  let source := update_signers (sp_signers ope) source in
  let source := if decide (sp_tx_threshold ope = []) then source
    else let t := Stoi64 (sp_tx_threshold ope) in if 0 <=? t then SetProtoTxThreshold source t else source in
  assign_entry e src (update_type_thresholds (sp_type_thresholds ope) source);; mret success.

(** [OperationFrm::Apply]. *)
Definition op_Apply (e t : nat) (o : Operation) (index : Z) : M Result :=
  src ← operation_source o t;
  a ← GetEntry G e src;
  match a with
  | None => mret (failure ERRCODE_ACCOUNT_NOT_EXIST)
  | Some _ =>
      let ty := op_type o in
      if ty =? 0 then mret success
      else if ty =? CREATE_ACCOUNT then CreateAccount e t o index src
      else if ty =? PAY_ASSET then PayAsset e t o src
      else if ty =? ISSUE_ASSET then IssueAsset e o src
      else if ty =? SET_METADATA then op_SetMetaData e o src
      else if ty =? SET_SIGNER_WEIGHT then SetSignerWeight e o src
      else if ty =? SET_THRESHOLD then SetThreshold e o src
      else if ty =? PAY_COIN then PayCoin e t o src
      else if ty =? LOG then mret success
      else if ty =? SET_PRIVILEGE then SetPrivilege e o src
      else if (ty =? TYPE_INT_MIN) || (ty =? TYPE_INT_MAX) then mret success
      else mret (failure ERRCODE_INVALID_PARAMETER)
  end.
End apply.
