(* ===== verification/TransactionFrm.v ===== *)
(** * Transactions (src/src/ledger/transaction_frm.cpp)

    The checks of a transaction, its fee and nonce, and [Apply], which runs its operations.
    A transaction is a [TransactionFrm] of the context, named by its index. *)
From stdpp Require Import base gmap list strings.
From Stdlib Require Import ZArith Lia.
From S2P Require Import Prelude SafeInt Strings Hex Base58 AtomMap Account LedgerMsg Environment Operation.
Local Open Scope Z_scope.

(** ** Fields *)

Definition tran_of (tx : TransactionFrm) : Transaction := transaction (transaction_env_ tx).
Definition frm_source (tx : TransactionFrm) : bytes := tx_source_address (tran_of tx).

Definition set_result (r : Result) (x : TransactionFrm) : TransactionFrm :=
  mkTransactionFrm (transaction_env_ x) (hash_ x) (valid_signature_ x) r (environment_ x) (ledger_set x)
    (instructions_ x) (processing_operation_ x) (actual_gas_ x) (max_end_time_ x) (contract_step_ x)
    (contract_memory_usage_ x) (contract_stack_max_vaule_ x) (contract_stack_usage_ x) (enable_check_ x).
(** [result_.set_code(c)]. *)
Definition set_code (c : ERRORCODE) (x : TransactionFrm) : TransactionFrm :=
  set_result (mkResult c (contract_result (result_ x))) x.
Definition set_environment (e : nat) (x : TransactionFrm) : TransactionFrm :=
  mkTransactionFrm (transaction_env_ x) (hash_ x) (valid_signature_ x) (result_ x) (Some e) true
    (instructions_ x) (processing_operation_ x) (actual_gas_ x) (max_end_time_ x) (contract_step_ x)
    (contract_memory_usage_ x) (contract_stack_max_vaule_ x) (contract_stack_usage_ x) (enable_check_ x).
Definition add_instructions (l : list TransactionEnvStore) (x : TransactionFrm) : TransactionFrm :=
  mkTransactionFrm (transaction_env_ x) (hash_ x) (valid_signature_ x) (result_ x) (environment_ x) (ledger_set x)
    (instructions_ x ++ l) (processing_operation_ x) (actual_gas_ x) (max_end_time_ x) (contract_step_ x)
    (contract_memory_usage_ x) (contract_stack_max_vaule_ x) (contract_stack_usage_ x) (enable_check_ x).
Definition set_processing (i : Z) (x : TransactionFrm) : TransactionFrm :=
  mkTransactionFrm (transaction_env_ x) (hash_ x) (valid_signature_ x) (result_ x) (environment_ x) (ledger_set x)
    (instructions_ x) i (actual_gas_ x) (max_end_time_ x) (contract_step_ x)
    (contract_memory_usage_ x) (contract_stack_max_vaule_ x) (contract_stack_usage_ x) (enable_check_ x).
Definition AddActualGas (gas : Z) (x : TransactionFrm) : TransactionFrm :=
  mkTransactionFrm (transaction_env_ x) (hash_ x) (valid_signature_ x) (result_ x) (environment_ x) (ledger_set x)
    (instructions_ x) (processing_operation_ x) (i64 (actual_gas_ x + gas)) (max_end_time_ x) (contract_step_ x)
    (contract_memory_usage_ x) (contract_stack_max_vaule_ x) (contract_stack_usage_ x) (enable_check_ x).
Definition EnableChecked (x : TransactionFrm) : TransactionFrm :=
  mkTransactionFrm (transaction_env_ x) (hash_ x) (valid_signature_ x) (result_ x) (environment_ x) (ledger_set x)
    (instructions_ x) (processing_operation_ x) (actual_gas_ x) (max_end_time_ x) (contract_step_ x)
    (contract_memory_usage_ x) (contract_stack_max_vaule_ x) (contract_stack_usage_ x) true.
Definition SetMaxEndTime (t : Z) (x : TransactionFrm) : TransactionFrm :=
  mkTransactionFrm (transaction_env_ x) (hash_ x) (valid_signature_ x) (result_ x) (environment_ x) (ledger_set x)
    (instructions_ x) (processing_operation_ x) (actual_gas_ x) t (contract_step_ x)
    (contract_memory_usage_ x) (contract_stack_max_vaule_ x) (contract_stack_usage_ x) (enable_check_ x).
(** [contract_step_] is an [int32_t]. *)
Definition ContractStepInc (step : Z) (x : TransactionFrm) : TransactionFrm :=
  mkTransactionFrm (transaction_env_ x) (hash_ x) (valid_signature_ x) (result_ x) (environment_ x) (ledger_set x)
    (instructions_ x) (processing_operation_ x) (actual_gas_ x) (max_end_time_ x)
    ((contract_step_ x + step + 2 ^ 31) mod 2 ^ 32 - 2 ^ 31)
    (contract_memory_usage_ x) (contract_stack_max_vaule_ x) (contract_stack_usage_ x) (enable_check_ x).
Definition SetMemoryUsage (u : Z) (x : TransactionFrm) : TransactionFrm :=
  mkTransactionFrm (transaction_env_ x) (hash_ x) (valid_signature_ x) (result_ x) (environment_ x) (ledger_set x)
    (instructions_ x) (processing_operation_ x) (actual_gas_ x) (max_end_time_ x) (contract_step_ x)
    u (contract_stack_max_vaule_ x) (contract_stack_usage_ x) (enable_check_ x).
Definition SetStackRemain (remain_size : Z) (x : TransactionFrm) : TransactionFrm :=
  let m := Z.max (contract_stack_max_vaule_ x) remain_size in
  mkTransactionFrm (transaction_env_ x) (hash_ x) (valid_signature_ x) (result_ x) (environment_ x) (ledger_set x)
    (instructions_ x) (processing_operation_ x) (actual_gas_ x) (max_end_time_ x) (contract_step_ x)
    (contract_memory_usage_ x) m (i64 (m - remain_size)) (enable_check_ x).

Section frm.
Context {LH : LedgerHost} (G : Globals).

(** The signatures that are valid, by address. *)
Definition valid_signatures (data : bytes) (l : list Signature) : gset bytes :=
  foldl (λ acc s,
    match pub_address (public_key s) with
    | Some a => if Verify data (sign_data s) (public_key s) then {[ a ]} ∪ acc else acc
    | None => acc
    end) ∅ l.

(** [TransactionFrm(env)] with [Initialize]. *)
Definition new_TransactionFrm (env : TransactionEnv) : TransactionFrm :=
  let data := SerializeTx (transaction env) in
  mkTransactionFrm env (Crypto data) (valid_signatures data (signatures env)) success None false [] 0 0 0 0 0 0 0 false.

Definition GetSelfGas (tx : TransactionFrm) : Z :=
  foldl (λ g o, i64 (g + GetOperationTypeGas o)) (ByteSize (transaction_env_ tx)) (operations (tran_of tx)).

(** A failed check sets the code and returns [false]. *)
Definition reject (t : nat) (c : ERRORCODE) : M bool := upd_tx t (set_code c);; mret false.

(** ** Parameters *)

(** The loop over the operations: the index is not needed, the code of the first operation
    that is not valid is. *)
Fixpoint check_operations (tx : TransactionFrm) (stack_size : Z) (l : list Operation) : ERRORCODE :=
  match l with
  | [] => ERRCODE_SUCCESS
  | o :: l =>
      let ope_source := if decide (op_source_address o = []) then frm_source tx else op_source_address o in
      if negb (IsAddressValid ope_source) then ERRCODE_INVALID_ADDRESS
      else if METADATA_MAX_VALUE_SIZE <? size (op_metadata o) then ERRCODE_INVALID_PARAMETER
      else
        let c := op_CheckValid G o ope_source stack_size in
        if decide (c = ERRCODE_SUCCESS) then check_operations tx stack_size l else c
  end.

Definition ValidForParameter (t : nat) (stack_size : Z) : M bool :=
  tx ← get_tx t; c ← get_ctx;
  let tran := tran_of tx in
  let n := Z.of_nat (length (operations tran)) in
  let current_ledger_seq := if ledger_set tx then seq_ c else i64 (lcl_seq G + 1) in
  if TRANSACTION_LIMIT_SIZE <=? ByteSize (transaction_env_ tx) then reject t ERRCODE_TX_SIZE_TOO_BIG
  else if n =? 0 then reject t ERRCODE_MISSING_OPERATIONS
  else if MAX_OPERATIONS_NUM_PER_TRANSACTION <? n then reject t ERRCODE_TOO_MANY_OPERATIONS
  else if METADATA_MAX_VALUE_SIZE <? size (tx_metadata tran) then reject t ERRCODE_INVALID_PARAMETER
  else if (0 <? ceil_ledger_seq tran) && (ceil_ledger_seq tran <? current_ledger_seq)
  then reject t ERRCODE_INVALID_PARAMETER
  else if ceil_ledger_seq tran <? 0 then reject t ERRCODE_INVALID_PARAMETER
  else if (stack_size =? 0) && (fee_limit tran <? 0) then reject t ERRCODE_INVALID_PARAMETER
  else if (stack_size =? 0) && (gas_price tran <? Z.max 0 (sys_gas_price G)) then reject t ERRCODE_INVALID_PARAMETER
  else
    let code := check_operations tx stack_size (operations tran) in
    upd_tx t (set_result (failure code));; mret (bool_decide (code = ERRCODE_SUCCESS)).

(** ** Fees *)

Definition CheckFee (t : nat) (price limit : Z) (source : AccountFrm) : M bool :=
  match SafeIntSub (GetAccountBalance source) limit with
  | None => reject t ERRCODE_MATH_OVERFLOW
  | Some limit_balance =>
    if limit_balance <? base_reserve G then reject t ERRCODE_ACCOUNT_LOW_RESERVE
    else
      tx ← get_tx t;
      m ← lift_res (SafeIntMul (GetSelfGas tx) price);
      match m with
      | None => reject t ERRCODE_INVALID_PARAMETER
      | Some tx_fee => if limit <? tx_fee then reject t ERRCODE_FEE_NOT_ENOUGH else mret true
      end
  end.

Definition AddActualFee (bottom t : nat) : M bool :=
  tx ← get_tx t;
  upd_tx bottom (AddActualGas (GetSelfGas tx));;
  b ← get_tx bottom;
  m ← lift_res (SafeIntMul (actual_gas_ b) (gas_price (tran_of b)));
  match m with
  | None => reject t ERRCODE_MATH_OVERFLOW
  | Some actual_fee =>
      if fee_limit (tran_of b) <? actual_fee then reject t ERRCODE_FEE_NOT_ENOUGH else mret true
  end.

(** The total is the first component: it is updated before the balance is checked. *)
Definition PayFee (t e : nat) (total_fee : Z) : M (Z * bool) :=
  tx ← get_tx t;
  let fee := fee_limit (tran_of tx) in
  let addr := frm_source tx in
  source ← GetEntry G e addr;
  match source with
  | None => upd_tx t (set_code ERRCODE_ACCOUNT_NOT_EXIST);; mret (total_fee, false)
  | Some source =>
    match SafeIntAdd total_fee fee with
    | None => upd_tx t (set_code ERRCODE_MATH_OVERFLOW);; mret (total_fee, false)
    | Some total_fee =>
      match SafeIntSub (GetAccountBalance source) fee with
      | None => upd_tx t (set_code ERRCODE_MATH_OVERFLOW);; mret (total_fee, false)
      | Some new_balance =>
          assign_entry e addr (with_info (set_balance new_balance) source);; mret (total_fee, true)
      end
    end
  end.

(** The pointer [environment_], which is null before [Apply]. *)
Definition tx_environment (t : nat) : M nat :=
  tx ← get_tx t; match environment_ tx with Some e => mret e | None => fault_ NullDeref end.

Definition ReturnFee (t : nat) (total_fee : Z) : M (Z * bool) :=
  tx ← get_tx t;
  m ← lift_res (SafeIntMul (actual_gas_ tx) (gas_price (tran_of tx)));
  match m with
  | None => upd_tx t (set_code ERRCODE_MATH_OVERFLOW);; mret (total_fee, false)
  | Some actual_fee =>
    match SafeIntSub (fee_limit (tran_of tx)) actual_fee with
    | None => upd_tx t (set_code ERRCODE_MATH_OVERFLOW);; mret (total_fee, false)
    | Some fee =>
      if bool_decide (rcode (result_ tx) ≠ ERRCODE_SUCCESS) || (fee <=? 0) then mret (total_fee, false)
      else
        e ← tx_environment t;
        source ← GetEntry G e (frm_source tx);
        match source with
        | None => upd_tx t (set_code ERRCODE_ACCOUNT_NOT_EXIST);; mret (total_fee, false)
        | Some source =>
          match SafeIntSub total_fee fee with
          | None => upd_tx t (set_code ERRCODE_MATH_OVERFLOW);; mret (total_fee, false)
          | Some total_fee =>
            match SafeIntAdd (GetAccountBalance source) fee with
            | None => upd_tx t (set_code ERRCODE_MATH_OVERFLOW);; mret (total_fee, false)
            | Some new_balance =>
                assign_entry e (frm_source tx) (with_info (set_balance new_balance) source);;
                mret (total_fee, true)
            end
          end
        end
    end
  end.

(** ** Admission *)

Definition ValidForApply (t e : nat) (check_priv : bool) : M bool :=
  ok ← ValidForParameter t 0;
  if negb ok then mret false
  else
    tx ← get_tx t;
    source ← GetEntry G e (frm_source tx);
    match source with
    | None => reject t ERRCODE_ACCOUNT_NOT_EXIST
    | Some source =>
        if negb (i64 (GetAccountNonce source + 1) =? tx_nonce (tran_of tx)) then reject t ERRCODE_BAD_SEQUENCE
        else if check_priv && negb (SignerHashPriv (valid_signature_ tx) source (-1))
        then reject t ERRCODE_INVALID_SIGNATURE
        else CheckFee t (gas_price (tran_of tx)) (fee_limit (tran_of tx)) source
    end.

(** The check of a transaction that a node receives; the second component is [nonce]. *)
Definition CheckValid (t : nat) (last_seq : Z) (check_priv : bool) (nonce0 : Z) : M (bool * Z) :=
  tx ← get_tx t;
  match AccountFromDB G (frm_source tx) with
  | None => r ← reject t ERRCODE_ACCOUNT_NOT_EXIST; mret (r, nonce0)
  | Some source =>
      let nonce := GetAccountNonce source in
      r ← (if tx_nonce (tran_of tx) <=? nonce then reject t ERRCODE_BAD_SEQUENCE
           else if negb (chain_id (tran_of tx) =? self_chain_id G) then reject t ERRCODE_INVALID_PARAMETER
           else
             ok ← ValidForParameter t 0;
             if negb ok then mret false
             else if (last_seq =? 0) && negb (tx_nonce (tran_of tx) =? i64 (nonce + 1))
             then reject t ERRCODE_BAD_SEQUENCE
             else if (0 <? last_seq) && negb (tx_nonce (tran_of tx) =? i64 (last_seq + 1))
             then reject t ERRCODE_BAD_SEQUENCE
             else if check_priv && negb (SignerHashPriv (valid_signature_ tx) source (-1))
             then reject t ERRCODE_INVALID_SIGNATURE
             else CheckFee t (gas_price (tran_of tx)) (fee_limit (tran_of tx)) source);
      mret (r, nonce)
  end.

(** [TransactionFrm::NonceIncrease]. *)
Definition tx_NonceIncrease (t e : nat) : M unit :=
  tx ← get_tx t;
  source ← GetEntry G e (frm_source tx);
  match source with
  | None => upd_tx t (set_code ERRCODE_ACCOUNT_NOT_EXIST)
  | Some source => assign_entry e (frm_source tx) (NonceIncrease source)
  end.

(** ** Limits of contracts *)

(** [result_.set_code] happens in every branch that returns [true]. *)
Definition IsExpire (t : nat) : M bool :=
  tx ← get_tx t;
  if negb (enable_check_ tx) then mret false
  else
    let expire := upd_tx t (set_code ERRCODE_CONTRACT_EXECUTE_EXPIRED);; mret true in
    if CONTRACT_STEP_LIMIT <? contract_step_ tx then expire
    else
      now ← HighResolution;
      if bool_decide (max_end_time_ tx ≠ 0) && (max_end_time_ tx <? now) then expire
      else if CONTRACT_MEMORY_LIMIT <? contract_memory_usage_ tx then expire
      else if CONTRACT_STACK_LIMIT <? contract_stack_usage_ tx then expire
      else mret false.

Definition ApplyExpireResult (t : nat) : M unit := upd_tx t (set_code ERRCODE_CONTRACT_EXECUTE_EXPIRED).

(** ** Application *)

Section apply.
Context (Execute : ContractParameter → M Result).

(** The loop of [Apply] from operation [i] on. *)
Fixpoint apply_operations (t e : nat) (bool_contract : bool) (i : Z) (l : list Operation) : M bool :=
  match l with
  | [] => upd_tx t (set_processing i);; mret true
  | o :: l =>
      upd_tx t (set_processing i);;
      sig ← (if negb bool_contract && negb (is_test_mode_ G) then CheckSignature G e t o else mret ERRCODE_SUCCESS);
      if decide (sig ≠ ERRCODE_SUCCESS) then upd_tx t (set_result (failure sig));; mret false
      else
        r ← op_Apply G Execute e t o i;
        if decide (rcode r ≠ ERRCODE_SUCCESS) then upd_tx t (set_result r);; mret false
        else
          upd_tx t (λ tx, set_result (mkResult (rcode (result_ tx)) (contract_result r)) tx);;
          apply_operations t e bool_contract (i + 1) l
  end.

Definition Apply (t e : nat) (bool_contract : bool) : M bool :=
  upd_tx t (set_environment e);;
  b ← GetBottomTx;
  ok ← AddActualFee b t;
  if negb ok then mret false
  else tx ← get_tx t; apply_operations t e bool_contract 0 (operations (tran_of tx)).
End apply.
End frm.
