(* ===== verification/Contract.v ===== *)
(** * Contracts and the transactions they make
      (src/src/contract/contract_manager.cpp, v8_contract.cpp, v8_contract_write.cpp,
       v8_contract_read.cpp; [LedgerManager::DoTransaction])

    A script is a [prog]: the V8 engine is a parameter ([v8], [v8_query]) and what the node
    does for a call of the script is [run_callback], or [read_callback] if the script runs
    as a query.  [Execute], [DoTransaction] and [Apply] call each other, and all of them
    [Query]; the nesting is bounded by [fuel]: [ContractInv] shows that the depth limits of
    the code keep it within [exec_fuel].  Logs and the identifiers that serve to cancel a
    contract from another thread are left out. *)
From stdpp Require Import base gmap list strings.
From Stdlib Require Import ZArith Lia.
From S2P Require Import Prelude SafeInt Strings Hex Base58 AtomMap Account LedgerMsg Environment Operation TransactionFrm.
Local Open Scope Z_scope.

Section contract.
Context {LH : LedgerHost} (G : Globals).

(** [LedgerManager::CheckContractDepthSafe]. *)
Definition CheckContractDepthSafe (tx_size : Z) : bool :=
  CHECK_VERSION_GT_1001 G || (tx_size <? CONTRACT_MAX_RECURSIVE_DEPTH).

Definition stack_size : M Z := c ← get_ctx; mret (Z.of_nat (length (transaction_stack_ c))).

(** What is stored of the transaction [t] that the transaction [top] triggered. *)
Definition tx_store (top t : nat) : M TransactionEnvStore :=
  x ← get_tx top; tx ← get_tx t;
  let env := transaction_env_ tx in
  mret (mkEnvStore (mkTransactionEnv (transaction env) (signatures env) (Some (hash_ x, processing_operation_ x)))
          (rcode (result_ tx))).

(** The result of [t] is the result of the call. *)
Definition tx_result (t : nat) : M Result := tx ← get_tx t; mret (result_ tx).

Section open.
Context (Execute : ContractParameter → M Result).
Context (Query : ContractParameter → M (option Json)).

(** The part of [DoTransaction] after the new transaction [t] was pushed. *)
Definition run_pushed (top t e_top : nat) : M Result :=
  tx_NonceIncrease G t e_top;;
  n ← stack_size;
  ok ← ValidForParameter G t n;
  (if (ok : bool) then f ← NewStackFrameEnv e_top; Apply G Execute t f true
   else b ← GetBottomTx; AddActualFee b t);;
  r ← tx_result t;
  if bool_decide (rcode r = ERRCODE_FEE_NOT_ENOUGH) || bool_decide (rcode r = ERRCODE_CONTRACT_TOO_MANY_TRANSACTIONS)
  then (if CHECK_VERSION_GT_1002 G then pop_tx else mret tt);; mret r
  else
    s ← tx_store top t;
    (if decide (rcode r = ERRCODE_SUCCESS) then
       tx ← get_tx t;
       upd_tx top (add_instructions (instructions_ tx));;
       e ← tx_environment t;
       Environment_Commit e
     else mret tt);;
    upd_tx top (add_instructions [s]);;
    pop_tx;;
    mret r.

(** [LedgerManager::DoTransaction]. *)
Definition DoTransaction (env : TransactionEnv) : M Result :=
  top ← GetTopTx;
  e_top ← tx_environment top;
  source ← deref_entry G e_top (tx_source_address (transaction env));
  let env := mkTransactionEnv (with_nonce (i64 (GetAccountNonce source + 1)) (transaction env))
               (signatures env) (trigger env) in
  t ← new_tx (new_TransactionFrm env);
  n ← stack_size;
  if negb (CheckContractDepthSafe n) then
    upd_tx t (set_code ERRCODE_CONTRACT_TOO_MANY_RECURSION);;
    b ← GetBottomTx;
    tx ← get_tx t;
    upd_tx b (AddActualGas (GetSelfGas tx));;
    s ← tx_store top t;
    upd_tx top (add_instructions [s]);;
    tx_result t
  else push_tx t;; run_pushed top t e_top.

(** ** Callbacks *)

(** A transaction of the contract with one operation. *)
Definition contract_env (contractor : bytes) (o : Operation) : TransactionEnv :=
  mkTransactionEnv (mkTransaction contractor 0 0 0 0 [] [o] 0) [] None.

(** A failed transaction is the result of the contract, and an exception in the script. *)
Definition do_operation (contractor : bytes) (o : Operation) (v : Result → Json) : M (answer * option Result) :=
  r ← DoTransaction (contract_env contractor o);
  mret (if decide (rcode r = ERRCODE_SUCCESS) then (Returned (v r), None) else (Threw, Some r)).

Definition json_true (r : Result) : Json := JBool true.

Definition charge_step (n : Z) : M unit := b ← GetBottomTx; upd_tx b (ContractStepInc n).

(** An amount is a decimal string that is not negative. *)
Definition amount_arg (s : bytes) : option Z :=
  match SafeStoi64 s with Some n => if n <? 0 then None else Some n | None => None end.

Definition remark_arg (remark : bytes) : bytes := if CHECK_VERSION_GT_1002 G then remark else [].

Definition threw : M (answer * option Result) := mret (Threw, None).

(** [V8Contract::SetMetaData]. *)
Definition CallBackSetMetaData (contractor key value : bytes) (is_del : bool) : M (answer * option Result) :=
  charge_step 100;;
  if decide (key = []) then threw
  else do_operation contractor (with_set_metadata (mkSetMetadata key value 0 is_del) (blank_operation SET_METADATA)) json_true.

(** [V8Contract::CallBackDelegateCall]: the code of another account runs for this one. *)
Definition DelegateCall (cp : ContractParameter) (address input : bytes) : M (answer * option Result) :=
  charge_step 100;;
  top ← GetTopTx; e ← tx_environment top;
  a ← GetEntry G e address;
  match a with
  | None => threw
  | Some a =>
      let payload := contract (account_info_ a) in
      if decide (payload = []) then threw
      else
        push_tx top;;
        r ← Execute (mkParameter false payload input (this_address_ cp) (block_number_ cp) (block_timestamp_ cp)
               (cp_tx_initiator_ cp) (cp_tx_sender_ cp) (cp_gas_price_ cp) (cp_fee_limit_ cp) (cp_tx_hash_ cp)
               (msg_initiator_ cp) (msg_sender_ cp) (msg_asset_ cp) (msg_coin_amount_ cp)
               (msg_operation_index_ cp) (msg_nonce_ cp));
        pop_tx;;
        mret (if decide (rcode r = ERRCODE_SUCCESS) then (Returned (contract_result r), None) else (Threw, Some r))
  end.

(** The account of the environment of the top transaction. *)
Definition top_entry (address : bytes) : M (nat * option AccountFrm) :=
  top ← GetTopTx; e ← tx_environment top; a ← GetEntry G e address; mret (e, a).

(** *** The functions of a contract that write *)

Definition cb_TopicLog (contractor topic : bytes) (datas : list bytes) : M (answer * option Result) :=
  charge_step 100;; do_operation contractor (with_log (mkLog topic datas) (blank_operation LOG)) json_true.

Definition cb_Call (contractor dest : bytes) (asset : option AssetKey) (amount input : bytes) : M (answer * option Result) :=
  charge_step 100;;
  match amount_arg amount with
  | None => threw
  | Some pay_amount =>
      do_operation contractor
        match asset with
        | None => with_pay_coin (mkPayCoin dest pay_amount input) (blank_operation PAY_COIN)
        | Some k => with_pay_asset (mkPayAsset dest (Some (mkAsset (mkAssetKey (issuer k) (code k) 0) pay_amount)) input)
                      (blank_operation PAY_ASSET)
        end
        (λ r, match contract_result r with JNull => JBool true | j => j end)
  end.

Definition cb_Create (contractor init_balance code input : bytes) : M (answer * option Result) :=
  charge_step 100;;
  match amount_arg init_balance with
  | None => threw
  | Some int_balance =>
      do_operation contractor
        (with_create_account (mkCreateAccount [] code (Some (mkPrivilege 0 [] (Some (mkThresholds 1 [])))) []
          int_balance input) (blank_operation CREATE_ACCOUNT))
        (λ r, match contract_result r with JObject [_; (_, v)] => v | _ => JNull end)
  end.

Definition cb_PayCoin (contractor dest amount input remark : bytes) : M (answer * option Result) :=
  charge_step 100;;
  match amount_arg amount with
  | None => threw
  | Some pay_amount =>
      do_operation contractor
        (with_metadata (remark_arg remark) (with_pay_coin (mkPayCoin dest pay_amount input) (blank_operation PAY_COIN)))
        json_true
  end.

Definition cb_IssueAsset (contractor code amount : bytes) : M (answer * option Result) :=
  charge_step 100;;
  match amount_arg amount with
  | None => threw
  | Some issueAmount =>
      do_operation contractor (with_issue_asset (mkIssueAsset code issueAmount) (blank_operation ISSUE_ASSET)) json_true
  end.

Definition cb_PayAsset (contractor dest issuer code amount input remark : bytes) : M (answer * option Result) :=
  charge_step 100;;
  match amount_arg amount with
  | None => threw
  | Some pay_amount =>
      do_operation contractor
        (with_metadata (remark_arg remark)
          (with_pay_asset (mkPayAsset dest (Some (mkAsset (mkAssetKey issuer code 0) pay_amount)) input)
            (blank_operation PAY_ASSET))) json_true
  end.

(** *** The functions of a contract that read, or change the settings *)

Definition cb_ConfigFee (contractor : bytes) (json : Json) : M (answer * option Result) :=
  if decide (contractor ≠ GET_CONTRACT_FEE_ADDRESS G) then threw
  else top ← GetTopTx; e ← tx_environment top; UpdateFeeConfig e json;; mret (Returned (JBool true), None).

Definition cb_SetValidators (contractor : bytes) (json : Json) : M (answer * option Result) :=
  if decide (contractor ≠ GET_CONTRACT_VALIDATOR_ADDRESS G) then threw
  else top ← GetTopTx; e ← tx_environment top; UpdateNewValidators e json;; mret (Returned (JBool true), None).

Definition cb_GetBalance (address : bytes) : M (answer * option Result) :=
  charge_step 100;;
  '(e, a) ← top_entry address;
  let a := match a with Some a => Some a | None => AccountFromDB G address end in
  mret (Returned (JString match a with Some a => ToString (GetAccountBalance a) | None => str "0" end), None).

Definition cb_StorageLoad (contractor key : bytes) : M (answer * option Result) :=
  top ← GetTopTx;
  upd_tx top (ContractStepInc 100);;
  '(e, a) ← top_entry contractor;
  match a with
  | None => mret (Returned (JBool false), None)
  | Some a =>
      let '(a, kp) := GetMetaData (db G) a key in
      assign_entry e contractor a;;
      mret (Returned match kp with Some kp => JString (value kp) | None => JBool false end, None)
  end.

Definition cb_GetAccountAsset (address : bytes) (k : AssetKey) : M (answer * option Result) :=
  charge_step 100;;
  '(e, a) ← top_entry address;
  match a with
  | None => mret (Returned (JBool false), None)
  | Some a =>
      let '(a, asset) := GetAsset (db G) a (mkAssetKey (issuer k) (code k) 0) in
      assign_entry e address a;;
      mret (Returned match asset with Some s => JString (ToString (amount s)) | None => JBool false end, None)
  end.

Definition cb_InternalCheckTime (used_heap_size remain_stack_size : Z) : M (answer * option Result) :=
  b ← GetBottomTx;
  upd_tx b (ContractStepInc 1);;
  upd_tx b (SetMemoryUsage used_heap_size);;
  upd_tx b (SetStackRemain remain_stack_size);;
  expired ← IsExpire b;
  mret (if (expired : bool) then (Threw, None) else (Returned JNull, None)).

Definition cb_GetAccountMetadata (address key : bytes) : M (answer * option Result) :=
  charge_step 100;;
  '(e, a) ← top_entry address;
  match a with
  | None => mret (Returned (JBool false), None)
  | Some a =>
      let '(a, kp) := GetMetaData (db G) a key in
      assign_entry e address a;;
      mret (Returned match kp with Some kp => JString (value kp) | None => JBool false end, None)
  end.

(** The type of a contract is [TYPE_V8], that is 0. *)
Definition cb_GetContractProperty (address : bytes) : M (answer * option Result) :=
  charge_step 100;;
  '(_, a) ← top_entry address;
  mret (Returned match a with
    | None => JBool false
    | Some a =>
        let has := has_contract (account_info_ a) in
        JObject [(str "type", JInt (if has then 0 else -1));
                 (str "length", JInt (if has then size (contract (account_info_ a)) else 0))]
    end, None).

(** [back] is the argument, as an integer. *)
Definition cb_GetBlockHash (back : Z) : M (answer * option Result) :=
  charge_step 100;;
  let seq := i64 (lcl_seq G - back) in
  mret (Returned
    (if (seq <=? i64 (lcl_seq G - 1024)) || (lcl_seq G <? seq) then JBool false
     else match LedgerHash_at G seq with Some h => JString (BinToHexString h) | None => JBool false end), None).

Definition cb_GetValidators : M (answer * option Result) :=
  top ← GetTopTx; e ← tx_environment top; j ← GetValidators G e; mret (Returned j, None).

(** *** Queries of other contracts *)

(** The code [payload] is queried at the address [this] with the message of [cp]. *)
Definition with_query (payload input this : bytes) (cp : ContractParameter) : ContractParameter :=
  mkParameter false payload input this (block_number_ cp) (block_timestamp_ cp)
    (cp_tx_initiator_ cp) (cp_tx_sender_ cp) (cp_gas_price_ cp) (cp_fee_limit_ cp) (cp_tx_hash_ cp)
    (msg_initiator_ cp) (msg_sender_ cp) (msg_asset_ cp) (msg_coin_amount_ cp)
    (msg_operation_index_ cp) (msg_nonce_ cp).

(** [parameter.msg_.Reset()]: the contract that runs is the sender, and nothing is paid. *)
Definition reset_msg (cp : ContractParameter) : ContractParameter :=
  mkParameter (init_ cp) (code_ cp) (input_ cp) (this_address_ cp) (block_number_ cp) (block_timestamp_ cp)
    (cp_tx_initiator_ cp) (cp_tx_sender_ cp) (cp_gas_price_ cp) (cp_fee_limit_ cp) (cp_tx_hash_ cp)
    (msg_initiator_ cp) (this_address_ cp) None 0 0 0.

Definition query_error : Json := JObject [(str "error", JBool true)].

(** The code of the account at [address] is queried with the parameter [param payload], one
    level deeper. *)
Definition query_pushed (address : bytes) (param : bytes → ContractParameter) : M (answer * option Result) :=
  charge_step 100;;
  '(_, a) ← top_entry address;
  let payload := match a with Some a => contract (account_info_ a) | None => [] end in
  if decide (payload = []) then mret (Returned query_error, None)
  else
    top ← GetTopTx;
    push_tx top;;
    r ← Query (param payload);
    pop_tx;;
    mret (Returned match r with Some v => JObject [(str "result", v)] | None => query_error end, None).

Definition CallBackContractQueryGt1001 (cp : ContractParameter) (address input : bytes) : M (answer * option Result) :=
  query_pushed address (λ payload, with_query payload input address (reset_msg cp)).

(** Until version 1001 the stack of transactions does not grow. *)
Definition ContractQuery (cp : ContractParameter) (address input : bytes) : M (answer * option Result) :=
  if CHECK_VERSION_GT_1001 G then CallBackContractQueryGt1001 cp address input
  else
    charge_step 1000;;
    '(_, a) ← top_entry address;
    let payload := match a with Some a => contract (account_info_ a) | None => [] end in
    if decide (payload = []) then mret (Returned (JObject [(str "success", JBool false)]), None)
    else
      r ← Query (with_query payload input address (reset_msg cp));
      mret (Returned (JObject [(str "success", JBool false);
        match r with Some v => (str "result", v) | None => (str "error", JBool true) end]), None).

(** The code of another account answers for this one, with the same message. *)
Definition DelegateQuery (cp : ContractParameter) (address input : bytes) : M (answer * option Result) :=
  query_pushed address (λ payload, with_query payload input (this_address_ cp) cp).

(** The functions that read; a script that runs as a query has no others, and calling one that
    is missing is an exception. *)
Definition read_callback (cp : ContractParameter) (c : callback) : M (answer * option Result) :=
  match c with
  | CallBackGetBalance address => cb_GetBalance address
  | CallBackStorageLoad key => cb_StorageLoad (this_address_ cp) key
  | CallBackGetAccountAsset address k => cb_GetAccountAsset address k
  | CallBackGetAccountMetadata address key => cb_GetAccountMetadata address key
  | CallBackGetContractProperty address => cb_GetContractProperty address
  | CallBackGetBlockHash back => cb_GetBlockHash back
  | CallBackGetValidators => cb_GetValidators
  | CallBackContractQuery address input => ContractQuery cp address input
  | CallBackDelegateQuery address input => DelegateQuery cp address input
  | CallBackUtility v => charge_step 100;; mret (Returned v, None)
  | InternalCheckTime used_heap_size remain_stack_size => cb_InternalCheckTime used_heap_size remain_stack_size
  | _ => threw
  end.

(** [V8Contract::Query]: the value of the query function, if it returns one. *)
Fixpoint QueryCode (cp : ContractParameter) (p : prog) : M (option Json) :=
  match p with
  | Finish v => mret (Some v)
  | Uncaught | LoadFailed | LostMain => mret None
  | Call c k => '(a, _) ← read_callback cp c; QueryCode cp (k a)
  end.

(** [ContractManager::Query] at [Contract::TYPE_V8]. *)
Definition Query_body (cp : ContractParameter) : M (option Json) :=
  n ← stack_size;
  if CHECK_VERSION_GT_1001 G && (CONTRACT_MAX_RECURSIVE_DEPTH <? n) then mret None
  else QueryCode cp (v8_query cp).

(** The table of functions that a script sees. *)
Definition run_callback (cp : ContractParameter) (c : callback) : M (answer * option Result) :=
  let contractor := this_address_ cp in
  match c with
  | CallBackTopicLog topic datas => cb_TopicLog contractor topic datas
  | CallBackCall dest asset amount input => cb_Call contractor dest asset amount input
  | CallBackCreate init_balance code input => cb_Create contractor init_balance code input
  | CallBackPayCoin dest amount input remark => cb_PayCoin contractor dest amount input remark
  | CallBackIssueAsset code amount => cb_IssueAsset contractor code amount
  | CallBackPayAsset dest issuer code amount input remark => cb_PayAsset contractor dest issuer code amount input remark
  | CallBackStorageStore key value => CallBackSetMetaData contractor key value false
  | CallBackStorageDel key => CallBackSetMetaData contractor key [] true
  | CallBackDelegateCall address input => DelegateCall cp address input
  | CallBackConfigFee json => cb_ConfigFee contractor json
  | CallBackSetValidators json => cb_SetValidators contractor json
  | c => read_callback cp c
  end.

(** [V8Contract::ExecuteCode]; [r] is the member [result_]. *)
Fixpoint ExecuteCode (cp : ContractParameter) (p : prog) (r : Result) : M Result :=
  match p with
  | Finish v => mret (mkResult (rcode r) v)
  | Uncaught => mret (if decide (rcode r = ERRCODE_SUCCESS) then failure ERRCODE_CONTRACT_EXECUTE_FAIL else r)
  | LoadFailed =>
      mret (if CHECK_VERSION_GT_1001 G && bool_decide (rcode r = ERRCODE_SUCCESS)
            then failure ERRCODE_CONTRACT_EXECUTE_FAIL else r)
  | LostMain => mret (failure ERRCODE_CONTRACT_EXECUTE_FAIL)
  | Call c k =>
      '(a, o) ← run_callback cp c;
      ExecuteCode cp (k a) (default r o)
  end.

(** [ContractManager::Execute] at [Contract::TYPE_V8]. *)
Definition Execute_body (cp : ContractParameter) : M Result :=
  n ← stack_size;
  if CHECK_VERSION_GT_1001 G && (CONTRACT_MAX_RECURSIVE_DEPTH <? n)
  then mret (failure ERRCODE_CONTRACT_TOO_MANY_RECURSION)
  else ExecuteCode cp (v8 cp) success.
End open.

Fixpoint Query (fuel : nat) (cp : ContractParameter) : M (option Json) :=
  match fuel with
  | O => fault_ OutOfFuel
  | S fuel => Query_body (Query fuel) cp
  end.

Fixpoint Execute (fuel : nat) (cp : ContractParameter) : M Result :=
  match fuel with
  | O => fault_ OutOfFuel
  | S fuel => Execute_body (Execute fuel) (Query fuel) cp
  end.

(** One level for each transaction of a full stack, and one more to be refused. *)
Definition exec_fuel : nat := 6.
End contract.
