(* ===== verification/LedgerFrm.v ===== *)
(** * Execution of a block (src/src/ledger/ledger_frm.cpp, [GetBlockReward] of general.cpp)

    A block is executed three times: by the leader that proposes it ([ApplyPropose]), by a
    validator that checks the proposal ([ApplyCheck]), and by every node once it is agreed
    ([ApplyFollow]).  [Progress] holds the members of [LedgerFrm] and [ProposeTxsResult]
    that the loops change.  [enabled_], with which another thread cancels the loop, stays
    set. *)
From stdpp Require Import base gmap list strings.
From Stdlib Require Import ZArith Lia.
From S2P Require Import Prelude SafeInt Strings Hex Base58 AtomMap Account LedgerMsg Environment Operation TransactionFrm Contract.
Local Open Scope Z_scope.

(** [std::set<int32_t>]: a sorted list. *)
Fixpoint set_insert (x : Z) (l : list Z) : list Z :=
  match l with
  | [] => [x]
  | y :: l' => if x <? y then x :: l else if x =? y then l else y :: set_insert x l'
  end.

Record ConsensusValueValidation := mkValidation { expire_tx_ids : list Z; error_tx_ids : list Z }.

Record ConsensusValue := mkConsensusValue {
  value_txs : list TransactionEnv; value_close_time : Z; value_ledger_seq : Z;
  validation : option ConsensusValueValidation }.

Record Progress := mkProgress {
  total_fee_ : Z; apply_tx_frms_ : list nat; dropped_tx_frms_ : list nat;
  transaction_envs_ : list TransactionEnv;
  need_dropped_tx_ : list Z; expire_txs : list Z; error_txs : list Z }.

Definition no_progress : Progress := mkProgress 0 [] [] [] [] [] [].

Definition set_total_fee (f : Z) (p : Progress) : Progress :=
  mkProgress f (apply_tx_frms_ p) (dropped_tx_frms_ p) (transaction_envs_ p) (need_dropped_tx_ p) (expire_txs p) (error_txs p).
Definition add_dropped (t : nat) (i : Z) (p : Progress) : Progress :=
  mkProgress (total_fee_ p) (apply_tx_frms_ p) (dropped_tx_frms_ p ++ [t]) (transaction_envs_ p)
    (set_insert i (need_dropped_tx_ p)) (expire_txs p) (error_txs p).
Definition add_applied (t : nat) (env : TransactionEnv) (p : Progress) : Progress :=
  mkProgress (total_fee_ p) (apply_tx_frms_ p ++ [t]) (dropped_tx_frms_ p) (transaction_envs_ p ++ [env])
    (need_dropped_tx_ p) (expire_txs p) (error_txs p).
Definition add_expire (i : Z) (p : Progress) : Progress :=
  mkProgress (total_fee_ p) (apply_tx_frms_ p) (dropped_tx_frms_ p) (transaction_envs_ p) (need_dropped_tx_ p)
    (set_insert i (expire_txs p)) (error_txs p).
Definition add_error (i : Z) (p : Progress) : Progress :=
  mkProgress (total_fee_ p) (apply_tx_frms_ p) (dropped_tx_frms_ p) (transaction_envs_ p) (need_dropped_tx_ p)
    (expire_txs p) (set_insert i (error_txs p)).

(** ** Rewards *)

(** The loop of [GetBlockReward]. *)
Fixpoint reward_loop (n : nat) (result : Z) : Z :=
  match n with
  | O => result
  | S n =>
      if result <=? 0 then 0
      else if result <? 4 then reward_loop n (Z.quot (result * 3) 4)
      else reward_loop n (result - Z.shiftr result 2)
  end.

Definition GetBlockReward (cur_block_height : Z) : Z :=
  reward_loop (Z.to_nat (Z.quot cur_block_height REWARD_PERIOD)) REWARD_INIT_VALUE.

(** ** The outcome that the proposer announces *)

(** The two loops of [CheckConsValueValidation]; [seen] is [totol_error] and the result the
    sets of identifiers. *)
Fixpoint check_ids (tx_size : Z) (ids : list Z) (acc seen : list Z) : option (list Z * list Z) :=
  match ids with
  | [] => Some (acc, seen)
  | tid :: ids =>
      if (tx_size <=? tid) || (tid <? 0) then None
      else if decide (tid ∈ seen) then None
      else check_ids tx_size ids (set_insert tid acc) (set_insert tid seen)
  end.

(** [None]: the value is rejected. *)
Definition CheckConsValueValidation (request : ConsensusValue) : option (list Z * list Z) :=
  match validation request with
  | None => Some ([], [])
  | Some v =>
      let tx_size := Z.of_nat (length (value_txs request)) in
      '(expire, seen) ← check_ids tx_size (expire_tx_ids v) [] [];
      '(error, _) ← check_ids tx_size (error_tx_ids v) [] seen;
      Some (expire, error)
  end.

Definition SetValidationToProto (expire error : list Z) : ConsensusValueValidation := mkValidation expire error.

Section ledger.
Context {LH : LedgerHost} (G : Globals).
(** [ledger_.header().seq()]. *)
Context (header_seq : Z).

Abbreviation exec := (Execute G exec_fuel).

(** ** One transaction of a block *)

Definition begin_tx (t e : nat) : M unit :=
  push_tx t;; tx_NonceIncrease G t e;; Environment_Commit e.

(** The application with a deadline: whether the limits were exceeded, and the result. *)
Definition apply_timed (t e : nat) : M (bool * bool) :=
  upd_tx t EnableChecked;;
  now ← HighResolution;
  upd_tx t (SetMaxEndTime (i64 (now + TX_EXECUTE_TIME_OUT)));;
  ret ← Apply G exec t e false;
  expired ← IsExpire t;
  mret (expired, ret).

(** What follows a success: the fee that was not used, and the commit. *)
Definition settle (t : nat) (p : Progress) : M Progress :=
  '(f, _) ← ReturnFee G t (total_fee_ p);
  e ← tx_environment t;
  Environment_Commit e;;
  mret (set_total_fee f p).

Definition end_tx (t e : nat) (env : TransactionEnv) (p : Progress) : M Progress :=
  Environment_ClearChangeBuf e;; pop_tx;; mret (add_applied t env p).

(** The application of the [i]-th transaction by a proposer or a checker. *)
Definition apply_one (t e : nat) (env : TransactionEnv) (i : Z) (p : Progress) : M Progress :=
  begin_tx t e;;
  '(expired, ret) ← apply_timed t e;
  p ← (if (expired : bool) then mret (add_expire i p)
       else if negb ret then mret (add_error i p)
       else settle t p);
  end_tx t e env p.

(** [HighResolution() - start_time > BLOCK_EXECUTE_TIME_OUT]. *)
Definition block_timeout (start_time : Z) : M bool :=
  now ← HighResolution; mret (BLOCK_EXECUTE_TIME_OUT <? i64 (now - start_time)).

(** [std::make_shared<Environment>()] in the context. *)
Definition new_env : M nat := λ c,
  Ok (with_envs (λ l, l ++ [new_Environment]) c, length (envs c)).

Definition set_value (request : ConsensusValue) : M unit :=
  modify (λ c, mkCtx (envs c) (txs c) (transaction_stack_ c) (tick c) (value_ledger_seq request) (value_close_time request)).

(** ** Rewards *)

(** [proto_account.set_balance(proto_account.balance() + amt)], or [false]. *)
Definition reward_account (e : nat) (addr : bytes) (amt : Z) : M bool :=
  a ← deref_entry G e addr;
  match SafeIntAdd (GetAccountBalance a) amt with
  | None => mret false
  | Some b => assign_entry e addr (with_info (set_balance b) a);; mret true
  end.

(** The loop over the validators; the second component is [left_reward]. *)
Fixpoint reward_validators (e : nat) (average_fee : Z) (l : list (bytes * Z)) (left_reward : Z) : M (bool * Z) :=
  match l with
  | [] => mret (true, left_reward)
  | (addr, _) :: l =>
      a ← GetEntry G e addr;
      (match a with
       | Some _ => mret tt
       | None => let a := CreatAccountFrm addr 0 in AddEntry e (GetAccountAddress a) a
       end);;
      let left_reward := i64 (left_reward - average_fee) in
      ok ← reward_account e addr average_fee;
      if (ok : bool) then reward_validators e average_fee l left_reward else mret (false, left_reward)
  end.

Definition AllocateRewardDirectly (e : nat) (total_reward : Z) : M bool :=
  match GetValidators_at G (header_seq - 1) with
  | None | Some [] => mret false
  | Some l =>
      let n := Z.of_nat (length l) in
      let random_index := Z.rem header_seq n in
      let average_fee := Z.quot total_reward n in
      '(ok, left_reward) ← reward_validators e average_fee l total_reward;
      if negb ok then mret false
      else if 0 <? left_reward then
        match (if random_index <? 0 then None else l !! Z.to_nat random_index) with
        | Some (addr, _) => reward_account e addr left_reward
        | None => fault_ NullDeref
        end
      else mret true
  end.

Definition AllocateReward (e : nat) (total_fee : Z) : M bool :=
  let total_reward := i64 (total_fee + GetBlockReward header_seq) in
  if (total_reward =? 0) || is_test_mode_ G then mret true
  else
    ok ← (if CHECK_VERSION_GT_1002 G then
            a ← GetEntry G e (GET_CONTRACT_VALIDATOR_ADDRESS G);
            match a with
            | Some _ => reward_account e (GET_CONTRACT_VALIDATOR_ADDRESS G) total_reward
            | None => AllocateRewardDirectly e total_reward
            end
          else AllocateRewardDirectly e total_reward);
    if negb ok then mret false else Environment_Commit e;; mret true.

(** ** The leader *)

Definition dropped_count (p : Progress) : Z := Z.of_nat (length (need_dropped_tx_ p)).

Fixpoint propose_loop (e : nat) (start_time : Z) (i : Z) (l : list TransactionEnv) (p : Progress) : M (Progress * bool) :=
  match l with
  | [] => mret (p, true)
  | env :: l =>
      t ← new_tx (new_TransactionFrm env);
      ok ← ValidForApply G t e (negb (is_test_mode_ G));
      if negb ok then propose_loop e start_time (i + 1) l (add_dropped t i p)
      else
        '(f, paid) ← PayFee G t e (total_fee_ p);
        let p := set_total_fee f p in
        if negb paid then propose_loop e start_time (i + 1) l (add_dropped t i p)
        else
          p ← apply_one t e env (i - dropped_count p) p;
          late ← block_timeout start_time;
          if (late : bool) then mret (p, false) else propose_loop e start_time (i + 1) l p
  end.

(** The environment, the progress, the announced outcome and the returned flag. *)
Definition ApplyPropose (request : ConsensusValue) : M (nat * Progress * ConsensusValueValidation * bool) :=
  start_time ← HighResolution;
  set_value request;;
  e ← new_env;
  match validation request with
  | Some _ => mret (e, no_progress, mkValidation [] [], false)
  | None =>
      '(p, ok) ← propose_loop e start_time 0 (value_txs request) no_progress;
      if negb ok then mret (e, p, mkValidation [] [], false)
      else
        AllocateReward e (total_fee_ p);;
        HighResolution;;
        mret (e, p, SetValidationToProto (expire_txs p) (error_txs p), true)
  end.

(** ** The validators *)

Fixpoint check_loop (e : nat) (start_time : Z) (i : Z) (l : list TransactionEnv) (p : Progress) : M (Progress * bool) :=
  match l with
  | [] => mret (p, true)
  | env :: l =>
      t ← new_tx (new_TransactionFrm env);
      ok ← ValidForApply G t e (negb (is_test_mode_ G));
      if negb ok then mret (p, false)
      else
        '(f, paid) ← PayFee G t e (total_fee_ p);
        let p := set_total_fee f p in
        if negb paid then mret (p, false)
        else
          p ← apply_one t e env i p;
          late ← block_timeout start_time;
          if (late : bool) then mret (p, false) else check_loop e start_time (i + 1) l p
  end.

Definition ApplyCheck (request : ConsensusValue) : M (nat * Progress * bool) :=
  start_time ← HighResolution;
  set_value request;;
  e ← new_env;
  match CheckConsValueValidation request with
  | None => mret (e, no_progress, false)
  | Some (expire_txs_check, error_txs_check) =>
      '(p, ok) ← check_loop e start_time 0 (value_txs request) no_progress;
      if negb ok then mret (e, p, false)
      else
        AllocateReward e (total_fee_ p);;
        HighResolution;;
        mret (e, p, bool_decide (expire_txs p = expire_txs_check ∧ error_txs p = error_txs_check))
  end.

(** ** Every node *)

(** The application of an agreed transaction, which is not run if it was announced as expired. *)
Definition follow_one (t e : nat) (env : TransactionEnv) (i : Z) (expired : bool) (p : Progress) : M Progress :=
  begin_tx t e;;
  p ← (if expired then ApplyExpireResult t;; mret p
       else
         ret ← Apply G exec t e false;
         if negb ret then mret (add_error i p) else settle t p);
  end_tx t e env p.

Fixpoint follow_loop (e : nat) (expire_txs_check : list Z) (i : Z) (l : list TransactionEnv) (p : Progress) : M Progress :=
  match l with
  | [] => mret p
  | env :: l =>
      t ← new_tx (new_TransactionFrm env);
      '(f, paid) ← PayFee G t e (total_fee_ p);
      let p := set_total_fee f p in
      if negb paid then follow_loop e expire_txs_check (i + 1) l p
      else
        p ← follow_one t e env i (bool_decide (i ∈ expire_txs_check)) p;
        follow_loop e expire_txs_check (i + 1) l p
  end.

Definition ApplyFollow (request : ConsensusValue) : M (nat * Progress * bool) :=
  HighResolution;;
  set_value request;;
  e ← new_env;
  match CheckConsValueValidation request with
  | None => mret (e, no_progress, false)
  | Some (expire_txs_check, _) =>
      p ← follow_loop e expire_txs_check 0 (value_txs request) no_progress;
      AllocateReward e (total_fee_ p);;
      HighResolution;;
      mret (e, p, true)
  end.

(** ** What a block leaves behind *)

(** The accounts that [LedgerFrm::Commit] writes: the committed entries that are not deleted. *)
Definition committed (c : Ctx) (e : nat) : layer AccountFrm :=
  match envs c !! e with Some v => match data_ v with Own d => d | BuffOf _ => ∅ end | None => ∅ end.

(** The accounts by address, after the block is written. *)
Definition accounts_after (c : Ctx) (e : nat) (k : bytes) : option AccountFrm :=
  match committed c e !! k with Some o => o | None => AccountFromDB G k end.
End ledger.
