(* ===== verification/LedgerLogic.v ===== *)
(** * A program logic for the ledger

    Weakest preconditions for the monad [M]: [wp F m c Q] says that [m] started in [c]
    either ends with a value and a context that satisfy [Q], or faults with a fault that [F]
    allows.  The rules below are used with three choices of [F]: no fault at all, any fault,
    and any fault but [OutOfFuel]. *)
From stdpp Require Import base gmap list strings.
From Stdlib Require Import ZArith Lia.
From S2P Require Import Prelude SafeInt Strings Hex Base58 AtomMap Account LedgerMsg Environment.

Definition wp {A} (F : fault → Prop) (m : M A) (c : Ctx) (Q : A → Ctx → Prop) : Prop :=
  match m c with Ok (c', a) => Q a c' | Err e => F e end.

Section rules.
Context (F : fault → Prop).

Lemma wp_ret {A} (a : A) c Q : Q a c → wp F (mret a) c Q.
Proof. done. Qed.

Lemma wp_bind {A B} (m : M A) (f : A → M B) c Q :
  wp F m c (λ a c', wp F (f a) c' Q) → wp F (m ≫= f) c Q.
Proof. unfold wp, mbind, M_bind. by destruct (m c) as [[c' a]|e]. Qed.

Lemma wp_mono {A} (m : M A) c (Q Q' : A → Ctx → Prop) :
  wp F m c Q → (∀ a c', Q a c' → Q' a c') → wp F m c Q'.
Proof. unfold wp. destruct (m c) as [[c' a]|e]; auto. Qed.

Lemma wp_fault {A} e c (Q : A → Ctx → Prop) : F e → wp F (fault_ e) c Q.
Proof. done. Qed.

Lemma wp_get_ctx c (Q : Ctx → Ctx → Prop) : Q c c → wp F get_ctx c Q.
Proof. done. Qed.

Lemma wp_modify f c (Q : unit → Ctx → Prop) : Q tt (f c) → wp F (modify f) c Q.
Proof. done. Qed.

Lemma wp_lift_res {A} (r : res A) c (Q : A → Ctx → Prop) :
  (∀ e, r = Err e → F e) → (∀ a, r = Ok a → Q a c) → wp F (lift_res r) c Q.
Proof. unfold wp, lift_res. destruct r; eauto. Qed.

Lemma wp_get_tx t c (Q : TransactionFrm → Ctx → Prop) :
  F NullDeref → (∀ x, txs c !! t = Some x → Q x c) → wp F (get_tx t) c Q.
Proof. unfold wp, get_tx. destruct (txs c !! t); eauto. Qed.

Lemma wp_get_tx_Some t c x (Q : TransactionFrm → Ctx → Prop) :
  txs c !! t = Some x → Q x c → wp F (get_tx t) c Q.
Proof. unfold wp, get_tx. by intros ->. Qed.

Lemma wp_get_env e c (Q : Environment → Ctx → Prop) :
  F NullDeref → (∀ v, envs c !! e = Some v → Q v c) → wp F (get_env e) c Q.
Proof. unfold wp, get_env. destruct (envs c !! e); eauto. Qed.

Lemma wp_GetBottomTx c (Q : nat → Ctx → Prop) :
  F NullDeref → (∀ b, head (transaction_stack_ c) = Some b → Q b c) → wp F GetBottomTx c Q.
Proof. unfold wp, GetBottomTx. destruct (transaction_stack_ c); simpl; eauto. Qed.

Lemma wp_GetTopTx c (Q : nat → Ctx → Prop) :
  F NullDeref → (∀ t, last (transaction_stack_ c) = Some t → Q t c) → wp F GetTopTx c Q.
Proof. unfold wp, GetTopTx. destruct (last (transaction_stack_ c)); eauto. Qed.

(** Facts about the result, from the run itself. *)
Lemma wp_run {A} (m : M A) c c' a Q : m c = Ok (c', a) → wp F m c Q → Q a c'.
Proof. unfold wp. by intros ->. Qed.

Lemma run_wp {A} (m : M A) c Q : wp (λ _, False) m c Q → ∃ c' a, m c = Ok (c', a) ∧ Q a c'.
Proof. unfold wp. destruct (m c) as [[c' a]|e]; [eauto|done]. Qed.
End rules.

(** Case analysis on the [match] or [if] that decides the next step. *)
Ltac wp_case :=
  match goal with
  | |- wp _ (match ?x with _ => _ end) _ _ => let E := fresh "E" in destruct x eqn:E
  end.

(** A bind, a return. *)
Ltac wp_simp := repeat first [apply wp_bind | apply wp_ret].

#[export] Hint Resolve wp_ret : ceg.
