(* ===== verification/LedgerInv.v ===== *)
(** * The invariant of execution

    One induction over everything that runs during [Apply], contracts included, shows three
    facts at once:
    - the committed accounts and settings of the root environment [e0] do not change
      (isolation);
    - balances stay between 0 and [INT64_MAX] when they were ([nn] switches this part on);
    - the nesting of contracts stays within the fuel, from version 1002 on.
    The theorems on whole blocks are in [LedgerClaims]. *)
From stdpp Require Import base gmap list strings numbers.
From Stdlib Require Import ZArith Lia.
From S2P Require Import Prelude SafeInt Strings Hex Base58 AtomMap Account LedgerMsg Environment Operation TransactionFrm Contract LedgerLogic.
Local Open Scope Z_scope.

(** ** Updates that keep the balance *)

(** The account is as before but for its privileges. *)
Definition repriv (a a' : AccountFrm) : Prop := ∃ p, a' = with_info (set_priv p) a.

Lemma repriv_refl a : repriv a a.
Proof. exists (priv (account_info_ a)). by destruct a as [[] ? ?]. Qed.

Lemma repriv_trans a b d : repriv a b → repriv b d → repriv a d.
Proof. intros [p ->] [q ->]. by exists q. Qed.

Lemma repriv_foldl {X} (f : AccountFrm → X → AccountFrm) l :
  (∀ a x, repriv a (f a x)) → ∀ a, repriv a (foldl f a l).
Proof.
  intros Hf. induction l as [|x l IH]; intros a; [apply repriv_refl|]. eapply repriv_trans; [apply Hf|apply IH].
Qed.

Lemma repriv_update_signers l a : repriv a (update_signers l a).
Proof.
  apply repriv_foldl. intros b s. unfold UpdateSigner. repeat case_match; try apply repriv_refl; eexists; done.
Qed.

Lemma repriv_update_type_thresholds l a : repriv a (update_type_thresholds l a).
Proof.
  apply repriv_foldl. intros b s. unfold UpdateTypeThreshold. repeat case_match; try apply repriv_refl; eexists; done.
Qed.

Lemma repriv_master w a : repriv a (if 0 <=? w then SetProtoMasterWeight a w else a).
Proof. case_match; [by eexists|apply repriv_refl]. Qed.

Lemma repriv_threshold t a : repriv a (if 0 <=? t then SetProtoTxThreshold a t else a).
Proof. case_match; [by eexists|apply repriv_refl]. Qed.

Lemma repriv_privilege ope a :
  repriv a (update_type_thresholds (sp_type_thresholds ope)
    (let s := update_signers (sp_signers ope) (if decide (sp_master_weight ope = []) then a
       else let w := Stoi64 (sp_master_weight ope) in if 0 <=? w then SetProtoMasterWeight a w else a) in
     if decide (sp_tx_threshold ope = []) then s
     else let t := Stoi64 (sp_tx_threshold ope) in if 0 <=? t then SetProtoTxThreshold s t else s)).
Proof.
  eapply repriv_trans; [|apply repriv_update_type_thresholds]. cbv zeta.
  set (s0 := if decide (sp_master_weight ope = []) then a else _).
  assert (repriv a s0).
  { unfold s0. destruct (decide (sp_master_weight ope = [])); [apply repriv_refl|apply repriv_master]. }
  eapply (repriv_trans _ (update_signers (sp_signers ope) s0)).
  - by eapply repriv_trans; [|apply repriv_update_signers].
  - destruct (decide (sp_tx_threshold ope = [])); [apply repriv_refl|apply repriv_threshold].
Qed.

Lemma info_init_metadatas l : ∀ a b, init_metadatas l a = Some b → account_info_ b = account_info_ a.
Proof.
  induction l as [|kp l IH]; intros a b; simpl; [by intros [= <-]|].
  case_match; [done|]. intros Hi. by apply IH in Hi.
Qed.

Lemma info_GetAsset d a k a' o : GetAsset d a k = (a', o) → account_info_ a' = account_info_ a.
Proof. unfold GetAsset. repeat case_match; naive_solver. Qed.

Lemma info_GetMetaData d a k a' o : GetMetaData d a k = (a', o) → account_info_ a' = account_info_ a.
Proof. unfold GetMetaData. repeat case_match; naive_solver. Qed.

(** ** The invariant *)

Section inv.
Context {LH : LedgerHost} (G : Globals).
(** [D] is what the root has committed: accounts and settings. *)
Context (nn : Prop) (e0 t0 : nat) (D : layer AccountFrm * layer Json).

Definition bal_ok (z : Z) : Prop := 0 ≤ z < 2 ^ 63.
Definition acct_ok (a : AccountFrm) : Prop := nn → bal_ok (GetAccountBalance a).
Definition layer_ok (m : layer AccountFrm) : Prop := ∀ k a, m !! k = Some (Some a) → acct_ok a.
Definition env_ok (v : Environment) : Prop :=
  layer_ok (buff_ v) ∧ ∀ m, data_ v = Own m → layer_ok m.

(** The accounts on disk and the reserve, when balances are followed. *)
Context (Hdb : nn → ∀ k a, db_account (db G) !! k = Some a → bal_ok (balance a)).
Context (Hres : nn → bal_ok (base_reserve G)).

Record inv (c : Ctx) : Prop := {
  inv_envs i v : envs c !! i = Some v → env_ok v;
  inv_root : ∃ v, envs c !! e0 = Some v ∧ data_ v = Own D.1 ∧ settings_data_ v = Own D.2;
  inv_txs : (t0 < length (txs c))%nat;
  inv_frames t x : (t0 < t)%nat → txs c !! t = Some x → environment_ x ≠ Some e0 }.

(** What holds of every part of the execution of a transaction. *)
Record post (c c' : Ctx) : Prop := {
  post_inv : inv c';
  post_tx t x : txs c !! t = Some x → ∃ x', txs c' !! t = Some x' ∧ transaction_env_ x' = transaction_env_ x;
  post_stack : (length (transaction_stack_ c) ≤ length (transaction_stack_ c'))%nat }.

Lemma post_refl c : inv c → post c c.
Proof. split; eauto. Qed.

Lemma post_trans c1 c2 c3 : post c1 c2 → post c2 c3 → post c1 c3.
Proof.
  intros [_ Ht1 Hs1] [Hi Ht2 Hs2]. split; [done| |lia].
  intros t x Hx. destruct (Ht1 t x Hx) as (x1 & Hx1 & <-). eauto.
Qed.

Definition F (e : fault) : Prop := CHECK_VERSION_GT_1001 G = true → e ≠ OutOfFuel.

(** [m] keeps the invariant when the stack has at least [N] transactions. *)
Definition tri {A} (N : nat) (m : M A) (Q : A → Prop) : Prop :=
  ∀ c, inv c → (N ≤ length (transaction_stack_ c))%nat → wp F m c (λ a c', post c c' ∧ Q a).

Lemma tri_ret {A} N (a : A) (Q : A → Prop) : Q a → tri N (mret a) Q.
Proof. intros Ha c Hc _. split; [by apply post_refl|done]. Qed.

Lemma tri_bind {A B} N (m : M A) (f : A → M B) (Q : A → Prop) R :
  tri N m Q → (∀ a, Q a → tri N (f a) R) → tri N (m ≫= f) R.
Proof.
  intros Hm Hf c Hc Hn. apply wp_bind. eapply wp_mono; [by apply Hm|]. intros a c1 [Hp Ha].
  pose proof (post_stack _ _ Hp).
  eapply wp_mono; [apply (Hf a Ha); [by apply Hp|lia]|]. intros b c2 [Hp2 Hb].
  split; [by eapply post_trans|done].
Qed.

Lemma tri_mono {A} N (m : M A) (Q Q' : A → Prop) : tri N m Q → (∀ a, Q a → Q' a) → tri N m Q'.
Proof. intros Hm HQ c Hc Hn. eapply wp_mono; [by apply Hm|]. intros a c' [? ?]. auto. Qed.

Lemma tri_fault {A} N e (Q : A → Prop) : e ≠ OutOfFuel → tri N (fault_ e) Q.
Proof. intros He c Hc _. apply wp_fault. by intros _. Qed.

Lemma F_null : F NullDeref.
Proof. by intros _. Qed.

(** ** Primitives *)

Lemma post_txs c c' :
  inv c → envs c' = envs c → transaction_stack_ c' = transaction_stack_ c →
  (∀ t x, txs c !! t = Some x → ∃ x', txs c' !! t = Some x' ∧ transaction_env_ x' = transaction_env_ x) →
  (∀ t x, (t0 < t)%nat → txs c' !! t = Some x → environment_ x ≠ Some e0) →
  post c c'.
Proof.
  intros Hc Ee Es Ht Hf. split; [split|done|by rewrite Es].
  - intros i v. rewrite Ee. apply (inv_envs _ Hc).
  - rewrite Ee. apply (inv_root _ Hc).
  - pose proof (inv_txs _ Hc) as H0. destruct (lookup_lt_is_Some_2 _ _ H0) as [x Hx].
    destruct (Ht _ _ Hx) as (x' & Hx' & _). by eapply lookup_lt_Some.
  - done.
Qed.

Lemma tri_get_tx N t : tri N (get_tx t) (λ _, True).
Proof.
  intros c Hc _. apply wp_get_tx; [apply F_null|]. intros x _. split; [by apply post_refl|done].
Qed.

Lemma tri_upd_tx N t f :
  (∀ x, transaction_env_ (f x) = transaction_env_ x) →
  (∀ x, environment_ (f x) = environment_ x) → tri N (upd_tx t f) (λ _, True).
Proof.
  intros Hf He c Hc _. apply wp_modify. split; [|done]. apply post_txs; [done..| |]; simpl.
  - intros t' x Hx. destruct (decide (t = t')) as [->|].
    + rewrite list_lookup_alter_eq, Hx. simpl. eauto.
    + rewrite list_lookup_alter_ne by done. eauto.
  - intros t' x Ht. destruct (decide (t = t')) as [->|].
    + rewrite list_lookup_alter_eq. destruct (txs c !! t') as [y|] eqn:E; [|done]. intros [= <-].
      rewrite He. by eapply inv_frames.
    + rewrite list_lookup_alter_ne by done. by apply inv_frames.
Qed.

Lemma tri_set_environment N t e :
  e ≠ e0 ∨ (t ≤ t0)%nat → tri N (upd_tx t (set_environment e)) (λ _, True).
Proof.
  intros He c Hc _. apply wp_modify. split; [|done]. apply post_txs; [done..| |]; simpl.
  - intros t' x Hx. destruct (decide (t = t')) as [->|].
    + rewrite list_lookup_alter_eq, Hx. simpl. eauto.
    + rewrite list_lookup_alter_ne by done. eauto.
  - intros t' x Ht. destruct (decide (t = t')) as [->|].
    + rewrite list_lookup_alter_eq. destruct (txs c !! t') as [y|] eqn:E; [|done]. intros [= <-].
      simpl. intros [= ->]. destruct He; [done|lia].
    + rewrite list_lookup_alter_ne by done. by apply inv_frames.
Qed.

Lemma tri_new_tx N x :
  environment_ x = None → tri N (new_tx x) (λ t, (t0 < t)%nat).
Proof.
  intros Hx c Hc _. unfold wp, new_tx. split; [|apply (inv_txs _ Hc)].
  apply post_txs; [done..| |]; simpl.
  - intros t y Hy. exists y. split; [by apply lookup_app_l_Some|done].
  - intros t y Ht [Hy|[_ Hy]]%lookup_app_Some; [by eapply inv_frames|].
    apply list_lookup_singleton_Some in Hy as [_ <-]. by rewrite Hx.
Qed.

Lemma tri_GetBottomTx N : tri N GetBottomTx (λ _, True).
Proof. intros c Hc _. apply wp_GetBottomTx; [apply F_null|]. intros b _. split; [by apply post_refl|done]. Qed.

Lemma tri_GetTopTx N : tri N GetTopTx (λ _, True).
Proof. intros c Hc _. apply wp_GetTopTx; [apply F_null|]. intros b _. split; [by apply post_refl|done]. Qed.

Lemma tri_get_ctx N : tri N get_ctx (λ _, True).
Proof. intros c Hc _. apply wp_get_ctx. split; [by apply post_refl|done]. Qed.

Lemma tri_lift_res {A} N (r : res A) : (∀ e, r = Err e → e ≠ OutOfFuel) → tri N (lift_res r) (λ _, True).
Proof.
  intros Hr c Hc _. apply wp_lift_res; [intros e He _; auto|]. intros a _. split; [by apply post_refl|done].
Qed.

Lemma tri_HighResolution N : tri N HighResolution (λ _, True).
Proof. intros c Hc _. unfold wp, HighResolution. split; [|done]. apply post_txs; [done..|eauto|apply (inv_frames _ Hc)]. Qed.

(** ** Environments *)

Lemma post_envs c c' :
  inv c → txs c' = txs c → transaction_stack_ c' = transaction_stack_ c →
  (∀ i v, envs c' !! i = Some v → env_ok v) → (∃ v, envs c' !! e0 = Some v ∧ data_ v = Own D.1 ∧ settings_data_ v = Own D.2) →
  post c c'.
Proof.
  intros Hc Et Es He Hr. split; [split; try done| |by rewrite Es].
  - rewrite Et. apply (inv_txs _ Hc).
  - rewrite Et. apply (inv_frames _ Hc).
  - rewrite Et. eauto.
Qed.

Lemma tri_upd_env N e f :
  (∀ v, env_ok v → env_ok (f v)) → (e = e0 → ∀ v, data_ (f v) = data_ v ∧ settings_data_ (f v) = settings_data_ v) →
  tri N (upd_env e f) (λ _, True).
Proof.
  intros Hf Hd c Hc _. apply wp_modify. split; [|done]. apply post_envs; [done..| |]; simpl.
  - intros i v. destruct (decide (e = i)) as [->|].
    + rewrite list_lookup_alter_eq. destruct (envs c !! i) as [w|] eqn:E; [|done]. intros [= <-].
      apply Hf. by eapply inv_envs.
    + rewrite list_lookup_alter_ne by done. by apply inv_envs.
  - destruct (inv_root _ Hc) as (v & Hv & Ed & Es). destruct (decide (e = e0)) as [->|].
    + exists (f v). rewrite list_lookup_alter_eq, Hv. simpl. destruct (Hd eq_refl v) as [-> ->]. done.
    + exists v. by rewrite list_lookup_alter_ne.
Qed.

Lemma layer_ok_insert m k o :
  layer_ok m → (∀ a, o = Some a → acct_ok a) → layer_ok (<[k := o]> m).
Proof. intros Hm Ho k' a. rewrite lookup_insert. case_decide; [intros [= ->]; auto|apply Hm]. Qed.

Lemma layer_ok_empty : layer_ok ∅.
Proof. intros k a. by rewrite lookup_empty. Qed.

Lemma layer_ok_union m1 m2 : layer_ok m1 → layer_ok m2 → layer_ok (m1 ∪ m2).
Proof. intros H1 H2 k a [H|[_ H]]%lookup_union_Some_raw; eauto. Qed.

Lemma AccountFromDB_ok k a : AccountFromDB G k = Some a → acct_ok a.
Proof.
  unfold AccountFromDB. destruct (db_account (db G) !! DecodeAddress k) as [x|] eqn:E; [|done]. intros [= <-] Hn.
  exact (Hdb Hn _ x E).
Qed.

Lemma tri_set_buff N e b : layer_ok b → tri N (upd_env e (set_buff b)) (λ _, True).
Proof. intros Hb. apply tri_upd_env; [|done]. intros v [_ Hv]. by split. Qed.

Lemma tri_settings N e (f : Environment → Environment) :
  (∀ v, buff_ (f v) = buff_ v ∧ data_ (f v) = data_ v) →
  (e = e0 → ∀ v, settings_data_ (f v) = settings_data_ v) → tri N (upd_env e f) (λ _, True).
Proof.
  intros Hf Hs. apply tri_upd_env.
  - intros v [Hb Hd]. destruct (Hf v) as [E1 E2]. split; [by rewrite E1|by rewrite E2].
  - intros He v. split; [apply Hf|by apply Hs].
Qed.

Lemma tri_get_env N e : tri N (get_env e) env_ok.
Proof.
  intros c Hc _. apply wp_get_env; [apply F_null|]. intros v Hv. split; [by apply post_refl|].
  by eapply inv_envs.
Qed.

Lemma tri_get_data N v : env_ok v → tri N (get_data v) layer_ok.
Proof.
  intros [_ Hd]. unfold get_data. destruct (data_ v) as [d|p]; [by apply tri_ret, Hd|].
  eapply tri_bind; [apply tri_get_env|]. intros w [Hw _]. by apply tri_ret.
Qed.

Lemma tri_get_settings_data N v : tri N (get_settings_data v) (λ _, True).
Proof.
  unfold get_settings_data. destruct (settings_data_ v); [by apply tri_ret|].
  eapply tri_bind; [apply tri_get_env|]. intros. by apply tri_ret.
Qed.

Lemma tri_GetEntry N e k : tri N (GetEntry G e k) (λ o, ∀ a, o = Some a → acct_ok a).
Proof.
  eapply tri_bind; [apply tri_get_env|]. intros v Hv.
  eapply tri_bind; [by apply tri_get_data|]. intros d Hd. destruct Hv as [Hb _].
  unfold spec_get. destruct (buff_ v !! k) as [o|] eqn:E.
  - eapply tri_bind; [by apply tri_set_buff|]. intros _ _. apply tri_ret. intros a ->. by eapply Hb.
  - destruct (match d !! k with Some o => o | None => AccountFromDB G k end) as [a|] eqn:E2.
    + assert (acct_ok a) as Ha.
      { destruct (d !! k) as [o|] eqn:E3; [subst; by eapply Hd|by eapply AccountFromDB_ok]. }
      eapply tri_bind; [apply tri_set_buff, layer_ok_insert; [done|by intros ? [= <-]]|].
      intros _ _. apply tri_ret. by intros ? [= <-].
    + eapply tri_bind; [by apply tri_set_buff|]. intros _ _. by apply tri_ret.
Qed.

Lemma tri_AddEntry N e k a : acct_ok a → tri N (AddEntry e k a) (λ _, True).
Proof.
  intros Ha. apply tri_upd_env; [|done]. intros v [Hb Hd]. split; [|done].
  apply layer_ok_insert; [done|]. by intros ? [= <-].
Qed.

Lemma tri_deref_entry N e k : tri N (deref_entry G e k) acct_ok.
Proof.
  eapply tri_bind; [apply tri_GetEntry|]. intros [a|] Ha; [by apply tri_ret, Ha|by apply tri_fault].
Qed.

Lemma tri_Clear N e : tri N (Environment_ClearChangeBuf e) (λ _, True).
Proof.
  eapply tri_bind; [by apply tri_settings|]. intros _ _. apply tri_set_buff, layer_ok_empty.
Qed.

Lemma tri_Commit N e : e ≠ e0 → tri N (Environment_Commit e) (λ _, True).
Proof.
  intros He. eapply tri_bind; [apply tri_get_env|]. intros v Hv.
  eapply tri_bind; [apply tri_get_settings_data|]. intros sd _.
  eapply tri_bind; [by apply tri_get_data|]. intros d Hd. destruct Hv as [Hb Hv]. cbn [spec_commit].
  eapply tri_bind; [by apply tri_settings|]. intros _ _.
  eapply tri_bind; [unfold put_settings_data; destruct (settings_data_ v); by apply tri_settings|]. intros _ _.
  eapply tri_bind; [apply tri_set_buff, layer_ok_empty|]. intros _ _.
  assert (layer_ok (buff_ v ∪ d)) by by apply layer_ok_union.
  unfold put_data. destruct (data_ v); [|by apply tri_set_buff].
  apply tri_upd_env; [|done]. intros w [Hw _]. split; [done|]. by intros m' [= <-].
Qed.

Lemma tri_NewStackFrameEnv N e : tri N (NewStackFrameEnv e) (λ f, f ≠ e0).
Proof.
  intros c Hc _. unfold wp, NewStackFrameEnv. destruct (inv_root _ Hc) as (v & Hv & Ed & Es).
  pose proof (lookup_lt_Some _ _ _ Hv). split; [|lia]. apply post_envs; [done..| |]; simpl.
  - intros i w [Hw|[_ Hw]]%lookup_app_Some; [by eapply inv_envs|].
    apply list_lookup_singleton_Some in Hw as [_ <-]. split; [apply layer_ok_empty|done].
  - exists v. split; [by apply lookup_app_l_Some|done].
Qed.

Lemma tri_GetSetting N e k : tri N (GetSetting e k) (λ _, True).
Proof.
  eapply tri_bind; [apply tri_get_env|]. intros v _. eapply tri_bind; [apply tri_get_settings_data|]. intros d _.
  destruct (spec_get _ _ _) as [[|b L] o]; [by apply tri_ret|].
  eapply tri_bind; [by apply tri_settings|]. intros. by apply tri_ret.
Qed.

Lemma tri_SetSetting N e k j : tri N (SetSetting e k j) (λ _, True).
Proof. by apply tri_settings. Qed.
End inv.
