(* ===== verification/ExecInv.v ===== *)
(** * The invariant of execution, operation by operation

    The members of [OperationFrm] and [TransactionFrm], [DoTransaction], the callbacks of
    contracts and [Execute] keep the invariant of [LedgerInv]. *)
From stdpp Require Import base gmap list strings numbers.
From Stdlib Require Import ZArith Lia.
From S2P Require Import Prelude SafeInt Strings Hex Base58 AtomMap Account LedgerMsg Environment Operation TransactionFrm Contract LedgerLogic LedgerInv.
Local Open Scope Z_scope.

(** The 64-bit fields of an operation hold 64-bit integers. *)
Definition wt_op (o : Operation) : Prop := is_i64 (pc_amount (pay_coin o)) ∧ is_i64 (ca_init_balance (create_account o)).
Definition wt_env (env : TransactionEnv) : Prop :=
  Forall wt_op (operations (transaction env)) ∧ is_i64 (fee_limit (transaction env)).

Lemma AddBalance_spec a amt a' : is_i64 (GetAccountBalance a) → is_i64 amt → AddBalance a amt = Some a' →
  GetAccountBalance a' = GetAccountBalance a + amt ∧ is_i64 (GetAccountBalance a').
Proof.
  intros Ha Hm. unfold AddBalance. rewrite SafeIntAdd_exact by done.
  destruct (exact _) as [b|] eqn:E; [|done]. apply exact_Some in E as [-> Hi]. by intros [= <-].
Qed.

Lemma bal_ok_i64 z : bal_ok z → is_i64 z.
Proof. unfold bal_ok, is_i64. lia. Qed.

Lemma GetAccountBalance_set b a : GetAccountBalance (with_info (set_balance b) a) = b.
Proof. done. Qed.

Lemma amount_arg_ok s n : amount_arg s = Some n → is_i64 n.
Proof.
  unfold amount_arg. destruct (SafeStoi64 s) as [m|] eqn:E; [|done].
  apply SafeStoi64_range in E. case_match; naive_solver.
Qed.

Create HintDb tri discriminated.

Section ops.
Context {LH : LedgerHost} (G : Globals).
Context (nn : Prop) (e0 t0 : nat) (D : layer AccountFrm * layer Json).
Context (Hdb : nn → ∀ k a, db_account (db G) !! k = Some a → bal_ok (balance a)).
Context (Hres : nn → bal_ok (base_reserve G)).

Local Abbreviation acct_ok := (LedgerInv.acct_ok nn).
Local Abbreviation tri N m Q := (LedgerInv.tri G nn e0 t0 D N m Q).

Lemma acct_ok_info a b : account_info_ a = account_info_ b → acct_ok b → acct_ok a.
Proof. unfold LedgerInv.acct_ok, GetAccountBalance. by intros ->. Qed.

Lemma acct_ok_bal a b : GetAccountBalance a = GetAccountBalance b → acct_ok b → acct_ok a.
Proof. unfold LedgerInv.acct_ok. by intros ->. Qed.

Lemma acct_ok_repriv a b : repriv b a → acct_ok b → acct_ok a.
Proof. intros [p ->]. by apply acct_ok_bal. Qed.

Lemma tri_assign N e k a : acct_ok a → tri N (assign_entry e k a) (λ _, True).
Proof. apply tri_AddEntry. Qed.

Local Hint Resolve tri_get_tx tri_GetEntry tri_deref_entry tri_GetBottomTx tri_GetTopTx tri_get_ctx
  tri_HighResolution tri_GetSetting tri_SetSetting tri_assign tri_AddEntry : tri.

(** One step of a bind whose first part is a primitive. *)
Ltac tri_bind_ a Ha := eapply tri_bind; [solve [eauto with tri]|intros a Ha; cbn beta zeta].

Ltac tri_done := by apply tri_ret.

Lemma tri_operation_source N o t : tri N (operation_source o t) (λ _, True).
Proof. unfold operation_source. case_decide; [|tri_done]. tri_bind_ x Hx. tri_done. Qed.

Lemma tri_CheckSignature N e t o : tri N (CheckSignature G e t o) (λ _, True).
Proof.
  eapply tri_bind; [apply tri_operation_source|intros src _]. tri_bind_ a Ha.
  destruct a; [|tri_done]. tri_bind_ x Hx. tri_done.
Qed.

Lemma tri_contract_parameter N t i c p a s x m :
  tri N (contract_parameter t i c p a s x m) (λ _, True).
Proof. tri_bind_ c0 Hc. tri_bind_ b Hb. tri_bind_ y Hy. tri_bind_ z Hz. tri_done. Qed.

Lemma tri_IssueAsset N e o src : tri N (IssueAsset G e o src) (λ _, True).
Proof.
  tri_bind_ a Ha. destruct (GetAsset _ _ _) as [a' s] eqn:E. apply info_GetAsset in E.
  assert (acct_ok a') by by eapply acct_ok_info. tri_bind_ u Hu.
  destruct s as [s|]; [destruct (SafeIntAdd _ _); [|tri_done]|]; tri_bind_ u' Hu'; tri_done.
Qed.

Lemma tri_transfer_asset N e src dest a : tri N (transfer_asset G e src dest a) (λ _, True).
Proof.
  tri_bind_ s Hs. destruct (GetAsset _ _ _) as [s' x] eqn:E. apply info_GetAsset in E.
  assert (acct_ok s') by by eapply acct_ok_info. tri_bind_ u Hu.
  destruct x as [x|]; [|tri_done]. case_match; [|tri_done]. case_match; [|tri_done]. case_match; [tri_done|].
  tri_bind_ u1 Hu1. tri_bind_ d Hd. destruct (GetAsset _ d _) as [d' y] eqn:E'. apply info_GetAsset in E'.
  assert (acct_ok d') by by eapply acct_ok_info. tri_bind_ u2 Hu2.
  destruct y as [y|]; [case_match; [|tri_done]|]; tri_bind_ u3 Hu3; tri_done.
Qed.

Lemma tri_op_SetMetaData N e o src : tri N (op_SetMetaData G e o src) (λ _, True).
Proof.
  tri_bind_ a Ha. destruct (GetMetaData _ _ _) as [a' s] eqn:E. apply info_GetMetaData in E.
  assert (acct_ok a') by by eapply acct_ok_info. tri_bind_ u Hu.
  destruct (sm_delete_flag _), s as [s|]; repeat (case_match; [tri_done|]); try tri_done;
    repeat (case_match; try tri_done); tri_bind_ u' Hu'; tri_done.
Qed.

Lemma tri_SetSignerWeight N e o src : tri N (SetSignerWeight G e o src) (λ _, True).
Proof.
  tri_bind_ a Ha. eapply tri_bind; [apply tri_assign|intros; tri_done].
  eapply acct_ok_repriv; [|exact Ha]. eapply repriv_trans; [apply repriv_master|apply repriv_update_signers].
Qed.

Lemma tri_SetThreshold N e o src : tri N (SetThreshold G e o src) (λ _, True).
Proof.
  tri_bind_ a Ha. eapply tri_bind; [apply tri_assign|intros; tri_done].
  eapply acct_ok_repriv; [|exact Ha].
  eapply repriv_trans; [apply repriv_threshold|apply repriv_update_type_thresholds].
Qed.

Lemma tri_SetPrivilege N e o src : tri N (SetPrivilege G e o src) (λ _, True).
Proof.
  tri_bind_ a Ha. eapply tri_bind; [apply tri_assign|intros; tri_done].
  eapply acct_ok_repriv; [apply repriv_privilege|exact Ha].
Qed.

(** ** Payments *)

(** The amount of a payment is not negative. *)
Definition op_valid (o : Operation) : Prop :=
  nn → wt_op o ∧ (op_type o = PAY_COIN → 0 ≤ pc_amount (pay_coin o)).


(** A payment debits an account that holds the amount. *)
Lemma paid_ok a amt b :
  acct_ok a → (nn → bal_ok amt ∧ amt ≤ GetAccountBalance a) →
  SafeIntSub (GetAccountBalance a) amt = Some b → acct_ok (with_info (set_balance b) a).
Proof.
  intros Ha Hm E Hn. specialize (Ha Hn). destruct (Hm Hn) as [Hb Hle].
  rewrite SafeIntSub_exact in E by by apply bal_ok_i64.
  apply exact_Some in E as [-> _]. rewrite GetAccountBalance_set. unfold bal_ok in *. lia.
Qed.

Lemma received_ok a amt b :
  acct_ok a → (nn → bal_ok amt) →
  SafeIntAdd (GetAccountBalance a) amt = Some b → acct_ok (with_info (set_balance b) a).
Proof.
  intros Ha Hm E Hn. specialize (Ha Hn). specialize (Hm Hn).
  rewrite SafeIntAdd_exact in E by by apply bal_ok_i64.
  apply exact_Some in E as [-> Hi]. rewrite GetAccountBalance_set. unfold bal_ok, is_i64 in *. lia.
Qed.

Lemma tri_transfer_coin N e src source dest amt :
  acct_ok source → (nn → bal_ok amt ∧ amt ≤ GetAccountBalance source) →
  tri N (transfer_coin G e src source dest amt) (λ _, True).
Proof.
  intros Hs Hm. unfold transfer_coin. destruct (SafeIntSub _ _) eqn:E; [|tri_done].
  assert (acct_ok (with_info (set_balance z) source)) by by eapply paid_ok. tri_bind_ u Hu.
  tri_bind_ d Hd. destruct (SafeIntAdd _ _) eqn:E'; [|tri_done].
  assert (acct_ok (with_info (set_balance z0) d)).
  { eapply received_ok; [done| |done]. intros Hn. by destruct (Hm Hn). }
  tri_bind_ u' Hu'. tri_done.
Qed.

Lemma tri_ensure_account N e dest amt : tri N (ensure_account G e dest amt) (λ _, True).
Proof.
  tri_bind_ d Hd. destruct d; [tri_done|]. case_match; [tri_done|].
  assert (acct_ok (paid_account dest)). { intros _. change (0 ≤ 0 < 2 ^ 63). lia. }
  tri_bind_ u Hu. tri_done.
Qed.

(** ** Operations that may call a contract *)

Section exec.
Context (Execute : ContractParameter → M Result) (N : nat).
Context (Hex : ∀ cp, tri N (Execute cp) (λ _, True)).

Lemma tri_call_contract e t src dest input asset coin :
  tri N (call_contract G Execute e t src dest input asset coin) (λ _, True).
Proof.
  tri_bind_ d Hd. case_decide; [tri_done|]. tri_bind_ s Hs.
  eapply tri_bind; [apply tri_contract_parameter|]. intros p _. apply Hex.
Qed.

Lemma tri_PayAsset e t o src : tri N (PayAsset G Execute e t o src) (λ _, True).
Proof.
  tri_bind_ d Hd. destruct d; [|tri_done].
  eapply (tri_bind _ _ _ _ _ _ _ _ (λ _, True)).
  { destruct (pa_asset _); [apply tri_transfer_asset; done|tri_done]. }
  intros [c|] _; [tri_done|apply tri_call_contract].
Qed.

Lemma tri_PayCoin e t o src : op_valid o → op_type o = PAY_COIN →
  tri N (PayCoin G Execute e t o src) (λ _, True).
Proof.
  intros Ho Hty. tri_bind_ s Hs. destruct (SafeIntAdd _ _) as [min|] eqn:E; [|tri_done].
  case_match eqn:El; [tri_done|]. apply Z.ltb_ge in El.
  assert (nn → bal_ok (pc_amount (pay_coin o)) ∧ pc_amount (pay_coin o) ≤ GetAccountBalance s) as Hm.
  { intros Hn. destruct (Ho Hn) as [[Hi _] H0]. specialize (H0 Hty). pose proof (Hres Hn) as Hr.
    rewrite SafeIntAdd_exact in E by (done || by apply bal_ok_i64). apply exact_Some in E as [-> _].
    unfold bal_ok, is_i64 in *. lia. }
  eapply tri_bind; [apply tri_ensure_account|]. intros [c|] _; [tri_done|].
  eapply tri_bind; [by apply tri_transfer_coin|]. intros [c|] _; [tri_done|apply tri_call_contract].
Qed.

Lemma tri_init_contract t ca dest sender :
  tri N (init_contract G Execute t ca dest sender) (λ _, True).
Proof.
  eapply tri_bind; [apply tri_contract_parameter|]. intros p _. eapply tri_bind; [apply Hex|].
  intros r _. tri_done.
Qed.

Lemma tri_CreateAccount e t o index src : op_valid o →
  tri N (CreateAccount G Execute e t o index src) (λ _, True).
Proof.
  intros Ho. tri_bind_ x Hx. tri_bind_ d Hd. destruct d; [tri_done|]. case_match eqn:El; [tri_done|].
  apply Z.ltb_ge in El. tri_bind_ s Hs. destruct (SafeIntSub _ _) as [limit|] eqn:E; [|tri_done].
  case_match eqn:El2; [tri_done|]. apply Z.ltb_ge in El2.
  destruct (AddBalance _ _) as [s'|] eqn:Ea; [|tri_done].
  assert (nn → is_i64 (ca_init_balance (create_account o))) as Hi by (intros Hn; apply (Ho Hn)).
  assert (acct_ok s') as Hs'.
  { intros Hn. specialize (Hs Hn). specialize (Hi Hn). pose proof (Hres Hn) as Hr.
    rewrite SafeIntSub_exact in E by by apply bal_ok_i64. apply exact_Some in E as [-> _].
    apply AddBalance_spec in Ea as [-> _]; [|by apply bal_ok_i64|apply i64_range].
    unfold bal_ok, is_i64 in *. rewrite i64_id by (unfold is_i64; lia). lia. }
  tri_bind_ u Hu. destruct (init_metadatas _ _) as [da|] eqn:Em; [|tri_done].
  apply info_init_metadatas in Em as Eb.
  assert (acct_ok da) as Hda.
  { intros Hn. unfold GetAccountBalance. rewrite Eb. specialize (Hi Hn). pose proof (Hres Hn).
    change (bal_ok (ca_init_balance (create_account o))). unfold bal_ok, is_i64 in *. lia. }
  tri_bind_ u' Hu'. destruct (decide (ca_payload (create_account o) = [])); [tri_done|apply tri_init_contract].
Qed.

Lemma tri_op_Apply e t o index : op_valid o → tri N (op_Apply G Execute e t o index) (λ _, True).
Proof.
  intros Ho. eapply tri_bind; [apply tri_operation_source|intros src _]. tri_bind_ a Ha.
  destruct a; [|tri_done]. case_match; [tri_done|].
  case_match; [by apply tri_CreateAccount|]. case_match; [apply tri_PayAsset|].
  case_match; [apply tri_IssueAsset; done|]. case_match; [apply tri_op_SetMetaData; done|].
  case_match; [apply tri_SetSignerWeight; done|]. case_match; [apply tri_SetThreshold; done|].
  case_match eqn:Et; [apply tri_PayCoin; [done|by apply Z.eqb_eq]|]. case_match; [tri_done|].
  case_match; [apply tri_SetPrivilege; done|]. case_match; tri_done.
Qed.

Lemma tri_apply_operations t e b l : Forall op_valid l → ∀ i,
  tri N (apply_operations G Execute t e b i l) (λ _, True).
Proof.
  induction 1 as [|o l Ho Hl IH]; intros i; cbn [apply_operations].
  - eapply tri_bind; [by apply tri_upd_tx|]. intros _ _. tri_done.
  - eapply tri_bind; [by apply tri_upd_tx|]. intros _ _.
    eapply (tri_bind _ _ _ _ _ _ _ _ (λ _, True)).
    { destruct (negb b && negb (is_test_mode_ G)); [by apply tri_CheckSignature|tri_done]. }
    intros sig _. destruct (decide (sig ≠ ERRCODE_SUCCESS)).
    { eapply tri_bind; [by apply tri_upd_tx|]. intros _ _. tri_done. }
    eapply tri_bind; [by apply tri_op_Apply|]. intros r _. destruct (decide (rcode r ≠ ERRCODE_SUCCESS)).
    { eapply tri_bind; [by apply tri_upd_tx|]. intros _ _. tri_done. }
    eapply tri_bind; [by apply tri_upd_tx|]. intros _ _. apply IH.
Qed.
End exec.

(** ** Transactions *)

Lemma tri_reject N t c : tri N (reject t c) (λ _, True).
Proof. eapply tri_bind; [by apply tri_upd_tx|]. intros _ _. tri_done. Qed.

Lemma SafeIntMul_fault x y e : SafeIntMul x y = Err e → e ≠ OutOfFuel.
Proof. unfold SafeIntMul. repeat case_match; naive_solver. Qed.

Lemma tri_AddActualFee N b t : tri N (AddActualFee b t) (λ _, True).
Proof.
  tri_bind_ x Hx. eapply tri_bind; [by apply tri_upd_tx|]. intros _ _. tri_bind_ y Hy.
  eapply tri_bind; [apply tri_lift_res, SafeIntMul_fault|]. intros [m|] _; [|apply tri_reject].
  case_match; [apply tri_reject|tri_done].
Qed.

Lemma tri_tx_NonceIncrease N t e : tri N (tx_NonceIncrease G t e) (λ _, True).
Proof.
  tri_bind_ x Hx. tri_bind_ a Ha. destruct a as [a|]; [|by apply tri_upd_tx].
  apply tri_assign. eapply (acct_ok_bal _ a); [done|]. by apply Ha.
Qed.

(** *** Runs from a later context *)

Definition tri_from {A} (c0 : Ctx) (N : nat) (m : M A) (Q : A → Prop) : Prop :=
  ∀ c, post nn e0 t0 D c0 c → (N ≤ length (transaction_stack_ c))%nat →
    wp (F G) m c (λ a c', post nn e0 t0 D c c' ∧ Q a).

Lemma tri_tri_from {A} c0 N (m : M A) (Q : A → Prop) : tri N m Q → tri_from c0 N m Q.
Proof. intros Hm c Hc Hn. apply Hm; [by apply Hc|done]. Qed.

Lemma tri_from_bind {A B} c0 N (m : M A) (f : A → M B) (Q : A → Prop) R :
  tri_from c0 N m Q → (∀ a, Q a → tri_from c0 N (f a) R) → tri_from c0 N (m ≫= f) R.
Proof.
  intros Hm Hf c Hc Hn. apply wp_bind. eapply wp_mono; [by apply Hm|]. intros a c1 [Hp Ha].
  pose proof (post_stack _ _ _ _ _ _ Hp).
  eapply wp_mono; [apply (Hf a Ha); [by eapply post_trans|lia]|]. intros b c2 [Hp2 Hb].
  split; [by eapply post_trans|done].
Qed.

Definition tx_is (c : Ctx) (t : nat) (env : TransactionEnv) : Prop :=
  ∃ x, txs c !! t = Some x ∧ transaction_env_ x = env.

Lemma tx_is_post c c' t env : post nn e0 t0 D c c' → tx_is c t env → tx_is c' t env.
Proof. intros Hp (x & Hx & <-). destruct (post_tx _ _ _ _ _ _ Hp t x Hx) as (x' & ? & ?). by exists x'. Qed.

Lemma tri_from_get_tx c0 N t env : tx_is c0 t env →
  tri_from c0 N (get_tx t) (λ x, transaction_env_ x = env).
Proof.
  intros H0 c Hc _. destruct (tx_is_post _ _ _ _ Hc H0) as (x & Hx & <-).
  eapply wp_get_tx_Some; [done|]. split; [by apply post_refl, Hc|done].
Qed.

Lemma check_operations_amounts tx n l :
  check_operations G tx n l = ERRCODE_SUCCESS →
  Forall (λ o, op_type o = PAY_COIN → 0 ≤ pc_amount (pay_coin o)) l.
Proof.
  induction l as [|o l IH]; [by constructor|]. cbn [check_operations]. cbv zeta.
  destruct (negb _); [done|]. destruct (METADATA_MAX_VALUE_SIZE <? _); [done|].
  destruct (decide _) as [E|]; [|done]. intros Hl. constructor; [|auto]. intros Hty.
  unfold op_CheckValid in E. destruct (negb _); [done|]. destruct (bool_decide _); [done|].
  unfold check_type in E. rewrite Hty in E. cbn in E. unfold CheckPayCoin in E.
  destruct (Z.ltb_spec (pc_amount (pay_coin o)) 0); [done|lia].
Qed.

(** The parameters are checked before a transaction of a contract is applied. *)
Lemma tri_ValidForParameter c0 N t n env : tx_is c0 t env →
  tri_from c0 N (ValidForParameter G t n) (λ ok, ok = true →
    Forall (λ o, op_type o = PAY_COIN → 0 ≤ pc_amount (pay_coin o)) (operations (transaction env)) ∧
    (n = 0 → 0 ≤ fee_limit (transaction env))).
Proof.
  intros H0. eapply tri_from_bind; [by apply tri_from_get_tx|]. intros x Hx.
  eapply tri_from_bind; [apply tri_tri_from, tri_get_ctx|]. intros c _. cbv zeta.
  assert (∀ code Q, tri_from c0 N (reject t code) (λ ok, ok = true → Q)) as Hrej.
  { intros code Q. apply tri_tri_from. eapply tri_bind; [by apply tri_upd_tx|]. intros _ _. by apply tri_ret. }
  unfold tran_of. rewrite Hx.
  repeat match goal with |- context [if ?b then reject t ?x else _] => destruct b eqn:?; [apply Hrej|] end.
  apply tri_tri_from. eapply tri_bind; [by apply tri_upd_tx|]. intros _ _. apply tri_ret.
  rewrite bool_decide_eq_true. intros Hc%check_operations_amounts. split; [done|]. intros ->.
  rewrite Z.eqb_refl in *. simpl in *. lia.
Qed.

Section exec2.
Context (Execute : ContractParameter → M Result) (N : nat).
Context (Hex : ∀ cp, tri N (Execute cp) (λ _, True)).

Lemma tri_Apply c0 t e b env :
  tx_is c0 t env → Forall op_valid (operations (transaction env)) → e ≠ e0 ∨ (t ≤ t0)%nat →
  tri_from c0 N (Apply G Execute t e b) (λ _, True).
Proof.
  intros H0 Hv He. eapply tri_from_bind; [by apply tri_tri_from, tri_set_environment|]. intros _ _.
  eapply tri_from_bind; [apply tri_tri_from, tri_GetBottomTx|]. intros bt _.
  eapply tri_from_bind; [apply tri_tri_from, tri_AddActualFee|]. intros ok _.
  destruct ok; [|by apply tri_tri_from, tri_ret].
  eapply tri_from_bind; [by apply tri_from_get_tx|]. intros x Hx.
  apply tri_tri_from, tri_apply_operations; [done|]. unfold tran_of. by rewrite Hx.
Qed.
End exec2.
End ops.
