(* ===== verification/ContractInv.v ===== *)
(** * The invariant of execution through contracts

    [DoTransaction], the callbacks and [ExecuteCode] keep the invariant of [LedgerInv]; the
    induction on the fuel of [Execute] closes the recursion and shows that from version 1002
    on the depth limit keeps the fuel from running out. *)
From stdpp Require Import base gmap list strings numbers.
From Stdlib Require Import ZArith Lia.
From S2P Require Import Prelude SafeInt Strings Hex Base58 AtomMap Account LedgerMsg Environment Operation TransactionFrm Contract LedgerLogic LedgerInv ExecInv.
Local Open Scope Z_scope.

Section contracts.
Context {LH : LedgerHost} (G : Globals).
Context (nn : Prop) (e0 t0 : nat) (D : layer AccountFrm * layer Json).
Context (Hdb : nn → ∀ k a, db_account (db G) !! k = Some a → bal_ok (balance a)).
Context (Hres : nn → bal_ok (base_reserve G)).

Local Abbreviation inv := (LedgerInv.inv nn e0 t0 D).
Local Abbreviation post := (LedgerInv.post nn e0 t0 D).
Local Abbreviation tri N m Q := (LedgerInv.tri G nn e0 t0 D N m Q).
Local Abbreviation tri_from c0 N m Q := (ExecInv.tri_from G nn e0 t0 D c0 N m Q).
Local Abbreviation any := (λ _, True).

Local Hint Resolve tri_get_tx tri_GetEntry tri_deref_entry tri_GetBottomTx tri_GetTopTx tri_get_ctx
  tri_HighResolution tri_GetSetting tri_SetSetting tri_assign tri_AddEntry tri_upd_tx tri_reject : tri.

Ltac tri_bind_ a Ha := eapply tri_bind; [solve [eauto with tri]|intros a Ha; cbn beta zeta].
Ltac tri_done := by apply tri_ret.

Lemma tri_stack_size N : tri N stack_size any.
Proof. tri_bind_ c Hc. tri_done. Qed.

Lemma tri_tx_store N top t : tri N (tx_store top t) any.
Proof. tri_bind_ x Hx. tri_bind_ y Hy. tri_done. Qed.

Lemma tri_tx_result N t : tri N (tx_result t) any.
Proof. tri_bind_ x Hx. tri_done. Qed.

Lemma tri_tx_environment N t : (t0 < t)%nat → tri N (tx_environment t) (λ e, e ≠ e0).
Proof.
  intros Ht c Hc _. apply wp_bind, wp_get_tx; [by intros _|]. intros x Hx.
  destruct (environment_ x) as [e|] eqn:E; [|by apply wp_fault].
  apply wp_ret. split; [by apply post_refl|]. intros ->. by eapply inv_frames.
Qed.

Lemma tri_tx_environment_any N t : tri N (tx_environment t) any.
Proof. tri_bind_ x Hx. destruct (environment_ x); [tri_done|by apply tri_fault]. Qed.

(** ** Stack operations *)

Lemma post_same_stack c c' : inv c → envs c' = envs c → txs c' = txs c →
  inv c' ∧ ∀ t x, txs c !! t = Some x → ∃ x', txs c' !! t = Some x' ∧ transaction_env_ x' = transaction_env_ x.
Proof.
  intros [H1 H2 H3 H4] Ee Et. split; [split; rewrite ?Ee, ?Et; done|]. rewrite Et. eauto.
Qed.

Lemma push_post c t : inv c →
  post c (with_stack (λ l, l ++ [t]) c) ∧
  length (transaction_stack_ (with_stack (λ l, l ++ [t]) c)) = S (length (transaction_stack_ c)).
Proof.
  intros Hc. destruct (post_same_stack c (with_stack (λ l, l ++ [t]) c) Hc eq_refl eq_refl) as [Hi Ht].
  simpl. rewrite length_app. simpl. split; [|lia]. split; [done..|]. simpl. rewrite length_app. lia.
Qed.

(** Like [post], with at most one transaction less on the stack. *)
Definition tri_pop {A} (c0 : Ctx) (N : nat) (m : M A) : Prop :=
  ∀ c, post c0 c → (N ≤ length (transaction_stack_ c))%nat →
    wp (F G) m c (λ _ c', inv c' ∧ (∀ t env, tx_is c t env → tx_is c' t env) ∧
      (length (transaction_stack_ c) ≤ S (length (transaction_stack_ c')))%nat).

Lemma tri_pop_bind {A B} c0 N (m : M A) (f : A → M B) (Q : A → Prop) :
  tri_from c0 N m Q → (∀ a, Q a → tri_pop c0 N (f a)) → tri_pop c0 N (m ≫= f).
Proof.
  intros Hm Hf c Hc Hn. apply wp_bind. eapply wp_mono; [by apply Hm|]. intros a c1 [Hp Ha].
  pose proof (post_stack _ _ _ _ _ _ Hp).
  eapply wp_mono; [apply (Hf a Ha); [by eapply post_trans|lia]|]. intros b c2 (Hi & Ht & Hl).
  split; [done|]. split; [|lia]. intros t env Htx. apply Ht. by eapply tx_is_post.
Qed.

Lemma tri_pop_pop {A} c0 N (a : A) : tri_pop c0 N (pop_tx;; mret a).
Proof.
  intros c Hc _. apply wp_bind, wp_modify, wp_ret. simpl. rewrite length_take.
  destruct (post_same_stack c (with_stack (λ l, take (length l - 1) l) c)) as [Hi Ht]; [by apply Hc|done..|].
  split; [done|]. split; [|lia]. intros t env (x & Hx & <-). by exists x.
Qed.

Lemma tri_pop_ret {A} c0 N (a : A) : tri_pop c0 N (mret a).
Proof. intros c Hc _. apply wp_ret. split; [by apply Hc|]. split; [done|lia]. Qed.

(** A transaction is pushed, and popped at the end. *)
Lemma wp_pushed {A} c0 c N t (m : M A) :
  inv c → (N ≤ length (transaction_stack_ c))%nat →
  (∀ t env, tx_is c t env → tx_is c0 t env) → c0 = with_stack (λ l, l ++ [t]) c →
  tri_pop c0 (S N) m → wp (F G) (push_tx t;; m) c (λ _ c', post c c' ∧ True).
Proof.
  intros Hc Hn H0 -> Hm. destruct (push_post c t Hc) as [Hp Hl]. apply wp_bind, wp_modify.
  eapply wp_mono; [apply Hm; [by apply post_refl, Hp|simpl in *; lia]|].
  intros a c' (Hi & Ht & Hs). split; [|done]. split; [done| |simpl in *; lia].
  intros u x Hx. destruct (Ht u (transaction_env_ x)) as (x' & ? & ?); [by exists x|]. by exists x'.
Qed.

Section exec.
Context (Execute : ContractParameter → M Result) (N : nat).
Context (Query : ContractParameter → M (option Json)).
(** Contracts run one level deeper than their caller, and queries too from version 1002 on. *)
Context (Hex : ∀ cp, tri (S N) (Execute cp) any).
Context (Hqu : ∀ cp, tri (S N) (Query cp) any).
Context (Hqu0 : CHECK_VERSION_GT_1001 G = false → ∀ cp, tri N (Query cp) any).

Lemma tri_run_pushed c0 top t e_top env :
  (t0 < t)%nat → tx_is c0 t env → (nn → Forall wt_op (operations (transaction env))) →
  tri_pop c0 (S N) (run_pushed G Execute top t e_top).
Proof.
  intros Ht H0 Hwt. unfold run_pushed.
  eapply tri_pop_bind; [apply tri_tri_from; by apply tri_tx_NonceIncrease|]. intros _ _.
  eapply tri_pop_bind; [apply tri_tri_from, tri_stack_size|]. intros n _.
  eapply tri_pop_bind; [by apply tri_ValidForParameter|]. intros ok Hok.
  eapply (tri_pop_bind _ _ _ _ any).
  { destruct ok.
    - eapply tri_from_bind; [apply tri_tri_from, tri_NewStackFrameEnv|]. intros f Hf.
      eapply tri_Apply; [done..| |by left].
      apply Forall_lookup_2. intros i o Ho Hn. destruct (Hok eq_refl) as [Ha _].
      split; [by apply (Forall_lookup_1 _ _ _ _ (Hwt Hn) Ho)|exact (Forall_lookup_1 _ _ _ _ Ha Ho)].
    - apply tri_tri_from. tri_bind_ b Hb. apply tri_AddActualFee. }
  intros _ _. eapply tri_pop_bind; [apply tri_tri_from, tri_tx_result|]. intros r _.
  destruct (bool_decide _ || bool_decide _).
  { destruct (CHECK_VERSION_GT_1002 G); [apply tri_pop_pop|].
    eapply (tri_pop_bind _ _ _ _ any); [by apply tri_tri_from, tri_ret|]. intros u _. apply tri_pop_ret. }
  eapply tri_pop_bind; [apply tri_tri_from, tri_tx_store|]. intros s _.
  eapply (tri_pop_bind _ _ _ _ any).
  { apply tri_tri_from. destruct (decide _) as [Hr|Hr]; [|tri_done]. tri_bind_ x Hx. tri_bind_ u Hu.
    eapply tri_bind; [by apply tri_tx_environment|]. intros f Hf. by apply tri_Commit. }
  intros _ _. eapply tri_pop_bind; [by apply tri_tri_from, tri_upd_tx|]. intros u _. apply tri_pop_pop.
Qed.

Lemma tri_DoTransaction env : (nn → Forall wt_op (operations (transaction env))) →
  tri N (DoTransaction G Execute env) any.
Proof.
  intros Hwt. tri_bind_ tp Htop. eapply tri_bind; [apply tri_tx_environment_any|]. intros e_top _.
  tri_bind_ s Hs. set (env' := mkTransactionEnv _ _ _).
  assert (∀ c, inv c → (N ≤ length (transaction_stack_ c))%nat →
    wp (F G) (new_tx (new_TransactionFrm env')) c (λ t c', post c c' ∧ ((t0 < t)%nat ∧ tx_is c' t env'))) as Hnew.
  { intros c Hc Hn. pose proof (tri_new_tx G nn e0 t0 D N (new_TransactionFrm env') eq_refl c Hc Hn) as [Hp Ht].
    unfold wp, new_tx. split; [exact Hp|]. split; [exact Ht|]. exists (new_TransactionFrm env'). split; [|done].
    simpl. by rewrite lookup_app_r, Nat.sub_diag by done. }
  intros c Hc Hn. apply wp_bind. eapply wp_mono; [by apply Hnew|]. intros t c1 (Hp1 & Ht & H1).
  pose proof (post_stack _ _ _ _ _ _ Hp1) as Hs1.
  apply wp_bind. eapply wp_mono; [apply (tri_stack_size N c1); [by apply Hp1|lia]|]. intros n c2 [Hp2 _].
  pose proof (post_stack _ _ _ _ _ _ Hp2) as Hs2.
  assert (post c c2) as Hp by by eapply post_trans.
  destruct (negb _).
  - apply wp_mono with (λ _ c', post c2 c' ∧ True); [|intros r c3 [Hp3 H3]; split; [by eapply post_trans|done]].
    match goal with |- wp _ ?m _ _ => assert (tri N m any) as Hm end; [|apply Hm; [by apply Hp2|lia]].
    tri_bind_ u Hu. tri_bind_ b Hb. tri_bind_ x Hx. tri_bind_ u' Hu'.
    eapply tri_bind; [apply tri_tx_store|]. intros st _. tri_bind_ u2 Hu2. apply tri_tx_result.
  - apply wp_mono with (λ _ c', post c2 c' ∧ True); [|intros r c3 [Hp3 H3]; split; [by eapply post_trans|done]].
    eapply (wp_pushed _ c2 N); [by apply Hp2|lia| |done|].
    + intros t' x Hx. eapply tx_is_post; [|exact Hx]. apply push_post, (post_inv _ _ _ _ _ _ Hp2).
    + eapply (tri_run_pushed _ _ _ _ env'); [done| |exact Hwt].
      eapply tx_is_post; [apply push_post, (post_inv _ _ _ _ _ _ Hp2)|]. eapply tx_is_post; [exact Hp2|exact H1].
Qed.

(** ** Callbacks *)

Lemma tri_charge_step n : tri N (charge_step n) any.
Proof. tri_bind_ b Hb. by apply tri_upd_tx. Qed.

Lemma tri_do_operation a o v : (nn → wt_op o) → tri N (do_operation G Execute a o v) any.
Proof.
  intros Ho. eapply tri_bind; [apply tri_DoTransaction|intros r _; tri_done].
  intros Hn. apply Forall_singleton. by apply Ho.
Qed.

Lemma wt_zero : is_i64 0.
Proof. unfold is_i64. lia. Qed.

Ltac charge := eapply tri_bind; [apply tri_charge_step|intros ? _].

Lemma tri_CallBackSetMetaData a k v d : tri N (CallBackSetMetaData G Execute a k v d) any.
Proof.
  charge. destruct (decide (k = [])); [tri_done|]. apply tri_do_operation. intros _. split; apply wt_zero.
Qed.

(** A callback that runs one operation of the contract. *)
Ltac write := charge;
  repeat match goal with |- context [amount_arg ?s] =>
    let E := fresh "E" in destruct (amount_arg s) eqn:E; [apply amount_arg_ok in E|tri_done] end;
  apply tri_do_operation; intros _; split; by try apply wt_zero.

Lemma tri_IsExpire n t : tri n (IsExpire t) any.
Proof.
  tri_bind_ x Hx. destruct (negb _); [tri_done|].
  assert (tri n (upd_tx t (set_code ERRCODE_CONTRACT_EXECUTE_EXPIRED);; mret true) any) as He.
  { tri_bind_ u Hu. tri_done. }
  destruct (CONTRACT_STEP_LIMIT <? _); [exact He|]. tri_bind_ now Hnow.
  repeat match goal with |- context [if ?b then _ else _] => destruct b; [exact He|] end. tri_done.
Qed.

Lemma tri_top_entry a : tri N (top_entry G a) (λ p, ∀ x, p.2 = Some x → acct_ok nn x).
Proof.
  tri_bind_ t Ht. eapply tri_bind; [apply tri_tx_environment_any|]. intros e _. tri_bind_ x Hx. tri_done.
Qed.

Lemma tri_settings_callback (m : nat → M unit) :
  (∀ e, tri N (m e) any) →
  tri N (top ← GetTopTx; e ← tx_environment top; m e;; mret (Returned (JBool true), None (A := Result))) any.
Proof.
  intros Hm. tri_bind_ t Ht. eapply tri_bind; [apply tri_tx_environment_any|]. intros e _.
  eapply tri_bind; [apply Hm|]. intros u _. tri_done.
Qed.

Lemma tri_DelegateCall cp a i : tri N (DelegateCall G Execute cp a i) any.
Proof.
  charge. tri_bind_ tp Htop. eapply tri_bind; [apply tri_tx_environment_any|]. intros e _. tri_bind_ x Hx.
  destruct x as [x|]; [|tri_done]. destruct (decide _); [tri_done|]. intros c Hc Hn.
  eapply (wp_pushed _ c N); [done..| |done|].
  - intros t env Ht. eapply tx_is_post; [|exact Ht]. by apply push_post.
  - eapply tri_pop_bind; [apply tri_tri_from, Hex|]. intros r _. apply tri_pop_pop.
Qed.

Lemma tri_StorageLoad a k : tri N (cb_StorageLoad G a k) any.
Proof.
  tri_bind_ t Ht. tri_bind_ u Hu. eapply tri_bind; [apply tri_top_entry|]. intros [e [x|]] Hx; [|tri_done].
  destruct (GetMetaData _ _ _) as [x' kp] eqn:E. apply info_GetMetaData in E.
  assert (acct_ok nn x') by (eapply acct_ok_info; [exact E|by apply Hx]). tri_bind_ u' Hu'. tri_done.
Qed.

Lemma tri_GetAccountAsset a k : tri N (cb_GetAccountAsset G a k) any.
Proof.
  charge. eapply tri_bind; [apply tri_top_entry|]. intros [e [x|]] Hx; [|tri_done].
  destruct (GetAsset _ _ _) as [x' kp] eqn:E. apply info_GetAsset in E.
  assert (acct_ok nn x') by (eapply acct_ok_info; [exact E|by apply Hx]). tri_bind_ u' Hu'. tri_done.
Qed.

Lemma tri_GetAccountMetadata a k : tri N (cb_GetAccountMetadata G a k) any.
Proof.
  charge. eapply tri_bind; [apply tri_top_entry|]. intros [e [x|]] Hx; [|tri_done].
  destruct (GetMetaData _ _ _) as [x' kp] eqn:E. apply info_GetMetaData in E.
  assert (acct_ok nn x') by (eapply acct_ok_info; [exact E|by apply Hx]). tri_bind_ u' Hu'. tri_done.
Qed.

Lemma tri_cb_GetValidators : tri N (cb_GetValidators G) any.
Proof.
  tri_bind_ t Ht. eapply tri_bind; [apply tri_tx_environment_any|]. intros e _.
  eapply (tri_bind _ _ _ _ _ _ _ _ any); [|intros j _; tri_done].
  tri_bind_ v Hv. destruct v; [tri_done|]. tri_bind_ u Hu. tri_done.
Qed.

Lemma tri_query_pushed a param : tri N (query_pushed G Query a param) any.
Proof.
  charge. eapply tri_bind; [apply tri_top_entry|]. intros [e x] _. cbn zeta. destruct (decide _); [tri_done|].
  tri_bind_ tp Htop. intros c Hc Hn. eapply (wp_pushed _ c N); [done..| |done|].
  - intros t env Ht. eapply tx_is_post; [|exact Ht]. by apply push_post.
  - eapply tri_pop_bind; [apply tri_tri_from, Hqu|]. intros r _. apply tri_pop_pop.
Qed.

Lemma tri_ContractQuery cp a i : tri N (ContractQuery G Query cp a i) any.
Proof.
  unfold ContractQuery. destruct (CHECK_VERSION_GT_1001 G) eqn:Ev; [apply tri_query_pushed|].
  charge. eapply tri_bind; [apply tri_top_entry|]. intros [e x] _. cbn zeta. destruct (decide _); [tri_done|].
  eapply tri_bind; [by apply Hqu0|]. intros r _. tri_done.
Qed.

Lemma tri_read_callback cp cb : tri N (read_callback G Query cp cb) any.
Proof.
  destruct cb; cbn [read_callback]; try tri_done.
  - charge. eapply tri_bind; [apply tri_top_entry|]. intros [e x] _. tri_done.
  - apply tri_StorageLoad.
  - apply tri_GetAccountAsset.
  - apply tri_GetAccountMetadata.
  - charge. eapply tri_bind; [apply tri_top_entry|]. intros [e x] _. tri_done.
  - charge. tri_done.
  - apply tri_cb_GetValidators.
  - apply tri_ContractQuery.
  - apply tri_query_pushed.
  - charge. tri_done.
  - tri_bind_ b Hb. tri_bind_ u Hu. tri_bind_ u' Hu'. tri_bind_ u2 Hu2.
    eapply tri_bind; [apply tri_IsExpire|]. intros x _. tri_done.
Qed.

Lemma tri_QueryCode cp p : tri N (QueryCode G Query cp p) any.
Proof.
  induction p as [v| | | |cb k IH]; try tri_done. cbn [QueryCode].
  eapply tri_bind; [apply tri_read_callback|]. intros [a o] _. apply IH.
Qed.

Lemma tri_run_callback cp cb : tri N (run_callback G Execute Query cp cb) any.
Proof.
  destruct cb; cbn [run_callback]; cbv zeta; try apply tri_read_callback; try apply tri_CallBackSetMetaData.
  - write.
  - destruct asset; write.
  - write.
  - write.
  - write.
  - write.
  - apply tri_DelegateCall.
  - unfold cb_ConfigFee. destruct (decide _); [tri_done|]. apply tri_settings_callback. intros e. tri_bind_ f Hf.
    destruct f; apply tri_SetSetting.
  - unfold cb_SetValidators. destruct (decide _); [tri_done|]. apply tri_settings_callback. intros e. apply tri_SetSetting.
Qed.

Lemma tri_ExecuteCode cp p : ∀ r, tri N (ExecuteCode G Execute Query cp p r) any.
Proof.
  induction p as [v| | | |cb k IH]; intros r; try tri_done. cbn [ExecuteCode].
  eapply tri_bind; [apply tri_run_callback|]. intros [a o] _. apply IH.
Qed.
End exec.

(** ** The recursion *)

Lemma tri_weaken {A} N N' (m : M A) (Q : A → Prop) : (N ≤ N')%nat → tri N m Q → tri N' m Q.
Proof. intros HN Hm c Hc Hn. apply Hm; [done|lia]. Qed.

(** The fuel is enough for a stack of at least [N] transactions.  Before version 1002 it may
    run out: the depth is limited only by [DoTransaction], and neither a delegate call nor a
    query goes through it. *)
Definition enough (fuel N : nat) : Prop := CHECK_VERSION_GT_1001 G = true → (6 ≤ fuel + N ∧ 1 ≤ fuel)%nat.

(** One level deeper, if the depth limit lets the call through. *)
Lemma enough_deeper fuel N n : enough (S fuel) N → (N ≤ n)%nat →
  CHECK_VERSION_GT_1001 G && (CONTRACT_MAX_RECURSIVE_DEPTH <? Z.of_nat n) = false → enough fuel (S n).
Proof.
  intros HN Hn Ev Hv. destruct (HN Hv) as [H6 _]. rewrite Hv in Ev. simpl in Ev. apply Z.ltb_ge in Ev.
  unfold CONTRACT_MAX_RECURSIVE_DEPTH in Ev. lia.
Qed.

Lemma tri_Query fuel : ∀ N, enough fuel N → ∀ cp, tri N (Query G fuel cp) any.
Proof.
  induction fuel as [|fuel IH]; intros N HN cp c Hc Hn.
  { apply wp_fault. intros Hv. specialize (HN Hv). lia. }
  cbn [Query]. unfold Query_body, stack_size. apply wp_bind, wp_bind, wp_get_ctx, wp_ret.
  destruct (CHECK_VERSION_GT_1001 G && _) eqn:Ev; [apply wp_ret; split; [by apply post_refl|done]|].
  apply (tri_QueryCode (length (transaction_stack_ c))); [| |done|done].
  - apply IH. by eapply enough_deeper.
  - intros Hv. apply IH. intros Hv'. congruence.
Qed.

Lemma tri_Execute fuel : ∀ N, enough fuel N → ∀ cp, tri N (Execute G fuel cp) any.
Proof.
  induction fuel as [|fuel IH]; intros N HN cp c Hc Hn.
  { apply wp_fault. intros Hv. specialize (HN Hv). lia. }
  cbn [Execute]. unfold Execute_body, stack_size. apply wp_bind, wp_bind, wp_get_ctx, wp_ret.
  destruct (CHECK_VERSION_GT_1001 G && _) eqn:Ev; [apply wp_ret; split; [by apply post_refl|done]|].
  apply (tri_ExecuteCode _ (length (transaction_stack_ c))); [| | |done|done].
  - apply IH. by eapply enough_deeper.
  - apply tri_Query. by eapply enough_deeper.
  - intros Hv. apply tri_Query. intros Hv'. congruence.
Qed.
End contracts.
