(* ===== verification/LedgerSpec.v ===== *)
(** * The abstract ledger

    The specification of block execution without contracts: the ledger is a finite map from
    addresses to accounts, an operation is a function on it that may fail, and a transaction
    that fails keeps only its fee and its nonce.  There are no change buffers, caches, frames
    or clocks.  [LedgerView] shows that the code implements this specification, and
    [LedgerClaims] what follows from it. *)
From stdpp Require Import base gmap list strings numbers.
From Stdlib Require Import ZArith Lia.
From S2P Require Import Prelude SafeInt Strings Hex Base58 AtomMap Account LedgerMsg Environment Operation TransactionFrm Contract LedgerFrm.
Local Open Scope Z_scope.

Abbreviation lmap := (gmap bytes AccountFrm).

(** An error, or the new map. *)
Inductive sres := Failed (c : ERRORCODE) | Done (V : lmap).

Definition and_then (r : sres) (f : lmap → sres) : sres :=
  match r with Failed c => Failed c | Done V => f V end.

Section spec.
Context {LH : LedgerHost} (G : Globals).

Definition source_of (o : Operation) (tran : Transaction) : bytes :=
  if decide (op_source_address o = []) then tx_source_address tran else op_source_address o.

(** A balance that changes by [f], an operation with overflow. *)
Definition spec_balance (V : lmap) (k : bytes) (f : Z → option Z) : sres :=
  match V !! k with
  | None => Failed ERRCODE_ACCOUNT_NOT_EXIST
  | Some a =>
      match f (GetAccountBalance a) with
      | None => Failed ERRCODE_MATH_OVERFLOW
      | Some b => Done (<[k := with_info (set_balance b) a]> V)
      end
  end.

(** A transfer is a debit followed by a credit. *)
Definition spec_transfer (V : lmap) (src dest : bytes) (amt : Z) : sres :=
  and_then (spec_balance V src (λ b, SafeIntSub b amt)) (λ V,
  spec_balance V dest (λ b, SafeIntAdd b amt)).

Definition spec_ensure (V : lmap) (dest : bytes) (amt : Z) : sres :=
  match V !! dest with
  | Some _ => Done V
  | None => if amt <? base_reserve G then Failed ERRCODE_ACCOUNT_INIT_LOW_RESERVE
            else Done (<[dest := paid_account dest]> V)
  end.

Definition spec_PayCoin (V : lmap) (src : bytes) (s : AccountFrm) (ope : OperationPayCoin) : sres :=
  match SafeIntAdd (pc_amount ope) (base_reserve G) with
  | None => Failed ERRCODE_MATH_OVERFLOW
  | Some min_balance =>
      if GetAccountBalance s <? min_balance then Failed ERRCODE_ACCOUNT_LOW_RESERVE
      else and_then (spec_ensure V (pc_dest_address ope) (pc_amount ope)) (λ V,
           spec_transfer V src (pc_dest_address ope) (pc_amount ope))
  end.

Definition spec_CreateAccount (V : lmap) (src : bytes) (s : AccountFrm) (ca : OperationCreateAccount)
    (tran : Transaction) (index : Z) : sres :=
  let dest := if decide (ca_dest_address ca = []) then created_address tran index else ca_dest_address ca in
  match V !! dest with
  | Some _ => Failed ERRCODE_ACCOUNT_DEST_EXIST
  | None =>
    if ca_init_balance ca <? base_reserve G then Failed ERRCODE_ACCOUNT_INIT_LOW_RESERVE
    else match SafeIntSub (GetAccountBalance s) (base_reserve G) with
    | None => Failed ERRCODE_MATH_OVERFLOW
    | Some limit_balance =>
      if limit_balance <? ca_init_balance ca then Failed ERRCODE_ACCOUNT_LOW_RESERVE
      else match AddBalance s (i64 (-1 * ca_init_balance ca)) with
      | None => Failed ERRCODE_MATH_OVERFLOW
      | Some s' =>
        match init_metadatas (ca_metadatas ca) (new_AccountFrm (mkAccount dest 0
                (default no_privilege (ca_priv ca)) [] [] (ca_payload ca) true (ca_init_balance ca))) with
        | None => Failed ERRCODE_INVALID_DATAVERSION
        | Some d => Done (<[dest := d]> (<[src := s']> V))
        end
      end
    end
  end.

Definition spec_IssueAsset (V : lmap) (src : bytes) (s : AccountFrm) (ope : OperationIssueAsset) : sres :=
  let key := mkAssetKey (GetAccountAddress s) (ia_code ope) 0 in
  match GetAsset (db G) s key with
  | (s, None) => Done (<[src := SetAsset s (mkAssetStore key (ia_amount ope) None)]> V)
  | (s, Some asset) =>
      match SafeIntAdd (amount asset) (ia_amount ope) with
      | None => Failed ERRCODE_MATH_OVERFLOW
      | Some amt => Done (<[src := SetAsset s (mkAssetStore (asset_key asset) amt (property asset))]> V)
      end
  end.

(** The credit of an asset. *)
Definition spec_credit_asset (V : lmap) (dest : bytes) (a : Asset) : sres :=
  match V !! dest with
  | None => Failed ERRCODE_ACCOUNT_NOT_EXIST
  | Some d =>
      match GetAsset (db G) d (a_key a) with
      | (d, None) => Done (<[dest := SetAsset d (mkAssetStore (a_key a) (a_amount a) None)]> V)
      | (d, Some x) =>
          match SafeIntAdd (amount x) (a_amount a) with
          | None => Failed ERRCODE_MATH_OVERFLOW
          | Some amt => Done (<[dest := SetAsset d (mkAssetStore (asset_key x) amt (property x))]> V)
          end
      end
  end.

Definition spec_transfer_asset (V : lmap) (src : bytes) (s : AccountFrm) (dest : bytes) (a : Asset) : sres :=
  match GetAsset (db G) s (a_key a) with
  | (_, None) => Failed ERRCODE_ACCOUNT_ASSET_LOW_RESERVE
  | (s, Some x) =>
      if asset_type (a_key a) =? 0 then
        match SafeIntSub (amount x) (a_amount a) with
        | None => Failed ERRCODE_MATH_OVERFLOW
        | Some amt =>
            if amt <? 0 then Failed ERRCODE_ACCOUNT_ASSET_LOW_RESERVE
            else spec_credit_asset (<[src := SetAsset s (mkAssetStore (asset_key x) amt (property x))]> V) dest a
        end
      else Failed ERRCODE_ASSET_INVALID
  end.

Definition spec_PayAsset (V : lmap) (src : bytes) (s : AccountFrm) (pa : OperationPayAsset) : sres :=
  match V !! pa_dest_address pa with
  | None => Failed ERRCODE_ACCOUNT_NOT_EXIST
  | Some _ =>
      match pa_asset pa with
      | None => Done V
      | Some a => spec_transfer_asset V src s (pa_dest_address pa) a
      end
  end.

Definition spec_SetMetaData (V : lmap) (src : bytes) (s : AccountFrm) (ope : OperationSetMetadata) : sres :=
  let ver := sm_version ope in
  let '(s, kp) := GetMetaData (db G) s (sm_key ope) in
  match sm_delete_flag ope, kp with
  | true, None => Failed ERRCODE_NOT_EXIST
  | true, Some kp =>
      if bool_decide (ver ≠ 0) && bool_decide (version kp ≠ ver) then Failed ERRCODE_INVALID_DATAVERSION
      else if decide (sm_key ope = []) then Failed ERRCODE_INVALID_PARAMETER
      else Done (<[src := DeleteMetaData s kp]> V)
  | false, Some kp =>
      if bool_decide (ver ≠ 0) && bool_decide (i64 (version kp + 1) ≠ ver) then Failed ERRCODE_INVALID_DATAVERSION
      else Done (<[src := SetMetaData s (mkKeyPair (key kp) (sm_value ope) (i64 (version kp + 1)))]> V)
  | false, None =>
      if bool_decide (ver ≠ 1) && bool_decide (ver ≠ 0) then Failed ERRCODE_INVALID_DATAVERSION
      else Done (<[src := SetMetaData s (mkKeyPair (sm_key ope) (sm_value ope) 1)]> V)
  end.

(** All privileges at once. *)
Definition spec_set_priv_all (ope : OperationSetPrivilege) (s : AccountFrm) : AccountFrm :=
  let s := if decide (sp_master_weight ope = []) then s
    else let w := Stoi64 (sp_master_weight ope) in if 0 <=? w then SetProtoMasterWeight s w else s in
  let s := update_signers (sp_signers ope) s in
  let s := if decide (sp_tx_threshold ope = []) then s
    else let t := Stoi64 (sp_tx_threshold ope) in if 0 <=? t then SetProtoTxThreshold s t else s in
  update_type_thresholds (sp_type_thresholds ope) s.

(** The privileges of an account after the three operations that set them. *)
Definition spec_set_priv (o : Operation) (s : AccountFrm) : AccountFrm :=
  if op_type o =? SET_SIGNER_WEIGHT then
    let w := sw_master_weight (set_signer_weight o) in
    update_signers (sw_signers (set_signer_weight o)) (if 0 <=? w then SetProtoMasterWeight s w else s)
  else if op_type o =? SET_THRESHOLD then
    let t := st_tx_threshold (set_threshold o) in
    update_type_thresholds (st_type_thresholds (set_threshold o)) (if 0 <=? t then SetProtoTxThreshold s t else s)
  else spec_set_priv_all (set_privilege o) s.

Definition spec_op (V : lmap) (tran : Transaction) (o : Operation) (index : Z) : sres :=
  let src := source_of o tran in
  match V !! src with
  | None => Failed ERRCODE_ACCOUNT_NOT_EXIST
  | Some s =>
      let ty := op_type o in
      if ty =? 0 then Done V
      else if ty =? CREATE_ACCOUNT then spec_CreateAccount V src s (create_account o) tran index
      else if ty =? PAY_ASSET then spec_PayAsset V src s (pay_asset o)
      else if ty =? ISSUE_ASSET then spec_IssueAsset V src s (issue_asset o)
      else if ty =? SET_METADATA then spec_SetMetaData V src s (set_metadata o)
      else if (ty =? SET_SIGNER_WEIGHT) || (ty =? SET_THRESHOLD) then Done (<[src := spec_set_priv o s]> V)
      else if ty =? PAY_COIN then spec_PayCoin V src s (pay_coin o)
      else if ty =? LOG then Done V
      else if ty =? SET_PRIVILEGE then Done (<[src := spec_set_priv o s]> V)
      else if (ty =? TYPE_INT_MIN) || (ty =? TYPE_INT_MAX) then Done V
      else Failed ERRCODE_INVALID_PARAMETER
  end.

(** The operation is signed by enough signers of its source account. *)
Definition spec_signed (V : lmap) (valid : gset bytes) (tran : Transaction) (o : Operation) : ERRORCODE :=
  match V !! source_of o tran with
  | None => ERRCODE_ACCOUNT_NOT_EXIST
  | Some a => if SignerHashPriv valid a (op_type o) then ERRCODE_SUCCESS else ERRCODE_INVALID_SIGNATURE
  end.

(** The operations, each signed, until one fails. *)
Fixpoint spec_ops (V : lmap) (valid : gset bytes) (tran : Transaction) (i : Z) (l : list Operation) : sres :=
  match l with
  | [] => Done V
  | o :: l =>
      let sig := if is_test_mode_ G then ERRCODE_SUCCESS else spec_signed V valid tran o in
      if decide (sig ≠ ERRCODE_SUCCESS) then Failed sig
      else and_then (spec_op V tran o i) (λ V, spec_ops V valid tran (i + 1) l)
  end.

(** ** Transactions *)

(** What the transaction costs: its gas at its price; [None] on overflow. *)
Definition spec_cost (env : TransactionEnv) : option Z :=
  match SafeIntMul (i64 (0 + GetSelfGas (new_TransactionFrm env))) (gas_price (transaction env)) with
  | Ok m => m
  | Err _ => None
  end.

Definition spec_apply (V : lmap) (env : TransactionEnv) : sres :=
  match spec_cost env with
  | None => Failed ERRCODE_MATH_OVERFLOW
  | Some cost =>
      if fee_limit (transaction env) <? cost then Failed ERRCODE_FEE_NOT_ENOUGH
      else spec_ops V (valid_signature_ (new_TransactionFrm env)) (transaction env) 0 (operations (transaction env))
  end.

(** The part of the fee limit that was not used goes back, unless a sum overflows; the result
    has the total of the fees. *)
Definition spec_refund (V : lmap) (total : Z) (env : TransactionEnv) : lmap * Z :=
  match spec_cost env with
  | None => (V, total)
  | Some cost =>
    match SafeIntSub (fee_limit (transaction env)) cost with
    | None => (V, total)
    | Some fee =>
      if fee <=? 0 then (V, total)
      else match V !! tx_source_address (transaction env) with
      | None => (V, total)
      | Some a =>
        match SafeIntSub total fee with
        | None => (V, total)
        | Some total =>
          match SafeIntAdd (GetAccountBalance a) fee with
          | None => (V, total)
          | Some b => (<[tx_source_address (transaction env) := with_info (set_balance b) a]> V, total)
          end
        end
      end
    end
  end.

(** The payment of the fee: the total, and the map if it succeeds. *)
Definition spec_pay (V : lmap) (total : Z) (env : TransactionEnv) : Z * option lmap :=
  let src := tx_source_address (transaction env) in
  let fee := fee_limit (transaction env) in
  match V !! src with
  | None => (total, None)
  | Some a =>
    match SafeIntAdd total fee with
    | None => (total, None)
    | Some total =>
      match SafeIntSub (GetAccountBalance a) fee with
      | None => (total, None)
      | Some b => (total, Some (<[src := with_info (set_balance b) a]> V))
      end
    end
  end.

Definition spec_nonce (V : lmap) (env : TransactionEnv) : lmap :=
  match V !! tx_source_address (transaction env) with
  | None => V
  | Some a => <[tx_source_address (transaction env) := NonceIncrease a]> V
  end.

(** The state of a block: the accounts, the fees, and the transactions that failed. *)
Record lstate := mkState { accounts : lmap; fees : Z; failed : list Z }.

(** A transaction whose fee is paid: its nonce counts in any case, its effects only if it does
    not expire and does not fail. *)
Definition spec_paid (expired : bool) (i : Z) (env : TransactionEnv) (s : lstate) : lstate :=
  let V := spec_nonce (accounts s) env in
  if expired then mkState V (fees s) (failed s)
  else match spec_apply V env with
  | Failed _ => mkState V (fees s) (set_insert i (failed s))
  | Done V => let '(V, total) := spec_refund V (fees s) env in mkState V total (failed s)
  end.

Definition spec_tx (expired : Z → bool) (i : Z) (env : TransactionEnv) (s : lstate) : lstate :=
  match spec_pay (accounts s) (fees s) env with
  | (total, None) => mkState (accounts s) total (failed s)
  | (total, Some V) => spec_paid (expired i) i env (mkState V total (failed s))
  end.

Fixpoint spec_txs (expired : Z → bool) (i : Z) (l : list TransactionEnv) (s : lstate) : lstate :=
  match l with
  | [] => s
  | env :: l => spec_txs expired (i + 1) l (spec_tx expired i env s)
  end.

(** What a proposer and a validator require of a transaction before they run it: its source
    keeps the reserve after the fee limit, and neither the fee nor a payment is negative. *)
Definition admissible (V : lmap) (env : TransactionEnv) : Prop :=
  0 ≤ fee_limit (transaction env) ∧ 0 ≤ gas_price (transaction env) ∧
  Forall (λ o, op_type o = PAY_COIN → 0 ≤ pc_amount (pay_coin o)) (operations (transaction env)) ∧
  ∃ a b, V !! tx_source_address (transaction env) = Some a ∧
    SafeIntSub (GetAccountBalance a) (fee_limit (transaction env)) = Some b ∧ base_reserve G ≤ b.

(** The parameters of a transaction are in order. *)
Definition spec_param (env : TransactionEnv) : bool :=
  let tran := transaction env in
  let n := Z.of_nat (length (operations tran)) in
  negb (TRANSACTION_LIMIT_SIZE <=? ByteSize env) && (negb (n =? 0) && (negb (MAX_OPERATIONS_NUM_PER_TRANSACTION <? n) &&
  (negb (METADATA_MAX_VALUE_SIZE <? size (tx_metadata tran)) &&
  (negb ((0 <? ceil_ledger_seq tran) && (ceil_ledger_seq tran <? i64 (lcl_seq G + 1))) &&
  (negb (ceil_ledger_seq tran <? 0) && (negb (fee_limit tran <? 0) &&
  (negb (gas_price tran <? Z.max 0 (sys_gas_price G)) &&
   bool_decide (check_operations G (new_TransactionFrm env) 0 (operations tran) = ERRCODE_SUCCESS)))))))).

(** The transaction is the next of its source, signed by it, and its source can pay. *)
Definition spec_valid (V : lmap) (env : TransactionEnv) : bool :=
  spec_param env &&
  match V !! tx_source_address (transaction env) with
  | None => false
  | Some a =>
      (i64 (GetAccountNonce a + 1) =? tx_nonce (transaction env)) &&
      (negb (negb (is_test_mode_ G) && negb (SignerHashPriv (valid_signature_ (new_TransactionFrm env)) a (-1))) &&
      match SafeIntSub (GetAccountBalance a) (fee_limit (transaction env)) with
      | None => false
      | Some l =>
          negb (l <? base_reserve G) &&
          match SafeIntMul (GetSelfGas (new_TransactionFrm env)) (gas_price (transaction env)) with
          | Ok (Some f) => negb (fee_limit (transaction env) <? f)
          | _ => false
          end
      end)
  end.

(** Every transaction of the list is admitted and can pay when its turn comes. *)
Fixpoint admissible_all (expired : Z → bool) (i : Z) (l : list TransactionEnv) (s : lstate) : Prop :=
  match l with
  | [] => True
  | env :: l =>
      spec_valid (accounts s) env = true ∧ is_Some (spec_pay (accounts s) (fees s) env).2 ∧
      admissible_all expired (i + 1) l (spec_tx expired i env s)
  end.

(** ** Rewards *)

Definition spec_reward_account (V : lmap) (addr : bytes) (amt : Z) : option lmap :=
  match spec_balance V addr (λ b, SafeIntAdd b amt) with Failed _ => None | Done V => Some V end.

Fixpoint spec_reward_validators (V : lmap) (average : Z) (l : list (bytes * Z)) : option lmap :=
  match l with
  | [] => Some V
  | (addr, _) :: l =>
      let V := match V !! addr with Some _ => V | None => <[addr := CreatAccountFrm addr 0]> V end in
      V ← spec_reward_account V addr average; spec_reward_validators V average l
  end.

(** Every validator gets an equal share, and one of them the remainder. *)
Definition spec_reward_directly (header_seq : Z) (V : lmap) (total : Z) : option lmap :=
  match GetValidators_at G (header_seq - 1) with
  | None | Some [] => None
  | Some l =>
      let n := Z.of_nat (length l) in
      V ← spec_reward_validators V (Z.quot total n) l;
      let left := total - n * Z.quot total n in
      if 0 <? left then
        '(addr, _) ← l !! Z.to_nat (Z.rem header_seq n); spec_reward_account V addr left
      else Some V
  end.

(** The rewards, or no change if they cannot be paid. *)
Definition spec_reward (header_seq : Z) (V : lmap) (total_fee : Z) : option lmap :=
  let total := i64 (total_fee + GetBlockReward header_seq) in
  if (total =? 0) || is_test_mode_ G then Some V
  else if CHECK_VERSION_GT_1002 G then
    match V !! GET_CONTRACT_VALIDATOR_ADDRESS G with
    | Some _ => spec_reward_account V (GET_CONTRACT_VALIDATOR_ADDRESS G) total
    | None => spec_reward_directly header_seq V total
    end
  else spec_reward_directly header_seq V total.

(** ** Blocks *)

(** The accounts on disk, by their spelled addresses. *)
Definition db_accounts : lmap := kmap EncodeAddress (new_AccountFrm <$> db_account (db G)).

Definition spec_block (header_seq : Z) (expired : Z → bool) (l : list TransactionEnv) : lstate :=
  let s := spec_txs expired 0 l (mkState db_accounts 0 []) in
  mkState (default (accounts s) (spec_reward header_seq (accounts s) (fees s))) (fees s) (failed s).
End spec.
