(* ===== verification/LedgerView.v ===== *)
(** * The code implements the abstract ledger: environments and operations

    [st G e V B c]: in the context [c] the root environment [e] stands for the map [V], and
    its committed part for [B].  Under this assertion reads, writes, commits and discards
    are the corresponding operations on maps, and each operation without a contract does
    what [spec_op] says. *)
From stdpp Require Import base gmap list strings numbers.
From Stdlib Require Import ZArith Lia.
From S2P Require Import Prelude SafeInt Strings Hex Base58 AtomMap Account LedgerMsg Environment Operation TransactionFrm Contract LedgerFrm LedgerLogic LedgerInv LedgerSpec.
Local Open Scope Z_scope.

Section view.
Context {LH : LedgerHost} (G : Globals).

(** The accounts that a stack of changes shows over the database. *)
Definition shown (m : layer AccountFrm) : lmap := omap id (m ∪ (Some <$> db_accounts G)).

Definition st (e : nat) (V B : lmap) (c : Ctx) : Prop :=
  ∃ v d s, envs c !! e = Some v ∧ data_ v = Own d ∧ settings_data_ v = Own s ∧
    shown (buff_ v ∪ d) = V ∧ shown d = B.

(** Everything but the environments and the clock is as before. *)
Definition frame (c c' : Ctx) : Prop :=
  txs c' = txs c ∧ transaction_stack_ c' = transaction_stack_ c ∧ seq_ c' = seq_ c ∧ length (envs c') = length (envs c).

Lemma frame_refl c : frame c c.
Proof. done. Qed.

Lemma frame_trans c1 c2 c3 : frame c1 c2 → frame c2 c3 → frame c1 c3.
Proof. unfold frame. intros (?&?&?&?) (?&?&?&?). repeat split; congruence. Qed.

Lemma shown_lookup m k :
  shown m !! k = match m !! k with Some o => o | None => db_accounts G !! k end.
Proof.
  unfold shown. rewrite lookup_omap, lookup_union, !lookup_fmap.
  destruct (m !! k) as [[a|]|]; destruct (db_accounts G !! k); done.
Qed.

(** The disk is read by the decoded address, which a spelled address determines. *)
Lemma AccountFromDB_spelled k : spelled k → AccountFromDB G k = db_accounts G !! k.
Proof.
  intros Hk. transitivity (db_accounts G !! EncodeAddress (DecodeAddress k)); [|by rewrite Hk].
  unfold AccountFromDB, db_accounts. by rewrite (lookup_kmap (M1 := gmap bytes) Encode), lookup_fmap.
Qed.

Lemma shown_insert m k a : shown (<[k := Some a]> m) = <[k := a]> (shown m).
Proof.
  apply map_eq. intros j. rewrite shown_lookup, !lookup_insert. case_decide; [done|]. by rewrite shown_lookup.
Qed.

(** Writing what is shown already changes nothing. *)
Lemma shown_cache m k a : shown m !! k = Some a → shown (<[k := Some a]> m) = shown m.
Proof. intros E. rewrite shown_insert. by apply insert_id. Qed.

Context (F : fault → Prop).

Lemma upd_env_envs e f c :
  envs (with_envs (alter f e) c) !! e = f <$> envs c !! e ∧
  length (envs (with_envs (alter f e) c)) = length (envs c).
Proof. simpl. by rewrite list_lookup_alter_eq, length_alter. Qed.

Lemma frame_upd_env e f c : frame c (with_envs (alter f e) c).
Proof. repeat split; simpl. by rewrite length_alter. Qed.

Lemma wp_GetEntry e k c V B Q :
  spelled k → st e V B c → (∀ c', st e V B c' → frame c c' → Q (V !! k) c') → wp F (GetEntry G e k) c Q.
Proof.
  intros Hk (v & d & s & Hv & Ed & Es & HV & HB) HQ. unfold GetEntry, get_env, get_data.
  assert (∀ b o, shown (b ∪ d) = V → o = V !! k →
    wp F (upd_env e (set_buff b);; mret o) c Q) as Hput.
  { intros b o Hb ->. apply wp_bind, wp_modify, wp_ret, HQ; [|apply frame_upd_env].
    exists (set_buff b v), d, s. destruct (upd_env_envs e (set_buff b) c) as [-> _]. by rewrite Hv. }
  unfold wp, mbind, M_bind. rewrite Hv, Ed. cbn [mret M_ret].
  change (wp F (match spec_get (AccountFromDB G) [buff_ v; d] k with
    | (b :: _, o) => upd_env e (set_buff b);; mret o | (_, o) => mret o end) c Q).
  assert (V !! k = match buff_ v !! k with Some o => o | None =>
    match d !! k with Some o => o | None => AccountFromDB G k end end) as Ek.
  { rewrite <- HV, shown_lookup, lookup_union, (AccountFromDB_spelled k Hk). by destruct (buff_ v !! k), (d !! k). }
  unfold spec_get. destruct (buff_ v !! k) as [o|] eqn:Eb; [by apply Hput|].
  destruct (match d !! k with Some o => o | None => AccountFromDB G k end) as [a|] eqn:Ea; [|by apply Hput].
  apply Hput; [|done]. rewrite <- insert_union_l. rewrite <- HV. apply shown_cache. by rewrite HV.
Qed.

Lemma wp_AddEntry e k a c V B Q :
  st e V B c → (∀ c', st e (<[k := a]> V) B c' → frame c c' → Q tt c') → wp F (AddEntry e k a) c Q.
Proof.
  intros (v & d & s & Hv & Ed & Es & HV & HB) HQ. apply wp_modify, HQ; [|apply frame_upd_env].
  exists (set_buff (<[k := Some a]> (buff_ v)) v), d, s.
  destruct (upd_env_envs e (λ v, set_buff (<[k := Some a]> (buff_ v)) v) c) as [-> _].
  rewrite Hv. repeat split; [done|done|..|done]. simpl. by rewrite <- insert_union_l, shown_insert, HV.
Qed.

Lemma wp_assign e k a c V B Q :
  st e V B c → (∀ c', st e (<[k := a]> V) B c' → frame c c' → Q tt c') → wp F (assign_entry e k a) c Q.
Proof. apply wp_AddEntry. Qed.

Lemma wp_deref e k a c V B Q :
  spelled k → st e V B c → V !! k = Some a → (∀ c', st e V B c' → frame c c' → Q a c') → wp F (deref_entry G e k) c Q.
Proof.
  intros Hsp Hst Hk HQ. apply wp_bind. eapply wp_GetEntry; [done..|]. intros c' Hst' Hf. rewrite Hk. apply wp_ret.
  by apply HQ.
Qed.

(** Settings do not matter to the accounts. *)
Lemma st_settings e f V B c : (∀ v, buff_ (f v) = buff_ v ∧ data_ (f v) = data_ v ∧ settings_data_ (f v) = settings_data_ v) →
  st e V B c → st e V B (with_envs (alter f e) c).
Proof.
  intros Hf (v & d & s & Hv & Ed & Es & HV & HB). exists (f v), d, s. destruct (Hf v) as (E1 & E2 & E3).
  destruct (upd_env_envs e f c) as [-> _]. rewrite Hv. simpl. by rewrite E1, E2, E3.
Qed.

Lemma wp_Clear e c V B Q :
  st e V B c → (∀ c', st e B B c' → frame c c' → Q tt c') → wp F (Environment_ClearChangeBuf e) c Q.
Proof.
  intros Hst HQ. apply wp_bind, wp_modify, wp_modify.
  apply (st_settings e (set_settings_buff ∅)) in Hst; [|done].
  apply HQ; [|eapply frame_trans; apply frame_upd_env].
  destruct Hst as (v & d & s & Hv & Ed & Es & HV & HB). exists (set_buff ∅ v), d, s.
  destruct (upd_env_envs e (set_buff ∅) (with_envs (alter (set_settings_buff ∅) e) c)) as [-> _].
  rewrite Hv. simpl. by rewrite (left_id_L ∅ (∪)).
Qed.

Lemma wp_Commit e c V B Q :
  st e V B c → (∀ c', st e V V c' → frame c c' → Q tt c') → wp F (Environment_Commit e) c Q.
Proof.
  intros (v & d & s & Hv & Ed & Es & HV & HB) HQ.
  unfold Environment_Commit, get_settings_data, get_data, put_settings_data, put_data.
  unfold wp, mbind, M_bind, get_env. rewrite Hv, Es, Ed. cbn [mret M_ret spec_commit].
  unfold upd_env, modify.
  match goal with |- Q _ ?c' => set (c1 := c') end.
  assert (envs c1 !! e = Some (mkEnvironment ∅ (Own (buff_ v ∪ d)) ∅ (Own (settings_buff_ v ∪ s)))) as E1.
  { unfold c1. simpl. rewrite !list_lookup_alter_eq, Hv. done. }
  apply HQ.
  - exists (mkEnvironment ∅ (Own (buff_ v ∪ d)) ∅ (Own (settings_buff_ v ∪ s))), (buff_ v ∪ d), (settings_buff_ v ∪ s).
    rewrite E1. simpl. by rewrite (left_id_L ∅ (∪)).
  - unfold c1. repeat split; simpl. by rewrite !length_alter.
Qed.

End view.

(** ** Operations *)

(** No account has code, and the addresses are spelled as they are encoded. *)
Definition code_free (V : lmap) : Prop := ∀ k a, V !! k = Some a → spelled k ∧ contract (account_info_ a) = [].

(** The operation does not create a contract, and it spells its addresses as they are encoded. *)
Record plain_op (o : Operation) : Prop := {
  plain_payload : ca_payload (create_account o) = [];
  plain_source : op_source_address o ≠ [] → spelled (op_source_address o);
  plain_create : op_type o = CREATE_ACCOUNT → ca_dest_address (create_account o) ≠ [] ∧ spelled (ca_dest_address (create_account o));
  plain_coin : op_type o = PAY_COIN → spelled (pc_dest_address (pay_coin o));
  plain_asset : op_type o = PAY_ASSET → spelled (pa_dest_address (pay_asset o)) }.

Section ops.
Context {LH : LedgerHost} (G : Globals) (F : fault → Prop).
Context (Execute : ContractParameter → M Result).

Local Abbreviation st := (st G).

(** The code ended as the specification says; an error leaves some change in the buffer. *)
Definition implements (e : nat) (B : lmap) (c : Ctx) (s : sres) (o : option ERRORCODE) (c' : Ctx) : Prop :=
  frame c c' ∧
  match s with
  | Failed x => o = Some x ∧ x ≠ ERRCODE_SUCCESS ∧ ∃ V, st e V B c'
  | Done V => o = None ∧ st e V B c'
  end.

Lemma implements_frame e B c c1 s r c' : frame c c1 → implements e B c1 s r c' → implements e B c s r c'.
Proof. intros Hf [Hf' Hs]. split; [by eapply frame_trans|done]. Qed.

Lemma implements_done e B c V c' : frame c c' → st e V B c' → implements e B c (Done V) None c'.
Proof. by split. Qed.

Lemma implements_failed e B c V x c' :
  frame c c' → x ≠ ERRCODE_SUCCESS → st e V B c' → implements e B c (Failed x) (Some x) c'.
Proof. intros Hf Hx Hst. split; [done|]. eauto. Qed.

(** The error of a result. *)
Definition err (r : Result) : option ERRORCODE :=
  if decide (rcode r = ERRCODE_SUCCESS) then None else Some (rcode r).

Ltac fr := first [assumption | apply frame_refl | eapply frame_trans; [eassumption|fr]].
Ltac v_ret := apply wp_ret; first [eapply implements_failed; [fr|done|eassumption]|apply implements_done; [fr|eassumption]].
Ltac v_get c Hst Hf := apply wp_bind; eapply wp_GetEntry; [eassumption|eassumption|]; intros c Hst Hf.
Ltac v_deref Hk c Hst Hf := apply wp_bind; eapply wp_deref; [eassumption|eassumption|exact Hk|]; intros c Hst Hf; cbn beta zeta.
Ltac v_put c Hst Hf := apply wp_bind; eapply wp_AddEntry; [eassumption|]; intros c Hst Hf; cbn beta.

Lemma wp_ensure e V B c dest amt :
  spelled dest → st e V B c → wp F (ensure_account G e dest amt) c (λ o, implements e B c (spec_ensure G V dest amt) o).
Proof.
  intros Hsp Hst. unfold ensure_account, spec_ensure. v_get c1 Hst1 Hf1. destruct (V !! dest); [v_ret|].
  destruct (amt <? base_reserve G); [v_ret|]. v_put c2 Hst2 Hf2. v_ret.
Qed.

Lemma wp_transfer e V B c src source dest amt :
  spelled dest → st e V B c → V !! src = Some source → is_Some (V !! dest) →
  wp F (transfer_coin G e src source dest amt) c (λ o, implements e B c (spec_transfer V src dest amt) o).
Proof.
  intros Hsp Hst Hs [d Hd]. unfold transfer_coin, spec_transfer, spec_balance at 1. rewrite Hs.
  destruct (SafeIntSub _ _) as [b|]; [|v_ret]. cbn [and_then]. v_put c1 Hst1 Hf1. unfold spec_balance.
  destruct (<[src := with_info (set_balance b) source]> V !! dest) as [d'|] eqn:Ed.
  - v_deref Ed c2 Hst2 Hf2. destruct (SafeIntAdd _ _); [|v_ret]. v_put c3 Hst3 Hf3. v_ret.
  - rewrite lookup_insert in Ed. case_decide; congruence.
Qed.

Lemma spec_transfer_code_free V src dest amt V' :
  code_free V → spec_transfer V src dest amt = Done V' → code_free V'.
Proof.
  assert (∀ V k f V', code_free V → spec_balance V k f = Done V' → code_free V') as Hb.
  { intros W k f W' HW. unfold spec_balance. destruct (W !! k) as [a|] eqn:Ea; [|done].
    destruct (f _) as [b|]; [|done]. intros [= <-] j x. rewrite lookup_insert. case_decide; [subst|apply HW].
    intros [= <-]. exact (HW _ _ Ea). }
  intros HV. unfold spec_transfer. destruct (spec_balance V src _) as [|V1] eqn:E1; [done|]. intros E2.
  eapply Hb; [|exact E2]. by eapply Hb.
Qed.

Lemma spec_transfer_dest V src dest amt V' :
  spec_transfer V src dest amt = Done V' → is_Some (V' !! dest).
Proof.
  unfold spec_transfer. destruct (spec_balance V src _) as [|W]; [done|]. cbn [and_then]. unfold spec_balance.
  destruct (W !! dest); [|done]. destruct (SafeIntAdd _ _); [|done].
  intros [= <-]. rewrite lookup_insert_eq. eauto.
Qed.

(** The destination of a payment has no code, so that no contract runs. *)
Lemma wp_no_call e V B c t src dest input asset coin :
  st e V B c → code_free V → is_Some (V !! dest) →
  wp F (call_contract G Execute e t src dest input asset coin) c (λ r c', r = success ∧ frame c c' ∧ st e V B c').
Proof.
  intros Hst HV [d Hd]. destruct (HV _ _ Hd) as [Hsp Hcode]. unfold call_contract. v_deref Hd c1 Hst1 Hf1.
  rewrite decide_True by done. by apply wp_ret.
Qed.

(** The result of an operation and the specification. *)
Definition op_implements e B c s (r : Result) c' : Prop :=
  implements e B c s (err r) c' ∧ (err r = None → r = success).

Lemma op_done e B c V c' : frame c c' → st e V B c' → op_implements e B c (Done V) success c'.
Proof. by split. Qed.

Lemma op_failed e B c V x c' :
  frame c c' → x ≠ ERRCODE_SUCCESS → st e V B c' → op_implements e B c (Failed x) (failure x) c'.
Proof.
  intros Hf Hx Hst. split; unfold err; simpl; rewrite decide_False by done; [|done].
  by eapply implements_failed.
Qed.

Ltac o_ret := apply wp_ret; first [eapply op_failed; [fr|done|eassumption]|apply op_done; [fr|eassumption]].

Lemma wp_PayCoin e V B c t o src s :
  spelled (pc_dest_address (pay_coin o)) → st e V B c → code_free V → V !! src = Some s →
  wp F (PayCoin G Execute e t o src) c (op_implements e B c (spec_PayCoin G V src s (pay_coin o))).
Proof.
  intros Hsp Hst HV Hs. destruct (HV _ _ Hs) as [Hsrc _]. unfold PayCoin, spec_PayCoin. v_deref Hs c1 Hst1 Hf1.
  destruct (SafeIntAdd _ _) as [min|]; [|o_ret]. destruct (_ <? min); [o_ret|].
  apply wp_bind. eapply wp_mono; [by apply wp_ensure|]. intros o1 c2 [Hf2 H2].
  destruct (spec_ensure _ _ _ _) as [x|V1] eqn:E1.
  { destruct H2 as (-> & Hx & W & HW). apply wp_ret. eapply op_failed; [fr|done..]. }
  destruct H2 as [-> Hst2]. cbn [and_then].
  assert (V1 !! src = Some s ∧ is_Some (V1 !! pc_dest_address (pay_coin o)) ∧ code_free V1) as (Hs1 & Hd1 & HV1).
  { unfold spec_ensure in E1. destruct (V !! pc_dest_address (pay_coin o)) as [d|] eqn:Ed.
    - injection E1 as <-. eauto.
    - destruct (_ <? base_reserve G); [done|]. injection E1 as <-. rewrite lookup_insert_ne by congruence.
      rewrite lookup_insert_eq. split_and!; [done|eauto|]. intros k a. rewrite lookup_insert.
      case_decide; [subst|apply HV]. by intros [= <-]. }
  apply wp_bind. eapply wp_mono; [by apply wp_transfer|]. intros o2 c3 [Hf3 H3].
  destruct (spec_transfer V1 _ _ _) as [x|V2] eqn:E2.
  { destruct H3 as (-> & Hx & W & HW). apply wp_ret. eapply op_failed; [fr|done..]. }
  destruct H3 as [-> Hst3]. eapply wp_mono.
  { apply (wp_no_call e V2 B); [done|by eapply spec_transfer_code_free|].
    by eapply spec_transfer_dest. }
  intros r c4 (-> & Hf4 & Hst4). apply op_done; [fr|done].
Qed.

Lemma wp_CreateAccount e V B c t x o index src s :
  st e V B c → plain_op o → op_type o = CREATE_ACCOUNT → spelled src → txs c !! t = Some x → V !! src = Some s →
  wp F (CreateAccount G Execute e t o index src) c
    (op_implements e B c (spec_CreateAccount G V src s (create_account o) (tran_of x) index)).
Proof.
  intros Hst Hp Hty Hsrc Hx Hs. destruct (plain_create o Hp Hty) as [Hne Hsp]. unfold CreateAccount, spec_CreateAccount.
  apply wp_bind. eapply wp_get_tx_Some; [done|]. cbv zeta. fold (tran_of x).
  rewrite decide_False by done. set (dest := ca_dest_address (create_account o)) in *.
  v_get c1 Hst1 Hf1. destruct (V !! dest) eqn:Ed; [o_ret|]. destruct (_ <? base_reserve G); [o_ret|].
  v_deref Hs c2 Hst2 Hf2. destruct (SafeIntSub _ _); [|o_ret]. destruct (_ <? ca_init_balance _); [o_ret|].
  destruct (AddBalance _ _) as [s'|]; [|o_ret]. v_put c3 Hst3 Hf3.
  destruct (init_metadatas _ _) as [d|] eqn:Em; [|o_ret].
  assert (GetAccountAddress d = dest) as ->.
  { apply info_init_metadatas in Em. unfold GetAccountAddress. by rewrite Em. }
  v_put c4 Hst4 Hf4. rewrite decide_True by apply Hp. o_ret.
Qed.

Lemma wp_IssueAsset e V B c o src s :
  spelled src → st e V B c → V !! src = Some s →
  wp F (IssueAsset G e o src) c (op_implements e B c (spec_IssueAsset G V src s (issue_asset o))).
Proof.
  intros Hsrc Hst Hs. unfold IssueAsset, spec_IssueAsset. v_deref Hs c1 Hst1 Hf1.
  destruct (GetAsset _ _ _) as [s' [a|]]; v_put c2 Hst2 Hf2.
  - destruct (SafeIntAdd _ _); [|o_ret]. v_put c3 Hst3 Hf3. rewrite insert_insert_eq in Hst3. o_ret.
  - v_put c3 Hst3 Hf3. rewrite insert_insert_eq in Hst3. o_ret.
Qed.

Lemma wp_transfer_asset e V B c src s dest a :
  spelled src → spelled dest → st e V B c → V !! src = Some s → is_Some (V !! dest) →
  wp F (transfer_asset G e src dest a) c (λ o, implements e B c (spec_transfer_asset G V src s dest a) o).
Proof.
  intros Hsrc Hsp Hst Hs [d0 Hd0]. unfold transfer_asset, spec_transfer_asset. v_deref Hs c1 Hst1 Hf1.
  destruct (GetAsset _ _ _) as [s' [x|]]; v_put c2 Hst2 Hf2; [|v_ret].
  destruct (_ =? 0); [|v_ret]. destruct (SafeIntSub _ _) as [amt|]; [|v_ret]. destruct (amt <? 0); [v_ret|].
  v_put c3 Hst3 Hf3. rewrite insert_insert_eq in Hst3. unfold spec_credit_asset.
  destruct (<[src := SetAsset s' _]> V !! dest) as [d|] eqn:Ed.
  - v_deref Ed c4 Hst4 Hf4. destruct (GetAsset _ d _) as [d' [y|]]; v_put c5 Hst5 Hf5.
    + destruct (SafeIntAdd _ _); [|v_ret]. v_put c6 Hst6 Hf6. rewrite insert_insert_eq in Hst6. v_ret.
    + v_put c6 Hst6 Hf6. rewrite insert_insert_eq in Hst6. v_ret.
  - rewrite lookup_insert in Ed. case_decide; congruence.
Qed.

(** ** Accounts without code stay without code *)

Lemma code_free_insert V k a :
  code_free V → spelled k → contract (account_info_ a) = [] → code_free (<[k := a]> V).
Proof. intros HV Hk Ha j x. rewrite lookup_insert. case_decide; [subst; by intros [= <-]|apply HV]. Qed.

Lemma code_GetAsset V k a x a' o : code_free V → V !! k = Some a → GetAsset (db G) a x = (a', o) →
  contract (account_info_ a') = [].
Proof. intros HV Ha E. rewrite (info_GetAsset _ _ _ _ _ E). exact (proj2 (HV _ _ Ha)). Qed.

Lemma spec_transfer_asset_code_free V src s dest a V' :
  code_free V → V !! src = Some s → spec_transfer_asset G V src s dest a = Done V' →
  code_free V' ∧ is_Some (V' !! dest).
Proof.
  intros HV Hs. unfold spec_transfer_asset. destruct (GetAsset _ _ _) as [s' [x|]] eqn:E; [|done].
  destruct (_ =? 0); [|done]. destruct (SafeIntSub _ _) as [amt|]; [|done]. destruct (amt <? 0); [done|].
  assert (∀ y, code_free (<[src := SetAsset s' y]> V)) as HV'.
  { intros y. apply code_free_insert; [done|exact (proj1 (HV _ _ Hs))|]. exact (code_GetAsset V src s _ s' _ HV Hs E). }
  unfold spec_credit_asset. destruct (_ !! dest) as [d|] eqn:Ed; [|done].
  destruct (GetAsset _ d _) as [d' [y|]] eqn:E'; [destruct (SafeIntAdd _ _); [|done]|];
    intros [= <-]; (split; [|rewrite lookup_insert_eq; eauto]);
    (apply code_free_insert; [apply HV'|exact (proj1 (HV' _ _ _ Ed))|]; exact (code_GetAsset _ dest d _ d' _ (HV' _) Ed E')).
Qed.

Lemma wp_PayAsset e V B c t o src s :
  spelled (pa_dest_address (pay_asset o)) → st e V B c → code_free V → V !! src = Some s →
  wp F (PayAsset G Execute e t o src) c (op_implements e B c (spec_PayAsset G V src s (pay_asset o))).
Proof.
  intros Hsp Hst HV Hs. destruct (HV _ _ Hs) as [Hsrc _]. unfold PayAsset, spec_PayAsset. v_get c1 Hst1 Hf1.
  destruct (V !! pa_dest_address (pay_asset o)) as [d|] eqn:Ed; [|o_ret].
  destruct (pa_asset (pay_asset o)) as [a|] eqn:Ea.
  - apply wp_bind. eapply wp_mono; [eapply wp_transfer_asset; eauto|]. intros r c2 [Hf2 H2].
    destruct (spec_transfer_asset _ _ _ _ _ _) as [x|V1] eqn:E1.
    { destruct H2 as (-> & Hx & W & HW). apply wp_ret. eapply op_failed; [fr|done..]. }
    destruct H2 as [-> Hst2]. apply spec_transfer_asset_code_free in E1 as [HV1 Hd1]; [|done..].
    eapply wp_mono; [by apply (wp_no_call e V1 B)|]. intros r c4 (-> & Hf4 & Hst4). apply op_done; [fr|done].
  - apply wp_bind, wp_ret. eapply wp_mono; [apply (wp_no_call e V B); eauto|].
    intros r c4 (-> & Hf4 & Hst4). apply op_done; [fr|done].
Qed.

Lemma wp_SetMetaData e V B c o src s :
  spelled src → st e V B c → V !! src = Some s →
  wp F (op_SetMetaData G e o src) c (op_implements e B c (spec_SetMetaData G V src s (set_metadata o))).
Proof.
  intros Hsrc Hst Hs. unfold op_SetMetaData, spec_SetMetaData. v_deref Hs c1 Hst1 Hf1.
  destruct (GetMetaData _ _ _) as [s' kp]. v_put c2 Hst2 Hf2.
  destruct (sm_delete_flag _), kp as [kp|].
  - destruct (bool_decide _ && bool_decide _); [o_ret|]. destruct (decide _); [o_ret|].
    v_put c3 Hst3 Hf3. rewrite insert_insert_eq in Hst3. o_ret.
  - o_ret.
  - destruct (bool_decide _ && bool_decide _); [o_ret|].
    v_put c3 Hst3 Hf3. rewrite insert_insert_eq in Hst3. o_ret.
  - destruct (bool_decide _ && bool_decide _); [o_ret|].
    v_put c3 Hst3 Hf3. rewrite insert_insert_eq in Hst3. o_ret.
Qed.

Lemma wp_set_priv e V B c src s (f : AccountFrm → AccountFrm) :
  spelled src → st e V B c → V !! src = Some s →
  wp F (source ← deref_entry G e src; assign_entry e src (f source);; mret success) c
    (op_implements e B c (Done (<[src := f s]> V))).
Proof. intros Hsrc Hst Hs. v_deref Hs c1 Hst1 Hf1. v_put c2 Hst2 Hf2. o_ret. Qed.

Lemma wp_operation_source t x o c Q :
  txs c !! t = Some x → Q (source_of o (tran_of x)) c → wp F (operation_source o t) c Q.
Proof.
  intros Hx HQ. unfold operation_source. unfold source_of in HQ. destruct (decide _); [|by apply wp_ret].
  apply wp_bind. eapply wp_get_tx_Some; [done|]. by apply wp_ret.
Qed.

Lemma spelled_source o tran : plain_op o → spelled (tx_source_address tran) → spelled (source_of o tran).
Proof. intros Hp Ht. unfold source_of. destruct (decide _); [done|]. by apply Hp. Qed.

(** [OperationFrm::Apply] implements [spec_op]. *)
Lemma wp_op_Apply e V B c t x o index :
  st e V B c → code_free V → plain_op o → spelled (tx_source_address (tran_of x)) → txs c !! t = Some x →
  wp F (op_Apply G Execute e t o index) c (op_implements e B c (spec_op G V (tran_of x) o index)).
Proof.
  intros Hst HV Hp Hts Hx. unfold op_Apply. apply wp_bind. eapply wp_operation_source; [done|].
  unfold spec_op. cbv zeta. pose proof (spelled_source o (tran_of x) Hp Hts) as Hsrc.
  set (src := source_of o (tran_of x)) in *. v_get c1 Hst1 Hf1.
  destruct (V !! src) as [s|] eqn:Es; [|o_ret].
  assert (txs c1 !! t = Some x) as Hx1 by (by destruct Hf1 as [-> _]).
  assert (∀ m sp, wp F m c1 (op_implements e B c1 sp) → wp F m c1 (op_implements e B c sp)) as Hfr.
  { intros m sp Hm. eapply wp_mono; [exact Hm|]. intros r c' [H1 H2]. split; [|done].
    by eapply implements_frame. }
  destruct (op_type o =? 0); [o_ret|].
  destruct (Z.eqb_spec (op_type o) CREATE_ACCOUNT); [by apply Hfr, wp_CreateAccount|].
  destruct (Z.eqb_spec (op_type o) PAY_ASSET); [apply Hfr, wp_PayAsset; [by apply Hp|done..]|].
  destruct (op_type o =? ISSUE_ASSET); [by apply Hfr, wp_IssueAsset|].
  destruct (op_type o =? SET_METADATA); [by apply Hfr, wp_SetMetaData|].
  destruct (op_type o =? SET_SIGNER_WEIGHT) eqn:E1; cbn [orb].
  { unfold spec_set_priv. rewrite E1. apply Hfr. by apply (wp_set_priv _ _ _ _ _ _ (λ a,
      update_signers _ (if 0 <=? sw_master_weight _ then SetProtoMasterWeight a _ else a))). }
  destruct (op_type o =? SET_THRESHOLD) eqn:E2.
  { unfold spec_set_priv. rewrite E1, E2. apply Hfr. by apply (wp_set_priv _ _ _ _ _ _ (λ a,
      update_type_thresholds _ (if 0 <=? st_tx_threshold _ then SetProtoTxThreshold a _ else a))). }
  destruct (Z.eqb_spec (op_type o) PAY_COIN); [apply Hfr, wp_PayCoin; [by apply Hp|done..]|].
  destruct (op_type o =? LOG); [o_ret|].
  destruct (op_type o =? SET_PRIVILEGE) eqn:E3.
  { apply Hfr. unfold SetPrivilege. cbv zeta. unfold spec_set_priv. rewrite E1, E2. cbv zeta.
    exact (wp_set_priv e V B c1 src s (λ a, spec_set_priv_all (set_privilege o) a) Hsrc Hst1 Es). }
  destruct ((op_type o =? TYPE_INT_MIN) || _); o_ret.
Qed.
End ops.
