(* ===== verification/LedgerBlock.v ===== *)
(** * The code implements the abstract ledger: transactions and blocks *)
From stdpp Require Import base gmap list strings numbers.
From Stdlib Require Import ZArith Lia.
From S2P Require Import Prelude SafeInt Strings Hex Base58 AtomMap Account LedgerMsg Environment Operation TransactionFrm Contract LedgerFrm LedgerLogic LedgerInv ExecInv LedgerSpec LedgerView.
Local Open Scope Z_scope.

(** ** Accounts without code stay without code *)

Section code.
Context {LH : LedgerHost} (G : Globals).

Lemma code_repriv a b : repriv a b → contract (account_info_ b) = contract (account_info_ a).
Proof. by intros [p ->]. Qed.

Lemma spec_set_priv_repriv o s : repriv s (spec_set_priv o s).
Proof.
  unfold spec_set_priv. case_match.
  - eapply repriv_trans; [apply repriv_master|apply repriv_update_signers].
  - case_match; [|apply repriv_privilege].
    eapply repriv_trans; [apply repriv_threshold|apply repriv_update_type_thresholds].
Qed.

Lemma spec_PayCoin_code_free V src s ope V' :
  code_free V → spelled (pc_dest_address ope) → spec_PayCoin G V src s ope = Done V' → code_free V'.
Proof.
  intros HV Hsp. unfold spec_PayCoin. destruct (SafeIntAdd _ _); [|done]. destruct (_ <? z); [done|].
  unfold spec_ensure. destruct (V !! _).
  - by apply spec_transfer_code_free.
  - destruct (_ <? base_reserve G); [done|]. apply spec_transfer_code_free. by apply code_free_insert.
Qed.

Lemma spec_op_code_free V tran o i V' :
  code_free V → plain_op o → spec_op G V tran o i = Done V' → code_free V'.
Proof.
  intros HV Hp. unfold spec_op. cbv zeta. destruct (V !! source_of o tran) as [s|] eqn:Es; [|done].
  destruct (HV _ _ Es) as [Hsrc Hc].
  destruct (op_type o =? 0); [by intros [= <-]|].
  destruct (Z.eqb_spec (op_type o) CREATE_ACCOUNT) as [Et|_].
  { destruct (plain_create o Hp Et) as [Hne Hsp]. unfold spec_CreateAccount. cbv zeta. rewrite decide_False by done. destruct (V !! ca_dest_address _); [done|]. destruct (_ <? base_reserve G); [done|].
    destruct (SafeIntSub _ _); [|done]. destruct (_ <? ca_init_balance _); [done|].
    destruct (AddBalance _ _) as [s'|] eqn:Ea; [|done]. destruct (init_metadatas _ _) as [d|] eqn:Em; [|done].
    intros [= <-]. apply code_free_insert; [apply code_free_insert; [done|done|]|done|].
    - unfold AddBalance in Ea. destruct (SafeIntAdd _ _); [|done]. by injection Ea as <-.
    - apply info_init_metadatas in Em. rewrite Em. apply Hp. }
  destruct (op_type o =? PAY_ASSET).
  { unfold spec_PayAsset. destruct (V !! pa_dest_address _); [|done].
    destruct (pa_asset _); [|by intros [= <-]]. intros E. by eapply spec_transfer_asset_code_free in E as [? _]. }
  destruct (op_type o =? ISSUE_ASSET).
  { unfold spec_IssueAsset. destruct (GetAsset _ _ _) as [s' [a|]] eqn:E; [destruct (SafeIntAdd _ _); [|done]|];
      intros [= <-]; (apply code_free_insert; [done|done|]); exact (code_GetAsset G V _ _ _ _ _ HV Es E). }
  destruct (op_type o =? SET_METADATA).
  { unfold spec_SetMetaData. destruct (GetMetaData _ _ _) as [s' kp] eqn:E. apply info_GetMetaData in E.
    rewrite <- E in Hc. destruct (sm_delete_flag _), kp; repeat (case_match; try done);
      intros [= <-]; by apply code_free_insert. }
  destruct (_ || _).
  { intros [= <-]. apply code_free_insert; [done|done|]. by rewrite (code_repriv _ _ (spec_set_priv_repriv o s)). }
  destruct (Z.eqb_spec (op_type o) PAY_COIN); [apply spec_PayCoin_code_free; [done|by apply Hp]|].
  destruct (op_type o =? LOG); [by intros [= <-]|].
  destruct (op_type o =? SET_PRIVILEGE).
  { intros [= <-]. apply code_free_insert; [done|done|]. by rewrite (code_repriv _ _ (spec_set_priv_repriv o s)). }
  destruct (_ || _); [by intros [= <-]|done].
Qed.
End code.

(** ** Transactions *)

Section tx.
Context {LH : LedgerHost} (G : Globals) (F : fault → Prop).
Context (Execute : ContractParameter → M Result).

Local Abbreviation st := (st G).

(** The limits of a transaction and what it has used of them; [lim0] is those of a new one. *)
Definition limits : Type := bool * Z * Z * Z * Z.
Definition lims (x : TransactionFrm) : limits :=
  (enable_check_ x, max_end_time_ x, contract_step_ x, contract_memory_usage_ x, contract_stack_usage_ x).
Definition lim0 : limits := (false, 0, 0, 0, 0).

(** The transaction [t] carries [env], has used the gas [g] and has the environment [oe]; its
    result is a success if [ok]. *)
Definition tx_has (lim : limits) (t : nat) (env : TransactionEnv) (g : Z) (oe : option nat) (ok : bool) (c : Ctx) : Prop :=
  ∃ x, txs c !! t = Some x ∧ transaction_env_ x = env ∧
    valid_signature_ x = valid_signature_ (new_TransactionFrm env) ∧ actual_gas_ x = g ∧
    environment_ x = oe ∧ lims x = lim ∧ (ok = true → rcode (result_ x) = ERRCODE_SUCCESS).

Context (lim : limits).
Local Abbreviation tx_at := (tx_has lim).

Definition same_stack (c c' : Ctx) : Prop := transaction_stack_ c' = transaction_stack_ c.

Lemma tx_at_frame t env g oe ok c c' : frame c c' → tx_at t env g oe ok c → tx_at t env g oe ok c'.
Proof. intros [E _]. unfold tx_has. by rewrite E. Qed.

Lemma tx_at_weaken t env g oe ok c : tx_at t env g oe true c → tx_at t env g oe ok c.
Proof. intros (x & ? & ? & ? & ? & ? & ? & Hr). exists x. split_and!; auto. Qed.

Lemma frame_stack c c' : frame c c' → same_stack c c'.
Proof. by intros (_ & ? & _). Qed.

Lemma stack_trans c1 c2 c3 : same_stack c1 c2 → same_stack c2 c3 → same_stack c1 c3.
Proof. unfold same_stack. congruence. Qed.

Lemma wp_upd_tx t env g oe ok ok' f c V B e (Q : unit → Ctx → Prop) :
  st e V B c → tx_at t env g oe ok c →
  (∀ x, transaction_env_ (f x) = transaction_env_ x ∧ valid_signature_ (f x) = valid_signature_ x ∧
        actual_gas_ (f x) = actual_gas_ x ∧ environment_ (f x) = environment_ x ∧ lims (f x) = lims x) →
  (ok' = true → ok = true ∧ ∀ x, rcode (result_ (f x)) = rcode (result_ x)) →
  (∀ c', st e V B c' → tx_at t env g oe ok' c' → same_stack c c' → Q tt c') → wp F (upd_tx t f) c Q.
Proof.
  intros Hst (x & Hx & H1 & H2 & H3 & H4 & HL & H5) Hf Hr HQ. apply wp_modify, HQ; [exact Hst| |done].
  exists (f x). destruct (Hf x) as (E1 & E2 & E3 & E4 & E5). simpl. rewrite list_lookup_alter_eq, Hx.
  split; [done|]. rewrite E1, E2, E3, E4, E5. split_and!; try done. intros ->.
  destruct (Hr eq_refl) as [-> ->]. auto.
Qed.

Lemma wp_get_tx_at t env g oe ok c Q :
  tx_at t env g oe ok c →
  (∀ x, transaction_env_ x = env → valid_signature_ x = valid_signature_ (new_TransactionFrm env) →
    actual_gas_ x = g → environment_ x = oe → (ok = true → rcode (result_ x) = ERRCODE_SUCCESS) →
    txs c !! t = Some x → Q x c) → wp F (get_tx t) c Q.
Proof. intros (x & ? & ? & ? & ? & ? & ? & ?) HQ. eapply wp_get_tx_Some; [done|]. by apply HQ. Qed.

Lemma wp_CheckSignature e V B c t env g oe ok o :
  spelled (source_of o (transaction env)) → st e V B c → tx_at t env g oe ok c →
  wp F (CheckSignature G e t o) c (λ r c', r = spec_signed V (valid_signature_ (new_TransactionFrm env))
    (transaction env) o ∧ frame c c' ∧ st e V B c').
Proof.
  intros Hsp Hst Ht. destruct Ht as (x & Hx & H1 & H2 & _). unfold CheckSignature.
  apply wp_bind, (wp_operation_source F t x); [exact Hx|]. unfold tran_of. rewrite H1. apply wp_bind. eapply wp_GetEntry; [done..|].
  intros c1 Hst1 Hf1. unfold spec_signed.
  destruct (V !! source_of o (transaction env)) as [a|]; [|by apply wp_ret].
  apply wp_bind. eapply wp_get_tx_Some; [destruct Hf1 as [-> _]; exact Hx|]. rewrite H2. by apply wp_ret.
Qed.

(** The source of the transaction is spelled as it is encoded. *)
Definition src_ok (env : TransactionEnv) : Prop := spelled (tx_source_address (transaction env)).

(** The loop of [Apply]. *)
Lemma wp_apply_operations e B t env g l : ∀ i V c,
  st e V B c → code_free V → Forall plain_op l → src_ok env → tx_at t env g (Some e) true c →
  wp F (apply_operations G Execute t e false i l) c (λ ok c',
    same_stack c c' ∧ tx_at t env g (Some e) ok c' ∧
    match spec_ops G V (valid_signature_ (new_TransactionFrm env)) (transaction env) i l with
    | Failed _ => ok = false ∧ ∃ V', st e V' B c'
    | Done V' => ok = true ∧ st e V' B c' ∧ code_free V'
    end).
Proof.
  induction l as [|o l IH]; intros i V c Hst HV Hp Hsrc Ht; cbn [apply_operations spec_ops].
  { apply wp_bind. eapply wp_upd_tx; [done..| |]; [done|]. intros c1 Hst1 Ht1 Hs1. by apply wp_ret. }
  apply Forall_cons_1 in Hp as [Hp Hl].
  apply wp_bind. eapply (wp_upd_tx _ _ _ _ true true); [done..|]. intros c1 Hst1 Ht1 Hs1. apply wp_bind.
  apply wp_mono with (λ r c', r = (if is_test_mode_ G then ERRCODE_SUCCESS else
    spec_signed V (valid_signature_ (new_TransactionFrm env)) (transaction env) o) ∧ frame c1 c' ∧ st e V B c').
  { destruct (is_test_mode_ G); simpl; [by apply wp_ret|eapply wp_CheckSignature; [by apply spelled_source|done..]]. }
  intros sig c2 (-> & Hf2 & Hst2). set (sig := if is_test_mode_ G then _ else _).
  pose proof (tx_at_frame _ _ _ _ _ _ _ Hf2 Ht1) as Ht2. pose proof (frame_stack _ _ Hf2) as Hs2.
  destruct (decide (sig ≠ ERRCODE_SUCCESS)).
  { apply wp_bind. eapply (wp_upd_tx _ _ _ _ true false); [done..|]. intros c3 Hst3 Ht3 Hs3. apply wp_ret.
    split; [by repeat (eapply stack_trans; [eassumption|])|]. eauto. }
  apply wp_bind. destruct Ht2 as (x & Hx & Ex & Ht2').
  eapply wp_mono; [eapply wp_op_Apply; try done; unfold tran_of; by rewrite Ex|]. intros r c3 [[Hf3 H3] Hr]. unfold tran_of in H3. rewrite Ex in H3.
  assert (tx_at t env g (Some e) true c3) as Ht3 by (eapply tx_at_frame; [exact Hf3|]; by exists x).
  pose proof (frame_stack _ _ Hf3) as Hs3.
  assert (same_stack c c3) as Hs by by repeat (eapply stack_trans; [eassumption|]).
  unfold err in *. destruct (spec_op _ _ _ _ _) as [z|V1] eqn:E1; cbn [and_then].
  - destruct H3 as (He & Hz & W & HW). destruct (decide (rcode r = ERRCODE_SUCCESS)); [done|].
    rewrite decide_True by done. apply wp_bind. eapply (wp_upd_tx _ _ _ _ true false); [done..|].
    intros c4 Hst4 Ht4 Hs4. apply wp_ret. split; [by eapply stack_trans|]. eauto.
  - destruct H3 as [He Hst3]. destruct (decide (rcode r = ERRCODE_SUCCESS)) as [Er|]; [|done].
    rewrite decide_False by (by intros ?). apply wp_bind. eapply (wp_upd_tx _ _ _ _ true true); [done..|].
    intros c4 Hst4 Ht4 Hs4. eapply wp_mono; [apply IH; try done; by eapply spec_op_code_free|].
    intros ok c5 (Hs5 & Ht5 & H5). split; [|done]. by repeat (eapply stack_trans; [eassumption|]).
Qed.

(** The gas of a transaction is a number of the type, not negative. *)
Definition gas_ok (env : TransactionEnv) : Prop :=
  0 ≤ GetSelfGas (new_TransactionFrm env) ∧ is_i64 (GetSelfGas (new_TransactionFrm env)).

Definition plain_env (env : TransactionEnv) : Prop :=
  Forall plain_op (operations (transaction env)) ∧ gas_ok env ∧ src_ok env.

Lemma SafeIntMul_ok x y : 0 ≤ x → ∃ m, SafeIntMul x y = Ok m.
Proof.
  intros Hx. unfold SafeIntMul. case_match; [eauto|]. destruct (Z.eqb_spec x (-1)); [lia|]. simpl. eauto.
Qed.

(** What the transaction costs, as the code computes it. *)
Definition used_gas (env : TransactionEnv) : Z := i64 (0 + GetSelfGas (new_TransactionFrm env)).

Lemma wp_cost env c Q :
  gas_ok env → Q (spec_cost env) c →
  wp F (lift_res (SafeIntMul (used_gas env) (gas_price (transaction env)))) c Q.
Proof.
  intros [H0 Hi] HQ. unfold spec_cost, used_gas in *. rewrite Z.add_0_l, i64_id in * by done.
  destruct (SafeIntMul_ok (GetSelfGas (new_TransactionFrm env)) (gas_price (transaction env)) H0) as [m Hm].
  rewrite Hm in *. apply wp_lift_res; [done|]. by intros a [= <-].
Qed.

Lemma GetSelfGas_env x env : transaction_env_ x = env → GetSelfGas x = GetSelfGas (new_TransactionFrm env).
Proof. intros <-. done. Qed.

Lemma wp_reject t env g oe ok c V B e x (Q : bool → Ctx → Prop) :
  st e V B c → tx_at t env g oe ok c →
  (∀ c', st e V B c' → tx_at t env g oe false c' → same_stack c c' → Q false c') →
  wp F (reject t x) c Q.
Proof.
  intros Hst Ht HQ. apply wp_bind. eapply (wp_upd_tx _ _ _ _ _ false); [done..|].
  intros c1 Hst1 Ht1 Hs1. apply wp_ret. by apply HQ.
Qed.

(** [Apply] implements [spec_apply]. *)
Lemma wp_Apply e V B c t env oe :
  st e V B c → code_free V → plain_env env → tx_at t env 0 oe true c → transaction_stack_ c = [t] →
  wp F (Apply G Execute t e false) c (λ ok c',
    same_stack c c' ∧ tx_at t env (used_gas env) (Some e) ok c' ∧
    match spec_apply G V env with
    | Failed _ => ok = false ∧ ∃ V', st e V' B c'
    | Done V' => ok = true ∧ st e V' B c' ∧ code_free V'
    end).
Proof.
  intros Hst HV (Hp & Hg & Hsrc) (x & Hx & H1 & H2 & H3 & H4 & HL & H5) Hs. unfold Apply.
  apply wp_bind, wp_modify. set (c1 := with_txs _ c).
  assert (tx_at t env 0 (Some e) true c1) as Ht1.
  { exists (set_environment e x). unfold c1. simpl. by rewrite list_lookup_alter_eq, Hx. }
  apply wp_bind. unfold wp at 1, GetBottomTx. simpl. rewrite Hs.
  apply wp_bind. unfold AddActualFee. apply wp_bind. eapply wp_get_tx_at; [exact Ht1|]. intros x1 E1 _ _ _ _ _.
  apply wp_bind, wp_modify. set (c2 := with_txs _ c1).
  assert (tx_at t env (used_gas env) (Some e) true c2) as Ht2.
  { destruct Ht1 as (y & Hy & ? & ? & ? & ? & ? & ?). exists (AddActualGas (GetSelfGas x1) y).
    assert (txs c2 !! t = AddActualGas (GetSelfGas x1) <$> txs c1 !! t) as -> by apply list_lookup_alter_eq.
    rewrite Hy. split_and!; try done. simpl.
    rewrite (GetSelfGas_env x1 env) by done. unfold used_gas. congruence. }
  assert (st e V B c2) as Hst2 by exact Hst. assert (same_stack c c2) as Hs2 by done.
  clearbody c2. clear c1 Ht1.
  apply wp_bind. eapply wp_get_tx_at; [exact Ht2|]. intros x2 E2 _ G2 _ _ _. rewrite G2.
  unfold tran_of. rewrite E2. apply wp_bind, wp_cost; [done|]. unfold spec_apply.
  destruct (spec_cost env) as [cost|].
  2:{ eapply wp_reject; [done..|]. intros c3 Hst3 Ht3 Hs3. apply wp_ret. split; [by eapply stack_trans|]. eauto. }
  destruct (_ <? cost).
  { eapply wp_reject; [done..|]. intros c3 Hst3 Ht3 Hs3. apply wp_ret. split; [by eapply stack_trans|]. eauto. }
  apply wp_ret. cbn [negb]. apply wp_bind. eapply wp_get_tx_at; [exact Ht2|]. intros x3 E3 _ _ _ _ _. unfold tran_of. rewrite E3.
  eapply wp_mono; [by apply wp_apply_operations|]. intros ok c3 (Hs3 & Ht3 & Hc3). split; [|done]. by eapply stack_trans.
Qed.

(** [PayFee] implements [spec_pay]. *)
Lemma wp_PayFee e V B c t env g oe total :
  src_ok env → st e V B c → tx_at t env g oe true c →
  wp F (PayFee G t e total) c (λ r c',
    same_stack c c' ∧ r.1 = (spec_pay V total env).1 ∧
    match (spec_pay V total env).2 with
    | None => r.2 = false ∧ st e V B c'
    | Some V' => r.2 = true ∧ st e V' B c' ∧ tx_at t env g oe true c'
    end).
Proof.
  intros Hsrc Hst Ht. unfold PayFee, spec_pay. cbv zeta. apply wp_bind. eapply wp_get_tx_at; [exact Ht|].
  intros x Ex _ _ _ _ _. unfold frm_source, tran_of. rewrite Ex.
  apply wp_bind. eapply wp_GetEntry; [done..|]. intros c1 Hst1 Hf1.
  pose proof (tx_at_frame _ _ _ _ _ _ _ Hf1 Ht) as Ht1. pose proof (frame_stack _ _ Hf1) as Hs1.
  assert (∀ code (f : Z), wp F (upd_tx t (set_code code);; mret (f, false)) c1 (λ (r : Z * bool) c',
    same_stack c c' ∧ r.1 = f ∧ r.2 = false ∧ st e V B c')) as Hrej.
  { intros code f. apply wp_bind. eapply (wp_upd_tx _ _ _ _ _ false); [done..|].
    intros c2 Hst2 Ht2 Hs2. apply wp_ret. split; [by eapply stack_trans|done]. }
  destruct (V !! tx_source_address (transaction env)) as [a|]; [|apply Hrej].
  destruct (SafeIntAdd total _); [|apply Hrej]. destruct (SafeIntSub _ _); [|apply Hrej].
  apply wp_bind. eapply wp_AddEntry; [done|]. intros c2 Hst2 Hf2. apply wp_ret.
  split; [eapply stack_trans; [done|by apply frame_stack]|]. split; [done|]. split; [done|].
  split; [done|]. by eapply tx_at_frame.
Qed.

Lemma wp_NonceIncrease e V B c t env g oe :
  src_ok env → st e V B c → tx_at t env g oe true c → is_Some (V !! tx_source_address (transaction env)) →
  wp F (tx_NonceIncrease G t e) c (λ _ c',
    same_stack c c' ∧ st e (spec_nonce V env) B c' ∧ tx_at t env g oe true c').
Proof.
  intros Hsrc Hst Ht [a Ha]. unfold tx_NonceIncrease, spec_nonce. apply wp_bind. eapply wp_get_tx_at; [exact Ht|].
  intros x Ex _ _ _ _ _. unfold frm_source, tran_of. rewrite Ex, Ha.
  apply wp_bind. eapply wp_GetEntry; [done..|]. intros c1 Hst1 Hf1. rewrite Ha.
  eapply wp_AddEntry; [done|]. intros c2 Hst2 Hf2.
  split; [eapply stack_trans; by apply frame_stack|]. split; [done|]. eapply tx_at_frame; [done|]. by eapply tx_at_frame.
Qed.

(** [ReturnFee] implements [spec_refund]. *)
Lemma wp_ReturnFee e V B c t env total :
  st e V B c → gas_ok env → src_ok env → tx_at t env (used_gas env) (Some e) true c →
  wp F (ReturnFee G t total) c (λ r c',
    same_stack c c' ∧ r.1 = (spec_refund V total env).2 ∧ st e (spec_refund V total env).1 B c' ∧
    tx_at t env (used_gas env) (Some e) false c').
Proof.
  intros Hst Hg Hsrc Ht. unfold ReturnFee, spec_refund. apply wp_bind. eapply wp_get_tx_at; [exact Ht|].
  intros x Ex _ Gx Ox Rx _. rewrite Gx. unfold frm_source, tran_of. rewrite Ex.
  assert (∀ code (f : Z) c1, same_stack c c1 → st e V B c1 → tx_at t env (used_gas env) (Some e) true c1 →
    wp F (upd_tx t (set_code code);; mret (f, false)) c1 (λ (r : Z * bool) c',
    same_stack c c' ∧ r.1 = f ∧ st e V B c' ∧ tx_at t env (used_gas env) (Some e) false c')) as Hrej.
  { intros code f c1 Hs1 Hst1 Ht1. apply wp_bind. eapply (wp_upd_tx _ _ _ _ _ false); [done..|].
    intros c2 Hst2 Ht2 Hs2. apply wp_ret. split; [by eapply stack_trans|done]. }
  apply wp_bind, wp_cost; [done|]. destruct (spec_cost env) as [cost|]; [|by apply Hrej].
  destruct (SafeIntSub _ cost) as [fee|]; [|by apply Hrej].
  rewrite bool_decide_eq_false_2 by (by intros []; auto). cbn [orb].
  destruct (fee <=? 0); [apply wp_ret; split_and!; try done; by apply tx_at_weaken|].
  apply wp_bind. unfold tx_environment. apply wp_bind. eapply wp_get_tx_at; [exact Ht|].
  intros y _ _ _ Oy _ _. rewrite Oy. apply wp_ret.
  apply wp_bind. eapply wp_GetEntry; [done..|]. intros c1 Hst1 Hf1.
  pose proof (tx_at_frame _ _ _ _ _ _ _ Hf1 Ht) as Ht1. pose proof (frame_stack _ _ Hf1) as Hs1.
  destruct (V !! tx_source_address (transaction env)) as [a|]; [|by apply Hrej].
  destruct (SafeIntSub total fee) as [total'|]; [|by apply Hrej]. destruct (SafeIntAdd _ fee); [|by apply Hrej].
  apply wp_bind. eapply wp_AddEntry; [done|]. intros c2 Hst2 Hf2. apply wp_ret.
  split; [eapply stack_trans; [done|by apply frame_stack]|]. split; [done|]. split; [done|].
  apply tx_at_weaken. by eapply tx_at_frame.
Qed.
End tx.

(** ** Blocks *)

Abbreviation tx_at := (tx_has lim0).

Section block.
Context {LH : LedgerHost} (G : Globals) (F : fault → Prop).
Context (header_seq : Z).

Local Abbreviation st := (st G).

(** The context and the progress of a block stand for a state of the specification. *)
Definition at_block (e : nat) (s : lstate) (p : Progress) (c : Ctx) : Prop :=
  st e (accounts s) (accounts s) c ∧ transaction_stack_ c = [] ∧ total_fee_ p = fees s ∧
  error_txs p = failed s ∧ code_free (accounts s).

Lemma code_free_upd V k (f : AccountFrm → AccountFrm) a :
  code_free V → V !! k = Some a → contract (account_info_ (f a)) = contract (account_info_ a) →
  code_free (<[k := f a]> V).
Proof. intros HV Ha Hf. destruct (HV _ _ Ha). apply code_free_insert; [done|done|]. by rewrite Hf. Qed.

Lemma code_free_pay V total env total' V' :
  code_free V → spec_pay V total env = (total', Some V') →
  code_free V' ∧ is_Some (V' !! tx_source_address (transaction env)).
Proof.
  intros HV. unfold spec_pay. cbv zeta. destruct (V !! _) as [a|] eqn:Ea; [|done].
  destruct (SafeIntAdd _ _); [|done]. destruct (SafeIntSub _ _) as [b|]; [|done]. intros [= <- <-].
  rewrite lookup_insert_eq. split; [|eauto]. by apply (code_free_upd V _ (with_info (set_balance b))).
Qed.

Lemma code_free_nonce V env : code_free V → code_free (spec_nonce V env).
Proof.
  intros HV. unfold spec_nonce. destruct (V !! _) as [a|] eqn:Ea; [|done].
  by apply (code_free_upd V _ NonceIncrease).
Qed.

Lemma code_free_refund V total env : code_free V → code_free (spec_refund V total env).1.
Proof.
  intros HV. unfold spec_refund. destruct (spec_cost env) as [cost|]; [|done].
  destruct (SafeIntSub _ cost); [|done]. destruct (_ <=? 0); [done|]. destruct (V !! _) as [a|] eqn:Ea; [|done].
  destruct (SafeIntSub total _); [|done]. destruct (SafeIntAdd _ _) as [b|]; [|done].
  by apply (code_free_upd V _ (with_info (set_balance b))).
Qed.

Lemma wp_begin_tx e V B c t env oe :
  src_ok env → st e V B c → tx_at t env 0 oe true c → transaction_stack_ c = [] →
  is_Some (V !! tx_source_address (transaction env)) →
  wp F (begin_tx G t e) c (λ _ c', transaction_stack_ c' = [t] ∧ tx_at t env 0 oe true c' ∧
    st e (spec_nonce V env) (spec_nonce V env) c').
Proof.
  intros Hsrc Hst Ht Hs HV. unfold begin_tx. apply wp_bind, wp_modify. apply wp_bind.
  eapply wp_mono; [by eapply wp_NonceIncrease|]. intros _ c1 (Hs1 & Hst1 & Ht1).
  eapply wp_Commit; [done|]. intros c2 Hst2 Hf2. pose proof (frame_stack _ _ Hf2) as Hs2.
  split_and!; [|by eapply tx_at_frame|done]. unfold same_stack in *. rewrite Hs2, Hs1. simpl. by rewrite Hs.
Qed.

Lemma wp_settle lim e V B c t env p :
  st e V B c → gas_ok env → src_ok env → tx_has lim t env (used_gas env) (Some e) true c →
  wp F (settle G t p) c (λ p' c', same_stack c c' ∧
    p' = set_total_fee (spec_refund V (total_fee_ p) env).2 p ∧
    st e (spec_refund V (total_fee_ p) env).1 (spec_refund V (total_fee_ p) env).1 c').
Proof.
  intros Hst Hg Hsrc Ht. unfold settle. apply wp_bind. eapply wp_mono; [by eapply wp_ReturnFee|].
  intros [f ok] c1 (Hs1 & Hf1 & Hst1 & Ht1). cbn in Hf1. subst f. apply wp_bind. unfold tx_environment. apply wp_bind.
  eapply wp_get_tx_at; [exact Ht1|]. intros x _ _ _ -> _ _. apply wp_ret.
  apply wp_bind. eapply wp_Commit; [done|]. intros c2 Hst2 Hf2. apply wp_ret.
  split_and!; [eapply stack_trans; [done|by apply frame_stack]|done|done].
Qed.

Lemma wp_end_tx e V B c t env p :
  st e V B c → transaction_stack_ c = [t] →
  wp F (end_tx t e env p) c (λ p' c', p' = add_applied t env p ∧ transaction_stack_ c' = [] ∧ st e B B c').
Proof.
  intros Hst Hs. unfold end_tx. apply wp_bind. eapply wp_Clear; [done|]. intros c1 Hst1 (_ & Hs1 & _).
  apply wp_bind, wp_modify, wp_ret. split_and!; [done| |done]. simpl. by rewrite Hs1, Hs.
Qed.

(** What the part of [apply_one] and [follow_one] between [begin_tx] and [end_tx] does. *)
Definition body_post (expired : bool) (i : Z) (e t : nat) (env : TransactionEnv) (s : lstate) (p : Progress)
    (ex : list Z) (p' : Progress) (c' : Ctx) : Prop :=
  let s' := spec_paid G expired i env s in
  transaction_stack_ c' = [t] ∧ (∃ V, st e V (accounts s') c') ∧ code_free (accounts s') ∧
  total_fee_ p' = fees s' ∧ error_txs p' = failed s' ∧ expire_txs p' = ex ∧
  transaction_envs_ p' = transaction_envs_ p ∧ need_dropped_tx_ p' = need_dropped_tx_ p.

(** The result of the application, before its success is settled. *)
Definition applied (lim : limits) (e t : nat) (env : TransactionEnv) (V : lmap) (ok : bool) (c' : Ctx) : Prop :=
  transaction_stack_ c' = [t] ∧ tx_has lim t env (used_gas env) (Some e) ok c' ∧
  match spec_apply G V env with
  | Failed _ => ok = false ∧ ∃ V', st e V' V c'
  | Done V' => ok = true ∧ st e V' V c' ∧ code_free V'
  end.

Lemma wp_outcome lim e t env i s p ok c :
  code_free (spec_nonce (accounts s) env) → gas_ok env → src_ok env →
  total_fee_ p = fees s → error_txs p = failed s →
  applied lim e t env (spec_nonce (accounts s) env) ok c →
  wp F (if negb ok then mret (add_error i p) else settle G t p) c (body_post false i e t env s p (expire_txs p)).
Proof.
  intros HV Hg Hsrc Hf He (Hs & Ht & H). unfold body_post, spec_paid. cbv zeta.
  destruct (spec_apply G _ env) as [x|V'].
  - destruct H as [-> [V' HV']]. apply wp_ret. split_and!; try done; [by exists V'|simpl; by rewrite He].
  - destruct H as (-> & Hst & HV'). cbn [negb]. eapply wp_mono; [by eapply wp_settle|].
    intros p' c1 (Hs1 & -> & Hst1). pose proof (code_free_refund V' (fees s) env HV') as Hc. rewrite Hf in *.
    destruct (spec_refund V' _ env) as [V1 total1]. split_and!; try done; [congruence|by exists V1].
Qed.

(** What [end_tx] adds to it. *)
Definition tx_post (expired : bool) (i : Z) (e : nat) (env : TransactionEnv) (s : lstate) (p : Progress)
    (ex : list Z) (p' : Progress) (c' : Ctx) : Prop :=
  at_block e (spec_paid G expired i env s) p' c' ∧ expire_txs p' = ex ∧
  transaction_envs_ p' = transaction_envs_ p ++ [env] ∧ need_dropped_tx_ p' = need_dropped_tx_ p.

Lemma wp_finish e t env i s p0 ex p c expired :
  body_post expired i e t env s p0 ex p c →
  wp F (end_tx t e env p) c (tx_post expired i e env s p0 ex).
Proof.
  intros (Hs & [V Hst] & Hc & Hf & He & Hx & Hk & Hn). eapply wp_mono; [by eapply wp_end_tx|].
  intros p' c' (-> & Hs' & Hst'). unfold tx_post. simpl. by rewrite Hk.
Qed.

Lemma wp_Apply_applied lim e V c t env oe :
  st e V V c → code_free V → plain_env env → tx_has lim t env 0 oe true c → transaction_stack_ c = [t] →
  wp F (Apply G (Execute G exec_fuel) t e false) c (applied lim e t env V).
Proof.
  intros Hst HV He Ht Hs. eapply wp_mono; [by eapply wp_Apply|]. intros ok c1 (Hs1 & H).
  split; [|done]. by rewrite Hs1.
Qed.

Lemma wp_follow_one e t env i expired s p c B :
  st e (accounts s) B c → transaction_stack_ c = [] → tx_at t env 0 None true c → code_free (accounts s) →
  is_Some (accounts s !! tx_source_address (transaction env)) → plain_env env →
  total_fee_ p = fees s → error_txs p = failed s →
  wp F (follow_one G t e env i expired p) c (λ p' c', at_block e (spec_paid G expired i env s) p' c').
Proof.
  intros Hst Hs Ht Hc Hsrc He Hf Her. unfold follow_one. apply wp_bind.
  eapply wp_mono; [eapply wp_begin_tx; [apply He|done..]|]. intros _ c1 (Hs1 & Ht1 & Hst1).
  pose proof (code_free_nonce (accounts s) env Hc) as Hc1. apply wp_bind.
  eapply wp_mono with (body_post expired i e t env s p (expire_txs p)).
  - destruct expired.
    + apply wp_bind. eapply (wp_upd_tx _ _ _ _ _ _ _ _ false); [done..|]. intros c2 Hst2 Ht2 Hs2. apply wp_ret.
      unfold body_post, spec_paid. simpl. split_and!; try done; [congruence|by eexists].
    + apply wp_bind. eapply wp_mono; [by eapply (wp_Apply_applied lim0)|]. intros ok c2 Ha.
      apply (wp_outcome lim0); try done; apply He.
  - intros p1 c2 Hb. eapply wp_mono; [by eapply wp_finish|]. by intros p' c' [? _].
Qed.

(** The clock of a node that is fast enough: no reading is later than another by more than the
    time of a transaction. *)
Definition fast_clock : Prop := ∀ m n, 0 < clock m ∧ clock n ≤ clock m + TX_EXECUTE_TIME_OUT ∧ clock n < 2 ^ 62.

(** The limits of contracts: the check touches only the clock and the code of the result. *)
Lemma wp_IsExpire lim e V B c t env g oe ok :
  st e V B c → tx_has lim t env g oe ok c →
  wp F (IsExpire t) c (λ b c', st e V B c' ∧ same_stack c c' ∧ tx_has lim t env g oe (ok && negb b) c' ∧
    (fast_clock → (∃ m, lim = (true, clock m + TX_EXECUTE_TIME_OUT, 0, 0, 0)) → b = false)).
Proof.
  intros Hst Ht. unfold IsExpire. apply wp_bind. pose proof Ht as (x & Hx & _ & _ & _ & _ & HL & _).
  eapply wp_get_tx_Some; [done|]. set (Q := λ b c', _).
  assert (∀ c1, st e V B c1 → same_stack c c1 → tx_has lim t env g oe ok c1 →
    (fast_clock → (∃ m, lim = (true, clock m + TX_EXECUTE_TIME_OUT, 0, 0, 0)) → False) →
    wp F (upd_tx t (set_code ERRCODE_CONTRACT_EXECUTE_EXPIRED);; mret true) c1 Q) as He.
  { intros c1 Hst1 Hs1 Ht1 Hno. apply wp_bind. eapply (wp_upd_tx _ _ _ _ _ _ _ _ false); [done..|].
    intros c2 Hst2 Ht2 Hs2. apply wp_ret. unfold Q. rewrite andb_false_r.
    split_and!; try done; [by eapply stack_trans|]. intros Hfc Hm. by destruct (Hno Hfc Hm). }
  assert (∀ c1, st e V B c1 → same_stack c c1 → tx_has lim t env g oe ok c1 → wp F (mret false) c1 Q) as Hn.
  { intros c1 Hst1 Hs1 Ht1. apply wp_ret. unfold Q. by rewrite andb_true_r. }
  unfold lims in HL. destruct (negb (enable_check_ x)); [by apply Hn|]. cbv zeta.
  destruct (Z.ltb_spec CONTRACT_STEP_LIMIT (contract_step_ x)) as [Hl|_].
  { apply He; [done..|]. intros _ [m Hm]. rewrite Hm in HL. injection HL as _ _ E _ _. by rewrite E in Hl. }
  apply wp_bind. unfold wp at 1, HighResolution.
  destruct (bool_decide _ && _) eqn:Et.
  { apply He; [done..|]. intros Hfc [m Hm]. rewrite Hm in HL. injection HL as _ E _ _ _. rewrite E in Et.
    apply andb_prop in Et as [_ Et%Z.ltb_lt]. destruct (Hfc m (tick c)) as (_ & ? & _). lia. }
  destruct (Z.ltb_spec CONTRACT_MEMORY_LIMIT (contract_memory_usage_ x)) as [Hl|_].
  { apply He; [done..|]. intros _ [m Hm]. rewrite Hm in HL. injection HL as _ _ _ E _. by rewrite E in Hl. }
  destruct (Z.ltb_spec CONTRACT_STACK_LIMIT (contract_stack_usage_ x)) as [Hl|_]; [|by apply Hn].
  apply He; [done..|]. intros _ [m Hm]. rewrite Hm in HL. injection HL as _ _ _ _ E. by rewrite E in Hl.
Qed.

(** A change of the limits. *)
Lemma wp_upd_lim lim lim' t env g oe f c V B e (Q : unit → Ctx → Prop) :
  st e V B c → tx_has lim t env g oe true c →
  (∀ x, transaction_env_ (f x) = transaction_env_ x ∧ valid_signature_ (f x) = valid_signature_ x ∧
        actual_gas_ (f x) = actual_gas_ x ∧ environment_ (f x) = environment_ x ∧ result_ (f x) = result_ x) →
  (∀ x, lims x = lim → lims (f x) = lim') →
  (∀ c', st e V B c' → tx_has lim' t env g oe true c' → same_stack c c' → Q tt c') → wp F (upd_tx t f) c Q.
Proof.
  intros Hst (x & Hx & H1 & H2 & H3 & H4 & HL & H5) Hf Hl HQ. apply wp_modify, HQ; [exact Hst| |done].
  exists (f x). destruct (Hf x) as (E1 & E2 & E3 & E4 & E5). simpl. rewrite list_lookup_alter_eq, Hx.
  split; [done|]. rewrite E1, E2, E3, E4, E5. split_and!; try done. by apply Hl.
Qed.

(** The application with a deadline. *)
Lemma wp_apply_timed e V c t env :
  st e V V c → code_free V → plain_env env → tx_at t env 0 None true c → transaction_stack_ c = [t] →
  wp F (apply_timed G t e) c (λ r c', (fast_clock → r.1 = false) ∧
    if r.1 then transaction_stack_ c' = [t] ∧ ∃ V', st e V' V c' else ∃ lim, applied lim e t env V r.2 c').
Proof.
  intros Hst HV He Ht Hs. unfold apply_timed. apply wp_bind.
  eapply (wp_upd_lim lim0 (true, 0, 0, 0, 0)); [done..|intros x [= ? ? ? ? ?]; unfold lims; simpl; congruence|].
  intros c1 Hst1 Ht1 Hs1. apply wp_bind. unfold wp at 1, HighResolution.
  set (lim := (true, i64 (clock (tick c1) + TX_EXECUTE_TIME_OUT), 0, 0, 0)).
  apply wp_bind. eapply (wp_upd_lim _ lim); [exact Hst1|exact Ht1|done|intros x [= ? ? ? ? ?]; unfold lims, lim; simpl; congruence|].
  intros c2 Hst2 Ht2 Hs2. unfold same_stack in *. simpl in Hs2.
  assert (fast_clock → ∃ m, lim = (true, clock m + TX_EXECUTE_TIME_OUT, 0, 0, 0)) as Hlim.
  { intros Hfc. exists (tick c1). unfold lim. rewrite i64_id; [done|].
    destruct (Hfc (tick c1) (tick c1)) as (? & _ & ?). unfold is_i64, TX_EXECUTE_TIME_OUT. lia. }
  apply wp_bind. eapply wp_mono; [eapply (wp_Apply_applied lim); try done; congruence|].
  intros ok c3 (Hs3 & Ht3 & H3). apply wp_bind. unfold applied. destruct (spec_apply G V env) as [x|V1].
  - destruct H3 as [-> [V' Hst3]]. eapply wp_mono; [by eapply wp_IsExpire|].
    intros b c4 (Hst4 & Hs4 & Ht4 & Hb). apply wp_ret. unfold same_stack in Hs4. rewrite Hs3 in Hs4.
    split; [simpl; auto|]. destruct b; simpl; [eauto|]. exists lim. split_and!; eauto.
  - destruct H3 as (-> & Hst3 & HV1). eapply wp_mono; [by eapply wp_IsExpire|].
    intros b c4 (Hst4 & Hs4 & Ht4 & Hb). apply wp_ret. unfold same_stack in Hs4. rewrite Hs3 in Hs4.
    split; [simpl; auto|]. destruct b; simpl; [eauto|]. exists lim. split_and!; eauto.
Qed.

Lemma wp_apply_one e t env i s p c B :
  st e (accounts s) B c → transaction_stack_ c = [] → tx_at t env 0 None true c → code_free (accounts s) →
  is_Some (accounts s !! tx_source_address (transaction env)) → plain_env env →
  total_fee_ p = fees s → error_txs p = failed s →
  wp F (apply_one G t e env i p) c (λ p' c', ∃ expired : bool, (fast_clock → expired = false) ∧
    tx_post expired i e env s p (if expired then set_insert i (expire_txs p) else expire_txs p) p' c').
Proof.
  intros Hst Hs Ht Hc Hsrc He Hf Her. unfold apply_one. apply wp_bind.
  eapply wp_mono; [eapply wp_begin_tx; [apply He|done..]|]. intros _ c1 (Hs1 & Ht1 & Hst1).
  pose proof (code_free_nonce (accounts s) env Hc) as Hc1. apply wp_bind.
  eapply wp_mono; [by eapply wp_apply_timed|]. intros [expired ok] c2 [Hfast H2]. simpl in H2, Hfast. apply wp_bind.
  eapply wp_mono with (body_post expired i e t env s p
    (if expired then set_insert i (expire_txs p) else expire_txs p)).
  - destruct expired; [|destruct H2 as [lim H2]; by apply (wp_outcome lim); try apply He]. destruct H2 as [Hs2 [V' Hst2]]. apply wp_ret.
    unfold body_post, spec_paid. simpl. split_and!; try done. by eexists.
  - intros p1 c3 Hb. eapply wp_mono; [by eapply wp_finish|]. intros p' c' H. by exists expired.
Qed.

(** *** Admission *)

(** A transaction as it was made. *)
Definition tx_new (t : nat) (env : TransactionEnv) (c : Ctx) : Prop := txs c !! t = Some (new_TransactionFrm env).

Lemma tx_new_at t env c : tx_new t env c → tx_at t env 0 None true c.
Proof. intros Hx. by exists (new_TransactionFrm env). Qed.

Lemma wp_ValidForParameter e V B c t env :
  st e V B c → tx_new t env c →
  wp F (ValidForParameter G t 0) c (λ ok c', ok = spec_param G env ∧
    st e V B c' ∧ same_stack c c' ∧ tx_at t env 0 None ok c').
Proof.
  intros Hst Hx. pose proof (tx_new_at _ _ _ Hx) as Ht. unfold ValidForParameter. apply wp_bind.
  eapply wp_get_tx_Some; [exact Hx|]. apply wp_bind, wp_get_ctx. cbv zeta. unfold spec_param. cbv zeta.
  unfold tran_of. cbn [transaction_env_ new_TransactionFrm ledger_set]. rewrite Z.eqb_refl. cbn [andb].
  repeat match goal with |- wp _ (if ?b then _ else _) _ _ =>
    destruct b; cbn [negb andb]; [by eapply wp_reject|] end.
  apply wp_bind, wp_modify, wp_ret. split_and!; [done|exact Hst|done|].
  eexists. simpl. rewrite list_lookup_alter_eq, Hx. split_and!; try done. by intros ?%bool_decide_eq_true.
Qed.

(** The price of the transaction is computed, or its fault is allowed. *)
Definition price_fault (env : TransactionEnv) : Prop :=
  ∀ f, SafeIntMul (GetSelfGas (new_TransactionFrm env)) (gas_price (transaction env)) = Err f → F f.

Lemma gas_price_fault env : gas_ok env → price_fault env.
Proof. intros [Hg _] f. by destruct (SafeIntMul_ok _ (gas_price (transaction env)) Hg) as [m ->]. Qed.

Lemma wp_ValidForApply e V B c t env :
  src_ok env → st e V B c → price_fault env → tx_new t env c →
  wp F (ValidForApply G t e (negb (is_test_mode_ G))) c (λ ok c', ok = spec_valid G V env ∧
    st e V B c' ∧ same_stack c c' ∧ tx_at t env 0 None ok c').
Proof.
  intros Hsrc Hst Hg Hx. unfold ValidForApply, spec_valid. apply wp_bind. eapply wp_mono; [by eapply wp_ValidForParameter|].
  intros ok c1 (-> & Hst1 & Hs1 & Ht1). destruct (spec_param G env); cbn [negb andb]; [|by apply wp_ret].
  apply wp_bind. eapply wp_get_tx_at; [exact Ht1|]. intros x E1 E2 _ _ _ _. unfold frm_source, tran_of. rewrite E1, E2.
  apply wp_bind. eapply wp_GetEntry; [done..|]. intros c2 Hst2 Hf2.
  pose proof (tx_at_frame _ _ _ _ _ _ _ _ Hf2 Ht1) as Ht2. pose proof (frame_stack _ _ Hf2) as Hs2.
  assert (same_stack c c2) as Hs by by eapply stack_trans.
  assert (∀ r, wp F (reject t r) c2 (λ ok c', ok = false ∧ st e V B c' ∧ same_stack c c' ∧ tx_at t env 0 None ok c')) as Hr.
  { intros r. eapply wp_reject; [done..|]. intros c3 Hst3 Ht3 Hs3. split_and!; [done|done|by eapply stack_trans|done]. }
  destruct (V !! _) as [a|]; [|apply Hr]. destruct (i64 _ =? _); cbn [negb andb]; [|apply Hr].
  destruct (negb (is_test_mode_ G) && _); cbn [negb andb]; [apply Hr|]. unfold CheckFee.
  destruct (SafeIntSub _ _) as [l|]; [|apply Hr]. destruct (l <? base_reserve G); cbn [negb andb]; [apply Hr|].
  apply wp_bind. eapply wp_get_tx_at; [exact Ht2|]. intros y Ey _ _ _ _ _. rewrite (GetSelfGas_env y env) by done.
  apply wp_bind, wp_lift_res; [apply Hg|]. intros m ->. destruct m as [f|]; [|apply Hr].
  destruct (_ <? f); cbn [negb]; [apply Hr|]. by apply wp_ret.
Qed.

(** An admitted transaction is admissible. *)
Lemma spec_valid_admissible V env : spec_valid G V env = true → admissible G V env.
Proof.
  unfold spec_valid, spec_param. cbv zeta. rewrite !andb_true_iff, !negb_true_iff, bool_decide_eq_true.
  intros [(_ & _ & _ & _ & _ & _ & Hf & Hp & Ho) H].
  apply check_operations_amounts in Ho. apply Z.ltb_ge in Hf, Hp. split; [done|]. split; [lia|]. split; [done|].
  destruct (V !! _) as [a|]; [|done]. rewrite !andb_true_iff in H. destruct H as (_ & _ & H).
  destruct (SafeIntSub _ _) as [l|] eqn:El; [|done]. apply andb_prop in H as [Hl _].
  apply negb_true_iff, Z.ltb_ge in Hl. by exists a, l.
Qed.

Lemma wp_new_tx e V B c env (Q : nat → Ctx → Prop) :
  st e V B c → (∀ t c', st e V B c' → same_stack c c' → tx_new t env c' → Q t c') →
  wp F (new_tx (new_TransactionFrm env)) c Q.
Proof.
  intros Hst HQ. unfold wp, new_tx. apply HQ; [exact Hst|done|]. unfold tx_new. simpl.
  by rewrite lookup_app_r, Nat.sub_diag by done.
Qed.
End block.
