(* ===== verification/LedgerRefine.v ===== *)
(** * Blocks implement the abstract ledger

    The loops of [ApplyPropose], [ApplyCheck] and [ApplyFollow] and the rewards, for blocks
    without contracts: each of the three computes the accounts of [spec_block]. *)
From stdpp Require Import base gmap list strings numbers.
From Stdlib Require Import ZArith Lia.
From S2P Require Import Prelude SafeInt Strings Hex Base58 AtomMap Account LedgerMsg Environment Operation TransactionFrm Contract LedgerFrm LedgerLogic LedgerInv LedgerSpec LedgerView LedgerBlock.
Local Open Scope Z_scope.

Lemma elem_set_insert x y l : x ∈ set_insert y l ↔ x = y ∨ x ∈ l.
Proof.
  induction l as [|z l IH]; simpl; [by rewrite elem_of_cons|].
  destruct (y <? z); [by rewrite elem_of_cons|]. destruct (Z.eqb_spec y z) as [->|].
  - rewrite !elem_of_cons. tauto.
  - rewrite !elem_of_cons, IH. tauto.
Qed.

Lemma set_insert_last x l : (∀ y, y ∈ l → y < x) → set_insert x l = l ++ [x].
Proof.
  induction l as [|z l IH]; intros H; simpl; [done|]. pose proof (H z ltac:(set_solver)).
  destruct (Z.ltb_spec x z); [lia|]. destruct (Z.eqb_spec x z); [lia|]. rewrite IH; [done|]. set_solver.
Qed.

Section refine.
Context {LH : LedgerHost} (G : Globals) (F : fault → Prop).
Context (header_seq : Z).

Local Abbreviation st := (st G).
Local Abbreviation at_block := (at_block G).

(** A transaction whose fee is paid is in the state of [spec_paid]. *)
Lemma wp_pay_block e s p c t env :
  src_ok env → at_block e s p c → tx_at t env 0 None true c →
  wp F (PayFee G t e (total_fee_ p)) c (λ r c',
    match spec_pay (accounts s) (fees s) env with
    | (total, None) => r.2 = false ∧ at_block e (mkState (accounts s) total (failed s)) (set_total_fee r.1 p) c'
    | (total, Some V) => r.2 = true ∧ r.1 = total ∧ st e V (accounts s) c' ∧ transaction_stack_ c' = [] ∧
        tx_at t env 0 None true c' ∧ code_free V ∧ is_Some (V !! tx_source_address (transaction env))
    end).
Proof.
  intros Hsp (Hst & Hs & Hf & He & Hc) Ht. rewrite Hf. eapply wp_mono; [by eapply wp_PayFee|].
  intros [f ok] c1 (Hs1 & Hr & H). unfold same_stack in Hs1.
  destruct (spec_pay _ _ _) as [total [V|]] eqn:E; simpl in *; subst f; destruct H as [-> H].
  - destruct H as [H1 H2]. split_and!; try done; [congruence|..]; by eapply code_free_pay in E as [??].
  - split; [done|]. split_and!; try done. simpl. congruence.
Qed.

Lemma wp_follow_loop e ex l : ∀ i s p c,
  at_block e s p c → Forall plain_env l →
  wp F (follow_loop G e ex i l p) c (at_block e (spec_txs G (λ j, bool_decide (j ∈ ex)) i l s)).
Proof.
  induction l as [|env l IH]; intros i s p c Hb Hl; cbn [follow_loop spec_txs]; [by apply wp_ret|].
  apply Forall_cons_1 in Hl as [He Hl]. apply wp_bind. destruct Hb as (Hst & Hb).
  eapply wp_new_tx; [exact Hst|]. intros t c1 Hst1 Hs1 Ht1.
  assert (at_block e s p c1) as Hb1 by (split; [done|]; by rewrite Hs1).
  apply wp_bind. eapply wp_mono; [eapply wp_pay_block; [apply He|done|by apply tx_new_at]|]. intros [f ok] c2 H2. unfold spec_tx.
  destruct (spec_pay _ _ _) as [total [V|]]; simpl in H2.
  - destruct H2 as (-> & -> & Hst2 & Hs2 & Ht2 & Hc2 & Hsrc). cbn [negb]. apply wp_bind.
    eapply wp_mono; [|intros p' c' Hb'; apply IH; [exact Hb'|done]].
    apply (wp_follow_one G F e t env i _ (mkState V total (failed s))) with (accounts s); try done. apply Hb.
  - destruct H2 as [-> Hb2]. by apply IH.
Qed.

(** The outcome of a loop that records the transactions that expired. *)
Definition recorded (e : nat) (i : Z) (l : list TransactionEnv) (s : lstate) (ex : list Z) (p' : Progress) (c' : Ctx) : Prop :=
  at_block e (spec_txs G (λ j, bool_decide (j ∈ expire_txs p')) i l s) p' c' ∧
  admissible_all G (λ j, bool_decide (j ∈ expire_txs p')) i l s ∧
  (∀ j, j ∈ expire_txs p' → j ∈ ex ∨ i ≤ j) ∧ ex ⊆ expire_txs p'.

(** One more transaction in front of a recorded loop. *)
Lemma recorded_cons e i env l s total V ex (expired : bool) p' c' :
  spec_valid G (accounts s) env = true → spec_pay (accounts s) (fees s) env = (total, Some V) → (∀ j, j ∈ ex → j < i) →
  recorded e (i + 1) l (spec_paid G expired i env (mkState V total (failed s)))
    (if expired then set_insert i ex else ex) p' c' →
  recorded e i (env :: l) s ex p' c'.
Proof.
  intros Had Hp Hlt (Hb & Hall & Hin & Hsub). unfold recorded. cbn [spec_txs admissible_all]. unfold spec_tx. rewrite Hp.
  assert (bool_decide (i ∈ expire_txs p') = expired) as ->.
  { destruct expired.
    - apply bool_decide_eq_true, Hsub, elem_set_insert. by left.
    - apply bool_decide_eq_false. intros [Hi%Hlt|]%Hin; lia. }
  split; [done|]. split; [by split_and!|]. split.
  - intros j [Hj|]%Hin; [|right; lia]. destruct expired; [|by left].
    apply elem_set_insert in Hj as [->|]; [right; lia|by left].
  - destruct expired; [|done]. intros j Hj. apply Hsub, elem_set_insert. by right.
Qed.

Lemma expire_lt (expired : bool) (i : Z) ex :
  (∀ j, j ∈ ex → j < i) → ∀ j, j ∈ (if expired then set_insert i ex else ex) → j < i + 1.
Proof. intros H j. destruct expired; [rewrite elem_set_insert|]; intros Hj; [destruct Hj as [->|Hj]; [lia|]|]; apply H in Hj; lia. Qed.

Lemma wp_block_timeout e s p c start (Q : bool → Ctx → Prop) :
  at_block e s p c → (∀ late c', at_block e s p c' → Q late c') → wp F (block_timeout start) c Q.
Proof. intros Hb HQ. apply wp_bind. unfold wp at 1, HighResolution. by apply wp_ret, HQ. Qed.

Lemma wp_check_loop e start l : ∀ i s p c,
  at_block e s p c → Forall plain_env l → (∀ j, j ∈ expire_txs p → j < i) →
  wp F (check_loop G e start i l p) c (λ r c', r.2 = true → recorded e i l s (expire_txs p) r.1 c').
Proof.
  induction l as [|env l IH]; intros i s p c Hb Hl Hlt; cbn [check_loop].
  { apply wp_ret. intros _. split; [done|]. split; [done|]. split; [by left|done]. }
  apply Forall_cons_1 in Hl as [He Hl]. apply wp_bind. destruct Hb as (Hst & Hb).
  eapply wp_new_tx; [exact Hst|]. intros t c1 Hst1 Hs1 Ht1. apply wp_bind.
  eapply wp_mono; [eapply wp_ValidForApply; [apply He|done|apply gas_price_fault, He|done]|].
  intros ok c2 (Hpay & Hst2 & Hs2 & Ht2). symmetry in Hpay. destruct ok; cbn [negb]; [|by apply wp_ret].
  assert (at_block e s p c2) as Hb1 by (split; [done|]; by rewrite Hs2, Hs1).
  apply wp_bind. eapply wp_mono; [eapply wp_pay_block; [apply He|done..]|]. intros [f ok] c3 H3.
  destruct (spec_pay _ _ _) as [total [V|]] eqn:Ep; simpl in H3; [|destruct H3 as [-> _]; by apply wp_ret].
  destruct H3 as (-> & -> & Hst3 & Hs3 & Ht3 & Hc3 & Hsrc). cbn [negb]. apply wp_bind.
  eapply wp_mono; [apply (wp_apply_one G F e t env i (mkState V total (failed s))) with (accounts s); try done; apply Hb|].
  intros p1 c4 (expired & _ & Hb4 & Hx4 & _). apply wp_bind. eapply wp_block_timeout; [done|].
  intros [|] c5 Hb5; [by apply wp_ret|]. eapply wp_mono; [apply IH; [done..|]|].
  - rewrite Hx4. by apply expire_lt.
  - intros r c6 Hr Hok. eapply recorded_cons; [done..|]. simpl in Hx4. rewrite <- Hx4. by apply Hr.
Qed.

(** A list that was admitted is accepted by a validator whose clock is fast. *)
Lemma wp_check_loop_live e start l : fast_clock → (∃ m, start = clock m) → ∀ i s p c,
  at_block e s p c → Forall plain_env l → admissible_all G (λ _, false) i l s →
  wp F (check_loop G e start i l p) c (λ r c', r.2 = true ∧ expire_txs r.1 = expire_txs p ∧
    at_block e (spec_txs G (λ _, false) i l s) r.1 c').
Proof.
  intros Hfast [m Hm]. induction l as [|env l IH]; intros i s p c Hb Hl Had; cbn [check_loop spec_txs]; [by apply wp_ret|].
  apply Forall_cons_1 in Hl as [He Hl]. destruct Had as (Hv & [V HV] & Had). apply wp_bind. destruct Hb as (Hst & Hb).
  eapply wp_new_tx; [exact Hst|]. intros t c1 Hst1 Hs1 Ht1. apply wp_bind.
  eapply wp_mono; [eapply wp_ValidForApply; [apply He|done|apply gas_price_fault, He|done]|].
  intros ok c2 (-> & Hst2 & Hs2 & Ht2). rewrite Hv in *. cbn [negb].
  assert (at_block e s p c2) as Hb1 by (split; [done|]; by rewrite Hs2, Hs1).
  apply wp_bind. eapply wp_mono; [eapply wp_pay_block; [apply He|done..]|]. intros [f ok] c3 H3. unfold spec_tx in *.
  destruct (spec_pay _ _ _) as [total o]. simpl in HV. subst o. simpl in H3.
  destruct H3 as (-> & -> & Hst3 & Hs3 & Ht3 & Hc3 & Hsrc). cbn [negb]. apply wp_bind.
  eapply wp_mono; [apply (wp_apply_one G F e t env i (mkState V total (failed s))) with (accounts s); try done; apply Hb|].
  intros p1 c4 (expired & Hx & Hb4 & Hx4 & _). rewrite Hx in * by done. simpl in Hx4.
  apply wp_bind. unfold block_timeout. apply wp_bind. unfold wp at 1, HighResolution. apply wp_ret.
  destruct (Hfast m (tick c4)) as (? & ? & _). destruct (Hfast (tick c4) (tick c4)) as (? & _ & ?).
  destruct (Hfast m m) as (_ & _ & ?).
  rewrite i64_id by (unfold is_i64, TX_EXECUTE_TIME_OUT in *; lia).
  destruct (Z.ltb_spec BLOCK_EXECUTE_TIME_OUT (clock (tick c4) - start)).
  { unfold BLOCK_EXECUTE_TIME_OUT, TX_EXECUTE_TIME_OUT in *. lia. }
  rewrite <- Hx4. by apply IH.
Qed.

(** The indices that the proposer records are those of the transactions it keeps. *)
Lemma wp_propose_loop e start l : ∀ i s p c,
  at_block e s p c → Forall plain_env l →
  (∀ j, j ∈ need_dropped_tx_ p → j < i) → (∀ j, j ∈ expire_txs p → j < i - dropped_count p) →
  wp F (propose_loop G e start i l p) c (λ r c', r.2 = true → ∃ kept,
    transaction_envs_ r.1 = transaction_envs_ p ++ kept ∧ Forall plain_env kept ∧
    recorded e (i - dropped_count p) kept s (expire_txs p) r.1 c').
Proof.
  induction l as [|env l IH]; intros i s p c Hb Hl Hd Hlt; cbn [propose_loop].
  { apply wp_ret. intros _. exists []. rewrite app_nil_r. split_and!; [done..|]. split; [done|]. split; [done|]. split; [by left|done]. }
  apply Forall_cons_1 in Hl as [He Hl]. apply wp_bind. destruct Hb as (Hst & Hb).
  eapply wp_new_tx; [exact Hst|]. intros t c1 Hst1 Hs1 Ht1. apply wp_bind.
  eapply wp_mono; [eapply wp_ValidForApply; [apply He|done|apply gas_price_fault, He|done]|]. intros ok c2 (Hpay & Hst2 & Hs2 & Ht2). symmetry in Hpay.
  assert (at_block e s p c2) as Hb1 by (split; [done|]; by rewrite Hs2, Hs1).
  assert (∀ q c', at_block e s q c' → transaction_envs_ q = transaction_envs_ p → expire_txs q = expire_txs p →
    need_dropped_tx_ q = need_dropped_tx_ p →
    wp F (propose_loop G e start (i + 1) l (add_dropped t i q)) c' (λ r c', r.2 = true → ∃ kept,
      transaction_envs_ r.1 = transaction_envs_ p ++ kept ∧ Forall plain_env kept ∧
      recorded e (i - dropped_count p) kept s (expire_txs p) r.1 c')) as Hdrop.
  { intros q c' Hq Htq Hxq Hn. rewrite <- Htq, <- Hxq.
    assert (i + 1 - dropped_count (add_dropped t i q) = i - dropped_count p) as Ei.
    { unfold dropped_count. simpl. rewrite Hn, set_insert_last by done. rewrite length_app. simpl. lia. }
    rewrite <- Ei. apply (IH (i + 1) s (add_dropped t i q)); [done..| |rewrite Ei; simpl; by rewrite Hxq].
    simpl. rewrite Hn. intros j [->|Hj%Hd]%elem_set_insert; lia. }
  destruct ok; cbn [negb]; [|by apply Hdrop]. apply wp_bind. eapply wp_mono; [eapply wp_pay_block; [apply He|done..]|].
  intros [f ok] c3 H3. destruct (spec_pay _ _ _) as [total [V|]] eqn:Ep; simpl in H3.
  2:{ destruct H3 as [-> H3]. cbn [negb]. apply Hdrop; try done.
      destruct (spec_valid_admissible _ _ _ Hpay) as (_ & _ & _ & a & b & Ha & Hab & _). unfold spec_pay in Ep. rewrite Ha in Ep. cbv zeta in Ep.
      destruct (SafeIntAdd _ _) as [n|]; [rewrite Hab in Ep; done|]. injection Ep as <-. exact H3. }
  destruct H3 as (-> & -> & Hst3 & Hs3 & Ht3 & Hc3 & Hsrc). cbn [negb]. apply wp_bind.
  change (dropped_count (set_total_fee total p)) with (dropped_count p).
  set (k := i - dropped_count p) in *.
  eapply wp_mono; [apply (wp_apply_one G F e t env k (mkState V total (failed s))) with (accounts s); try done; apply Hb|].
  intros p1 c4 (expired & _ & Hb4 & Hx4 & Hk4). apply wp_bind. eapply wp_block_timeout; [done|].
  intros [|] c5 Hb5; [by apply wp_ret|]. simpl in Hx4, Hk4. destruct Hk4 as [Hk4 Hn4].
  assert (i + 1 - dropped_count p1 = k + 1) as Ei by (unfold k, dropped_count; rewrite Hn4; lia).
  eapply wp_mono; [apply IH; [done..| |]|].
  - rewrite Hn4. intros j Hj%Hd. lia.
  - rewrite Ei, Hx4. by apply expire_lt.
  - intros r c6 Hr Hok. destruct (Hr Hok) as (kept & Hkept & Hpl & Hrec). exists (env :: kept).
    rewrite Hkept, Hk4, <- app_assoc. split_and!; [done|by constructor|].
    eapply recorded_cons; [done..|]. rewrite <- Hx4, <- Ei. exact Hrec.
Qed.

(** *** Rewards *)

Lemma wp_reward_account e V B c addr amt a :
  spelled addr → st e V B c → V !! addr = Some a →
  wp F (reward_account G e addr amt) c (λ ok c', ∃ V', st e V' B c' ∧
    match spec_reward_account V addr amt with
    | None => ok = false
    | Some W => ok = true ∧ V' = W
    end).
Proof.
  intros Hsp Hst Ha. unfold reward_account, spec_reward_account, spec_balance. rewrite Ha.
  apply wp_bind. eapply wp_deref; [done..|]. intros c1 Hst1 _. destruct (SafeIntAdd _ _); [|apply wp_ret; eauto].
  apply wp_bind. eapply wp_assign; [done|]. intros c2 Hst2 _. apply wp_ret. eauto.
Qed.

(** The remainder, without wrap-around. *)
Lemma left_exact total n k : is_i64 total → 0 < n → 0 ≤ k ≤ n →
  is_i64 (total - k * Z.quot total n).
Proof.
  intros Ht Hn Hk. unfold is_i64, INT64_MIN, INT64_MAX in *.
  assert (total = n * Z.quot total n + Z.rem total n) as E by (apply Z.quot_rem'; lia).
  destruct (Z.le_gt_cases 0 total).
  - pose proof (Z.quot_pos total n ltac:(lia) ltac:(lia)). pose proof (Z.rem_nonneg total n ltac:(lia) ltac:(lia)). nia.
  - pose proof (Z.rem_nonpos total n ltac:(lia) ltac:(lia)).
    assert (Z.quot total n ≤ 0).
    { rewrite <- (Z.opp_involutive total), Z.quot_opp_l by lia. pose proof (Z.quot_pos (- total) n ltac:(lia) ltac:(lia)). lia. }
    nia.
Qed.

Lemma wp_reward_validators e B total n l : ∀ V k c,
  st e V B c → Forall (λ v, spelled v.1) l → is_i64 total → 0 ≤ k → k + Z.of_nat (length l) ≤ n →
  wp F (reward_validators G e (Z.quot total n) l (total - k * Z.quot total n)) c (λ r c', ∃ V', st e V' B c' ∧
    match spec_reward_validators V (Z.quot total n) l with
    | None => r.1 = false
    | Some W => r = (true, total - (k + Z.of_nat (length l)) * Z.quot total n) ∧ V' = W
    end).
Proof.
  induction l as [|[addr w] l IH]; intros V k c Hst Hl Ht Hk Hn; cbn [reward_validators spec_reward_validators].
  { apply wp_ret. exists V. split; [done|]. split; [|done]. f_equal. simpl. lia. }
  apply Forall_cons_1 in Hl as [Ha0 Hl].
  simpl in Hn, Ha0. apply wp_bind. eapply wp_GetEntry; [done..|]. intros c1 Hst1 _. apply wp_bind.
  set (V1 := match V !! addr with Some _ => V | None => _ end).
  apply wp_mono with (λ _ c', st e V1 B c').
  { unfold V1. destruct (V !! addr); [by apply wp_ret|]. simpl. eapply wp_AddEntry; [done|]. by intros c2 Hst2 _. }
  intros _ c2 Hst2. cbv zeta. apply wp_bind.
  assert (is_Some (V1 !! addr)) as [a Ha] by (unfold V1; destruct (V !! addr) eqn:E; [eauto|rewrite lookup_insert_eq; eauto]).
  eapply wp_mono; [by eapply wp_reward_account|]. intros ok c3 (V' & Hst3 & H3).
  destruct (spec_reward_account V1 addr _) as [W|]; simpl; [|subst ok; apply wp_ret; eauto].
  destruct H3 as [-> ->].
  assert (i64 (total - k * Z.quot total n - Z.quot total n) = total - (k + 1) * Z.quot total n) as ->.
  { transitivity (i64 (total - (k + 1) * Z.quot total n)); [f_equal; lia|]. apply i64_id, left_exact; [done|lia..]. }
  eapply wp_mono; [apply IH; [done..|lia|lia]|]. intros r c4 (V2 & Hst4 & H4). exists V2. split; [done|].
  destruct (spec_reward_validators _ _ _); [|done]. destruct H4 as [-> ->]. split; [|done]. f_equal. simpl. lia.
Qed.

Lemma spec_reward_validators_keep V avg l V' k :
  spec_reward_validators V avg l = Some V' → is_Some (V !! k) → is_Some (V' !! k).
Proof.
  revert V. induction l as [|[addr w] l IH]; intros V; cbn; [by intros [= <-]|].
  set (V1 := match V !! addr with Some _ => V | None => _ end). intros E Hk.
  destruct (spec_reward_account V1 addr avg) as [W|] eqn:EW; [|done]. cbn in E. apply (IH W); [done|].
  assert (is_Some (V1 !! k)) as Hk1.
  { unfold V1. destruct (V !! addr); [done|]. rewrite lookup_insert. case_decide; eauto. }
  unfold spec_reward_account, spec_balance in EW. destruct (V1 !! addr); [|done]. destruct (SafeIntAdd _ _); [|done].
  injection EW as <-. rewrite lookup_insert. case_decide; eauto.
Qed.

Lemma spec_reward_validators_in V avg l V' k w :
  spec_reward_validators V avg l = Some V' → (k, w) ∈ l → is_Some (V' !! k).
Proof.
  revert V. induction l as [|[addr u] l IH]; intros V; cbn [spec_reward_validators]; [by intros _ ?%elem_of_nil|].
  cbv zeta. set (V1 := match V !! addr with Some _ => V | None => _ end).
  destruct (spec_reward_account V1 addr avg) as [W|] eqn:EW; [|done]. cbn.
  intros E [[= -> ->]|Hin]%elem_of_cons; [|by eapply IH]. eapply spec_reward_validators_keep; [done|].
  unfold spec_reward_account, spec_balance in EW. destruct (V1 !! addr); [|done]. destruct (SafeIntAdd _ _); [|done].
  injection EW as <-. rewrite lookup_insert_eq. eauto.
Qed.

(** The validators that are paid are spelled as their addresses are encoded. *)
Definition validators_spelled : Prop :=
  ∀ l, GetValidators_at G (header_seq - 1) = Some l → Forall (λ v, spelled v.1) l.

Lemma spelled_validator_contract : spelled (GET_CONTRACT_VALIDATOR_ADDRESS G).
Proof. unfold GET_CONTRACT_VALIDATOR_ADDRESS. destruct (CHECK_VERSION_GT_1002 G); vm_compute; reflexivity. Qed.

Context (Hq : 0 ≤ header_seq) (Hval : validators_spelled).

Lemma wp_AllocateRewardDirectly e V B c total :
  st e V B c → is_i64 total →
  wp F (AllocateRewardDirectly G header_seq e total) c (λ ok c', ∃ V', st e V' B c' ∧
    match spec_reward_directly G header_seq V total with
    | None => ok = false
    | Some W => ok = true ∧ V' = W
    end).
Proof.
  intros Hst Ht. unfold AllocateRewardDirectly, spec_reward_directly.
  destruct (GetValidators_at G _) as [[|x l0]|] eqn:El; [apply wp_ret; eauto| |apply wp_ret; eauto].
  apply Hval in El.
  set (l := x :: l0). cbv zeta. set (n := Z.of_nat (length l)). assert (0 < n) as Hn by (unfold n, l; simpl; lia).
  apply wp_bind. replace total with (total - 0 * Z.quot total n) at 2 by lia.
  eapply wp_mono; [apply wp_reward_validators; [done..|by simpl|unfold n; lia]|].
  intros [ok left] c1 (V1 & Hst1 & H1). destruct (spec_reward_validators V _ l) as [W|] eqn:EW; simpl in H1.
  2:{ subst ok. apply wp_ret. by exists V1. }
  destruct H1 as [[= -> ->] ->]. simpl. fold n. rewrite Z.add_0_l. destruct (0 <? _); [|apply wp_ret; eauto].
  pose proof (Z.rem_bound_pos header_seq n Hq Hn) as Hr. destruct (Z.ltb_spec (Z.rem header_seq n) 0); [lia|].
  destruct (lookup_lt_is_Some_2 l (Z.to_nat (Z.rem header_seq n)) ltac:(unfold n in *; lia)) as [[addr w] Hl].
  rewrite Hl. simpl. apply list_elem_of_lookup_2 in Hl. destruct (spec_reward_validators_in _ _ _ _ addr w EW Hl) as [a Ha].
  eapply wp_reward_account; [|done..]. by apply (proj1 (list.Forall_forall _ _) El (addr, w)).
Qed.

(** The rewards of a block: the committed accounts are those of the specification. *)
Lemma wp_AllocateReward e V c fee :
  st e V V c →
  wp F (AllocateReward G header_seq e fee) c (λ _ c', ∃ V', st e V' (default V (spec_reward G header_seq V fee)) c').
Proof.
  intros Hst. unfold AllocateReward, spec_reward. cbv zeta. set (total := i64 _).
  destruct (_ || _); [apply wp_ret; eauto|].
  apply wp_bind, wp_mono with (λ (ok : bool) c', ∃ V', st e V' V c' ∧
    match (if CHECK_VERSION_GT_1002 G then
      match V !! GET_CONTRACT_VALIDATOR_ADDRESS G with
      | Some _ => spec_reward_account V (GET_CONTRACT_VALIDATOR_ADDRESS G) total
      | None => spec_reward_directly G header_seq V total end
      else spec_reward_directly G header_seq V total) with
    | None => ok = false
    | Some W => ok = true ∧ V' = W
    end).
  - assert (is_i64 total) by apply i64_range.
    destruct (CHECK_VERSION_GT_1002 G); [|by apply wp_AllocateRewardDirectly].
    apply wp_bind. eapply wp_GetEntry; [apply spelled_validator_contract|done|]. intros c1 Hst1 _.
    destruct (V !! _) eqn:Ea; [eapply wp_reward_account; [apply spelled_validator_contract|done..]|by apply wp_AllocateRewardDirectly].
  - intros ok c1 (V' & Hst1 & H1). destruct (if CHECK_VERSION_GT_1002 G then _ else _) as [W|].
    + destruct H1 as [-> ->]. simpl. apply wp_bind. eapply wp_Commit; [done|]. intros c2 Hst2 _. apply wp_ret. eauto.
    + subst ok. apply wp_ret. simpl. eauto.
Qed.

(** Rewards create accounts for validators only. *)
Definition keys_spelled (V : lmap) : Prop := ∀ k a, V !! k = Some a → spelled k.

Lemma keys_spelled_insert V k a : spelled k → keys_spelled V → keys_spelled (<[k := a]> V).
Proof. intros Hk HV j b. rewrite lookup_insert. case_decide; [by subst|apply HV]. Qed.

Lemma keys_spelled_reward_account V addr amt W :
  keys_spelled V → spec_reward_account V addr amt = Some W → keys_spelled W.
Proof.
  intros HV. unfold spec_reward_account, spec_balance. destruct (V !! addr) as [a|] eqn:Ea; [|done].
  destruct (SafeIntAdd _ _); [|done]. intros [= <-]. by eapply keys_spelled_insert; [eapply HV|].
Qed.

Lemma keys_spelled_reward_validators avg l : ∀ V W,
  Forall (λ v, spelled v.1) l → keys_spelled V → spec_reward_validators V avg l = Some W → keys_spelled W.
Proof.
  induction l as [|[addr w] l IH]; intros V W Hl HV; cbn [spec_reward_validators]; [by intros [= <-]|].
  apply Forall_cons_1 in Hl as [Ha Hl]. cbv zeta. set (V1 := match V !! addr with Some _ => V | None => _ end).
  assert (keys_spelled V1) by (unfold V1; destruct (V !! addr); [done|by apply keys_spelled_insert]).
  destruct (spec_reward_account V1 addr avg) as [W1|] eqn:E; [|done]. cbn. apply IH; [done|].
  by eapply keys_spelled_reward_account.
Qed.

Lemma keys_spelled_reward V fee W : keys_spelled V → spec_reward G header_seq V fee = Some W → keys_spelled W.
Proof.
  intros HV. assert (∀ n W, spec_reward_directly G header_seq V n = Some W → keys_spelled W) as Hd.
  { intros n U. unfold spec_reward_directly. destruct (GetValidators_at G _) as [[|v l]|] eqn:El; [done| |done].
    apply Hval in El. cbv zeta. set (k := Z.of_nat _). destruct (spec_reward_validators V _ _) as [V1|] eqn:E1; [|done].
    apply keys_spelled_reward_validators in E1; [|done..]. cbn. destruct (0 <? _); [|by intros [= <-]].
    destruct (_ !! _) as [[addr w]|]; [|done]. by apply keys_spelled_reward_account. }
  unfold spec_reward. cbv zeta. destruct (_ || _); [by intros [= <-]|]. destruct (CHECK_VERSION_GT_1002 G); [|apply Hd].
  destruct (V !! _); [by apply keys_spelled_reward_account|apply Hd].
Qed.

(** *** The three executions of a block *)

(** The committed accounts, which all have spelled addresses, the fees and the errors of the specification. *)
Definition block_is (s : lstate) (e : nat) (p : Progress) (c : Ctx) : Prop :=
  (∀ k, spelled k → accounts_after G c e k = accounts s !! k) ∧ keys_spelled (accounts s) ∧ total_fee_ p = fees s ∧ error_txs p = failed s.

Lemma st_accounts e V B c k : spelled k → st e V B c → accounts_after G c e k = B !! k.
Proof.
  intros Hk (v & d & x & Hv & Hd & _ & _ & <-). unfold accounts_after, committed. rewrite Hv, Hd, (AccountFromDB_spelled G k Hk).
  by rewrite shown_lookup.
Qed.

(** The beginning of the three executions, and their end. *)
Lemma wp_open {A} request c (f : nat → M A) Q :
  transaction_stack_ c = [] → code_free (db_accounts G) →
  (∀ e c', at_block e (mkState (db_accounts G) 0 []) no_progress c' → wp F (f e) c' Q) →
  wp F (set_value request;; e ← new_env; f e) c Q.
Proof.
  intros Hs Hc HQ. apply wp_bind, wp_modify, wp_bind. unfold wp at 1, new_env. apply HQ. split_and!; try done.
  exists new_Environment, ∅, ∅. simpl. rewrite lookup_app_r, Nat.sub_diag by done.
  assert (shown G ∅ = db_accounts G) as E.
  { apply map_eq. intros k. by rewrite shown_lookup, lookup_empty. }
  split_and!; try done.
Qed.

Lemma wp_close {A} e ex l p c (m : M A) Q :
  at_block e (spec_txs G ex 0 l (mkState (db_accounts G) 0 [])) p c →
  (∀ c', block_is (spec_block G header_seq ex l) e p c' → wp F m c' Q) →
  wp F (AllocateReward G header_seq e (total_fee_ p);; HighResolution;; m) c Q.
Proof.
  intros (Hst & _ & Hf & He & Hcf) HQ. apply wp_bind. rewrite Hf. eapply wp_mono; [by eapply wp_AllocateReward|].
  intros _ c1 [V Hst1]. apply wp_bind. unfold wp at 1, HighResolution. apply HQ. split_and!; [| |done..].
  - intros k Hk. exact (st_accounts _ _ _ _ k Hk Hst1).
  - assert (keys_spelled (accounts (spec_txs G ex 0 l (mkState (db_accounts G) 0 [])))) as Hk by (intros k a Ha; by apply (Hcf k a)).
    unfold spec_block. cbv zeta. cbn [accounts]. destruct (spec_reward _ _ _ _) eqn:E; [by eapply keys_spelled_reward|done].
Qed.

Context (Hc : code_free (db_accounts G)).

Lemma wp_ApplyFollow request c :
  transaction_stack_ c = [] → Forall plain_env (value_txs request) →
  wp F (ApplyFollow G header_seq request) c (λ r c',
    match CheckConsValueValidation request with
    | None => r.2 = false
    | Some (ex, _) => r.2 = true ∧
        block_is (spec_block G header_seq (λ i, bool_decide (i ∈ ex)) (value_txs request)) r.1.1 r.1.2 c'
    end).
Proof.
  intros Hs Hl. unfold ApplyFollow. apply wp_bind. unfold wp at 1, HighResolution. apply wp_open; [done..|].
  intros e c1 Hb1. destruct (CheckConsValueValidation request) as [[ex er]|]; [|by apply wp_ret].
  apply wp_bind. eapply wp_mono; [by eapply wp_follow_loop|]. intros p c2 Hb2.
  eapply wp_close; [done..|]. intros c3 H3. by apply wp_ret.
Qed.

Lemma recorded_all e l ex s p c : recorded e 0 l s ex p c →
  at_block e (spec_txs G (λ j, bool_decide (j ∈ expire_txs p)) 0 l s) p c ∧
  admissible_all G (λ j, bool_decide (j ∈ expire_txs p)) 0 l s.
Proof. by intros (? & ? & _). Qed.

Lemma wp_ApplyCheck request c :
  transaction_stack_ c = [] → Forall plain_env (value_txs request) →
  wp F (ApplyCheck G header_seq request) c (λ r c', r.2 = true → ∃ ex er,
    CheckConsValueValidation request = Some (ex, er) ∧ error_txs r.1.2 = er ∧
    admissible_all G (λ i, bool_decide (i ∈ ex)) 0 (value_txs request) (mkState (db_accounts G) 0 []) ∧
    block_is (spec_block G header_seq (λ i, bool_decide (i ∈ ex)) (value_txs request)) r.1.1 r.1.2 c').
Proof.
  intros Hs Hl. unfold ApplyCheck. apply wp_bind. unfold wp at 1, HighResolution. apply wp_open; [done..|].
  intros e c1 Hb1. destruct (CheckConsValueValidation request) as [[ex er]|]; [|by apply wp_ret].
  apply wp_bind. eapply wp_mono; [eapply wp_check_loop; try done; by intros j ?%elem_of_nil|].
  intros [p ok] c2 H2. destruct ok; [|by apply wp_ret]. apply recorded_all in H2 as [H2 Had]; [|done]. cbn [negb fst snd] in *.
  eapply wp_close; [done..|]. intros c3 H3. apply wp_ret. cbn [fst snd].
  intros [Ex Er]%bool_decide_eq_true. exists ex, er. by rewrite Ex in H3, Had.
Qed.

Lemma wp_ApplyPropose request c :
  transaction_stack_ c = [] → Forall plain_env (value_txs request) →
  wp F (ApplyPropose G header_seq request) c (λ '(e, p, v, ok) c', ok = true →
    Forall plain_env (transaction_envs_ p) ∧ v = mkValidation (expire_txs p) (error_txs p) ∧
    admissible_all G (λ i, bool_decide (i ∈ expire_txs p)) 0 (transaction_envs_ p) (mkState (db_accounts G) 0 []) ∧
    block_is (spec_block G header_seq (λ i, bool_decide (i ∈ expire_txs p)) (transaction_envs_ p)) e p c').
Proof.
  intros Hs Hl. unfold ApplyPropose. apply wp_bind. unfold wp at 1, HighResolution. apply wp_open; [done..|].
  intros e c1 Hb1. destruct (validation request); [by apply wp_ret|].
  apply wp_bind. eapply wp_mono; [eapply wp_propose_loop; try done; by intros j ?%elem_of_nil|].
  intros [p ok] c2 H2. destruct ok; [|by apply wp_ret]. destruct (H2 eq_refl) as (kept & Ek & Hk & H2').
  simpl in Ek, H2'. subst kept. apply recorded_all in H2' as [H2' Had]. cbn [negb fst snd] in *.
  eapply wp_close; [done..|]. intros c3 H3. apply wp_ret. by intros _.
Qed.

(** A validator with a fast clock accepts a block that was admitted and announces its outcome. *)
Lemma wp_ApplyCheck_live request c er :
  transaction_stack_ c = [] → Forall plain_env (value_txs request) → fast_clock →
  CheckConsValueValidation request = Some ([], er) →
  admissible_all G (λ _, false) 0 (value_txs request) (mkState (db_accounts G) 0 []) →
  failed (spec_block G header_seq (λ _, false) (value_txs request)) = er →
  wp F (ApplyCheck G header_seq request) c (λ r _, r.2 = true).
Proof.
  intros Hs Hl Hfast Hv Had Her. unfold ApplyCheck. apply wp_bind. unfold wp at 1, HighResolution.
  apply wp_open; [done..|]. intros e c1 Hb1. rewrite Hv. apply wp_bind.
  eapply wp_mono; [apply wp_check_loop_live; try done; by exists (tick c)|].
  intros [p ok] c2 (H1 & H2 & H3). cbn [fst snd] in *. subst ok. cbn [negb].
  eapply wp_close; [done..|]. intros c3 (_ & _ & _ & He). apply wp_ret. cbn [snd]. apply bool_decide_eq_true.
  rewrite He. done.
Qed.
End refine.
