(* ===== verification/LedgerSafe.v ===== *)
(** * Blocks with contracts keep the invariant

    The loops of [ApplyPropose], [ApplyCheck] and [ApplyFollow] for arbitrary contracts, with
    the invariant of [LedgerInv]: a transaction that fails leaves the committed accounts
    alone, the balances of a proposed or checked block stay in range, and from version 1002
    on no block runs out of fuel. *)
From stdpp Require Import base gmap list strings numbers.
From Stdlib Require Import ZArith Lia.
From S2P Require Import Prelude SafeInt Strings Hex Base58 AtomMap Account LedgerMsg Environment Operation TransactionFrm Contract LedgerFrm LedgerLogic LedgerInv ExecInv ContractInv.
Local Open Scope Z_scope.

Lemma SafeIntSub_range x y z : SafeIntSub x y = Some z → is_i64 z.
Proof. unfold SafeIntSub. cbv zeta. case_match; [|done]. intros [= <-]. apply i64_range. Qed.

Section safe.
Context {LH : LedgerHost} (G : Globals).
Context (nn : Prop).
Context (Hdb : nn → ∀ k a, db_account (db G) !! k = Some a → bal_ok (balance a)).
Context (Hres : nn → bal_ok (base_reserve G)).

(** The environments of a block whose root is [e]. *)
Definition root_ok (e : nat) (c : Ctx) : Prop :=
  (∀ i v, envs c !! i = Some v → env_ok nn v) ∧ 
  ∃ v D S, envs c !! e = Some v ∧ data_ v = Own D ∧ settings_data_ v = Own S.

(** The same while the transaction [t] runs. *)
Definition loc (e t : nat) (c : Ctx) : Prop := ∃ D, inv nn e t D c.

Lemma loc_root e t c : loc e t c → root_ok e c.
Proof. intros [D [H1 (v & Hv & Hd & Hs) _ _]]. split; [exact H1|]. eauto 6. Qed.

Lemma wp_new_tx_loc e c env (Q : nat → Ctx → Prop) :
  root_ok e c → (∀ t c', loc e t c' → tx_is c' t env → Q t c') → wp (F G) (new_tx (new_TransactionFrm env)) c Q.
Proof.
  intros [He (v & D & S & Hv & Hd & Hs)] HQ. unfold wp, new_tx. apply HQ.
  - exists (D, S). split; simpl; [done|eauto|rewrite length_app; simpl; lia|].
    intros t x Ht Hx. apply lookup_lt_Some in Hx. rewrite length_app in Hx. simpl in Hx. lia.
  - exists (new_TransactionFrm env). simpl. by rewrite lookup_app_r, Nat.sub_diag by done.
Qed.

Section tx.
Context (e t : nat) (env : TransactionEnv).

(** [m] keeps the environments and the transaction when the stack has at least [N]. *)
Definition keeps {A} (N : nat) (m : M A) (Q : A → Prop) : Prop :=
  ∀ c, loc e t c → tx_is c t env → (N ≤ length (transaction_stack_ c))%nat →
    wp (F G) m c (λ a c', (loc e t c' ∧ tx_is c' t env ∧
      (length (transaction_stack_ c) ≤ length (transaction_stack_ c'))%nat) ∧ Q a).

Lemma keeps_ret {A} N (a : A) (Q : A → Prop) : Q a → keeps N (mret a) Q.
Proof. intros Ha c Hc Ht Hn. by apply wp_ret. Qed.

Lemma keeps_bind {A B} N (m : M A) (f : A → M B) (Q : A → Prop) R :
  keeps N m Q → (∀ a, Q a → keeps N (f a) R) → keeps N (m ≫= f) R.
Proof.
  intros Hm Hf c Hc Ht Hn. apply wp_bind. eapply wp_mono; [by apply Hm|]. intros a c1 [(Hc1 & Ht1 & Hs1) Ha].
  eapply wp_mono; [apply (Hf a Ha); [done..|lia]|]. intros b c2 [(Hc2 & Ht2 & Hs2) Hb]. split_and!; try done. lia.
Qed.

Lemma keeps_tri {A} N (m : M A) (Q : A → Prop) : (∀ D, tri G nn e t D N m Q) → keeps N m Q.
Proof.
  intros Hm c [D Hc] Ht Hn. eapply wp_mono; [by apply (Hm D)|]. intros a c' [Hp Ha]. split; [|done].
  split_and!; [by exists D; apply Hp|by eapply tx_is_post|apply Hp].
Qed.

Lemma keeps_from {A} N (m : M A) (Q : A → Prop) :
  (∀ D c0, tx_is c0 t env → tri_from G nn e t D c0 N m Q) → keeps N m Q.
Proof.
  intros Hm c [D Hc] Ht Hn. eapply wp_mono; [apply (Hm D c Ht); [by apply post_refl|done]|].
  intros a c' [Hp Ha]. split; [|done]. split_and!; [by exists D; apply Hp|by eapply tx_is_post|apply Hp].
Qed.

Lemma keeps_get_tx N : keeps N (get_tx t) (λ x, transaction_env_ x = env).
Proof. apply keeps_from. intros D c0 H0. by apply tri_from_get_tx. Qed.

(** The commit of the root replaces its committed map. *)
Lemma keeps_set_data N m : layer_ok nn m → keeps N (upd_env e (set_data m)) (λ _, True).
Proof.
  intros Hm c [D [H1 (v & Hv & Hd & Hs) H3 H4]] Ht Hn. apply wp_modify. split; [|done].
  split_and!; [|done|done]. exists (m, D.2). split; simpl; [|exists (set_data m v)|done|done].
  - intros i w. destruct (decide (e = i)) as [<-|].
    + rewrite list_lookup_alter_eq, Hv. intros [= <-]. destruct (H1 _ _ Hv) as [Hb _]. split; [done|].
      by intros m' [= <-].
    + rewrite list_lookup_alter_ne by done. apply H1.
  - by rewrite list_lookup_alter_eq, Hv.
Qed.

Lemma keeps_set_settings_data N m : keeps N (upd_env e (set_settings_data m)) (λ _, True).
Proof.
  intros c [D [H1 (v & Hv & Hd & Hs) H3 H4]] Ht Hn. apply wp_modify. split; [|done].
  split_and!; [|done|done]. exists (D.1, m). split; simpl; [|exists (set_settings_data m v)|done|done].
  - intros i w. destruct (decide (e = i)) as [<-|]; [|rewrite list_lookup_alter_ne by done; apply H1].
    rewrite list_lookup_alter_eq, Hv. intros [= <-]. exact (H1 _ _ Hv).
  - by rewrite list_lookup_alter_eq, Hv.
Qed.

Lemma keeps_Commit N f : keeps N (Environment_Commit f) (λ _, True).
Proof.
  destruct (decide (f = e)) as [->|Hf]; [|by apply keeps_tri; intros D; apply tri_Commit].
  eapply keeps_bind; [apply keeps_tri; intros D; apply tri_get_env|]. intros v Hv.
  eapply keeps_bind; [apply keeps_tri; intros D; apply tri_get_settings_data|]. intros sd _.
  eapply keeps_bind; [apply keeps_tri; intros D; by apply tri_get_data|]. intros d Hd.
  destruct Hv as [Hb Hv]. cbn [spec_commit].
  eapply keeps_bind; [apply keeps_tri; intros D; by apply tri_settings|]. intros _ _.
  eapply keeps_bind.
  { unfold put_settings_data. destruct (settings_data_ v); [apply keeps_set_settings_data|].
    apply keeps_tri. intros D. by apply tri_settings. }
  intros _ _. eapply keeps_bind; [apply keeps_tri; intros D; apply tri_set_buff, layer_ok_empty|]. intros _ _.
  assert (layer_ok nn (buff_ v ∪ d)) by by apply layer_ok_union.
  unfold put_data. destruct (data_ v); [by apply keeps_set_data|apply keeps_tri; intros D; by apply tri_set_buff].
Qed.

(** ** One transaction *)

Context (Hops : Forall (op_valid nn) (operations (transaction env))).

Lemma keeps_upd N u f : (∀ x, transaction_env_ (f x) = transaction_env_ x) →
  (∀ x, environment_ (f x) = environment_ x) → keeps N (upd_tx u f) (λ _, True).
Proof. intros H1 H2. apply keeps_tri. intros D. by apply tri_upd_tx. Qed.

Lemma keeps_Apply : keeps 1 (Apply G (Execute G exec_fuel) t e false) (λ _, True).
Proof.
  apply keeps_from. intros D c0 H0. apply (tri_Apply G nn e t D Hdb Hres) with env; [|done|done|by right].
  apply tri_Execute; [exact Hdb|exact Hres|]. intros _. unfold exec_fuel. lia.
Qed.

Lemma keeps_IsExpire N u : keeps N (IsExpire u) (λ _, True).
Proof. apply keeps_tri. intros D. by apply tri_IsExpire. Qed.

Lemma keeps_ReturnFee N total : keeps N (ReturnFee G t total) (λ _, True).
Proof.
  assert (∀ code (f : Z), keeps N (upd_tx t (set_code code);; mret (f, false)) (λ _, True)) as Hr.
  { intros code f. eapply keeps_bind; [by apply keeps_upd|]. intros _ _. by apply keeps_ret. }
  unfold ReturnFee. eapply keeps_bind; [apply keeps_get_tx|]. intros x _.
  eapply keeps_bind; [apply keeps_tri; intros D; apply tri_lift_res, SafeIntMul_fault|]. intros [m|] _; [|apply Hr].
  destruct (SafeIntSub _ m) as [fee|] eqn:Ef; [|apply Hr]. apply SafeIntSub_range in Ef.
  destruct (bool_decide _); [by apply keeps_ret|]. destruct (Z.leb_spec fee 0); [by apply keeps_ret|]. cbn [orb].
  eapply keeps_bind; [apply keeps_tri; intros D; by apply tri_tx_environment_any|]. intros f _.
  eapply keeps_bind; [apply keeps_tri; intros D; by apply tri_GetEntry|]. intros [a|] Ha; [|apply Hr].
  destruct (SafeIntSub total fee); [|apply Hr]. destruct (SafeIntAdd _ fee) as [b|] eqn:Eb; [|apply Hr].
  eapply keeps_bind; [|intros _ _; by apply keeps_ret]. apply keeps_tri. intros D. apply tri_assign.
  eapply received_ok; [by apply Ha| |done]. intros _. unfold bal_ok, is_i64 in *. lia.
Qed.

Lemma keeps_settle N p : keeps N (settle G t p) (λ _, True).
Proof.
  eapply keeps_bind; [apply keeps_ReturnFee|]. intros [f ok] _.
  eapply keeps_bind; [apply keeps_tri; intros D; by apply tri_tx_environment_any|]. intros g _.
  eapply keeps_bind; [apply keeps_Commit|]. intros _ _. by apply keeps_ret.
Qed.

Lemma keeps_apply_timed : keeps 1 (apply_timed G t e) (λ _, True).
Proof.
  eapply keeps_bind; [by apply keeps_upd|]. intros _ _.
  eapply keeps_bind; [apply keeps_tri; intros D; apply tri_HighResolution|]. intros now _.
  eapply keeps_bind; [by apply keeps_upd|]. intros _ _.
  eapply keeps_bind; [apply keeps_Apply|]. intros r _.
  eapply keeps_bind; [apply keeps_IsExpire|]. intros b _. by apply keeps_ret.
Qed.

(** The beginning and the end of a transaction. *)
Lemma wp_push {A} c (m : M A) (Q : A → Prop) R :
  loc e t c → tx_is c t env → keeps 1 m Q → (∀ a c', loc e t c' → Q a → R a c') → wp (F G) (push_tx t;; m) c R.
Proof.
  intros [D Hc] Ht Hm HR. apply wp_bind, wp_modify.
  destruct (push_post nn e t D c t Hc) as [Hp Hl].
  eapply wp_mono; [apply Hm; [by exists D; apply Hp|by eapply tx_is_post|rewrite Hl; lia]|].
  intros a c' [(Hc' & _) Ha]. by apply HR.
Qed.

Lemma wp_end_loc c p : loc e t c → wp (F G) (end_tx t e env p) c (λ _ c', loc e t c').
Proof.
  intros [D Hc]. unfold end_tx. apply wp_bind.
  eapply wp_mono; [apply (tri_Clear G nn e t D 0 e c Hc); lia|]. intros _ c1 [Hp _].
  apply wp_bind, wp_modify, wp_ret. exists D. destruct (post_inv _ _ _ _ _ _ Hp) as [H1 H2 H3 H4]. by split.
Qed.

Lemma keeps_begin : keeps 1 (tx_NonceIncrease G t e;; Environment_Commit e) (λ _, True).
Proof.
  eapply keeps_bind; [apply keeps_tri; intros D; by apply tri_tx_NonceIncrease|]. intros _ _. apply keeps_Commit.
Qed.

(** [follow_one] and [apply_one] have the same shape. *)
Lemma wp_tx_loc c (body : M Progress) :
  loc e t c → tx_is c t env → keeps 1 body (λ _, True) →
  wp (F G) (begin_tx G t e;; p ← body; end_tx t e env p) c (λ _ c', loc e t c').
Proof.
  intros Hc Ht Hb. apply wp_bind. unfold begin_tx. apply wp_bind, wp_modify.
  destruct Hc as [D Hc]. destruct (push_post nn e t D c t Hc) as [Hp Hl].
  eapply wp_mono; [apply keeps_begin; [by exists D; apply Hp|by eapply tx_is_post|rewrite Hl; lia]|].
  intros _ c1 [(Hc1 & Ht1 & Hs1) _]. apply wp_bind.
  eapply wp_mono; [apply Hb; [done..|rewrite Hl in Hs1; lia]|]. intros p c2 [(Hc2 & _) _]. by apply wp_end_loc.
Qed.

Lemma wp_follow_one_loc c i expired p :
  loc e t c → tx_is c t env → wp (F G) (follow_one G t e env i expired p) c (λ _ c', loc e t c').
Proof.
  intros Hc Ht. apply wp_tx_loc; [done..|]. destruct expired.
  - eapply keeps_bind; [by apply keeps_upd|]. intros _ _. by apply keeps_ret.
  - eapply keeps_bind; [apply keeps_Apply|]. intros r _. destruct r; [apply keeps_settle|by apply keeps_ret].
Qed.

Lemma wp_apply_one_loc c i p :
  loc e t c → tx_is c t env → wp (F G) (apply_one G t e env i p) c (λ _ c', loc e t c').
Proof.
  intros Hc Ht. unfold apply_one.
  assert (keeps 1 (r ← apply_timed G t e; let '(expired, ret) := r in
    if (expired : bool) then mret (add_expire i p) else if negb ret then mret (add_error i p) else settle G t p)
    (λ _, True)) as Hb.
  { eapply keeps_bind; [apply keeps_apply_timed|]. intros [[] []] _; try by apply keeps_ret. apply keeps_settle. }
  pose proof (wp_tx_loc c _ Hc Ht Hb) as H. revert H. unfold wp, mbind, M_bind.
  destruct (begin_tx G t e c) as [[c1 []]|]; [|done]. by destruct (apply_timed G t e c1) as [[c2 [expired ret]]|].
Qed.

(** ** Admission and the fee *)

(** The account [a] under the address [k] was read: it is in the buffer. *)
Definition cached (k : bytes) (a : AccountFrm) (c : Ctx) : Prop :=
  ∃ v, envs c !! e = Some v ∧ buff_ v !! k = Some (Some a).

Lemma wp_GetEntry_cached k c :
  loc e t c → wp (F G) (GetEntry G e k) c (λ o c', ∀ a, o = Some a → cached k a c').
Proof.
  intros [[D S] Hc]. destruct (inv_root _ _ _ _ _ Hc) as (v & Hv & Hd & _). unfold GetEntry, get_env, get_data.
  unfold wp, mbind, M_bind. rewrite Hv, Hd. cbn [mret M_ret].
  assert (∀ b o, (∀ a, o = Some a → b !! k = Some (Some a)) →
    wp (F G) (upd_env e (set_buff b);; mret o) c (λ o c', ∀ a, o = Some a → cached k a c')) as Hput.
  { intros b o Hb. apply wp_bind, wp_modify, wp_ret. intros a Ho. exists (set_buff b v). simpl.
    rewrite list_lookup_alter_eq, Hv. split; [done|]. by apply Hb. }
  change (wp (F G) (match spec_get (AccountFromDB G) [buff_ v; D] k with
    | (b :: _, o) => upd_env e (set_buff b);; mret o | (_, o) => mret o end) c (λ o c', ∀ a, o = Some a → cached k a c')).
  unfold spec_get. destruct (buff_ v !! k) as [o|] eqn:Eb; [apply Hput; by intros a ->|].
  destruct (match D !! k with Some o => o | None => AccountFromDB G k end) as [a|]; [|by apply Hput].
  apply Hput. intros b [= <-]. by rewrite lookup_insert_eq.
Qed.

Lemma wp_GetEntry_again k a c : cached k a c → loc e t c →
  wp (F G) (GetEntry G e k) c (λ o c', o = Some a).
Proof.
  intros (v & Hv & Hb) [D Hc]. destruct (inv_root _ _ _ _ _ Hc) as (v' & Hv' & Hd & _). rewrite Hv in Hv'. injection Hv' as <-.
  unfold GetEntry, get_env, get_data, wp, mbind, M_bind. rewrite Hv, Hd. cbn [mret M_ret]. unfold spec_get. by rewrite Hb.
Qed.

Lemma wp_and {A} (m : M A) c Q1 Q2 : wp (F G) m c Q1 → wp (F G) m c Q2 → wp (F G) m c (λ a c', Q1 a c' ∧ Q2 a c').
Proof. unfold wp. destruct (m c) as [[??]|]; auto. Qed.

(** What admission promises to [PayFee]. *)
Definition guard (c : Ctx) : Prop :=
  ∃ a, cached (tx_source_address (transaction env)) a c ∧ 0 ≤ fee_limit (transaction env) ≤ GetAccountBalance a.

Definition amounts_ok : Prop :=
  Forall (λ o, op_type o = PAY_COIN → 0 ≤ pc_amount (pay_coin o)) (operations (transaction env)).

Definition admitted (ok : bool) (c : Ctx) : Prop :=
  loc e t c ∧ tx_is c t env ∧ (ok = true → nn → guard c ∧ amounts_ok).

Lemma wp_keeps {A} (m : M A) Q c : keeps 0 m Q → loc e t c → tx_is c t env →
  wp (F G) m c (λ a c', loc e t c' ∧ tx_is c' t env ∧ Q a).
Proof. intros Hm Hc Ht. eapply wp_mono; [apply Hm; [done..|lia]|]. intros a c' [(? & ? & _) ?]. done. Qed.

Lemma wp_reject_loc c r : loc e t c → tx_is c t env → wp (F G) (reject t r) c admitted.
Proof.
  intros Hc Ht. apply wp_bind. eapply wp_mono; [by apply wp_keeps; [by apply keeps_upd|..]|].
  intros _ c1 (Hc1 & Ht1 & _). by apply wp_ret.
Qed.

Lemma keeps_ValidForParameter N : keeps N (ValidForParameter G t 0)
  (λ ok, ok = true → amounts_ok ∧ 0 ≤ fee_limit (transaction env)).
Proof.
  apply keeps_from. intros D c0 H0 c Hc Hn.
  eapply wp_mono; [by apply (tri_ValidForParameter G nn e t D c0 N t 0 env H0)|].
  intros ok c' [Hp Hok]. split; [done|]. intros E. destruct (Hok E) as [H1 H2]. auto.
Qed.

Context (Hfee : nn → is_i64 (fee_limit (transaction env))).

Lemma wp_CheckFee_loc c price a :
  loc e t c → tx_is c t env → cached (tx_source_address (transaction env)) a c → acct_ok nn a →
  amounts_ok → 0 ≤ fee_limit (transaction env) →
  wp (F G) (CheckFee G t price (fee_limit (transaction env)) a) c admitted.
Proof.
  intros Hc Ht Ha Hok Ham H0. unfold CheckFee.
  destruct (SafeIntSub _ _) as [l|] eqn:El; [|by apply wp_reject_loc].
  destruct (Z.ltb_spec l (base_reserve G)); [by apply wp_reject_loc|].
  apply wp_bind, wp_get_tx; [by intros _|]. intros x _.
  apply wp_bind, wp_lift_res; [by intros f Hf _; apply SafeIntMul_fault in Hf|]. intros [m|] _; [|by apply wp_reject_loc].
  destruct (_ <? m); [by apply wp_reject_loc|]. apply wp_ret. split_and!; [done..|]. intros _ Hn. split; [|done].
  exists a. split; [done|]. split; [done|]. specialize (Hok Hn). specialize (Hfee Hn). specialize (Hres Hn).
  rewrite SafeIntSub_exact in El; [|by apply bal_ok_i64|done]. apply exact_Some in El as [-> _].
  unfold bal_ok in *. lia.
Qed.

Lemma wp_ValidForApply_loc c b : loc e t c → tx_is c t env → wp (F G) (ValidForApply G t e b) c admitted.
Proof.
  intros Hc Ht. unfold ValidForApply. apply wp_bind.
  eapply wp_mono; [apply wp_keeps; [apply keeps_ValidForParameter|done..]|]. intros ok c1 (Hc1 & Ht1 & Hok).
  destruct ok; simpl; [|by apply wp_ret]. destruct (Hok eq_refl) as [Ham H0].
  apply wp_bind. destruct Ht1 as (x & Hx & Ex). eapply wp_get_tx_Some; [done|].
  assert (tx_is c1 t env) as Ht1 by by exists x. unfold frm_source, tran_of. rewrite Ex.
  apply wp_bind. eapply wp_mono; [apply wp_and; [by apply wp_GetEntry_cached|
    apply wp_keeps; [apply keeps_tri; intros D; by apply tri_GetEntry|done..]]|].
  intros [a|] c2 (Hca & Hc2 & Ht2 & Ha); [|by apply wp_reject_loc].
  destruct (negb _); [by apply wp_reject_loc|]. destruct (b && _); [by apply wp_reject_loc|].
  apply wp_CheckFee_loc; auto.
Qed.

Lemma wp_PayFee_loc c total : loc e t c → tx_is c t env → (nn → guard c) →
  wp (F G) (PayFee G t e total) c (λ _ c', loc e t c' ∧ tx_is c' t env).
Proof.
  intros Hc Ht Hg. unfold PayFee. apply wp_bind. destruct Ht as (x & Hx & Ex). eapply wp_get_tx_Some; [done|].
  assert (tx_is c t env) as Ht by by exists x. unfold frm_source, tran_of. rewrite Ex. cbv zeta.
  assert (∀ code (f : Z) c1, loc e t c1 → tx_is c1 t env →
    wp (F G) (upd_tx t (set_code code);; mret (f, false)) c1 (λ _ c', loc e t c' ∧ tx_is c' t env)) as Hr.
  { intros code f c1 Hc1 Ht1. apply wp_bind. eapply wp_mono; [by apply wp_keeps; [by apply keeps_upd|..]|].
    intros _ c2 (? & ? & _). by apply wp_ret. }
  apply wp_bind.
  apply wp_mono with (λ o c', (∀ a, o = Some a → acct_ok nn a ∧ (nn → 0 ≤ fee_limit (transaction env) ≤ GetAccountBalance a)) ∧
    loc e t c' ∧ tx_is c' t env).
  { pose proof (wp_keeps _ _ c (keeps_tri 0 _ _ (λ D, tri_GetEntry G nn e t D Hdb 0 e (tx_source_address (transaction env)))) Hc Ht) as H1.
    revert H1. unfold wp. destruct (GetEntry G e _ c) as [[c1 o]|] eqn:E; [|done]. intros (Hc1 & Ht1 & Ho).
    split; [|done]. intros a ->. split; [by apply Ho|]. intros Hn. destruct (Hg Hn) as (b & Hb & Hle).
    pose proof (wp_GetEntry_again _ b c Hb Hc) as H2. unfold wp in H2. rewrite E in H2. by injection H2 as ->. }
  intros [a|] c1 (Ha & Hc1 & Ht1); [|by apply Hr]. destruct (Ha a eq_refl) as [Hok Hle].
  destruct (SafeIntAdd _ _); [|by apply Hr]. destruct (SafeIntSub _ _) as [b|] eqn:Eb; [|by apply Hr].
  apply wp_bind. eapply wp_mono; [apply wp_keeps; [|done..]|intros _ c2 (? & ? & _); by apply wp_ret].
  apply keeps_tri. intros D. apply tri_assign. eapply paid_ok; [done| |done]. intros Hn.
  specialize (Hok Hn). specialize (Hle Hn). unfold bal_ok in *. lia.
Qed.
End tx.

(** ** The loops *)

Lemma ops_valid env : (nn → wt_env env) → (nn → amounts_ok env) → Forall (op_valid nn) (operations (transaction env)).
Proof.
  intros Hw Ha. apply Forall_lookup_2. intros i o Ho Hn. destruct (Hw Hn) as [Hw' _].
  split; [exact (Forall_lookup_1 _ _ _ _ Hw' Ho)|exact (Forall_lookup_1 _ _ _ _ (Ha Hn) Ho)].
Qed.

Lemma wp_timeout_root e c start (Q : bool → Ctx → Prop) :
  root_ok e c → (∀ late c', root_ok e c' → Q late c') → wp (F G) (block_timeout start) c Q.
Proof. intros Hb HQ. apply wp_bind. unfold wp at 1, HighResolution. by apply wp_ret, HQ. Qed.

(** The part of a proposer and a checker for one admitted transaction. *)
Lemma wp_admitted e t env c i p (k : bool → Progress → M (Progress * bool)) Q :
  admitted e t env true c → (nn → wt_env env) →
  (∀ paid q c', root_ok e c' → wp (F G) (k paid q) c' Q) →
  wp (F G) ('(f, paid) ← PayFee G t e (total_fee_ p);
    let p := set_total_fee f p in
    if negb paid then k false p
    else p ← apply_one G t e env (i p) p; k true p) c Q.
Proof.
  intros (Hc & Ht & Hok) Hw Hk. apply wp_bind.
  eapply wp_mono; [apply (wp_PayFee_loc e t env); [done..|]; intros Hn; by apply Hok|].
  intros [f paid] c1 [Hc1 Ht1]. cbv zeta. destruct paid; simpl; [|by apply Hk, (loc_root e t)].
  apply wp_bind. eapply wp_mono; [apply wp_apply_one_loc; [|done..]|].
  - apply ops_valid; [done|]. intros Hn. by apply Hok.
  - intros q c2 Hc2. apply Hk. by apply (loc_root e t).
Qed.

(** The results of the loops: the environments are in order if the flag is set. *)
Definition ok_root (e : nat) (r : Progress * bool) (c : Ctx) : Prop := root_ok e c.

Lemma wp_check_loop_root e start l : ∀ i p c,
  root_ok e c → (nn → Forall wt_env l) → wp (F G) (check_loop G e start i l p) c (ok_root e).
Proof.
  induction l as [|env l IH]; intros i p c Hc Hl; cbn [check_loop]; [by apply wp_ret|].
  apply wp_bind. eapply wp_new_tx_loc; [done|]. intros t c1 Hc1 Ht1. apply wp_bind.
  assert (nn → wt_env env) as He by (intros Hn; by apply Forall_cons_1 in Hl as [? _]).
  assert (nn → Forall wt_env l) as Hl' by (intros Hn; by apply Forall_cons_1 in Hl as [_ ?]).
  eapply wp_mono; [apply (wp_ValidForApply_loc e t env); [intros Hn; by apply He|done..]|].
  intros ok c2 Ha. destruct ok; simpl; [|apply wp_ret; apply (loc_root e t), Ha].
  apply (wp_admitted e t env c2 (λ _, i) p (λ (paid : bool) p, if paid then
    late ← block_timeout start; if (late : bool) then mret (p, false) else check_loop G e start (i + 1) l p
    else mret (p, false))); [done..|].
  intros [|] q c3 Hc3; [|by apply wp_ret]. apply wp_bind. eapply wp_timeout_root; [done|].
  intros [|] c4 Hc4; [by apply wp_ret|by apply IH].
Qed.

Lemma wp_propose_loop_root e start l : ∀ i p c,
  root_ok e c → (nn → Forall wt_env l) → wp (F G) (propose_loop G e start i l p) c (ok_root e).
Proof.
  induction l as [|env l IH]; intros i p c Hc Hl; cbn [propose_loop]; [by apply wp_ret|].
  apply wp_bind. eapply wp_new_tx_loc; [done|]. intros t c1 Hc1 Ht1. apply wp_bind.
  assert (nn → wt_env env) as He by (intros Hn; by apply Forall_cons_1 in Hl as [? _]).
  assert (nn → Forall wt_env l) as Hl' by (intros Hn; by apply Forall_cons_1 in Hl as [_ ?]).
  eapply wp_mono; [apply (wp_ValidForApply_loc e t env); [intros Hn; by apply He|done..]|].
  intros ok c2 Ha. destruct ok; simpl; [|apply IH; [apply (loc_root e t), Ha|done]].
  apply (wp_admitted e t env c2 (λ p, i - dropped_count p) p (λ (paid : bool) p, if paid then
    late ← block_timeout start; if (late : bool) then mret (p, false) else propose_loop G e start (i + 1) l p
    else propose_loop G e start (i + 1) l (add_dropped t i p))); [done..|].
  intros [|] q c3 Hc3; [|by apply IH]. apply wp_bind. eapply wp_timeout_root; [done|].
  intros [|] c4 Hc4; [by apply wp_ret|by apply IH].
Qed.

(** A follower does not check the balance before it takes the fee. *)
Lemma wp_follow_loop_root e ex l : ¬ nn → ∀ i p c,
  root_ok e c → wp (F G) (follow_loop G e ex i l p) c (λ _, root_ok e).
Proof.
  intros Hnn. induction l as [|env l IH]; intros i p c Hc; cbn [follow_loop]; [by apply wp_ret|].
  apply wp_bind. eapply wp_new_tx_loc; [done|]. intros t c1 Hc1 Ht1. apply wp_bind.
  eapply wp_mono; [by apply (wp_PayFee_loc e t env)|]. intros [f paid] c2 [Hc2 Ht2]. cbv zeta.
  destruct paid; simpl; [|apply IH; by apply (loc_root e t)]. apply wp_bind.
  eapply wp_mono; [apply wp_follow_one_loc; [by apply ops_valid|done..]|]. intros q c3 Hc3. apply IH. by apply (loc_root e t).
Qed.

(** ** Rewards *)

Lemma wp_upd_root e i f c (Q : unit → Ctx → Prop) :
  root_ok e c → (∀ v, env_ok nn v → env_ok nn (f v)) → 
  (∀ v D, data_ v = Own D → ∃ D', data_ (f v) = Own D') →
  (∀ v S, settings_data_ v = Own S → ∃ S', settings_data_ (f v) = Own S') →
  (∀ c', root_ok e c' → Q tt c') → wp (F G) (upd_env i f) c Q.
Proof.
  intros [He (v & D & S & Hv & Hd & Hs)] Hf Hf' Hf2 HQ. apply wp_modify, HQ. split; simpl.
  - intros j w. destruct (decide (i = j)) as [<-|]; [|rewrite list_lookup_alter_ne by done; apply He].
    rewrite list_lookup_alter_eq. destruct (envs c !! i) as [u|] eqn:Eu; [|done]. intros [= <-]. by eapply Hf, He.
  - destruct (decide (i = e)) as [->|]; [|exists v, D, S; by rewrite list_lookup_alter_ne].
    destruct (Hf' v D Hd) as [D' HD]. destruct (Hf2 v S Hs) as [S' HS]. exists (f v), D', S'. by rewrite list_lookup_alter_eq, Hv.
Qed.

Lemma wp_GetEntry_root e k c : root_ok e c →
  wp (F G) (GetEntry G e k) c (λ o c', root_ok e c' ∧ ∀ a, o = Some a → acct_ok nn a).
Proof.
  intros Hc. pose proof Hc as [He (v & D & S & Hv & Hd & Hs)]. destruct (He _ _ Hv) as [Hb HD]. specialize (HD D Hd).
  assert (∀ b o, layer_ok nn b → (∀ a, o = Some a → acct_ok nn a) →
    wp (F G) (upd_env e (set_buff b);; mret o) c (λ o c', root_ok e c' ∧ ∀ a, o = Some a → acct_ok nn a)) as Hput.
  { intros b o Hlb Ho. apply wp_bind. eapply wp_upd_root; [done| |eauto|eauto|intros c' Hc'; by apply wp_ret].
    by intros w [_ Hd']. }
  unfold GetEntry, get_env, get_data, wp, mbind, M_bind. rewrite Hv, Hd. cbn [mret M_ret].
  change (wp (F G) (match spec_get (AccountFromDB G) [buff_ v; D] k with
    | (b :: _, o) => upd_env e (set_buff b);; mret o | (_, o) => mret o end) c
    (λ o c', root_ok e c' ∧ ∀ a, o = Some a → acct_ok nn a)).
  unfold spec_get. destruct (buff_ v !! k) as [o|] eqn:Eb; [apply Hput; [done|]; intros a ->; by eapply Hb|].
  destruct (match D !! k with Some o => o | None => AccountFromDB G k end) as [a|] eqn:Ea; [|by apply Hput].
  assert (acct_ok nn a) as Ha.
  { destruct (D !! k) as [o|] eqn:E3; [subst; by eapply HD|by eapply AccountFromDB_ok]. }
  apply Hput; [apply layer_ok_insert; [done|]|]; by intros ? [= <-].
Qed.

Lemma wp_AddEntry_root e k a c (Q : unit → Ctx → Prop) :
  root_ok e c → acct_ok nn a → (∀ c', root_ok e c' → Q tt c') → wp (F G) (AddEntry e k a) c Q.
Proof.
  intros Hc Ha HQ. eapply wp_upd_root; [done| |eauto|eauto|auto]. intros v [Hb HD]. split; [|done]. apply layer_ok_insert; [done|]. by intros ? [= <-].
Qed.

Lemma wp_reward_root e addr amt c : root_ok e c → (nn → bal_ok amt) →
  wp (F G) (reward_account G e addr amt) c (λ _ c', root_ok e c').
Proof.
  intros Hc Hm. unfold reward_account, deref_entry. apply wp_bind, wp_bind.
  eapply wp_mono; [by apply wp_GetEntry_root|]. intros [a|] c1 [Hc1 Ha]; [|by apply wp_fault].
  apply wp_ret. destruct (SafeIntAdd _ _) as [b|] eqn:E; [|by apply wp_ret].
  apply wp_bind. eapply wp_AddEntry_root; [done| |intros c2 Hc2; by apply wp_ret].
  eapply received_ok; [by apply Ha|done|done].
Qed.

Lemma wp_reward_validators_root e avg l : (nn → bal_ok avg) → ∀ left c, root_ok e c → is_i64 left →
  wp (F G) (reward_validators G e avg l left) c (λ r c', root_ok e c' ∧ is_i64 r.2).
Proof.
  intros Ha. induction l as [|[addr w] l IH]; intros left c Hc Hl; cbn [reward_validators]; [by apply wp_ret|].
  apply wp_bind. eapply wp_mono; [by apply wp_GetEntry_root|]. intros o c1 [Hc1 _]. apply wp_bind.
  apply wp_mono with (λ _ c', root_ok e c').
  { destruct o; [by apply wp_ret|]. eapply wp_AddEntry_root; [done| |auto]. intros _. by cbn. }
  intros _ c2 Hc2. cbv zeta. apply wp_bind. eapply wp_mono; [by apply wp_reward_root|]. intros [|] c3 Hc3.
  - apply IH; [done|apply i64_range].
  - apply wp_ret. split; [done|apply i64_range].
Qed.

Lemma wp_Commit_root e c : root_ok e c → wp (F G) (Environment_Commit e) c (λ _ c', root_ok e c').
Proof.
  intros Hc. pose proof Hc as [He (v & D & S & Hv & Hd & Hs)]. destruct (He _ _ Hv) as [Hb HD]. specialize (HD D Hd).
  unfold Environment_Commit. apply wp_bind. unfold wp at 1, get_env. rewrite Hv. apply wp_bind.
  apply wp_mono with (λ _ c', c' = c).
  { unfold get_settings_data. destruct (settings_data_ v); [by apply wp_ret|].
    apply wp_bind, wp_get_env; [by intros _|]. intros w _. by apply wp_ret. }
  intros sd c' ->. apply wp_bind. unfold get_data. rewrite Hd. apply wp_ret. cbn [spec_commit].
  apply wp_bind. eapply wp_upd_root; [done|done|eauto|eauto|]. intros c1 Hc1. apply wp_bind.
  apply wp_mono with (λ _ c', root_ok e c').
  { unfold put_settings_data. destruct (settings_data_ v); (eapply wp_upd_root; [done|done|eauto|eauto|auto]). }
  intros _ c2 Hc2. apply wp_bind. eapply wp_upd_root; [done| |eauto|eauto|].
  { intros w [_ Hw]. split; [apply layer_ok_empty|done]. }
  intros c3 Hc3. unfold put_data. rewrite Hd. eapply wp_upd_root; [done| |eauto|eauto|auto].
  intros w [Hw _]. split; [done|]. intros m [= <-]. by apply layer_ok_union.
Qed.

Context (header_seq : Z).

Lemma quot_bal total n : 0 < n → bal_ok total → bal_ok (Z.quot total n).
Proof.
  unfold bal_ok. intros Hn Ht. split; [apply Z.quot_pos; lia|].
  pose proof (Z.quot_le_upper_bound total n total). assert (total ≤ n * total) by nia. lia.
Qed.

Lemma wp_AllocateReward_root e c fee :
  root_ok e c → (nn → bal_ok (i64 (fee + GetBlockReward header_seq))) →
  wp (F G) (AllocateReward G header_seq e fee) c (λ _ c', root_ok e c').
Proof.
  intros Hc Ht. unfold AllocateReward. cbv zeta. set (total := i64 _) in *. assert (is_i64 total) as Hi by apply i64_range.
  destruct (_ || _); [by apply wp_ret|].
  assert (∀ c, root_ok e c → wp (F G) (AllocateRewardDirectly G header_seq e total) c (λ _ c', root_ok e c')) as Hdir.
  { intros c1 Hc1. unfold AllocateRewardDirectly. destruct (GetValidators_at G _) as [[|x l0]|]; [by apply wp_ret| |by apply wp_ret].
    apply wp_bind. eapply wp_mono; [apply wp_reward_validators_root; [|done..]|].
    { intros Hn. apply quot_bal; [simpl; lia|by apply Ht]. }
    intros [[|] left] c2 [Hc2 Hl]; simpl in *; [|by apply wp_ret]. destruct (Z.ltb_spec 0 left); [|by apply wp_ret].
    destruct (Z.rem _ _ <? 0); [by apply wp_fault|].
    destruct (_ !! Z.to_nat _) as [[addr w]|]; [|by apply wp_fault]. apply wp_reward_root; [done|].
    intros _. unfold bal_ok, is_i64 in *. lia. }
  apply wp_bind, wp_mono with (λ _ c', root_ok e c').
  - destruct (CHECK_VERSION_GT_1002 G); [|by apply Hdir]. apply wp_bind.
    eapply wp_mono; [by apply wp_GetEntry_root|]. intros [a|] c1 [Hc1 _]; [by apply wp_reward_root|by apply Hdir].
  - intros [|] c1 Hc1; [|by apply wp_ret]. apply wp_bind. eapply wp_mono; [by apply wp_Commit_root|].
    intros u c2 Hc2. by apply wp_ret.
Qed.

(** ** Blocks *)

(** Every committed account, and every account on disk, has a balance in range. *)
Lemma root_balances e c k a : root_ok e c → nn → accounts_after G c e k = Some a → bal_ok (GetAccountBalance a).
Proof.
  intros [He (v & D & S & Hv & Hd & _)] Hn. unfold accounts_after, committed. rewrite Hv, Hd.
  destruct (He _ _ Hv) as [_ HD]. destruct (D !! k) as [o|] eqn:E.
  - intros ->. exact (HD D Hd k a E Hn).
  - intros Ha. eapply AccountFromDB_ok; [done|exact Ha|done].
Qed.

Lemma wp_open_root {A} request c (f : nat → M A) Q :
  (∀ i v, envs c !! i = Some v → env_ok nn v) →
  (∀ e c', root_ok e c' → wp (F G) (f e) c' Q) → wp (F G) (set_value request;; e ← new_env; f e) c Q.
Proof.
  intros Hc HQ. apply wp_bind, wp_modify, wp_bind. unfold wp at 1, new_env. apply HQ. split; simpl.
  - intros i v [Hv|[_ Hv]]%lookup_app_Some; [by eapply Hc|]. apply list_lookup_singleton_Some in Hv as [_ <-].
    split; [apply layer_ok_empty|]. intros m [= <-]. apply layer_ok_empty.
  - exists new_Environment, ∅, ∅. by rewrite lookup_app_r, Nat.sub_diag by done.
Qed.

(** The end of a block; the sum of the fees and the reward is in range if balances are followed. *)
Lemma wp_close_root {A} e fee c (m : M A) (Q : A → Ctx → Prop) :
  root_ok e c → (nn → bal_ok (i64 (fee + GetBlockReward header_seq))) → (∀ c', root_ok e c' → wp (F G) m c' Q) →
  wp (F G) (AllocateReward G header_seq e fee;; HighResolution;; m) c Q.
Proof.
  intros Hc Hf HQ. apply wp_bind. eapply wp_mono; [by apply wp_AllocateReward_root|]. intros u c1 Hc1.
  apply wp_bind. unfold wp at 1, HighResolution. by apply HQ.
Qed.

Lemma wp_ApplyFollow_root request c : ¬ nn →
  (∀ i v, envs c !! i = Some v → env_ok nn v) →
  wp (F G) (ApplyFollow G header_seq request) c (λ _ _, True).
Proof.
  intros Hnn Hc. unfold ApplyFollow. apply wp_bind. unfold wp at 1, HighResolution. apply wp_open_root; [done|].
  intros e c1 Hc1. destruct (CheckConsValueValidation request) as [[ex er]|]; [|by apply wp_ret].
  apply wp_bind. eapply wp_mono; [by apply wp_follow_loop_root|]. intros p c2 Hc2.
  eapply wp_close_root; [done..|]. intros c3 Hc3. by apply wp_ret.
Qed.
End safe.

(** With balances: the sum of the fees and the reward must be in range. *)
Definition reward_fits (header_seq fee : Z) : Prop := 0 ≤ fee + GetBlockReward header_seq < 2 ^ 63.

Lemma reward_fits_bal header_seq fee : reward_fits header_seq fee → bal_ok (i64 (fee + GetBlockReward header_seq)).
Proof. unfold reward_fits, bal_ok. intros H. rewrite i64_id by (unfold is_i64; lia). done. Qed.

Section blocks.
Context {LH : LedgerHost} (G : Globals) (header_seq : Z).

Lemma root_weaken (nn : Prop) e c : root_ok nn e c → root_ok False e c.
Proof. intros [_ H]. split; [|done]. intros i v _. by split. Qed.

Context (nn : Prop).
Context (Hdb : nn → ∀ k a, db_account (db G) !! k = Some a → bal_ok (balance a)).
Context (Hres : nn → bal_ok (base_reserve G)).

(** The environments of a context, before a block. *)
Definition ctx_ok (c : Ctx) : Prop := ∀ i v, envs c !! i = Some v → env_ok nn v.

(** The accounts after a block have balances in range. *)
Definition in_range (fee : Z) (e : nat) (c : Ctx) : Prop :=
  nn → reward_fits header_seq fee → ∀ k a, accounts_after G c e k = Some a → bal_ok (GetAccountBalance a).

Lemma wp_close_in_range {A} e fee c (m : M A) (Q : A → Ctx → Prop) :
  root_ok nn e c → (∀ c', in_range fee e c' → wp (F G) m c' Q) →
  wp (F G) (AllocateReward G header_seq e fee;; HighResolution;; m) c Q.
Proof.
  intros Hc HQ. destruct (decide (0 ≤ fee + GetBlockReward header_seq < 2 ^ 63)) as [Hf|Hf].
  - eapply (wp_close_root G nn); [exact Hdb|exact Hc|intros _; by apply reward_fits_bal|].
    intros c1 Hc1. apply HQ. intros Hn _ k a Ha. by eapply (root_balances G nn).
  - eapply (wp_close_root G False); [done|by eapply root_weaken|done|]. intros c1 _. by apply HQ.
Qed.

Lemma root_in_range fee e c : root_ok nn e c → in_range fee e c.
Proof. intros Hc Hn _ k a Ha. by eapply (root_balances G nn). Qed.

Lemma wp_ApplyCheck_range request c :
  ctx_ok c → (nn → Forall wt_env (value_txs request)) →
  wp (F G) (ApplyCheck G header_seq request) c (λ r c', in_range (total_fee_ r.1.2) r.1.1 c').
Proof.
  intros Hc Hl. unfold ApplyCheck. apply wp_bind. unfold wp at 1, HighResolution.
  apply (wp_open_root G nn); [exact Hc|]. intros e c1 Hc1.
  destruct (CheckConsValueValidation request) as [[ex er]|]; [|by apply wp_ret, root_in_range].
  apply wp_bind. eapply wp_mono; [by apply (wp_check_loop_root G nn)|].
  intros [p ok] c2 Hc2. destruct ok; simpl; [|by apply wp_ret, root_in_range].
  eapply wp_close_in_range; [done|]. intros c3 Hc3. by apply wp_ret.
Qed.

Lemma wp_ApplyPropose_range request c :
  ctx_ok c → (nn → Forall wt_env (value_txs request)) →
  wp (F G) (ApplyPropose G header_seq request) c (λ r c', in_range (total_fee_ r.1.1.2) r.1.1.1 c').
Proof.
  intros Hc Hl. unfold ApplyPropose. apply wp_bind. unfold wp at 1, HighResolution.
  apply (wp_open_root G nn); [exact Hc|]. intros e c1 Hc1.
  destruct (validation request); [by apply wp_ret, root_in_range|].
  apply wp_bind. eapply wp_mono; [by apply (wp_propose_loop_root G nn)|].
  intros [p ok] c2 Hc2. destruct ok; simpl; [|by apply wp_ret, root_in_range].
  eapply wp_close_in_range; [done|]. intros c3 Hc3. by apply wp_ret.
Qed.
End blocks.
