(* ===== verification/LedgerIsolation.v ===== *)
(** * A transaction that fails

    Whatever the contracts of a transaction do, if the transaction fails or expires the root
    environment of the block is what it was before the transaction, accounts and settings,
    but for the fee and the nonce of the source. *)
From stdpp Require Import base gmap list strings numbers.
From Stdlib Require Import ZArith Lia.
From S2P Require Import Prelude SafeInt Strings Hex Base58 AtomMap Account LedgerMsg Environment Operation TransactionFrm Contract LedgerFrm LedgerLogic LedgerInv ExecInv ContractInv LedgerSafe.
Local Open Scope Z_scope.

Section between.
Context {LH : LedgerHost} (G : Globals).

(** What the committed accounts [D] show under the address [k]. *)
Definition seen (D : layer AccountFrm) (k : bytes) : option AccountFrm :=
  match D !! k with Some o => o | None => AccountFromDB G k end.

(** The buffer [b] over [D] holds accounts that were read, and nothing that was changed. *)
Definition cache (D b : layer AccountFrm) : Prop := ∀ k o, b !! k = Some o → o = seen D k.

(** Between two transactions of a block: the root [e] has committed the settings [S], and it
    has no changes pending, neither of accounts nor of settings. *)
Definition between (e : nat) (S : layer Json) (c : Ctx) : Prop :=
  ∃ b D, envs c !! e = Some (mkEnvironment b (Own D) ∅ (Own S)) ∧ cache D b.

(** The account [a] after its fee was taken, which left [b], and its nonce counted. *)
Definition charged (b : Z) (a : AccountFrm) : AccountFrm := NonceIncrease (with_info (set_balance b) a).

(** From [c] to [c'] nothing but the fee and the nonce of the source [a] of [env] changed, in
    no account and no setting, and no change is pending. *)
Definition only_fee_and_nonce (e : nat) (env : TransactionEnv) (a : AccountFrm) (b : Z)
  (S : layer Json) (c c' : Ctx) : Prop :=
  between e S c' ∧ ∀ k, accounts_after G c' e k =
    if decide (k = tx_source_address (transaction env)) then Some (charged b a) else accounts_after G c e k.
End between.

Section isolation.
Context {LH : LedgerHost} (G : Globals).
Context (e t : nat) (env : TransactionEnv).

Local Abbreviation inv D := (LedgerInv.inv False e t D).
Local Abbreviation loc := (LedgerSafe.loc False e t).
Local Abbreviation keeps := (LedgerSafe.keeps G False e t env).
Local Abbreviation F := (LedgerInv.F G).
Local Abbreviation src := (tx_source_address (transaction env)).

(** ** The root before [Apply] *)

Context (D : layer AccountFrm) (S : layer Json).

(** The root with the changes [b] of accounts. *)
Definition root_is (b : layer AccountFrm) (c : Ctx) : Prop :=
  envs c !! e = Some (mkEnvironment b (Own D) ∅ (Own S)) ∧ tx_is c t env.

Lemma root_is_tx b c u f : (∀ x, transaction_env_ (f x) = transaction_env_ x) →
  root_is b c → root_is b (with_txs (alter f u) c).
Proof.
  intros Hf [He (x & Hx & Ex)]. split; [done|]. destruct (decide (u = t)) as [->|].
  - exists (f x). simpl. by rewrite list_lookup_alter_eq, Hx, Hf.
  - exists x. simpl. by rewrite list_lookup_alter_ne.
Qed.

Lemma wp_reject_is b c r : root_is b c → wp F (reject t r) c (λ _, root_is b).
Proof. intros Hc. apply wp_bind, wp_modify, wp_ret. by apply root_is_tx. Qed.

Lemma wp_put_is b b' c : root_is b c → wp F (upd_env e (set_buff b')) c (λ _, root_is b').
Proof. intros [He Ht]. apply wp_modify. split; [|done]. simpl. by rewrite list_lookup_alter_eq, He. Qed.

Lemma wp_get_is b c (Q : TransactionFrm → Ctx → Prop) :
  root_is b c → (∀ x, transaction_env_ x = env → Q x c) → wp F (get_tx t) c Q.
Proof. intros [_ (x & Hx & Ex)] HQ. eapply wp_get_tx_Some; [done|]. by apply HQ. Qed.

(** What the root shows under the source. *)
Context (a : AccountFrm).

Context (Ha : seen G D src = Some a).

Lemma cache_insert b : cache G D b → cache G D (<[src := Some a]> b).
Proof. intros Hb k o. rewrite lookup_insert. case_decide as E; [intros [= <-]; by rewrite <- E|apply Hb]. Qed.

(** The source is read, and stays in the buffer. *)
Lemma wp_GetEntry_is b c : root_is b c → cache G D b →
  wp F (GetEntry G e src) c (λ o c', o = Some a ∧ root_is (<[src := Some a]> b) c').
Proof.
  intros Hc Hb. pose proof Hc as [He _]. unfold GetEntry, get_env, get_data, wp, mbind, M_bind. rewrite He. cbn [data_ buff_ mret M_ret].
  assert (spec_get (AccountFromDB G) [b; D] src = ([<[src := Some a]> b; D], Some a)) as ->.
  { unfold spec_get. destruct (b !! src) as [o|] eqn:Eb.
    - assert (o = Some a) as -> by (rewrite <- Ha; by apply Hb). by rewrite insert_id.
    - unfold seen in Ha. by rewrite Ha. }
  pose proof (wp_put_is b (<[src := Some a]> b) c Hc) as H. unfold wp in H. by destruct (upd_env e _ c) as [[]|].
Qed.

Lemma wp_GetEntry_buff x b c : root_is (<[src := Some x]> b) c →
  wp F (GetEntry G e src) c (λ o c', o = Some x ∧ root_is (<[src := Some x]> b) c').
Proof.
  clear Ha. intros Hc. pose proof Hc as [He _]. unfold GetEntry, get_env, get_data, wp, mbind, M_bind. rewrite He. cbn [data_ buff_ mret M_ret].
  unfold spec_get. rewrite lookup_insert_eq.
  pose proof (wp_put_is _ (<[src := Some x]> b) c Hc) as H. unfold wp in H. by destruct (upd_env e _ c) as [[]|].
Qed.

Lemma wp_assign_is x y b c : root_is (<[src := Some x]> b) c →
  wp F (assign_entry e src y) c (λ _, root_is (<[src := Some y]> b)).
Proof.
  intros [He Ht]. unfold assign_entry, AddEntry. apply wp_modify. split; [|done]. simpl.
  rewrite list_lookup_alter_eq, He. cbn. by rewrite insert_insert_eq.
Qed.

(** ** Admission, the fee and the nonce *)

Definition fresh (c : Ctx) : Prop := ∃ b, cache G D b ∧ root_is b c.

Lemma wp_reject_fresh c r : fresh c → wp F (reject t r) c (λ _, fresh).
Proof. intros (b & Hb & Hc). eapply wp_mono; [by apply wp_reject_is|]. intros u c' H. by exists b. Qed.

Lemma wp_ValidForParameter_fresh c : fresh c → wp F (ValidForParameter G t 0) c (λ _, fresh).
Proof.
  intros Hc. pose proof Hc as (b & Hb & Hr). unfold ValidForParameter. apply wp_bind. eapply wp_get_is; [done|]. intros x Ex.
  apply wp_bind, wp_get_ctx. cbv zeta. repeat (wp_case; [by apply wp_reject_fresh|]).
  apply wp_bind, wp_modify, wp_ret. exists b. split; [done|]. by apply root_is_tx.
Qed.

Lemma wp_CheckFee_fresh c price limit source : fresh c → wp F (CheckFee G t price limit source) c (λ _, fresh).
Proof.
  intros Hc. pose proof Hc as (b & Hb & Hr). unfold CheckFee. wp_case; [|by apply wp_reject_fresh].
  wp_case; [by apply wp_reject_fresh|]. apply wp_bind. eapply wp_get_is; [done|]. intros x Ex.
  apply wp_bind, wp_lift_res; [by intros f Hf _; apply SafeIntMul_fault in Hf|]. intros [m|] _; [|by apply wp_reject_fresh].
  wp_case; [by apply wp_reject_fresh|by apply wp_ret].
Qed.

Lemma wp_ValidForApply_fresh c check_priv : fresh c → wp F (ValidForApply G t e check_priv) c (λ _, fresh).
Proof.
  intros Hc. unfold ValidForApply. apply wp_bind. eapply wp_mono; [by apply wp_ValidForParameter_fresh|].
  intros ok c1 Hc1. wp_case; [by apply wp_ret|]. pose proof Hc1 as (b & Hb & Hr).
  apply wp_bind. eapply wp_get_is; [done|]. intros x Ex. unfold frm_source, tran_of. rewrite Ex.
  apply wp_bind. eapply wp_mono; [by eapply wp_GetEntry_is|]. intros o c2 [-> Hc2].
  assert (fresh c2) by (exists (<[src := Some a]> b); split; [by apply cache_insert|done]).
  wp_case; [by apply wp_reject_fresh|]. wp_case; [by apply wp_reject_fresh|]. by apply wp_CheckFee_fresh.
Qed.

Context (f b : Z) (total : Z).
Context (Hf : SafeIntAdd total (fee_limit (transaction env)) = Some f).
Context (Hb : SafeIntSub (GetAccountBalance a) (fee_limit (transaction env)) = Some b).

(** The source holds [x] in the buffer, where nothing else was changed. *)
Definition source_is (x : AccountFrm) (c : Ctx) : Prop := ∃ b, cache G D b ∧ root_is (<[src := Some x]> b) c.

Lemma wp_PayFee_is c : fresh c →
  wp F (PayFee G t e total) c (λ r c', r = (f, true) ∧ source_is (with_info (set_balance b) a) c').
Proof.
  intros (b0 & Hb0 & Hr). unfold PayFee. apply wp_bind. eapply wp_get_is; [done|]. intros x Ex.
  unfold frm_source, tran_of. rewrite Ex. cbv zeta. apply wp_bind. eapply wp_mono; [by eapply wp_GetEntry_is|].
  intros o c1 [-> Hc1]. rewrite Hf, Hb. apply wp_bind. eapply wp_mono; [by eapply wp_assign_is|]. intros u c2 Hc2.
  apply wp_ret. split; [done|]. by exists b0.
Qed.

(** The committed accounts [D1] show the charged source, and for the rest what [D] shows. *)
Definition charges (D1 : layer AccountFrm) : Prop :=
  ∀ k, seen G D1 k = if decide (k = src) then Some (charged b a) else seen G D k.

Lemma charges_commit b0 : cache G D b0 → charges (<[src := Some (charged b a)]> b0 ∪ D).
Proof.
  intros Hc k. unfold seen. rewrite lookup_union, lookup_insert. repeat case_decide; try congruence.
  - by destruct (D !! k).
  - destruct (b0 !! k) as [o|] eqn:E; [|by destruct (D !! k)].
    rewrite (Hc _ _ E). unfold seen. by destruct (D !! k).
Qed.

Lemma wp_Commit_is c b0 : root_is b0 c →
  wp F (Environment_Commit e) c (λ _ c', envs c' !! e = Some (mkEnvironment ∅ (Own (b0 ∪ D)) ∅ (Own S))).
Proof.
  clear Ha Hf Hb. intros [He _]. unfold Environment_Commit, get_settings_data, get_data, put_settings_data, put_data.
  unfold wp, mbind, M_bind, get_env. rewrite He. cbn [data_ buff_ settings_data_ settings_buff_ mret M_ret spec_commit].
  unfold upd_env, modify. simpl. rewrite !list_lookup_alter_eq, He. cbn. by rewrite (left_id_L ∅ (∪)).
Qed.

Lemma wp_begin_is c : source_is (with_info (set_balance b) a) c →
  wp F (begin_tx G t e) c (λ _ c', ∃ D1, envs c' !! e = Some (mkEnvironment ∅ (Own D1) ∅ (Own S)) ∧ charges D1).
Proof.
  intros (b0 & Hb0 & Hc). unfold begin_tx. apply wp_bind, wp_modify, wp_bind.
  apply wp_mono with (λ _, root_is (<[src := Some (charged b a)]> b0)).
  - unfold tx_NonceIncrease. apply wp_bind. eapply wp_get_is; [exact Hc|]. intros x Ex. unfold frm_source, tran_of. rewrite Ex.
    apply wp_bind. eapply wp_mono; [by eapply (wp_GetEntry_buff (with_info (set_balance b) a) b0)|].
    intros o c1 [-> Hc1]. by eapply wp_assign_is.
  - intros u c1 Hc1. eapply wp_mono; [by apply wp_Commit_is|]. intros u' c2 He. eexists. split; [exact He|]. by apply charges_commit.
Qed.

(** ** The rest of the transaction *)

(** The committed accounts and settings stay. *)
Definition holds (c : Ctx) : Prop :=
  ∃ D1, charges D1 ∧ inv (D1, S) c ∧ tx_is c t env ∧ (1 ≤ length (transaction_stack_ c))%nat.

Lemma holds_tri {A} (m : M A) (Q : A → Prop) c :
  (∀ D1, tri G False e t D1 1 m Q) → holds c → wp F m c (λ _, holds).
Proof.
  clear Ha Hf Hb. intros Hm (D1 & H1 & Hi & Ht & Hs). eapply wp_mono; [by apply (Hm (D1, S))|]. intros x c' [Hp _].
  pose proof (post_stack _ _ _ _ _ _ Hp). exists D1. split_and!; [done|by apply Hp|by eapply tx_is_post|lia].
Qed.

Lemma no_ops : Forall (op_valid False) (operations (transaction env)).
Proof. clear. apply Forall_true. by intros o. Qed.

Lemma holds_Apply c : holds c → wp F (Apply G (Execute G exec_fuel) t e false) c (λ _, holds).
Proof.
  clear Ha Hf Hb. intros (D1 & H1 & Hi & Ht & Hs). pose proof (tri_Apply G False e t (D1, S) ltac:(done) ltac:(done) (Execute G exec_fuel) 1) as H.
  eapply wp_mono; [apply (H ltac:(apply tri_Execute; [done..|intros _; unfold exec_fuel; lia]) c t e false env Ht no_ops);
    [by right|by apply post_refl|done]|].
  intros x c' [Hp _]. pose proof (post_stack _ _ _ _ _ _ Hp). exists D1. split_and!; [done|by apply Hp|by eapply tx_is_post|lia].
Qed.

(** The state after [begin_tx]. *)
Lemma wp_begin_holds c :
  source_is (with_info (set_balance b) a) c → loc c → wp F (begin_tx G t e) c (λ _, holds).
Proof.
  intros Hr [[D0 S0] Hc]. pose proof Hr as (b0 & _ & _ & Ht). eapply wp_mono; [apply wp_and; [by apply wp_begin_is|]|].
  - unfold begin_tx. apply wp_bind, wp_modify. destruct (push_post False e t (D0, S0) c t Hc) as [Hp Hl].
    eapply wp_mono; [apply (keeps_begin G False); [done..|by exists (D0, S0); apply Hp|by eapply tx_is_post|rewrite Hl; lia]|].
    intros x c1 [(Hc1 & Ht1 & Hs1) _]. rewrite Hl in Hs1.
    exact (conj Hc1 (conj Ht1 (Nat.le_trans _ _ _ (le_n_S _ _ (Nat.le_0_l _)) Hs1))).
  - intros x c1 ((D1 & He & HD) & [[D2 S2] Hi] & Ht1 & Hs1). destruct (inv_root _ _ _ _ _ Hi) as (v & Hv & Hd & Hs).
    rewrite He in Hv. injection Hv as <-. simpl in *. injection Hd as <-. injection Hs as <-. by exists D1.
Qed.

(** The end of a transaction throws the changes away. *)
Lemma wp_end_is D' S' c p : inv (D', S') c →
  wp F (end_tx t e env p) c (λ p' c', (error_txs p' = error_txs p ∧ expire_txs p' = expire_txs p) ∧
    envs c' !! e = Some (mkEnvironment ∅ (Own D') ∅ (Own S'))).
Proof.
  clear Ha Hf Hb. intros Hc. destruct (inv_root _ _ _ _ _ Hc) as (v & Hv & Hd & Hs). unfold end_tx, Environment_ClearChangeBuf.
  apply wp_bind, wp_bind, wp_modify, wp_modify, wp_bind, wp_modify, wp_ret. split; [done|].
  simpl. rewrite !list_lookup_alter_eq, Hv. destruct v. simpl in *. by subst.
Qed.

Lemma cache_empty D' : cache G D' ∅.
Proof. clear. intros k o. by rewrite lookup_empty. Qed.

(** The end of a transaction that failed, and of one that did not. *)
Lemma wp_end_failed c0 c p (Q : Progress → Prop) :
  (∀ k, accounts_after G c0 e k = seen G D k) → holds c →
  wp F (end_tx t e env p) c (λ p' c', (∃ S', between G e S' c') ∧ (Q p' → only_fee_and_nonce G e env a b S c0 c')).
Proof.
  intros H0 (D1 & HD & Hc & _). eapply wp_mono; [by apply wp_end_is|]. intros p' c' [_ He].
  assert (between G e S c') as Hb' by (exists ∅, D1; split; [done|apply cache_empty]). split; [eauto|]. intros _.
  split; [done|]. intros k. rewrite H0. unfold accounts_after, committed. rewrite He. exact (HD k).
Qed.

Lemma wp_end_any c p : loc c → wp F (end_tx t e env p) c (λ p' c',
  (error_txs p' = error_txs p ∧ expire_txs p' = expire_txs p) ∧ ∃ S', between G e S' c').
Proof.
  clear Ha Hf Hb. intros [[D' S'] Hc]. eapply wp_mono; [by apply wp_end_is|]. intros p' c' [H1 H2]. split; [done|].
  exists S', ∅, D'. split; [done|apply cache_empty].
Qed.

(** [settle] does not report a failure. *)
Lemma wp_settle_errors c p : loc c → tx_is c t env → (1 ≤ length (transaction_stack_ c))%nat →
  wp F (settle G t p) c (λ p' c', loc c' ∧ error_txs p' = error_txs p ∧ expire_txs p' = expire_txs p).
Proof.
  clear Ha Hf Hb. intros Hc Ht Hs. apply wp_mono with (λ p' c', (loc c' ∧ True) ∧ error_txs p' = error_txs p ∧ expire_txs p' = expire_txs p);
    [|tauto].
  apply wp_and.
  - eapply wp_mono; [by apply (keeps_settle G False ltac:(done) e t env 1)|]. intros p' c' [(? & _) _]. done.
  - unfold settle. apply wp_bind. eapply wp_mono; [by apply (keeps_ReturnFee G False ltac:(done) e t env 1)|].
    intros [f1 b1] c1 [(Hc1 & Ht1 & Hs1) _]. apply wp_bind.
    eapply wp_mono; [apply (keeps_tri G False e t env 0 _ _ (λ D, tri_tx_environment_any G False e t D 0 t)); [done..|lia]|].
    intros g c2 [(Hc2 & Ht2 & Hs2) _]. apply wp_bind.
    eapply wp_mono; [apply (keeps_Commit G False e t env 0); [done..|lia]|]. intros u c3 _. by apply wp_ret.
Qed.

Lemma holds_loc c : holds c → loc c.
Proof. intros (D1 & _ & Hi & _). by exists (D1, S). Qed.

(** The fee was taken. *)
Definition paid (c : Ctx) : Prop := source_is (with_info (set_balance b) a) c ∧ loc c.

Context (c0 : Ctx) (Hc0 : ∀ k, accounts_after G c0 e k = seen G D k).

(** What is known after a transaction of which [failed] says that it failed. *)
Definition settled (failed : Prop) (c : Ctx) : Prop :=
  (∃ S', between G e S' c) ∧ (failed → only_fee_and_nonce G e env a b S c0 c).

Lemma wp_follow_failed c i expired p : paid c →
  wp F (follow_one G t e env i expired p) c (λ p',
    settled (expired = true ∨ error_txs p' ≠ error_txs p)).
Proof.
  intros [Hr Hl]. unfold follow_one. apply wp_bind.
  eapply wp_mono; [by apply wp_begin_holds|]. intros u c1 Hc1. apply wp_bind. destruct expired.
  - apply wp_bind. eapply wp_mono; [apply (holds_tri _ (λ _, True)); [intros D1; by apply tri_upd_tx|done]|].
    intros u' c2 Hc2. apply wp_ret. by apply wp_end_failed.
  - apply wp_bind. eapply wp_mono; [by apply holds_Apply|]. intros [|] c2 Hc2; simpl.
    + eapply wp_mono; [apply wp_settle_errors; [by apply holds_loc|by destruct Hc2 as (? & _ & _ & ? & ?)..]|]. intros p1 c3 (Hc3 & He & _).
      eapply wp_mono; [by apply wp_end_any|]. intros p' c4 [[He' _] Hb']. split; [done|]. intros [|Hne]; [done|]. congruence.
    + apply wp_ret. by apply wp_end_failed.
Qed.

Lemma wp_apply_failed c i p : paid c →
  wp F (apply_one G t e env i p) c (λ p',
    settled (expire_txs p' ≠ expire_txs p ∨ error_txs p' ≠ error_txs p)).
Proof.
  intros [Hr Hl]. unfold apply_one. apply wp_bind.
  eapply wp_mono; [by apply wp_begin_holds|]. intros u c1 Hc1. apply wp_bind.
  unfold apply_timed. apply wp_bind.
  eapply wp_mono; [apply (holds_tri _ (λ _, True)); [intros D1; by apply tri_upd_tx|done]|]. intros u1 c2 Hc2.
  apply wp_bind. eapply wp_mono; [apply (holds_tri _ (λ _, True)); [intros D1; by apply tri_HighResolution|done]|]. intros now c3 Hc3.
  apply wp_bind. eapply wp_mono; [apply (holds_tri _ (λ _, True)); [intros D1; by apply tri_upd_tx|done]|]. intros u2 c4 Hc4.
  apply wp_bind. eapply wp_mono; [by apply holds_Apply|]. intros ok c5 Hc5.
  apply wp_bind. eapply wp_mono; [apply (holds_tri _ (λ _, True)); [intros D1; by apply tri_IsExpire|done]|]. intros b0 c6 Hc6.
  apply wp_ret. apply wp_bind. destruct b0; [apply wp_ret; by apply wp_end_failed|].
  destruct ok; simpl; [|apply wp_ret; by apply wp_end_failed].
  eapply wp_mono; [apply wp_settle_errors; [by apply holds_loc|by destruct Hc6 as (? & _ & _ & ? & ?)..]|]. intros p1 c7 (Hc7 & He & Hx).
  eapply wp_mono; [by apply wp_end_any|]. intros p' c8 [[He' Hx'] Hb']. split; [done|]. intros [Hne|Hne]; congruence.
Qed.

Lemma wp_paid c : fresh c → loc c → wp F (PayFee G t e total) c (λ r c', r = (f, true) ∧ paid c').
Proof.
  intros Hc Hl. eapply wp_mono; [apply wp_and; [by apply wp_PayFee_is|]|].
  - apply (wp_PayFee_loc G False ltac:(done) e t env c total Hl); [|done]. by destruct Hc as (? & _ & _ & ?).
  - intros r c' [[-> Hr] [Hl' _]]. by split.
Qed.
End isolation.

(** ** One step of the loops *)

Section step.
Context {LH : LedgerHost} (G : Globals) (e : nat) (env : TransactionEnv).
Context (S : layer Json) (a : AccountFrm) (f b : Z) (p : Progress) (c0 : Ctx).

(** The source [a] of [env] can pay the fee: it keeps [b], and the fees of the block sum to [f]. *)
Record pays : Prop := {
  pays_source : accounts_after G c0 e (tx_source_address (transaction env)) = Some a;
  pays_total : SafeIntAdd (total_fee_ p) (fee_limit (transaction env)) = Some f;
  pays_rest : SafeIntSub (GetAccountBalance a) (fee_limit (transaction env)) = Some b }.

Context (Hp : pays) (H0 : between G e S c0).
Local Abbreviation F := (LedgerInv.F G).
Local Abbreviation settled := (settled G e env S a b c0).

(** A new transaction [t] that has changed nothing; [D] is what the root has committed. *)
Definition made (D : layer AccountFrm) (t : nat) (c : Ctx) : Prop := fresh G e t env D S c ∧ loc False e t c.

Lemma between_seen : ∃ b D, envs c0 !! e = Some (mkEnvironment b (Own D) ∅ (Own S)) ∧ cache G D b ∧
  ∀ k, accounts_after G c0 e k = seen G D k.
Proof.
  destruct H0 as (b0 & D & He & Hb). exists b0, D. split_and!; [done..|].
  intros k. unfold accounts_after, committed. by rewrite He.
Qed.

Lemma wp_made : wp F (new_tx (new_TransactionFrm env)) c0 (λ t c', ∃ D,
  made D t c' ∧ ∀ k, accounts_after G c0 e k = seen G D k).
Proof.
  destruct between_seen as (b0 & D & He & Hb & Hs). eapply wp_mono; [apply wp_and|].
  - eapply (wp_new_tx_loc G False e c0 env); [split; [by intros i w _|by eauto 6]|]. intros t c' H1 H2. exact (conj H1 H2).
  - instantiate (1 := λ _ c', envs c' = envs c0). done.
  - simpl. intros t c' [[H1 H2] H3]. exists D. split; [|done]. split; [|done]. exists b0. split; [done|]. split; [by rewrite H3|done].
Qed.

Lemma made_between D t c : made D t c → between G e S c.
Proof. intros [(b0 & Hb & He & _) _]. by exists b0, D. Qed.

Lemma wp_follow_step ex i :
  wp F (follow_loop G e ex i [env] p) c0 (λ p', settled (i ∈ ex ∨ error_txs p' ≠ error_txs p)).
Proof.
  destruct Hp as [H1 H2 H3]. cbn [follow_loop]. apply wp_bind. eapply wp_mono; [apply wp_made|].
  intros t c1 (D & [Hc1 Hl1] & Hs). rewrite Hs in H1. apply wp_bind. eapply wp_mono; [by eapply wp_paid|].
  intros r c2 [-> Hc2]. cbn [negb]. apply wp_bind. eapply wp_mono; [by eapply (wp_follow_failed G e t env D S a b c0 Hs)|].
  intros p' c3 [Hb' H]. apply wp_ret. split; [done|].
  intros [Hi|He]; apply H; [left; by apply bool_decide_eq_true|by right].
Qed.

Lemma wp_ValidForApply_made D t c : made D t c → (∀ k, accounts_after G c0 e k = seen G D k) →
  wp F (ValidForApply G t e (negb (is_test_mode_ G))) c (λ _, made D t).
Proof.
  intros [Hc Hl] Hs. destruct Hp as [H1 _ _]. rewrite Hs in H1.
  eapply wp_mono; [apply wp_and; [by apply (wp_ValidForApply_fresh G e t env D S a H1)|
    apply (wp_ValidForApply_loc G False ltac:(done) ltac:(done) e t env); [done|exact Hl|by destruct Hc as (? & _ & _ & ?)]]|].
  intros ok c' [H2 [H4 _]]. by split.
Qed.

(** What a proposer and a checker do with the transaction after it was admitted. *)
Lemma wp_admitted_step D t c i start (r : Progress → Progress * bool) :
  made D t c → (∀ k, accounts_after G c0 e k = seen G D k) →
  wp F ('(f, paid) ← PayFee G t e (total_fee_ p);
    let p := set_total_fee f p in
    if negb paid then mret (r p)
    else p ← apply_one G t e env (i p) p; late ← block_timeout start;
      if (late : bool) then mret (p, false) else mret (p, true)) c
    (λ r, settled (expire_txs r.1 ≠ expire_txs p ∨ error_txs r.1 ≠ error_txs p)).
Proof.
  intros [Hc Hl] Hs. destruct Hp as [H1 H2 H3]. rewrite Hs in H1. apply wp_bind. eapply wp_mono; [by eapply wp_paid|].
  intros q c1 [-> Hc1]. cbn [negb]. apply wp_bind. eapply wp_mono; [by eapply (wp_apply_failed G e t env D S a b c0 Hs)|].
  intros p' c2 H. apply wp_bind. unfold block_timeout. apply wp_bind. unfold wp at 1, HighResolution. apply wp_ret.
  by destruct (_ <? _); apply wp_ret.
Qed.

(** A transaction that is not admitted changes nothing. *)
Lemma settled_refused D t c (r : Progress * bool) : made D t c →
  expire_txs r.1 = expire_txs p → error_txs r.1 = error_txs p →
  settled (expire_txs r.1 ≠ expire_txs p ∨ error_txs r.1 ≠ error_txs p) c.
Proof. intros Hm E1 E2. split; [exists S; by eapply made_between|]. intros [?|?]; congruence. Qed.

Lemma wp_check_step start i : wp F (check_loop G e start i [env] p) c0
  (λ r, settled (expire_txs r.1 ≠ expire_txs p ∨ error_txs r.1 ≠ error_txs p)).
Proof.
  cbn [check_loop]. apply wp_bind. eapply wp_mono; [apply wp_made|]. intros t c1 (D & Hc1 & Hs).
  apply wp_bind. eapply wp_mono; [by eapply wp_ValidForApply_made|]. intros [|] c2 Hc2; cbn [negb].
  - by apply (wp_admitted_step D t c2 (λ _, i) start (λ p, (p, false))).
  - apply wp_ret. by eapply settled_refused.
Qed.

Lemma wp_propose_step start i : wp F (propose_loop G e start i [env] p) c0
  (λ r, settled (expire_txs r.1 ≠ expire_txs p ∨ error_txs r.1 ≠ error_txs p)).
Proof.
  cbn [propose_loop]. apply wp_bind. eapply wp_mono; [apply wp_made|]. intros t c1 (D & Hc1 & Hs).
  apply wp_bind. eapply wp_mono; [by eapply wp_ValidForApply_made|]. intros [|] c2 Hc2; cbn [negb].
  - by apply (wp_admitted_step D t c2 (λ p, i - dropped_count p) start (λ p, (add_dropped t i p, true))).
  - apply wp_ret. by eapply settled_refused.
Qed.
End step.
