(* ===== verification/LedgerCoins.v ===== *)
(** * The coins of the ledger

    The sum of all balances under the abstract ledger: operations move coins, a fee moves
    them to the fees of the block, and the rewards bring them back together with the coins
    that the block creates. *)
From stdpp Require Import base gmap fin_maps list strings numbers.
From Stdlib Require Import ZArith Lia.
From S2P Require Import Prelude SafeInt Strings Hex Base58 AtomMap Account LedgerMsg Environment Operation TransactionFrm Contract LedgerFrm LedgerInv ExecInv LedgerSpec LedgerView LedgerBlock.
Local Open Scope Z_scope.

(** The sum of the balances. *)
Definition coins (V : lmap) : Z := map_fold (λ _ a z, GetAccountBalance a + z) 0 V.

(** Every balance is in range. *)
Definition wf (V : lmap) : Prop := ∀ k a, V !! k = Some a → bal_ok (GetAccountBalance a).

(** The balance under an address, if there is an account. *)
Definition bal (V : lmap) (k : bytes) : Z := default 0 (GetAccountBalance <$> V !! k).

Lemma coins_insert_new V k a : V !! k = None → coins (<[k := a]> V) = coins V + GetAccountBalance a.
Proof.
  intros Hk. unfold coins. rewrite map_fold_insert_L; [lia| |done]. intros. lia.
Qed.

Lemma coins_insert V k a : coins (<[k := a]> V) = coins V - bal V k + GetAccountBalance a.
Proof.
  unfold bal. destruct (V !! k) as [b|] eqn:E; simpl; [|rewrite coins_insert_new by done; lia].
  rewrite <- (insert_delete_id V k b E) at 2. rewrite <- insert_delete_eq, !coins_insert_new by apply lookup_delete_eq. lia.
Qed.

Lemma coins_nonneg V : wf V → 0 ≤ coins V.
Proof.
  induction V as [|k a V Hk IH] using map_ind; intros Hw; [done|]. rewrite coins_insert_new by done.
  pose proof (Hw k a (lookup_insert_eq _ _ _)) as [H0 _].
  assert (wf V); [|specialize (IH H); lia]. intros j b Hb. apply (Hw j). rewrite lookup_insert_ne; [done|congruence].
Qed.

Lemma coins_bound V k a : wf V → V !! k = Some a → GetAccountBalance a ≤ coins V.
Proof.
  intros Hw Hk. rewrite <- (insert_delete_id V k a Hk), coins_insert_new by apply lookup_delete_eq.
  assert (0 ≤ coins (delete k V)); [|lia]. apply coins_nonneg. intros j b [_ Hb]%lookup_delete_Some. by apply (Hw j).
Qed.

Lemma wf_insert V k a : wf V → bal_ok (GetAccountBalance a) → wf (<[k := a]> V).
Proof. intros HV Ha j b. rewrite lookup_insert. case_decide; [by intros [= <-]|apply HV]. Qed.

(** An update that keeps the balance. *)
Lemma coins_same V k a b : V !! k = Some a → GetAccountBalance b = GetAccountBalance a → wf V →
  wf (<[k := b]> V) ∧ coins (<[k := b]> V) = coins V.
Proof.
  intros Ha Hb Hw. split; [apply wf_insert; [done|]; rewrite Hb; by eapply Hw|].
  rewrite coins_insert. unfold bal. rewrite Ha. simpl. lia.
Qed.

Section coins.
Context {LH : LedgerHost} (G : Globals).
Context (Hres : bal_ok (base_reserve G)).

(** The map is in range and has [n] coins more. *)
Definition moves (V : lmap) (n : Z) (V' : lmap) : Prop := wf V' ∧ coins V' = coins V + n.

Lemma supply_moves_trans V n V1 m V2 : moves V n V1 → moves V1 m V2 → moves V (n + m) V2.
Proof. intros [_ E1] [H2 E2]. split; [done|]. lia. Qed.

Lemma debit_moves V k a amt b :
  wf V → V !! k = Some a → 0 ≤ amt → amt ≤ GetAccountBalance a → SafeIntSub (GetAccountBalance a) amt = Some b →
  moves V (- amt) (<[k := with_info (set_balance b) a]> V).
Proof.
  intros Hw Ha H0 Hle E. pose proof (Hw _ _ Ha) as Hr.
  rewrite SafeIntSub_exact in E; [|by apply bal_ok_i64|apply bal_ok_i64; unfold bal_ok in *; lia].
  apply exact_Some in E as [-> _]. split.
  - apply wf_insert; [done|]. rewrite GetAccountBalance_set. unfold bal_ok in *. lia.
  - rewrite coins_insert, GetAccountBalance_set. unfold bal. rewrite Ha. simpl. lia.
Qed.

Lemma credit_moves V k a amt b :
  wf V → V !! k = Some a → bal_ok amt → SafeIntAdd (GetAccountBalance a) amt = Some b →
  moves V amt (<[k := with_info (set_balance b) a]> V).
Proof.
  intros Hw Ha H0 E. pose proof (Hw _ _ Ha) as Hr. rewrite SafeIntAdd_exact in E by by apply bal_ok_i64.
  apply exact_Some in E as [-> Hi]. split.
  - apply wf_insert; [done|]. rewrite GetAccountBalance_set. unfold bal_ok, is_i64 in *. lia.
  - rewrite coins_insert, GetAccountBalance_set. unfold bal. rewrite Ha. simpl. lia.
Qed.

Lemma transfer_moves V src dest amt a V' :
  wf V → V !! src = Some a → 0 ≤ amt ≤ GetAccountBalance a → spec_transfer V src dest amt = Done V' → moves V 0 V'.
Proof.
  intros Hw Ha Hm. unfold spec_transfer, spec_balance at 1. rewrite Ha.
  destruct (SafeIntSub _ _) as [b|] eqn:Eb; [|done]. cbn [and_then].
  destruct (debit_moves V src a amt b) as [H1 E1]; [done..|lia|lia|done|]. set (V1 := <[src := _]> V) in *.
  unfold spec_balance. destruct (V1 !! dest) as [d|] eqn:Ed; [|done]. destruct (SafeIntAdd _ _) as [b'|] eqn:Eb'; [|done].
  intros [= <-]. pose proof (Hw _ _ Ha) as Hr.
  destruct (credit_moves V1 dest d amt b') as [H2 E2]; [done..|unfold bal_ok in *; lia|done|].
  split; [done|]. lia.
Qed.

Lemma PayCoin_moves V src s o V' :
  wf V → V !! src = Some s → wt_op o → 0 ≤ pc_amount (pay_coin o) →
  spec_PayCoin G V src s (pay_coin o) = Done V' → moves V 0 V'.
Proof.
  intros Hw Hs [Hi _] H0. unfold spec_PayCoin. destruct (SafeIntAdd _ _) as [m|] eqn:Em; [|done].
  rewrite SafeIntAdd_exact in Em; [|done|by apply bal_ok_i64]. apply exact_Some in Em as [-> _].
  destruct (Z.ltb_spec (GetAccountBalance s) (pc_amount (pay_coin o) + base_reserve G)); [done|].
  assert (pc_amount (pay_coin o) ≤ GetAccountBalance s) as Hle by (unfold bal_ok in *; lia).
  unfold spec_ensure. destruct (V !! pc_dest_address (pay_coin o)) as [d|] eqn:Ed; cbn [and_then].
  - intros E. by eapply (transfer_moves V src _ _ s).
  - destruct (_ <? base_reserve G); [done|]. cbn [and_then]. set (V1 := <[_ := paid_account _]> V). intros E.
    assert (wf V1 ∧ coins V1 = coins V) as [H1 E1].
    { split; [by apply wf_insert|]. unfold V1. rewrite coins_insert_new by done. cbn. lia. }
    destruct (transfer_moves V1 src (pc_dest_address (pay_coin o)) (pc_amount (pay_coin o)) s V') as [H2 E2]; try done.
    + unfold V1. rewrite lookup_insert_ne; [done|congruence].
    + split; [done|]. lia.
Qed.

Lemma CreateAccount_moves V src s o tran i V' :
  wf V → V !! src = Some s → wt_op o → spec_CreateAccount G V src s (create_account o) tran i = Done V' → moves V 0 V'.
Proof.
  intros Hw Hs [_ Hi]. unfold spec_CreateAccount. cbv zeta. set (dest := if decide _ then _ else _).
  destruct (V !! dest) eqn:Ed; [done|]. destruct (Z.ltb_spec (ca_init_balance (create_account o)) (base_reserve G)); [done|].
  pose proof (Hw _ _ Hs) as Hr. rewrite SafeIntSub_exact by by apply bal_ok_i64.
  destruct (exact _) as [lim|] eqn:El; [|done]. apply exact_Some in El as [-> _].
  destruct (Z.ltb_spec (GetAccountBalance s - base_reserve G) (ca_init_balance (create_account o))); [done|].
  assert (bal_ok (ca_init_balance (create_account o))) as Hb by (unfold bal_ok in *; lia).
  destruct (AddBalance _ _) as [s'|] eqn:Ea; [|done]. apply AddBalance_spec in Ea as [Ea Hi']; [|by apply bal_ok_i64|apply i64_range].
  rewrite i64_id in Ea by (unfold bal_ok, is_i64 in *; lia).
  destruct (init_metadatas _ _) as [d|] eqn:Em; [|done]. apply info_init_metadatas in Em. intros [= <-].
  assert (GetAccountBalance d = ca_init_balance (create_account o)) as Ed' by (unfold GetAccountBalance; by rewrite Em).
  split.
  - apply wf_insert; [apply wf_insert; [done|]|]; [|by rewrite Ed']. unfold bal_ok in *. lia.
  - rewrite coins_insert_new by (rewrite lookup_insert_ne; [done|congruence]). rewrite coins_insert, Ed', Ea.
    unfold bal. rewrite Hs. simpl. lia.
Qed.

Lemma same_moves V k a b : V !! k = Some a → account_info_ b = account_info_ a → wf V → moves V 0 (<[k := b]> V).
Proof.
  intros Ha Hb Hw. destruct (coins_same V k a b) as [H1 H2]; [done|unfold GetAccountBalance; by rewrite Hb|done|].
  split; [done|]. lia.
Qed.

Lemma repriv_moves V k a b : V !! k = Some a → repriv a b → wf V → moves V 0 (<[k := b]> V).
Proof.
  intros Ha [p ->] Hw. destruct (coins_same V k a (with_info (set_priv p) a)) as [H1 H2]; [done..|]. split; [done|]. lia.
Qed.

Lemma supply_moves_refl V : wf V → moves V 0 V.
Proof. intros Hw. split; [done|]. lia. Qed.

Lemma transfer_asset_moves V src s dest a V' :
  wf V → V !! src = Some s → spec_transfer_asset G V src s dest a = Done V' → moves V 0 V'.
Proof.
  intros Hw Hs. unfold spec_transfer_asset. destruct (GetAsset _ _ _) as [s' [x|]] eqn:E; [|done].
  apply info_GetAsset in E. destruct (_ =? 0); [|done]. destruct (SafeIntSub _ _) as [amt|]; [|done].
  destruct (amt <? 0); [done|]. set (V1 := <[src := _]> V).
  destruct (same_moves V src s (SetAsset s' (mkAssetStore (asset_key x) amt (property x))) Hs E Hw) as [H1 E1].
  fold V1 in H1, E1. unfold spec_credit_asset. destruct (V1 !! dest) as [d|] eqn:Ed; [|done].
  destruct (GetAsset _ d _) as [d' y] eqn:E'. apply info_GetAsset in E'.
  assert (∀ z, moves V 0 (<[dest := SetAsset d' z]> V1)) as Hm.
  { intros z. change 0 with (0 + 0). eapply supply_moves_trans; [by split|]. by eapply same_moves. }
  destruct y as [y|]; [destruct (SafeIntAdd _ _); [|done]|]; by intros [= <-].
Qed.

(** No operation creates or destroys coins. *)
Lemma op_moves V tran o i V' :
  wf V → wt_op o → (op_type o = PAY_COIN → 0 ≤ pc_amount (pay_coin o)) → spec_op G V tran o i = Done V' → moves V 0 V'.
Proof.
  intros Hw Ht Ha. unfold spec_op. cbv zeta. destruct (V !! source_of o tran) as [s|] eqn:Es; [|done].
  pose proof (supply_moves_refl V Hw) as Hr.
  destruct (op_type o =? 0); [by intros [= <-]|].
  destruct (op_type o =? CREATE_ACCOUNT); [by apply CreateAccount_moves|].
  destruct (op_type o =? PAY_ASSET).
  { unfold spec_PayAsset. destruct (V !! pa_dest_address _); [|done].
    destruct (pa_asset _); [by apply transfer_asset_moves|by intros [= <-]]. }
  destruct (op_type o =? ISSUE_ASSET).
  { unfold spec_IssueAsset. destruct (GetAsset _ _ _) as [s' x] eqn:E. apply info_GetAsset in E.
    destruct x as [x|]; [destruct (SafeIntAdd _ _); [|done]|]; intros [= <-]; by eapply same_moves. }
  destruct (op_type o =? SET_METADATA).
  { unfold spec_SetMetaData. destruct (GetMetaData _ _ _) as [s' kp] eqn:E. apply info_GetMetaData in E.
    destruct (sm_delete_flag _), kp; repeat (case_match; try done); intros [= <-]; by eapply same_moves. }
  destruct (_ || _); [intros [= <-]; eapply repriv_moves; [done|apply spec_set_priv_repriv|done]|].
  destruct (Z.eqb_spec (op_type o) PAY_COIN); [apply PayCoin_moves; auto|].
  destruct (op_type o =? LOG); [by intros [= <-]|].
  destruct (op_type o =? SET_PRIVILEGE); [intros [= <-]; eapply repriv_moves; [done|apply spec_set_priv_repriv|done]|].
  destruct (_ || _); [by intros [= <-]|done].
Qed.

Lemma ops_moves valid tran l : ∀ i V V',
  wf V → Forall wt_op l → Forall (λ o, op_type o = PAY_COIN → 0 ≤ pc_amount (pay_coin o)) l →
  spec_ops G V valid tran i l = Done V' → moves V 0 V'.
Proof.
  induction l as [|o l IH]; intros i V V' Hw Ht Ha; cbn [spec_ops]; [intros [= <-]; by apply supply_moves_refl|].
  apply Forall_cons_1 in Ht as [Ht Htl]. apply Forall_cons_1 in Ha as [Ha Hal]. destruct (decide _); [done|].
  destruct (spec_op _ _ _ _ _) as [|V1] eqn:E; [done|]. cbn [and_then]. intros E1.
  apply op_moves in E as Hm; [|done..]. change 0 with (0 + 0). eapply supply_moves_trans; [exact Hm|].
  eapply IH; [apply Hm|done..].
Qed.

(** ** Transactions *)

Lemma nonce_moves V env : wf V → moves V 0 (spec_nonce V env).
Proof.
  intros Hw. unfold spec_nonce. destruct (V !! _) as [a|] eqn:E; [|by apply supply_moves_refl].
  destruct (coins_same V _ a (NonceIncrease a) E) as [H1 H2]; [done..|]. split; [done|]. lia.
Qed.

(** The coins and the fees of a block in progress; [n] is the supply. *)
Definition supply (n : Z) (s : lstate) : Prop :=
  wf (accounts s) ∧ 0 ≤ fees s ∧ coins (accounts s) + fees s = n.

Lemma pay_supply n s env total V :
  supply n s → n < 2 ^ 63 → is_i64 (fee_limit (transaction env)) → admissible G (accounts s) env →
  spec_pay (accounts s) (fees s) env = (total, Some V) → supply n (mkState V total (failed s)) ∧
  fee_limit (transaction env) ≤ total.
Proof.
  intros (Hw & Hf & Hn) Hlt Hi (H0 & _ & _ & a & b & Ha & Hb & Hle). unfold spec_pay. rewrite Ha. cbv zeta.
  pose proof (Hw _ _ Ha) as Hr. pose proof (coins_nonneg _ Hw) as Hnn.
  rewrite SafeIntAdd_exact; [|unfold is_i64; lia|done]. destruct (exact _) as [t|] eqn:E; [|done].
  apply exact_Some in E as [-> _]. rewrite Hb. intros [= <- <-].
  assert (fee_limit (transaction env) ≤ GetAccountBalance a).
  { rewrite SafeIntSub_exact in Hb; [|by apply bal_ok_i64|done]. apply exact_Some in Hb as [-> _]. unfold bal_ok in *. lia. }
  destruct (debit_moves (accounts s) (tx_source_address (transaction env)) a (fee_limit (transaction env)) b) as [H1 E1];
    [done..|]. split; [split_and!; simpl; [done|lia|lia]|lia].
Qed.

Lemma cost_bal env cost :
  gas_ok env → 0 ≤ gas_price (transaction env) → is_i64 (gas_price (transaction env)) →
  spec_cost env = Some cost → bal_ok cost.
Proof.
  intros [Hg Hgi] Hp Hpi. unfold spec_cost. rewrite Z.add_0_l, i64_id by done.
  rewrite SafeIntMul_exact by (done || lia). destruct (exact _) as [m|] eqn:E; [|done].
  apply exact_Some in E as [-> Hm]. intros [= <-]. unfold bal_ok, is_i64 in *. nia.
Qed.

(** The fee that comes back leaves the fees of the block. *)
Lemma refund_supply n V total fl env :
  supply n (mkState V total fl) → n < 2 ^ 63 → fee_limit (transaction env) ≤ total →
  bal_ok (fee_limit (transaction env)) → (∀ cost, spec_cost env = Some cost → bal_ok cost) →
  supply n (let '(V, total) := spec_refund V total env in mkState V total fl).
Proof.
  intros Hs Hlt Hle H0 Hcost. pose proof Hs as (Hw & Hf & Hn). simpl in *. unfold spec_refund.
  destruct (spec_cost env) as [cost|]; [|done]. specialize (Hcost cost eq_refl).
  pose proof (coins_nonneg _ Hw) as Hnn.
  rewrite SafeIntSub_exact by by apply bal_ok_i64. destruct (exact _) as [fee|] eqn:Efee; [|done].
  apply exact_Some in Efee as [-> Hfi]. set (fee := fee_limit (transaction env) - cost) in *.
  destruct (Z.leb_spec fee 0); [done|]. destruct (V !! _) as [a|] eqn:Ha; [|done].
  assert (bal_ok fee) as Hfb by (unfold bal_ok, fee in *; lia).
  pose proof (Hw _ _ Ha) as Hr. pose proof (coins_bound _ _ _ Hw Ha) as Hb. unfold bal_ok in *.
  rewrite SafeIntSub_exact by (unfold is_i64; lia). unfold exact at 1. rewrite decide_True by (unfold is_i64, fee in *; lia).
  destruct (SafeIntAdd _ fee) as [b|] eqn:Eb.
  - destruct (credit_moves V (tx_source_address (transaction env)) a fee b) as [H1 E1]; [done..|].
    split_and!; simpl; [done|unfold fee in *; lia|lia].
  - rewrite SafeIntAdd_exact in Eb by (unfold is_i64; lia). unfold exact in Eb.
    rewrite decide_True in Eb by (unfold is_i64, fee in *; lia). done.
Qed.

(** The fields of a transaction that are integers of 64 bits. *)
Definition wt_tx (env : TransactionEnv) : Prop := wt_env env ∧ is_i64 (gas_price (transaction env)).

Lemma tx_supply n expired i env s :
  supply n s → n < 2 ^ 63 → wt_tx env → gas_ok env → admissible G (accounts s) env →
  supply n (spec_tx G expired i env s).
Proof.
  intros Hs Hlt [[Hops Hlim] Hpi] Hg Had. unfold spec_tx.
  pose proof Hs as (Hw & Hf & Hn). pose proof Had as (H0 & Hp & Ham & a & b & Ha & Hb & Hle).
  destruct (spec_pay _ _ _) as [total [V|]] eqn:E.
  - destruct (pay_supply n s env total V Hs Hlt Hlim Had E) as [Hs1 Hle1]. unfold spec_paid. cbn [accounts fees failed] in *.
    destruct Hs1 as (Hw1 & Hf1 & Hn1). cbn [accounts fees] in *. destruct (nonce_moves V env Hw1) as [Hw2 Hn2].
    destruct (expired i); [split_and!; simpl; [done..|lia]|].
    destruct (spec_apply G _ env) as [x|V2] eqn:Eap; [split_and!; simpl; [done..|lia]|].
    assert (moves (spec_nonce V env) 0 V2) as [Hw3 Hn3].
    { unfold spec_apply in Eap. destruct (spec_cost env); [|done]. destruct (_ <? z); [done|]. by eapply ops_moves. }
    apply refund_supply; [split_and!; simpl; [done..|lia]|done|done|unfold bal_ok, is_i64 in *; lia|].
    intros cost. by apply cost_bal.
  - exfalso. unfold spec_pay in E. rewrite Ha in E. cbv zeta in E.
    destruct (SafeIntAdd _ _) eqn:Es; [by rewrite Hb in E|].
    pose proof (Hw _ _ Ha) as Hr. pose proof (coins_bound _ _ _ Hw Ha) as Hbd.
    rewrite SafeIntSub_exact in Hb; [|by apply bal_ok_i64|done]. apply exact_Some in Hb as [-> _].
    rewrite SafeIntAdd_exact in Es by (unfold bal_ok, is_i64 in *; lia). unfold exact in Es.
    rewrite decide_True in Es by (unfold bal_ok, is_i64 in *; lia). done.
Qed.

Lemma txs_supply n expired l : ∀ i s,
  supply n s → n < 2 ^ 63 → Forall wt_tx l → Forall gas_ok l → admissible_all G expired i l s →
  supply n (spec_txs G expired i l s).
Proof.
  induction l as [|env l IH]; intros i s Hs Hlt Hw Hg; cbn [spec_txs admissible_all]; [done|]. intros (Ha%spec_valid_admissible & _ & Hl).
  apply Forall_cons_1 in Hw as [Hw Hwl]. apply Forall_cons_1 in Hg as [Hg Hgl].
  apply IH; [by apply tx_supply|done..].
Qed.

(** ** Rewards *)

(** A credit that fits the supply succeeds. *)
Lemma reward_account_moves V k a amt :
  wf V → V !! k = Some a → 0 ≤ amt → coins V + amt < 2 ^ 63 →
  ∃ W, spec_reward_account V k amt = Some W ∧ moves V amt W.
Proof.
  intros Hw Ha H0 Hlt. pose proof (Hw _ _ Ha) as Hr. pose proof (coins_bound _ _ _ Hw Ha) as Hb. pose proof (coins_nonneg _ Hw).
  unfold spec_reward_account, spec_balance. rewrite Ha.
  destruct (SafeIntAdd _ _) as [b|] eqn:E.
  - eexists. split; [done|]. apply credit_moves; [done..|unfold bal_ok; lia|done].
  - rewrite SafeIntAdd_exact in E by (unfold bal_ok, is_i64 in *; lia). unfold exact in E.
    rewrite decide_True in E by (unfold bal_ok, is_i64 in *; lia). done.
Qed.

Lemma reward_validators_moves avg l : ∀ V,
  wf V → 0 ≤ avg → coins V + avg * Z.of_nat (length l) < 2 ^ 63 →
  ∃ W, spec_reward_validators V avg l = Some W ∧ moves V (avg * Z.of_nat (length l)) W ∧
    (∀ k, is_Some (V !! k) → is_Some (W !! k)) ∧ (∀ k w, (k, w) ∈ l → is_Some (W !! k)).
Proof.
  induction l as [|[addr w] l IH]; intros V Hw H0 Hlt; cbn [spec_reward_validators].
  { exists V. split; [done|]. split; [split; [done|simpl; lia]|]. split; [done|]. by intros k w ?%elem_of_nil. }
  cbv zeta. set (V1 := match V !! addr with Some _ => V | None => _ end).
  assert (wf V1 ∧ coins V1 = coins V ∧ is_Some (V1 !! addr) ∧ ∀ k, is_Some (V !! k) → is_Some (V1 !! k)) as (Hw1 & E1 & [a Ha] & Hk1).
  { unfold V1. destruct (V !! addr) eqn:E; [by eauto|]. split_and!.
    - by apply wf_insert.
    - rewrite coins_insert_new by done. cbn. lia.
    - rewrite lookup_insert_eq. eauto.
    - intros k Hk. rewrite lookup_insert. case_decide; eauto. }
  assert (0 ≤ avg * Z.of_nat (length l)) by nia.
  replace (Z.of_nat (length ((addr, w) :: l))) with (Z.of_nat (length l) + 1) in * by (simpl; lia).
  destruct (reward_account_moves V1 addr a avg) as (W1 & EW & [HwW EcW]); [done..|nia|].
  rewrite EW. cbn. destruct (IH W1) as (W & EW2 & [Hw2 Ec2] & Hk2 & Hl2); [done..|nia|].
  assert (∀ k, is_Some (V1 !! k) → is_Some (W1 !! k)) as Hk3.
  { unfold spec_reward_account, spec_balance in EW. rewrite Ha in EW. destruct (SafeIntAdd _ _); [|done].
    injection EW as <-. intros k Hk. rewrite lookup_insert. case_decide; eauto. }
  exists W. split; [done|]. split; [split; [done|nia]|]. split; [auto|].
  intros k u [[= -> ->]|Hin]%elem_of_cons; [|by eapply Hl2]. apply Hk2, Hk3. eauto.
Qed.

Lemma reward_directly_moves header_seq V total l :
  wf V → 0 ≤ total → coins V + total < 2 ^ 63 → 0 ≤ header_seq →
  GetValidators_at G (header_seq - 1) = Some l → l ≠ [] →
  ∃ W, spec_reward_directly G header_seq V total = Some W ∧ moves V total W.
Proof.
  intros Hw H0 Hlt Hq Hv Hl. unfold spec_reward_directly. rewrite Hv. destruct l as [|x l0]; [done|].
  set (l := x :: l0) in *. cbv zeta. set (n := Z.of_nat (length l)). assert (0 < n) as Hn by (unfold n, l; simpl; lia).
  pose proof (Z.quot_rem' total n) as Eq. pose proof (Z.quot_pos total n H0 Hn). pose proof (Z.rem_bound_pos total n H0 Hn).
  destruct (reward_validators_moves (Z.quot total n) l V) as (W & EW & [HwW EcW] & _ & Hin); [done..|fold n; nia|].
  fold n in EcW. rewrite EW. cbn. destruct (Z.ltb_spec 0 (total - n * Z.quot total n)).
  - pose proof (Z.rem_bound_pos header_seq n Hq Hn) as Hr.
    destruct (lookup_lt_is_Some_2 l (Z.to_nat (Z.rem header_seq n)) ltac:(unfold n in *; lia)) as [[addr w] El].
    rewrite El. cbn. destruct (Hin addr w) as [a Ha]; [by eapply list_elem_of_lookup_2|].
    destruct (reward_account_moves W addr a (total - n * Z.quot total n)) as (W2 & E2 & [Hw2 Ec2]); [done..|lia|nia|].
    exists W2. split; [done|]. split; [done|nia].
  - exists W. split; [done|]. split; [done|nia].
Qed.

(** Fees and reward are paid out when they fit the supply. *)
Lemma reward_moves header_seq V fee l :
  wf V → 0 ≤ fee → 0 ≤ GetBlockReward header_seq → coins V + fee + GetBlockReward header_seq < 2 ^ 63 → 0 ≤ header_seq →
  is_test_mode_ G = false → GetValidators_at G (header_seq - 1) = Some l → l ≠ [] →
  ∃ W, spec_reward G header_seq V fee = Some W ∧ moves V (fee + GetBlockReward header_seq) W.
Proof.
  intros Hw Hf Hr Hlt Hq Ht Hv Hl. pose proof (coins_nonneg _ Hw). unfold spec_reward. cbv zeta.
  rewrite i64_id by (unfold is_i64; lia). set (total := fee + GetBlockReward header_seq) in *. rewrite Ht, orb_false_r.
  destruct (Z.eqb_spec total 0) as [->|]; [exists V; split; [done|]; by apply supply_moves_refl|].
  assert (∃ W, spec_reward_directly G header_seq V total = Some W ∧ moves V total W) as Hd.
  { eapply reward_directly_moves; [done|unfold total; lia|unfold total; lia|done..]. }
  destruct (CHECK_VERSION_GT_1002 G); [|done]. destruct (V !! _) as [a|] eqn:Ea; [|done].
  by eapply reward_account_moves; [| |unfold total; lia|unfold total; lia].
Qed.
End coins.

(** The reward of a block. *)
Lemma reward_loop_nonneg n : ∀ r, 0 ≤ r → 0 ≤ reward_loop n r ≤ r.
Proof.
  induction n as [|n IH]; intros r Hr; cbn [reward_loop]; [lia|]. destruct (Z.leb_spec r 0); [lia|].
  destruct (Z.ltb_spec r 4).
  - pose proof (Z.quot_pos (r * 3) 4 ltac:(lia) ltac:(lia)). pose proof (Z.quot_le_upper_bound (r * 3) 4 r ltac:(lia) ltac:(lia)).
    specialize (IH (Z.quot (r * 3) 4)). lia.
  - rewrite Z.shiftr_div_pow2 by lia. change (2 ^ 2) with 4. pose proof (Z.div_pos r 4 ltac:(lia) ltac:(lia)).
    pose proof (Z.div_le_upper_bound r 4 r ltac:(lia) ltac:(lia)). specialize (IH (r - r / 4)). lia.
Qed.

Lemma GetBlockReward_range h : 0 ≤ GetBlockReward h ≤ REWARD_INIT_VALUE.
Proof. apply reward_loop_nonneg. by vm_compute. Qed.
