(* ===== verification/LedgerDemo.v ===== *)
(** * Small ledgers

    Concrete hosts, ledgers and blocks on which the model is run, among them the two runs in
    which the code does something it should not: a frame that reads past the committed part
    of its parent, and a limit whose exception a script catches. *)
From stdpp Require Import base gmap list strings numbers.
From Stdlib Require Import ZArith Lia.
From S2P Require Import Prelude SafeInt Strings Hex Base58 AtomMap Account LedgerMsg Environment Operation TransactionFrm Contract LedgerFrm.
Local Open Scope Z_scope.

(** A host that accepts every address and signature; a script is given, and the clock stands. *)
Definition demo_host (script : ContractParameter → prog) : LedgerHost := {|
  IsAddressValid _ := true; pub_address k := Some k; Verify _ _ _ := true; raw_address k := k; Crypto s := s;
  SerializeTx tx := tx_source_address tx; ByteSize _ := 200; V8_SourceCodeCheck _ := ERRCODE_SUCCESS;
  v8 := script; v8_query := script; clock _ := 1000 |}.

Definition no_script : ContractParameter → prog := λ _, Finish JNull.

(** An account that signs for itself, under the index it has on disk. *)
Definition demo_account (addr code : bytes) (b : Z) : bytes * Account :=
  (DecodeAddress addr, mkAccount addr 0 (mkPrivilege 1 [] (Some (mkThresholds 1 []))) [] [] code true b).

Definition demo_ledger (l : list (bytes * Account)) : Globals :=
  mkGlobals 100 1 1003 6 0 [] false [(str "v", 1)] (λ _, Some [(str "v", 1); (str "w", 1)]) (λ _, None)
    (mkLedgerDb (list_to_map l) (λ _ _, None) (λ _ _, None)).

(** A signed payment: source, nonce, destination and amount; the fee limit is 1000. *)
Definition demo_pay (src : bytes) (n : Z) (dest : bytes) (amt : Z) : TransactionEnv :=
  mkTransactionEnv (mkTransaction src n 1000 1 0 [] [with_pay_coin (mkPayCoin dest amt []) (blank_operation PAY_COIN)] 0)
    [mkSignature src []] None.

Definition demo_block (l : list TransactionEnv) : ConsensusValue := mkConsensusValue l 50 7 None.

Definition ctx0 : Ctx := mkCtx [] [] [] 0 0 0.

(** The balance and the nonce of an account after a block. *)
Definition after (G : Globals) (c : Ctx) (e : nat) (k : bytes) : option (Z * Z) :=
  (λ a, (GetAccountBalance a, GetAccountNonce a)) <$> accounts_after G c e k.

(** Whether a block was accepted, the transactions that failed and expired, and accounts. *)
Definition outcome (G : Globals) (keys : list bytes) (r : res (Ctx * (nat * Progress * bool))) :
    option (bool * list Z * list Z * list (option (Z * Z))) :=
  match r with
  | Ok (c, (e, p, ok)) => Some (ok, error_txs p, expire_txs p, after G c e <$> keys)
  | Err _ => None
  end.

(** ** A frame reads past the committed accounts of its parent *)

(** The contract of [c] pays one coin to [b]. *)
Definition stale_host : LedgerHost :=
  demo_host (λ _, Call (CallBackPayCoin (str "b") (str "1") [] []) (λ _, Finish JNull)).
Definition stale_ledger : Globals :=
  demo_ledger [demo_account (str "a") [] 100000; demo_account (str "b") [] 100000;
               demo_account (str "c") (str "code") 100000; demo_account (str "d") [] 100000].

(** First [b] pays 500 to [d]; then [a] pays the contract of [c]. *)
Definition stale_block : ConsensusValue :=
  demo_block [demo_pay (str "b") 1 (str "d") 500; demo_pay (str "a") 1 (str "c") 10].

(** A frame restores a stale account.  [NewStackFrameEnv] gives the frame of a contract
    the change buffer of its parent, not the committed accounts below it: an account that an
    earlier transaction of the block changed is read from the disk.  Here [b] pays 500 coins
    and a fee of 200 in the first transaction; in the second a contract pays one coin to [b],
    and [b] ends with its old balance plus one and its old nonce, while [d] keeps the 500. *)
Theorem stale_frame_restores_account :
  outcome stale_ledger [str "b"; str "d"] (@ApplyCheck stale_host stale_ledger 7 stale_block ctx0) =
    Some (true, [], [], [Some (100001, 0); Some (100500, 0)]).
Proof. by vm_compute. Qed.

(** ** A script catches the exception of a limit *)

(** The script uses too much memory, catches the exception of the limit, frees the memory and
    pays 7 coins to [d]; without the exception it pays nothing. *)
Definition caught_host : LedgerHost :=
  demo_host (λ _, Call (InternalCheckTime (CONTRACT_MEMORY_LIMIT + 1) 0) (λ a, Call (InternalCheckTime 0 0) (λ _,
    match a with Threw => Call (CallBackPayCoin (str "d") (str "7") [] []) (λ _, Finish JNull) | Returned _ => Finish JNull end))).

Definition caught_block : ConsensusValue := demo_block [demo_pay (str "a") 1 (str "c") 10].

(** Validators and followers can disagree about a block with a contract.  The limits on
    memory and stack are enforced by an exception that the script can catch, and only while
    a block is proposed or checked: here a validator accepts the block, in which 7 coins were
    paid to [d] and no fee came back, and a follower computes that nothing was paid and
    that 800 of the fee came back. *)
Theorem caught_limit_divergence :
  outcome stale_ledger [str "a"; str "d"] (@ApplyCheck caught_host stale_ledger 7 caught_block ctx0) =
    Some (true, [], [], [Some (98990, 1); Some (100007, 0)]) ∧
  outcome stale_ledger [str "a"; str "d"] (@ApplyFollow caught_host stale_ledger 7 caught_block ctx0) =
    Some (true, [], [], [Some (99790, 1); Some (100000, 0)]).
Proof. split; by vm_compute. Qed.

(** ** A contract that queries itself *)

Definition self_query_host : LedgerHost :=
  demo_host (λ cp, Call (CallBackContractQuery (this_address_ cp) []) (λ a,
    match a with Returned v => Finish v | Threw => Uncaught end)).

(** The call of the contract of [c] by the only transaction of the stack. *)
Definition self_query_call : M Result :=
  e ← new_env;
  t ← new_tx (set_environment e (new_TransactionFrm (LH := self_query_host) (demo_pay (str "a") 1 (str "c") 10)));
  push_tx t;;
  Execute (LH := self_query_host) stale_ledger exec_fuel
    (mkParameter false (str "code") [] (str "c") 7 50 [] [] 1 1000 [] [] [] None 0 0 0).

(** Three queries run below the call, and the fourth is refused by the depth limit. *)
Example self_query_ends :
  match self_query_call ctx0 with Ok (_, r) => Some (contract_result r) | Err _ => None end =
    Some (JObject [(str "result", JObject [(str "result", JObject [(str "result", query_error)])])]).
Proof. by vm_compute. Qed.
