(* ===== verification/LedgerClaims.v ===== *)
(** * What the ledger promises

    The theorems on the execution of blocks.  [DemoHost] and [demo] are a small host and a
    small ledger on which the hypotheses of the theorems hold. *)
From stdpp Require Import base gmap list strings numbers.
From Stdlib Require Import ZArith Lia Sorted.
From S2P Require Import Prelude SafeInt Strings Hex Base58 AtomMap Account LedgerMsg Environment Operation TransactionFrm Contract LedgerFrm LedgerLogic LedgerInv ExecInv ContractInv LedgerSafe LedgerSpec LedgerView LedgerBlock LedgerRefine LedgerIsolation LedgerCoins LedgerDemo.
Local Open Scope Z_scope.

(** ** Another clock *)

(** The same host with another clock: another node. *)
Definition set_clock (cl : nat → Z) (LH : LedgerHost) : LedgerHost := {|
  IsAddressValid := @IsAddressValid LH; pub_address := @pub_address LH; Verify := @Verify LH;
  raw_address := @raw_address LH; Crypto := @Crypto LH; SerializeTx := @SerializeTx LH;
  ByteSize := @ByteSize LH; V8_SourceCodeCheck := @V8_SourceCodeCheck LH; v8 := @v8 LH; v8_query := @v8_query LH; clock := cl |}.

(** ** The outcome of a block in the form that the proposer announces *)

Lemma spec_txs_failed `{LedgerHost} G ex l : ∀ i s, (∀ j, j ∈ failed s → j < i) →
  ∃ new, failed (spec_txs G ex i l s) = failed s ++ new ∧ StronglySorted Z.lt new ∧
    Forall (λ j, i ≤ j < i + Z.of_nat (length l)) new.
Proof.
  induction l as [|env l IH]; intros i s Hs; cbn [spec_txs].
  { exists []. rewrite app_nil_r. by repeat constructor. }
  assert (failed (spec_tx G ex i env s) = failed s ∨ failed (spec_tx G ex i env s) = failed s ++ [i]) as Hc.
  { unfold spec_tx. destruct (spec_pay _ _ _) as [total [V|]]; [|by left]. unfold spec_paid. cbn [accounts fees failed].
    destruct (ex i); [by left|]. destruct (spec_apply _ _ _); [right; by apply set_insert_last|].
    destruct (spec_refund _ _ _). by left. }
  assert (∀ j, j ∈ failed (spec_tx G ex i env s) → j < i + 1) as Hlt.
  { intros j. destruct Hc as [->| ->]; [intros Hj%Hs; lia|]. rewrite elem_of_app, list_elem_of_singleton.
    intros [Hj%Hs| ->]; lia. }
  destruct (IH (i + 1) _ Hlt) as (new & -> & Hn & Hr).
  assert (Forall (λ j, i ≤ j < i + Z.of_nat (length (env :: l))) new) as Hr'.
  { eapply Forall_impl; [|exact Hr]. simpl. intros j Hj. lia. }
  destruct Hc as [->| ->]; [by exists new|]. exists (i :: new). rewrite <- app_assoc. split; [done|]. split.
  - constructor; [done|]. eapply Forall_impl; [|exact Hr]. simpl. intros j Hj. lia.
  - constructor; [simpl; lia|done].
Qed.

Lemma check_ids_sorted n l : ∀ acc, StronglySorted Z.lt l → Forall (λ j, 0 ≤ j < n) l →
  (∀ j k, j ∈ acc → k ∈ l → j < k) → check_ids n l acc acc = Some (acc ++ l, acc ++ l).
Proof.
  induction l as [|x l IH]; intros acc Hs Hr Ha; cbn [check_ids]; [by rewrite app_nil_r|].
  apply Forall_cons_1 in Hr as [Hx Hr]. apply StronglySorted_inv in Hs as [Hs Hxl].
  destruct (Z.leb_spec n x); [lia|]. destruct (Z.ltb_spec x 0); [lia|]. cbn [orb].
  rewrite decide_False by (intros Hin; specialize (Ha x x Hin ltac:(by left)); lia).
  rewrite set_insert_last by (intros j Hj; apply Ha; [done|by left]).
  rewrite IH; [by rewrite <- app_assoc|done..|].
  intros j k [Hj| ->%list_elem_of_singleton]%elem_of_app Hk; [apply Ha; [done|by right]|].
  by eapply list.Forall_forall in Hxl.
Qed.

(** What a proposer announces is well formed. *)
Lemma announced_ok `{LedgerHost} G h l ct sq :
  CheckConsValueValidation (mkConsensusValue l ct sq (Some (mkValidation []
    (failed (spec_block G h (λ _, false) l))))) = Some ([], failed (spec_block G h (λ _, false) l)).
Proof.
  unfold CheckConsValueValidation. cbn [validation value_txs expire_tx_ids error_tx_ids]. cbv zeta. cbn [check_ids].
  unfold mbind, option_bind. unfold spec_block at 1. cbv zeta. cbn [failed].
  destruct (spec_txs_failed G (λ _, false) l 0 (mkState (db_accounts G) 0 [])) as (new & E & Hs & Hr).
  { by intros j ?%elem_of_nil. }
  simpl in E. rewrite check_ids_sorted; rewrite ?E; [|done|done|by intros j k ?%elem_of_nil]. 
  unfold spec_block. cbv zeta. cbn [failed]. by rewrite E.
Qed.

(** ** Blocks without contracts *)

(** ** Ledgers and blocks without contracts

    The theorems of this section are about ledgers where no account on disk has code
    ([code_free]) and about blocks of transactions that create no contract, need gas within
    64 bits, and spell the addresses of their sources and operations as [EncodeAddress] does
    ([plain_env]); the validators who are rewarded are spelled so too ([validators_spelled]).
    With contracts, and with other spellings of an address, the statements fail: see
    [stale_frame_restores_account], [caught_limit_divergence] (LedgerDemo) and
    [alias_payment_order_decides] (LedgerStoreDemo). *)

Section plain.
Context (LH : LedgerHost) (G : Globals) (h : Z).
Context (Hh : 0 ≤ h) (Hval : validators_spelled G h) (Hcode : code_free (db_accounts G)).

(** C5: [ApplyFollow] implements the abstract ledger.  On a ledger without contract code, for a
    block that creates no contract, whose operations, sources and rewarded validators have
    addresses as [EncodeAddress] spells them, and whose announced outcome is well formed,
    execution does not fault and succeeds; the accounts it leaves under spelled addresses,
    the fees it collects and the transactions it marks as failed are those of [spec_block],
    which has no change buffers, caches, stack or clock. *)
Theorem ApplyFollow_refines_spec_block request c ex er :
  transaction_stack_ c = [] → Forall plain_env (value_txs request) →
  CheckConsValueValidation request = Some (ex, er) →
  ∃ c' e p, ApplyFollow G h request c = Ok (c', (e, p, true)) ∧
    block_is G (spec_block G h (λ i, bool_decide (i ∈ ex)) (value_txs request)) e p c'.
Proof.
  intros Hs Hl Hv. pose proof (wp_ApplyFollow G (λ _, False) h Hh Hval Hcode request c Hs Hl) as H.
  rewrite Hv in H. apply run_wp in H as (c' & [[e p] b] & E & Hb & H). simpl in Hb, H. subst b. eauto.
Qed.

(** C6: Validators and followers agree on blocks without contracts.  On a ledger without
    contract code, if a validator accepted a block that creates no contract and whose
    operations, sources and rewarded validators have addresses as [EncodeAddress] spells
    them, every node that executes the agreed block on the same ledger, with whatever clock,
    gets the same accounts under spelled addresses, the same fees and the same failed
    transactions. *)
Theorem accepted_block_followed cl request c1 c1' e1 p1 c2 :
  transaction_stack_ c1 = [] → transaction_stack_ c2 = [] → Forall plain_env (value_txs request) →
  ApplyCheck G h request c1 = Ok (c1', (e1, p1, true)) →
  ∃ c2' e2 p2, @ApplyFollow (set_clock cl LH) G h request c2 = Ok (c2', (e2, p2, true)) ∧
    (∀ k, spelled k → accounts_after G c2' e2 k = accounts_after G c1' e1 k) ∧
    total_fee_ p2 = total_fee_ p1 ∧ error_txs p2 = error_txs p1.
Proof.
  intros Hs1 Hs2 Hl Hrun.
  pose proof (wp_run _ _ _ _ _ _ Hrun (wp_ApplyCheck G (λ _, False) h Hh Hval Hcode request c1 Hs1 Hl)) as H.
  destruct (H eq_refl) as (ex & er & Hv & _ & _ & Ha & _ & Hf & He). simpl in Ha, Hf, He.
  pose proof (wp_ApplyFollow (LH := set_clock cl LH) G (λ _, False) h Hh Hval Hcode request c2 Hs2 Hl) as H2.
  rewrite Hv in H2. apply run_wp in H2 as (c2' & [[e2 p2] b] & E & Hb & Ha2 & _ & Hf2 & He2). simpl in *. subst b.
  exists c2', e2, p2. split; [done|]. split_and!; [|exact (eq_trans Hf2 (eq_sym Hf))|exact (eq_trans He2 (eq_sym He))].
  intros k Hk. rewrite Ha by done. exact (Ha2 k Hk).
Qed.

(** C7: An honest proposal without contracts is accepted.  On a ledger without contract code,
    if a leader proposes a block that creates no contract, whose operations, sources and
    rewarded validators have addresses as [EncodeAddress] spells them, and in which no
    transaction expired, a validator with the same ledger whose clock readings are at most a
    second apart accepts the transactions that the leader kept with the outcome that it
    announced. *)
Theorem honest_proposal_accepted cl request c1 c1' e1 p1 v c2 ct sq :
  transaction_stack_ c1 = [] → transaction_stack_ c2 = [] → Forall plain_env (value_txs request) →
  ApplyPropose G h request c1 = Ok (c1', (e1, p1, v, true)) → expire_tx_ids v = [] →
  @fast_clock (set_clock cl LH) →
  ∃ c2' e2 p2, @ApplyCheck (set_clock cl LH) G h (mkConsensusValue (transaction_envs_ p1) ct sq (Some v)) c2 =
    Ok (c2', (e2, p2, true)).
Proof.
  intros Hs1 Hs2 Hl Hrun Hx Hfast.
  pose proof (wp_run _ _ _ _ _ _ Hrun (wp_ApplyPropose G (λ _, False) h Hh Hval Hcode request c1 Hs1 Hl)) as H.
  destruct (H eq_refl) as (Hpl & -> & Had & _ & _ & _ & He). simpl in Hx. rewrite Hx in *.
  assert (admissible_all G (λ _, false) 0 (transaction_envs_ p1) (mkState (db_accounts G) 0 [])) as Had' by exact Had.
  assert (error_txs p1 = failed (spec_block G h (λ _, false) (transaction_envs_ p1))) as He' by exact He.
  pose proof (wp_ApplyCheck_live (LH := set_clock cl LH) G (λ _, False) h Hh Hval Hcode
    (mkConsensusValue (transaction_envs_ p1) ct sq (Some (mkValidation [] (error_txs p1)))) c2 (error_txs p1)) as H2.
  destruct (run_wp _ _ _ (H2 Hs2 Hpl Hfast ltac:(rewrite He'; apply announced_ok) Had' (eq_sym He')))
    as (c2' & [[e2 p2] b] & E & Hb). simpl in Hb. subst b. eauto.
Qed.

(** C8: Coins are conserved by blocks without contracts.  On a ledger without contract code,
    over a block that a validator accepted, that creates no contract and whose operations,
    sources and rewarded validators have addresses as [EncodeAddress] spells them, the sum of
    all balances grows by exactly the reward of the block: operations and fees move coins,
    and the fees are paid out again.  This holds outside test mode, when the balances on disk
    are not negative, the supply with the reward fits 64 bits, and the validators of the
    previous block are known and not none; every balance stays in range. *)
Theorem accepted_block_coins request c c' e p l :
  transaction_stack_ c = [] → Forall plain_env (value_txs request) → Forall wt_tx (value_txs request) →
  bal_ok (base_reserve G) → wf (db_accounts G) → coins (db_accounts G) + GetBlockReward h < 2 ^ 63 →
  is_test_mode_ G = false → GetValidators_at G (h - 1) = Some l → l ≠ [] →
  ApplyCheck G h request c = Ok (c', (e, p, true)) →
  ∃ V, (∀ k, spelled k → accounts_after G c' e k = V !! k) ∧ keys_spelled V ∧ wf V ∧ coins V = coins (db_accounts G) + GetBlockReward h.
Proof.
  intros Hs Hpl Hwt Hres Hw Hlt Htm Hvl Hne Hrun.
  pose proof (wp_run _ _ _ _ _ _ Hrun (wp_ApplyCheck G (λ _, False) h Hh Hval Hcode request c Hs Hpl)) as H.
  destruct (H eq_refl) as (ex & er & Hv & _ & Had & Ha & Hks & _). simpl in Ha.
  pose proof (GetBlockReward_range h) as [Hr _]. pose proof (coins_nonneg _ Hw) as H0.
  set (s0 := mkState (db_accounts G) 0 []) in *. set (s := spec_txs G (λ i, bool_decide (i ∈ ex)) 0 (value_txs request) s0).
  assert (supply (coins (db_accounts G)) s) as (Hws & Hfs & Hsum).
  { apply txs_supply; [done| |lia|done| |done].
    - split_and!; simpl; [done|lia|lia].
    - eapply Forall_impl; [|exact Hpl]. by intros env (_ & ? & _). }
  destruct (reward_moves G h (accounts s) (fees s) l) as (W & EW & HwW & EcW); try done; [lia|].
  assert (accounts (spec_block G h (λ i, bool_decide (i ∈ ex)) (value_txs request)) = W) as EB.
  { unfold spec_block. cbv zeta. fold s0 s. cbn [accounts]. by rewrite EW. }
  rewrite EB in Hks. exists W. split_and!; [|done|done|lia]. intros k Hk. exact (eq_trans (Ha k Hk) (f_equal (.!! k) EB)).
Qed.
End plain.

(** ** Blocks with contracts *)

(** C32: A transaction that fails leaves nothing but its fee and its nonce.  Let a block be in
    progress, with no change pending, and let the source [a] of the next transaction be able
    to pay its fee.  If a follower finds the transaction announced as expired or marks it as
    failed, or a validator or a proposer marks it as expired or failed, then afterwards, under
    every address, the accounts are what they were, except that the source has paid the fee
    limit and counted its nonce; the settings (validators, fees) are the same, and no change
    of accounts or settings is pending, whatever contracts did.  After every transaction,
    failed or not, no change is pending, so the premise holds again for the next one. *)
Theorem failed_transaction_fee_and_nonce `{LedgerHost} G e S c i env p a b f :
  between G e S c → pays G e env a f b p c →
  (∀ ex c' p', follow_loop G e ex i [env] p c = Ok (c', p') →
    (∃ S', between G e S' c') ∧
    (i ∈ ex ∨ error_txs p' ≠ error_txs p → only_fee_and_nonce G e env a b S c c')) ∧
  (∀ start c' p' ok, check_loop G e start i [env] p c = Ok (c', (p', ok)) →
    (∃ S', between G e S' c') ∧
    (expire_txs p' ≠ expire_txs p ∨ error_txs p' ≠ error_txs p → only_fee_and_nonce G e env a b S c c')) ∧
  (∀ start c' p' ok, propose_loop G e start i [env] p c = Ok (c', (p', ok)) →
    (∃ S', between G e S' c') ∧
    (expire_txs p' ≠ expire_txs p ∨ error_txs p' ≠ error_txs p → only_fee_and_nonce G e env a b S c c')).
Proof.
  intros Hb Hp. split_and!.
  - intros ex c' p' Hrun. exact (wp_run _ _ _ _ _ _ Hrun (wp_follow_step G e env S a f b p c Hp Hb ex i)).
  - intros start c' p' ok Hrun. exact (wp_run _ _ _ _ _ _ Hrun (wp_check_step G e env S a f b p c Hp Hb start i)).
  - intros start c' p' ok Hrun. exact (wp_run _ _ _ _ _ _ Hrun (wp_propose_step G e env S a f b p c Hp Hb start i)).
Qed.

(** C33: Balances stay in range.  If all balances on disk are between 0 and the largest 64-bit
    integer, so are all balances after a block that a validator executed, whatever contracts
    did, provided that the fees and the reward of the block do not exceed the integers. *)
Theorem checked_block_balances `{LedgerHost} G h request c c' e p ok :
  (∀ k a, db_account (db G) !! k = Some a → bal_ok (balance a)) → bal_ok (base_reserve G) →
  envs c = [] → Forall wt_env (value_txs request) →
  ApplyCheck G h request c = Ok (c', (e, p, ok)) → reward_fits h (total_fee_ p) →
  ∀ k a, accounts_after G c' e k = Some a → 0 ≤ GetAccountBalance a < 2 ^ 63.
Proof.
  intros Hdb Hres Hc Hl Hrun Hf. pose proof (wp_ApplyCheck_range G h True (λ _, Hdb) (λ _, Hres) request c) as Hw.
  refine (wp_run _ _ _ _ _ _ Hrun (Hw _ (λ _, Hl)) I Hf).
  intros i v. by rewrite Hc, lookup_nil.
Qed.

(** C34: The nesting of contracts is bounded.  From version 1002 on the depth limits of
    [ContractManager::Execute] and [ContractManager::Query] keep [Execute], [DoTransaction],
    [Apply] and [Query] within the fuel of the model: no block runs out of it, whatever calls,
    delegate calls, transactions and queries the scripts make, whether the block is proposed,
    checked or followed. *)
Theorem blocks_within_fuel `{LedgerHost} G h request c :
  CHECK_VERSION_GT_1001 G = true →
  ApplyPropose G h request c ≠ Err OutOfFuel ∧ ApplyCheck G h request c ≠ Err OutOfFuel ∧
  ApplyFollow G h request c ≠ Err OutOfFuel.
Proof.
  intros Hv.
  assert (∀ {A} (m : M A) Q, wp (F G) m c Q → m c ≠ Err OutOfFuel) as Hw.
  { intros A m Q. unfold wp. intros Hm E. rewrite E in Hm. by apply Hm. }
  assert (∀ i v, envs c !! i = Some v → env_ok False v) as Hc by (intros i v _; by split).
  assert (∀ P : Prop, False → P) as Hn by done. split_and!; eapply Hw.
  - exact (wp_ApplyPropose_range G h False (Hn _) (Hn _) request c Hc (Hn _)).
  - exact (wp_ApplyCheck_range G h False (Hn _) (Hn _) request c Hc (Hn _)).
  - exact (wp_ApplyFollow_root G False (Hn _) (Hn _) h request c id Hc).
Qed.

(** ** Signatures *)

(** The threshold for a type of operation: its own if it is set, or that of the account. *)
Definition required_weight (a : AccountFrm) (type : Z) : Z :=
  if 0 <? GetTypeThreshold a type then GetTypeThreshold a type
  else tx_threshold (thresholds_of (priv (account_info_ a))).

(** The weight of a list of signers. *)
Definition signers_weight (valid : gset bytes) (l : list Signer) : Z :=
  foldr (λ s z, (if decide (signer_address s ∈ valid) then weight s else 0) + z) 0 l.

Lemma signers_nonneg valid l : Forall (λ s, weight_ok (weight s) = true) l → 0 ≤ signers_weight valid l.
Proof.
  induction l as [|s l IH]; [done|]. intros [Hs Hl]%Forall_cons_1. specialize (IH Hl).
  unfold weight_ok in Hs. unfold signers_weight in *. simpl. destruct (decide _); lia.
Qed.

(** The weight of the keys that signed: the master key and the signers of the account. *)
Definition signed_weight (valid : gset bytes) (a : AccountFrm) : Z :=
  let p := priv (account_info_ a) in
  (if decide (GetAccountAddress a ∈ valid) then master_weight p else 0) + signers_weight valid (signers p).

Lemma signer_loop_weight valid l : Forall (λ s, weight_ok (weight s) = true) l → ∀ th, 0 < th < 2 ^ 63 →
  signer_loop valid l th = true ↔ th ≤ signers_weight valid l.
Proof.
  unfold signers_weight. induction l as [|s l IH]; intros Hl th Hth; cbn [signer_loop foldr]; [split; [done|lia]|].
  apply Forall_cons_1 in Hl as [Hs Hl]. pose proof (signers_nonneg valid l Hl) as Hnn. unfold signers_weight in Hnn.
  unfold weight_ok, UINT32_MAX in Hs.
  destruct (decide _) as [Hv|Hv]; [rewrite i64_id by (unfold is_i64; lia)|].
  - destruct (Z.leb_spec (th - weight s) 0); [split; [lia|done]|]. rewrite IH by (done || lia). lia.
  - destruct (Z.leb_spec th 0); [lia|]. rewrite IH by done. lia.
Qed.

(** C35: Signatures count by weight.  With the weights that the checks of operations allow, a
    set of valid signatures is enough for an operation if and only if the weights of the keys
    that signed, master key included, add up to the threshold of its type or, if that is not
    set, to the threshold of the account; the early exit of the loop loses nothing. *)
Theorem SignerHashPriv_weight valid a type :
  weight_ok (master_weight (priv (account_info_ a))) = true →
  Forall (λ s, weight_ok (weight s) = true) (signers (priv (account_info_ a))) →
  0 ≤ required_weight a type < 2 ^ 63 →
  SignerHashPriv valid a type = true ↔ required_weight a type ≤ signed_weight valid a.
Proof.
  intros Hm Hs Hr. unfold SignerHashPriv, signed_weight. cbv zeta. fold (required_weight a type).
  set (th := required_weight a type) in *. set (p := priv (account_info_ a)) in *.
  pose proof (signer_loop_weight valid (signers p) Hs) as Hl. unfold weight_ok, UINT32_MAX in Hm.
  pose proof (signers_nonneg valid (signers p) Hs) as H0.
  destruct (decide _); [rewrite i64_id by (unfold is_i64; lia)|].
  - destruct (Z.leb_spec (th - master_weight p) 0); [split; [lia|done]|]. rewrite Hl by lia. lia.
  - destruct (Z.leb_spec th 0); [split; [lia|done]|]. rewrite Hl by lia. lia.
Qed.

(** ** Witnesses *)

Lemma run_true {A} (r : res (Ctx * (A * bool))) :
  match r with Ok (_, (_, b)) => b | Err _ => false end = true → ∃ c a, r = Ok (c, (a, true)).
Proof. destruct r as [[c [a []]]|]; [|done..]. eauto. Qed.

(** A ledger without contracts; in the block [a] pays [b], and then [b] more than it has. *)
Definition plain_ledger : Globals :=
  demo_ledger [demo_account (str "a") [] 100000; demo_account (str "b") [] 100000].
Definition plain_txs : list TransactionEnv := [demo_pay (str "a") 1 (str "b") 500; demo_pay (str "b") 1 (str "a") 200000].
Definition plain_block : ConsensusValue := mkConsensusValue plain_txs 50 7 (Some (mkValidation [] [1])).

Local Abbreviation plain_host := (demo_host no_script).

Lemma plain_code : code_free (db_accounts plain_ledger).
Proof. exact (bool_decide_unpack (map_Forall (λ k a, spelled k ∧ contract (account_info_ a) = []) (db_accounts plain_ledger)) I). Qed.

Lemma plain_validators : validators_spelled plain_ledger 7.
Proof. intros l [= <-]. exact (bool_decide_unpack (Forall (λ v, spelled v.1) [(str "v", 1); (str "w", 1)]) I). Qed.

Lemma plain_plain : Forall (@plain_env plain_host) plain_txs.
Proof.
  repeat constructor; try done; try (intros _); by vm_compute.
Qed.

Lemma ApplyFollow_refines_spec_block_witness :
  ∃ c' e p, @ApplyFollow plain_host plain_ledger 7 plain_block ctx0 = Ok (c', (e, p, true)) ∧
    block_is plain_ledger (@spec_block plain_host plain_ledger 7 (λ i, bool_decide (i ∈ [])) plain_txs) e p c'.
Proof.
  apply (ApplyFollow_refines_spec_block plain_host plain_ledger 7 ltac:(lia) plain_validators plain_code plain_block ctx0 [] [1]);
    [reflexivity|exact plain_plain|reflexivity].
Defined.

Lemma accepted_block_followed_witness :
  ∃ c1 e1 p1, @ApplyCheck plain_host plain_ledger 7 plain_block ctx0 = Ok (c1, (e1, p1, true)) ∧
  ∃ c2 e2 p2, @ApplyFollow (set_clock Z.of_nat plain_host) plain_ledger 7 plain_block ctx0 = Ok (c2, (e2, p2, true)) ∧
    accounts_after plain_ledger c2 e2 (str "b") = accounts_after plain_ledger c1 e1 (str "b").
Proof.
  destruct (run_true (@ApplyCheck plain_host plain_ledger 7 plain_block ctx0)) as (c1 & [e1 p1] & E);
    [vm_compute; reflexivity|].
  exists c1, e1, p1. split; [exact E|].
  destruct (accepted_block_followed plain_host plain_ledger 7 ltac:(lia) plain_validators plain_code Z.of_nat plain_block ctx0 c1 e1 p1 ctx0
    eq_refl eq_refl plain_plain E) as (c2 & e2 & p2 & E2 & Ha & _).
  exists c2, e2, p2. split; [exact E2|]. apply Ha. vm_compute. reflexivity.
Defined.

(** The leader drops nothing and announces that the second transaction fails. *)
Definition plain_request : ConsensusValue := demo_block plain_txs.

Lemma steady_fast cl : (∀ n, cl n = 5000) → @fast_clock (set_clock cl plain_host).
Proof. intros H m n. simpl. rewrite !H. unfold TX_EXECUTE_TIME_OUT. lia. Qed.

Lemma honest_proposal_accepted_witness :
  ∃ c1 e1 p1 v, @ApplyPropose plain_host plain_ledger 7 plain_request ctx0 = Ok (c1, (e1, p1, v, true)) ∧
  ∃ c2 e2 p2, @ApplyCheck (set_clock (λ _, 5000) plain_host) plain_ledger 7
    (mkConsensusValue (transaction_envs_ p1) 60 7 (Some v)) ctx0 = Ok (c2, (e2, p2, true)).
Proof.
  destruct (@ApplyPropose plain_host plain_ledger 7 plain_request ctx0) as [[c1 [[[e1 p1] v] b]]|] eqn:E.
  2:{ exfalso. assert (match @ApplyPropose plain_host plain_ledger 7 plain_request ctx0 with Ok _ => true | Err _ => false end = true)
        as H by (vm_compute; reflexivity). rewrite E in H. discriminate H. }
  assert (match @ApplyPropose plain_host plain_ledger 7 plain_request ctx0 with
    | Ok (_, (_, _, v, b)) => (expire_tx_ids v, b) | Err _ => ([], false) end = ([], true)) as H by (vm_compute; reflexivity).
  rewrite E in H. injection H as Hx ->. exists c1, e1, p1, v. split; [reflexivity|].
  apply (honest_proposal_accepted plain_host plain_ledger 7 ltac:(lia) plain_validators plain_code (λ _, 5000) plain_request ctx0 c1 e1 p1 v
    ctx0 60 7 eq_refl eq_refl plain_plain E Hx). apply steady_fast. reflexivity.
Defined.

Lemma plain_wf : wf (db_accounts plain_ledger).
Proof.
  intros k a Ha.
  pose proof (bool_decide_unpack (map_Forall (λ _ a, 0 ≤ GetAccountBalance a ∧ GetAccountBalance a < 2 ^ 63) (db_accounts plain_ledger)) I k a Ha) as H.
  exact H.
Qed.

Lemma accepted_block_coins_witness :
  ∃ c' e p V, @ApplyCheck plain_host plain_ledger 7 plain_block ctx0 = Ok (c', (e, p, true)) ∧
    (∀ k, spelled k → accounts_after plain_ledger c' e k = V !! k) ∧ coins V = 800200000.
Proof.
  destruct (run_true (@ApplyCheck plain_host plain_ledger 7 plain_block ctx0)) as (c1 & [e1 p1] & E);
    [vm_compute; reflexivity|].
  destruct (accepted_block_coins plain_host plain_ledger 7 ltac:(lia) plain_validators plain_code plain_block ctx0 c1 e1 p1 [(str "v", 1); (str "w", 1)])
    as (V & HV & _ & _ & Hc).
  - reflexivity.
  - exact plain_plain.
  - repeat constructor; by vm_compute.
  - split; [discriminate|reflexivity].
  - exact plain_wf.
  - vm_compute. reflexivity.
  - reflexivity.
  - reflexivity.
  - discriminate.
  - exact E.
  - exists c1, e1, p1, V. split; [exact E|]. split; [exact HV|]. rewrite Hc. vm_compute. reflexivity.
Defined.

Lemma checked_block_balances_witness :
  ∃ c' e p, @ApplyCheck stale_host stale_ledger 7 stale_block ctx0 = Ok (c', (e, p, true)) ∧
    ∀ k a, accounts_after stale_ledger c' e k = Some a → 0 ≤ GetAccountBalance a < 2 ^ 63.
Proof.
  destruct (@ApplyCheck stale_host stale_ledger 7 stale_block ctx0) as [[c1 [[e1 p1] b]]|] eqn:E.
  2:{ exfalso. assert (match @ApplyCheck stale_host stale_ledger 7 stale_block ctx0 with Ok _ => true | Err _ => false end = true)
        as H by (vm_compute; reflexivity). rewrite E in H. discriminate H. }
  assert (match @ApplyCheck stale_host stale_ledger 7 stale_block ctx0 with
    | Ok (_, (_, p, b)) => (total_fee_ p, b) | Err _ => (0, false) end = (600, true)) as H by (vm_compute; reflexivity).
  rewrite E in H. injection H as Hf ->. exists c1, e1, p1. split; [reflexivity|].
  apply (checked_block_balances (H := stale_host) stale_ledger 7 stale_block ctx0 c1 e1 p1 true).
  - intros k a Ha.
    pose proof (bool_decide_unpack (map_Forall (λ _ a, 0 ≤ balance a ∧ balance a < 2 ^ 63) (db_account (db stale_ledger))) I k a Ha) as H.
    exact H.
  - split; [discriminate|reflexivity].
  - reflexivity.
  - repeat constructor; by vm_compute.
  - exact E.
  - rewrite Hf. unfold reward_fits. vm_compute. split; [discriminate|reflexivity].
Defined.

Lemma blocks_within_fuel_witness :
  CHECK_VERSION_GT_1001 stale_ledger = true ∧ @ApplyFollow stale_host stale_ledger 7 stale_block ctx0 ≠ Err OutOfFuel.
Proof.
  split; [reflexivity|].
  destruct (blocks_within_fuel (H := stale_host) stale_ledger 7 stale_block ctx0 eq_refl) as (_ & _ & H). exact H.
Defined.

(** One signer of weight 2 and a master key of weight 1, at a threshold of 3. *)
Definition shared_account : AccountFrm :=
  new_AccountFrm (mkAccount (str "a") 0 (mkPrivilege 1 [mkSigner (str "b") 2] (Some (mkThresholds 3 []))) [] [] [] false 0).

Lemma SignerHashPriv_weight_witness :
  SignerHashPriv {[ str "a"; str "b" ]} shared_account PAY_COIN = true ↔
  3 ≤ signed_weight {[ str "a"; str "b" ]} shared_account.
Proof.
  apply (SignerHashPriv_weight {[ str "a"; str "b" ]} shared_account PAY_COIN); [reflexivity| |].
  - repeat constructor.
  - vm_compute. split; [discriminate|reflexivity].
Defined.

(** At the beginning of a block, [b] pays more than it has: it loses 1000 coins of fee, and the
    receiver gets nothing. *)
Lemma failed_transaction_fee_and_nonce_witness :
  ∃ c e p a b c' p',
    between plain_ledger e ∅ c ∧
    @follow_loop plain_host plain_ledger e [] 1 [demo_pay (str "b") 1 (str "a") 200000] p c = Ok (c', p') ∧
    error_txs p' = [1] ∧
    only_fee_and_nonce plain_ledger e (demo_pay (str "b") 1 (str "a") 200000) a b ∅ c c' ∧
    accounts_after plain_ledger c' e (str "a") = accounts_after plain_ledger c e (str "a").
Proof.
  set (env := demo_pay (str "b") 1 (str "a") 200000).
  set (c := mkCtx [new_Environment] [] [] 0 7 0).
  assert (between plain_ledger 0 ∅ c) as Hb.
  { exists ∅, ∅. split; [reflexivity|]. intros k o. by rewrite lookup_empty. }
  destruct (accounts_after plain_ledger c 0 (str "b")) as [a|] eqn:Ea.
  2:{ exfalso. assert (bool_decide (is_Some (accounts_after plain_ledger c 0 (str "b"))) = true) as H by (vm_compute; reflexivity).
      rewrite Ea in H. discriminate H. }
  destruct (SafeIntSub (GetAccountBalance a) (fee_limit (transaction env))) as [b|] eqn:Es.
  2:{ exfalso. assert (match accounts_after plain_ledger c 0 (str "b") with
        | Some a => SafeIntSub (GetAccountBalance a) (fee_limit (transaction env)) | None => None end ≠ None) as H by (vm_compute; discriminate).
      rewrite Ea in H. exact (H Es). }
  destruct (@follow_loop plain_host plain_ledger 0 [] 1 [env] no_progress c) as [[c' p']|] eqn:E.
  2:{ exfalso. assert (match @follow_loop plain_host plain_ledger 0 [] 1 [env] no_progress c with Ok _ => true | Err _ => false end = true)
        as H by (vm_compute; reflexivity). rewrite E in H. discriminate H. }
  assert (match @follow_loop plain_host plain_ledger 0 [] 1 [env] no_progress c with
    | Ok (_, p) => error_txs p | Err _ => [] end = [1]) as H by (vm_compute; reflexivity).
  rewrite E in H. exists c, 0%nat, no_progress, a, b, c', p'. split; [exact Hb|]. split; [exact E|]. split; [exact H|].
  destruct (failed_transaction_fee_and_nonce (H := plain_host) plain_ledger 0 ∅ c 1 env no_progress a b (fee_limit (transaction env)) Hb)
    as [Hf _]; [split; [exact Ea|vm_compute; reflexivity|exact Es]|].
  destruct (Hf [] c' p' E) as [_ Hf']. assert (error_txs p' ≠ error_txs no_progress) as Hne by (rewrite H; discriminate).
  specialize (Hf' (or_intror Hne)). split; [exact Hf'|]. destruct Hf' as [_ Hf']. rewrite Hf'. by rewrite decide_False.
Defined.
