(* ===== verification/LedgerCommit.v ===== *)
(** * A block is written to disk (account.cpp, ledger_frm.cpp, ledger_manager.cpp)

    [AccountFrm::UpdateHash], [LedgerFrm::Commit] and the part of [LedgerManager::CloseLedger]
    that writes the account database: the accounts of the environment go to the trie of
    accounts, their cached assets and metadata to the two tries of each account, all through
    one write batch. *)
From stdpp Require Import base gmap list sorting strings.
From Stdlib Require Import ZArith Lia.
From S2P Require Import Prelude Location Trie TrieSpec TrieOps TrieHash KVTrie TrieMap TrieRefinement TrieCanon TrieShared SafeInt Base58 AtomMap Account.
Local Open Scope Z_scope.

(** The protobuf encodings of the messages that are stored. *)
Class AccountCodec := {
  SerAccount : Account → bytes; SerAssetKey : AssetKey → bytes;
  SerAsset : AssetStore → bytes; SerKeyPair : KeyPair → bytes }.

Definition ACCOUNT_PREFIX : bytes := str "acc".
Definition ASSET_PREFIX : bytes := str "ast".
Definition METADATA_PREFIX : bytes := str "meta".

Definition ComposePrefix (prefix value : bytes) : bytes := prefix ++ str "_" ++ value.

(** The order of [std::string], by unsigned characters, in which a [std::map] is walked. *)
Fixpoint string_leb (a b : bytes) : bool :=
  match a, b with
  | [], _ => true
  | _, [] => false
  | x :: a, y :: b => if uchar x <? uchar y then true else if uchar y <? uchar x then false else string_leb a b
  end.

Definition entry_leb {A} (f : A → bytes) (x y : A) : Prop := string_leb (f x) (f y) = true.

#[global] Instance entry_leb_dec {A} (f : A → bytes) : RelDecision (entry_leb f).
Proof. intros x y. unfold entry_leb. apply _. Defined.

Section commit.
Context {AC : AccountCodec}.
(** The encoding of the nodes of tries, and [HashWrapper::Crypto]. *)
Context (SerializeAsString : Node → bytes) (ParseFromString : bytes → Node).
Context (Crypto : bytes → bytes).

#[local] Instance kv_commit : TrieStorage KVStore := KVTrie SerializeAsString ParseFromString Crypto.
Local Abbreviation Init := (Init SerializeAsString ParseFromString Crypto).

(** [std::map] with [AssetSort], and the map of metadata. *)
Definition assets_in_order (a : AccountFrm) : list (AssetKey * (actType * AssetStore)) :=
  merge_sort (entry_leb (λ e, SerAssetKey e.1)) (map_to_list (assets_ a)).
Definition metadata_in_order (a : AccountFrm) : list (bytes * (actType * KeyPair)) :=
  merge_sort (entry_leb fst) (map_to_list (metadata_ a)).

(** The loops of [AccountFrm::UpdateHash]. *)
Fixpoint asset_loop (l : list (AssetKey * (actType * AssetStore))) (trie_asset : Trie KVStore) : res (Trie KVStore) :=
  match l with
  | [] => mret trie_asset
  | (_, (action, asset)) :: l =>
      trie_asset ←
        match action with
        | ADD | MOD =>
            if amount asset =? 0 then '(t, _) ← Delete trie_asset (SerAssetKey (asset_key asset)); mret t
            else '(t, _) ← Set_ trie_asset (SerAssetKey (asset_key asset)) (SerAsset asset); mret t
        | DEL => '(t, _) ← Delete trie_asset (SerAssetKey (asset_key asset)); mret t
        | REV | MAX => mret trie_asset
        end;
      asset_loop l trie_asset
  end.

Fixpoint metadata_loop (l : list (bytes * (actType * KeyPair))) (trie_metadata : Trie KVStore) : res (Trie KVStore) :=
  match l with
  | [] => mret trie_metadata
  | (first, (action, kp)) :: l =>
      trie_metadata ←
        match action with
        | ADD | MOD => '(t, _) ← Set_ trie_metadata first (SerKeyPair kp); mret t
        | DEL => '(t, _) ← Delete trie_metadata first; mret t
        | REV | MAX => mret trie_metadata
        end;
      metadata_loop l trie_metadata
  end.

(** The batch is a shared pointer: a trie sees what the others have added to it. *)
Definition share (b : list batch_op) (t : Trie KVStore) : Trie KVStore :=
  mkTrie (mkKV (mdb_ (store_ t)) (prefix_ (store_ t)) b) (root_ t) (root_hash_ t).

Definition set_assets_hash (h : bytes) (a : Account) : Account :=
  mkAccount (address a) (nonce a) (priv a) (metadatas_hash a) h (contract a) (has_contract a) (balance a).
Definition set_metadatas_hash (h : bytes) (a : Account) : Account :=
  mkAccount (address a) (nonce a) (priv a) h (assets_hash a) (contract a) (has_contract a) (balance a).

Definition asset_prefix (index : bytes) : bytes := ComposePrefix ASSET_PREFIX index.
Definition meta_prefix (index : bytes) : bytes := ComposePrefix METADATA_PREFIX index.

(** [AccountFrm::UpdateHash]: the batch afterwards, and the account. *)
Definition AccountFrm_UpdateHash (account_db : KeyValueDb) (batch : list batch_op) (a : AccountFrm)
    : res (list batch_op * AccountFrm) :=
  trie_asset ← Init account_db batch (asset_prefix (DecodeAddress (GetAccountAddress a))) 1;
  trie_metadata ← Init account_db batch (meta_prefix (DecodeAddress (GetAccountAddress a))) 1;
  trie_asset ← asset_loop (assets_in_order a) trie_asset;
  let trie_asset := UpdateHash trie_asset in
  let a := with_info (set_assets_hash (GetRootHash trie_asset)) a in
  trie_metadata ← metadata_loop (metadata_in_order a) (share (batch_ (store_ trie_asset)) trie_metadata);
  let trie_metadata := UpdateHash trie_metadata in
  mret (batch_ (store_ trie_metadata), with_info (set_metadatas_hash (GetRootHash trie_metadata)) a).

Definition Serializer (a : AccountFrm) : bytes := SerAccount (account_info_ a).

(** [LedgerFrm::Commit], on the entries in the order in which the [unordered_map] is walked;
    [None] is an entry of type [DEL].  The accounts of the environment, which now have new
    hashes, are not used again. *)
Fixpoint Commit_loop (entries : list (bytes * option AccountFrm)) (trie : Trie KVStore)
    (new_count change_count : Z) : res (Trie KVStore * Z * Z) :=
  match entries with
  | [] => mret (trie, new_count, change_count)
  | (_, None) :: entries => Commit_loop entries trie new_count change_count
  | (first, Some account) :: entries =>
      '(batch, account) ← AccountFrm_UpdateHash (mdb_ (store_ trie)) (batch_ (store_ trie)) account;
      '(trie, is_new) ← Set_ (share batch trie) (DecodeAddress first) (Serializer account);
      if is_new : bool then Commit_loop entries trie (new_count + 1) change_count
      else Commit_loop entries trie new_count (change_count + 1)
  end.

(** What [CloseLedger] does with [tree_]: commit the accounts and compute the root hash for
    the header; *)
Definition commit_tree (entries : list (bytes * option AccountFrm)) (tree_ : Trie KVStore) : res (Trie KVStore * Z) :=
  '(tree_, new_count, _) ← Commit_loop entries tree_ 0 0;
  mret (UpdateHash tree_, new_count).

(** then add [puts] to the batch, write it, forget it and release memory.  A batch that
    cannot be written ends the process. *)
Definition write_tree (puts : list batch_op) (tree_ : Trie KVStore) : res (Trie KVStore) :=
  let account_db := mdb_ (store_ tree_) in
  if write_ok account_db then
    let account_db := mkDb (apply_batch (batch_ (store_ tree_) ++ puts) (content account_db))
      (read_error account_db) (write_ok account_db) in
    mret (FreeMemory (mkTrie (mkKV account_db (prefix_ (store_ tree_)) []) (root_ tree_) (root_hash_ tree_)) 4)
  else Err ProcessExit.

(** The number of new accounts and the root hash are returned. *)
Definition close_tree (entries : list (bytes * option AccountFrm)) (puts : list batch_op) (tree_ : Trie KVStore)
    : res (Trie KVStore * Z * bytes) :=
  '(hashed, new_count) ← commit_tree entries tree_;
  tree ← write_tree puts hashed;
  mret (tree, new_count, GetRootHash hashed).

(** ** The specification: finite maps *)

Record disk := mkDisk {
  d_accounts : gmap bytes bytes; d_assets : bytes → gmap bytes bytes; d_metas : bytes → gmap bytes bytes }.

(** What a cached asset does to its key, and a cached pair. *)
Definition spec_asset (m : gmap bytes bytes) (e : AssetKey * (actType * AssetStore)) : gmap bytes bytes :=
  let '(_, (action, asset)) := e in
  let k := SerAssetKey (asset_key asset) in
  match action with
  | ADD | MOD => if amount asset =? 0 then delete k m else <[k := SerAsset asset]> m
  | DEL => delete k m
  | REV | MAX => m
  end.

Definition spec_metadata (m : gmap bytes bytes) (e : bytes * (actType * KeyPair)) : gmap bytes bytes :=
  let '(k, (action, kp)) := e in
  match action with ADD | MOD => <[k := SerKeyPair kp]> m | DEL => delete k m | REV | MAX => m end.

Definition new_assets (m : gmap bytes bytes) (a : AccountFrm) : gmap bytes bytes := foldl spec_asset m (assets_in_order a).
Definition new_metas (m : gmap bytes bytes) (a : AccountFrm) : gmap bytes bytes := foldl spec_metadata m (metadata_in_order a).

Local Abbreviation tree_hash := (tree_hash SerializeAsString ParseFromString Crypto).

(** The account with the root hashes of its two maps. *)
Definition hashed_account (d : disk) (i : bytes) (a : AccountFrm) : AccountFrm :=
  with_info (λ x, set_metadatas_hash (tree_hash (new_metas (d_metas d i) a))
    (set_assets_hash (tree_hash (new_assets (d_assets d i) a)) x)) a.

Definition update {A} (f : bytes → A) (i : bytes) (x : A) : bytes → A := λ j, if decide (j = i) then x else f j.

Definition spec_entry (d : disk) (e : bytes * option AccountFrm) : disk :=
  match e with
  | (_, None) => d
  | (k, Some a) =>
      let i := DecodeAddress k in
      mkDisk (<[i := Serializer (hashed_account d i a)]> (d_accounts d))
        (update (d_assets d) i (new_assets (d_assets d i) a)) (update (d_metas d) i (new_metas (d_metas d i) a))
  end.

Definition spec_commit (d : disk) (entries : list (bytes * option AccountFrm)) : disk := foldl spec_entry d entries.

(** ** Refinement *)

(** The number of bytes of an address ([GetKeyElement] accepts no other). *)
Definition INDEX_LENGTH : nat := 27.

(** An entry is under the address of its account, which decodes to 27 bytes. *)
Definition entry_ok (e : bytes * option AccountFrm) : Prop :=
  ∀ a, e.2 = Some a → GetAccountAddress a = e.1 ∧ length (DecodeAddress e.1) = INDEX_LENGTH.

(** The places on disk that the entries write. *)
Definition indices (entries : list (bytes * option AccountFrm)) : list bytes :=
  omap (λ e, match e.2 with Some _ => Some (DecodeAddress e.1) | None => None end) entries.

Local Abbreviation tree_at := (tree_at SerializeAsString ParseFromString Crypto).
Local Abbreviation trie_rel := (trie_rel SerializeAsString ParseFromString Crypto).
Local Abbreviation clean := (clean SerializeAsString ParseFromString Crypto).

(** The tries of the accounts' assets and metadata. *)
Definition subtrees (C : gmap bytes bytes) (d : disk) : Prop :=
  ∀ i, length i = INDEX_LENGTH → tree_at C (asset_prefix i) (d_assets d i) ∧ tree_at C (meta_prefix i) (d_metas d i).

(** The trie of accounts, as it is between two blocks, and its database stand for [d]. *)
Record stored (tree : Trie KVStore) (d : disk) : Prop := {
  st_tree : clean tree (d_accounts d);
  st_db : store_ tree = mkKV (good_db (content (mdb_ (store_ tree)))) ACCOUNT_PREFIX [];
  st_sub : subtrees (content (mdb_ (store_ tree))) d }.

Lemma apart_asset_meta i j : apart (asset_prefix i) (meta_prefix j).
Proof. by apply (apart_app []). Qed.
Lemma apart_asset_acc i : apart (asset_prefix i) ACCOUNT_PREFIX.
Proof. by apply (apart_app (str "a")). Qed.
Lemma apart_meta_acc i : apart (meta_prefix i) ACCOUNT_PREFIX.
Proof. by apply (apart_app []). Qed.
Lemma apart_assets i j : length i = INDEX_LENGTH → length j = INDEX_LENGTH → i ≠ j → apart (asset_prefix i) (asset_prefix j).
Proof. intros Hi Hj Hne. unfold asset_prefix, ComposePrefix. rewrite !app_assoc. apply apart_length; congruence. Qed.
Lemma apart_metas i j : length i = INDEX_LENGTH → length j = INDEX_LENGTH → i ≠ j → apart (meta_prefix i) (meta_prefix j).
Proof. intros Hi Hj Hne. unfold meta_prefix, ComposePrefix. rewrite !app_assoc. apply apart_length; congruence. Qed.

#[local] Hint Resolve apart_asset_meta apart_asset_acc apart_meta_acc apart_assets apart_metas : ceg.

Context (Hparse : ∀ n, ParseFromString (SerializeAsString n) = n).

(** The steps of the loops are changes of the map. *)
Lemma Set_step t m k v : trie_rel t m →
  ∃ t', ('(t, _) ← Set_ t k v; mret t) = Ok t' ∧ trie_rel t' (<[k := v]> m) ∧ store_ t' = store_ t.
Proof.
  intros Ht. destruct (Set_rel SerializeAsString ParseFromString Crypto Hparse t m k v Ht) as (t' & b & E & Ht').
  exists t'. split_and!; [|done|by eapply Set_store]. change (kv_inst SerializeAsString ParseFromString Crypto) with kv_commit in E.
  by rewrite E.
Qed.

Lemma Delete_step t m k : trie_rel t m →
  ∃ t', ('(t, _) ← Delete t k; mret t) = Ok t' ∧ trie_rel t' (delete k m) ∧ store_ t' = store_ t.
Proof.
  intros Ht. destruct (Delete_rel SerializeAsString ParseFromString Crypto Hparse t m k Ht) as (t' & b & E & Ht' & _).
  exists t'. split_and!; [|done|by eapply Delete_store]. change (kv_inst SerializeAsString ParseFromString Crypto) with kv_commit in E.
  by rewrite E.
Qed.

Lemma asset_loop_rel l : ∀ t m, trie_rel t m →
  ∃ t', asset_loop l t = Ok t' ∧ trie_rel t' (foldl spec_asset m l) ∧ store_ t' = store_ t.
Proof.
  induction l as [|[k [act d]] l IH]; intros t m Ht; cbn [asset_loop foldl]; [by exists t|].
  assert (∃ t1, match act with
    | ADD | MOD => if amount d =? 0 then '(t, _) ← Delete t (SerAssetKey (asset_key d)); mret t
                   else '(t, _) ← Set_ t (SerAssetKey (asset_key d)) (SerAsset d); mret t
    | DEL => '(t, _) ← Delete t (SerAssetKey (asset_key d)); mret t
    | REV | MAX => mret t end = Ok t1 ∧ trie_rel t1 (spec_asset m (k, (act, d))) ∧ store_ t1 = store_ t) as (t1 & E & Ht1 & Es).
  { cbn [spec_asset]. destruct act; [destruct (amount d =? 0)..| | |]; try (by apply Set_step); try (by apply Delete_step); by exists t. }
  rewrite E. cbn [mbind res_bind]. destruct (IH t1 _ Ht1) as (t' & -> & Ht' & Es'). exists t'. by rewrite Es', Es.
Qed.

Lemma metadata_loop_rel l : ∀ t m, trie_rel t m →
  ∃ t', metadata_loop l t = Ok t' ∧ trie_rel t' (foldl spec_metadata m l) ∧ store_ t' = store_ t.
Proof.
  induction l as [|[k [act d]] l IH]; intros t m Ht; cbn [metadata_loop foldl]; [by exists t|].
  assert (∃ t1, match act with
    | ADD | MOD => '(t, _) ← Set_ t k (SerKeyPair d); mret t
    | DEL => '(t, _) ← Delete t k; mret t
    | REV | MAX => mret t end = Ok t1 ∧ trie_rel t1 (spec_metadata m (k, (act, d))) ∧ store_ t1 = store_ t) as (t1 & E & Ht1 & Es).
  { cbn [spec_metadata]. destruct act; try (by apply Set_step); try (by apply Delete_step); by exists t. }
  rewrite E. cbn [mbind res_bind]. destruct (IH t1 _ Ht1) as (t' & -> & Ht' & Es'). exists t'. by rewrite Es', Es.
Qed.

Lemma trie_eta (t : Trie KVStore) kv : store_ t = kv → t = mkTrie kv (root_ t) (root_hash_ t).
Proof. intros <-. by destruct t. Qed.

(** One account: its two tries are updated through the batch, under their prefixes. *)
Lemma UpdateHash_account C b d i a :
  DecodeAddress (GetAccountAddress a) = i → length i = INDEX_LENGTH →
  off (asset_prefix i) b → off (meta_prefix i) b → subtrees (apply_batch b C) d →
  ∃ ba bm, AccountFrm_UpdateHash (good_db C) b a = Ok ((b ++ ba) ++ bm, hashed_account d i a) ∧
    on (asset_prefix i) ba ∧ on (meta_prefix i) bm ∧
    tree_at (apply_batch (b ++ ba) C) (asset_prefix i) (new_assets (d_assets d i) a) ∧
    tree_at (apply_batch ((b ++ ba) ++ bm) C) (meta_prefix i) (new_metas (d_metas d i) a).
Proof.
  intros Hi Hl Hoa Hom Hsub. destruct (Hsub i Hl) as [Ha Hm].
  assert (∀ p m, off p b → tree_at (apply_batch b C) p m → tree_at C p m) as Hback.
  { intros p m Ho. apply tree_at_same. apply same_under_sym. by apply same_under_off. }
  destruct (open_rel _ _ _ Hparse C (asset_prefix i) (d_assets d i) b 1 Hoa (Hback _ _ Hoa Ha)) as (na & Ea & Ra).
  destruct (open_rel _ _ _ Hparse C (meta_prefix i) (d_metas d i) b 1 Hom (Hback _ _ Hom Hm)) as (nm & Em & Rm).
  unfold AccountFrm_UpdateHash. rewrite Hi, Ea. cbn [mbind res_bind]. rewrite Em. cbn [mbind res_bind].
  destruct (asset_loop_rel (assets_in_order a) _ _ Ra) as (ta & -> & Rta & Sta). cbn [mbind res_bind].
  rewrite (trie_eta _ _ Sta) in Rta |- *. fold (new_assets (d_assets d i) a) in Rta.
  destruct (hash_rel _ _ _ Hparse _ _ _ _ _ _ Rta) as (ba & na' & Eh & Hba & Hca).
  change (kv_shared SerializeAsString ParseFromString Crypto) with kv_commit in Eh. cbn [store_] in *. rewrite Eh.
  cbn [share store_ batch_ mdb_ prefix_ root_ root_hash_ GetRootHash].
  assert (trie_rel (mkTrie (mkKV (good_db C) (meta_prefix i) (b ++ ba)) nm []) (d_metas d i)) as Rm'.
  { apply trie_rel_batch; [|done]. eapply on_off; [apply apart_asset_meta|done]. }
  change (metadata_in_order (with_info _ a)) with (metadata_in_order a).
  unfold share. cbn [store_ batch_ mdb_ prefix_ root_ root_hash_].
  destruct (metadata_loop_rel (metadata_in_order a) _ _ Rm') as (tm & -> & Rtm & Stm). cbn [mbind res_bind].
  rewrite (trie_eta _ _ Stm) in Rtm |- *. fold (new_metas (d_metas d i) a) in Rtm.
  destruct (hash_rel _ _ _ Hparse _ _ _ _ _ _ Rtm) as (bm & nm' & Eh' & Hbm & Hcm).
  change (kv_shared SerializeAsString ParseFromString Crypto) with kv_commit in Eh'. cbn [store_] in *. rewrite Eh'.
  exists ba, bm. split_and!; [reflexivity|done|done|by eapply clean_tree_at|by eapply clean_tree_at].
Qed.

(** Other accounts are not touched. *)
Lemma subtrees_entry C b ba bm d k a i :
  DecodeAddress k = i → length i = INDEX_LENGTH → subtrees (apply_batch b C) d →
  on (asset_prefix i) ba → on (meta_prefix i) bm →
  tree_at (apply_batch (b ++ ba) C) (asset_prefix i) (new_assets (d_assets d i) a) →
  tree_at (apply_batch ((b ++ ba) ++ bm) C) (meta_prefix i) (new_metas (d_metas d i) a) →
  subtrees (apply_batch ((b ++ ba) ++ bm) C) (spec_entry d (k, Some a)).
Proof.
  intros Hk Hi Hsub Hba Hbm Ha Hm j Hj. cbn [spec_entry d_assets d_metas]. rewrite Hk. unfold update. split.
  - destruct (decide (j = i)) as [->|Hne].
    + rewrite apply_batch_app. apply tree_at_off; [|done]. eapply on_off; [|done]. apply apart_sym, apart_asset_meta.
    + rewrite <- app_assoc, apply_batch_app. apply tree_at_off; [|by apply Hsub]. apply Forall_app. split.
      * eapply on_off; [|exact Hba]. auto using not_eq_sym with ceg.
      * eapply on_off; [|exact Hbm]. apply apart_sym, apart_asset_meta.
  - destruct (decide (j = i)) as [->|Hne]; [done|].
    rewrite <- app_assoc, apply_batch_app. apply tree_at_off; [|by apply Hsub]. apply Forall_app. split.
    + eapply on_off; [|exact Hba]. apply apart_asset_meta.
    + eapply on_off; [|exact Hbm]. auto using not_eq_sym with ceg.
Qed.

(** The state of the loop of [LedgerFrm::Commit]; the indices [todo] are not in the batch. *)
Record committing (C : gmap bytes bytes) (t : Trie KVStore) (d : disk) (todo : list bytes) : Prop := {
  cm_rel : trie_rel t (d_accounts d);
  cm_store : store_ t = mkKV (good_db C) ACCOUNT_PREFIX (batch_ (store_ t));
  cm_sub : subtrees (apply_batch (batch_ (store_ t)) C) d;
  cm_todo i : i ∈ todo → off (asset_prefix i) (batch_ (store_ t)) ∧ off (meta_prefix i) (batch_ (store_ t)) }.

Lemma commit_step C t d k a todo :
  entry_ok (k, Some a) → Forall (λ i, length i = INDEX_LENGTH) todo → DecodeAddress k ∉ todo →
  committing C t d (DecodeAddress k :: todo) →
  ∃ batch t' r, AccountFrm_UpdateHash (mdb_ (store_ t)) (batch_ (store_ t)) a = Ok (batch, hashed_account d (DecodeAddress k) a) ∧
    Set_ (share batch t) (DecodeAddress k) (Serializer (hashed_account d (DecodeAddress k) a)) = Ok (t', r) ∧
    committing C t' (spec_entry d (k, Some a)) todo.
Proof.
  intros Hok Htodo Hnew [Ht Hst Hsub Hto]. destruct (Hok a eq_refl) as [Haddr Hlen]. cbn in Haddr, Hlen.
  set (i := DecodeAddress k) in *. set (b := batch_ (store_ t)) in *. rewrite Hst. cbn [mdb_ batch_].
  destruct (Hto i ltac:(by left)) as [Hoa Hom].
  destruct (UpdateHash_account C b d i a) as (ba & bm & -> & Hba & Hbm & Ha & Hm); [by rewrite Haddr|done..|].
  assert (trie_rel (share ((b ++ ba) ++ bm) t) (d_accounts d)) as Ht1.
  { rewrite (trie_eta _ _ Hst) in Ht |- *. unfold share. cbn [store_ mdb_ prefix_ root_ root_hash_].
    apply trie_rel_batch; [eapply on_off; [apply apart_meta_acc|done]|].
    apply trie_rel_batch; [eapply on_off; [apply apart_asset_acc|done]|]. exact Ht. }
  destruct (Set_rel SerializeAsString ParseFromString Crypto Hparse _ _ i (Serializer (hashed_account d i a)) Ht1) as (t' & r & E & Ht').
  change (kv_inst SerializeAsString ParseFromString Crypto) with kv_commit in E.
  exists ((b ++ ba) ++ bm), t', r. split_and!; [done|exact E|].
  apply Set_store in E. unfold share in E. rewrite Hst in E. cbn [store_ mdb_ prefix_] in E. split.
  - exact Ht'.
  - by rewrite E.
  - rewrite E. cbn [batch_]. by apply (subtrees_entry C b ba bm d k a i).
  - intros j Hj. rewrite E. cbn [batch_]. destruct (Hto j ltac:(by right)) as [Hja Hjm].
    assert (j ≠ i) as Hne by congruence. pose proof (proj1 (list.Forall_forall _ _) Htodo j Hj) as Hlj. simpl in Hlj.
    split; rewrite <- app_assoc; (apply Forall_app; split; [done|]); apply Forall_app; (split; [eapply on_off; [|exact Hba]|eapply on_off; [|exact Hbm]]);
      auto using apart_sym, not_eq_sym with ceg.
Qed.

Lemma indices_cons k a entries : indices ((k, Some a) :: entries) = DecodeAddress k :: indices entries.
Proof. done. Qed.

Lemma indices_length entries : Forall entry_ok entries → Forall (λ i, length i = INDEX_LENGTH) (indices entries).
Proof.
  induction 1 as [|[k [a|]] l He _ IH]; [constructor| |exact IH]. rewrite indices_cons. constructor; [|done].
  by destruct (He a eq_refl).
Qed.

Lemma Commit_loop_spec C entries : ∀ t d n c,
  Forall entry_ok entries → NoDup (indices entries) → committing C t d (indices entries) →
  ∃ t' n' c', Commit_loop entries t n c = Ok (t', n', c') ∧ committing C t' (spec_commit d entries) [].
Proof.
  induction entries as [|[k [a|]] l IH]; intros t d n c Hok Hnd Hc; cbn [Commit_loop]; [by exists t, n, c| |].
  - apply list.Forall_cons in Hok as [Hk Hok]. rewrite indices_cons in Hc, Hnd. apply NoDup_cons in Hnd as [Hnew Hnd].
    destruct (commit_step C t d k a (indices l) Hk (indices_length l Hok) Hnew Hc) as (batch & t' & r & -> & E & Hc').
    cbn [mbind res_bind]. rewrite E. cbn [mbind res_bind]. destruct r; by apply IH.
  - apply list.Forall_cons in Hok as [_ Hok]. by apply IH.
Qed.

(** The trie with the waiting batch stands for [d]. *)
Record hashed (t : Trie KVStore) (d : disk) : Prop := {
  ha_store : store_ t = mkKV (good_db (content (mdb_ (store_ t)))) ACCOUNT_PREFIX (batch_ (store_ t));
  ha_hash : root_hash_ t = tree_hash (d_accounts d);
  ha_clean : clean (mkTrie (mkKV (good_db (apply_batch (batch_ (store_ t)) (content (mdb_ (store_ t))))) ACCOUNT_PREFIX [])
    (root_ t) (root_hash_ t)) (d_accounts d);
  ha_sub : subtrees (apply_batch (batch_ (store_ t)) (content (mdb_ (store_ t)))) d }.

Lemma commit_tree_ready C tree d entries :
  committing C tree d (indices entries) → Forall entry_ok entries → NoDup (indices entries) →
  ∃ t n, commit_tree entries tree = Ok (t, n) ∧ hashed t (spec_commit d entries).
Proof.
  intros Hcm Hok Hnd.
  destruct (Commit_loop_spec C entries tree d 0 0 Hok Hnd Hcm) as (t1 & n & c & E & [Ht1 Hst1 Hsub1 _]).
  unfold commit_tree. rewrite E. cbn [mbind res_bind]. set (d' := spec_commit d entries) in *.
  set (b := batch_ (store_ t1)) in *. rewrite (trie_eta _ _ Hst1) in Ht1 |- *.
  destruct (hash_rel _ _ _ Hparse _ _ _ _ _ _ Ht1) as (ba & n1 & Eh & Hba & Hca).
  change (kv_shared SerializeAsString ParseFromString Crypto) with kv_commit in Eh. rewrite Eh.
  eexists _, n. split; [reflexivity|]. split; cbn [store_ mdb_ prefix_ batch_ root_ root_hash_ content good_db]; try done.
  rewrite apply_batch_app. intros i Hi. destruct (Hsub1 i Hi) as [H1 H2].
  split; (apply tree_at_off; [|done]; eapply on_off; [|exact Hba]; apply apart_sym); auto with ceg.
Qed.

Lemma stored_committing tree d todo : stored tree d → committing (content (mdb_ (store_ tree))) tree d todo.
Proof.
  intros [Hc Hst Hsub]. split; [apply Hc|by rewrite Hst|by rewrite Hst|]. intros i _. rewrite Hst. split; constructor.
Qed.

Lemma commit_tree_spec tree d entries :
  stored tree d → Forall entry_ok entries → NoDup (indices entries) →
  ∃ t n, commit_tree entries tree = Ok (t, n) ∧ hashed t (spec_commit d entries).
Proof. intros Hst. by apply (commit_tree_ready (content (mdb_ (store_ tree)))), stored_committing. Qed.

Lemma write_tree_spec t d puts :
  hashed t d → off ACCOUNT_PREFIX puts → (∀ i, off (asset_prefix i) puts ∧ off (meta_prefix i) puts) →
  ∃ t', write_tree puts t = Ok t' ∧ stored t' d ∧
    content (mdb_ (store_ t')) = apply_batch (batch_ (store_ t) ++ puts) (content (mdb_ (store_ t))).
Proof.
  intros [Hst Hh Hca Hsub1] Hp Hps. unfold write_tree. rewrite Hst. cbn [mdb_ batch_ prefix_ write_ok read_error good_db content].
  set (b := batch_ (store_ t)) in *. set (C := content (mdb_ (store_ t))) in *. set (C' := apply_batch (b ++ puts) C).
  eexists. split; [reflexivity|]. split; [|reflexivity].
  assert (clean (mkTrie (mkKV (good_db C') ACCOUNT_PREFIX []) (root_ t) (root_hash_ t)) (d_accounts d)) as Hcl.
  { assert (same_under ACCOUNT_PREFIX (apply_batch b C) C') as Hs.
    { unfold C'. rewrite apply_batch_app. by apply same_under_off. }
    by eapply clean_same. }
  split.
  - by apply FreeMemory_clean.
  - reflexivity.
  - change (content (mdb_ (store_ (FreeMemory _ 4)))) with C'. unfold C'. rewrite apply_batch_app.
    intros i Hi. destruct (Hsub1 i Hi) as [H1 H2]. destruct (Hps i) as [P1 P2]. split; by apply tree_at_off.
Qed.

(** [CloseLedger] moves the database from one state of the specification to the next. *)
Lemma close_tree_spec tree d entries puts :
  stored tree d → Forall entry_ok entries → NoDup (indices entries) →
  off ACCOUNT_PREFIX puts → (∀ i, off (asset_prefix i) puts ∧ off (meta_prefix i) puts) →
  ∃ tree' n, close_tree entries puts tree = Ok (tree', n, tree_hash (d_accounts (spec_commit d entries))) ∧
    stored tree' (spec_commit d entries).
Proof.
  intros Hst Hok Hnd Hp Hps. unfold close_tree.
  destruct (commit_tree_spec tree d entries Hst Hok Hnd) as (t & n & -> & Ht). cbn [mbind res_bind].
  destruct (write_tree_spec t _ puts Ht Hp Hps) as (t' & -> & Ht' & _). cbn [mbind res_bind].
  exists t', n. split; [|done]. unfold GetRootHash. by rewrite (ha_hash _ _ Ht).
Qed.

Definition empty_disk : disk := mkDisk ∅ (λ _, ∅) (λ _, ∅).

(** A new database. *)
Lemma stored_empty : ∃ tree, Init (good_db ∅) [] ACCOUNT_PREFIX 4 = Ok tree ∧ stored tree empty_disk.
Proof.
  assert (∀ p, tree_at ∅ p ∅) as He by (intros p; apply tree_at_empty; [done|]; intros k; apply lookup_empty).
  destruct (open_rel _ _ _ Hparse ∅ ACCOUNT_PREFIX ∅ [] 4 ltac:(constructor) (He _)) as (n & E & _).
  destruct (Init_empty SerializeAsString ParseFromString Crypto Hparse (good_db ∅) ACCOUNT_PREFIX 4) as (t & E' & Hc);
    [done..|intros k; apply lookup_empty|]. rewrite E in E'. injection E' as <-. eexists. split; [exact E|].
  split; [exact Hc|reflexivity|]. intros i _. split; apply He.
Qed.
End commit.
