(* ===== verification/LedgerStore.v ===== *)
(** * What is on disk after a block

    The theorems on [LedgerCommit]: sequences of blocks implement the specification, the
    order in which the entries of a block are walked does not matter as long as they have
    different places on disk, and what was written is read back after a restart.  Where two
    entries have the same place, an address and another spelling of it, the order decides. *)
From stdpp Require Import base gmap list sorting strings numbers.
From Stdlib Require Import ZArith Lia.
From S2P Require Import Prelude Location Trie TrieSpec TrieOps TrieHash KVTrie TrieMap TrieRefinement TrieCanon TrieShared SafeInt Strings Base58 AtomMap Account LedgerCommit.
Local Open Scope Z_scope.

Section store.
Context {AC : AccountCodec}.
Context (SerializeAsString : Node → bytes) (ParseFromString : bytes → Node).
Context (Crypto : bytes → bytes).
Context (Hparse : ∀ n, ParseFromString (SerializeAsString n) = n).

Local Abbreviation close_tree := (close_tree SerializeAsString ParseFromString Crypto).
Local Abbreviation spec_commit := (spec_commit SerializeAsString ParseFromString Crypto).
Local Abbreviation stored := (stored SerializeAsString ParseFromString Crypto).
Local Abbreviation tree_hash := (tree_hash SerializeAsString ParseFromString Crypto).
Local Abbreviation hashed_account := (hashed_account SerializeAsString ParseFromString Crypto).

(** ** Sequences of blocks *)

(** A block: the entries of its environment, and what else goes to the account database. *)
Definition block_writes : Type := list (bytes * option AccountFrm) * list batch_op.

Fixpoint close_all (blocks : list block_writes) (tree : Trie KVStore) : res (Trie KVStore * list bytes) :=
  match blocks with
  | [] => mret (tree, [])
  | (entries, puts) :: blocks =>
      '(tree, _, h) ← close_tree entries puts tree;
      '(tree, hs) ← close_all blocks tree;
      mret (tree, h :: hs)
  end.

Fixpoint spec_all (d : disk) (blocks : list block_writes) : disk * list bytes :=
  match blocks with
  | [] => (d, [])
  | (entries, _) :: blocks =>
      let d := spec_commit d entries in
      let '(d', hs) := spec_all d blocks in (d', tree_hash (d_accounts d) :: hs)
  end.

(** The entries of a block have different places, and the rest is not under their prefixes. *)
Record block_ok (w : block_writes) : Prop := {
  bo_entries : Forall entry_ok w.1;
  bo_places : NoDup (indices w.1);
  bo_accounts : off ACCOUNT_PREFIX w.2;
  bo_others i : off (asset_prefix i) w.2 ∧ off (meta_prefix i) w.2 }.

(** The account database implements the specification.  A sequence of blocks, each
    committed, hashed, written and followed by the release of memory, runs without a fault;
    the root hashes are those of the maps of accounts of the specification, and afterwards
    the tries of accounts, assets and metadata hold the maps of the specification. *)
Theorem closed_blocks_refine_disk blocks tree d :
  stored tree d → Forall block_ok blocks →
  ∃ tree', close_all blocks tree = Ok (tree', (spec_all d blocks).2) ∧ stored tree' (spec_all d blocks).1.
Proof.
  revert tree d. induction blocks as [|[entries puts] l IH]; intros tree d Hst Hok; cbn [close_all spec_all]; [by exists tree|].
  apply list.Forall_cons in Hok as [[H1 H2 H3 H4] Hok].
  destruct (close_tree_spec SerializeAsString ParseFromString Crypto Hparse tree d entries puts) as (t1 & n & -> & Hst1); [done..|].
  cbn [mbind res_bind]. destruct (IH t1 _ Hst1 Hok) as (t2 & E & Hst2).
  destruct (spec_all (spec_commit d entries) l) as [d' hs]. cbn [fst snd] in *. rewrite E. cbn [mbind res_bind]. by exists t2.
Qed.

(** ** The order of the entries *)

Lemma indices_elem entries k a : (k, Some a) ∈ entries → DecodeAddress k ∈ indices entries.
Proof. intros H. apply list_elem_of_omap. by exists (k, Some a). Qed.

Lemma indices_perm l l' : l ≡ₚ l' → indices l ≡ₚ indices l'.
Proof. intros H. unfold indices. by rewrite H. Qed.

Lemma update_ne {A} (f : bytes → A) i x j : j ≠ i → update f i x j = f j.
Proof. intros Hne. unfold update. by rewrite decide_False. Qed.

Lemma update_eq {A} (f : bytes → A) i x : update f i x i = x.
Proof. unfold update. by rewrite decide_True. Qed.

(** The three maps at one index. *)
Definition at_index (d : disk) (i : bytes) : option bytes * gmap bytes bytes * gmap bytes bytes :=
  (d_accounts d !! i, d_assets d i, d_metas d i).

Lemma spec_commit_other l : ∀ d i, i ∉ indices l → at_index (spec_commit d l) i = at_index d i.
Proof.
  induction l as [|[k [a|]] l IH]; intros d i Hi; [done| |by apply IH].
  rewrite indices_cons, not_elem_of_cons in Hi. destruct Hi as [Hne Hi]. change (at_index (spec_commit
    (spec_entry SerializeAsString ParseFromString Crypto d (k, Some a)) l) i = at_index d i).
  rewrite IH by done. unfold at_index. cbn [spec_entry d_accounts d_assets d_metas].
  by rewrite lookup_insert_ne, !update_ne by congruence.
Qed.

Lemma spec_commit_entry l : ∀ d k a, NoDup (indices l) → (k, Some a) ∈ l →
  at_index (spec_commit d l) (DecodeAddress k) = let i := DecodeAddress k in
    (Some (Serializer (hashed_account d i a)), new_assets (d_assets d i) a, new_metas (d_metas d i) a).
Proof.
  induction l as [|[k' o] l IH]; intros d k a Hnd Hin; [by apply elem_of_nil in Hin|]. cbv zeta in IH |- *.
  change (at_index (spec_commit (spec_entry SerializeAsString ParseFromString Crypto d (k', o)) l) (DecodeAddress k) =
    (Some (Serializer (hashed_account d (DecodeAddress k) a)), new_assets (d_assets d (DecodeAddress k)) a, new_metas (d_metas d (DecodeAddress k)) a)).
  destruct o as [a'|]; [rewrite indices_cons in Hnd; apply list.NoDup_cons in Hnd as [Hnew Hnd]|].
  - apply elem_of_cons in Hin as [[= -> ->]|Hin].
    + rewrite spec_commit_other by done. unfold at_index. cbn [spec_entry d_accounts d_assets d_metas].
      by rewrite lookup_insert_eq, !update_eq.
    + assert (DecodeAddress k ≠ DecodeAddress k') as Hne by (intros E; apply Hnew; rewrite <- E; by eapply indices_elem).
      rewrite (IH _ k a Hnd Hin). cbn [spec_entry d_assets d_metas]. unfold LedgerCommit.hashed_account. cbn [d_assets d_metas].
      by rewrite !update_ne by done.
  - apply elem_of_cons in Hin as [[=]|Hin]. by apply IH.
Qed.

Lemma indices_inv l i : i ∈ indices l → ∃ k a, (k, Some a) ∈ l ∧ DecodeAddress k = i.
Proof. intros ([k [a|]] & Hin & E)%list_elem_of_omap; [|done]. injection E as <-. eauto. Qed.

Lemma spec_commit_perm d l l' i : l ≡ₚ l' → NoDup (indices l) → at_index (spec_commit d l) i = at_index (spec_commit d l') i.
Proof.
  intros Hp Hnd. assert (NoDup (indices l')) as Hnd' by (by rewrite <- (indices_perm _ _ Hp)).
  destruct (decide (i ∈ indices l)) as [(k & a & Hin & <-)%indices_inv|Hi].
  - rewrite (spec_commit_entry l d k a), (spec_commit_entry l' d k a); [done..|by rewrite <- Hp|done|done].
  - rewrite !spec_commit_other; [done|by rewrite <- (indices_perm _ _ Hp)|done].
Qed.

(** The order in which the entries are walked does not matter.  [Commit] walks an
    [unordered_map]; for entries with different places on disk two nodes that walk them in
    different orders compute the same root hash and store the same accounts, assets and
    metadata. *)
Theorem commit_order_irrelevant tree d l l' puts :
  stored tree d → block_ok (l, puts) → l ≡ₚ l' →
  ∃ t1 n1 t2 n2 h, close_tree l puts tree = Ok (t1, n1, h) ∧ close_tree l' puts tree = Ok (t2, n2, h) ∧
    stored t1 (spec_commit d l) ∧ stored t2 (spec_commit d l') ∧
    ∀ i, at_index (spec_commit d l) i = at_index (spec_commit d l') i.
Proof.
  intros Hst [H1 H2 H3 H4] Hp. cbn [fst snd] in *.
  assert (∀ i, at_index (spec_commit d l) i = at_index (spec_commit d l') i) as Hi by (intros i; by apply spec_commit_perm).
  assert (d_accounts (spec_commit d l) = d_accounts (spec_commit d l')) as Ea.
  { apply map_eq. intros i. specialize (Hi i). unfold at_index in Hi. congruence. }
  destruct (close_tree_spec SerializeAsString ParseFromString Crypto Hparse tree d l puts) as (t1 & n1 & E1 & S1); [done..|].
  destruct (close_tree_spec SerializeAsString ParseFromString Crypto Hparse tree d l' puts) as (t2 & n2 & E2 & S2);
    [done|by rewrite <- Hp|by rewrite <- (indices_perm _ _ Hp)|done..|].
  exists t1, n1, t2, n2, (tree_hash (d_accounts (spec_commit d l))). rewrite E1, E2, Ea. split_and!; try done.
Qed.

(** ** Reading back *)

Context (Hkey : ∀ k k', SerAssetKey k = SerAssetKey k' → k = k').

(** The cache of assets is by the key of the asset. *)
Definition cache_ok (a : AccountFrm) : Prop := ∀ k act x, assets_ a !! k = Some (act, x) → asset_key x = k.

(** What the cache says about an asset and a pair, over what was on disk before. *)
Definition asset_after (old : option bytes) (a : AccountFrm) (k : AssetKey) : option bytes :=
  match assets_ a !! k with
  | Some (ADD, x) | Some (MOD, x) => if amount x =? 0 then None else Some (SerAsset x)
  | Some (DEL, _) => None
  | Some (REV, _) | Some (MAX, _) | None => old
  end.

Definition pair_after (old : option bytes) (a : AccountFrm) (k : bytes) : option bytes :=
  match metadata_ a !! k with
  | Some (ADD, x) | Some (MOD, x) => Some (SerKeyPair x)
  | Some (DEL, _) => None
  | Some (REV, _) | Some (MAX, _) | None => old
  end.

(** A fold of steps that each touch one key. *)
Lemma fold_keys {A} (f : gmap bytes bytes → A → gmap bytes bytes) (key : A → bytes) (l : list A) : ∀ m,
  (∀ m x k, key x ≠ k → f m x !! k = m !! k) → NoDup (key <$> l) →
  (∀ k, k ∉ key <$> l → foldl f m l !! k = m !! k) ∧
  (∀ x, x ∈ l → (∀ m m', m !! key x = m' !! key x → f m x !! key x = f m' x !! key x) →
    foldl f m l !! key x = f m x !! key x).
Proof.
  induction l as [|y l IH]; intros m Hf Hnd; [split; [done|by intros x ?%elem_of_nil]|].
  rewrite fmap_cons in Hnd. apply list.NoDup_cons in Hnd as [Hy Hnd]. destruct (IH (f m y) Hf Hnd) as [IH1 IH2]. cbn [foldl]. split.
  - intros k. rewrite fmap_cons, not_elem_of_cons. intros [Hne Hk]. rewrite IH1 by done. by apply Hf.
  - intros x [->|Hin]%elem_of_cons Hx; [by apply IH1|]. rewrite IH2 by done. apply Hx, Hf.
    intros E. apply Hy. rewrite E. by apply list_elem_of_fmap_2.
Qed.

Lemma asset_keys_NoDup a : cache_ok a → NoDup ((λ e, SerAssetKey (asset_key e.2.2)) <$> assets_in_order a).
Proof.
  intros Ha. unfold assets_in_order. rewrite merge_sort_Permutation.
  assert ((λ e : AssetKey * (actType * AssetStore), SerAssetKey (asset_key e.2.2)) <$> map_to_list (assets_ a) =
    (λ e, SerAssetKey e.1) <$> map_to_list (assets_ a)) as ->.
  { apply list_fmap_ext. intros i [k [act x]] Hi. cbn. f_equal. apply (Ha k act x).
    apply elem_of_map_to_list. by eapply list_elem_of_lookup_2. }
  change (NoDup (SerAssetKey ∘ fst <$> map_to_list (assets_ a))). rewrite list_fmap_compose.
  apply (NoDup_fmap_2_strong SerAssetKey); [|apply NoDup_fst_map_to_list]. intros x y _ _. apply Hkey.
Qed.

Lemma new_assets_lookup m a k : cache_ok a →
  new_assets m a !! SerAssetKey k = asset_after (m !! SerAssetKey k) a k.
Proof.
  intros Ha. unfold new_assets, asset_after.
  destruct (fold_keys spec_asset (λ e, SerAssetKey (asset_key e.2.2)) (assets_in_order a) m) as [H1 H2].
  { intros m' [j [act x]] k' Hne. cbn in Hne |- *. destruct act; try case_match; by rewrite ?lookup_insert_ne, ?lookup_delete_ne. }
  { by apply asset_keys_NoDup. }
  destruct (assets_ a !! k) as [[act x]|] eqn:E.
  - assert ((k, (act, x)) ∈ assets_in_order a) as Hin by (unfold assets_in_order; rewrite merge_sort_Permutation; by apply elem_of_map_to_list).
    specialize (H2 _ Hin). cbn in H2. rewrite (Ha _ _ _ E) in H2. rewrite H2.
    + destruct act; try case_match; by rewrite ?lookup_insert_eq, ?lookup_delete_eq.
    + intros m1 m2 Em. destruct act; try case_match; by rewrite ?lookup_insert_eq, ?lookup_delete_eq.
  - apply H1. intros ([j [act x]] & Ek & Hin)%list_elem_of_fmap. cbn in Ek. unfold assets_in_order in Hin.
    rewrite merge_sort_Permutation in Hin. apply elem_of_map_to_list in Hin. rewrite (Ha _ _ _ Hin) in Ek. apply Hkey in Ek. congruence.
Qed.

Lemma new_metas_lookup m a k : new_metas m a !! k = pair_after (m !! k) a k.
Proof.
  unfold new_metas, pair_after.
  destruct (fold_keys spec_metadata fst (metadata_in_order a) m) as [H1 H2].
  { intros m' [j [act x]] k' Hne. cbn in Hne |- *. destruct act; by rewrite ?lookup_insert_ne, ?lookup_delete_ne. }
  { unfold metadata_in_order. rewrite merge_sort_Permutation. apply NoDup_fst_map_to_list. }
  destruct (metadata_ a !! k) as [[act x]|] eqn:E.
  - assert ((k, (act, x)) ∈ metadata_in_order a) as Hin by (unfold metadata_in_order; rewrite merge_sort_Permutation; by apply elem_of_map_to_list).
    specialize (H2 _ Hin). cbn in H2. rewrite H2; [|intros m1 m2 Em]; destruct act; by rewrite ?lookup_insert_eq, ?lookup_delete_eq.
  - apply H1. intros ([j [act x]] & -> & Hin)%list_elem_of_fmap. cbn in E. unfold metadata_in_order in Hin.
    rewrite merge_sort_Permutation in Hin. apply elem_of_map_to_list in Hin. congruence.
Qed.

#[local] Instance kv_store_inst : TrieStorage KVStore := KVTrie SerializeAsString ParseFromString Crypto.

(** Open the trie of a prefix on a content and look up a key: [Storage], after a restart. *)
Definition read (C : gmap bytes bytes) (prefix key : bytes) : res (option bytes) :=
  t ← Init SerializeAsString ParseFromString Crypto (good_db C) [] prefix 1;
  '(_, v) ← Get t key; mret v.

Lemma read_tree_at C p m k : TrieShared.tree_at SerializeAsString ParseFromString Crypto C p m → read C p k = Ok (m !! k).
Proof.
  intros [n Hc]. unfold read. destruct (Init_clean SerializeAsString ParseFromString Crypto Hparse _ m 1 Hc) as (t & E & Ht).
  cbn [store_ mdb_ prefix_] in E. rewrite E. cbn [mbind res_bind].
  destruct (Get_clean SerializeAsString ParseFromString Crypto Hparse t m k Ht) as (t' & E' & _).
  change (kv_inst SerializeAsString ParseFromString Crypto) with kv_store_inst in E'. by rewrite E'.
Qed.

(** What a block wrote is read back.  After the block, and from its database alone, the
    account of every entry reads as the entry with the root hashes of its assets and
    metadata; each of its assets reads as it was cached, a deleted asset or one of amount 0
    as nothing and an asset that was not cached as before, and so for its metadata. *)
Theorem closed_block_read_back tree d l puts k a :
  stored tree d → block_ok (l, puts) → (k, Some a) ∈ l → cache_ok a →
  ∃ tree' n h, close_tree l puts tree = Ok (tree', n, h) ∧
    let C := content (mdb_ (store_ tree')) in let i := DecodeAddress k in
    read C ACCOUNT_PREFIX i = Ok (Some (Serializer (hashed_account d i a))) ∧
    (∀ x, read C (asset_prefix i) (SerAssetKey x) = Ok (asset_after (d_assets d i !! SerAssetKey x) a x)) ∧
    (∀ x, read C (meta_prefix i) x = Ok (pair_after (d_metas d i !! x) a x)).
Proof.
  intros Hst [H1 H2 H3 H4] Hin Hcache. cbn [fst snd] in *.
  destruct (close_tree_spec SerializeAsString ParseFromString Crypto Hparse tree d l puts) as (t & n & E & [S1 S2 S3]); [done..|].
  eexists t, n, _. split; [exact E|]. cbv zeta.
  destruct (proj1 (list.Forall_forall _ _) H1 _ Hin a eq_refl) as [_ Hlen]. cbn in Hlen.
  pose proof (spec_commit_entry l d k a H2 Hin) as Hi. unfold at_index in Hi. cbv zeta in Hi. injection Hi as E1 E2 E3.
  destruct (S3 _ Hlen) as [T1 T2]. split_and!.
  - rewrite (read_tree_at _ _ (d_accounts (spec_commit d l))); [by rewrite E1|].
    rewrite (trie_eta _ _ S2) in S1. by eapply clean_tree_at.
  - intros x. rewrite (read_tree_at _ _ _ _ T1), E2. by rewrite new_assets_lookup.
  - intros x. rewrite (read_tree_at _ _ _ _ T2), E3. by rewrite new_metas_lookup.
Qed.
End store.
