(* ===== verification/LedgerStoreDemo.v ===== *)
(** * Two spellings of one address on disk

    Witnesses for the theorems of [LedgerStore], and a block in which an account pays to
    another spelling of its own address. *)
From stdpp Require Import base gmap list sorting strings numbers countable.
From Stdlib Require Import ZArith Lia.
From S2P Require Import Prelude Location Trie TrieSpec TrieOps TrieHash KVTrie TrieMap TrieRefinement TrieCanon TrieShared SafeInt Strings Hex Base58 AtomMap Account LedgerMsg KeyFormat Environment Operation TransactionFrm Contract LedgerFrm LedgerDemo LedgerCommit LedgerStore.
Local Open Scope Z_scope.

#[global] Instance toy_codec : AccountCodec := {|
  SerAccount a := address a ++ str "/" ++ ToString (balance a) ++ str "/" ++ ToString (nonce a);
  SerAssetKey k := bits (encode k); SerAsset x := ToString (amount x); SerKeyPair x := Account.value x |}.

Local Abbreviation toy_close := (close_tree toy_serialize toy_parse (λ x, x)).
Local Abbreviation toy_read := (read toy_serialize toy_parse (λ x, x)).

(** ** A payment to another spelling *)

(** The address of a key, and another spelling of it. *)
Definition one_address : bytes := GetEncAddress toy_hash toy_hash toy_key.
Definition other_spelling : bytes := str "bQ0" ++ drop 3 one_address.

Definition alias_host : LedgerHost := {|
  IsAddressValid := address_valid toy_hash toy_hash; pub_address k := Some k; LedgerMsg.Verify _ _ _ := true;
  raw_address k := k; LedgerMsg.Crypto s := s; SerializeTx tx := tx_source_address tx; ByteSize _ := 200;
  V8_SourceCodeCheck _ := ERRCODE_SUCCESS; v8 := no_script; v8_query := no_script; clock _ := 1000 |}.

Definition alias_account : Account := (demo_account one_address [] 100000).2.
Definition alias_ledger : Globals := demo_ledger [demo_account one_address [] 100000].
Definition alias_block : ConsensusValue := demo_block [demo_pay one_address 1 other_spelling 500].

(** The entries that the block leaves in its environment. *)
Definition alias_entries : list (bytes * option AccountFrm) :=
  match @ApplyCheck alias_host alias_ledger 7 alias_block ctx0 with
  | Ok (c, (e, _, true)) => map_to_list (committed c e) | _ => [] end.

(** The database with the account, the block on it, and the account afterwards. *)
Definition account_after (entries : list (bytes * option AccountFrm)) : res (option bytes) :=
  tree ← Init toy_serialize toy_parse (λ x, x) (good_db ∅) [] ACCOUNT_PREFIX 4;
  '(tree, _, _) ← toy_close [(one_address, Some (new_AccountFrm alias_account))] [] tree;
  '(tree, _, _) ← toy_close entries [] tree;
  toy_read (content (mdb_ (store_ tree))) ACCOUNT_PREFIX (DecodeAddress one_address).

(** A payment to another spelling of the own address makes or destroys coins.  A validator
    accepts the payment of 500 coins: the two spellings are different keys of the environment
    and name the same account on disk.  [Commit] writes both entries to the same place, and
    the one that the [unordered_map] yields last stays: the account ends with 500 coins
    less, or with 500 coins more than at first, its fee back and its nonce unchanged. *)
Theorem alias_payment_order_decides :
  alias_entries.*1 ≡ₚ [one_address; other_spelling; str "v"; str "w"] ∧
  account_after alias_entries = Ok (Some (one_address ++ str "/99300/1")) ∧
  account_after (reverse alias_entries) = Ok (Some (one_address ++ str "/100500/0")).
Proof.
  split; [|split; vm_compute; reflexivity].
  apply NoDup_Permutation; [apply (bool_decide_unpack (NoDup alias_entries.*1)); vm_compute; exact I|
    apply (bool_decide_unpack (NoDup [one_address; other_spelling; str "v"; str "w"])); vm_compute; exact I|].
  assert (alias_entries.*1 = [str "w"; str "v"; other_spelling; one_address]) as -> by (vm_compute; reflexivity).
  intros x. rewrite !elem_of_cons. tauto.
Qed.

(** ** Witnesses *)

Definition address1 : bytes := EncodeAddress (replicate 27 Init.Byte.x01).
Definition address2 : bytes := EncodeAddress (replicate 27 Init.Byte.x02).
Definition gold : AssetKey := mkAssetKey address1 (str "gold") 0.

(** Two accounts, the first with an asset and a pair; the sequence number goes with them. *)
Definition account1 : AccountFrm :=
  mkAccountFrm (mkAccount address1 1 no_privilege [] [] [] false 10)
    {[ gold := (ADD, mkAssetStore gold 7 None) ]} {[ str "k" := (ADD, mkKeyPair (str "k") (str "x") 1) ]}.
Definition account2 : AccountFrm := new_AccountFrm (mkAccount address2 0 no_privilege [] [] [] false 20).
Definition two_accounts : list (bytes * option AccountFrm) :=
  [(address1, Some account1); (address2, Some account2); (str "z", None)].
Definition seq_put : list batch_op := [BPut (str "max_seq") (str "2")].

Lemma two_accounts_ok l : l ≡ₚ two_accounts → block_ok (l, seq_put).
Proof.
  intros Hp. split; cbn [fst snd].
  - rewrite Hp. unfold two_accounts. rewrite !list.Forall_cons.
    split; [|split; [|split; [by intros a|constructor]]]; intros a [= <-]; split; vm_compute; reflexivity.
  - rewrite (indices_perm _ _ Hp). apply (bool_decide_unpack (NoDup (indices two_accounts))). vm_compute. exact I.
  - repeat constructor. intros [u E]. discriminate E.
  - intros i. split; repeat constructor; intros [u E]; discriminate E.
Qed.

Lemma closed_blocks_refine_disk_witness :
  ∃ tree tree', Init toy_serialize toy_parse (λ x, x) (good_db ∅) [] ACCOUNT_PREFIX 4 = Ok tree ∧
    close_all toy_serialize toy_parse (λ x, x) [(two_accounts, seq_put); ([], seq_put)] tree =
      Ok (tree', (spec_all toy_serialize toy_parse (λ x, x) empty_disk [(two_accounts, seq_put); ([], seq_put)]).2).
Proof.
  destruct (stored_empty toy_serialize toy_parse (λ x, x) toy_parse_serialize) as (tree & E & Hst).
  destruct (closed_blocks_refine_disk toy_serialize toy_parse (λ x, x) toy_parse_serialize [(two_accounts, seq_put); ([], seq_put)]
    tree empty_disk Hst) as (tree' & E' & _).
  - constructor; [apply two_accounts_ok; reflexivity|]. constructor; [|constructor].
    split; cbn [fst snd]; try apply two_accounts_ok with (l := two_accounts); try constructor; reflexivity.
  - exists tree, tree'. split; [exact E|exact E'].
Defined.

Lemma commit_order_irrelevant_witness :
  ∃ tree t1 n1 t2 n2 h, stored toy_serialize toy_parse (λ x, x) tree empty_disk ∧
    toy_close two_accounts seq_put tree = Ok (t1, n1, h) ∧ toy_close (reverse two_accounts) seq_put tree = Ok (t2, n2, h).
Proof.
  destruct (stored_empty toy_serialize toy_parse (λ x, x) toy_parse_serialize) as (tree & _ & Hst).
  destruct (commit_order_irrelevant toy_serialize toy_parse (λ x, x) toy_parse_serialize tree empty_disk two_accounts
    (reverse two_accounts) seq_put Hst) as (t1 & n1 & t2 & n2 & h & E1 & E2 & _).
  - apply two_accounts_ok. reflexivity.
  - symmetry. apply reverse_Permutation.
  - exists tree, t1, n1, t2, n2, h. split; [exact Hst|]. split; [exact E1|exact E2].
Defined.

Lemma toy_key_inj k k' : SerAssetKey k = SerAssetKey k' → k = k'.
Proof. intros E. apply (inj encode). apply (f_equal unbits) in E. cbn in E. by rewrite !unbits_bits in E. Qed.

Lemma closed_block_read_back_witness :
  ∃ tree tree' n h, toy_close two_accounts seq_put tree = Ok (tree', n, h) ∧
    toy_read (content (mdb_ (store_ tree'))) (asset_prefix (DecodeAddress address1)) (SerAssetKey gold) = Ok (Some (str "7")).
Proof.
  destruct (stored_empty toy_serialize toy_parse (λ x, x) toy_parse_serialize) as (tree & _ & Hst).
  destruct (closed_block_read_back toy_serialize toy_parse (λ x, x) toy_parse_serialize toy_key_inj tree empty_disk two_accounts
    seq_put address1 account1 Hst) as (tree' & n & h & E & _ & Ha & _).
  - apply two_accounts_ok. reflexivity.
  - left.
  - intros k act x. unfold account1. cbn [assets_]. rewrite lookup_singleton_Some. intros [<- [= _ <-]]. reflexivity.
  - exists tree, tree', n, h. split; [exact E|]. rewrite Ha. vm_compute. reflexivity.
Defined.
