(* ===== verification/ChainMsg.v ===== *)
(** * Ledger headers, consensus values and what is stored of them

    The messages of chain.proto, consensus.proto and overlay.proto that [LedgerManager] and
    [GlueManager] handle, the keys of the two databases, and the libraries those classes
    call: protobuf ([ChainCodec]) and jsoncpp ([JsonAccess]). *)
From stdpp Require Import base gmap list sorting strings.
From Stdlib Require Import ZArith Lia.
From S2P Require Import Prelude KVTrie SafeInt Strings Hex Base58 AtomMap Account LedgerMsg LedgerFrm LedgerCommit.
Local Open Scope Z_scope.

(** ** Messages *)

Record LedgerHeader := mkHeader {
  h_seq : Z; h_hash : bytes; h_previous_hash : bytes; h_account_tree_hash : bytes; h_close_time : Z;
  h_consensus_value_hash : bytes; h_version : Z; h_tx_count : Z; h_validators_hash : bytes;
  h_fees_hash : bytes; h_reserve : bytes; h_chain_id : Z }.

Definition set_hash (x : bytes) (h : LedgerHeader) : LedgerHeader :=
  mkHeader (h_seq h) x (h_previous_hash h) (h_account_tree_hash h) (h_close_time h)
    (h_consensus_value_hash h) (h_version h) (h_tx_count h) (h_validators_hash h)
    (h_fees_hash h) (h_reserve h) (h_chain_id h).

Record LedgerUpgrade := mkUpgrade { new_ledger_version : Z; new_validator : bytes; up_chain_id : Z }.

(** [ValidatorSet]: address and pledged amount. *)
Definition ValidatorSet : Type := list (bytes * Z).

Record FeeConfig := mkFees { f_gas_price : Z; f_base_reserve : Z }.

(** [protocol::ConsensusValue]: what execution reads ([ConsensusValue]), and the rest. *)
Record Value := mkValue {
  body : ConsensusValue; previous_proof : bytes; previous_ledger_hash : bytes;
  ledger_upgrade : option LedgerUpgrade }.

Definition v_seq (v : Value) : Z := value_ledger_seq (body v).
Definition v_close_time (v : Value) : Z := value_close_time (body v).
Definition v_txs (v : Value) : list TransactionEnv := value_txs (body v).

Record GetLedgers := mkGetLedgers { gl_begin : Z; gl_end : Z; gl_timestamp : Z; gl_chain_id : Z }.

Record Ledgers := mkLedgers { l_values : list Value; l_max_seq : Z; l_proof : bytes; l_chain_id : Z }.

(** [TransactionEnvStore] as it goes to the database; the text of the error is left out. *)
Record StoredTx := mkStoredTx {
  s_env : TransactionEnv; s_error_code : ERRORCODE; s_ledger_seq : Z; s_close_time : Z;
  s_hash : bytes; s_actual_fee : Z; s_contract_tx_hashes : list bytes }.

(** ** Libraries *)

(** Protobuf.  The result of parsing a header is not looked at by the callers, so a text that
    is no header reads as some header. *)
Class ChainCodec := {
  SerHeader : LedgerHeader → bytes; ParseHeader : bytes → LedgerHeader;
  SerLedger : LedgerHeader → list TransactionEnv → bytes;
  SerValue : Value → bytes; ParseValue : bytes → option Value;
  SerValidators : ValidatorSet → bytes; ParseValidators : bytes → option ValidatorSet;
  SerFees : FeeConfig → bytes; ParseFees : bytes → option FeeConfig;
  (* nor is the result of parsing a list of hashes *)
  SerEntries : list bytes → bytes; ParseEntries : bytes → list bytes;
  SerStoredTx : StoredTx → bytes;
  (* [Json::Value] with the member [account_count], as text *)
  StatText : Z → bytes; TextStat : bytes → Z }.

(** What is written is read back; a ledger is only hashed, and its text has one meaning. *)
Class ChainCodecLaws `{ChainCodec} := {
  ledger_inj h envs h' envs' : SerLedger h envs = SerLedger h' envs' → h = h';
  header_back h : ParseHeader (SerHeader h) = h;
  value_back v : ParseValue (SerValue v) = Some v;
  validators_back l : ParseValidators (SerValidators l) = Some l;
  fees_back f : ParseFees (SerFees f) = Some f;
  stat_back n : TextStat (StatText n) = n }.

(** jsoncpp: [asInt64], [asString], [size] and [operator[](UInt)]. *)
Class JsonAccess := {
  asInt64 : Json → Z; asString : Json → bytes; json_size : Json → nat; json_at : Json → nat → Json }.

(** ** Keys *)

Definition STATISTICS : bytes := str "statistics".
Definition KEY_LEDGER_SEQ : bytes := str "max_seq".
Definition KEY_GENE_ACCOUNT : bytes := str "genesis_account".
Definition LAST_TX_HASHS : bytes := str "last_tx_hashs".
Definition LAST_PROOF : bytes := str "last_proof".
Definition LEDGER_PREFIX : bytes := str "ldg".
Definition TRANSACTION_PREFIX : bytes := str "tx".
Definition LEDGER_TRANSACTION_PREFIX : bytes := str "lgtx".
Definition CONSENSUS_VALUE_PREFIX : bytes := str "cosv".

Definition LAST_TX_HASHS_LIMIT : nat := 100.
Definition LEDGER_VERSION : Z := 1003.
Definition TXSET_LIMIT_SIZE : Z := 16 * (1024 * 1024).
Definition MICRO_UNITS_PER_SEC : Z := 1000000.

(** [ComposePrefix] with an [int64_t]. *)
Definition ComposePrefix64 (prefix : bytes) (value : Z) : bytes := ComposePrefix prefix (ToString value).

Definition validators_key (hash : bytes) : bytes := str "validators-" ++ BinToHexString hash.
Definition fees_key (hash : bytes) : bytes := str "fees-" ++ BinToHexString hash.

(** ** [KeyValueDb] *)

(** [Get]: the status ([1] found, [0] not found, [-1] error) and the value. *)
Definition db_Get (db : KeyValueDb) (key : bytes) : Z * bytes :=
  if read_error db key then (-1, [])
  else match content db !! key with Some v => (1, v) | None => (0, []) end.

(** [WriteBatch] and [Put]; [None]: [false] is returned. *)
Definition db_WriteBatch (db : KeyValueDb) (b : list batch_op) : option KeyValueDb :=
  if write_ok db then Some (mkDb (apply_batch b (content db)) (read_error db) (write_ok db)) else None.

Definition db_Put (db : KeyValueDb) (key value : bytes) : option KeyValueDb := db_WriteBatch db [BPut key value].
