(* ===== verification/Chain.v ===== *)
(** * The chain of blocks (ledger_manager.cpp, glue_manager.cpp, environment.cpp,
      ledger_frm.cpp, ledgercontext_manager.cpp)

    [LedgerManager]: the last closed ledger, the validators and fees, the tree of accounts
    with its database, the database of ledgers and the state of the synchronisation with
    other nodes.  Values come from the consensus ([OnConsent]) and from peers
    ([OnReceiveLedgers]); [CloseLedger] checks a value and its proof ([CheckValueAndProof] of
    [GlueManager]), has it executed ([SyncProcess] of [LedgerContextManager]), and writes the
    two databases.  Locks are left out: the handlers run one at a time.

    The execution of a block, [LedgerContext::Do], is a parameter here: the three executions
    [ApplyPropose], [ApplyCheck] and [ApplyFollow] are in [LedgerFrm]. *)
From stdpp Require Import base gmap list sorting strings.
From Stdlib Require Import ZArith Lia.
From S2P Require Import Prelude Location Trie KVTrie SafeInt Strings Hex Base58 AtomMap Account LedgerMsg Environment LedgerFrm LedgerCommit ChainMsg.
Local Open Scope Z_scope.

(** ** State *)

(** What a closing [LedgerFrm] holds after execution: the accounts of its environment in the
    order in which they are walked, its settings, the transactions of its ledger, and the
    transactions that were applied. *)
Record Closing := mkClosing {
  cl_entries : list (bytes * option AccountFrm); cl_validators : option Json; cl_fees : option Json;
  cl_envs : list TransactionEnv; cl_apply_tx_frms : list TransactionFrm }.

Inductive APPLY_MODE := APPLY_MODE_PROPOSE | APPLY_MODE_CHECK | APPLY_MODE_FOLLOW.

(** [ProposeTxsResult]. *)
Record ProposeTxsResult := mkProposeResult {
  block_timeout_ : bool; exec_result_ : bool; tx_execute_count_ : Z;
  cons_validation_ : ConsensusValueValidation; need_dropped : list Z }.

Definition new_ProposeTxsResult : ProposeTxsResult := mkProposeResult false false 0 (mkValidation [] []) [].

(** What [LedgerContext::Do] leaves: the closing ledger, [propose_result_], and how far the
    clock was read. *)
Record Execution := mkExecution {
  ex_closing : Closing; propose_result_ : ProposeTxsResult; ex_tick : nat }.

(** A [LedgerContext] in [completed_ctxs_]. *)
Record LedgerContext := mkContext { ctx_seq : Z; ctx_execution : Execution }.

Record SyncStat := mkSyncStat { send_time_ : Z; gl_ : GetLedgers; probation_ : Z }.

Record Sync := mkSync { update_time_ : Z; peers_ : gmap Z SyncStat }.

(** [tree_] includes the database of accounts and the write batch; of the last closed ledger
    only the header is used. *)
Record LedgerManager := mkManager {
  ledger_db : KeyValueDb; tree_ : Trie KVStore;
  last_closed_ledger_ : LedgerHeader; lcl_header_ : LedgerHeader;
  validators_ : ValidatorSet; fees_ : FeeConfig; proof_ : bytes; account_count : Z;
  self_chain : Z; completed_ctxs_ : gmap bytes LedgerContext;
  sync_ : Sync; chain_max_ledger_probaly_ : Z; ticks : nat }.

(** The configuration that the two managers read. *)
Record Configure := mkConfigure {
  close_interval_ : Z; hardfork_points_ : gset bytes;
  genesis_account_ : bytes; genesis_validators_ : list bytes; genesis_chain_id_ : Z;
  genesis_slogan_ : bytes; genesis_fees_ : FeeConfig }.

(** What the handlers hand over: work posted to the io service, and messages to peers. *)
Inductive effect :=
  | UpdateValidators (validators : ValidatorSet) (proof : bytes)
  | LedgerHasUpgrade
  | SendRequest (peer : Z) (gl : GetLedgers)
  | SendLedgers (peer : Z) (ledgers : Ledgers).

Definition account_db (m : LedgerManager) : KeyValueDb := mdb_ (store_ (tree_ m)).

Definition set_ticks (t : nat) (m : LedgerManager) : LedgerManager :=
  mkManager (ledger_db m) (tree_ m) (last_closed_ledger_ m) (lcl_header_ m) (validators_ m) (fees_ m)
    (proof_ m) (account_count m) (self_chain m) (completed_ctxs_ m) (sync_ m) (chain_max_ledger_probaly_ m) t.
Definition set_completed (c : gmap bytes LedgerContext) (m : LedgerManager) : LedgerManager :=
  mkManager (ledger_db m) (tree_ m) (last_closed_ledger_ m) (lcl_header_ m) (validators_ m) (fees_ m)
    (proof_ m) (account_count m) (self_chain m) c (sync_ m) (chain_max_ledger_probaly_ m) (ticks m).
Definition set_sync (s : Sync) (m : LedgerManager) : LedgerManager :=
  mkManager (ledger_db m) (tree_ m) (last_closed_ledger_ m) (lcl_header_ m) (validators_ m) (fees_ m)
    (proof_ m) (account_count m) (self_chain m) (completed_ctxs_ m) s (chain_max_ledger_probaly_ m) (ticks m).
Definition set_chain_max (z : Z) (m : LedgerManager) : LedgerManager :=
  mkManager (ledger_db m) (tree_ m) (last_closed_ledger_ m) (lcl_header_ m) (validators_ m) (fees_ m)
    (proof_ m) (account_count m) (self_chain m) (completed_ctxs_ m) (sync_ m) z (ticks m).

Definition GetLastClosedLedger (m : LedgerManager) : LedgerHeader := lcl_header_ m.

(** ** Votes of the environment *)

Section votes.
Context {JA : JsonAccess}.

Definition i32 (z : Z) : Z := (z + 2 ^ 31) `mod` 2 ^ 32 - 2 ^ 31.
Definition Stoi (s : bytes) : Z := i32 (Stoi64 s).

Definition FeeConfig_Type_GAS_PRICE : Z := 1.
Definition FeeConfig_Type_BASE_RESERVE : Z := 2.

(** One member of the object of fees: whether a fee changed, and the fees. *)
Definition vote_fee (acc : bool * FeeConfig) (member : bytes * Json) : bool * FeeConfig :=
  let '(change, new_fee) := acc in
  let fee_type := Stoi member.1 in
  let price := asInt64 member.2 in
  if fee_type =? FeeConfig_Type_GAS_PRICE then
    if f_gas_price new_fee =? price then acc else (true, mkFees price (f_base_reserve new_fee))
  else if fee_type =? FeeConfig_Type_BASE_RESERVE then
    if f_base_reserve new_fee =? price then acc else (true, mkFees (f_gas_price new_fee) price)
  else acc.

Definition GetVotedFee (old_fee : FeeConfig) (fees : option Json) : bool * FeeConfig :=
  match fees with
  | None => (false, old_fee)
  | Some fees => foldl vote_fee (false, old_fee) (merge_sort (entry_leb fst) (json_members fees))
  end.

Definition voted_validator (validators : Json) (i : nat) : bytes * Z :=
  (asString (json_at (json_at validators i) 0), Stoi64 (asString (json_at (json_at validators i) 1))).

Definition GetVotedValidators (old_validator : ValidatorSet) (validators : option Json) : bool * ValidatorSet :=
  match validators with
  | None => (false, old_validator)
  | Some validators => (true, voted_validator validators <$> seq 0 (json_size validators))
  end.
End votes.

Section chain.
Context {LH : LedgerHost} {CC : ChainCodec} {AC : AccountCodec} {JA : JsonAccess}.
(** The encoding of the nodes of tries. *)
Context (SerializeAsString : Node → bytes) (ParseFromString : bytes → Node).
(** [CheckProof] of the consensus, the configuration, and execution. *)
Context (CheckProof : ValidatorSet → bytes → bytes → bool) (cfg : Configure).
Context (Do : APPLY_MODE → LedgerManager → Value → res Execution).

#[local] Instance kv_chain : TrieStorage KVStore := KVTrie SerializeAsString ParseFromString Crypto.

(** ** Reading the databases *)

Definition LoadFromDb (db : KeyValueDb) (ledger_seq : Z) : option LedgerHeader :=
  let '(ret, ledger_header) := db_Get db (ComposePrefix64 LEDGER_PREFIX ledger_seq) in
  if 0 <? ret then Some (ParseHeader ledger_header) else None.

(** [if (!db->Get(key, str)) return false]: an error of the database counts as found. *)
Definition ValidatorsGet (db : KeyValueDb) (hash : bytes) : option ValidatorSet :=
  let '(ret, s) := db_Get db (validators_key hash) in
  if ret =? 0 then None else ParseValidators s.

Definition FeesConfigGet (db : KeyValueDb) (hash : bytes) : option FeeConfig :=
  let '(ret, s) := db_Get db (fees_key hash) in
  if ret =? 0 then None else ParseFees s.

Definition ValidatorsSet (validators : ValidatorSet) : batch_op :=
  BPut (validators_key (Crypto (SerValidators validators))) (SerValidators validators).

Definition FeesConfigSet (fee : FeeConfig) : batch_op :=
  BPut (fees_key (Crypto (SerFees fee))) (SerFees fee).

Definition GetValidators (m : LedgerManager) (seq : Z) : option ValidatorSet :=
  frm ← LoadFromDb (ledger_db m) seq;
  ValidatorsGet (account_db m) (h_validators_hash frm).

Definition ConsensusValueFromDB (db : KeyValueDb) (seq : Z) : option Value :=
  let '(ret, str_cons) := db_Get db (ComposePrefix64 CONSENSUS_VALUE_PREFIX seq) in
  if ret <=? 0 then None else ParseValue str_cons.

Definition GetMaxLedger (db : KeyValueDb) : res Z :=
  let '(ret, str_value) := db_Get db KEY_LEDGER_SEQ in
  if ret <? 0 then Err ProcessExit
  else if ret =? 0 then mret 0
  else mret (Stoi64 str_value).

(** ** The checks of [GlueManager] *)

(** [now = -1]: the time is not checked.  [true] is [CHECK_VALUE_VALID]. *)
Definition CheckValueHelper (m : LedgerManager) (consensus_value : Value) (now : Z) : bool :=
  let lcl := GetLastClosedLedger m in
  if TXSET_LIMIT_SIZE + 2 * (1024 * 1024) <=? size (SerValue consensus_value) then false
  else if negb (v_seq consensus_value =? i64 (h_seq lcl + 1)) then false
  else if negb (bool_decide (previous_ledger_hash consensus_value = h_hash lcl)) then false
  else if negb (now =? -1) && negb ((i64 (v_close_time consensus_value - MICRO_UNITS_PER_SEC) <? now) &&
            (i64 (h_close_time lcl + close_interval_ cfg) <=? v_close_time consensus_value)) then false
  else if match ledger_upgrade consensus_value with
          | None => false
          | Some upgrade =>
              (negb (new_ledger_version upgrade =? 0) &&
                 ((new_ledger_version upgrade <=? h_version lcl) || (LEDGER_VERSION <? new_ledger_version upgrade)))
              || (bool_decide (Crypto (SerValue consensus_value) ∉ hardfork_points_ cfg) &&
                  bool_decide (new_validator upgrade ≠ []))
          end then false
  else if (h_seq lcl =? 1) && negb (bool_decide (previous_proof consensus_value = [])) then false
  else if 1 <? h_seq lcl then
    match GetValidators m (i64 (v_seq consensus_value - 2)) with
    | None => false
    | Some set =>
        bool_decide (h_consensus_value_hash lcl ∈ hardfork_points_ cfg) ||
        CheckProof set (h_consensus_value_hash lcl) (previous_proof consensus_value)
    end
  else true.

Definition CheckValueAndProof (m : LedgerManager) (consensus_value proof : bytes) : bool :=
  match ParseValue consensus_value with
  | None => false
  | Some proto_value =>
      match GetValidators m (i64 (v_seq proto_value - 1)) with
      | None => false
      | Some set =>
          CheckValueHelper m proto_value (-1) &&
          (CheckProof set (Crypto consensus_value) proof ||
           bool_decide (Crypto consensus_value ∈ hardfork_points_ cfg))
      end
  end.

(** ** Execution and its cache ([LedgerContextManager]) *)

(** [-1] not found, [1] found and successful, [0] found and failed. *)
Definition CheckComplete (m : LedgerManager) (chash : bytes) : Z :=
  match completed_ctxs_ m !! chash with
  | Some c => if exec_result_ (propose_result_ (ctx_execution c)) then 1 else 0
  | None => -1
  end.

Definition SyncProcess (m : LedgerManager) (consensus_value : Value) : res (LedgerManager * option Closing) :=
  match completed_ctxs_ m !! Crypto (SerValue consensus_value) with
  | Some c => mret (m, Some (ex_closing (ctx_execution c)))
  | None =>
      ex ← Do APPLY_MODE_FOLLOW m consensus_value;
      mret (set_ticks (ex_tick ex) m,
        if exec_result_ (propose_result_ ex) then Some (ex_closing ex) else None)
  end.

(** [std::map::insert] does not replace. *)
Definition MoveRunningToComplete (m : LedgerManager) (chash : bytes) (c : LedgerContext) : LedgerManager :=
  match completed_ctxs_ m !! chash with
  | Some _ => m
  | None => set_completed (<[chash := c]> (completed_ctxs_ m)) m
  end.

Definition RemoveCompleted (m : LedgerManager) (ledger_seq : Z) : LedgerManager :=
  set_completed (filter (λ kc, ¬ ctx_seq kc.2 ≤ ledger_seq) (completed_ctxs_ m)) m.

(** ** Writing the ledger ([LedgerFrm::AddToDb]) *)

(** The fee that is recorded of an applied transaction. *)
Definition stored_fee (t : TransactionFrm) : res Z :=
  let tx := transaction (transaction_env_ t) in
  if decide (rcode (result_ t) ≠ ERRCODE_SUCCESS) then mret (fee_limit tx)
  else f ← SafeIntMul (actual_gas_ t) (gas_price tx); mret (default 0 f).

(** The transactions that contracts made in an applied one: the writes and the hashes. *)
Definition instruction_writes (h : LedgerHeader) (l : list TransactionEnvStore) : list batch_op * list bytes :=
  foldl (λ acc env_sto,
    let hash := Crypto (SerializeTx (transaction (store_env env_sto))) in
    (acc.1 ++ [BPut (ComposePrefix TRANSACTION_PREFIX hash)
       (SerStoredTx (mkStoredTx (store_env env_sto) (error_code env_sto) (h_seq h) (h_close_time h) hash 0 []))],
     acc.2 ++ [hash])) ([], []) l.

(** The writes of one applied transaction and its entries in the list of hashes. *)
Definition tx_writes (h : LedgerHeader) (t : TransactionFrm) : res (list batch_op * list bytes) :=
  fee ← stored_fee t;
  let '(writes, hashes) :=
    if decide (rcode (result_ t) = ERRCODE_SUCCESS) then instruction_writes h (instructions_ t) else ([], []) in
  let env_store := mkStoredTx (transaction_env_ t) (rcode (result_ t)) (h_seq h) (h_close_time h) [] fee hashes in
  mret (writes ++ [BPut (ComposePrefix TRANSACTION_PREFIX (hash_ t)) (SerStoredTx env_store)], hash_ t :: hashes).

Fixpoint txs_writes (h : LedgerHeader) (l : list TransactionFrm) : res (list batch_op * list bytes) :=
  match l with
  | [] => mret ([], [])
  | t :: l =>
      '(w, e) ← tx_writes h t;
      '(ws, es) ← txs_writes h l;
      mret (w ++ ws, e ++ es)
  end.

(** The hashes of the last transactions, the newest first. *)
Definition last_hashes (db : KeyValueDb) (entries : list bytes) : list bytes :=
  if decide (length entries < LAST_TX_HASHS_LIMIT)%nat then
    let '(ncount, str_last_hashs) := db_Get db LAST_TX_HASHS in
    let exist_hashs := if 0 <? ncount then ParseEntries str_last_hashs else [] in
    reverse entries ++ take (LAST_TX_HASHS_LIMIT - length entries) exist_hashs
  else take LAST_TX_HASHS_LIMIT (reverse entries).

Definition ledger_writes (db : KeyValueDb) (h : LedgerHeader) (l : list TransactionFrm) : res (list batch_op) :=
  '(writes, entries) ← txs_writes h l;
  mret ([BPut KEY_LEDGER_SEQ (ToString (h_seq h)); BPut (ComposePrefix64 LEDGER_PREFIX (h_seq h)) (SerHeader h)] ++
    writes ++ [BPut (ComposePrefix64 LEDGER_TRANSACTION_PREFIX (h_seq h)) (SerEntries entries)] ++
    (if decide (entries = []) then [] else [BPut LAST_TX_HASHS (SerEntries (last_hashes db entries))])).

Definition AddToDb (db : KeyValueDb) (batch : list batch_op) (h : LedgerHeader) (l : list TransactionFrm) : res KeyValueDb :=
  writes ← ledger_writes db h l;
  match db_WriteBatch db (batch ++ writes) with Some db => mret db | None => Err ProcessExit end.

(** ** Closing a ledger *)

Abbreviation commit_tree := (commit_tree SerializeAsString ParseFromString Crypto).

(** The new set of validators: the one of a hard fork, or the voted one, or the old one;
    the flag says whether it is stored. *)
Definition next_validators (m : LedgerManager) (consensus_value : Value) (cl : Closing) : bool * ValidatorSet :=
  let new_set :=
    match ledger_upgrade consensus_value with
    | Some u => if 0 <? size (new_validator u) then [(new_validator u, 0)] else []
    | None => []
    end in
  if decide (new_set ≠ []) then (true, new_set) else GetVotedValidators (validators_ m) (cl_validators cl).

Definition next_version (m : LedgerManager) (consensus_value : Value) : Z :=
  match ledger_upgrade consensus_value with
  | Some u => if 0 <? new_ledger_version u then new_ledger_version u else h_version (last_closed_ledger_ m)
  | None => h_version (last_closed_ledger_ m)
  end.

(** The header, with the hash of the ledger in which it is still empty. *)
Definition next_header (m : LedgerManager) (v : Value) (cl : Closing) (root_hash : bytes)
    (new_set : ValidatorSet) (fees : FeeConfig) : LedgerHeader :=
  let h := mkHeader (v_seq v) [] (previous_ledger_hash v) root_hash (v_close_time v) (Crypto (SerValue v))
    (next_version m v) (i64 (h_tx_count (last_closed_ledger_ m) + Z.of_nat (length (cl_envs cl))))
    (Crypto (SerValidators new_set)) (Crypto (SerFees fees)) [] (self_chain m) in
  set_hash (Crypto (SerLedger h (cl_envs cl))) h.

(** [last_closed_ledger_] is set and [NotifyLedgerClose] called: the header is published and
    the executions that are done with are dropped.  The messages to subscribers are left
    out. *)
Definition NotifyLedgerClose (m : LedgerManager) (has_upgrade : bool) : LedgerManager * list effect :=
  let h := last_closed_ledger_ m in
  let m := mkManager (ledger_db m) (tree_ m) h h (validators_ m) (fees_ m) (proof_ m) (account_count m)
    (self_chain m) (completed_ctxs_ m) (sync_ m) (chain_max_ledger_probaly_ m) (ticks m) in
  (RemoveCompleted m (h_seq h),
   UpdateValidators (validators_ m) (proof_ m) :: (if has_upgrade then [LedgerHasUpgrade] else [])).

Definition CloseLedger (m : LedgerManager) (v : Value) (proof : bytes) : res (LedgerManager * bool * list effect) :=
  if negb (CheckValueAndProof m (SerValue v) proof) then mret (m, false, [])
  else
    '(m, closing_ledger) ← SyncProcess m v;
    match closing_ledger with
    | None => mret (m, false, [])
    | Some cl =>
        '(tree, new_count) ← commit_tree (cl_entries cl) (tree_ m);
        let account_count := i64 (account_count m + new_count) in
        let '(vchange, new_set) := next_validators m v cl in
        let validators := if vchange then new_set else validators_ m in
        let '(fchange, new_fees) := GetVotedFee (fees_ m) (cl_fees cl) in
        let fees := if fchange then new_fees else fees_ m in
        let header := next_header m v cl (GetRootHash tree) new_set fees in
        let account_db_puts :=
          [BPut KEY_LEDGER_SEQ (ToString (h_seq header))] ++
          (if vchange then [ValidatorsSet new_set] else []) ++
          (if fchange then [FeesConfigSet new_fees] else []) ++
          [BPut LAST_PROOF proof; BPut STATISTICS (StatText account_count)] in
        ledger_db ← AddToDb (ledger_db m)
          [BPut (ComposePrefix64 CONSENSUS_VALUE_PREFIX (v_seq v)) (SerValue v)] header (cl_apply_tx_frms cl);
        tree ← write_tree account_db_puts tree;
        let '(m, posts) := NotifyLedgerClose
          (mkManager ledger_db tree header (lcl_header_ m) validators fees proof account_count (self_chain m)
             (completed_ctxs_ m) (sync_ m) (chain_max_ledger_probaly_ m) (ticks m))
          (bool_decide (is_Some (ledger_upgrade v))) in
        mret (m, true, posts)
    end.

(** [now] is the time at which the handler runs. *)
Definition OnConsent (m : LedgerManager) (v : Value) (proof : bytes) (now : Z) : res (LedgerManager * Z * list effect) :=
  let lcl_seq := h_seq (last_closed_ledger_ m) in
  if v_seq v <=? lcl_seq then mret (m, 1, [])
  else if i64 (lcl_seq + 1) =? v_seq v then
    '(m, _, posts) ← CloseLedger (set_sync (mkSync now (peers_ (sync_ m))) m) v proof;
    mret (m, 0, posts)
  else mret (m, 0, []).

(** ** Synchronisation *)

Definition new_SyncStat : SyncStat := mkSyncStat 0 (mkGetLedgers 0 0 0 0) 0.

Definition RequestConsensusValues (m : LedgerManager) (pid : Z) (gl : GetLedgers) (time : Z) : LedgerManager * list effect :=
  let peer := default new_SyncStat (peers_ (sync_ m) !! pid) in
  (set_sync (mkSync time (<[pid := mkSyncStat time gl (probation_ peer)]> (peers_ (sync_ m)))) m,
   [SendRequest pid gl]).

(** The loop of [OnTimer] over the active peers: the peers, and those to ask. *)
Definition timer_step (current_time : Z) (acc : gmap Z SyncStat * list Z) (pid : Z) : gmap Z SyncStat * list Z :=
  let '(peers, enable_peers) := acc in
  match peers !! pid with
  | None => (peers, enable_peers ++ [pid])
  | Some st =>
      let st := if 30 * MICRO_UNITS_PER_SEC <? i64 (current_time - send_time_ st)
                then mkSyncStat 0 (gl_ st) (probation_ st) else st in
      (<[pid := st]> peers,
       if (current_time <? probation_ st) || negb (send_time_ st =? 0) then enable_peers else enable_peers ++ [pid])
  end.

Definition request_step (gl : GetLedgers) (time : Z) (acc : LedgerManager * list effect) (pid : Z) : LedgerManager * list effect :=
  let '(m, sent) := RequestConsensusValues acc.1 pid gl time in (m, acc.2 ++ sent).

(** [active_peers] is the set of connected peers, in order. *)
Definition OnTimer (m : LedgerManager) (current_time : Z) (active_peers : list Z) : LedgerManager * list effect :=
  if i64 (current_time - update_time_ (sync_ m)) <=? 30 * MICRO_UNITS_PER_SEC then (m, [])
  else
    let peers := filter (λ p, p.1 ∈ active_peers) (peers_ (sync_ m)) in
    let next_seq := i64 (h_seq (last_closed_ledger_ m) + 1) in
    let gl := mkGetLedgers next_seq next_seq current_time (self_chain m) in
    let '(peers, enable_peers) := foldl (timer_step current_time) (peers, []) active_peers in
    foldl (request_step gl current_time) (set_sync (mkSync current_time peers) m, []) enable_peers.

(** The values [begin], [begin + 1], ...; [None] if one is missing. *)
Fixpoint values_from (db : KeyValueDb) (begin : Z) (n : nat) : option (list Value) :=
  match n with
  | O => Some []
  | S n => v ← ConsensusValueFromDB db begin; l ← values_from db (begin + 1) n; Some (v :: l)
  end.

(** The proof that goes with the last value: the next value carries it. *)
Definition proof_of (m : LedgerManager) (seq : Z) : bytes :=
  if seq =? h_seq (last_closed_ledger_ m) then proof_ m
  else match ConsensusValueFromDB (ledger_db m) (i64 (seq + 1)) with Some next => previous_proof next | None => [] end.

Definition OnRequestLedgers (m : LedgerManager) (message : GetLedgers) (peer_id : Z) : list effect :=
  if negb (gl_chain_id message =? self_chain m) then []
  else
    let b := gl_begin message in let e := gl_end message in
    if 5 <? i64 (i64 (e - b) + 1) then []
    else if i64 (e - b) <? 0 then []
    else if h_seq (last_closed_ledger_ m) <? e then []
    else match values_from (ledger_db m) b (Z.to_nat (e - b + 1)) with
         | None => []
         | Some values =>
             [SendLedgers peer_id (mkLedgers values (h_seq (last_closed_ledger_ m)) (proof_of m e) (self_chain m))]
         end.

(** The loop of [OnReceiveLedgers]: [valid], and whether a value was refused. *)
Fixpoint receive_loop (m : LedgerManager) (values : list Value) (proof : bytes) (valid : bool) (posts : list effect)
    : res (LedgerManager * bool * bool * list effect) :=
  match values with
  | [] => mret (m, valid, false, posts)
  | v :: rest =>
      let p := match rest with w :: _ => previous_proof w | [] => proof end in
      if v_seq v =? i64 (h_seq (last_closed_ledger_ m) + 1) then
        '(m, ok, new_posts) ← CloseLedger m v p;
        if (ok : bool) then receive_loop m rest proof true (posts ++ new_posts)
        else mret (m, false, true, posts ++ new_posts)
      else receive_loop m rest proof valid posts
  end.

Definition set_peer (m : LedgerManager) (pid : Z) (st : SyncStat) : LedgerManager :=
  set_sync (mkSync (update_time_ (sync_ m)) (<[pid := st]> (peers_ (sync_ m)))) m.

Definition PROBATION : Z := 60 * MICRO_UNITS_PER_SEC.

(** The part that holds the lock: [valid]. *)
Definition receive_values (m : LedgerManager) (ledgers : Ledgers) (peer_id now : Z) : res (LedgerManager * bool * list effect) :=
  match head (l_values ledgers), last (l_values ledgers) with
  | Some first, Some last =>
      match peers_ (sync_ m) !! peer_id with
      | None => mret (m, false, [])
      | Some itm =>
          let gl := gl_ itm in
          let gl0 := mkGetLedgers 0 0 (gl_timestamp gl) (gl_chain_id gl) in
          if negb (v_seq first =? gl_begin gl) || negb (v_seq last =? gl_end gl) then
            mret (set_peer m peer_id (mkSyncStat 0 gl0 (i64 (now + PROBATION))), false, [])
          else
            let m := set_peer m peer_id (mkSyncStat 0 gl0 (probation_ itm)) in
            '(m, valid, refused, posts) ← receive_loop m (l_values ledgers) (l_proof ledgers) false [];
            let m := if (refused : bool) then set_peer m peer_id (mkSyncStat 0 gl0 (i64 (now + PROBATION))) else m in
            mret (m, valid, posts)
      end
  | _, _ => mret (m, false, [])
  end.

Definition OnReceiveLedgers (m : LedgerManager) (ledgers : Ledgers) (peer_id now : Z) : res (LedgerManager * list effect) :=
  if negb (l_chain_id ledgers =? self_chain m) then mret (m, [])
  else
    '(m, valid, posts) ← receive_values m ledgers peer_id now;
    if negb valid then mret (m, posts)
    else
      let next := i64 (h_seq (last_closed_ledger_ m) + 1) in
      let '(m, sent) :=
        if next <=? l_max_seq ledgers then
          RequestConsensusValues m peer_id (mkGetLedgers next (Z.min (l_max_seq ledgers) (i64 (next + 4))) now (self_chain m)) now
        else (m, []) in
      mret (if chain_max_ledger_probaly_ m <? l_max_seq ledgers then set_chain_max (l_max_seq ledgers) m else m, posts ++ sent).

(** ** Start *)

(** [os_linux]: the macro [OS_LINUX] is defined, as it is in CMakeLists.txt unless the system
    is another one.  The result is the database of ledgers; [None] is [false]. *)
Definition CheckAndRepairLedgerSeq (os_linux : bool) (ledger_db account_db : KeyValueDb) : option KeyValueDb :=
  if os_linux then Some ledger_db
  else
    let '(ledger_ret, ledger_db_seq) := db_Get ledger_db KEY_LEDGER_SEQ in
    let '(account_ret, account_db_seq) := db_Get account_db KEY_LEDGER_SEQ in
    if (ledger_ret =? 0) && (account_ret =? 0) then Some ledger_db
    else if ledger_ret =? 0 then None
    else if account_ret =? 0 then None
    else if Stoi64 account_db_seq =? Stoi64 ledger_db_seq then Some ledger_db
    else if negb (Stoi64 account_db_seq =? i64 (Stoi64 ledger_db_seq - 1)) then None
    else db_Put ledger_db KEY_LEDGER_SEQ account_db_seq.

(** The accounts of the genesis block; [None]: a validator is the genesis account. *)
Fixpoint genesis_accounts (l : list bytes) (tree : Trie KVStore) : res (option (Trie KVStore)) :=
  match l with
  | [] => mret (Some tree)
  | a :: l =>
      if decide (a = genesis_account_ cfg) then mret None
      else
        let acc_frm := CreatAccountFrm a 0 in
        '(tree, _) ← Set_ tree (DecodeAddress (GetAccountAddress acc_frm)) (Serializer acc_frm);
        genesis_accounts l tree
  end.

Definition genesis_value : Value :=
  mkValue (mkConsensusValue [] 0 0 None) [] [] (Some (mkUpgrade 1000 [] 0)).

Definition genesis_header (root_hash : bytes) (validators : ValidatorSet) : LedgerHeader :=
  let h := mkHeader 1 [] [] root_hash 0 (Crypto (SerValue genesis_value)) 1000 0
    (Crypto (SerValidators validators)) (Crypto (SerFees (genesis_fees_ cfg))) (genesis_slogan_ cfg) (genesis_chain_id_ cfg) in
  set_hash (Crypto (SerLedger h [])) h.

Definition GENESIS_BALANCE : Z := 100000000000000000.

(** The state that [CreateGenesisAccount] leaves: the database of ledgers, the tree with its
    database and batch, the header, the validators and the number of accounts. *)
Definition CreateGenesisAccount (ledger_db : KeyValueDb) (tree : Trie KVStore)
    : res (option (KeyValueDb * Trie KVStore * LedgerHeader * ValidatorSet * Z)) :=
  let acc_frm := CreatAccountFrm (genesis_account_ cfg) GENESIS_BALANCE in
  '(tree, _) ← Set_ tree (DecodeAddress (GetAccountAddress acc_frm)) (Serializer acc_frm);
  o ← genesis_accounts (genesis_validators_ cfg) tree;
  match o with
  | None => mret None
  | Some tree =>
      let validators := (λ a, (a, 0)) <$> genesis_validators_ cfg in
      let account_count := 1 + Z.of_nat (length (genesis_validators_ cfg)) in
      let tree := UpdateHash tree in
      let header := genesis_header (GetRootHash tree) validators in
      ledger_db ← AddToDb ledger_db [] header [];
      let batch := batch_ (store_ tree) ++
        [BPut KEY_LEDGER_SEQ (str "1"); BPut KEY_GENE_ACCOUNT (genesis_account_ cfg);
         ValidatorsSet validators; FeesConfigSet (genesis_fees_ cfg); BPut STATISTICS (StatText account_count)] in
      match db_WriteBatch (mdb_ (store_ tree)) batch with
      | None => Err ProcessExit
      | Some account_db =>
          mret (Some (ledger_db, mkTrie (mkKV account_db (prefix_ (store_ tree)) batch) (root_ tree) (root_hash_ tree),
            header, validators, account_count))
      end
  end.

(** The last closed ledger, read or created: the database of ledgers, the tree, the header,
    and the number of accounts. *)
Definition load_or_create (ledger_db : KeyValueDb) (tree : Trie KVStore) : res (option (KeyValueDb * Trie KVStore * LedgerHeader * Z)) :=
  if (db_Get (mdb_ (store_ tree)) KEY_LEDGER_SEQ).1 =? 0 then
    o ← CreateGenesisAccount ledger_db tree;
    mret ('(ledger_db, tree, header, _, account_count) ← o; Some (ledger_db, tree, header, account_count))
  else
    seq_rational ← GetMaxLedger ledger_db;
    mret (header ← LoadFromDb ledger_db seq_rational; Some (ledger_db, tree, header, 0)).

(** [None]: [false] is returned. *)
Definition Initialize (os_linux : bool) (ledger_db account_db : KeyValueDb) : res (option (LedgerManager * list effect)) :=
  match CheckAndRepairLedgerSeq os_linux ledger_db account_db with
  | None => mret None
  | Some ledger_db =>
      tree ← Init SerializeAsString ParseFromString Crypto account_db [] ACCOUNT_PREFIX 4;
      o ← load_or_create ledger_db tree;
      match o with
      | None => mret None
      | Some (ledger_db, tree, header, account_count) =>
          let account_db := mdb_ (store_ tree) in
          let '(stat_ret, stat) := db_Get account_db STATISTICS in
          let account_count := if stat_ret =? 0 then account_count else TextStat stat in
          let tree := UpdateHash tree in
          match ValidatorsGet account_db (h_validators_hash header), FeesConfigGet account_db (h_fees_hash header) with
          | Some validators, Some fees =>
              let proof := (db_Get account_db LAST_PROOF).2 in
              if decide (h_account_tree_hash header ≠ GetRootHash tree) then mret None
              else if LEDGER_VERSION <? h_version header then Err ProcessExit
              else mret (Some (mkManager ledger_db tree header header validators fees proof account_count
                     (h_chain_id header) ∅ (mkSync 0 ∅) 0 0, [UpdateValidators validators proof]))
          | _, _ => mret None
          end
      end
  end.
End chain.
