(* ===== verification/ChainDb.v ===== *)
(** * What the writes of a block do to the databases

    Lemmas for [ChainInv]: which keys the tries and [AddToDb] write, and what a batch leaves
    under a key. *)
From stdpp Require Import base gmap list sorting strings.
From Stdlib Require Import ZArith Lia.
From S2P Require Import Prelude Location Trie TrieSpec TrieHash KVTrie TrieShared SafeInt Strings Hex Base58 AtomMap Account LedgerMsg Environment LedgerFrm LedgerCommit ChainMsg Chain.
Local Open Scope Z_scope.

(** ** Batches *)

(** No operation of the batch is on the key. *)
Definition avoids (k : bytes) (b : list batch_op) : Prop := Forall (λ o, op_key o ≠ k) b.

Lemma apply_avoids k b : ∀ C, avoids k b → apply_batch b C !! k = C !! k.
Proof.
  induction b as [|o b IH]; intros C Hb; [done|]. apply list.Forall_cons in Hb as [Ho Hb].
  change (apply_batch b (apply_op C o) !! k = C !! k). rewrite (IH _ Hb).
  destruct o; cbn in *; [by rewrite lookup_insert_ne|by rewrite lookup_delete_ne].
Qed.

(** The last write decides. *)
Lemma apply_last k v b b' C : avoids k b' → apply_batch (b ++ BPut k v :: b') C !! k = Some v.
Proof. intros Hb. rewrite apply_batch_app. change (apply_batch b' (<[k := v]> (apply_batch b C)) !! k = Some v). by rewrite apply_avoids, lookup_insert_eq. Qed.

(** Every write on the key writes the same. *)
Definition only (k v : bytes) (b : list batch_op) : Prop := Forall (λ o, op_key o = k → o = BPut k v) b.

Lemma apply_only k v b : ∀ C, only k v b → C !! k = Some v → apply_batch b C !! k = Some v.
Proof.
  induction b as [|o b IH]; intros C Hb HC; [done|]. apply list.Forall_cons in Hb as [Ho Hb].
  change (apply_batch b (apply_op C o) !! k = Some v). apply IH; [done|].
  destruct (decide (op_key o = k)) as [E|Hne]; [rewrite (Ho E); apply lookup_insert_eq|].
  destruct o; cbn in *; [by rewrite lookup_insert_ne|by rewrite lookup_delete_ne].
Qed.

Lemma avoids_only k v b : avoids k b → only k v b.
Proof. intros H. eapply list.Forall_impl; [exact H|]. naive_solver. Qed.

(** Writing a batch twice is writing it once. *)
Lemma apply_found b : ∀ C, (∀ k, avoids k b → apply_batch b C !! k = C !! k) ∧
  (∀ k C', ¬ avoids k b → apply_batch b C !! k = apply_batch b C' !! k).
Proof.
  intros C. split; [intros k; apply apply_avoids|].
  revert C. induction b as [|o b IH]; intros C k C' Hn; [by destruct Hn; constructor|].
  change (apply_batch b (apply_op C o) !! k = apply_batch b (apply_op C' o) !! k).
  destruct (decide (avoids k b)) as [Ha|Ha]; [|by apply IH]. rewrite !apply_avoids by done.
  assert (op_key o = k) as <- by (apply dec_stable; intros Ho; apply Hn; by constructor).
  destruct o; cbn; by rewrite ?lookup_insert_eq, ?lookup_delete_eq.
Qed.

Lemma apply_twice b C : apply_batch b (apply_batch b C) = apply_batch b C.
Proof.
  apply map_eq. intros k. destruct (decide (avoids k b)) as [Ha|Ha]; [by apply apply_avoids|].
  by apply apply_found.
Qed.

(** ** The keys of tries *)

(** A key of a trie: of accounts, assets or metadata. *)
Definition trie_key (k : bytes) : Prop :=
  ACCOUNT_PREFIX `prefix_of` k ∨ str "ast_" `prefix_of` k ∨ str "meta_" `prefix_of` k.

Definition trie_ops (b : list batch_op) : Prop := Forall (λ o, trie_key (op_key o)) b.

Lemma trie_ops_avoid k b : ¬ trie_key k → trie_ops b → avoids k b.
Proof. intros Hk H. eapply list.Forall_impl; [exact H|]. intros o Ho <-. by apply Hk. Qed.

Lemma update_hash_any {S : Type} `{TrieStorage S} (R : S → S → Prop) :
  (∀ s, R s s) → (∀ s1 s2 s3, R s1 s2 → R s2 s3 → R s1 s3) →
  (∀ s l n, R s (StorageSaveNode s l n)) → (∀ s l, R s (StorageDeleteNode s l)) →
  (∀ s l v, R s (StorageSaveLeaf s l v)) → (∀ s l, R s (StorageDeleteLeaf s l)) →
  ∀ n s, R s (update_hash s n).1.1.
Proof.
  intros Hrefl Htrans Hsn Hdn Hsl Hdl. fix IH 1. intros [loc cs info m ld lf] s. cbn [update_hash].
  assert (Hcs : ∀ j c st, cs !! j = Some (Some c) → R st (update_hash st c).1.1).
  { clear - IH. induction cs as [|o cs IHcs]; intros [|j] c st Hj; [discriminate..| |].
    - destruct o as [c0|]; [|discriminate]. injection Hj as <-. apply IH.
    - by apply (IHcs j). }
  assert (H1 : R s (update_leaf s loc info ld lf).1) by (unfold update_leaf; destruct ld, lf; simpl; auto).
  destruct (update_leaf _ _ _ _ _) as [s1 info1].
  pose proof (update_loop_closed R Hrefl Htrans update_hash cs 0 s1 info1 (count_branch info1 16 (0%nat, None)) Hcs) as H2.
  destruct (update_loop _ _ _ _ _ _) as [[[s2 cs2] info2] acc2].
  assert (H3 : R s2 (update_result s2 loc info2 acc2).1)
    by (unfold update_result; destruct acc2; by repeat case_decide; simpl).
  destruct (update_result _ _ _ _) as [s3 r]. simpl in *. eauto.
Qed.

Section commit.
Context {AC : AccountCodec}.
Context (SerializeAsString : Node → bytes) (ParseFromString : bytes → Node) (Crypto : bytes → bytes).
#[local] Instance kv_db : TrieStorage KVStore := KVTrie SerializeAsString ParseFromString Crypto.

Lemma UpdateHash_appends (t : Trie KVStore) : appends (store_ t) (store_ (UpdateHash t)).
Proof.
  unfold UpdateHash. pose proof (update_hash_any appends) as Ha. destruct t as [s n h]. cbn [store_ root_].
  specialize (Ha ltac:(intros s'; split_and!; [done..|]; exists []; rewrite app_nil_r; split; [done|constructor])
    appends_trans ltac:(intros; apply appends_push; cbn; eexists; reflexivity)
    ltac:(intros; apply appends_push; cbn; eexists; reflexivity) ltac:(intros; apply appends_push; cbn; eexists; reflexivity)
    ltac:(intros; apply appends_push; cbn; eexists; reflexivity) n s).
  by destruct (update_hash s n) as [[s' r] c].
Qed.

Lemma asset_loop_store l : ∀ t t', asset_loop SerializeAsString ParseFromString Crypto l t = Ok t' → store_ t' = store_ t.
Proof.
  induction l as [|[k [act d]] l IH]; intros t t' E; cbn [asset_loop] in E; [by injection E as <-|].
  apply bind_Ok_inv in E as (t1 & E1 & E). apply IH in E. rewrite E.
  destruct act; [destruct (amount d =? 0)..| | |]; invert_ok; try done; destruct a as [t2 b]; injection E1 as <-;
    first [by eapply Set_store|by eapply Delete_store].
Qed.

Lemma metadata_loop_store l : ∀ t t', metadata_loop SerializeAsString ParseFromString Crypto l t = Ok t' → store_ t' = store_ t.
Proof.
  induction l as [|[k [act d]] l IH]; intros t t' E; cbn [metadata_loop] in E; [by injection E as <-|].
  apply bind_Ok_inv in E as (t1 & E1 & E). apply IH in E. rewrite E.
  destruct act; invert_ok; try done; destruct a as [t2 b]; injection E1 as <-;
    first [by eapply Set_store|by eapply Delete_store].
Qed.

Lemma Init_store db b p depth t : Init SerializeAsString ParseFromString Crypto db b p depth = Ok t → store_ t = mkKV db p b.
Proof. unfold Init. intros E. by invert_ok. Qed.

(** The store [kv'] has the database and prefix of [kv], and more operations of tries. *)
Definition trie_appends (kv kv' : KVStore) : Prop :=
  mdb_ kv' = mdb_ kv ∧ prefix_ kv' = prefix_ kv ∧ ∃ b, batch_ kv' = batch_ kv ++ b ∧ trie_ops b.

Lemma trie_appends_trans kv1 kv2 kv3 : trie_appends kv1 kv2 → trie_appends kv2 kv3 → trie_appends kv1 kv3.
Proof.
  intros (E1 & E2 & b & E3 & Hb) (E4 & E5 & b' & E6 & Hb'). split_and!; [congruence..|].
  exists (b ++ b'). rewrite E6, E3, app_assoc. split; [done|]. by apply Forall_app.
Qed.

Lemma on_trie_ops p b : (∀ k, p `prefix_of` k → trie_key k) → on p b → trie_ops b.
Proof. intros Hp Hb. eapply list.Forall_impl; [exact Hb|]. intros o. apply Hp. Qed.

Lemma trie_key_asset i k : asset_prefix i `prefix_of` k → trie_key k.
Proof. intros H. right. left. etransitivity; [|exact H]. by exists i. Qed.
Lemma trie_key_meta i k : meta_prefix i `prefix_of` k → trie_key k.
Proof. intros H. right. right. etransitivity; [|exact H]. by exists i. Qed.

Lemma account_appends db b a b' a' :
  AccountFrm_UpdateHash SerializeAsString ParseFromString Crypto db b a = Ok (b', a') → ∃ ba, b' = b ++ ba ∧ trie_ops ba.
Proof.
  unfold AccountFrm_UpdateHash. intros E. apply bind_Ok_inv in E as (ta & Ea & E). apply bind_Ok_inv in E as (tm & Em & E).
  apply bind_Ok_inv in E as (ta1 & Ea1 & E). apply bind_Ok_inv in E as (tm1 & Em1 & E). injection E as <- _.
  apply Init_store in Ea, Em. apply asset_loop_store in Ea1. apply metadata_loop_store in Em1.
  destruct (UpdateHash_appends ta1) as (_ & _ & b1 & E1 & H1). destruct (UpdateHash_appends tm1) as (_ & _ & b2 & E2 & H2).
  change (kv_commit SerializeAsString ParseFromString Crypto) with kv_db in *.
  rewrite E2, Em1. unfold share. cbn [store_ batch_]. rewrite E1, Ea1, Ea. cbn [batch_].
  exists (b1 ++ b2). rewrite app_assoc. split; [done|]. apply Forall_app. split.
  - eapply on_trie_ops; [|exact H1]. rewrite Ea1, Ea. cbn [prefix_]. intros k. apply trie_key_asset.
  - eapply on_trie_ops; [|exact H2]. rewrite Em1. unfold share. cbn [store_ prefix_]. rewrite Em. cbn [prefix_]. intros k. apply trie_key_meta.
Qed.

Lemma Commit_loop_appends entries : ∀ t n c t' n' c',
  Commit_loop SerializeAsString ParseFromString Crypto entries t n c = Ok (t', n', c') → trie_appends (store_ t) (store_ t').
Proof.
  assert (∀ kv, trie_appends kv kv) as Hrefl by (intros kv; split_and!; [done..|]; exists []; rewrite app_nil_r; split; [done|constructor]).
  induction entries as [|[k [a|]] l IH]; intros t n c t' n' c' E; cbn [Commit_loop] in E; [by injection E as <- _ _| |by eapply IH].
  apply bind_Ok_inv in E as ([b a'] & Ea & E). apply bind_Ok_inv in E as ([t1 r] & Es & E).
  assert (trie_appends (store_ t1) (store_ t')) as H by (destruct r; by eapply IH).
  eapply trie_appends_trans; [|exact H]. apply Set_store in Es. rewrite Es. unfold share. cbn [store_].
  apply account_appends in Ea as (ba & -> & Hba). split_and!; [done..|]. by exists ba.
Qed.

(** Committing accounts adds operations on keys of tries, and nothing else. *)
Lemma commit_tree_appends entries t t' n : prefix_ (store_ t) = ACCOUNT_PREFIX →
  LedgerCommit.commit_tree SerializeAsString ParseFromString Crypto entries t = Ok (t', n) → trie_appends (store_ t) (store_ t').
Proof.
  intros Hp E. unfold LedgerCommit.commit_tree in E. apply bind_Ok_inv in E as ([[t1 n1] c1] & E1 & E). injection E as <- <-.
  apply Commit_loop_appends in E1. eapply trie_appends_trans; [exact E1|].
  destruct (UpdateHash_appends t1) as (H1 & H2 & b & H3 & H4). split_and!; [done..|]. exists b. split; [done|].
  eapply on_trie_ops; [|exact H4]. destruct E1 as (_ & -> & _). rewrite Hp. intros k. by left.
Qed.
End commit.

(** ** The keys of ledgers and settings *)

Lemma ToString_inj a b : is_i64 a → is_i64 b → ToString a = ToString b → a = b.
Proof. intros Ha Hb E. by rewrite <- (atoll_ToString a), <- (atoll_ToString b), E. Qed.

Lemma Stoi64_ToString n : is_i64 n → Stoi64 (ToString n) = n.
Proof.
  intros Hn. pose proof (ToString_length n Hn). unfold Stoi64. rewrite decide_False by lia. by apply atoll_ToString.
Qed.

Lemma compose_inj p a b : is_i64 a → is_i64 b → ComposePrefix64 p a = ComposePrefix64 p b → a = b.
Proof. intros Ha Hb E. unfold ComposePrefix64, ComposePrefix in E. rewrite !app_assoc in E. apply app_inv_head in E. by apply ToString_inj. Qed.

Lemma BinToHexString_inj a b : BinToHexString a = BinToHexString b → a = b.
Proof. intros E. apply (f_equal (hex_pairs true)) in E. rewrite !hex_pairs_print in E. by injection E. Qed.

Lemma validators_key_inj a b : validators_key a = validators_key b → a = b.
Proof. intros E. apply app_inv_head in E. by apply BinToHexString_inj. Qed.
Lemma fees_key_inj a b : fees_key a = fees_key b → a = b.
Proof. intros E. apply app_inv_head in E. by apply BinToHexString_inj. Qed.

(** Keys with different beginnings are different. *)
Lemma apart_ne p q k k' : apart p q → p `prefix_of` k → q `prefix_of` k' → k ≠ k'.
Proof. intros Ha Hp Hq ->. exact (Ha _ Hp Hq). Qed.

Ltac key_ne := let E := fresh in intros E; first [discriminate E
  |repeat match type of E with
   | ?a = ?b => unfold ComposePrefix64, ComposePrefix, LEDGER_PREFIX, TRANSACTION_PREFIX, LEDGER_TRANSACTION_PREFIX, CONSENSUS_VALUE_PREFIX,
       KEY_LEDGER_SEQ, LAST_TX_HASHS, LAST_PROOF, STATISTICS, KEY_GENE_ACCOUNT, validators_key, fees_key in E; discriminate E end].

Lemma not_trie_key k : (∀ p, p ∈ [ACCOUNT_PREFIX; str "ast_"; str "meta_"] → ¬ p `prefix_of` k) → ¬ trie_key k.
Proof. intros H [?|[?|?]]; eapply H; eauto; rewrite !elem_of_cons; auto. Qed.

Ltac settings_key := apply not_trie_key; intros ? Hin; rewrite !elem_of_cons, elem_of_nil in Hin;
  destruct Hin as [->|[->|[->|[]]]]; intros [? E]; discriminate E.

Lemma validators_not_trie h : ¬ trie_key (validators_key h).
Proof. settings_key. Qed.
Lemma fees_not_trie h : ¬ trie_key (fees_key h).
Proof. settings_key. Qed.
Lemma seq_not_trie : ¬ trie_key KEY_LEDGER_SEQ.
Proof. settings_key. Qed.
Lemma proof_not_trie : ¬ trie_key LAST_PROOF.
Proof. settings_key. Qed.
Lemma stat_not_trie : ¬ trie_key STATISTICS.
Proof. settings_key. Qed.
Lemma gene_not_trie : ¬ trie_key KEY_GENE_ACCOUNT.
Proof. settings_key. Qed.

#[export] Hint Resolve validators_not_trie fees_not_trie seq_not_trie proof_not_trie stat_not_trie gene_not_trie : ceg.
