(* ===== verification/ChainInv.v ===== *)
(** * The invariant of the chain

    What holds of the two databases and the members of [LedgerManager] after any sequence of
    handlers: the headers of all blocks are stored, each linked to the one before; each value
    was certified by the validators of the block before (or is a configured hard fork); the
    validators, fees, proof and sequence number in memory are the stored ones. *)
From stdpp Require Import base gmap list sorting strings.
From Stdlib Require Import ZArith Lia.
From S2P Require Import Prelude Location Trie TrieSpec TrieHash KVTrie TrieShared SafeInt Strings Hex Base58 AtomMap Account LedgerMsg Environment LedgerFrm LedgerCommit ChainMsg Chain ChainDb.
Local Open Scope Z_scope.

Definition ldg (k : Z) : bytes := ComposePrefix64 LEDGER_PREFIX k.
Definition cosv (k : Z) : bytes := ComposePrefix64 CONSENSUS_VALUE_PREFIX k.

Lemma ldg_cosv a b : ldg a ≠ cosv b.
Proof. done. Qed.

Section inv.
Context {LH : LedgerHost} {CC : ChainCodec} {CL : ChainCodecLaws} {AC : AccountCodec} {JA : JsonAccess}.
Context (SerializeAsString : Node → bytes) (ParseFromString : bytes → Node).
Context (CheckProof : ValidatorSet → bytes → bytes → bool) (cfg : Configure).
Context (Do : APPLY_MODE → LedgerManager → Value → res Execution).

Local Abbreviation CloseLedger := (CloseLedger SerializeAsString ParseFromString CheckProof cfg Do).
Local Abbreviation CheckValueHelper := (CheckValueHelper CheckProof cfg).
Local Abbreviation CheckValueAndProof := (CheckValueAndProof CheckProof cfg).

(** ** The parts of [CheckValueHelper] *)

(** The checks that depend on the last closed ledger and on the validators of the block
    before it only, and the check of the time. *)
Definition helper_on (lcl : LedgerHeader) (set : option ValidatorSet) (v : Value) : bool :=
  (size (SerValue v) <? TXSET_LIMIT_SIZE + 2 * (1024 * 1024)) &&
  (v_seq v =? i64 (h_seq lcl + 1)) &&
  bool_decide (previous_ledger_hash v = h_hash lcl) &&
  match ledger_upgrade v with
  | None => true
  | Some u =>
      ((new_ledger_version u =? 0) || (h_version lcl <? new_ledger_version u) && (new_ledger_version u <=? LEDGER_VERSION)) &&
      (bool_decide (Crypto (SerValue v) ∈ hardfork_points_ cfg) || bool_decide (new_validator u = []))
  end &&
  (negb (h_seq lcl =? 1) || bool_decide (previous_proof v = [])) &&
  (negb (1 <? h_seq lcl) ||
   match set with
   | None => false
   | Some set => bool_decide (h_consensus_value_hash lcl ∈ hardfork_points_ cfg) || CheckProof set (h_consensus_value_hash lcl) (previous_proof v)
   end).

Definition time_on (lcl : LedgerHeader) (v : Value) (now : Z) : bool :=
  (now =? -1) || ((i64 (v_close_time v - MICRO_UNITS_PER_SEC) <? now) && (i64 (h_close_time lcl + close_interval_ cfg) <=? v_close_time v)).

Lemma helper_split m v now : CheckValueHelper m v now =
  helper_on (lcl_header_ m) (GetValidators m (i64 (v_seq v - 2))) v && time_on (lcl_header_ m) v now.
Proof.
  unfold Chain.CheckValueHelper, helper_on, time_on, GetLastClosedLedger. set (lcl := lcl_header_ m).
  rewrite (Z.ltb_antisym _ (size (SerValue v))). destruct (_ <=? size _); [done|]. cbn [negb andb]. destruct (v_seq v =? _); [|done]. cbn [negb andb].
  case_bool_decide; [|done]. cbn [negb andb]. destruct (now =? -1), (_ && (_ <=? v_close_time v)); cbn [negb andb orb];
    rewrite ?andb_true_r, ?andb_false_r; try done.
  all: assert (∀ b1 b2 b3 b4 : bool, (if b1 then false else if b2 then false else if b3 then b4 else true) =
    negb b1 && negb b2 && (negb b3 || b4)) as -> by (by intros [] [] [] []).
  all: f_equal; f_equal; [|by destruct (h_seq lcl =? 1), (bool_decide (previous_proof v = []))].
  all: destruct (ledger_upgrade v) as [u|]; [|done].
  all: rewrite (Z.leb_antisym (h_version lcl)), (Z.ltb_antisym (new_ledger_version u) LEDGER_VERSION).
  all: destruct (new_ledger_version u =? 0), (h_version lcl <? _), (_ <=? LEDGER_VERSION);
    repeat case_bool_decide; first [done|tauto|exfalso; tauto].
Qed.

(** ** The writes of [AddToDb] *)

Lemma instruction_keys h l : Forall (λ o, str "tx_" `prefix_of` op_key o) (instruction_writes h l).1.
Proof.
  unfold instruction_writes. assert (∀ acc : list batch_op * list bytes, Forall (λ o, str "tx_" `prefix_of` op_key o) acc.1 →
    Forall (λ o, str "tx_" `prefix_of` op_key o) (foldl (λ acc env_sto,
    let hash := Crypto (SerializeTx (transaction (store_env env_sto))) in
    (acc.1 ++ [BPut (ComposePrefix TRANSACTION_PREFIX hash)
       (SerStoredTx (mkStoredTx (store_env env_sto) (error_code env_sto) (h_seq h) (h_close_time h) hash 0 []))],
     acc.2 ++ [hash])) acc l).1) as H; [|apply H; constructor].
  induction l as [|i l IH]; intros acc Hacc; [done|]. apply IH. cbn [fst]. apply Forall_app. split; [done|].
  constructor; [|constructor]. eexists. reflexivity.
Qed.

Lemma txs_keys h l : ∀ ws es, txs_writes h l = Ok (ws, es) → Forall (λ o, str "tx_" `prefix_of` op_key o) ws.
Proof.
  induction l as [|t l IH]; intros ws es E; cbn [txs_writes] in E; [injection E as <- _; constructor|].
  apply bind_Ok_inv in E as ([w e] & E1 & E). apply bind_Ok_inv in E as ([ws' es'] & E2 & E). injection E as <- _.
  apply Forall_app. split; [|by eapply IH]. unfold tx_writes in E1. apply bind_Ok_inv in E1 as (fee & _ & E1).
  destruct (if decide (rcode (result_ t) = ERRCODE_SUCCESS) then instruction_writes h (instructions_ t) else ([], [])) as [wi hi] eqn:Ei.
  injection E1 as <- _. apply Forall_app. split.
  - case_decide; [|injection Ei as <- _; constructor]. replace wi with (instruction_writes h (instructions_ t)).1 by (by rewrite Ei).
    apply instruction_keys.
  - constructor; [|constructor]. eexists. reflexivity.
Qed.

(** What [AddToDb] leaves, for the keys of headers and values. *)
Record added (db : KeyValueDb) (batch : list batch_op) (h : LedgerHeader) (db' : KeyValueDb) : Prop := {
  ad_errors : read_error db' = read_error db;
  ad_writes : write_ok db' = true;
  ad_seq : content db' !! KEY_LEDGER_SEQ = Some (ToString (h_seq h));
  ad_header : content db' !! ldg (h_seq h) = Some (SerHeader h);
  ad_headers k : is_i64 k → is_i64 (h_seq h) → k ≠ h_seq h → content db' !! ldg k = apply_batch batch (content db) !! ldg k;
  ad_values k : content db' !! cosv k = apply_batch batch (content db) !! cosv k }.

Lemma AddToDb_added db batch h l db' : AddToDb db batch h l = Ok db' → added db batch h db'.
Proof.
  unfold AddToDb. intros E. apply bind_Ok_inv in E as (ws & E1 & E). unfold db_WriteBatch in E.
  destruct (write_ok db) eqn:Hw; [|done]. injection E as <-. unfold ledger_writes in E1.
  apply bind_Ok_inv in E1 as ([tw te] & E1 & E). injection E as <-. apply txs_keys in E1.
  set (tail := if decide (te = []) then [] else [BPut LAST_TX_HASHS (SerEntries (last_hashes db te))]).
  assert (∀ k, ¬ str "tx_" `prefix_of` k → avoids k tw) as Htw.
  { intros k Hk. eapply list.Forall_impl; [exact E1|]. intros o Ho <-. exact (Hk Ho). }
  assert (∀ k, ¬ str "tx_" `prefix_of` k → k ≠ ComposePrefix64 LEDGER_TRANSACTION_PREFIX (h_seq h) → k ≠ LAST_TX_HASHS →
    avoids k (tw ++ [BPut (ComposePrefix64 LEDGER_TRANSACTION_PREFIX (h_seq h)) (SerEntries te)] ++ tail)) as Hrest.
  { intros k H1 H2 H3. apply Forall_app. split; [by apply Htw|]. apply Forall_app. split; [by repeat constructor; apply not_eq_sym|].
    unfold tail. case_decide; repeat constructor. by apply not_eq_sym. }
  assert (∀ k, ¬ str "tx_" `prefix_of` ldg k) as Hl by (by intros k [? E]).
  assert (∀ k, ¬ str "tx_" `prefix_of` cosv k) as Hc by (by intros k [? E]).
  split; cbn [read_error write_ok content]; try done.
  - apply apply_last. constructor; [done|]. apply Hrest; [by intros [? E]|done..].
  - pose proof (apply_last (ldg (h_seq h)) (SerHeader h) (batch ++ [BPut KEY_LEDGER_SEQ (ToString (h_seq h))]) _
      (content db) (Hrest (ldg (h_seq h)) (Hl _) ltac:(done) ltac:(done))) as Hx. rewrite <- app_assoc in Hx. exact Hx.
  - intros k Hk Hs Hne. rewrite apply_batch_app. apply apply_avoids. constructor; [done|]. constructor; [|by apply Hrest].
    intros E. apply compose_inj in E; done.
  - intros k. rewrite apply_batch_app. apply apply_avoids. constructor; [done|]. constructor; [done|]. by apply Hrest.
Qed.

(** ** A successful [CloseLedger] *)

(** The settings it writes to the database of accounts. *)
Definition account_puts (m : LedgerManager) (v : Value) (cl : Closing) (proof : bytes) (count : Z) : list batch_op :=
  let '(vchange, new_set) := next_validators m v cl in
  let '(fchange, new_fees) := GetVotedFee (fees_ m) (cl_fees cl) in
  [BPut KEY_LEDGER_SEQ (ToString (v_seq v))] ++
  (if vchange then [ValidatorsSet new_set] else []) ++ (if fchange then [FeesConfigSet new_fees] else []) ++
  [BPut LAST_PROOF proof; BPut STATISTICS (StatText count)].

Record closed (m : LedgerManager) (v : Value) (proof : bytes) (m' : LedgerManager) (cl : Closing) (t : Trie KVStore) : Prop := {
  cd_check : CheckValueAndProof m (SerValue v) proof = true;
  cd_header : last_closed_ledger_ m' = next_header m v cl (GetRootHash t) (next_validators m v cl).2 (GetVotedFee (fees_ m) (cl_fees cl)).2;
  cd_lcl : lcl_header_ m' = last_closed_ledger_ m';
  cd_validators : validators_ m' = (next_validators m v cl).2;
  cd_fees : fees_ m' = (GetVotedFee (fees_ m) (cl_fees cl)).2;
  cd_proof : proof_ m' = proof;
  cd_chain : self_chain m' = self_chain m;
  cd_sync : sync_ m' = sync_ m;
  cd_ledger : added (ledger_db m) [BPut (cosv (v_seq v)) (SerValue v)] (last_closed_ledger_ m') (ledger_db m');
  cd_count : ∃ n, commit_tree SerializeAsString ParseFromString Crypto (cl_entries cl) (tree_ m) = Ok (t, n) ∧
    account_count m' = i64 (account_count m + n);
  cd_tree : write_tree (account_puts m v cl proof (account_count m')) t = Ok (tree_ m') }.

Lemma vote_fee_step l : ∀ f f', foldl vote_fee (false, f) l = (false, f') → f' = f.
Proof.
  assert (∀ l f b f', foldl vote_fee (true, f) l = (b, f') → b = true) as Htrue.
  { clear l. induction l as [|[k j] l IH]; intros f b f' E; cbn [foldl] in E; [by injection E as <- _|]. unfold vote_fee in E at 2.
    repeat case_in E; by eapply IH. }
  induction l as [|[k j] l IH]; intros f f' E; cbn [foldl] in E; [by injection E as <-|]. unfold vote_fee in E at 2.
  repeat case_in E; first [by apply IH|by apply Htrue in E].
Qed.

(** Without a change the fees and validators are the old ones. *)
Lemma voted_fee_same f j f' : GetVotedFee f j = (false, f') → f' = f.
Proof. destruct j as [j|]; cbn; [apply vote_fee_step|by intros [= <-]]. Qed.

Lemma next_validators_same m v cl vs : next_validators m v cl = (false, vs) → vs = validators_ m.
Proof. unfold next_validators. case_decide; [done|]. destruct (cl_validators cl); cbn; [done|]. by intros [= <-]. Qed.

(** Where the closing ledger comes from: a kept execution or a new one; and what is kept. *)
Record executed (m : LedgerManager) (v : Value) (m' : LedgerManager) (cl : Closing) : Prop := {
  xe_source : (∃ c, completed_ctxs_ m !! Crypto (SerValue v) = Some c ∧ ex_closing (ctx_execution c) = cl) ∨
    (∃ ex, Do APPLY_MODE_FOLLOW m v = Ok ex ∧ exec_result_ (propose_result_ ex) = true ∧ ex_closing ex = cl);
  xe_kept : completed_ctxs_ m' ⊆ completed_ctxs_ m }.

Lemma SyncProcess_executed m v m' cl : SyncProcess Do m v = Ok (m', Some cl) → executed m v m' cl.
Proof.
  unfold SyncProcess. destruct (completed_ctxs_ m !! _) as [c|] eqn:E.
  - intros [= <- <-]. split; [left; eauto|done].
  - intros H. apply bind_Ok_inv in H as (ex & E1 & H). injection H as <- Ecl. destruct (exec_result_ _) eqn:Er; [|done].
    injection Ecl as <-. split; [right; eauto|done].
Qed.

Lemma CloseLedger_closed m v proof m' ok posts :
  CloseLedger m v proof = Ok (m', ok, posts) →
  (ok = false ∧ ∃ n, m' = set_ticks n m) ∨ ok = true ∧ ∃ cl t, closed m v proof m' cl t ∧ executed m v m' cl.
Proof.
  unfold Chain.CloseLedger. destruct (CheckValueAndProof m (SerValue v) proof) eqn:Hc; cbn [negb].
  2:{ intros [= <- <- _]. left. split; [done|]. exists (ticks m). by destruct m. }
  intros E. apply bind_Ok_inv in E as ([m1 o] & Es & E).
  assert (∃ n, m1 = set_ticks n m) as [n ->].
  { unfold SyncProcess in Es. destruct (completed_ctxs_ m !! _); [injection Es as <- _; exists (ticks m); by destruct m|].
    apply bind_Ok_inv in Es as (ex & _ & Es). injection Es as <- _. by eexists. }
  destruct o as [cl|]; [|injection E as <- <- _; left; eauto]. apply SyncProcess_executed in Es as [Xs Xk].
  apply bind_Ok_inv in E as ([t nc] & Et & E). right.
  change (next_validators (set_ticks n m) v cl) with (next_validators m v cl) in E.
  change (fees_ (set_ticks n m)) with (fees_ m) in E.
  destruct (next_validators m v cl) as [vchange new_set] eqn:Ev. destruct (GetVotedFee (fees_ m) (cl_fees cl)) as [fchange new_fees] eqn:Ef.
  assert ((if vchange then new_set else validators_ m) = new_set) as Env.
  { destruct vchange; [done|]. symmetry. by eapply next_validators_same. }
  assert ((if fchange then new_fees else fees_ m) = new_fees) as Enf.
  { destruct fchange; [done|]. symmetry. by eapply voted_fee_same. }
  rewrite Enf in E. apply bind_Ok_inv in E as (ldb & El & E). apply bind_Ok_inv in E as (tr & Ew & E).
  apply AddToDb_added in El. unfold NotifyLedgerClose, RemoveCompleted in E. injection E as <- <- _. split; [done|]. exists cl, t.
  split; [|split; [exact Xs|]; etransitivity; [|exact Xk]; apply map_filter_subseteq].
  split; cbn [last_closed_ledger_ lcl_header_ validators_ fees_ proof_ self_chain sync_ ledger_db tree_ account_count set_completed];
    rewrite ?Ev, ?Ef; cbn [fst snd]; try done.
  - by exists nc.
  - unfold account_puts. rewrite Ev, Ef. exact Ew.
Qed.

(** ** The invariant *)

Definition certified (vs : ValidatorSet) (chash proof : bytes) : Prop :=
  CheckProof vs chash proof = true ∨ chash ∈ hardfork_points_ cfg.

(** The set of validators that a header names is stored. *)
Record has_set (A : gmap bytes bytes) (h : LedgerHeader) (vs : ValidatorSet) : Prop := {
  hs_hash : h_validators_hash h = Crypto (SerValidators vs);
  hs_stored : A !! validators_key (h_validators_hash h) = Some (SerValidators vs) }.

(** [h] is the header of block [k]. *)
Record block (L A : gmap bytes bytes) (k : Z) (h : LedgerHeader) : Prop := {
  b_stored : L !! ldg k = Some (SerHeader h);
  b_seq : h_seq h = k;
  b_hash : ∃ envs, h_hash h = Crypto (SerLedger (set_hash [] h) envs);
  b_set : ∃ vs, has_set A h vs }.

(** [v] is the value of block [k], agreed by the validators of the block [h0] before it. *)
Record agreed (L A : gmap bytes bytes) (k : Z) (h0 h : LedgerHeader) (v : Value) : Prop := {
  ag_stored : L !! cosv k = Some (SerValue v);
  ag_hash : h_consensus_value_hash h = Crypto (SerValue v);
  ag_seq : v_seq v = k;
  ag_prev : previous_ledger_hash v = h_hash h0;
  ag_helper : ∃ set, helper_on h0 set v = true ∧ (2 < k → ∃ g vs, set = Some vs ∧ block L A (k - 2) g ∧ has_set A g vs);
  ag_cert : ∃ vs proof, has_set A h0 vs ∧ certified vs (Crypto (SerValue v)) proof }.

(** Block [h], number [k], follows block [h0]. *)
Record follows (L A : gmap bytes bytes) (k : Z) (h0 h : LedgerHeader) : Prop := {
  fo_prev : h_previous_hash h = h_hash h0;
  fo_chain : h_chain_id h = h_chain_id h0;
  fo_version : h_version h0 ≤ h_version h;
  fo_value : ∃ v, agreed L A k h0 h v }.

Definition head_seq (m : LedgerManager) : Z := h_seq (last_closed_ledger_ m).

(** The proof in memory is the stored one, and certifies the last block. *)
Record proof_ok (L A : gmap bytes bytes) (m : LedgerManager) : Prop := {
  pr_stored : default [] (A !! LAST_PROOF) = proof_ m;
  pr_first : head_seq m = 1 → proof_ m = [];
  pr_cert : 1 < head_seq m → ∃ h0 vs, block L A (head_seq m - 1) h0 ∧ has_set A h0 vs ∧
    certified vs (h_consensus_value_hash (last_closed_ledger_ m)) (proof_ m) }.

Record chain_ok (m : LedgerManager) : Prop := {
  ck_ledger_reads k : read_error (ledger_db m) k = false;
  ck_account_reads k : read_error (account_db m) k = false;
  ck_prefix : prefix_ (store_ (tree_ m)) = ACCOUNT_PREFIX;
  ck_batch k : ¬ trie_key k → apply_batch (batch_ (store_ (tree_ m))) (content (account_db m)) !! k = content (account_db m) !! k;
  ck_lcl : lcl_header_ m = last_closed_ledger_ m;
  ck_range : 1 ≤ head_seq m < 2 ^ 63;
  ck_top : block (content (ledger_db m)) (content (account_db m)) (head_seq m) (last_closed_ledger_ m);
  ck_blocks k : 1 ≤ k ≤ head_seq m → ∃ h, block (content (ledger_db m)) (content (account_db m)) k h;
  ck_links k h0 h : 1 ≤ k < head_seq m → block (content (ledger_db m)) (content (account_db m)) k h0 →
    block (content (ledger_db m)) (content (account_db m)) (k + 1) h →
    follows (content (ledger_db m)) (content (account_db m)) (k + 1) h0 h;
  ck_ledger_seq : content (ledger_db m) !! KEY_LEDGER_SEQ = Some (ToString (head_seq m));
  ck_account_seq : content (account_db m) !! KEY_LEDGER_SEQ = Some (ToString (head_seq m));
  ck_validators : has_set (content (account_db m)) (last_closed_ledger_ m) (validators_ m);
  ck_fees_hash : h_fees_hash (last_closed_ledger_ m) = Crypto (SerFees (fees_ m));
  ck_fees : content (account_db m) !! fees_key (h_fees_hash (last_closed_ledger_ m)) = Some (SerFees (fees_ m));
  ck_stat : content (account_db m) !! STATISTICS = Some (StatText (account_count m));
  ck_proof : proof_ok (content (ledger_db m)) (content (account_db m)) m;
  ck_version : h_version (last_closed_ledger_ m) ≤ LEDGER_VERSION;
  ck_tx_count : - 2 ^ 63 ≤ h_tx_count (last_closed_ledger_ m) < 2 ^ 63;
  ck_chain : self_chain m = h_chain_id (last_closed_ledger_ m) }.

(** Reading. *)
Lemma db_Get_ok db k : read_error db k = false → db_Get db k = match content db !! k with Some x => (1, x) | None => (0, []) end.
Proof. unfold db_Get. by intros ->. Qed.

Lemma block_fun L A A' k h h' : block L A k h → block L A' k h' → h = h'.
Proof. intros [E _ _ _] [E' _ _ _]. rewrite E in E'. injection E' as E'. by rewrite <- (header_back h), E', header_back. Qed.

Lemma has_set_fun A h vs vs' : has_set A h vs → has_set A h vs' → vs = vs'.
Proof.
  intros [_ E] [_ E']. rewrite E in E'. injection E' as E'. apply (f_equal ParseValidators) in E'.
  rewrite !validators_back in E'. by injection E'.
Qed.

Lemma LoadFromDb_ok db k : read_error db (ldg k) = false → LoadFromDb db k = ParseHeader <$> (content db !! ldg k).
Proof. intros Hr. unfold LoadFromDb. fold (ldg k). rewrite db_Get_ok by done. by destruct (content db !! ldg k). Qed.

Lemma ValidatorsGet_ok db h vs : (∀ k, read_error db k = false) → has_set (content db) h vs → ValidatorsGet db (h_validators_hash h) = Some vs.
Proof. intros Hr [_ E]. unfold ValidatorsGet. rewrite db_Get_ok, E by done. cbn. apply validators_back. Qed.

Lemma GetValidators_ok m k h vs : chain_ok m → block (content (ledger_db m)) (content (account_db m)) k h →
  has_set (content (account_db m)) h vs → GetValidators m k = Some vs.
Proof.
  intros Hm [E _ _ _] Hs. unfold GetValidators. rewrite LoadFromDb_ok, E by apply Hm. cbn [fmap option_fmap option_map mbind option_bind].
  rewrite header_back. apply ValidatorsGet_ok; [apply Hm|done].
Qed.

(** What the checks of a value say. *)
Lemma helper_facts m v now : CheckValueHelper m v now = true →
  v_seq v = i64 (h_seq (lcl_header_ m) + 1) ∧ previous_ledger_hash v = h_hash (lcl_header_ m) ∧
  (∀ u, ledger_upgrade v = Some u → new_ledger_version u ≠ 0 →
    h_version (lcl_header_ m) < new_ledger_version u ≤ LEDGER_VERSION).
Proof.
  unfold Chain.CheckValueHelper, GetLastClosedLedger. intros H.
  destruct (_ <=? size _); [done|]. destruct (v_seq v =? _) eqn:E1; cbn [negb] in H; [|done]. apply Z.eqb_eq in E1.
  case_bool_decide as E2; cbn [negb] in H; [|done]. destruct (negb (now =? -1) && _); [done|].
  split_and!; [done..|]. intros u Hu Hn. rewrite Hu in H.
  destruct (new_ledger_version u =? 0) eqn:E3; [by apply Z.eqb_eq in E3|]. cbn [negb andb] in H.
  destruct (Z.leb_spec (new_ledger_version u) (h_version (lcl_header_ m))); [done|].
  destruct (Z.ltb_spec LEDGER_VERSION (new_ledger_version u)); [done|]. lia.
Qed.

Lemma check_facts m v proof : CheckValueAndProof m (SerValue v) proof = true →
  CheckValueHelper m v (-1) = true ∧
  ∃ vs, GetValidators m (i64 (v_seq v - 1)) = Some vs ∧ certified vs (Crypto (SerValue v)) proof.
Proof.
  unfold Chain.CheckValueAndProof. rewrite value_back. destruct (GetValidators m _) as [vs|]; [|done].
  intros [H1 H2]%andb_true_iff. split; [done|]. exists vs. split; [done|].
  apply orb_true_iff in H2 as [?|?%bool_decide_eq_true]; [by left|by right].
Qed.

Lemma next_version_bounds m v : CheckValueHelper m v (-1) = true → lcl_header_ m = last_closed_ledger_ m →
  h_version (last_closed_ledger_ m) ≤ LEDGER_VERSION →
  h_version (last_closed_ledger_ m) ≤ next_version m v ≤ LEDGER_VERSION.
Proof.
  intros (_ & _ & Hu)%helper_facts El Hv. unfold next_version. rewrite El in Hu.
  destruct (ledger_upgrade v) as [u|]; [|lia]. destruct (Z.ltb_spec 0 (new_ledger_version u)); [|lia].
  specialize (Hu u eq_refl). lia.
Qed.

(** ** [CloseLedger] keeps the invariant *)

(** Hashes name what they are computed of. *)
Context (Hcrypto : ∀ x y : bytes, Crypto x = Crypto y → x = y).

Lemma write_tree_store puts t t' : write_tree puts t = Ok t' →
  store_ t' = mkKV (mkDb (apply_batch (batch_ (store_ t) ++ puts) (content (mdb_ (store_ t))))
    (read_error (mdb_ (store_ t))) (write_ok (mdb_ (store_ t)))) (prefix_ (store_ t)) [].
Proof. unfold write_tree. destruct (write_ok _) eqn:E; [|done]. by intros [= <-]. Qed.

(** The database of accounts afterwards: the old one, some operations on tries, the settings. *)
Lemma account_after m v proof m' cl t : chain_ok m → closed m v proof m' cl t →
  (∀ k, read_error (account_db m') k = false) ∧ prefix_ (store_ (tree_ m')) = ACCOUNT_PREFIX ∧ batch_ (store_ (tree_ m')) = [] ∧
  ∃ X, content (account_db m') = apply_batch (account_puts m v cl proof (account_count m')) X ∧
    ∀ k, ¬ trie_key k → X !! k = content (account_db m) !! k.
Proof.
  intros Hm Hc. destruct (cd_count _ _ _ _ _ _ Hc) as (n & Et & _).
  destruct (commit_tree_appends _ _ _ _ _ _ _ (ck_prefix _ Hm) Et) as (E1 & E2 & b & E3 & Hb).
  pose proof (write_tree_store _ _ _ (cd_tree _ _ _ _ _ _ Hc)) as Es. unfold account_db. rewrite Es. cbn [mdb_ prefix_ batch_ read_error content].
  split_and!; [intros k; rewrite E1; apply Hm|rewrite E2; apply Hm|done|].
  eexists. split; [by rewrite apply_batch_app|]. intros k Hk. rewrite E1, E3, apply_batch_app.
  rewrite apply_avoids by (by eapply trie_ops_avoid). by apply (ck_batch _ Hm).
Qed.

Lemma puts_shape m v cl proof n : ∃ b, account_puts m v cl proof n =
    BPut KEY_LEDGER_SEQ (ToString (v_seq v)) :: b ++ [BPut LAST_PROOF proof; BPut STATISTICS (StatText n)] ∧
  Forall (λ o, o = ValidatorsSet (next_validators m v cl).2 ∨ o = FeesConfigSet (GetVotedFee (fees_ m) (cl_fees cl)).2) b ∧
  ((next_validators m v cl).1 = true → ValidatorsSet (next_validators m v cl).2 ∈ b) ∧
  ((GetVotedFee (fees_ m) (cl_fees cl)).1 = true → FeesConfigSet (GetVotedFee (fees_ m) (cl_fees cl)).2 ∈ b).
Proof.
  unfold account_puts. destruct (next_validators m v cl) as [vc vs], (GetVotedFee (fees_ m) (cl_fees cl)) as [fc fs].
  exists ((if vc then [ValidatorsSet vs] else []) ++ (if fc then [FeesConfigSet fs] else [])). cbn [fst snd]. split_and!.
  - by rewrite <- app_assoc.
  - apply Forall_app. split; [destruct vc|destruct fc]; [|constructor| |constructor]; (constructor; [|constructor]); auto.
  - intros ->. by left.
  - intros ->. apply elem_of_app. right. by left.
Qed.

(** A write that all other writes to its key repeat. *)
Lemma apply_elem k x b : ∀ C, only k x b → BPut k x ∈ b → apply_batch b C !! k = Some x.
Proof.
  induction b as [|o b IH]; intros C Ho Hin; [by apply elem_of_nil in Hin|]. apply list.Forall_cons in Ho as [Ho Hb].
  change (apply_batch b (apply_op C o) !! k = Some x). apply elem_of_cons in Hin as [<-|Hin]; [|by apply IH].
  apply apply_only; [done|]. apply lookup_insert_eq.
Qed.

Record settings_after (A A' : gmap bytes bytes) (m : LedgerManager) (v : Value) (cl : Closing) (proof : bytes) (n : Z) : Prop := {
  sa_seq : A' !! KEY_LEDGER_SEQ = Some (ToString (v_seq v));
  sa_proof : A' !! LAST_PROOF = Some proof;
  sa_stat : A' !! STATISTICS = Some (StatText n);
  sa_validators s : A !! validators_key (Crypto s) = Some s → A' !! validators_key (Crypto s) = Some s;
  sa_fees s : A !! fees_key (Crypto s) = Some s → A' !! fees_key (Crypto s) = Some s;
  sa_new_validators : (next_validators m v cl).1 = true →
    A' !! validators_key (Crypto (SerValidators (next_validators m v cl).2)) = Some (SerValidators (next_validators m v cl).2);
  sa_new_fees : (GetVotedFee (fees_ m) (cl_fees cl)).1 = true →
    A' !! fees_key (Crypto (SerFees (GetVotedFee (fees_ m) (cl_fees cl)).2)) = Some (SerFees (GetVotedFee (fees_ m) (cl_fees cl)).2) }.

Lemma settings_after_puts A X m v cl proof n : (∀ k, ¬ trie_key k → X !! k = A !! k) →
  settings_after A (apply_batch (account_puts m v cl proof n) X) m v cl proof n.
Proof.
  intros HX. destruct (puts_shape m v cl proof n) as (b & -> & Hb & Hv & Hf).
  set (puts := BPut KEY_LEDGER_SEQ _ :: b ++ _).
  assert (∀ k, (∀ h, k ≠ validators_key h) → (∀ h, k ≠ fees_key h) → avoids k b) as Hbk.
  { intros k H1 H2. eapply list.Forall_impl; [exact Hb|]. intros o [-> | ->] E; [exact (H1 _ (eq_sym E))|exact (H2 _ (eq_sym E))]. }
  assert (∀ s, only (validators_key (Crypto s)) s puts) as Hov.
  { intros s. constructor; [done|]. apply Forall_app. split; [|by repeat constructor].
    eapply list.Forall_impl; [exact Hb|]. intros o [-> | ->] E; [|discriminate E]. apply validators_key_inj, Hcrypto in E.
    unfold ValidatorsSet. by rewrite E. }
  assert (∀ s, only (fees_key (Crypto s)) s puts) as Hof.
  { intros s. constructor; [done|]. apply Forall_app. split; [|by repeat constructor].
    eapply list.Forall_impl; [exact Hb|]. intros o [-> | ->] E; [discriminate E|]. apply fees_key_inj, Hcrypto in E.
    unfold FeesConfigSet. by rewrite E. }
  split.
  - apply (apply_last KEY_LEDGER_SEQ _ []). apply Forall_app. split; [by apply Hbk|by repeat constructor].
  - pose proof (apply_last LAST_PROOF proof (BPut KEY_LEDGER_SEQ (ToString (v_seq v)) :: b) [BPut STATISTICS (StatText n)] X) as H.
    apply H. by repeat constructor.
  - pose proof (apply_last STATISTICS (StatText n) (BPut KEY_LEDGER_SEQ (ToString (v_seq v)) :: b ++ [BPut LAST_PROOF proof]) [] X) as H.
    cbn [app] in H. rewrite <- app_assoc in H. apply H. constructor.
  - intros s Hs. apply apply_only; [done|]. rewrite HX by auto with ceg. done.
  - intros s Hs. apply apply_only; [done|]. rewrite HX by auto with ceg. done.
  - intros E. apply apply_elem; [done|]. right. apply elem_of_app. left. by apply Hv.
  - intros E. apply apply_elem; [done|]. right. apply elem_of_app. left. by apply Hf.
Qed.

Section step.
Context (m : LedgerManager) (v : Value) (proof : bytes) (m' : LedgerManager) (cl : Closing) (t : Trie KVStore).
Context (Hm : chain_ok m) (Hroom : head_seq m + 1 < 2 ^ 63) (Hc : closed m v proof m' cl t).

Let L := content (ledger_db m).
Let A := content (account_db m).
Let L' := content (ledger_db m').
Let A' := content (account_db m').

Lemma closed_seq : v_seq v = head_seq m + 1 ∧ head_seq m' = head_seq m + 1.
Proof.
  destruct (check_facts _ _ _ (cd_check _ _ _ _ _ _ Hc)) as [(E & _ & _)%helper_facts _].
  rewrite (ck_lcl _ Hm) in E. fold (head_seq m) in E. destruct (ck_range _ Hm). rewrite i64_small in E by lia.
  split; [done|]. unfold head_seq at 1. by rewrite (cd_header _ _ _ _ _ _ Hc).
Qed.

Lemma closed_settings : settings_after A A' m v cl proof (account_count m').
Proof.
  destruct (account_after m v proof m' cl t Hm Hc) as (_ & _ & _ & X & E & HX). unfold A'. rewrite E.
  by apply settings_after_puts.
Qed.

Lemma has_set_after h vs : has_set A h vs → has_set A' h vs.
Proof. intros [E1 E2]. split; [done|]. rewrite E1 in *. by apply closed_settings. Qed.

Lemma block_after k h : 1 ≤ k ≤ head_seq m → block L A k h → block L' A' k h.
Proof.
  intros Hk [E1 E2 E3 [vs E4]]. split; [|done..|exists vs; by apply has_set_after].
  destruct closed_seq as [_ Es]. destruct (ck_range _ Hm). unfold head_seq in Es at 1.
  unfold L'. rewrite (ad_headers _ _ _ _ (cd_ledger _ _ _ _ _ _ Hc)) by (unfold is_i64, INT64_MIN, INT64_MAX; lia).
  rewrite apply_avoids; [done|]. constructor; [|constructor]. apply not_eq_sym, ldg_cosv.
Qed.

Lemma agreed_after k h0 h w : 1 ≤ k ≤ head_seq m → agreed L A k h0 h w → agreed L' A' k h0 h w.
Proof.
  intros Hk [E1 E2 E3 E4 (set & H3 & H4) (vs & p & H1 & H2)]. split; [|done..| |exists vs, p; split; [by apply has_set_after|done]].
  2:{ exists set. split; [done|]. intros Hk2. destruct (H4 Hk2) as (g & us & -> & Hb & Hs). exists g, us.
      split_and!; [done|apply block_after; [lia|done]|by apply has_set_after]. }
  unfold L'. rewrite (ad_values _ _ _ _ (cd_ledger _ _ _ _ _ _ Hc)), apply_avoids; [done|]. constructor; [|constructor].
  destruct closed_seq as [-> _]. destruct (ck_range _ Hm). intros E. apply compose_inj in E; unfold is_i64, INT64_MIN, INT64_MAX; lia.
Qed.

Lemma top_block : block L' A' (head_seq m') (last_closed_ledger_ m') ∧ has_set A' (last_closed_ledger_ m') (validators_ m').
Proof.
  assert (has_set A' (last_closed_ledger_ m') (validators_ m')) as Hs.
  { rewrite (cd_validators _ _ _ _ _ _ Hc). split; [by rewrite (cd_header _ _ _ _ _ _ Hc)|].
    rewrite (cd_header _ _ _ _ _ _ Hc). cbn [next_header set_hash h_validators_hash].
    destruct (next_validators m v cl) as [[|] vs] eqn:Ev; cbn [snd].
    - pose proof (sa_new_validators _ _ _ _ _ _ _ closed_settings) as H. rewrite Ev in H. by apply H.
    - apply next_validators_same in Ev as ->. apply (sa_validators _ _ _ _ _ _ _ closed_settings).
      destruct (ck_validators _ Hm) as [<- H]. exact H. }
  split; [|done]. split; [apply (cd_ledger _ _ _ _ _ _ Hc)|done| |by eexists].
  exists (cl_envs cl). by rewrite (cd_header _ _ _ _ _ _ Hc).
Qed.

Lemma top_agreed : agreed L' A' (head_seq m') (last_closed_ledger_ m) (last_closed_ledger_ m') v ∧
  ∃ vs, has_set A' (last_closed_ledger_ m) vs ∧ certified vs (h_consensus_value_hash (last_closed_ledger_ m')) proof.
Proof.
  destruct closed_seq as [Ev Es]. destruct (check_facts _ _ _ (cd_check _ _ _ _ _ _ Hc)) as [Hh (vs & Hg & Hcert)].
  assert (GetValidators m (head_seq m) = Some (validators_ m)) as Hg'
    by (eapply GetValidators_ok; [exact Hm|apply Hm|apply Hm]).
  destruct (ck_range _ Hm). rewrite Ev, i64_small in Hg by lia. replace (head_seq m + 1 - 1) with (head_seq m) in Hg by lia.
  rewrite Hg' in Hg. injection Hg as <-.
  assert (∃ set, helper_on (last_closed_ledger_ m) set v = true ∧
    (2 < head_seq m' → ∃ g us, set = Some us ∧ block L' A' (head_seq m' - 2) g ∧ has_set A' g us)) as Hset.
  { eexists. rewrite helper_split in Hh. apply andb_true_iff in Hh as [Hh _]. rewrite (ck_lcl _ Hm) in Hh. split; [exact Hh|].
    intros H2. destruct (ck_blocks _ Hm (head_seq m - 1)) as [g Hg]; [lia|]. destruct (b_set _ _ _ _ Hg) as [us Hus].
    exists g, us. rewrite Ev, i64_small by lia. replace (head_seq m + 1 - 2) with (head_seq m - 1) by lia.
    replace (head_seq m' - 2) with (head_seq m - 1) by lia.
    split_and!; [by eapply GetValidators_ok|apply block_after; [lia|done]|by apply has_set_after]. }
  assert (h_consensus_value_hash (last_closed_ledger_ m') = Crypto (SerValue v)) as Eh by (by rewrite (cd_header _ _ _ _ _ _ Hc)).
  assert (has_set A' (last_closed_ledger_ m) (validators_ m)) as Hs by (apply has_set_after, Hm).
  split; [|exists (validators_ m); by rewrite Eh]. apply helper_facts in Hh as (_ & Hp & _). split.
  - unfold L'. rewrite (ad_values _ _ _ _ (cd_ledger _ _ _ _ _ _ Hc)), Es, <- Ev. apply (apply_last _ _ [] []). constructor.
  - done.
  - lia.
  - by rewrite Hp, (ck_lcl _ Hm).
  - exact Hset.
  - eauto.
Qed.

Lemma fees_after : h_fees_hash (last_closed_ledger_ m') = Crypto (SerFees (fees_ m')) ∧
  A' !! fees_key (h_fees_hash (last_closed_ledger_ m')) = Some (SerFees (fees_ m')).
Proof.
  rewrite (cd_fees _ _ _ _ _ _ Hc), (cd_header _ _ _ _ _ _ Hc). cbn [next_header set_hash h_fees_hash]. split; [done|].
  destruct (GetVotedFee (fees_ m) (cl_fees cl)) as [[|] fs] eqn:Ef; cbn [snd].
  - pose proof (sa_new_fees _ _ _ _ _ _ _ closed_settings) as H. rewrite Ef in H. by apply H.
  - apply voted_fee_same in Ef as ->. apply (sa_fees _ _ _ _ _ _ _ closed_settings).
    rewrite <- (ck_fees_hash _ Hm). apply Hm.
Qed.

Lemma links_after k h0 h : 1 ≤ k < head_seq m' → block L' A' k h0 → block L' A' (k + 1) h → follows L' A' (k + 1) h0 h.
Proof.
  destruct closed_seq as [_ Es]. intros Hk H0 H1. destruct (ck_blocks _ Hm k) as [g0 Hg0]; [lia|].
  pose proof (block_fun _ _ _ _ _ _ (block_after k g0 ltac:(lia) Hg0) H0) as ->.
  destruct (decide (k = head_seq m)) as [->|Hne].
  - rewrite <- Es in H1 |- *. pose proof (block_fun _ _ _ _ _ _ (proj1 top_block) H1) as <-.
    pose proof (block_fun _ _ _ _ _ _ (ck_top _ Hm) Hg0) as <-. destruct top_agreed as [Ha _].
    destruct (check_facts _ _ _ (cd_check _ _ _ _ _ _ Hc)) as [Hh _].
    pose proof (next_version_bounds m v Hh (ck_lcl _ Hm) (ck_version _ Hm)) as Hv. apply helper_facts in Hh as (_ & Hp & _).
    split; [rewrite (cd_header _ _ _ _ _ _ Hc); cbn [next_header set_hash h_previous_hash]; by rewrite Hp, (ck_lcl _ Hm)| | |by exists v].
    + rewrite (cd_header _ _ _ _ _ _ Hc). cbn [next_header set_hash h_chain_id]. apply Hm.
    + rewrite (cd_header _ _ _ _ _ _ Hc). cbn [next_header set_hash h_version]. lia.
  - destruct (ck_blocks _ Hm (k + 1)) as [g Hg]; [lia|].
    pose proof (block_fun _ _ _ _ _ _ (block_after (k + 1) g ltac:(lia) Hg) H1) as ->.
    destruct (ck_links _ Hm k h0 h ltac:(lia) Hg0 Hg) as [F1 F2 F3 [w F4]]. split; try done.
    exists w. apply agreed_after; [lia|done].
Qed.

Lemma closed_ok : chain_ok m'.
Proof.
  destruct closed_seq as [Ev Es]. destruct (ck_range _ Hm).
  destruct (account_after m v proof m' cl t Hm Hc) as (Ar & Ap & Ab & _).
  split; try done.
  - intros k. rewrite (ad_errors _ _ _ _ (cd_ledger _ _ _ _ _ _ Hc)). apply Hm.
  - intros k _. by rewrite Ab.
  - apply Hc.
  - lia.
  - apply top_block.
  - intros k Hk. destruct (decide (k = head_seq m')) as [->|]; [eexists; apply top_block|].
    destruct (ck_blocks _ Hm k) as [h Hh]; [lia|]. exists h. apply block_after; [lia|done].
  - apply links_after.
  - apply (cd_ledger _ _ _ _ _ _ Hc).
  - rewrite Es, <- Ev. apply closed_settings.
  - apply top_block.
  - apply fees_after.
  - apply fees_after.
  - apply closed_settings.
  - split.
    + fold A'. rewrite (sa_proof _ _ _ _ _ _ _ closed_settings). by rewrite (cd_proof _ _ _ _ _ _ Hc).
    + lia.
    + intros _. destruct top_agreed as [_ (vs & Hs & Hcert)]. exists (last_closed_ledger_ m), vs.
      replace (head_seq m' - 1) with (head_seq m) by lia. rewrite (cd_proof _ _ _ _ _ _ Hc).
      split_and!; [|done..]. apply block_after; [lia|apply Hm].
  - rewrite (cd_header _ _ _ _ _ _ Hc). cbn [next_header set_hash h_version].
    apply (next_version_bounds m v); [|apply Hm..]. apply (check_facts _ _ _ (cd_check _ _ _ _ _ _ Hc)).
  - rewrite (cd_header _ _ _ _ _ _ Hc). cbn [next_header set_hash h_tx_count]. apply i64_range.
  - rewrite (cd_chain _ _ _ _ _ _ Hc), (cd_header _ _ _ _ _ _ Hc). done.
Qed.
End step.
End inv.
