(* ===== verification/UpgradeVote.v ===== *)
(** * Votes for a new ledger version (src/src/glue/ledger_upgrade.cpp)

    The validators tell each other, in signed messages, which ledger version their software
    supports; [GetValid] finds an upgrade that enough validators have asked for. *)
From stdpp Require Import base gmap list sorting strings fin_sets.
From Stdlib Require Import ZArith Lia.
From S2P Require Import Prelude PbftQuorum KVTrie SafeInt Strings Account LedgerMsg LedgerFrm LedgerCommit ChainMsg.
Local Open Scope Z_scope.

Record LedgerUpgradeNotify := mkNotify {
  n_nonce : Z; n_upgrade : LedgerUpgrade; n_public_key : bytes; n_sign_data : bytes }.

Record LedgerUpgradeFrm := mkUpgradeFrm { address_ : bytes; recv_time_ : Z; msg_ : LedgerUpgradeNotify }.

(** The members of the class [LedgerUpgrade]; [current_states_] is by the signer's address. *)
Record UpgradeState := mkUpgradeState {
  current_states_ : gmap bytes LedgerUpgradeFrm; local_state_ : LedgerUpgrade; last_send_time_ : Z }.

Definition no_upgrade : LedgerUpgrade := mkUpgrade 0 [] 0.
Definition new_UpgradeState : UpgradeState := mkUpgradeState ∅ no_upgrade 0.

(** A message counts for five minutes and is sent every thirty seconds. *)
Definition UPGRADE_EXPIRE : Z := 300 * MICRO_UNITS_PER_SEC.
Definition UPGRADE_INTERVAL : Z := 30 * MICRO_UNITS_PER_SEC.

Section upgrade.
Context {LH : LedgerHost}.
(** The encoding of [protocol::LedgerUpgrade], and the own chain. *)
Context (SerUpgrade : LedgerUpgrade → bytes) (self_chain : Z).

Definition raw_data (upgrade : LedgerUpgrade) (nonce : Z) : bytes := SerUpgrade upgrade ++ ToString nonce.

Definition Recv (s : UpgradeState) (msg : LedgerUpgradeNotify) (now : Z) : UpgradeState :=
  if negb (Verify (raw_data (n_upgrade msg) (n_nonce msg)) (n_sign_data msg) (n_public_key msg)) then s
  else if negb (up_chain_id (n_upgrade msg) =? self_chain) then s
  else
    let frm := mkUpgradeFrm (default [] (pub_address (n_public_key msg))) now msg in
    mkUpgradeState (<[address_ frm := frm]> (current_states_ s)) (local_state_ s) (last_send_time_ s).

Definition drop_expired (current_time : Z) (s : UpgradeState) : UpgradeState :=
  mkUpgradeState (filter (λ kf, ¬ i64 (recv_time_ kf.2 + UPGRADE_EXPIRE) < current_time) (current_states_ s))
    (local_state_ s) (last_send_time_ s).

(** [sign] is [SignConsensusData], [now] the time at which the own message is received; the
    message that is broadcast is returned. *)
Definition Upgrade_OnTimer (s : UpgradeState) (current_time : Z) (is_validator : bool) (sign : bytes → bytes * bytes) (now : Z)
    : UpgradeState * option LedgerUpgradeNotify :=
  let s := drop_expired current_time s in
  if (UPGRADE_INTERVAL <? i64 (current_time - last_send_time_ s)) && (0 <? new_ledger_version (local_state_ s)) then
    let sig := sign (raw_data (local_state_ s) current_time) in
    let notify := mkNotify current_time (local_state_ s) sig.1 sig.2 in
    let s := mkUpgradeState (current_states_ s) (local_state_ s) current_time in
    if is_validator then (Recv s notify now, Some notify) else (s, None)
  else (s, None).

(** [std::map<LedgerUpgradeFrm, size_t>], by the text of the upgrade; the first message with
    a text is the key. *)
Definition count_upgrade (validator_set : gset bytes) (counter : gmap bytes (LedgerUpgrade * Z)) (frm : LedgerUpgradeFrm)
    : gmap bytes (LedgerUpgrade * Z) :=
  let k := SerUpgrade (n_upgrade (msg_ frm)) in
  let '(u, n) := default (n_upgrade (msg_ frm), 0) (counter !! k) in
  <[k := (u, if decide (address_ frm ∈ validator_set) then n + 1 else n)]> counter.

Definition states_in_order (s : UpgradeState) : list LedgerUpgradeFrm :=
  snd <$> merge_sort (entry_leb fst) (map_to_list (current_states_ s)).

Definition counter_upgrade (s : UpgradeState) (validators : ValidatorSet) : gmap bytes (LedgerUpgrade * Z) :=
  foldl (count_upgrade (list_to_set (fst <$> validators))) ∅ (states_in_order s).

Definition GetValid (s : UpgradeState) (validators : ValidatorSet) (quorum_size : Z) : option LedgerUpgrade :=
  if decide (current_states_ s = ∅) then None
  else
    let l := merge_sort (entry_leb fst) (map_to_list (counter_upgrade s validators)) in
    match list_find (λ e, quorum_size ≤ e.2.2) l with Some (_, e) => Some e.2.1 | None => None end.

Definition ConfNewVersion (s : UpgradeState) (new_version : Z) : UpgradeState :=
  mkUpgradeState (current_states_ s)
    (mkUpgrade new_version (new_validator (local_state_ s)) self_chain) (last_send_time_ s).

Definition LedgerHasUpgrade_ (s : UpgradeState) : UpgradeState :=
  mkUpgradeState ∅ no_upgrade (last_send_time_ s).

(** ** Votes *)

#[global] Instance LedgerUpgrade_eq_dec : EqDecision LedgerUpgrade.
Proof. solve_decision. Defined.

(** The validators whose message in [current_states_] asks for [u]. *)
Definition stored_voters (s : UpgradeState) (validators : ValidatorSet) (u : LedgerUpgrade) : gset bytes :=
  dom (filter (λ kf, n_upgrade (msg_ kf.2) = u ∧ kf.1 ∈ fst <$> validators) (current_states_ s)).

(** The messages that are kept: signed by the address, for the own chain. *)
Definition states_ok (s : UpgradeState) : Prop := ∀ a frm, current_states_ s !! a = Some frm →
  address_ frm = a ∧ up_chain_id (n_upgrade (msg_ frm)) = self_chain ∧
  Verify (raw_data (n_upgrade (msg_ frm)) (n_nonce (msg_ frm))) (n_sign_data (msg_ frm)) (n_public_key (msg_ frm)) = true ∧
  default [] (pub_address (n_public_key (msg_ frm))) = a.

Lemma Recv_ok s msg now : states_ok s → states_ok (Recv s msg now).
Proof.
  intros Hs. unfold Recv. destruct (Verify _ _ _) eqn:Ev; [|done]. destruct (up_chain_id _ =? _) eqn:Ec; [|done].
  intros a frm. cbn [current_states_ negb]. intros [[<- <-]|[_ H]]%lookup_insert_Some; [|by apply Hs].
  cbn. apply Z.eqb_eq in Ec. by rewrite Ev.
Qed.

Lemma drop_expired_ok t s : states_ok s → states_ok (drop_expired t s).
Proof. intros Hs a frm [H _]%map_lookup_filter_Some. by apply Hs. Qed.

Inductive upgrade_event :=
  | ERecv (msg : LedgerUpgradeNotify) (now : Z)
  | ETimer (current_time : Z) (is_validator : bool) (sign : bytes → bytes * bytes) (now : Z)
  | EConf (new_version : Z)
  | EHasUpgrade.

Definition upgrade_step (s : UpgradeState) (e : upgrade_event) : UpgradeState :=
  match e with
  | ERecv msg now => Recv s msg now
  | ETimer t iv sign now => (Upgrade_OnTimer s t iv sign now).1
  | EConf v => ConfNewVersion s v
  | EHasUpgrade => LedgerHasUpgrade_ s
  end.

Definition upgrade_run (es : list upgrade_event) : UpgradeState := foldl upgrade_step new_UpgradeState es.

(** *** The history of a run *)

(** What reaches the votes: a message with the time at which it came, a timer that drops old
    messages, and an upgrade of the ledger that ends the vote. *)
Inductive occurrence :=
  | Got (msg : LedgerUpgradeNotify) (now : Z)
  | Expired (current_time : Z)
  | Upgraded.

(** A validator's timer also delivers its own message to itself. *)
Definition occurrences (s : UpgradeState) (e : upgrade_event) : list occurrence :=
  match e with
  | ERecv msg now => [Got msg now]
  | ETimer t iv sign now =>
      Expired t ::
      (if (UPGRADE_INTERVAL <? i64 (t - last_send_time_ s)) && (0 <? new_ledger_version (local_state_ s)) && iv then
         let sig := sign (raw_data (local_state_ s) t) in
         [Got (mkNotify t (local_state_ s) sig.1 sig.2) now]
       else [])
  | EConf _ => []
  | EHasUpgrade => [Upgraded]
  end.

Fixpoint history (s : UpgradeState) (es : list upgrade_event) : list occurrence :=
  match es with
  | [] => []
  | e :: es => occurrences s e ++ history (upgrade_step s e) es
  end.

(** A message of [a]: correctly signed with the key of [a], for this chain. *)
Definition message_of (a : bytes) (msg : LedgerUpgradeNotify) : Prop :=
  Verify (raw_data (n_upgrade msg) (n_nonce msg)) (n_sign_data msg) (n_public_key msg) = true ∧
  up_chain_id (n_upgrade msg) = self_chain ∧ default [] (pub_address (n_public_key msg)) = a.

#[global] Instance message_of_dec a msg : Decision (message_of a msg).
Proof. unfold message_of. apply _. Defined.

(** The last message of [a] in a history, newest first, if no timer after it found it older
    than five minutes and no upgrade ended the vote. *)
Fixpoint last_message (h : list occurrence) (a : bytes) : option (LedgerUpgradeNotify * Z) :=
  match h with
  | [] | Upgraded :: _ => None
  | Expired t :: h => x ← last_message h a; if decide (i64 (x.2 + UPGRADE_EXPIRE) < t) then None else Some x
  | Got msg now :: h => if decide (message_of a msg) then Some (msg, now) else last_message h a
  end.

(** The validators whose last message asks for [u]. *)
Definition voters (es : list upgrade_event) (validators : ValidatorSet) (u : LedgerUpgrade) : gset bytes :=
  filter (λ a, (n_upgrade ∘ fst <$> last_message (reverse (history new_UpgradeState es)) a) = Some u)
    (list_to_set (fst <$> validators)).

Lemma history_app es1 : ∀ s es2, history s (es1 ++ es2) = history s es1 ++ history (foldl upgrade_step s es1) es2.
Proof. induction es1 as [|e es1 IH]; intros s es2; [done|]. cbn. by rewrite IH, app_assoc. Qed.

(** [current_states_] holds the last messages. *)
Definition frm_of (a : bytes) (x : LedgerUpgradeNotify * Z) : LedgerUpgradeFrm := mkUpgradeFrm a x.2 x.1.
Definition kept (h : list occurrence) (s : UpgradeState) : Prop :=
  ∀ a, current_states_ s !! a = frm_of a <$> last_message h a.

Lemma Recv_kept h s msg now : kept h s → kept (Got msg now :: h) (Recv s msg now).
Proof.
  intros Hk a. unfold Recv. cbn [last_message]. destruct (Verify _ _ _) eqn:Ev; cbn [negb].
  - destruct (Z.eqb_spec (up_chain_id (n_upgrade msg)) self_chain) as [Ec|Ec]; cbn [negb].
    + cbn [current_states_]. destruct (decide (default [] (pub_address (n_public_key msg)) = a)) as [Ea|Ea].
      * rewrite decide_True by done. cbn. rewrite Ea, lookup_insert_eq. done.
      * rewrite decide_False by (by intros (_ & _ & ?)). cbn. by rewrite lookup_insert_ne.
    + rewrite decide_False by (by intros (_ & ? & _)). apply Hk.
  - rewrite decide_False; [apply Hk|]. intros (Hv & _). congruence.
Qed.

Lemma drop_kept h s t : kept h s → kept (Expired t :: h) (drop_expired t s).
Proof.
  intros Hk a. cbn [drop_expired current_states_ last_message]. rewrite map_lookup_filter, Hk.
  destruct (last_message h a) as [[msg now]|]; [|done]. cbn. destruct (decide (i64 (now + UPGRADE_EXPIRE) < t)) as [H|H].
  - rewrite option_guard_False; [done|]. by intros [].
  - by rewrite option_guard_True.
Qed.

Lemma step_kept h s e : kept h s → kept (reverse (occurrences s e) ++ h) (upgrade_step s e).
Proof.
  intros Hk. destruct e as [msg now|t iv sign now|v|]; cbn [occurrences upgrade_step].
  - by apply Recv_kept.
  - unfold Upgrade_OnTimer. cbn [drop_expired last_send_time_ local_state_]. apply (drop_kept h s t) in Hk.
    destruct ((_ <? _) && (_ <? _)); cbn [andb]; [|exact Hk]. destruct iv; [|exact Hk]. by apply (Recv_kept (Expired t :: h)).
  - exact Hk.
  - intros a. cbn. by rewrite lookup_empty.
Qed.

Lemma run_kept es : kept (reverse (history new_UpgradeState es)) (upgrade_run es).
Proof.
  induction es as [|e es IH] using rev_ind; [intros a; cbn; by rewrite lookup_empty|].
  unfold upgrade_run. rewrite history_app, foldl_app. cbn [history foldl]. rewrite app_nil_r, reverse_app.
  by apply step_kept.
Qed.

Lemma stored_is_voters es validators u : stored_voters (upgrade_run es) validators u = voters es validators u.
Proof.
  apply set_eq. intros a. unfold stored_voters, voters. rewrite elem_of_dom, elem_of_filter, elem_of_list_to_set.
  pose proof (run_kept es a) as Hk. unfold is_Some. setoid_rewrite map_lookup_filter_Some. rewrite Hk.
  destruct (last_message _ a) as [[msg now]|]; cbn; [|naive_solver]. split.
  - intros (f & [= <-] & Hu & Hv). cbn in Hu. by rewrite Hu.
  - intros [[= Hu] Hv]. by exists (frm_of a (msg, now)).
Qed.

Lemma upgrade_run_ok es : states_ok (upgrade_run es).
Proof.
  unfold upgrade_run. assert (∀ s, states_ok s → states_ok (foldl upgrade_step s es)) as H; [|apply H; intros a frm E; cbn in E; by rewrite lookup_empty in E].
  induction es as [|e es IH]; intros s Hs; [done|]. apply IH. destruct e; cbn [upgrade_step].
  - by apply Recv_ok.
  - unfold Upgrade_OnTimer. destruct (_ && _); [|by apply drop_expired_ok]. destruct is_validator; [apply Recv_ok|]; by apply (drop_expired_ok current_time).
  - exact Hs.
  - intros a frm E. cbn in E. by rewrite lookup_empty in E.
Qed.

Context (Hser : ∀ u u', SerUpgrade u = SerUpgrade u' → u = u').

Definition votes_for (V : gset bytes) (u : LedgerUpgrade) (l : list LedgerUpgradeFrm) : list LedgerUpgradeFrm :=
  filter (λ f, n_upgrade (msg_ f) = u ∧ address_ f ∈ V) l.

Lemma votes_snoc V u l f : Z.of_nat (length (votes_for V u (l ++ [f]))) =
  Z.of_nat (length (votes_for V u l)) + (if decide (n_upgrade (msg_ f) = u ∧ address_ f ∈ V) then 1 else 0).
Proof. unfold votes_for. rewrite filter_app, length_app, filter_cons. case_decide; cbn; lia. Qed.

(** The counter after the loop. *)
Record counted (V : gset bytes) (l : list LedgerUpgradeFrm) (C : gmap bytes (LedgerUpgrade * Z)) : Prop := {
  co_entry k u n : C !! k = Some (u, n) → k = SerUpgrade u ∧ n = Z.of_nat (length (votes_for V u l));
  co_all f : f ∈ l → is_Some (C !! SerUpgrade (n_upgrade (msg_ f))) }.

Lemma count_counted V l : counted V l (foldl (count_upgrade V) ∅ l).
Proof.
  induction l as [|f l [IH1 IH2]] using rev_ind; [split; [intros k u n H; cbn in H; by rewrite lookup_empty in H|by intros f ?%elem_of_nil]|].
  rewrite foldl_snoc. set (C := foldl (count_upgrade V) ∅ l) in *. unfold count_upgrade.
  set (w := n_upgrade (msg_ f)) in *. destruct (C !! SerUpgrade w) as [[u0 n0]|] eqn:E; cbn [default].
  - apply IH1 in E as [E ->]. apply Hser in E. subst u0. split.
    + intros k u n [[<- [= <- <-]]|[Hne H]]%lookup_insert_Some; rewrite votes_snoc.
      * split; [done|]. fold w. destruct (decide (address_ f ∈ V)); [rewrite decide_True by done|rewrite decide_False by (by intros [_ ?])]; lia.
      * apply IH1 in H as [-> ->]. split; [done|]. rewrite decide_False; [lia|]. intros [Hu _]. by rewrite <- Hu in Hne.
    + intros g [Hg| ->%list_elem_of_singleton]%elem_of_app; apply lookup_insert_is_Some; [|by left].
      destruct (decide (SerUpgrade w = SerUpgrade (n_upgrade (msg_ g)))); [by left|right]. by split; [|apply IH2].
  - assert (∀ g, g ∈ l → n_upgrade (msg_ g) ≠ w) as Hno.
    { intros g Hg Eg. destruct (IH2 g Hg) as [x Hx]. rewrite Eg, E in Hx. done. }
    split.
    + intros k u n [[<- [= <- <-]]|[Hne H]]%lookup_insert_Some; rewrite votes_snoc.
      * split; [done|]. replace (votes_for V w l) with (@nil LedgerUpgradeFrm); [fold w; destruct (decide (address_ f ∈ V)); [rewrite decide_True by done|rewrite decide_False by (by intros [_ ?])]; done|].
        symmetry. apply filter_none. intros g Hg [? _]. by apply (Hno g).
      * apply IH1 in H as [-> ->]. split; [done|]. rewrite decide_False; [lia|]. intros [Hu _]. by rewrite <- Hu in Hne.
    + intros g [Hg| ->%list_elem_of_singleton]%elem_of_app; apply lookup_insert_is_Some; [|by left].
      destruct (decide (SerUpgrade w = SerUpgrade (n_upgrade (msg_ g)))); [by left|right]. by split; [|apply IH2].
Qed.

Lemma map_size_sorted {A} (m : gmap bytes A) (P : bytes * A → Prop) `{∀ x, Decision (P x)} :
  base.size (filter P m) = length (filter P (merge_sort (entry_leb fst) (map_to_list m))).
Proof.
  rewrite map_filter_alt, map_size_list_to_map.
  - apply Permutation_length. by rewrite merge_sort_Permutation.
  - eapply sublist_NoDup; [apply (NoDup_fst_map_to_list m)|]. apply fmap_sublist, sublist_filter.
Qed.

Lemma votes_stored s validators u : states_ok s →
  length (votes_for (list_to_set (fst <$> validators)) u (states_in_order s)) = base.size (stored_voters s validators u).
Proof.
  intros Hs. unfold stored_voters. rewrite size_dom, map_size_sorted. unfold votes_for, states_in_order.
  assert (∀ kf, kf ∈ merge_sort (entry_leb fst) (map_to_list (current_states_ s)) → address_ kf.2 = kf.1) as Hk.
  { intros [k f] Hin. rewrite merge_sort_Permutation in Hin. apply elem_of_map_to_list in Hin. by apply Hs. }
  induction (merge_sort _ _) as [|[k f] l IH]; [done|]. rewrite fmap_cons, !filter_cons. cbn [fst snd].
  rewrite (Hk (k, f) ltac:(by left) : address_ f = k).
  destruct (decide (n_upgrade (msg_ f) = u ∧ k ∈ fst <$> validators)) as [[? ?]|Hn].
  - rewrite decide_True by (by rewrite elem_of_list_to_set). cbn. f_equal. apply IH. intros kf ?. apply Hk. by right.
  - rewrite decide_False by (by rewrite elem_of_list_to_set). apply IH. intros kf ?. apply Hk. by right.
Qed.

Lemma elem_of_stored s validators u a : a ∈ stored_voters s validators u ↔
  ∃ f, current_states_ s !! a = Some f ∧ n_upgrade (msg_ f) = u ∧ a ∈ fst <$> validators.
Proof. unfold stored_voters. rewrite elem_of_dom. unfold is_Some. by setoid_rewrite map_lookup_filter_Some. Qed.

Lemma stored_disjoint s validators u u' : u ≠ u' → stored_voters s validators u ## stored_voters s validators u'.
Proof.
  intros Hne a (f & Ef & Hu & _)%elem_of_stored (g & Eg & Hu' & _)%elem_of_stored. rewrite Ef in Eg. injection Eg as <-. congruence.
Qed.

Lemma stored_validators s validators u : stored_voters s validators u ⊆ list_to_set (fst <$> validators).
Proof. intros a (f & _ & _ & H)%elem_of_stored. by apply elem_of_list_to_set. Qed.

(** Fewer than twice the quorum cannot vote for two upgrades. *)
Lemma stored_unique s validators u u' q : Z.of_nat (length validators) < 2 * q →
  q ≤ Z.of_nat (base.size (stored_voters s validators u)) → q ≤ Z.of_nat (base.size (stored_voters s validators u')) → u = u'.
Proof.
  intros Hq H1 H2. apply dec_stable. intros Hne. pose proof (size_union _ _ (stored_disjoint s validators u u' Hne)) as Hu.
  assert (base.size (stored_voters s validators u ∪ stored_voters s validators u') ≤ length validators)%nat; [|lia].
  transitivity (base.size (list_to_set (fst <$> validators) : gset bytes)).
  - apply subseteq_size, union_least; apply stored_validators.
  - rewrite <- (length_fmap fst validators). apply size_list_to_set_le.
Qed.

(** C26: An upgrade is proposed exactly when enough validators ask for it.  After any sequence
    of messages, timers, upgrades and changes of the own version, and for a quorum of at
    least one and of more than half of the validators, [GetValid] answers an upgrade if and
    only if at least that many different validators ask for it in the last message, of those
    received and the node's own, that is correctly signed with their key and for this chain,
    if no timer since found that message older than five minutes and no upgrade of the ledger
    ended the vote. *)
Theorem upgrade_needs_quorum es validators q u :
  1 ≤ q → Z.of_nat (length validators) < 2 * q →
  GetValid (upgrade_run es) validators q = Some u ↔ q ≤ Z.of_nat (base.size (voters es validators u)).
Proof.
  intros Hq1 Hq2. rewrite <- stored_is_voters. pose proof (upgrade_run_ok es) as Hs. set (s := upgrade_run es) in *.
  pose proof (count_counted (list_to_set (fst <$> validators)) (states_in_order s)) as Hc. unfold GetValid.
  fold (counter_upgrade s validators) in Hc. split.
  - case_decide; [done|]. case_match eqn:E; [|done]. destruct p as [i [k [u' n]]]. intros [= <-]. cbn.
    apply list_find_Some in E as (Hi & Hn & _). cbn in Hn. apply list_elem_of_lookup_2 in Hi.
    rewrite merge_sort_Permutation in Hi. apply elem_of_map_to_list, (co_entry _ _ _ Hc) in Hi as [_ ->].
    by rewrite votes_stored in Hn.
  - intros Hv. assert (∃ a, a ∈ stored_voters s validators u) as [a Ha].
    { apply set_choose_L. intros E. rewrite E, size_empty in Hv. lia. }
    pose proof Ha as (f & Hf & Hu & _)%elem_of_stored.
    rewrite decide_False by (intros E; by rewrite E, lookup_empty in Hf).
    assert (f ∈ states_in_order s) as Hin.
    { unfold states_in_order. apply list_elem_of_fmap. exists (a, f). split; [done|]. rewrite merge_sort_Permutation. by apply elem_of_map_to_list. }
    destruct (co_all _ _ _ Hc f Hin) as [[u' n] Hx]. rewrite Hu in Hx.
    pose proof (co_entry _ _ _ Hc _ _ _ Hx) as [Eu ->]. apply Hser in Eu. subst u'.
    rewrite votes_stored in Hx by done. case_match eqn:E.
    + destruct p as [i [k [u' n]]]. cbn. f_equal. apply list_find_Some in E as (Hi & Hn & _). cbn in Hn. apply list_elem_of_lookup_2 in Hi.
      rewrite merge_sort_Permutation in Hi. apply elem_of_map_to_list, (co_entry _ _ _ Hc) in Hi as [_ ->].
      rewrite votes_stored in Hn by done. by eapply (stored_unique s validators u' u).
    + exfalso. apply list_find_None in E. rewrite list.Forall_forall in E.
      apply (E (SerUpgrade u, (u, Z.of_nat (base.size (stored_voters s validators u))))); [|done].
      rewrite merge_sort_Permutation. by apply elem_of_map_to_list.
Qed.
End upgrade.
