(* ===== verification/Glue.v ===== *)
(** * Proposing and agreeing on blocks (src/src/glue/glue_manager.cpp,
      [LedgerContextManager::SyncPreProcess])

    The leader builds a value from the pool of transactions, has it executed, drops what
    cannot be executed and hands the value to the consensus ([StartConsensus]); the other
    validators check it ([CheckValue]); when it is agreed, every node closes the block
    ([OnValueCommited]).  The pool ([TxQueue]) and the consensus ([Pbft]) appear as arguments
    and as actions. *)
From stdpp Require Import base gmap list sorting strings.
From Stdlib Require Import ZArith Lia.
From S2P Require Import Prelude Location Trie KVTrie SafeInt Strings Hex Base58 AtomMap Account LedgerMsg Environment LedgerFrm LedgerCommit ChainMsg Chain.
Local Open Scope Z_scope.

(** What becomes of the thread that executes a value: it cannot be started; it is still
    running after five seconds, when [count] transactions are done, and [late] says whether it
    ends before it sees that it is cancelled; or it finishes. *)
Inductive outcome := StartFailed | TimedOut (count : Z) (late : bool) | Finished.

(** What [GlueManager] asks of the consensus, of the pool and of the timers: the call of
    [StartConsensus] that is posted for the time [next_timestamp], and the timer that makes the
    consensus change its view when no block is closed for [LEDGER_CLOSE_TIMEOUT]. *)
Inductive action :=
  | Request (value : bytes)
  | RemoveTxs (txs : list TransactionEnv) (close_ledger : bool)
  | PostNextRound (next_timestamp : Z)
  | StartLedgerCloseTimer (timeout : Z).

(** In microseconds. *)
Definition LEDGER_CLOSE_TIMEOUT : Z := 20 * 1000000 + 10 * 1000000.

Section glue.
Context {LH : LedgerHost} {CC : ChainCodec} {AC : AccountCodec} {JA : JsonAccess}.
Context (SerializeAsString : Node → bytes) (ParseFromString : bytes → Node).
Context (CheckProof : ValidatorSet → bytes → bytes → bool) (cfg : Configure).
Context (Do : APPLY_MODE → LedgerManager → Value → res Execution).

Local Abbreviation CheckValueHelper := (CheckValueHelper CheckProof cfg).
Local Abbreviation OnConsent := (OnConsent SerializeAsString ParseFromString CheckProof cfg Do).

(** The end of [LedgerContext::Do]: a successful execution is kept. *)
Definition keep_execution (m : LedgerManager) (v : Value) (ex : Execution) : LedgerManager :=
  if exec_result_ (propose_result_ ex) then MoveRunningToComplete m (Crypto (SerValue v)) (mkContext (v_seq v) ex) else m.

(** The caller's [propose_result] is fresh. *)
Definition SyncPreProcess (o : outcome) (m : LedgerManager) (v : Value) (propose : bool) : res (LedgerManager * ProposeTxsResult * bool) :=
  let check_complete := CheckComplete m (Crypto (SerValue v)) in
  if 0 <? check_complete then mret (m, new_ProposeTxsResult, check_complete =? 1)
  else match o with
       | StartFailed => mret (m, mkProposeResult true false 0 (mkValidation [] []) [], false)
       | TimedOut count late =>
           m ← (if late then
                  ex ← Do (if propose then APPLY_MODE_PROPOSE else APPLY_MODE_CHECK) m v;
                  mret (keep_execution (set_ticks (ex_tick ex) m) v ex)
                else mret m);
           mret (m, mkProposeResult true false count (mkValidation [] []) [], false)
       | Finished =>
           ex ← Do (if propose then APPLY_MODE_PROPOSE else APPLY_MODE_CHECK) m v;
           mret (keep_execution (set_ticks (ex_tick ex) m) v ex, propose_result_ ex, exec_result_ (propose_result_ ex))
       end.

(** [true] is [CHECK_VALUE_VALID]. *)
Definition CheckValue (o : outcome) (m : LedgerManager) (value : bytes) (now : Z) : res (LedgerManager * bool) :=
  match ParseValue value with
  | None => mret (m, false)
  | Some consensus_value =>
      if negb (CheckValueHelper m consensus_value now) then mret (m, false)
      else '(m, _, ok) ← SyncPreProcess o m consensus_value false; mret (m, ok)
  end.

(** ** [StartConsensus] *)

(** [int64_t(total_tx_count * 0.7 + 0.5)]. *)
Definition double_0_7 : double := (0x16666666666666, -53).
Definition next_tx_size (total_tx_count : Z) : Z :=
  double_to_int (double_add (double_mul (double_of_int total_tx_count) double_0_7) (1, -1)).

(** The value before execution; [up] is the upgrade that [GetValid] found. *)
Definition propose_value (m : LedgerManager) (txset : list TransactionEnv) (next_close_time : Z) (proof : bytes)
    (up : option LedgerUpgrade) : Value :=
  let lcl := GetLastClosedLedger m in
  mkValue (mkConsensusValue txset next_close_time (i64 (h_seq lcl + 1)) None) proof (h_hash lcl)
    match up with
    | Some u => if (h_version lcl <? new_ledger_version u) && (new_ledger_version u <=? LEDGER_VERSION) then Some u else None
    | None => None
    end.

(** The elements whose index is in [ids], or not. *)
Definition pick_txs (keep : bool) (ids : list Z) (l : list TransactionEnv) : list TransactionEnv :=
  omap (λ it : nat * TransactionEnv, if decide (bool_decide (Z.of_nat it.1 ∈ ids) = keep) then Some it.2 else None)
    (imap (λ i t, (i, t)) l).

Definition set_validation (v : Value) (txs : list TransactionEnv) (val : option ConsensusValueValidation) : Value :=
  mkValue (mkConsensusValue txs (v_close_time v) (v_seq v) val) (previous_proof v) (previous_ledger_hash v) (ledger_upgrade v).

(** The value after a successful execution, and the transactions to drop. *)
Definition finish_proposal (v : Value) (txset_raw : list TransactionEnv) (r : ProposeTxsResult) : Value * list action :=
  let dropped := need_dropped r in
  let txs := if decide (dropped = []) then txset_raw else pick_txs false dropped txset_raw in
  let val := if decide (error_tx_ids (cons_validation_ r) = [] ∧ expire_tx_ids (cons_validation_ r) = [])
             then None else Some (cons_validation_ r) in
  (set_validation v txs val, if decide (dropped = []) then [] else [RemoveTxs (pick_txs true dropped txset_raw) false]).

(** The loop.  [sched i l] is the outcome of the [i]-th execution, of the transactions [l]. *)
Fixpoint start_loop (fuel : nat) (i : nat) (sched : nat → list TransactionEnv → outcome) (m : LedgerManager)
    (txset_raw : list TransactionEnv) (next_close_time : Z) (proof : bytes) (up : option LedgerUpgrade)
    : res (LedgerManager * list action) :=
  match fuel with
  | O => Err OutOfFuel
  | S fuel =>
      let v := propose_value m txset_raw next_close_time proof up in
      '(m, r, _) ← SyncPreProcess (sched i txset_raw) m v true;
      if block_timeout_ r then
        let n := Z.of_nat (length txset_raw) in
        let total_tx_count := if tx_execute_count_ r =? 0 then n else Z.min (tx_execute_count_ r) n in
        start_loop fuel (S i) sched m (take (Z.to_nat (next_tx_size total_tx_count)) txset_raw) next_close_time proof up
      else
        let '(v, drops) := finish_proposal v txset_raw r in
        mret (m, drops ++ [Request (SerValue v)])
  end.

Definition next_close_time (m : LedgerManager) (now : Z) : Z :=
  let least := i64 (h_close_time (GetLastClosedLedger m) + close_interval_ cfg) in
  if now <? least then least else now.

(** [txset_raw] is what the pool offers, [last] the last prepared value of the consensus and
    [o] the outcome of checking it. *)
Definition StartConsensus (fuel : nat) (sched : nat → list TransactionEnv → outcome) (o : outcome) (m : LedgerManager)
    (is_leader : bool) (txset_raw : list TransactionEnv) (last_consvalue : bytes) (up : option LedgerUpgrade) (now : Z)
    : res (LedgerManager * list action) :=
  if negb is_leader then mret (m, [])
  else
    let close_time := next_close_time m now in
    '(m, valid) ← (if decide (last_consvalue = []) then mret (m, false) else CheckValue o m last_consvalue now);
    match ParseValue last_consvalue with
    | Some v =>
        if (valid : bool) then mret (m, [Request (SerValue v)])
        else start_loop fuel 0 sched m txset_raw close_time (db_Get (account_db m) LAST_PROOF).2 up
    | None => start_loop fuel 0 sched m txset_raw close_time (db_Get (account_db m) LAST_PROOF).2 up
    end.

(** ** [OnValueCommited] *)

(** A text that is no value reads as the empty one. *)
Definition empty_value : Value := mkValue (mkConsensusValue [] 0 0 None) [] [] None.

(** The interval to the next block does not depend on whether the block is empty. *)
Definition GetIntervalTime (empty_block : bool) : Z := close_interval_ cfg.

(** The hash of the last closed ledger is returned to the consensus. *)
Definition OnValueCommited (m : LedgerManager) (value proof : bytes) (now : Z)
    : res (LedgerManager * bytes * list effect * list action) :=
  let req := default empty_value (ParseValue value) in
  '(m, _, posts) ← OnConsent m req proof now;
  let next_timestamp := i64 (GetIntervalTime (bool_decide (v_txs req = [])) + v_close_time req) in
  mret (m, h_hash (GetLastClosedLedger m), posts,
    [RemoveTxs (v_txs req) true; PostNextRound next_timestamp; StartLedgerCloseTimer LEDGER_CLOSE_TIMEOUT]).

(** The posted step: the leader waits until [next_timestamp], and at least for one tick. *)
Definition next_round (is_leader : bool) (next_timestamp now : Z) : option Z :=
  let waiting_time := i64 (next_timestamp - now) in
  let waiting_time := if waiting_time <=? 0 then 1 else waiting_time in
  if is_leader then Some waiting_time else None.

(** After a view change the new leader proposes again, at once. *)
Definition OnViewChanged (fuel : nat) (sched : nat → list TransactionEnv → outcome) (o : outcome) (m : LedgerManager)
    (is_leader : bool) (txset_raw : list TransactionEnv) (last_consvalue : bytes) (up : option LedgerUpgrade) (now : Z)
    : res (LedgerManager * list action) :=
  '(m, acts) ← StartConsensus fuel sched o m is_leader txset_raw last_consvalue up now;
  mret (m, acts ++ [StartLedgerCloseTimer LEDGER_CLOSE_TIMEOUT]).

(** ** Runs *)

(** No block number comes near the end of its type. *)
Definition room (m : LedgerManager) (n : nat) : Prop := h_seq (last_closed_ledger_ m) + Z.of_nat n < 2 ^ 63.

(** The handlers of a node: agreed values from the consensus, values from peers, the timer,
    and the executions of proposals. *)
Inductive node_step (m : LedgerManager) : LedgerManager → Prop :=
  | step_commit value proof now m' h posts acts : room m 1 →
      OnValueCommited m value proof now = Ok (m', h, posts, acts) → node_step m m'
  | step_receive ledgers peer now m' posts : room m (length (l_values ledgers)) →
      OnReceiveLedgers SerializeAsString ParseFromString CheckProof cfg Do m ledgers peer now = Ok (m', posts) → node_step m m'
  | step_timer now peers : node_step m (OnTimer m now peers).1
  | step_check o value now m' ok : CheckValue o m value now = Ok (m', ok) → node_step m m'
  | step_start fuel sched o leader txs last up now m' acts :
      StartConsensus fuel sched o m leader txs last up now = Ok (m', acts) → node_step m m'
  | step_view fuel sched o leader txs last up now m' acts :
      OnViewChanged fuel sched o m leader txs last up now = Ok (m', acts) → node_step m m'.

Inductive node_run (m : LedgerManager) : LedgerManager → Prop :=
  | run_done : node_run m m
  | run_step m' m'' : node_run m m' → node_step m' m'' → node_run m m''.
End glue.
