(* ===== verification/ChainStart.v ===== *)
(** * Start, restart and crash

    [LedgerManager::Initialize] on the databases of a node: after a regular end, and after a
    crash between the two writes of [CloseLedger]. *)
From stdpp Require Import base gmap list sorting strings.
From Stdlib Require Import ZArith Lia.
From S2P Require Import Prelude Location Trie TrieSpec TrieOps TrieHash KVTrie TrieMap TrieRefinement TrieCanon TrieShared TrieRehash SafeInt Strings Hex Base58 AtomMap Account LedgerMsg Environment LedgerFrm LedgerCommit ChainMsg Chain ChainDb ChainInv Glue.
Local Open Scope Z_scope.

Section start.
Context {LH : LedgerHost} {CC : ChainCodec} {CL : ChainCodecLaws} {AC : AccountCodec} {JA : JsonAccess}.
Context (SerializeAsString : Node → bytes) (ParseFromString : bytes → Node).
Context (Hparse : ∀ n, ParseFromString (SerializeAsString n) = n).
Context (CheckProof : ValidatorSet → bytes → bytes → bool) (cfg : Configure).
Context (Do : APPLY_MODE → LedgerManager → Value → res Execution).
Context (Hcrypto : ∀ x y : bytes, Crypto x = Crypto y → x = y).

#[local] Instance kv_start : TrieStorage KVStore := KVTrie SerializeAsString ParseFromString Crypto.
Local Abbreviation CloseLedger := (CloseLedger SerializeAsString ParseFromString CheckProof cfg Do).
Local Abbreviation Initialize := (Initialize SerializeAsString ParseFromString cfg).
Local Abbreviation chain_ok := (chain_ok CheckProof cfg).
Local Abbreviation tree_at := (tree_at SerializeAsString ParseFromString Crypto).
Local Abbreviation subtrees := (subtrees SerializeAsString ParseFromString Crypto).
Local Abbreviation committing := (committing SerializeAsString ParseFromString Crypto).
Local Abbreviation stored := (stored SerializeAsString ParseFromString Crypto).
Local Abbreviation tree_hash := (tree_hash SerializeAsString ParseFromString Crypto).

(** The tree of accounts between two blocks: it stands for [d], and so does the database
    alone; what waits in the batch changes nothing. *)
Record standby (t : Trie KVStore) (d : disk) : Prop := {
  sb_rel todo : committing (content (mdb_ (store_ t))) t d todo;
  sb_tree : tree_at (content (mdb_ (store_ t))) ACCOUNT_PREFIX (d_accounts d);
  sb_sub : subtrees (content (mdb_ (store_ t))) d }.

Lemma stored_standby t d : stored t d → standby t d.
Proof.
  intros Hst. pose proof Hst as [Hc Es Hs]. split; [intros todo; by apply stored_committing| |done].
  rewrite (trie_eta _ _ Es) in Hc. by eapply clean_tree_at.
Qed.

(** The header names the tree. *)
Record tree_ok (m : LedgerManager) (d : disk) : Prop := {
  to_standby : standby (tree_ m) d;
  to_hash : h_account_tree_hash (last_closed_ledger_ m) = tree_hash (d_accounts d);
  to_some : d_accounts d ≠ ∅ }.

Lemma standby_db t d : standby t d → mdb_ (store_ t) = good_db (content (mdb_ (store_ t))).
Proof. intros Hs. pose proof (cm_store _ _ _ _ _ _ _ (sb_rel _ _ Hs [])) as E. by rewrite E at 1. Qed.

(** Opening the tree and hashing it. *)
Lemma open_tree C d :
  tree_at C ACCOUNT_PREFIX (d_accounts d) → subtrees C d → d_accounts d ≠ ∅ →
  ∃ t, Init SerializeAsString ParseFromString Crypto (good_db C) [] ACCOUNT_PREFIX 4 = Ok t ∧ mdb_ (store_ t) = good_db C ∧
    let t' := UpdateHash t in
    mdb_ (store_ t') = good_db C ∧ prefix_ (store_ t') = ACCOUNT_PREFIX ∧ trie_ops (batch_ (store_ t')) ∧
    root_hash_ t' = tree_hash (d_accounts d) ∧ standby t' d.
Proof.
  intros [n0 Hc] Hsub Hne.
  destruct (Init_root SerializeAsString ParseFromString Crypto Hparse _ _ 4 [] Hc) as (n & E & Hn). cbn [store_ mdb_ prefix_] in E, Hn.
  exists (mkTrie (mkKV (good_db C) ACCOUNT_PREFIX []) n []). split; [exact E|]. split; [done|].
  destruct (Init_leaf SerializeAsString ParseFromString Crypto _ _ _ _ _ E) as [Hl Hd].
  destruct (rehash SerializeAsString ParseFromString Crypto Hparse C ACCOUNT_PREFIX [] n [] [] _ Hn Hne Hl Hd) as [Eu Ht]; [by intros k|].
  change (kv_rehash SerializeAsString ParseFromString Crypto) with kv_start in Eu. cbv zeta. rewrite Eu.
  cbn [store_ mdb_ prefix_ batch_ root_hash_ app] in *.
  assert (on ACCOUNT_PREFIX [BPut (ACCOUNT_PREFIX ++ rootl) (SerializeAsString (info_ n))]) as Hon
    by (constructor; [by eexists|constructor]).
  split_and!; [done..|eapply on_trie_ops; [|exact Hon]; by left|done|].
  split; cbn [store_ mdb_ content good_db]; [|by exists n0|done].
  intros todo. split; cbn [store_ batch_]; [exact Ht|done| |].
  - intros i Hi. destruct (Hsub i Hi). split; (apply tree_at_off; [|done]); eapply on_off; [|exact Hon| |exact Hon]; apply apart_sym;
      [apply apart_asset_acc|apply apart_meta_acc].
  - intros i _. split; (eapply on_off; [|exact Hon]); apply apart_sym; [apply apart_asset_acc|apply apart_meta_acc].
Qed.

(** The node that [Initialize] makes of what is on disk. *)
Definition reopened (m : LedgerManager) (t : Trie KVStore) : LedgerManager :=
  mkManager (ledger_db m) t (last_closed_ledger_ m) (last_closed_ledger_ m) (validators_ m) (fees_ m) (proof_ m)
    (account_count m) (h_chain_id (last_closed_ledger_ m)) ∅ (mkSync 0 ∅) 0 0.

Lemma reopened_ok m t : chain_ok m → mdb_ (store_ t) = account_db m → prefix_ (store_ t) = ACCOUNT_PREFIX →
  trie_ops (batch_ (store_ t)) → chain_ok (reopened m t).
Proof.
  intros [] Ed Ep Hb. assert (account_db (reopened m t) = account_db m) as Ea by exact Ed.
  split; rewrite ?Ea; try done.
  - intros k Hk. change (batch_ (store_ (tree_ (reopened m t)))) with (batch_ (store_ t)). apply apply_avoids. by eapply trie_ops_avoid.
  - by destruct ck_proof.
Qed.

Lemma repair_same os m : chain_ok m → CheckAndRepairLedgerSeq os (ledger_db m) (account_db m) = Some (ledger_db m).
Proof.
  intros Hm. unfold CheckAndRepairLedgerSeq. destruct os; [done|].
  rewrite (db_Get_ok (ledger_db m)), (db_Get_ok (account_db m)), (ck_ledger_seq _ _ _ Hm), (ck_account_seq _ _ _ Hm) by apply Hm.
  cbn [Z.eqb andb]. by rewrite Z.eqb_refl.
Qed.

(** What [Initialize] does once the database of ledgers is repaired and the tree is open. *)
Lemma Initialize_given os m ldb t : chain_ok m →
  CheckAndRepairLedgerSeq os ldb (account_db m) = Some (ledger_db m) →
  Init SerializeAsString ParseFromString Crypto (account_db m) [] ACCOUNT_PREFIX 4 = Ok t →
  Initialize os ldb (account_db m) =
    if decide (h_account_tree_hash (last_closed_ledger_ m) ≠ root_hash_ (UpdateHash t)) then Ok None
    else Ok (Some (reopened m (UpdateHash t), [UpdateValidators (validators_ m) (proof_ m)])).
Proof.
  intros Hm Er Et. assert (mdb_ (store_ t) = account_db m) as Em by (by rewrite (Init_store _ _ _ _ _ _ _ _ Et)).
  unfold Chain.Initialize. rewrite Er, Et. cbn [mbind res_bind]. destruct (ck_range _ _ _ Hm) as [Hr1 Hr2].
  assert (load_or_create SerializeAsString ParseFromString cfg (ledger_db m) t = Ok (Some (ledger_db m, t, last_closed_ledger_ m, 0))) as ->.
  { unfold load_or_create. rewrite Em, db_Get_ok, (ck_account_seq _ _ _ Hm) by apply Hm. cbn [fst Z.eqb].
    unfold GetMaxLedger. rewrite db_Get_ok, (ck_ledger_seq _ _ _ Hm) by apply Hm. cbn [Z.ltb Z.compare Z.eqb mbind res_bind].
    change (1 <? 0) with false. cbn [mbind res_bind]. rewrite Stoi64_ToString by (unfold is_i64, INT64_MIN, INT64_MAX; lia).
    cbn [mret res_ret mbind res_bind]. rewrite LoadFromDb_ok, (b_stored _ _ _ _ (ck_top _ _ _ Hm)) by apply Hm. cbn. by rewrite header_back. }
  cbn [mbind res_bind]. rewrite Em, db_Get_ok, (ck_stat _ _ _ Hm) by apply Hm. cbn [Z.eqb]. rewrite stat_back.
  rewrite (ValidatorsGet_ok _ _ (validators_ m)) by apply Hm.
  assert (FeesConfigGet (account_db m) (h_fees_hash (last_closed_ledger_ m)) = Some (fees_ m)) as ->.
  { unfold FeesConfigGet. rewrite db_Get_ok, (ck_fees _ _ _ Hm) by apply Hm. apply fees_back. }
  assert ((db_Get (account_db m) LAST_PROOF).2 = proof_ m) as ->.
  { rewrite db_Get_ok by apply Hm. rewrite <- (pr_stored _ _ _ _ _ (ck_proof _ _ _ Hm)). by destruct (content (account_db m) !! LAST_PROOF). }
  change (kv_chain SerializeAsString ParseFromString) with kv_start. unfold GetRootHash. case_decide; [done|].
  destruct (Z.ltb_spec LEDGER_VERSION (h_version (last_closed_ledger_ m))); [pose proof (ck_version _ _ _ Hm); lia|]. done.
Qed.

Lemma Initialize_reopens os m d ldb : chain_ok m → tree_ok m d →
  CheckAndRepairLedgerSeq os ldb (account_db m) = Some (ledger_db m) →
  ∃ t, Initialize os ldb (account_db m) = Ok (Some (reopened m t, [UpdateValidators (validators_ m) (proof_ m)])) ∧
    chain_ok (reopened m t) ∧ tree_ok (reopened m t) d.
Proof.
  intros Hm [Hs Hh Hne] Er. pose proof (standby_db _ _ Hs) as Edb. fold (account_db m) in Edb.
  destruct (open_tree (content (account_db m)) d) as (t & Et & Em & Em' & Ep & Hb & Eh & Hsb); [apply Hs|apply Hs|done|].
  rewrite <- Edb in Et, Em, Em'. exists (UpdateHash t). split; [|split; [by apply reopened_ok|by split]].
  rewrite (Initialize_given os m ldb t) by done. rewrite decide_False; [done|]. rewrite Hh, Eh. intros Hn. by apply Hn.
Qed.

(** A start that succeeds on the databases of a node has its chain. *)
Lemma Initialize_ok os m ldb m' fx : chain_ok m → CheckAndRepairLedgerSeq os ldb (account_db m) = Some (ledger_db m) →
  Initialize os ldb (account_db m) = Ok (Some (m', fx)) → (∃ t, m' = reopened m t) ∧ chain_ok m' ∧ account_db m' = account_db m.
Proof.
  intros Hm Er E. pose proof E as Ei. unfold Chain.Initialize in E. rewrite Er in E. apply bind_Ok_inv in E as (t & Et & _).
  rewrite (Initialize_given os m ldb t) in Ei by done. case_decide; [done|]. injection Ei as <- _.
  pose proof (Init_store _ _ _ _ _ _ _ _ Et) as Es. destruct (UpdateHash_appends SerializeAsString ParseFromString Crypto t) as (A1 & A2 & b & A3 & A4).
  change (kv_db SerializeAsString ParseFromString Crypto) with kv_start in A1, A2, A3. rewrite Es in A1, A2, A3, A4. cbn [mdb_ prefix_ batch_ app] in *.
  split; [by eexists|]. split; [|exact A1]. apply reopened_ok; [done..|]. rewrite A3. eapply on_trie_ops; [|exact A4]. by left.
Qed.

(** ** The tree follows the chain *)

Lemma puts_not_trie m v cl proof n : Forall (λ o, ¬ trie_key (op_key o)) (account_puts m v cl proof n).
Proof.
  destruct (puts_shape m v cl proof n) as (b & -> & Hb & _). constructor; [apply seq_not_trie|]. apply Forall_app. split.
  - eapply list.Forall_impl; [exact Hb|]. intros o [-> | ->]; [apply validators_not_trie|apply fees_not_trie].
  - constructor; [apply proof_not_trie|]. constructor; [apply stat_not_trie|constructor].
Qed.

Lemma not_trie_off p b : (∀ k, p `prefix_of` k → trie_key k) → Forall (λ o, ¬ trie_key (op_key o)) b → off p b.
Proof. intros Hp Hb. eapply list.Forall_impl; [exact Hb|]. intros o Ho Hk. by apply Ho, Hp. Qed.

Lemma spec_commit_some d l : d_accounts d ≠ ∅ → d_accounts (spec_commit SerializeAsString ParseFromString Crypto d l) ≠ ∅.
Proof.
  revert d. induction l as [|[k [a|]] l IH]; intros d Hd; [done| |by apply IH].
  change (d_accounts (spec_commit SerializeAsString ParseFromString Crypto (spec_entry SerializeAsString ParseFromString Crypto d (k, Some a)) l) ≠ ∅).
  apply IH. cbn [spec_entry d_accounts]. apply insert_non_empty.
Qed.

Lemma closed_tree m v proof m' cl t d : tree_ok m d →
  closed SerializeAsString ParseFromString CheckProof cfg m v proof m' cl t →
  Forall entry_ok (cl_entries cl) → NoDup (indices (cl_entries cl)) →
  tree_ok m' (spec_commit SerializeAsString ParseFromString Crypto d (cl_entries cl)).
Proof.
  intros [Hs Hh Hne] Hc He Hn. destruct (cd_count _ _ _ _ _ _ _ _ _ _ Hc) as (n & Et & _).
  destruct (commit_tree_ready SerializeAsString ParseFromString Crypto Hparse _ _ d (cl_entries cl) (sb_rel _ _ Hs _) He Hn)
    as (t1 & n1 & E1 & Hd). rewrite Et in E1. injection E1 as <- <-.
  destruct (write_tree_spec SerializeAsString ParseFromString Crypto t _ (account_puts m v cl proof (account_count m')) Hd) as (t' & Ew & Hst & _).
  { eapply not_trie_off; [|apply puts_not_trie]. by left. }
  { intros i. split; (eapply not_trie_off; [|apply puts_not_trie]); [apply trie_key_asset|apply trie_key_meta]. }
  rewrite (cd_tree _ _ _ _ _ _ _ _ _ _ Hc) in Ew. injection Ew as <-. split; [by apply stored_standby| |by apply spec_commit_some].
  rewrite (cd_header _ _ _ _ _ _ _ _ _ _ Hc). cbn [next_header set_hash h_account_tree_hash]. apply Hd.
Qed.

(** ** A crash between the two writes *)

Definition with_ledger_db (db : KeyValueDb) (m : LedgerManager) : LedgerManager :=
  mkManager db (tree_ m) (last_closed_ledger_ m) (lcl_header_ m) (validators_ m) (fees_ m)
    (proof_ m) (account_count m) (self_chain m) (completed_ctxs_ m) (sync_ m) (chain_max_ledger_probaly_ m) (ticks m).

Lemma block_ledger L L' A k h : L' !! ldg k = L !! ldg k → block L A k h → block L' A k h.
Proof. intros E [E1 E2 E3 E4]. split; try done. by rewrite E. Qed.

(** The invariant reads the headers and values of the chain only. *)
Lemma chain_ok_ledger db m : chain_ok m → (∀ k, read_error db k = false) →
  content db !! KEY_LEDGER_SEQ = Some (ToString (head_seq m)) →
  (∀ k, 1 ≤ k ≤ head_seq m → content db !! ldg k = content (ledger_db m) !! ldg k) →
  (∀ k, 1 ≤ k ≤ head_seq m → content db !! cosv k = content (ledger_db m) !! cosv k) →
  chain_ok (with_ledger_db db m).
Proof.
  intros [] Hr Hs Hl Hv. change (head_seq m) with (head_seq (with_ledger_db db m)) in *.
  set (A := content (account_db m)) in *. split; try done; change (content (ledger_db (with_ledger_db db m))) with (content db) in *;
    change (content (account_db (with_ledger_db db m))) with A in *.
  - eapply block_ledger; [|exact ck_top]. apply Hl. lia.
  - intros k Hk. destruct (ck_blocks k Hk) as [h Hh]. exists h. eapply block_ledger; [|exact Hh]. by apply Hl.
  - intros k h0 h Hk H0 H1. apply (block_ledger _ (content (ledger_db m))) in H0; [|symmetry; apply Hl; lia].
    apply (block_ledger _ (content (ledger_db m))) in H1; [|symmetry; apply Hl; lia].
    destruct (ck_links k h0 h Hk H0 H1) as [F1 F2 F3 [w [G1 G2 G3 G4 (set & G5 & G6) G7]]]. split; try done. exists w. split; try done.
    + rewrite Hv by lia. done.
    + exists set. split; [done|]. intros H2. destruct (G6 H2) as (g & us & -> & Hb & Hus). exists g, us. split_and!; try done.
      eapply block_ledger; [|exact Hb]. apply Hl. change (head_seq (with_ledger_db db m)) with (head_seq m) in *. lia.
  - destruct ck_proof as [P1 P2 P3]. split; try done. intros H. destruct (P3 H) as (h0 & vs & B1 & B2 & B3). exists h0, vs.
    split_and!; try done. eapply block_ledger; [|exact B1]. apply Hl. change (head_seq (with_ledger_db db m)) with (head_seq m) in *. lia.
Qed.

(** The databases after the ledger is written and before the accounts are: the sequence
    numbers differ by one, and the repair takes back the one of the ledgers. *)
Lemma crash_repair m v proof m' cl t : chain_ok m → room m 1 →
  closed SerializeAsString ParseFromString CheckProof cfg m v proof m' cl t →
  ∃ db, CheckAndRepairLedgerSeq false (ledger_db m') (account_db m) = Some db ∧ chain_ok (with_ledger_db db m) ∧
    ∀ k, 1 ≤ k ≤ head_seq m → content db !! ldg k = content (ledger_db m) !! ldg k.
Proof.
  intros Hm Hr Hc. pose proof (cd_ledger _ _ _ _ _ _ _ _ _ _ Hc) as [A1 A2 A3 A4 A5 A6].
  unfold room in Hr. fold (head_seq m) in Hr. destruct (ck_range _ _ _ Hm) as [R1 R2].
  destruct (closed_seq _ _ _ _ _ _ _ _ _ _ Hm ltac:(lia) Hc) as [Ev Es]. unfold head_seq in Es at 1. rewrite Es in *.
  assert (∀ z, 1 ≤ z ≤ head_seq m + 1 → is_i64 z) as Hi by (intros z; unfold is_i64, INT64_MIN, INT64_MAX; lia).
  exists (mkDb (<[KEY_LEDGER_SEQ := ToString (head_seq m)]> (content (ledger_db m'))) (read_error (ledger_db m')) (write_ok (ledger_db m'))).
  assert (∀ k, 1 ≤ k ≤ head_seq m → <[KEY_LEDGER_SEQ := ToString (head_seq m)]> (content (ledger_db m')) !! ldg k = content (ledger_db m) !! ldg k) as Hl.
  { intros k Hk. rewrite lookup_insert_ne by done. rewrite A5 by (apply Hi || lia; lia).
    apply apply_avoids. constructor; [|constructor]. apply not_eq_sym, ldg_cosv. }
  split; [|split; [|exact Hl]].
  - unfold CheckAndRepairLedgerSeq. rewrite (db_Get_ok (ledger_db m')), (db_Get_ok (account_db m)) by (rewrite ?A1; apply Hm).
    rewrite A3, (ck_account_seq _ _ _ Hm). cbn [Z.eqb andb]. rewrite !Stoi64_ToString by (apply Hi; lia).
    destruct (Z.eqb_spec (head_seq m) (head_seq m + 1)); [lia|]. rewrite i64_small by lia.
    replace (head_seq m + 1 - 1) with (head_seq m) by lia. rewrite Z.eqb_refl. cbn [negb]. unfold db_Put, db_WriteBatch. by rewrite A2.
  - apply chain_ok_ledger; cbn [read_error content]; [done|intros k; rewrite A1; apply Hm|apply lookup_insert_eq|exact Hl|].
    intros k Hk. rewrite lookup_insert_ne by done. rewrite A6. apply apply_avoids. constructor; [|constructor].
      rewrite Ev. intros E. apply compose_inj in E; [lia|apply Hi; lia..].
Qed.

(** On Linux there is no repair, and the start fails. *)
Lemma crash_linux m d v proof m' cl t : chain_ok m → room m 1 → tree_ok m d →
  closed SerializeAsString ParseFromString CheckProof cfg m v proof m' cl t →
  h_account_tree_hash (last_closed_ledger_ m') ≠ h_account_tree_hash (last_closed_ledger_ m) →
  Initialize true (ledger_db m') (account_db m) = Ok None.
Proof.
  intros Hm Hr [Hs Hh Hne] Hc Hd. pose proof (cd_ledger _ _ _ _ _ _ _ _ _ _ Hc) as [A1 A2 A3 A4 A5 A6].
  pose proof (standby_db _ _ Hs) as Edb. fold (account_db m) in Edb. unfold room in Hr. fold (head_seq m) in Hr.
  destruct (ck_range _ _ _ Hm) as [R1 R2].
  destruct (closed_seq _ _ _ _ _ _ _ _ _ _ Hm ltac:(lia) Hc) as [Ev Es]. unfold head_seq in Es at 1.
  destruct (open_tree (content (account_db m)) d) as (t1 & Et & Em & Em' & Ep & Hb & Eh & Hsb); [apply Hs|apply Hs|done|].
  rewrite <- Edb in Et, Em. unfold Chain.Initialize, CheckAndRepairLedgerSeq. rewrite Et. cbn [mbind res_bind].
  assert (load_or_create SerializeAsString ParseFromString cfg (ledger_db m') t1 = Ok (Some (ledger_db m', t1, last_closed_ledger_ m', 0))) as ->.
  { unfold load_or_create. rewrite Em, db_Get_ok, (ck_account_seq _ _ _ Hm) by apply Hm. cbn [fst Z.eqb].
    unfold GetMaxLedger. rewrite db_Get_ok, A3 by (rewrite A1; apply Hm). change (1 <? 0) with false. cbn [Z.eqb mbind res_bind].
    rewrite Stoi64_ToString by (rewrite Es; unfold is_i64, INT64_MIN, INT64_MAX; lia). cbn [mret res_ret mbind res_bind].
    rewrite LoadFromDb_ok, A4 by (rewrite A1; apply Hm). cbn. by rewrite header_back. }
  cbn [mbind res_bind]. destruct (db_Get _ STATISTICS) as [sr st].
  destruct (ValidatorsGet _ _); [|done]. destruct (FeesConfigGet _ _); [|done].
  change (kv_chain SerializeAsString ParseFromString) with kv_start. unfold GetRootHash. rewrite decide_True; [done|]. congruence.
Qed.

(** ** The first start *)

(** The configured accounts: addresses of 27 bytes, the genesis account not a validator. *)
Record genesis_ok : Prop := {
  ge_account : length (DecodeAddress (genesis_account_ cfg)) = INDEX_LENGTH;
  ge_validators a : a ∈ genesis_validators_ cfg → length (DecodeAddress a) = INDEX_LENGTH;
  ge_other : genesis_account_ cfg ∉ genesis_validators_ cfg }.

Definition add_validator (m : gmap bytes bytes) (a : bytes) : gmap bytes bytes :=
  <[DecodeAddress a := Serializer (CreatAccountFrm a 0)]> m.

Definition genesis_disk : disk :=
  mkDisk (foldl add_validator {[DecodeAddress (genesis_account_ cfg) := Serializer (CreatAccountFrm (genesis_account_ cfg) GENESIS_BALANCE)]}
    (genesis_validators_ cfg)) (λ _, ∅) (λ _, ∅).

Lemma genesis_some : d_accounts genesis_disk ≠ ∅.
Proof.
  cbn [genesis_disk d_accounts]. assert (∀ l (m : gmap bytes bytes), m ≠ ∅ → foldl add_validator m l ≠ ∅) as H.
  { induction l as [|a l IH]; intros m Hm; [done|]. apply IH, insert_non_empty. }
  apply H, map_non_empty_singleton.
Qed.

(** A trie in memory over an empty database, with an untouched leaf at the root. *)
Record building (t : Trie KVStore) (m : gmap bytes bytes) : Prop := {
  bu_rel : trie_rel SerializeAsString ParseFromString Crypto t m;
  bu_store : store_ t = mkKV (good_db ∅) ACCOUNT_PREFIX [];
  bu_leaf : leaf_ (root_ t) = None ∧ leaf_deleted_ (root_ t) = false }.

Lemma building_Set t m k v : building t m → length k = INDEX_LENGTH →
  ∃ t' b, Set_ t k v = Ok (t', b) ∧ building t' (<[k := v]> m).
Proof.
  intros [Hr Hs [Hl Hd]] Hk. destruct (Set_rel SerializeAsString ParseFromString Crypto Hparse t m k v Hr) as (t' & b & E & Hr').
  change (kv_inst SerializeAsString ParseFromString Crypto) with kv_start in E. exists t', b. split; [done|].
  assert (location_ (root_ t) ≠ Key2Location k) as Hne.
  { rewrite (tr_root _ _ _ _ _ Hr). unfold Key2Location. intros [= <-]. done. }
  pose proof E as Es. apply Set_store in Es. split; [done|by rewrite Es|]. by destruct (Set_leaf _ _ _ _ _ E Hne) as [-> ->].
Qed.

Lemma building_validators l : ∀ t m, building t m → (∀ a, a ∈ l → length (DecodeAddress a) = INDEX_LENGTH) → genesis_account_ cfg ∉ l →
  ∃ t', genesis_accounts SerializeAsString ParseFromString cfg l t = Ok (Some t') ∧ building t' (foldl add_validator m l).
Proof.
  induction l as [|a l IH]; intros t m Hb Hl Hg; cbn [genesis_accounts foldl]; [by exists t|].
  apply not_elem_of_cons in Hg as [Hne Hg]. rewrite decide_False by congruence.
  change (GetAccountAddress (CreatAccountFrm a 0)) with a.
  destruct (building_Set t m (DecodeAddress a) (Serializer (CreatAccountFrm a 0)) Hb) as (t1 & b & E & Hb1); [apply Hl; by left|].
  change (kv_chain SerializeAsString ParseFromString) with kv_start. rewrite E. cbn [mbind res_bind].
  apply IH; [done| |done]. intros x Hx. apply Hl. by right.
Qed.

Lemma building_start : ∃ t, Init SerializeAsString ParseFromString Crypto (good_db ∅) [] ACCOUNT_PREFIX 4 = Ok t ∧ building t ∅.
Proof.
  destruct (stored_empty SerializeAsString ParseFromString Crypto Hparse) as (t & E & [Hc Hs _]). exists t. split; [done|].
  split; [apply Hc| |by eapply Init_leaf]. rewrite (Init_store _ _ _ _ _ _ _ _ E). done.
Qed.

Definition genesis_set : ValidatorSet := (λ a, (a, 0)) <$> genesis_validators_ cfg.
Definition genesis_count : Z := 1 + Z.of_nat (length (genesis_validators_ cfg)).
Definition genesis_block : LedgerHeader := genesis_header cfg (tree_hash (d_accounts genesis_disk)) genesis_set.
Definition genesis_puts : list batch_op :=
  [BPut KEY_LEDGER_SEQ (str "1"); BPut KEY_GENE_ACCOUNT (genesis_account_ cfg);
   ValidatorsSet genesis_set; FeesConfigSet (genesis_fees_ cfg); BPut STATISTICS (StatText genesis_count)].

Lemma genesis_puts_not_trie : Forall (λ o, ¬ trie_key (op_key o)) genesis_puts.
Proof.
  repeat constructor; [apply seq_not_trie|apply gene_not_trie|apply validators_not_trie|apply fees_not_trie|apply stat_not_trie].
Qed.

Lemma genesis_creates t : genesis_ok → building t ∅ →
  ∃ ldb b n, CreateGenesisAccount SerializeAsString ParseFromString cfg (good_db ∅) t =
      Ok (Some (ldb, mkTrie (mkKV (good_db (apply_batch (b ++ genesis_puts) ∅)) ACCOUNT_PREFIX (b ++ genesis_puts)) n
        (tree_hash (d_accounts genesis_disk)), genesis_block, genesis_set, genesis_count)) ∧
    added (good_db ∅) [] genesis_block ldb ∧ on ACCOUNT_PREFIX b ∧ leaf_ n = None ∧ leaf_deleted_ n = false ∧
    clean SerializeAsString ParseFromString Crypto (mkTrie (mkKV (good_db (apply_batch b ∅)) ACCOUNT_PREFIX []) n
      (tree_hash (d_accounts genesis_disk))) (d_accounts genesis_disk).
Proof.
  intros [G1 G2 G3] Hb. unfold CreateGenesisAccount. change (kv_chain SerializeAsString ParseFromString) with kv_start.
  change (GetAccountAddress (CreatAccountFrm (genesis_account_ cfg) GENESIS_BALANCE)) with (genesis_account_ cfg).
  destruct (building_Set t ∅ _ (Serializer (CreatAccountFrm (genesis_account_ cfg) GENESIS_BALANCE)) Hb G1) as (t1 & r & -> & Hb1).
  cbn [mbind res_bind]. destruct (building_validators (genesis_validators_ cfg) t1 _ Hb1 G2 G3) as (t2 & -> & Hb2). cbn [mbind res_bind].
  rewrite insert_empty in Hb2. fold (d_accounts genesis_disk) in Hb2. destruct Hb2 as [Hr Hs [Hl Hd]].
  pose proof (UpdateHash_leaf t2) as [Hl' Hd']. rewrite (trie_eta _ _ Hs) in Hr, Hl', Hd' |- *.
  destruct (hash_rel _ _ _ Hparse _ _ _ _ _ _ Hr) as (b & n & Eh & Hon & Hc).
  change (kv_shared SerializeAsString ParseFromString Crypto) with kv_start in Eh. cbn [store_ root_] in *. rewrite Eh in Hl', Hd' |- *.
  cbn [store_ root_ root_hash_ mdb_ prefix_ batch_ app GetRootHash] in *.
  assert (∃ ldb, AddToDb (good_db ∅) [] genesis_block [] = Ok ldb) as [ldb El] by (eexists; reflexivity).
  exists ldb, b, n. match goal with |- context [AddToDb ?x ?y ?z ?w] =>
    change (AddToDb x y z w) with (AddToDb (good_db ∅) [] genesis_block []) end. rewrite El. cbn [mbind res_bind]. apply AddToDb_added in El.
  split_and!; [reflexivity|exact El|done|by rewrite Hl'|by rewrite Hd'|exact Hc].
Qed.

(** The settings in the first database of accounts. *)
Lemma genesis_settings b : on ACCOUNT_PREFIX b → let A := apply_batch (b ++ genesis_puts) ∅ in
  A !! KEY_LEDGER_SEQ = Some (str "1") ∧ has_set A genesis_block genesis_set ∧
  A !! fees_key (h_fees_hash genesis_block) = Some (SerFees (genesis_fees_ cfg)) ∧
  A !! STATISTICS = Some (StatText genesis_count) ∧ A !! LAST_PROOF = None.
Proof.
  intros Hb A. assert (trie_ops b) as Ht by (eapply on_trie_ops; [|exact Hb]; by left).
  unfold A. rewrite apply_batch_app. unfold genesis_puts. split_and!.
  - apply (apply_last _ _ []). repeat constructor; intros E; discriminate E.
  - split; [done|]. apply (apply_last (validators_key (Crypto (SerValidators genesis_set))) _
      [BPut KEY_LEDGER_SEQ (str "1"); BPut KEY_GENE_ACCOUNT (genesis_account_ cfg)]). repeat constructor; intros E; discriminate E.
  - apply (apply_last (fees_key (Crypto (SerFees (genesis_fees_ cfg)))) _
      [BPut KEY_LEDGER_SEQ (str "1"); BPut KEY_GENE_ACCOUNT (genesis_account_ cfg); ValidatorsSet genesis_set]).
    repeat constructor; intros E; discriminate E.
  - apply (apply_last _ _ [BPut KEY_LEDGER_SEQ (str "1"); BPut KEY_GENE_ACCOUNT (genesis_account_ cfg); ValidatorsSet genesis_set;
      FeesConfigSet (genesis_fees_ cfg)] []). constructor.
  - rewrite apply_avoids by (repeat constructor; intros E; discriminate E).
    rewrite apply_avoids by (eapply trie_ops_avoid; [apply proof_not_trie|done]). apply lookup_empty.
Qed.

(** No assets and no metadata yet. *)
Lemma genesis_subtrees b b' : on ACCOUNT_PREFIX b → on ACCOUNT_PREFIX b' →
  subtrees (apply_batch b' (apply_batch (b ++ genesis_puts) ∅)) genesis_disk.
Proof.
  intros Hb Hb' i _. assert (∀ p, apart ACCOUNT_PREFIX p → off p genesis_puts → tree_at (apply_batch b' (apply_batch (b ++ genesis_puts) ∅)) p ∅) as H.
  { intros p Hp Ho. apply tree_at_off; [by eapply on_off|]. apply tree_at_off; [apply Forall_app; split; [by eapply on_off|done]|].
    apply tree_at_empty; [exact Hparse|]. intros k. apply lookup_empty. }
  split; apply H; try (apply apart_sym; first [apply apart_asset_acc|apply apart_meta_acc]);
    (eapply not_trie_off; [|apply genesis_puts_not_trie]); [apply trie_key_asset|apply trie_key_meta].
Qed.

(** The first start makes the genesis block and leaves a node with a chain of one block. *)
Lemma Initialize_fresh os : genesis_ok →
  ∃ m, Initialize os (good_db ∅) (good_db ∅) = Ok (Some (m, [UpdateValidators genesis_set []])) ∧
    last_closed_ledger_ m = genesis_block ∧ chain_ok m ∧ tree_ok m genesis_disk.
Proof.
  intros Hg. destruct building_start as (t & Et & Hb).
  destruct (genesis_creates t Hg Hb) as (ldb & b & n & Ec & [L1 L2 L3 L4 L5 L6] & Hon & Hl & Hd & Hc).
  destruct (genesis_settings b Hon) as (S1 & S2 & S3 & S4 & S5). set (A := apply_batch (b ++ genesis_puts) ∅) in *.
  assert (clean SerializeAsString ParseFromString Crypto (mkTrie (mkKV (good_db A) ACCOUNT_PREFIX []) n
    (tree_hash (d_accounts genesis_disk))) (d_accounts genesis_disk)) as HcA.
  { eapply clean_same; [|exact Hc]. unfold A. rewrite apply_batch_app. apply same_under_off. eapply not_trie_off; [|apply genesis_puts_not_trie]. by left. }
  destruct (rehash SerializeAsString ParseFromString Crypto Hparse A ACCOUNT_PREFIX (b ++ genesis_puts) n _
    (tree_hash (d_accounts genesis_disk)) _ HcA genesis_some Hl Hd) as [Eu Hr]; [unfold A; by rewrite apply_twice|].
  change (kv_rehash SerializeAsString ParseFromString Crypto) with kv_start in Eu.
  set (rb := [BPut (ACCOUNT_PREFIX ++ rootl) (SerializeAsString (info_ n))]) in *.
  assert (on ACCOUNT_PREFIX rb) as Hrb by (constructor; [by eexists|constructor]).
  set (t' := mkTrie (mkKV (good_db A) ACCOUNT_PREFIX ((b ++ genesis_puts) ++ rb)) (set_modified false n) (tree_hash (d_accounts genesis_disk))) in *.
  exists (mkManager ldb t' genesis_block genesis_block genesis_set (genesis_fees_ cfg) [] genesis_count (genesis_chain_id_ cfg) ∅ (mkSync 0 ∅) 0 0).
  split; [|split; [done|split]].
  - unfold Chain.Initialize. assert (CheckAndRepairLedgerSeq os (good_db ∅) (good_db ∅) = Some (good_db ∅)) as -> by (by destruct os).
    rewrite Et. cbn [mbind res_bind]. unfold load_or_create.
    assert (((db_Get (mdb_ (store_ t)) KEY_LEDGER_SEQ).1 =? 0) = true) as -> by (by rewrite (bu_store _ _ Hb)).
    rewrite Ec. cbn [mbind res_bind mret res_ret option_bind store_ mdb_].
    rewrite (db_Get_ok (good_db A) STATISTICS), (db_Get_ok (good_db A) LAST_PROOF) by done. cbn [content good_db]. rewrite S4, S5. cbn [Z.eqb snd].
    rewrite stat_back, (ValidatorsGet_ok (good_db A) _ _ ltac:(done) S2).
    assert (FeesConfigGet (good_db A) (h_fees_hash genesis_block) = Some (genesis_fees_ cfg)) as ->.
    { unfold FeesConfigGet. rewrite db_Get_ok by done. cbn [content good_db]. rewrite S3. apply fees_back. }
    change (kv_chain SerializeAsString ParseFromString) with kv_start. rewrite Eu. unfold GetRootHash. rewrite decide_False by (intros Hn; by apply Hn).
    reflexivity.
  - assert (block (content ldb) A 1 genesis_block) as Hb1 by (split; [exact L4|done|by exists []|by exists genesis_set]).
    split; try done; cbn [ledger_db tree_ store_ prefix_]; unfold head_seq, account_db; cbn [last_closed_ledger_ tree_ t' store_ mdb_ batch_ content good_db].
    + intros k. by rewrite L1.
    + intros k Hk. rewrite apply_batch_app. rewrite apply_avoids; [unfold A; by rewrite apply_twice|].
      eapply trie_ops_avoid; [exact Hk|]. eapply on_trie_ops; [|exact Hrb]. by left.
    + intros k Hk. change (h_seq genesis_block) with 1 in Hk. replace k with 1 by lia. by exists genesis_block.
    + intros k h0 h Hk. change (h_seq genesis_block) with 1 in Hk. lia.
    + split; cbn [proof_]; [by rewrite S5|done|]. unfold head_seq. cbn [last_closed_ledger_]. change (h_seq genesis_block) with 1. lia.
  - split; [|done|apply genesis_some]. cbn [tree_]. split; cbn [t' store_ mdb_ content good_db].
    + intros todo. split; change (batch_ (store_ t')) with ((b ++ genesis_puts) ++ rb); [exact Hr|done| |].
      * rewrite apply_batch_app. unfold A at 1. rewrite apply_twice. by apply genesis_subtrees.
      * intros i _. split; (apply Forall_app; split; [apply Forall_app; split|]); try (eapply on_off; [|eassumption]; apply apart_sym;
          first [apply apart_asset_acc|apply apart_meta_acc]); (eapply not_trie_off; [|apply genesis_puts_not_trie]);
          [apply trie_key_asset|apply trie_key_meta].
    + by eapply clean_tree_at.
    + exact (genesis_subtrees b [] Hon ltac:(constructor)).
Qed.
End start.
