(* ===== verification/ChainRun.v ===== *)
(** * Runs of a node keep the chain

    Every handler of [Glue] is a sequence of moves: it closes a block, or changes nothing that
    the chain is made of.  Moves keep the invariant of [ChainInv], and the tree of accounts of
    [ChainStart], and only add blocks. *)
From stdpp Require Import base gmap list sorting strings.
From Stdlib Require Import ZArith Lia.
From S2P Require Import Prelude Location Trie TrieSpec TrieHash KVTrie TrieMap TrieRefinement TrieCanon TrieShared TrieRehash SafeInt Strings Hex Base58 AtomMap Account LedgerMsg Environment LedgerFrm LedgerCommit ChainMsg Chain ChainDb ChainInv Glue ChainStart.
Local Open Scope Z_scope.

(** The part of the state that the invariant is about. *)
Definition chain_view (m : LedgerManager) :=
  (ledger_db m, tree_ m, last_closed_ledger_ m, lcl_header_ m, validators_ m, fees_ m, proof_ m, account_count m, self_chain m).

Section run.
Context {LH : LedgerHost} {CC : ChainCodec} {CL : ChainCodecLaws} {AC : AccountCodec} {JA : JsonAccess}.
Context (SerializeAsString : Node → bytes) (ParseFromString : bytes → Node).
Context (CheckProof : ValidatorSet → bytes → bytes → bool) (cfg : Configure).
Context (Do : APPLY_MODE → LedgerManager → Value → res Execution).
Context (Hcrypto : ∀ x y : bytes, Crypto x = Crypto y → x = y).

Local Abbreviation CloseLedger := (CloseLedger SerializeAsString ParseFromString CheckProof cfg Do).
Local Abbreviation chain_ok := (chain_ok CheckProof cfg).
Local Abbreviation node_step := (node_step SerializeAsString ParseFromString CheckProof cfg Do).
Local Abbreviation closed := (closed SerializeAsString ParseFromString CheckProof cfg).

Lemma chain_ok_view m m' : chain_view m' = chain_view m → chain_ok m → chain_ok m'.
Proof.
  destruct m, m'. unfold chain_view. cbn. intros [= -> -> -> -> -> -> -> -> ->] [].
  split; try done. by destruct ck_proof.
Qed.

(** The blocks of [m] are blocks of [m']. *)
Definition extends (m m' : LedgerManager) : Prop :=
  head_seq m ≤ head_seq m' ∧
  ∀ k h, 1 ≤ k ≤ head_seq m → block (content (ledger_db m)) (content (account_db m)) k h →
    block (content (ledger_db m')) (content (account_db m')) k h.

#[global] Instance extends_preorder : PreOrder extends.
Proof.
  split; [by split|]. intros m1 m2 m3 [H1 H2] [H3 H4]. split; [lia|]. intros k h Hk Hb. apply H4; [lia|]. by apply H2.
Qed.

Lemma extends_view m m' : chain_view m' = chain_view m → extends m m'.
Proof. unfold chain_view, extends, head_seq, account_db. intros [= -> -> -> _ _ _ _ _ _]. by split. Qed.

(** ** Moves *)

(** What is kept in [m'] was kept in [m], or is a new successful execution. *)
Definition keeps (m m' : LedgerManager) : Prop := ∀ h c, completed_ctxs_ m' !! h = Some c →
  completed_ctxs_ m !! h = Some c ∨
  ∃ mode m0 v, Do mode m0 v = Ok (ctx_execution c) ∧ exec_result_ (propose_result_ (ctx_execution c)) = true.

Lemma keeps_contexts m m' : completed_ctxs_ m' = completed_ctxs_ m → keeps m m'.
Proof. intros E h c. rewrite E. by left. Qed.

Inductive move (m m' : LedgerManager) : Prop :=
  | move_view : chain_view m' = chain_view m → keeps m m' → move m m'
  | move_close v proof cl t : room m 1 → closed m v proof m' cl t → executed Do m v m' cl → move m m'.

Lemma view_moves m m' : chain_view m' = chain_view m → completed_ctxs_ m' = completed_ctxs_ m → rtc move m m'.
Proof. intros E1 E2. apply rtc_once, move_view; [done|by apply keeps_contexts]. Qed.

Lemma move_ok m m' : chain_ok m → move m m' → chain_ok m' ∧ extends m m'.
Proof.
  intros Hm [E _|v proof cl t Hr Hc _]; [split; [by eapply chain_ok_view|by apply extends_view]|].
  unfold room in Hr. fold (head_seq m) in Hr. split.
  - eapply closed_ok; [done|exact Hm|lia|exact Hc].
  - destruct (closed_seq _ _ _ _ _ _ _ _ _ _ Hm ltac:(lia) Hc) as [_ Es]. split; [lia|].
    intros k h Hk Hb. eapply block_after; [done|exact Hm|lia|exact Hc|done|done].
Qed.

Lemma moves_ok m m' : chain_ok m → rtc move m m' → chain_ok m' ∧ extends m m'.
Proof.
  intros Hm Hs. induction Hs as [|m1 m2 m3 Hs _ IH]; [by split|]. apply move_ok in Hs as [H1 H2]; [|done].
  destruct (IH H1) as [H3 H4]. split; [done|by etransitivity].
Qed.

(** A sequence of moves by at most [n] blocks. *)
Record advances (m m' : LedgerManager) (n : nat) : Prop := {
  av_moves : rtc move m m'; av_bound : head_seq m' ≤ head_seq m + Z.of_nat n }.

Lemma advances_view m m' n : chain_view m' = chain_view m → completed_ctxs_ m' = completed_ctxs_ m → advances m m' n.
Proof.
  intros E Ec. split; [by apply view_moves|]. unfold chain_view in E. unfold head_seq. injection E as _ _ -> _ _ _ _ _ _. lia.
Qed.

Lemma advances_trans m1 m2 m3 n1 n2 : advances m1 m2 n1 → advances m2 m3 n2 → advances m1 m3 (n1 + n2).
Proof. intros [H1 H2] [H3 H4]. split; [by etransitivity|lia]. Qed.

Lemma advances_then m m1 m' n : advances m m1 n → chain_view m' = chain_view m1 → completed_ctxs_ m' = completed_ctxs_ m1 → advances m m' n.
Proof. intros H E Ec. replace n with (n + 0)%nat by lia. by eapply advances_trans, advances_view. Qed.

Lemma advances_from m m1 m' n : chain_view m1 = chain_view m → completed_ctxs_ m1 = completed_ctxs_ m → advances m1 m' n → advances m m' n.
Proof. intros E Ec H. change n with (0 + n)%nat. by eapply advances_trans, H; apply advances_view. Qed.

Lemma CloseLedger_advances m v proof m' ok posts : chain_ok m → room m 1 →
  CloseLedger m v proof = Ok (m', ok, posts) → advances m m' 1.
Proof.
  intros Hm Hr E. apply CloseLedger_closed in E as [[_ [n ->]]|[_ (cl & t & Hc & Hx)]]; [by apply advances_view|].
  split; [apply rtc_once; by eapply move_close|]. unfold room in Hr. fold (head_seq m) in Hr.
  destruct (closed_seq _ _ _ _ _ _ _ _ _ _ Hm ltac:(lia) Hc) as [_ Es]. lia.
Qed.

Lemma receive_loop_advances l proof : ∀ m valid posts m' valid' r posts', chain_ok m → room m (length l) →
  receive_loop SerializeAsString ParseFromString CheckProof cfg Do m l proof valid posts = Ok (m', valid', r, posts') →
  advances m m' (length l).
Proof.
  induction l as [|v l IH]; intros m valid posts m' valid' r posts' Hm Hr E; cbn [receive_loop] in E.
  { injection E as <- _ _ _. by apply advances_view. }
  unfold room in Hr. cbn [length] in Hr |- *. destruct (v_seq v =? _).
  - apply bind_Ok_inv in E as ([[m1 ok] p1] & Ec & E). apply CloseLedger_advances in Ec as Ha; [|done|unfold room; lia].
    destruct ok; [|injection E as <- _ _ _; split; [apply Ha|pose proof (av_bound _ _ _ Ha); lia]].
    change (S (length l)) with (1 + length l)%nat. eapply advances_trans; [exact Ha|]. eapply IH; [| |exact E].
    + by apply (moves_ok m), Ha.
    + unfold room. pose proof (av_bound _ _ _ Ha). unfold head_seq in *. lia.
  - apply IH in E as [H1 H2]; [|done|unfold room; lia]. split; [done|lia].
Qed.

Lemma OnReceiveLedgers_advances m ledgers peer now m' posts : chain_ok m → room m (length (l_values ledgers)) →
  OnReceiveLedgers SerializeAsString ParseFromString CheckProof cfg Do m ledgers peer now = Ok (m', posts) →
  advances m m' (length (l_values ledgers)).
Proof.
  intros Hm Hr E. unfold OnReceiveLedgers in E. destruct (negb _); [injection E as <- _; by apply advances_view|].
  apply bind_Ok_inv in E as ([[m1 valid] p1] & Er & E).
  assert (advances m m1 (length (l_values ledgers))) as Ha.
  { unfold receive_values in Er. destruct (head (l_values ledgers)); [destruct (last (l_values ledgers))|]; try (injection Er as <- _ _; by apply advances_view).
    destruct (peers_ _ !! peer) as [itm|]; [|injection Er as <- _ _; by apply advances_view].
    destruct (_ || _); [injection Er as <- _ _; by apply advances_view|].
    apply bind_Ok_inv in Er as ([[[m2 v2] r2] p2] & El & Er). injection Er as <- _ _.
    apply receive_loop_advances in El; [|by eapply chain_ok_view; [|exact Hm]|done].
    apply (advances_from m) in El; [|done..]. destruct r2; [|exact El]. by eapply advances_then. }
  destruct (negb valid); [by injection E as <- _|].
  destruct (_ <=? l_max_seq ledgers); [unfold RequestConsensusValues in E|]; injection E as <- _; case_match; by eapply advances_then.
Qed.

Lemma OnConsent_advances m v proof now m' r posts : chain_ok m → room m 1 →
  OnConsent SerializeAsString ParseFromString CheckProof cfg Do m v proof now = Ok (m', r, posts) → advances m m' 1.
Proof.
  intros Hm Hr E. unfold OnConsent in E. destruct (_ <=? _); [injection E as <- _ _; by apply advances_view|].
  destruct (_ =? _); [|injection E as <- _ _; by apply advances_view].
  apply bind_Ok_inv in E as ([[m1 ok] p1] & Ec & E). injection E as <- _ _.
  apply CloseLedger_advances in Ec; [|by eapply chain_ok_view; [|exact Hm]|done].
  by apply (advances_from m) in Ec.
Qed.

Lemma sync_timer_moves m now peers : rtc move m (OnTimer m now peers).1.
Proof.
  unfold OnTimer. destruct (_ <=? _); [done|]. destruct (foldl (timer_step now) _ _) as [ps en].
  assert (∀ en acc gl, rtc move m acc.1 → rtc move m (foldl (request_step gl now) acc en).1) as H; [|apply H; by apply view_moves].
  induction en0 as [|p en' IH]; intros acc gl Ha; [done|]. apply IH. etransitivity; [exact Ha|]. destruct acc. by apply view_moves.
Qed.

Lemma keep_execution_moves mode m0 m v ex n : Do mode m0 v = Ok ex → rtc move m (keep_execution (set_ticks n m) v ex).
Proof.
  intros Ed. unfold keep_execution, MoveRunningToComplete. destruct (exec_result_ _) eqn:Er; [|by apply view_moves].
  destruct (completed_ctxs_ _ !! _); [by apply view_moves|]. apply rtc_once, move_view; [done|]. intros h c.
  cbn [completed_ctxs_ set_completed]. intros [[_ <-]|[_ H]]%lookup_insert_Some; [right; eauto|by left].
Qed.

Lemma SyncPreProcess_moves o m v propose m' r ok : SyncPreProcess Do o m v propose = Ok (m', r, ok) → rtc move m m'.
Proof.
  unfold SyncPreProcess. destruct (_ <? _); [by intros [= <- _ _]|]. destruct o as [|count late|]; intros E.
  - by injection E as <- _ _.
  - apply bind_Ok_inv in E as (m1 & E1 & E). injection E as <- _ _. destruct late; [|by injection E1 as <-].
    apply bind_Ok_inv in E1 as (ex & Ed & E1). injection E1 as <-. by eapply keep_execution_moves.
  - apply bind_Ok_inv in E as (ex & Ed & E). injection E as <- _ _. by eapply keep_execution_moves.
Qed.

Lemma CheckValue_moves o m value now m' ok : CheckValue CheckProof cfg Do o m value now = Ok (m', ok) → rtc move m m'.
Proof.
  unfold CheckValue. destruct (ParseValue value); [|by intros [= <- _]]. destruct (negb _); [by intros [= <- _]|].
  intros E. apply bind_Ok_inv in E as ([[m1 r] b] & E1 & E). injection E as <- _. by eapply SyncPreProcess_moves.
Qed.

Lemma start_loop_moves fuel : ∀ i sched m txs ct proof up m' acts,
  start_loop Do fuel i sched m txs ct proof up = Ok (m', acts) → rtc move m m'.
Proof.
  induction fuel as [|fuel IH]; intros i sched m txs ct proof up m' acts E; cbn [start_loop] in E; [done|].
  apply bind_Ok_inv in E as ([[m1 r] b] & E1 & E). apply SyncPreProcess_moves in E1. etransitivity; [exact E1|].
  destruct (block_timeout_ r); [by eapply IH|]. destruct (finish_proposal _ _ _). by injection E as <- _.
Qed.

Lemma StartConsensus_moves fuel sched o m leader txs last up now m' acts :
  StartConsensus CheckProof cfg Do fuel sched o m leader txs last up now = Ok (m', acts) → rtc move m m'.
Proof.
  unfold StartConsensus. destruct (negb leader); [by intros [= <- _]|]. intros E.
  apply bind_Ok_inv in E as ([m1 valid] & E1 & E). transitivity m1.
  { case_decide; [by injection E1 as <- _|]. by eapply CheckValue_moves. }
  destruct (ParseValue last); [|by eapply start_loop_moves]. destruct valid; [by injection E as <- _|by eapply start_loop_moves].
Qed.

Lemma node_step_moves m m' : chain_ok m → node_step m m' → rtc move m m'.
Proof.
  intros Hm [value proof now m1 h posts acts Hr E|ledgers peer now m1 posts Hr E|now peers|o value now m1 ok E|fuel sched o leader txs last up now m1 acts E
    |fuel sched o leader txs last up now m1 acts E].
  - unfold OnValueCommited in E. apply bind_Ok_inv in E as ([[m2 r] p] & E1 & E). injection E as <- _ _ _.
    by apply OnConsent_advances in E1 as [H1 _].
  - by apply OnReceiveLedgers_advances in E as [H1 _].
  - apply sync_timer_moves.
  - by eapply CheckValue_moves.
  - by eapply StartConsensus_moves.
  - unfold OnViewChanged in E. apply bind_Ok_inv in E as ([m2 a] & E1 & E). injection E as <- _. by eapply StartConsensus_moves.
Qed.

(** ** The tree of accounts *)

Context (Hparse : ∀ n, ParseFromString (SerializeAsString n) = n).

(** The entries of a block are under valid addresses, and no two of them are spellings of the
    same address. *)
Record closing_ok (cl : Closing) : Prop := {
  cl_valid : Forall entry_ok (cl_entries cl); cl_distinct : NoDup (indices (cl_entries cl)) }.

Context (Hdo : ∀ mode m v ex, Do mode m v = Ok ex → exec_result_ (propose_result_ ex) = true → closing_ok (ex_closing ex)).

Record node_ok (m : LedgerManager) (d : disk) : Prop := {
  no_chain : chain_ok m;
  no_tree : tree_ok SerializeAsString ParseFromString m d;
  no_kept h c : completed_ctxs_ m !! h = Some c → closing_ok (ex_closing (ctx_execution c)) }.

Lemma executed_ok m v m' cl : (∀ h c, completed_ctxs_ m !! h = Some c → closing_ok (ex_closing (ctx_execution c))) →
  executed Do m v m' cl → closing_ok cl.
Proof. intros Hk [[(c & E & <-)|(ex & E & Er & <-)] _]; [by eapply Hk|by eapply Hdo]. Qed.

Lemma move_node m m' d : node_ok m d → move m m' → ∃ d', node_ok m' d'.
Proof.
  intros [H1 H2 H3] Hs. destruct (move_ok _ _ H1 Hs) as [H1' _]. destruct Hs as [E Hk|v proof cl t Hr Hc Hx].
  - exists d. split; [done| |].
    + destruct H2 as [[] ? ?]. destruct m, m'. unfold chain_view in E. cbn in E. injection E as -> -> -> -> -> -> -> -> ->. by split.
    + intros h c [Hc|(mode & m0 & v & E1 & E2)]%Hk; [by eapply H3|by eapply Hdo].
  - eexists. split; [done| |].
    + destruct (executed_ok _ _ _ _ H3 Hx). by eapply closed_tree.
    + intros h c Hh. eapply H3, lookup_weaken; [exact Hh|apply Hx].
Qed.

Lemma moves_node m m' d : node_ok m d → rtc move m m' → ∃ d', node_ok m' d'.
Proof.
  intros Hm Hs. revert d Hm. induction Hs as [|m1 m2 m3 Hs _ IH]; intros d Hm; [by exists d|].
  apply (move_node _ _ _ Hm) in Hs as [d' Hd]. by eapply IH.
Qed.
End run.
