(* ===== verification/ChainLife.v ===== *)
(** * The life of a node

    A node is started on empty databases, handles events, is stopped and started again, and
    may crash between the two writes of [CloseLedger].  Over its whole life it keeps the
    invariants of [ChainInv] and [ChainStart]. *)
From stdpp Require Import base gmap list sorting strings.
From Stdlib Require Import ZArith Lia.
From S2P Require Import Prelude Location Trie TrieSpec TrieHash KVTrie TrieMap TrieRefinement TrieCanon TrieShared TrieRehash SafeInt Strings Hex Base58 AtomMap Account LedgerMsg Environment LedgerFrm LedgerCommit ChainMsg Chain ChainDb ChainInv Glue ChainStart ChainRun.
Local Open Scope Z_scope.

Section life.
Context {LH : LedgerHost} {CC : ChainCodec} {CL : ChainCodecLaws} {AC : AccountCodec} {JA : JsonAccess}.
Context (SerializeAsString : Node → bytes) (ParseFromString : bytes → Node).
Context (CheckProof : ValidatorSet → bytes → bytes → bool) (cfg : Configure).
Context (Do : APPLY_MODE → LedgerManager → Value → res Execution).

Local Abbreviation CloseLedger := (CloseLedger SerializeAsString ParseFromString CheckProof cfg Do).
Local Abbreviation Initialize := (Initialize SerializeAsString ParseFromString cfg).
Local Abbreviation chain_ok := (chain_ok CheckProof cfg).
Local Abbreviation node_step := (node_step SerializeAsString ParseFromString CheckProof cfg Do).
Local Abbreviation node_ok := (node_ok SerializeAsString ParseFromString CheckProof cfg).
Local Abbreviation tree_ok := (tree_ok SerializeAsString ParseFromString).

(** An event, a stop and a start, or a crash after the ledger is written and before the
    accounts are.  Only lives in which the start after such a crash repairs the sequence number
    are followed further ([os_linux] is [false]); what happens where it does not is
    [crash_without_repair] in [ChainClaims]. *)
Inductive node_next (m : LedgerManager) : LedgerManager → Prop :=
  | next_step m' : node_step m m' → node_next m m'
  | next_restart os m' fx : Initialize os (ledger_db m) (account_db m) = Ok (Some (m', fx)) → node_next m m'
  | next_crash v proof m1 ok posts m' fx : room m 1 → CloseLedger m v proof = Ok (m1, ok, posts) →
      Initialize false (ledger_db m1) (account_db m) = Ok (Some (m', fx)) → node_next m m'.

Definition node_life (m : LedgerManager) : Prop :=
  ∃ os m0 fx, Initialize os (good_db ∅) (good_db ∅) = Ok (Some (m0, fx)) ∧ rtc node_next m0 m.

Context (Hparse : ∀ n, ParseFromString (SerializeAsString n) = n).
Context (Hcrypto : ∀ x y : bytes, Crypto x = Crypto y → x = y).

(** The databases from which a node is started again are those of a node: itself, or itself
    with the database of ledgers repaired. *)
Lemma restart_from m ldb os : chain_ok m → ldb = ledger_db m ∨
    (os = false ∧ room m 1 ∧ ∃ v proof m1 ok posts, CloseLedger m v proof = Ok (m1, ok, posts) ∧ ldb = ledger_db m1) →
  ∃ db, CheckAndRepairLedgerSeq os ldb (account_db m) = Some db ∧ chain_ok (with_ledger_db db m) ∧
    ∀ k, 1 ≤ k ≤ head_seq m → content db !! ldg k = content (ledger_db m) !! ldg k.
Proof.
  intros Hm Hl. assert (∃ db, CheckAndRepairLedgerSeq os (ledger_db m) (account_db m) = Some db ∧ chain_ok (with_ledger_db db m) ∧
    ∀ k, 1 ≤ k ≤ head_seq m → content db !! ldg k = content (ledger_db m) !! ldg k) as Hsame.
  { exists (ledger_db m). split; [by eapply repair_same|]. split; [|done]. by destruct m. }
  destruct Hl as [->|(-> & Hr & v & proof & m1 & ok & posts & E & ->)]; [done|].
  apply CloseLedger_closed in E as [[_ [n ->]]|[_ (cl & t & Hc & _)]]; [exact Hsame|]. by eapply crash_repair.
Qed.

Lemma restart_ok os m ldb db m' fx : chain_ok (with_ledger_db db m) → CheckAndRepairLedgerSeq os ldb (account_db m) = Some db →
  (∀ k, 1 ≤ k ≤ head_seq m → content db !! ldg k = content (ledger_db m) !! ldg k) →
  Initialize os ldb (account_db m) = Ok (Some (m', fx)) → chain_ok m' ∧ extends m m'.
Proof.
  intros Hm Er Hl E. destruct (Initialize_ok _ _ _ _ os (with_ledger_db db m) ldb m' fx Hm Er E) as ([t ->] & Hok & Ea).
  split; [done|]. split; [done|]. intros k h Hk Hb. rewrite Ea. eapply block_ledger; [|exact Hb]. by apply Hl.
Qed.

Lemma next_ok m m' : chain_ok m → node_next m m' → chain_ok m' ∧ extends m m'.
Proof.
  intros Hm [m1 Hs|os m1 fx E|v proof m1 ok posts m2 fx Hr Ec E].
  - apply moves_ok with (SerializeAsString := SerializeAsString) (ParseFromString := ParseFromString) (Do := Do); [done..|].
    by apply node_step_moves.
  - destruct (restart_from m (ledger_db m) os Hm) as (db & E1 & E2 & E3); [by left|]. by eapply restart_ok.
  - destruct (restart_from m (ledger_db m1) false Hm) as (db & E1 & E2 & E3); [right; split_and!; [done..|]; by do 5 eexists|]. by eapply restart_ok.
Qed.

Lemma nexts_ok m m' : chain_ok m → rtc node_next m m' → chain_ok m' ∧ extends m m'.
Proof.
  intros Hm Hs. induction Hs as [|m1 m2 m3 Hs _ IH]; [by split|]. apply next_ok in Hs as [H1 H2]; [|done].
  destruct (IH H1) as [H3 H4]. split; [done|by etransitivity].
Qed.

Context (Hgenesis : genesis_ok cfg).
Local Abbreviation genesis_block := (genesis_block SerializeAsString ParseFromString cfg).

Lemma first_start os m fx : Initialize os (good_db ∅) (good_db ∅) = Ok (Some (m, fx)) →
  chain_ok m ∧ tree_ok m (genesis_disk cfg) ∧ completed_ctxs_ m = ∅ ∧
  head_seq m = 1 ∧ block (content (ledger_db m)) (content (account_db m)) 1 genesis_block.
Proof.
  intros E. destruct (Initialize_fresh SerializeAsString ParseFromString Hparse CheckProof cfg os Hgenesis) as (m0 & E0 & Eb & Hm & Ht).
  pose proof E as Ec. rewrite E0 in E. injection E as -> <-.
  assert (head_seq m = 1) as E1 by (unfold head_seq; by rewrite Eb).
  split_and!; try done; [|pose proof (ck_top _ _ _ Hm) as Htop; by rewrite E1, Eb in Htop].
  unfold Chain.Initialize in Ec. destruct (CheckAndRepairLedgerSeq _ _ _); [|done]. apply bind_Ok_inv in Ec as (t & _ & Ec).
  apply bind_Ok_inv in Ec as (o & _ & Ec). repeat case_match; try done; by injection Ec as <-.
Qed.

Lemma life_ok m : node_life m → chain_ok m ∧ block (content (ledger_db m)) (content (account_db m)) 1 genesis_block.
Proof.
  intros (os & m0 & fx & E & Hs). destruct (first_start _ _ _ E) as (H0 & _ & _ & E1 & Hb). apply nexts_ok in Hs as [H1 [_ H2]]; [|done].
  split; [done|]. apply H2; [lia|done].
Qed.

(** ** The tree of accounts over the life of a node *)

Context (Hdo : ∀ mode m v ex, Do mode m v = Ok ex → exec_result_ (propose_result_ ex) = true → closing_ok (ex_closing ex)).

Lemma reopened_node os m d ldb db : node_ok m d → chain_ok (with_ledger_db db m) → CheckAndRepairLedgerSeq os ldb (account_db m) = Some db →
  ∃ m', Initialize os ldb (account_db m) = Ok (Some (m', [UpdateValidators (validators_ m) (proof_ m)])) ∧ node_ok m' d ∧
    last_closed_ledger_ m' = last_closed_ledger_ m ∧ lcl_header_ m' = last_closed_ledger_ m ∧ validators_ m' = validators_ m ∧ fees_ m' = fees_ m ∧
    proof_ m' = proof_ m ∧ account_count m' = account_count m ∧ self_chain m' = self_chain m.
Proof.
  intros [_ [[] T2 T3] _] Hm Er. assert (tree_ok (with_ledger_db db m) d) as Ht by (by split).
  destruct (Initialize_reopens SerializeAsString ParseFromString Hparse CheckProof cfg os _ d ldb Hm Ht Er) as (t & E & Hc' & Ht').
  eexists. split; [exact E|]. split_and!; [split; [done..|]; intros h c; cbn [reopened completed_ctxs_]; by rewrite lookup_empty|done..|].
  symmetry. apply Hm.
Qed.

Lemma next_node m m' d : node_ok m d → node_next m m' → ∃ d', node_ok m' d'.
Proof.
  intros Hn Hs. pose proof (no_chain _ _ _ _ _ _ Hn) as Hm. destruct Hs as [m1 Hs|os m1 fx E|v proof m1 ok posts m2 fx Hr Ec E].
  - eapply moves_node; [done..|exact Hn|]. by apply node_step_moves.
  - destruct (restart_from m (ledger_db m) os Hm) as (db & E1 & E2 & E3); [by left|].
    destruct (reopened_node os m d _ db Hn E2 E1) as (m' & Ei & Hn' & _). rewrite Ei in E. injection E as <- _. by exists d.
  - destruct (restart_from m (ledger_db m1) false Hm) as (db & E1 & E2 & E3); [right; split_and!; [done..|]; by do 5 eexists|].
    destruct (reopened_node false m d _ db Hn E2 E1) as (m' & Ei & Hn' & _). rewrite Ei in E. injection E as <- _. by exists d.
Qed.

Lemma life_node m : node_life m → ∃ d, node_ok m d.
Proof.
  intros (os & m0 & fx & E & Hs). destruct (first_start _ _ _ E) as (H0 & Ht & Ec & _).
  assert (∃ d, node_ok m0 d) as H.
  { exists (genesis_disk cfg). split; [done..|]. intros h c. by rewrite Ec, lookup_empty. }
  clear -H Hs Hparse Hcrypto Hdo CL. induction Hs as [|m1 m2 m3 Hs _ IH]; [done|]. apply IH. destruct H as [d Hd]. by eapply next_node.
Qed.
End life.
