(* ===== verification/ChainTidy.v ===== *)
(** * Lives without two spellings of an address

    [DecodeAddress] is not injective: two texts of an address decode to the same bytes, and an
    execution that leaves entries under both writes one place on disk twice, in the order of
    an [unordered_map].  [tidy Do] is the execution [Do] cut down to the runs that do not:
    where [Do] leaves such entries [tidy Do] has no result.  A life of a node over [tidy Do] is
    therefore a life over [Do] in which every execution left its entries at different places
    ([tidy_life]), which entries under addresses as [EncodeAddress] spells them always are
    ([spelled_closing]). *)
From stdpp Require Import base gmap list sorting strings.
From Stdlib Require Import ZArith Lia.
From S2P Require Import Prelude Location Trie TrieSpec TrieHash KVTrie TrieMap TrieRefinement TrieCanon TrieShared TrieRehash SafeInt Strings Hex Base58 AtomMap Account LedgerMsg Environment LedgerFrm LedgerCommit LedgerStore ChainMsg Chain ChainDb ChainInv Glue ChainStart ChainRun ChainLife.
Local Open Scope Z_scope.

(** ** Executions at different places *)

#[global] Instance entry_ok_dec e : Decision (entry_ok e).
Proof.
  destruct e as [k [a|]].
  - destruct (decide (GetAccountAddress a = k ∧ length (DecodeAddress k) = INDEX_LENGTH)) as [H|H].
    + left. by intros b [= <-].
    + right. intros Hc. by apply H, (Hc a).
  - left. by intros b.
Defined.

#[global] Instance closing_ok_dec cl : Decision (closing_ok cl).
Proof.
  destruct (decide (Forall entry_ok (cl_entries cl) ∧ NoDup (indices (cl_entries cl)))) as [[H1 H2]|H].
  - left. by split.
  - right. intros [H1 H2]. by apply H.
Defined.

(** Addresses that [EncodeAddress] spells have different places. *)
Lemma spelled_closing cl :
  NoDup (cl_entries cl).*1 →
  (∀ k a, (k, Some a) ∈ cl_entries cl → spelled k ∧ GetAccountAddress a = k ∧ length (DecodeAddress k) = INDEX_LENGTH) →
  closing_ok cl.
Proof.
  intros Hnd Hs. split.
  - apply list.Forall_forall. intros [k o] Hin a Ea. cbn in Ea |- *. subst o. by destruct (Hs k a Hin) as [_ ?].
  - induction (cl_entries cl) as [|[k [a|]] l IH]; [constructor| |].
    + rewrite indices_cons. rewrite fmap_cons in Hnd. apply list.NoDup_cons in Hnd as [Hk Hnd]. apply list.NoDup_cons. split.
      * intros (k' & a' & Hin & E)%indices_inv. apply Hk, list_elem_of_fmap. exists (k', Some a'). split; [|done].
        destruct (Hs k a ltac:(by left)) as [<- _], (Hs k' a' ltac:(by right)) as [<- _]. cbn. congruence.
      * apply IH; [done|]. intros k' a' Hin. apply Hs. by right.
    + apply list.NoDup_cons in Hnd as [_ Hnd]. apply IH; [done|]. intros k' a' Hin. apply Hs. by right.
Qed.

Definition tidy (Do : APPLY_MODE → LedgerManager → Value → res Execution) (mode : APPLY_MODE) (m : LedgerManager) (v : Value)
    : res Execution :=
  ex ← Do mode m v;
  if decide (exec_result_ (propose_result_ ex) = true ∧ ¬ closing_ok (ex_closing ex)) then Err OutOfRange else mret ex.

Lemma tidy_ok Do mode m v ex :
  tidy Do mode m v = Ok ex → exec_result_ (propose_result_ ex) = true → closing_ok (ex_closing ex).
Proof.
  unfold tidy. intros E Hr. apply bind_Ok_inv in E as (x & _ & E). case_decide as H; [done|]. injection E as ->.
  destruct (decide (closing_ok (ex_closing ex))); [done|]. by destruct H.
Qed.

Lemma tidy_Do Do mode m v ex : tidy Do mode m v = Ok ex → Do mode m v = Ok ex.
Proof. unfold tidy. intros E. apply bind_Ok_inv in E as (x & E1 & E). case_decide; [done|]. by injection E as ->. Qed.

Lemma executed_tidy Do `{LedgerHost} `{ChainCodec} m v m' cl : executed (tidy Do) m v m' cl → executed Do m v m' cl.
Proof.
  intros [[Hc|(ex & E & Hr & <-)] Hk]; split; [by left|done| |done]. right. exists ex. by apply tidy_Do in E.
Qed.

(** ** Fewer executions, fewer lives *)

(** Where [r] has a result, [r'] has the same. *)
Definition below {A} (r r' : res A) : Prop := ∀ a, r = Ok a → r' = Ok a.

Lemma below_refl {A} (r : res A) : below r r.
Proof. by intros a. Qed.

Lemma below_bind {A B} (r r' : res A) (f f' : A → res B) :
  below r r' → (∀ a, below (f a) (f' a)) → below (r ≫= f) (r' ≫= f').
Proof. intros Hr Hf b (a & E & E')%bind_Ok_inv. rewrite (Hr a E). by apply Hf. Qed.

Section fewer.
Context {LH : LedgerHost} {CC : ChainCodec} {AC : AccountCodec} {JA : JsonAccess}.
Context (ser : Node → bytes) (par : bytes → Node).
Context (CheckProof : ValidatorSet → bytes → bytes → bool) (cfg : Configure).
Context (Do Do' : APPLY_MODE → LedgerManager → Value → res Execution).
Context (Hdo : ∀ mode m v, below (Do mode m v) (Do' mode m v)).

Lemma below_CloseLedger m v proof :
  below (CloseLedger ser par CheckProof cfg Do m v proof) (CloseLedger ser par CheckProof cfg Do' m v proof).
Proof.
  unfold CloseLedger. case_match; [apply below_refl|]. apply below_bind; [|intros ?; apply below_refl].
  unfold SyncProcess. case_match; [apply below_refl|]. apply below_bind; [apply Hdo|intros ?; apply below_refl].
Qed.

Lemma below_receive_loop l proof : ∀ m valid posts,
  below (receive_loop ser par CheckProof cfg Do m l proof valid posts) (receive_loop ser par CheckProof cfg Do' m l proof valid posts).
Proof.
  induction l as [|v l IH]; intros m valid posts; cbn [receive_loop]; [apply below_refl|].
  case_match; [|apply IH]. apply below_bind; [apply below_CloseLedger|]. intros [[m1 [|]] p]; [apply IH|apply below_refl].
Qed.

Lemma below_OnReceiveLedgers m ledgers peer now :
  below (OnReceiveLedgers ser par CheckProof cfg Do m ledgers peer now) (OnReceiveLedgers ser par CheckProof cfg Do' m ledgers peer now).
Proof.
  unfold OnReceiveLedgers. case_match; [apply below_refl|]. apply below_bind; [|intros ?; apply below_refl].
  unfold receive_values. repeat (case_match; try apply below_refl).
  apply below_bind; [apply below_receive_loop|intros ?; apply below_refl].
Qed.

Lemma below_OnValueCommited m value proof now :
  below (OnValueCommited ser par CheckProof cfg Do m value proof now) (OnValueCommited ser par CheckProof cfg Do' m value proof now).
Proof.
  unfold OnValueCommited. apply below_bind; [|intros ?; apply below_refl]. unfold OnConsent.
  repeat (case_match; try apply below_refl). apply below_bind; [apply below_CloseLedger|intros ?; apply below_refl].
Qed.

Lemma below_SyncPreProcess o m v propose : below (SyncPreProcess Do o m v propose) (SyncPreProcess Do' o m v propose).
Proof.
  unfold SyncPreProcess. case_match; [apply below_refl|]. destruct o as [|count [|]|]; try apply below_refl;
    repeat first [apply Hdo|apply below_bind|intros ?; apply below_refl].
Qed.

Lemma below_CheckValue o m value now : below (CheckValue CheckProof cfg Do o m value now) (CheckValue CheckProof cfg Do' o m value now).
Proof.
  unfold CheckValue. repeat (case_match; try apply below_refl).
  apply below_bind; [apply below_SyncPreProcess|intros ?; apply below_refl].
Qed.

Lemma below_start_loop fuel : ∀ i sched m txs ct proof up,
  below (start_loop Do fuel i sched m txs ct proof up) (start_loop Do' fuel i sched m txs ct proof up).
Proof.
  induction fuel as [|fuel IH]; intros i sched m txs ct proof up; cbn [start_loop]; [apply below_refl|].
  apply below_bind; [apply below_SyncPreProcess|]. intros [[m1 r] b]. case_match; [apply IH|apply below_refl].
Qed.

Lemma below_StartConsensus fuel sched o m leader txs last up now :
  below (StartConsensus CheckProof cfg Do fuel sched o m leader txs last up now)
    (StartConsensus CheckProof cfg Do' fuel sched o m leader txs last up now).
Proof.
  unfold StartConsensus. case_match; [apply below_refl|]. apply below_bind.
  - case_decide; [apply below_refl|apply below_CheckValue].
  - intros [m1 valid]. repeat (case_match; try apply below_refl); apply below_start_loop.
Qed.

Lemma below_node_step m m' :
  node_step ser par CheckProof cfg Do m m' → node_step ser par CheckProof cfg Do' m m'.
Proof.
  intros [value proof now m1 h posts acts Hr E|ledgers peer now m1 posts Hr E|now peers|o value now m1 ok E|fuel sched o leader txs last up now m1 acts E
    |fuel sched o leader txs last up now m1 acts E].
  - by eapply step_commit, below_OnValueCommited.
  - by eapply step_receive, below_OnReceiveLedgers.
  - apply step_timer.
  - by eapply step_check, below_CheckValue.
  - by eapply step_start, below_StartConsensus.
  - eapply step_view. unfold OnViewChanged in *. apply bind_Ok_inv in E as ([m2 a] & E1 & E).
    rewrite (below_StartConsensus _ _ _ _ _ _ _ _ _ _ E1). exact E.
Qed.

Lemma below_node_life m : node_life ser par CheckProof cfg Do m → node_life ser par CheckProof cfg Do' m.
Proof.
  intros (os & m0 & fx & E & Hs). exists os, m0, fx. split; [done|]. clear E.
  induction Hs as [|m1 m2 m3 Hs _ IH]; [done|]. eapply rtc_l; [|exact IH].
  destruct Hs as [m2 Hs|os' m2 fx' E|v proof m2 ok posts m4 fx' Hr Ec E].
  - by apply next_step, below_node_step.
  - by eapply next_restart.
  - eapply next_crash; [done| |exact E]. by apply below_CloseLedger.
Qed.
End fewer.

(** A life over [tidy Do] is a life over [Do]. *)
Lemma tidy_life {LH : LedgerHost} {CC : ChainCodec} {AC : AccountCodec} {JA : JsonAccess} ser par CheckProof cfg Do m :
  node_life ser par CheckProof cfg (tidy Do) m → node_life ser par CheckProof cfg Do m.
Proof. apply below_node_life. intros mode m' v ex. apply tidy_Do. Qed.

(** Where all executions are at different places, nothing is cut. *)
Lemma tidy_below Do mode m v :
  (∀ ex, Do mode m v = Ok ex → exec_result_ (propose_result_ ex) = true → closing_ok (ex_closing ex)) →
  below (Do mode m v) (tidy Do mode m v).
Proof.
  intros H ex E. unfold tidy. rewrite E. cbn [mbind res_bind].
  rewrite decide_False; [done|]. intros [Hr Hc]. by apply Hc, H.
Qed.

Lemma tidy_all {LH : LedgerHost} {CC : ChainCodec} {AC : AccountCodec} {JA : JsonAccess} ser par CheckProof cfg Do m :
  (∀ mode m v ex, Do mode m v = Ok ex → exec_result_ (propose_result_ ex) = true → closing_ok (ex_closing ex)) →
  node_life ser par CheckProof cfg Do m → node_life ser par CheckProof cfg (tidy Do) m.
Proof.
  intros H. apply below_node_life. intros mode m' v. apply tidy_below, H.
Qed.
