(* ===== verification/ChainClaims.v ===== *)
(** * What holds of the chain of a node

    The claims about [LedgerManager] and [GlueManager], over whole lives of nodes. *)
From stdpp Require Import base gmap list sorting strings.
From Stdlib Require Import ZArith Lia.
From S2P Require Import Prelude PbftMsg Pbft PbftQuorum Location Trie TrieSpec TrieHash KVTrie TrieMap TrieRefinement TrieCanon TrieShared TrieRehash SafeInt Strings Hex Base58 AtomMap Account LedgerMsg Environment LedgerFrm LedgerCommit LedgerStore ChainMsg Chain ChainDb ChainInv Glue ChainStart ChainRun ChainLife ChainTidy.
Local Open Scope Z_scope.

(** Block [h] with value [v] is the successor of block [h0]. *)
Record linked `{LedgerHost} `{ChainCodec} (h0 h : LedgerHeader) (v : Value) : Prop := {
  li_seq : h_seq h = h_seq h0 + 1;
  li_previous : h_previous_hash h = h_hash h0;
  li_hash : ∃ envs, h_hash h = LedgerMsg.Crypto (SerLedger (set_hash [] h) envs);
  li_chain : h_chain_id h = h_chain_id h0;
  li_version : h_version h0 ≤ h_version h;
  li_value : h_consensus_value_hash h = LedgerMsg.Crypto (SerValue v);
  li_value_seq : v_seq v = h_seq h;
  li_value_previous : previous_ledger_hash v = h_hash h0 }.

Section reading.
Context {LH : LedgerHost} {CC : ChainCodec} {CL : ChainCodecLaws}.
Context (CheckProof : ValidatorSet → bytes → bytes → bool) (cfg : Configure).

Local Abbreviation chain_ok := (chain_ok CheckProof cfg).
Local Abbreviation certified := (certified CheckProof cfg).

(** Reading the databases of a good chain. *)
Lemma block_read m k h : chain_ok m → block (content (ledger_db m)) (content (account_db m)) k h → LoadFromDb (ledger_db m) k = Some h.
Proof. intros Hm Hb. rewrite LoadFromDb_ok, (b_stored _ _ _ _ Hb) by apply Hm. cbn. by rewrite header_back. Qed.

Lemma read_block m k h : chain_ok m → 1 ≤ k ≤ head_seq m → LoadFromDb (ledger_db m) k = Some h →
  block (content (ledger_db m)) (content (account_db m)) k h.
Proof.
  intros Hm Hk E. destruct (ck_blocks _ _ _ Hm k Hk) as [g Hg]. rewrite (block_read _ _ _ Hm Hg) in E. by injection E as <-.
Qed.

Lemma value_read m k h0 h v : chain_ok m → agreed CheckProof cfg (content (ledger_db m)) (content (account_db m)) k h0 h v →
  ConsensusValueFromDB (ledger_db m) k = Some v.
Proof.
  intros Hm Ha. unfold ConsensusValueFromDB. fold (cosv k). rewrite db_Get_ok, (ag_stored _ _ _ _ _ _ _ _ Ha) by apply Hm.
  cbn. apply value_back.
Qed.

(** The two blocks at [k] and [k + 1], and the value between. *)
Lemma step_read m k : chain_ok m → 1 ≤ k < head_seq m → ∃ h0 h v,
  block (content (ledger_db m)) (content (account_db m)) k h0 ∧ block (content (ledger_db m)) (content (account_db m)) (k + 1) h ∧
  agreed CheckProof cfg (content (ledger_db m)) (content (account_db m)) (k + 1) h0 h v ∧ linked h0 h v.
Proof.
  intros Hm Hk. destruct (ck_blocks _ _ _ Hm k) as [h0 H0]; [lia|]. destruct (ck_blocks _ _ _ Hm (k + 1)) as [h H1]; [lia|].
  destruct (ck_links _ _ _ Hm k h0 h Hk H0 H1) as [F1 F2 F3 [v Ha]]. exists h0, h, v. split_and!; try done.
  pose proof (b_seq _ _ _ _ H0). pose proof (b_seq _ _ _ _ H1). split; try done; try apply Ha; try apply H1; [lia|].
  rewrite (ag_seq _ _ _ _ _ _ _ _ Ha). lia.
Qed.

(** The proof that is served with a block certifies it. *)
Lemma served_proof m k h0 h v : chain_ok m → 1 ≤ k < head_seq m →
  block (content (ledger_db m)) (content (account_db m)) k h0 → block (content (ledger_db m)) (content (account_db m)) (k + 1) h →
  agreed CheckProof cfg (content (ledger_db m)) (content (account_db m)) (k + 1) h0 h v →
  ∃ vs, has_set (content (account_db m)) h0 vs ∧ certified vs (LedgerMsg.Crypto (SerValue v)) (proof_of m (k + 1)).
Proof.
  intros Hm Hk H0 H1 Ha. destruct (ck_range _ _ _ Hm) as [R1 R2]. rewrite <- (ag_hash _ _ _ _ _ _ _ _ Ha). unfold proof_of. fold (head_seq m).
  destruct (Z.eqb_spec (k + 1) (head_seq m)) as [E|E].
  - destruct (pr_cert _ _ _ _ _ (ck_proof _ _ _ Hm)) as (g & vs & Hg & Hs & Hc); [lia|].
    replace (head_seq m - 1) with k in Hg by lia. rewrite (block_fun _ _ _ _ _ _ H0 Hg). exists vs. split; [done|].
    rewrite E in H1. by rewrite (block_fun _ _ _ _ _ _ H1 (ck_top _ _ _ Hm)).
  - destruct (step_read m (k + 1) Hm) as (g & h2 & w & Hg & H2 & Hw & _); [lia|].
    pose proof (block_fun _ _ _ _ _ _ H1 Hg) as <-. rewrite i64_small by lia. rewrite (value_read _ _ _ _ _ Hm Hw).
    destruct (ag_helper _ _ _ _ _ _ _ _ Hw) as (set & Hh & Hset). destruct Hset as (g & vs & -> & Hb & Hs); [lia|].
    replace (k + 1 + 1 - 2) with k in Hb by lia. rewrite (block_fun _ _ _ _ _ _ H0 Hb). exists vs. split; [done|].
    unfold helper_on in Hh. apply andb_true_iff in Hh as [_ Hh]. rewrite (b_seq _ _ _ _ H1) in Hh.
    destruct (Z.ltb_spec 1 (k + 1)); [|lia]. cbn [negb orb] in Hh. apply orb_true_iff in Hh as [?%bool_decide_eq_true|?]; [by right|by left].
Qed.
End reading.

Section claims.
Context {LH : LedgerHost} {CC : ChainCodec} {CL : ChainCodecLaws} {AC : AccountCodec} {JA : JsonAccess}.
Context (SerializeAsString : Node → bytes) (ParseFromString : bytes → Node).
Context (CheckProof : ValidatorSet → bytes → bytes → bool) (cfg : Configure).
Context (Do : APPLY_MODE → LedgerManager → Value → res Execution).
Context (Hparse : ∀ n, ParseFromString (SerializeAsString n) = n).
Context (Hcrypto : ∀ x y : bytes, LedgerMsg.Crypto x = LedgerMsg.Crypto y → x = y).
Context (Hgenesis : genesis_ok cfg).

Local Abbreviation node_life := (node_life SerializeAsString ParseFromString CheckProof cfg Do).
Local Abbreviation node_next := (node_next SerializeAsString ParseFromString CheckProof cfg Do).
Local Abbreviation chain_ok := (chain_ok CheckProof cfg).
Local Abbreviation genesis_block := (genesis_block SerializeAsString ParseFromString cfg).

(** C3: The chain of a node is complete, linked and certified.  At every moment of the life
    of a node, whatever values, proofs and peers it was given, and over restarts and crashes,
    the database holds a header for every number from the genesis block to the last closed
    one.  Each names the hash of the one before, the consensus value stored with it and the
    same chain, its version does not go back, and the value was agreed: the proof that the
    node serves with it is accepted for the validators of the block before, unless the value
    is a configured hard fork. *)
Theorem certified_chain m : node_life m →
  let n := h_seq (GetLastClosedLedger m) in
  1 ≤ n ∧ LoadFromDb (ledger_db m) n = Some (GetLastClosedLedger m) ∧ LoadFromDb (ledger_db m) 1 = Some genesis_block ∧
  ∀ k, 1 ≤ k < n → ∃ h0 h v vs,
    LoadFromDb (ledger_db m) k = Some h0 ∧ LoadFromDb (ledger_db m) (k + 1) = Some h ∧
    ConsensusValueFromDB (ledger_db m) (k + 1) = Some v ∧ GetValidators m k = Some vs ∧ linked h0 h v ∧
    (CheckProof vs (LedgerMsg.Crypto (SerValue v)) (proof_of m (k + 1)) = true ∨ LedgerMsg.Crypto (SerValue v) ∈ hardfork_points_ cfg).
Proof.
  intros Hl n. destruct (life_ok _ _ _ _ _ Hparse Hcrypto Hgenesis m Hl) as [Hm Hb1].
  assert (n = head_seq m) as -> by (unfold n, GetLastClosedLedger; by rewrite (ck_lcl _ _ _ Hm)).
  unfold GetLastClosedLedger. rewrite (ck_lcl _ _ _ Hm).
  split_and!; [apply Hm|by eapply block_read, Hm|by eapply block_read|].
  intros k Hk. destruct (step_read _ _ m k Hm Hk) as (h0 & h & v & H0 & H1 & Ha & Hlink).
  destruct (served_proof _ _ m k h0 h v Hm Hk H0 H1 Ha) as (vs & Hs & Hc). exists h0, h, v, vs.
  split_and!; [by eapply block_read|by eapply block_read|by eapply value_read|by eapply GetValidators_ok|done|done].
Qed.

(** Blocks that agree in two databases agree in their validators, and in their values. *)
Lemma same_validators m m' k h : chain_ok m → chain_ok m' →
  block (content (ledger_db m)) (content (account_db m)) k h → block (content (ledger_db m')) (content (account_db m')) k h →
  GetValidators m k = GetValidators m' k.
Proof.
  intros Hm Hm' Hb Hb'. destruct (b_set _ _ _ _ Hb) as [vs Hs], (b_set _ _ _ _ Hb') as [vs' Hs'].
  rewrite (GetValidators_ok _ _ m k h vs), (GetValidators_ok _ _ m' k h vs') by done.
  destruct Hs as [E1 _], Hs' as [E2 _]. rewrite E1 in E2. apply Hcrypto, (f_equal ParseValidators) in E2.
  by rewrite !validators_back in E2.
Qed.

Lemma same_value m m' k h : chain_ok m → chain_ok m' → 1 < k ≤ head_seq m → k ≤ head_seq m' →
  block (content (ledger_db m)) (content (account_db m)) k h → block (content (ledger_db m')) (content (account_db m')) k h →
  ConsensusValueFromDB (ledger_db m) k = ConsensusValueFromDB (ledger_db m') k.
Proof.
  intros Hm Hm' Hk Hk' Hb Hb'.
  destruct (step_read _ _ m (k - 1) Hm) as (g1 & h1 & v1 & _ & H1 & A1 & _); [lia|].
  destruct (step_read _ _ m' (k - 1) Hm') as (g2 & h2 & v2 & _ & H2 & A2 & _); [lia|].
  replace (k - 1 + 1) with k in * by lia. rewrite (value_read _ _ _ _ _ _ _ Hm A1), (value_read _ _ _ _ _ _ _ Hm' A2).
  pose proof (ag_hash _ _ _ _ _ _ _ _ A1) as E1. pose proof (ag_hash _ _ _ _ _ _ _ _ A2) as E2.
  rewrite (block_fun _ _ _ _ _ _ H1 Hb) in E1. rewrite (block_fun _ _ _ _ _ _ H2 Hb') in E2. rewrite E1 in E2.
  apply Hcrypto, (f_equal ParseValue) in E2. by rewrite !value_back in E2.
Qed.

(** The reads of block [k] agree. *)
Definition same_block (m m' : LedgerManager) (k : Z) : Prop :=
  LoadFromDb (ledger_db m) k = LoadFromDb (ledger_db m') k ∧ GetValidators m k = GetValidators m' k ∧
  (1 < k → ConsensusValueFromDB (ledger_db m) k = ConsensusValueFromDB (ledger_db m') k).

Lemma same_block_of m m' k h : chain_ok m → chain_ok m' → 1 ≤ k ≤ head_seq m → k ≤ head_seq m' →
  block (content (ledger_db m)) (content (account_db m)) k h → block (content (ledger_db m')) (content (account_db m')) k h →
  same_block m m' k.
Proof.
  intros Hm Hm' Hk Hk' Hb Hb'. split_and!; [|by eapply same_validators|intros ?; apply (same_value m m' k h); first [done|lia]].
  by rewrite (block_read _ _ _ _ _ Hm Hb), (block_read _ _ _ _ _ Hm' Hb').
Qed.

(** C15: Blocks are final.  Whatever a node does after it closed a block, including restarts
    and crashes, its last block does not go back, and header, value and validators of every
    closed block stay what they are. *)
Theorem blocks_are_final m m' : node_life m → rtc node_next m m' →
  h_seq (GetLastClosedLedger m) ≤ h_seq (GetLastClosedLedger m') ∧
  ∀ k, 1 ≤ k ≤ h_seq (GetLastClosedLedger m) → same_block m m' k.
Proof.
  intros Hl Hs. destruct (life_ok _ _ _ _ _ Hparse Hcrypto Hgenesis m Hl) as [Hm _].
  destruct (nexts_ok _ _ _ _ _ Hcrypto _ _ Hm Hs) as [Hm' [Hle Hx]].
  unfold GetLastClosedLedger. rewrite (ck_lcl _ _ _ Hm), (ck_lcl _ _ _ Hm'). split; [done|]. intros k Hk.
  destruct (ck_blocks _ _ _ Hm k Hk) as [h Hb]. eapply same_block_of; [done..|fold (head_seq m) in Hk; lia|exact Hb|by apply Hx].
Qed.

(** ** The hash of a block *)

Lemma hash_block L A L' A' k k' h h' : block L A k h → block L' A' k' h' → h_hash h = h_hash h' → h = h'.
Proof.
  intros [_ _ [e E] _] [_ _ [e' E'] _] Eh. pose proof Eh as Es. rewrite E, E' in Es. apply Hcrypto, ledger_inj in Es.
  assert (∀ x, x = set_hash (h_hash x) (set_hash [] x)) as Hx by (by intros []). by rewrite (Hx h), (Hx h'), Eh, Es.
Qed.

Lemma same_below m m' k h : chain_ok m → chain_ok m' → 1 ≤ k ≤ head_seq m → k ≤ head_seq m' →
  block (content (ledger_db m)) (content (account_db m)) k h → block (content (ledger_db m')) (content (account_db m')) k h →
  ∀ j, 1 ≤ j ≤ k → ∃ g, block (content (ledger_db m)) (content (account_db m)) j g ∧ block (content (ledger_db m')) (content (account_db m')) j g.
Proof.
  intros Hm Hm' Hk Hk' Hb Hb' j Hj. assert (∃ n : nat, k = j + Z.of_nat n) as [n ->] by (exists (Z.to_nat (k - j)); lia).
  revert h Hk Hk' Hb Hb' Hj. induction n as [|n IH]; intros h Hk Hk' Hb Hb' Hj.
  { exists h. replace j with (j + Z.of_nat 0) by lia. done. }
  destruct (step_read _ _ m (j + Z.of_nat n) Hm) as (g & h1 & v1 & G1 & B1 & _ & L1); [lia|].
  destruct (step_read _ _ m' (j + Z.of_nat n) Hm') as (g' & h2 & v2 & G2 & B2 & _ & L2); [lia|].
  replace (j + Z.of_nat n + 1) with (j + Z.of_nat (S n)) in * by lia.
  pose proof (block_fun _ _ _ _ _ _ B1 Hb) as ->. pose proof (block_fun _ _ _ _ _ _ B2 Hb') as ->.
  assert (g = g') as <- by (eapply hash_block; [exact G1|exact G2|]; destruct L1, L2; congruence).
  by eapply IH; [lia..|exact G1|exact G2|lia].
Qed.

(** C11: The hash of a block determines the whole chain below it.  If block [k] has the same
    hash at two nodes then the nodes have, for every block up to [k], the same header, the
    same set of validators and the same consensus value. *)
Theorem hash_determines_chain m m' k h h' : node_life m → node_life m' →
  1 ≤ k ≤ h_seq (GetLastClosedLedger m) → k ≤ h_seq (GetLastClosedLedger m') →
  LoadFromDb (ledger_db m) k = Some h → LoadFromDb (ledger_db m') k = Some h' → h_hash h = h_hash h' →
  ∀ j, 1 ≤ j ≤ k → same_block m m' j.
Proof.
  intros Hl Hl' Hk Hk' E E' Eh j Hj. destruct (life_ok _ _ _ _ _ Hparse Hcrypto Hgenesis m Hl) as [Hm _].
  destruct (life_ok _ _ _ _ _ Hparse Hcrypto Hgenesis m' Hl') as [Hm' _].
  unfold GetLastClosedLedger in Hk, Hk'. rewrite (ck_lcl _ _ _ Hm) in Hk. rewrite (ck_lcl _ _ _ Hm') in Hk'.
  fold (head_seq m) in Hk. fold (head_seq m') in Hk'.
  apply (read_block CheckProof cfg) in E; [|done..]. apply (read_block CheckProof cfg) in E'; [|done|lia].
  pose proof (hash_block _ _ _ _ _ _ _ _ E E' Eh) as <-.
  destruct (same_below m m' k h Hm Hm' Hk ltac:(lia) E E' j Hj) as (g & G1 & G2). eapply same_block_of; [done..|lia|lia|exact G1|exact G2].
Qed.
(** ** Forks *)

#[local] Instance LedgerHeader_eq_dec : EqDecision LedgerHeader.
Proof. solve_decision. Defined.

(** The last block that two chains share. *)
Lemma fork_point m m' k h h' g1 : chain_ok m → chain_ok m' → 1 ≤ k ≤ head_seq m → k ≤ head_seq m' →
  block (content (ledger_db m)) (content (account_db m)) 1 g1 → block (content (ledger_db m')) (content (account_db m')) 1 g1 →
  block (content (ledger_db m)) (content (account_db m)) k h → block (content (ledger_db m')) (content (account_db m')) k h' → h ≠ h' →
  ∃ j g x x', 1 ≤ j < k ∧ block (content (ledger_db m)) (content (account_db m)) j g ∧ block (content (ledger_db m')) (content (account_db m')) j g ∧
    block (content (ledger_db m)) (content (account_db m)) (j + 1) x ∧ block (content (ledger_db m')) (content (account_db m')) (j + 1) x' ∧ x ≠ x'.
Proof.
  intros Hm Hm' Hk Hk' G1 G2 Hb Hb' Hne. assert (∃ n : nat, k = 1 + Z.of_nat n) as [n ->] by (exists (Z.to_nat (k - 1)); lia).
  revert h h' Hk Hk' Hb Hb' Hne. induction n as [|n IH]; intros h h' Hk Hk' Hb Hb' Hne.
  { destruct Hne. rewrite <- (block_fun _ _ _ _ _ _ G1 Hb). by eapply block_fun. }
  destruct (ck_blocks _ _ _ Hm (1 + Z.of_nat n)) as [g Hg]; [lia|]. destruct (ck_blocks _ _ _ Hm' (1 + Z.of_nat n)) as [g' Hg']; [lia|].
  destruct (decide (g = g')) as [<-|Hd].
  - exists (1 + Z.of_nat n), g, h, h'. replace (1 + Z.of_nat n + 1) with (1 + Z.of_nat (S n)) by lia. split_and!; [lia..|done|done|done|done|done].
  - destruct (IH g g') as (j & y & x & x' & Hj & R); [lia|lia|done..|]. exists j, y, x, x'. split; [lia|exact R].
Qed.
End claims.

(** C4: A fork exposes more than a third of the validators.  Two nodes with the same
    configuration that have different blocks at some number have a last block in common, and
    after it either both agreed on the same value, which one of them executed differently, or
    one of the two values is a configured hard fork, or more than [f] of the [3f + 1]
    validators of that common block signed commits for both values. *)
Theorem fork_exposes_faulty {LH : LedgerHost} {CC : ChainCodec} {CL : ChainCodecLaws} {AC : AccountCodec} {JA : JsonAccess} {PC : PbftContext}
    SerializeAsString ParseFromString cfg Do Do' m m' k h h' :
  let check vs hash proof := Pbft.CheckProof (fst <$> vs : list bytes) hash proof in
  (∀ n, ParseFromString (SerializeAsString n) = n) →
  (∀ x y : bytes, LedgerMsg.Crypto x = LedgerMsg.Crypto y → x = y) → genesis_ok cfg →
  node_life SerializeAsString ParseFromString check cfg Do m → node_life SerializeAsString ParseFromString check cfg Do' m' →
  1 ≤ k ≤ h_seq (GetLastClosedLedger m) → k ≤ h_seq (GetLastClosedLedger m') →
  LoadFromDb (ledger_db m) k = Some h → LoadFromDb (ledger_db m') k = Some h' → h ≠ h' →
  (∀ j vs, 1 ≤ j < k → GetValidators m j = Some vs → Z.of_nat (length vs) < 2 ^ 63) →
  ∃ j vs v v', 1 ≤ j < k ∧ same_block m m' j ∧ LoadFromDb (ledger_db m) (j + 1) ≠ LoadFromDb (ledger_db m') (j + 1) ∧
    GetValidators m j = Some vs ∧ ConsensusValueFromDB (ledger_db m) (j + 1) = Some v ∧ ConsensusValueFromDB (ledger_db m') (j + 1) = Some v' ∧
    let hash := LedgerMsg.Crypto (SerValue v) in let hash' := LedgerMsg.Crypto (SerValue v') in
    (v = v' ∨ hash ∈ hardfork_points_ cfg ∨ hash' ∈ hardfork_points_ cfg ∨
     let V := number_validators 0 (fst <$> vs) ∅ in
     ∃ X : gset bytes, max_faulty (Z.of_nat (base.size V)) < Z.of_nat (base.size X) ∧ X ⊆ list_to_set (fst <$> vs) ∧
       ∀ a, a ∈ X → (∃ e, signed_commit V hash e a) ∧ (∃ e, signed_commit V hash' e a)).
Proof.
  intros check Hparse Hcrypto Hg Hl Hl' Hk Hk' E E' Hne Hlen.
  destruct (life_ok _ _ _ _ _ Hparse Hcrypto Hg m Hl) as [Hm G1]. destruct (life_ok _ _ _ _ _ Hparse Hcrypto Hg m' Hl') as [Hm' G2].
  unfold GetLastClosedLedger in Hk, Hk'. rewrite (ck_lcl _ _ _ Hm) in Hk. rewrite (ck_lcl _ _ _ Hm') in Hk'.
  fold (head_seq m) in Hk. fold (head_seq m') in Hk'. apply (read_block check cfg) in E; [|done..]. apply (read_block check cfg) in E'; [|done|lia].
  destruct (fork_point check cfg m m' k h h' _ Hm Hm' Hk Hk' G1 G2 E E' Hne) as (j & g & x & x' & Hj & B1 & B2 & X1 & X2 & Hx).
  destruct (step_read _ _ m j Hm) as (g1 & h1 & v & P1 & Q1 & A1 & _); [lia|].
  destruct (step_read _ _ m' j Hm') as (g2 & h2 & v' & P2 & Q2 & A2 & _); [lia|].
  pose proof (block_fun _ _ _ _ _ _ B1 P1) as <-. pose proof (block_fun _ _ _ _ _ _ B2 P2) as <-.
  pose proof (ag_cert _ _ _ _ _ _ _ _ A1) as (vs & p & [S1 S1'] & C1). pose proof (ag_cert _ _ _ _ _ _ _ _ A2) as (vs' & p' & [S2 S2'] & C2).
  assert (vs = vs') as <-.
  { rewrite S1 in S2. apply Hcrypto, (f_equal ParseValidators) in S2. rewrite !validators_back in S2. by injection S2. }
  assert (GetValidators m j = Some vs) as Hvs by (by eapply GetValidators_ok).
  exists j, vs, v, v'. split_and!; [lia..|eapply same_block_of; [done..|lia|lia|exact B1|exact B2]| |done|by eapply value_read|by eapply value_read|].
  { rewrite (block_read _ _ _ _ _ Hm X1), (block_read _ _ _ _ _ Hm' X2). congruence. }
  intros hash hash'. destruct C1 as [C1|C1]; [|by right; left]. destruct C2 as [C2|C2]; [|by right; right; left].
  right. right. right. eapply conflicting_quorums; [rewrite length_fmap; by eapply Hlen, Hvs|exact C1|exact C2].
Qed.

(** ** Accounts, restarts and crashes *)

Section trees.
Context {LH : LedgerHost} {CC : ChainCodec} {CL : ChainCodecLaws} {AC : AccountCodec} {JA : JsonAccess}.
Context (SerializeAsString : Node → bytes) (ParseFromString : bytes → Node).
Context (CheckProof : ValidatorSet → bytes → bytes → bool) (cfg : Configure).
Context (Do : APPLY_MODE → LedgerManager → Value → res Execution).
Context (Hparse : ∀ n, ParseFromString (SerializeAsString n) = n).
Context (Hcrypto : ∀ x y : bytes, LedgerMsg.Crypto x = LedgerMsg.Crypto y → x = y).
Context (Hgenesis : genesis_ok cfg).
(** Lives in which no execution left entries under two spellings of one address. *)
Local Abbreviation TidyLife := (ChainLife.node_life SerializeAsString ParseFromString CheckProof cfg (tidy Do)).
Local Abbreviation CloseLedger := (Chain.CloseLedger SerializeAsString ParseFromString CheckProof cfg Do).
Local Abbreviation TidyClose := (Chain.CloseLedger SerializeAsString ParseFromString CheckProof cfg (tidy Do)).
Local Abbreviation Initialize := (Initialize SerializeAsString ParseFromString cfg).
Local Abbreviation tree_ok := (tree_ok SerializeAsString ParseFromString).
Local Abbreviation spec_commit := (spec_commit SerializeAsString ParseFromString LedgerMsg.Crypto).
Local Abbreviation tree_hash := (tree_hash SerializeAsString ParseFromString LedgerMsg.Crypto).
Local Abbreviation read := (read SerializeAsString ParseFromString LedgerMsg.Crypto).

(** C10: The databases follow the chain.  Consider a life of a node in which every execution
    left its accounts under valid addresses and no two of them under spellings of one address
    ([tidy]).  At every moment of it the accounts, assets and metadata of the node are those
    of some maps [d].  A block that it then closes, with such an execution, was executed by
    this node now or when it proposed or checked the value, and the node then stands for [d]
    with the entries of that execution written over it: the header names the root hash of the
    new accounts, and the database alone yields them. *)
Theorem closed_block_commits m : TidyLife m →
  ∃ d, tree_ok m d ∧ ∀ v proof m' posts, TidyClose m v proof = Ok (m', true, posts) →
  ∃ cl, executed Do m v m' cl ∧ let d' := spec_commit d (cl_entries cl) in
    tree_ok m' d' ∧ h_account_tree_hash (last_closed_ledger_ m') = tree_hash (d_accounts d') ∧
    (∀ i, read (content (account_db m')) ACCOUNT_PREFIX i = Ok (d_accounts d' !! i)) ∧
    ∀ i k, length i = INDEX_LENGTH → read (content (account_db m')) (asset_prefix i) k = Ok (d_assets d' i !! k) ∧
      read (content (account_db m')) (meta_prefix i) k = Ok (d_metas d' i !! k).
Proof.
  intros Hl. destruct (life_node _ _ _ _ _ Hparse Hcrypto Hgenesis (tidy_ok Do) m Hl) as [d [_ Ht Hk]]. exists d. split; [done|].
  intros v proof m' posts E. apply CloseLedger_closed in E as [[? _]|[_ (cl & t & Hc & Hx)]]; [done|]. exists cl.
  split; [by apply executed_tidy|].
  destruct (executed_ok (tidy Do) (tidy_ok Do) _ _ _ _ Hk Hx) as [H1 H2]. intros d'.
  assert (tree_ok m' d') as Ht' by (by eapply closed_tree). pose proof Ht' as [[_ S1 S2] T1 _].
  split_and!; [done|done|intros i; by apply read_tree_at|]. intros i k Hi. destruct (S2 i Hi). split; by apply read_tree_at.
Qed.

(** Where the databases of a start come from: the node was stopped, or it crashed after the
    ledger was written and before the accounts were, and the start repairs it. *)
Definition stopped (m : LedgerManager) (os : bool) (ldb : KeyValueDb) : Prop :=
  ldb = ledger_db m ∨
  (os = false ∧ room m 1 ∧ ∃ v proof m1 ok posts, CloseLedger m v proof = Ok (m1, ok, posts) ∧ ldb = ledger_db m1).

(** C9: A node can always be started again.  Consider a life of a node in which every
    execution left its accounts under valid addresses and no two of them under spellings of
    one address ([tidy]).  On the databases that the node leaves at any moment of it, and also
    after a crash between the two writes of [CloseLedger] (of any value) where the start
    repairs the sequence number ([OS_LINUX] is not defined), [Initialize] succeeds and
    restores the last closed ledger, the validators, the fees, the proof and the accounts. *)
Theorem restart_restores m : TidyLife m →
  ∃ d, tree_ok m d ∧ ∀ os ldb, stopped m os ldb →
  ∃ m', Initialize os ldb (account_db m) = Ok (Some (m', [UpdateValidators (validators_ m) (proof_ m)])) ∧ tree_ok m' d ∧
    last_closed_ledger_ m' = last_closed_ledger_ m ∧ lcl_header_ m' = last_closed_ledger_ m ∧ validators_ m' = validators_ m ∧
    fees_ m' = fees_ m ∧ proof_ m' = proof_ m ∧ account_count m' = account_count m ∧ self_chain m' = self_chain m.
Proof.
  intros Hl. destruct (life_node _ _ _ _ _ Hparse Hcrypto Hgenesis (tidy_ok Do) m Hl) as [d Hn]. exists d. split; [apply Hn|].
  intros os ldb Hs. destruct (restart_from SerializeAsString ParseFromString CheckProof cfg Do m ldb os) as (db & E1 & E2 & _); [apply Hn|exact Hs|].
  destruct (reopened_node SerializeAsString ParseFromString CheckProof cfg Hparse os m d ldb db Hn E2 E1) as (m' & E & Hn' & R).
  exists m'. split; [done|]. split; [apply Hn'|exact R].
Qed.

(** C39: Where the start does not repair, a crash between the two writes ends the node.
    Consider a life of a node in which every execution left its accounts under valid
    addresses and no two of them under spellings of one address ([tidy]).  With [OS_LINUX]
    defined, if the block being closed changes any account (the root hash), [Initialize] on
    the databases that the crash leaves finds a ledger whose tree is not in the database of
    accounts, and fails. *)
Theorem crash_without_repair m v proof m' posts : TidyLife m → room m 1 →
  CloseLedger m v proof = Ok (m', true, posts) →
  h_account_tree_hash (last_closed_ledger_ m') ≠ h_account_tree_hash (last_closed_ledger_ m) →
  Initialize true (ledger_db m') (account_db m) = Ok None.
Proof.
  intros Hl Hr E Hd. destruct (life_node _ _ _ _ _ Hparse Hcrypto Hgenesis (tidy_ok Do) m Hl) as [d [Hm Ht _]].
  apply CloseLedger_closed in E as [[? _]|[_ (cl & t & Hc & _)]]; [done|]. by eapply crash_linux.
Qed.
End trees.
