(* ===== verification/GlueClaims.v ===== *)
(** * What holds of proposals and of the synchronisation

    The claims about [GlueManager] that relate two nodes, and the loop of [StartConsensus]. *)
From stdpp Require Import base gmap list sorting strings.
From Stdlib Require Import ZArith Lia.
From S2P Require Import Prelude Location Trie TrieSpec TrieHash KVTrie TrieMap TrieRefinement TrieCanon TrieShared TrieRehash SafeInt Strings Hex Base58 AtomMap Account LedgerMsg Environment LedgerFrm LedgerCommit ChainMsg Chain ChainDb ChainInv Glue ChainStart ChainRun ChainLife ChainClaims.
Local Open Scope Z_scope.

(** ** The next number of transactions *)

(** The bound on the number of transactions, which is an [int] in the code. *)
Definition txs_max : Z := 2 ^ 31.

Lemma next_tx_size_less n : 2 ≤ n ≤ txs_max → 0 ≤ next_tx_size n < n.
Proof.
  unfold txs_max, next_tx_size, double_0_7. intros Hn. rewrite double_of_int_small by lia. unfold double_mul. cbn [fst snd].
  set (C := 0x16666666666666). destruct (rnd53_near (n * C) (0 + -53)) as (k & s & -> & Hs & Hk & H0 & Hr); [lia|].
  assert (s ≤ 31) as Hs'.
  { destruct (Z.eq_dec s 0) as [->|]; [done|]. destruct Hr as [Hr _]; [lia|].
    destruct (Z.le_gt_cases s 31) as [|Hgt]; [done|]. assert (2 ^ 84 ≤ 2 ^ (52 + s)) by (apply Z.pow_le_mono_r; lia). unfold C in Hr. lia. }
  unfold double_add. cbn [fst snd]. rewrite Z.min_l by lia. replace (0 + -53 + s - (0 + -53 + s)) with 0 by lia. rewrite Z.mul_1_r, Z.mul_1_l.
  replace (-1 - (0 + -53 + s)) with (52 - s) by lia. set (y := k + 2 ^ (52 - s)).
  assert (2 ^ (52 - s) * 2 ^ s = 2 ^ 52) as Ep by (rewrite <- Z.pow_add_r by lia; f_equal; lia).
  assert (0 < 2 ^ s ≤ 2 ^ 31) as Hps by (split; [apply Z.pow_pos_nonneg; lia|apply Z.pow_le_mono_r; lia]).
  assert (0 ≤ k) as Hk0.
  { destruct (Z.le_gt_cases 0 k); [done|]. assert (k * 2 ^ s ≤ -1 * 2 ^ s) by (apply Z.mul_le_mono_nonneg_r; lia). unfold C in *. lia. }
  destruct (rnd53_near y (0 + -53 + s)) as (k2 & s2 & -> & Hs2 & Hk2 & H2 & Hr2); [unfold y; lia|].
  assert (n * C + 2 ^ 52 - 2 ^ 31 ≤ y * 2 ^ s ≤ n * C + 2 ^ 52 + 2 ^ 31) as Hy.
  { unfold y. rewrite Z.mul_add_distr_r, Ep. lia. }
  assert (s + s2 ≤ 32) as Ht.
  { destruct (Z.eq_dec s2 0) as [->|]; [lia|]. destruct Hr2 as [Hr2 _]; [lia|].
    destruct (Z.le_gt_cases (s + s2) 32) as [|Hgt]; [done|exfalso].
    assert (2 ^ 85 ≤ 2 ^ (52 + s2) * 2 ^ s) by (rewrite <- Z.pow_add_r by lia; apply Z.pow_le_mono_r; lia).
    assert (2 ^ (52 + s2) * 2 ^ s ≤ y * 2 ^ s) by (apply Z.mul_le_mono_nonneg_r; lia). unfold C in *. lia. }
  set (t := s + s2) in *. unfold double_to_int. cbn [fst snd]. replace (0 + -53 + s + s2) with (- (53 - t)) by (unfold t; lia).
  destruct (Z.ltb_spec (- (53 - t)) 0) as [_|]; [|lia]. rewrite Z.opp_involutive.
  assert (2 ^ (53 - t) * 2 ^ t = 2 ^ 53) as Et by (rewrite <- Z.pow_add_r by lia; f_equal; lia).
  assert (0 < 2 ^ t ≤ 2 ^ 32) as Hpt by (split; [apply Z.pow_pos_nonneg; lia|apply Z.pow_le_mono_r; lia]).
  assert (2 ^ s2 * 2 ^ s = 2 ^ t) as Est by (rewrite <- Z.pow_add_r by lia; f_equal; lia).
  assert (y * 2 ^ s - 2 ^ 32 ≤ k2 * 2 ^ t ≤ y * 2 ^ s + 2 ^ 32) as Hw.
  { assert (2 * Z.abs (y - k2 * 2 ^ s2) * 2 ^ s ≤ 2 ^ s2 * 2 ^ s) as Ha by (apply Z.mul_le_mono_nonneg_r; lia). rewrite Est in Ha.
    assert (Z.abs (y - k2 * 2 ^ s2) * 2 ^ s = Z.abs (y * 2 ^ s - k2 * 2 ^ t)) as Eb.
    { rewrite <- (Z.abs_eq (2 ^ s)) at 1 by lia. rewrite <- Z.abs_mul, <- Est. f_equal. ring. }
    rewrite <- Z.mul_assoc, Eb in Ha. lia. }
  assert (0 ≤ k2) as Hk2'.
  { destruct (Z.le_gt_cases 0 k2); [done|]. assert (k2 * 2 ^ t < 0) by (apply Z.mul_neg_pos; lia). unfold C in *. lia. }
  rewrite Z.quot_div_nonneg by lia. split; [apply Z.div_pos; lia|]. apply Z.div_lt_upper_bound; [lia|].
  apply (Z.mul_lt_mono_pos_r (2 ^ t)); [lia|]. rewrite (Z.mul_comm _ n), <- Z.mul_assoc, Et. unfold C in *. lia.
Qed.

Section proposing.
Context {LH : LedgerHost} {CC : ChainCodec}.
Context (CheckProof : ValidatorSet → bytes → bytes → bool) (cfg : Configure).
Context (Do : APPLY_MODE → LedgerManager → Value → res Execution).

Local Abbreviation StartConsensus := (StartConsensus CheckProof cfg Do).

(** Executions end without a fault, and only the caller decides that they take too long. *)
Definition executes : Prop := ∀ mode m v, ∃ ex, Do mode m v = Ok ex ∧ block_timeout_ (propose_result_ ex) = false.

Lemma SyncPreProcess_runs o m v propose : executes →
  ∃ m' r ok, SyncPreProcess Do o m v propose = Ok (m', r, ok) ∧
    (block_timeout_ r = true → o ≠ Finished ∧ tx_execute_count_ r = match o with TimedOut c _ => c | _ => 0 end).
Proof.
  intros Hd. unfold SyncPreProcess. destruct (_ <? _); [by do 3 eexists|].
  destruct (Hd (if propose then APPLY_MODE_PROPOSE else APPLY_MODE_CHECK) m v) as (ex & E & Et).
  destruct o as [|c [|]|]; rewrite ?E; do 3 eexists; split; try reflexivity; try done. cbn. congruence.
Qed.

(** The number of transactions that are tried next is smaller, until it is one. *)
Lemma next_count n c : (2 ≤ n)%nat → Z.of_nat n ≤ txs_max → 0 ≤ c →
  next_tx_size (if c =? 0 then Z.of_nat n else Z.min c (Z.of_nat n)) < Z.of_nat n.
Proof.
  intros Hn Hm Hc. destruct (Z.eqb_spec c 0); [pose proof (next_tx_size_less (Z.of_nat n)); lia|].
  destruct (decide (Z.min c (Z.of_nat n) = 1)) as [->|Hne].
  - change (next_tx_size 1) with 1. lia.
  - pose proof (next_tx_size_less (Z.min c (Z.of_nat n))). lia.
Qed.

Lemma start_loop_runs fuel : ∀ i sched m txs ct proof up, executes →
  (∀ j l, (length l ≤ 1)%nat → sched j l = Finished) → (∀ j l c late, sched j l = TimedOut c late → 0 ≤ c) →
  Z.of_nat (length txs) ≤ txs_max → (length txs < fuel)%nat ∨ (1 ≤ fuel ∧ length txs ≤ 1)%nat →
  ∃ m' acts v, start_loop Do fuel i sched m txs ct proof up = Ok (m', acts ++ [Request (SerValue v)]).
Proof.
  induction fuel as [|fuel IH]; intros i sched m txs ct proof up Hd H1 Hc Hmax Hf; [lia|]. cbn [start_loop].
  destruct (SyncPreProcess_runs (sched i txs) m (propose_value m txs ct proof up) true Hd) as (m1 & r & ok & -> & Ht). cbn [mbind res_bind].
  destruct (block_timeout_ r).
  - destruct (Ht eq_refl) as [Hnf Er]. destruct (decide (length txs ≤ 1)%nat) as [Hle|Hgt]; [by apply (H1 i) in Hle|].
    assert (0 ≤ tx_execute_count_ r) as Hr by (rewrite Er; destruct (sched i txs) eqn:Es; [done|by eapply Hc|done]).
    pose proof (next_count (length txs) (tx_execute_count_ r) ltac:(lia) Hmax Hr) as Hlt.
    apply IH; [done..| |]; rewrite length_take; lia.
  - unfold finish_proposal. do 3 eexists. reflexivity.
Qed.

(** C16: A leader ends with a proposal.  If executions end without a fault, blocks of at most
    one transaction are executed in time, the counts of executed transactions that timeouts
    report are not negative and the pool offers at most [txs_max] transactions, then
    [StartConsensus] of a leader with [n] transactions makes at most [n + 1] attempts and hands
    a value to the consensus: its own, or the one of an earlier view that it checked.  (With
    two or more transactions each attempt is made with fewer; one transaction is not cut
    down, see [slow_transaction_loops].) *)
Theorem leader_proposes sched o m txs last up now : executes →
  (∀ j l, (length l ≤ 1)%nat → sched j l = Finished) → (∀ j l c late, sched j l = TimedOut c late → 0 ≤ c) →
  Z.of_nat (length txs) ≤ txs_max →
  ∃ m' acts v, StartConsensus (S (length txs)) sched o m true txs last up now = Ok (m', acts ++ [Request (SerValue v)]).
Proof.
  intros Hd H1 Hc Hmax. unfold Glue.StartConsensus. cbn [negb].
  assert (∃ m1 valid, (if decide (last = []) then mret (m, false) else CheckValue CheckProof cfg Do o m last now) = Ok (m1, valid)) as (m1 & valid & ->).
  { case_decide; [by do 2 eexists|]. unfold CheckValue. destruct (ParseValue last) as [v|]; [|by do 2 eexists].
    destruct (negb _); [by do 2 eexists|]. destruct (SyncPreProcess_runs o m v false Hd) as (m1 & r & ok & -> & _). by do 2 eexists. }
  cbn [mbind res_bind]. destruct (ParseValue last) as [v|]; [destruct valid|]; [by exists m1, [], v|apply start_loop_runs; [done..|lia]|apply start_loop_runs; [done..|lia]].
Qed.

(** A single slow transaction stops the leader for ever.  If the execution of one
    transaction takes longer than a block may, every time, then the next attempt is made with
    the same transaction, since seven tenths of one are rounded to one: however long
    [StartConsensus] runs, it does not propose. *)
Theorem slow_transaction_loops sched o m tx up now : completed_ctxs_ m = ∅ →
  (∀ j, ∃ c, sched j [tx] = TimedOut c false ∧ 0 ≤ c) →
  ∀ fuel, StartConsensus fuel sched o m true [tx] [] up now = Err OutOfFuel.
Proof.
  intros Hm Hs fuel. unfold Glue.StartConsensus. cbn [negb]. rewrite decide_True by done. cbn [mbind res_bind].
  assert (∀ fuel i ct proof, start_loop Do fuel i sched m [tx] ct proof up = Err OutOfFuel) as H.
  { clear fuel. induction fuel as [|fuel IH]; intros i ct proof; [done|]. cbn [start_loop].
    unfold SyncPreProcess, CheckComplete. rewrite Hm, lookup_empty. change (0 <? -1) with false.
    destruct (Hs i) as (c & -> & Hc). cbn [mbind res_bind mret res_ret block_timeout_ tx_execute_count_ length].
    assert ((if c =? 0 then Z.of_nat 1 else Z.min c (Z.of_nat 1)) = 1) as -> by (destruct (Z.eqb_spec c 0); lia).
    change (Z.to_nat (next_tx_size 1)) with 1%nat. cbn [take]. apply IH. }
  destruct (ParseValue []); apply H.
Qed.
End proposing.

Section agreeing.
Context {LH : LedgerHost} {CC : ChainCodec} {CL : ChainCodecLaws} {AC : AccountCodec} {JA : JsonAccess}.
Context (SerializeAsString : Node → bytes) (ParseFromString : bytes → Node).
Context (CheckProof : ValidatorSet → bytes → bytes → bool) (cfg : Configure).
Context (Do : APPLY_MODE → LedgerManager → Value → res Execution).
Context (Hparse : ∀ n, ParseFromString (SerializeAsString n) = n).
Context (Hcrypto : ∀ x y : bytes, Crypto x = Crypto y → x = y).
Context (Hgenesis : genesis_ok cfg).

Local Abbreviation node_life := (node_life SerializeAsString ParseFromString CheckProof cfg Do).
Local Abbreviation chain_ok := (chain_ok CheckProof cfg).
Local Abbreviation CheckValueHelper := (CheckValueHelper CheckProof cfg).
Local Abbreviation CheckValueAndProof := (CheckValueAndProof CheckProof cfg).
Local Abbreviation StartConsensus := (StartConsensus CheckProof cfg Do).

(** ** The checks depend on the last block only *)

(** [m'] has the last block [h] of [m] as block [k]. *)
Lemma lcl_validators m m' j : chain_ok m → chain_ok m' → h_hash (last_closed_ledger_ m) = h_hash (last_closed_ledger_ m') →
  1 ≤ j ≤ head_seq m → last_closed_ledger_ m = last_closed_ledger_ m' ∧ GetValidators m j = GetValidators m' j.
Proof.
  intros Hm Hm' Eh Hj. pose proof (hash_block Hcrypto _ _ _ _ _ _ _ _ (ck_top _ _ _ Hm) (ck_top _ _ _ Hm') Eh) as E. split; [done|].
  assert (head_seq m = head_seq m') as Es by (unfold head_seq; by rewrite E). pose proof (ck_top _ _ _ Hm') as Ht. rewrite <- Es, <- E in Ht.
  destruct (same_below CheckProof cfg Hcrypto m m' (head_seq m) (last_closed_ledger_ m) Hm Hm' ltac:(lia) ltac:(lia) (ck_top _ _ _ Hm) Ht j) as (g & G1 & G2); [lia|].
  by eapply same_validators.
Qed.

Lemma helper_agrees m m' v now : chain_ok m → chain_ok m' → room m 1 → h_hash (last_closed_ledger_ m) = h_hash (last_closed_ledger_ m') →
  CheckValueHelper m v now = CheckValueHelper m' v now.
Proof.
  intros Hm Hm' Hr Eh. unfold room in Hr. fold (head_seq m) in Hr. destruct (ck_range _ _ _ Hm) as [R1 R2].
  destruct (lcl_validators m m' 1 Hm Hm' Eh ltac:(lia)) as [El _].
  rewrite !helper_split, (ck_lcl _ _ _ Hm), (ck_lcl _ _ _ Hm'), <- El. f_equal. unfold helper_on. fold (head_seq m).
  rewrite (i64_small (head_seq m + 1)) by lia.
  destruct (Z.eqb_spec (v_seq v) (head_seq m + 1)) as [Ev|]; [|by rewrite !andb_false_r, !andb_false_l]. f_equal.
  destruct (Z.ltb_spec 1 (head_seq m)) as [H1|]; [|done]. cbn [negb orb]. rewrite Ev, i64_small by lia.
  replace (head_seq m + 1 - 2) with (head_seq m - 1) by lia. destruct (lcl_validators m m' (head_seq m - 1) Hm Hm' Eh ltac:(lia)) as [_ ->]. done.
Qed.

Lemma proof_agrees m m' value proof : chain_ok m → chain_ok m' → room m 1 →
  h_hash (last_closed_ledger_ m) = h_hash (last_closed_ledger_ m') →
  CheckValueAndProof m value proof = CheckValueAndProof m' value proof.
Proof.
  intros Hm Hm' Hr Eh. unfold Chain.CheckValueAndProof. destruct (ParseValue value) as [v|]; [|done].
  rewrite <- (helper_agrees m m') by done.
  destruct (CheckValueHelper m v (-1)) eqn:Ec; [|by destruct (GetValidators m _), (GetValidators m' _)].
  apply helper_facts in Ec as (Ev & _ & _). rewrite (ck_lcl _ _ _ Hm) in Ev. unfold room in Hr. fold (head_seq m) in Hr, Ev.
  destruct (ck_range _ _ _ Hm) as [R1 R2]. rewrite i64_small in Ev by lia. rewrite Ev, i64_small by lia.
  replace (head_seq m + 1 - 1) with (head_seq m) by lia. destruct (lcl_validators m m' (head_seq m) Hm Hm' Eh ltac:(lia)) as [_ <-]. done.
Qed.

(** C14: Nodes with the same last block judge every value alike.  The verdicts of
    [CheckValueHelper] on a value at a time, and of [CheckValueAndProof] on a text and a
    proof, are the same at two nodes whose last closed ledgers have the same hash, whatever
    else the nodes did before: a value that one correct validator supports all can support,
    and a block that one node accepts is accepted by the others. *)
Theorem checks_agree m m' : node_life m → node_life m' → room m 1 →
  h_hash (GetLastClosedLedger m) = h_hash (GetLastClosedLedger m') →
  (∀ v now, CheckValueHelper m v now = CheckValueHelper m' v now) ∧
  (∀ value proof, CheckValueAndProof m value proof = CheckValueAndProof m' value proof).
Proof.
  intros Hl Hl' Hr Eh. destruct (life_ok _ _ _ _ _ Hparse Hcrypto Hgenesis m Hl) as [Hm _].
  destruct (life_ok _ _ _ _ _ Hparse Hcrypto Hgenesis m' Hl') as [Hm' _].
  unfold GetLastClosedLedger in Eh. rewrite (ck_lcl _ _ _ Hm), (ck_lcl _ _ _ Hm') in Eh.
  split; intros; [by apply helper_agrees|by apply proof_agrees].
Qed.
(** ** Proposals *)

Lemma keep_execution_lcl m v ex : lcl_header_ (keep_execution m v ex) = lcl_header_ m.
Proof. unfold keep_execution, MoveRunningToComplete. destruct (exec_result_ _); [|done]. by destruct (completed_ctxs_ m !! _). Qed.

Lemma SyncPreProcess_lcl o m v propose m' r ok : SyncPreProcess Do o m v propose = Ok (m', r, ok) → lcl_header_ m' = lcl_header_ m.
Proof.
  unfold SyncPreProcess. destruct (_ <? _); [by intros [= <- _ _]|]. destruct o as [|c late|]; intros E; [by injection E as <- _ _| |].
  - apply bind_Ok_inv in E as (m1 & E1 & E). injection E as <- _ _. destruct late; [|by injection E1 as <-].
    apply bind_Ok_inv in E1 as (ex & _ & E1). injection E1 as <-. by rewrite keep_execution_lcl.
  - apply bind_Ok_inv in E as (ex & _ & E). injection E as <- _ _. by rewrite keep_execution_lcl.
Qed.

(** Every value that the loop hands over has the last closed ledger, time, proof and upgrade
    that it was started with. *)
Lemma start_loop_request fuel : ∀ i sched m txs ct proof up m' acts value,
  start_loop Do fuel i sched m txs ct proof up = Ok (m', acts) → Request value ∈ acts →
  ∃ txs' txs'' val, value = SerValue (set_validation (propose_value m txs' ct proof up) txs'' val).
Proof.
  induction fuel as [|fuel IH]; intros i sched m txs ct proof up m' acts value E Hin; cbn [start_loop] in E; [done|].
  apply bind_Ok_inv in E as ([[m1 r] b] & E1 & E). apply SyncPreProcess_lcl in E1. destruct (block_timeout_ r).
  - destruct (IH _ _ _ _ _ _ _ _ _ _ E Hin) as (t1 & t2 & val & ->). exists t1, t2, val. unfold propose_value, GetLastClosedLedger. by rewrite E1.
  - unfold finish_proposal in E. injection E as _ <-. apply elem_of_app in Hin as [Hin|Hin%list_elem_of_singleton].
    + case_decide; [by apply elem_of_nil in Hin|]. by apply list_elem_of_singleton in Hin.
    + injection Hin as ->. eauto.
Qed.

Lemma stored_proof m : chain_ok m → (db_Get (account_db m) LAST_PROOF).2 = proof_ m.
Proof.
  intros Hm. rewrite db_Get_ok by apply Hm. rewrite <- (pr_stored _ _ _ _ _ (ck_proof _ _ _ Hm)). by destruct (content (account_db m) !! LAST_PROOF).
Qed.

Lemma proposal_passes m txs txs' ct up val now : chain_ok m → room m 1 → (∀ u, up = Some u → new_validator u = []) →
  let v := set_validation (propose_value m txs ct (proof_ m) up) txs' val in
  size (SerValue v) < TXSET_LIMIT_SIZE + 2 * (1024 * 1024) → time_on cfg (last_closed_ledger_ m) v now = true →
  CheckValueHelper m v now = true.
Proof.
  intros Hm Hr Hu v Hs Ht. rewrite helper_split, (ck_lcl _ _ _ Hm), Ht, andb_true_r. unfold helper_on. fold (head_seq m).
  unfold room in Hr. fold (head_seq m) in Hr. destruct (ck_range _ _ _ Hm) as [R1 R2].
  assert (v_seq v = i64 (head_seq m + 1)) as Ev.
  { unfold v, v_seq, propose_value, GetLastClosedLedger. rewrite (ck_lcl _ _ _ Hm). done. }
  rewrite (proj2 (Z.ltb_lt _ _) Hs), Ev, Z.eqb_refl. cbn [andb].
  assert (previous_ledger_hash v = h_hash (last_closed_ledger_ m)) as Ep.
  { unfold v, propose_value, GetLastClosedLedger. rewrite (ck_lcl _ _ _ Hm). done. }
  rewrite (bool_decide_eq_true_2 _ Ep). cbn [andb]. change (previous_proof v) with (proof_ m).
  assert (match ledger_upgrade v with
    | Some u => ((new_ledger_version u =? 0) || (h_version (last_closed_ledger_ m) <? new_ledger_version u) && (new_ledger_version u <=? LEDGER_VERSION)) &&
        (bool_decide (Crypto (SerValue v) ∈ hardfork_points_ cfg) || bool_decide (new_validator u = []))
    | None => true end = true) as ->.
  { unfold v at 1, propose_value, set_validation, GetLastClosedLedger. cbn [ledger_upgrade]. rewrite (ck_lcl _ _ _ Hm).
    destruct up as [u|]; [|done]. destruct (_ && _) eqn:Eu; [|done]. rewrite Eu, orb_true_r.
    by rewrite (bool_decide_eq_true_2 _ (Hu u eq_refl)), orb_true_r. }
  cbn [andb]. destruct (Z.eqb_spec (head_seq m) 1) as [E1|E1].
  { rewrite (pr_first _ _ _ _ _ (ck_proof _ _ _ Hm) E1), E1. done. }
  destruct (Z.ltb_spec 1 (head_seq m)); [|lia]. cbn [negb orb andb]. rewrite (i64_small (head_seq m + 1)), i64_small by lia.
  replace (head_seq m + 1 - 2) with (head_seq m - 1) by lia.
  destruct (pr_cert _ _ _ _ _ (ck_proof _ _ _ Hm)) as (g & vs & Hg & Hvs & Hc); [lia|].
  rewrite (GetValidators_ok _ _ m _ g vs Hm Hg Hvs). apply orb_true_iff. destruct Hc as [Hc|Hc]; [by right|left; by apply bool_decide_eq_true].
Qed.

Lemma CheckValue_lcl o m value now m' ok : CheckValue CheckProof cfg Do o m value now = Ok (m', ok) →
  lcl_header_ m' = lcl_header_ m ∧ (ok = true → ∃ v, ParseValue value = Some v ∧ CheckValueHelper m v now = true).
Proof.
  unfold CheckValue. destruct (ParseValue value) as [v|]; [|by intros [= <- <-]]. destruct (CheckValueHelper m v now) eqn:Eh; [|by intros [= <- <-]].
  cbn [negb]. intros E. apply bind_Ok_inv in E as ([[m1 r] b] & E1 & E). injection E as <- <-. split; [by eapply SyncPreProcess_lcl|]. eauto.
Qed.

Lemma time_later lcl v now now' : 0 ≤ now → time_on cfg lcl v now = true → i64 (v_close_time v - MICRO_UNITS_PER_SEC) < now' → time_on cfg lcl v now' = true.
Proof.
  intros Hn Ht Hl. unfold time_on in *. destruct (Z.eqb_spec now (-1)); [lia|]. cbn [orb] in Ht. apply andb_true_iff in Ht as [_ Ht].
  rewrite Ht, (proj2 (Z.ltb_lt _ _) Hl). by rewrite orb_true_r.
Qed.

Lemma close_time_on m v now now' : lcl_header_ m = last_closed_ledger_ m → v_close_time v = next_close_time cfg m now →
  i64 (v_close_time v - MICRO_UNITS_PER_SEC) < now' → time_on cfg (last_closed_ledger_ m) v now' = true.
Proof.
  intros El Ev Hl. unfold time_on. rewrite (proj2 (Z.ltb_lt _ _) Hl), Ev. unfold next_close_time, GetLastClosedLedger. rewrite El.
  cbn [andb]. apply orb_true_iff. right. apply Z.leb_le. case_match eqn:Ec; [lia|]. apply Z.ltb_ge in Ec. done.
Qed.

(** C12: What a correct leader proposes, every correct validator supports.  Each value that
    [StartConsensus] hands to the consensus, whether built from the pool, cut down after
    timeouts, or taken over from an earlier view, passes [CheckValueHelper] at every node
    whose last closed ledger has the same hash, if its text is within the size limit, the
    upgrade that the votes gave names no new validator, and the clock of that node reads more
    than the closing time of the value less one second.  In particular the proof of the last
    block that the leader reads from its database is accepted. *)
Theorem honest_leader_supported fuel sched o m txs last up now m1 acts value m' now' :
  node_life m → node_life m' → room m 1 → 0 ≤ now → (∀ u, up = Some u → new_validator u = []) →
  h_hash (GetLastClosedLedger m) = h_hash (GetLastClosedLedger m') →
  StartConsensus fuel sched o m true txs last up now = Ok (m1, acts) → Request value ∈ acts →
  ∃ v, value = SerValue v ∧
    (size (SerValue v) < TXSET_LIMIT_SIZE + 2 * (1024 * 1024) → i64 (v_close_time v - MICRO_UNITS_PER_SEC) < now' →
     CheckValueHelper m' v now' = true).
Proof.
  intros Hl Hl' Hr Hn Hu Eh E Hin. destruct (life_ok _ _ _ _ _ Hparse Hcrypto Hgenesis m Hl) as [Hm _].
  destruct (life_ok _ _ _ _ _ Hparse Hcrypto Hgenesis m' Hl') as [Hm' _].
  unfold GetLastClosedLedger in Eh. rewrite (ck_lcl _ _ _ Hm), (ck_lcl _ _ _ Hm') in Eh.
  unfold Glue.StartConsensus in E. cbn [negb] in E. apply bind_Ok_inv in E as ([m2 valid] & E1 & E).
  assert (rtc (move SerializeAsString ParseFromString CheckProof cfg Do) m m2 ∧ lcl_header_ m2 = lcl_header_ m ∧
    (valid = true → ∃ v, ParseValue last = Some v ∧ CheckValueHelper m v now = true)) as (Hmv & Hlcl & Hvalid).
  { case_decide; [by injection E1 as <- <-|]. split; [by eapply CheckValue_moves|]. by eapply CheckValue_lcl. }
  assert (∀ m3 acts, start_loop Do fuel 0 sched m2 txs (next_close_time cfg m now) (db_Get (account_db m2) LAST_PROOF).2 up = Ok (m3, acts) →
    Request value ∈ acts → ∃ v, value = SerValue v ∧
    (size (SerValue v) < TXSET_LIMIT_SIZE + 2 * (1024 * 1024) → i64 (v_close_time v - MICRO_UNITS_PER_SEC) < now' → CheckValueHelper m' v now' = true)) as Hloop.
  { clear E Hin. intros m3 acts' E Hin. destruct (moves_ok _ _ _ _ _ Hcrypto _ _ Hm Hmv) as [Hm2 _].
    rewrite (stored_proof m2 Hm2) in E. destruct (start_loop_request _ _ _ _ _ _ _ _ _ _ _ E Hin) as (t1 & t2 & val & ->).
    eexists. split; [reflexivity|]. intros Hs Ht.
    assert (last_closed_ledger_ m2 = last_closed_ledger_ m) as Ell by (by rewrite <- (ck_lcl _ _ _ Hm), <- (ck_lcl _ _ _ Hm2)).
    rewrite <- (helper_agrees m2 m'); [|done|done|unfold room in *; by rewrite Ell|by rewrite Ell].
    apply proposal_passes; [done|unfold room in *; by rewrite Ell|done|done|]. rewrite Ell. apply (close_time_on m _ now); [apply Hm|done|done]. }
  destruct (ParseValue last) as [v|]; [destruct valid|]; [|by eapply Hloop|by eapply Hloop].
  destruct (Hvalid eq_refl) as (v' & [= <-] & Hh). injection E as _ <-. apply list_elem_of_singleton in Hin. injection Hin as ->.
  exists v. split; [done|]. intros _ Ht. rewrite <- (helper_agrees m m') by done. rewrite helper_split in Hh |- *.
  apply andb_true_iff in Hh as [-> Hh]. cbn [andb]. by eapply time_later.
Qed.

(** ** Synchronisation *)

Lemma values_from_lookup db n : ∀ b l i, values_from db b n = Some l →
  length l = n ∧ ((i < n)%nat → l !! i = ConsensusValueFromDB db (b + Z.of_nat i)).
Proof.
  induction n as [|n IH]; intros b l i E; cbn [values_from] in E; [injection E as <-; split; [done|lia]|].
  apply bind_Some in E as (v & E1 & E). apply bind_Some in E as (l' & E2 & E). injection E as <-.
  destruct (IH _ _ (i - 1)%nat E2) as [Hl Hi]. split; [cbn; lia|]. intros Hn. destruct i as [|i]; cbn [lookup list_lookup].
  - by rewrite Z.add_0_r.
  - cbn in Hi. rewrite Nat.sub_0_r in Hi. replace (b + Z.of_nat (S i)) with (b + 1 + Z.of_nat i) by lia. apply Hi. lia.
Qed.

(** The facts of [CheckValueHelper] that the chain keeps make it accept the value again. *)
Lemma stored_value_passes m m' k h0 h v : chain_ok m → chain_ok m' → 1 ≤ k < head_seq m → room m' 1 →
  block (content (ledger_db m)) (content (account_db m)) k h0 → block (content (ledger_db m)) (content (account_db m)) (k + 1) h →
  agreed CheckProof cfg (content (ledger_db m)) (content (account_db m)) (k + 1) h0 h v → h_hash h0 = h_hash (last_closed_ledger_ m') →
  CheckValueAndProof m' (SerValue v) (proof_of m (k + 1)) = true.
Proof.
  intros Hm Hm' Hk Hr B0 B1 Ha Eh. pose proof (hash_block Hcrypto _ _ _ _ _ _ _ _ B0 (ck_top _ _ _ Hm') Eh) as E0.
  assert (head_seq m' = k) as Es by (unfold head_seq; rewrite <- E0; apply B0). unfold room in Hr. fold (head_seq m') in Hr.
  destruct (ck_range _ _ _ Hm') as [R1 R2].
  pose proof (ck_top _ _ _ Hm') as Ht. rewrite Es, <- E0 in Ht.
  assert (∀ j g us, 1 ≤ j ≤ k → block (content (ledger_db m)) (content (account_db m)) j g → has_set (content (account_db m)) g us → GetValidators m' j = Some us) as Hval.
  { intros j g us Hj Hg Hus. destruct (same_below CheckProof cfg Hcrypto m m' k h0 Hm Hm' ltac:(lia) ltac:(lia) B0 Ht j Hj) as (g' & G1 & G2).
    rewrite <- (same_validators CheckProof cfg Hcrypto m m' j g' Hm Hm' G1 G2).
    pose proof (block_fun _ _ _ _ _ _ G1 Hg) as ->. by eapply GetValidators_ok. }
  destruct (served_proof CheckProof cfg m k h0 h v Hm Hk B0 B1 Ha) as (vs & Hs & Hc).
  destruct (ag_helper _ _ _ _ _ _ _ _ Ha) as (set & Hh & Hset). pose proof (ag_seq _ _ _ _ _ _ _ _ Ha) as Ev.
  unfold Chain.CheckValueAndProof. rewrite value_back, Ev, i64_small by lia. replace (k + 1 - 1) with k by lia.
  rewrite (Hval k h0 vs ltac:(lia) B0 Hs). apply andb_true_iff. split.
  - rewrite helper_split, (ck_lcl _ _ _ Hm'), <- E0. apply andb_true_iff. split; [|done].
    rewrite Ev, i64_small by lia. destruct (decide (2 < k + 1)) as [H2|H2].
    + destruct (Hset H2) as (g & us & -> & Hg & Hus). by rewrite (Hval (k + 1 - 2) g us ltac:(lia) Hg Hus).
    + unfold helper_on in Hh |- *. apply andb_true_iff in Hh as [Hh1 Hh2]. rewrite Hh1. rewrite (b_seq _ _ _ _ B0).
      destruct (Z.ltb_spec 1 k); [lia|done].
  - apply orb_true_iff. destruct Hc as [Hc|Hc]; [by left|right; by apply bool_decide_eq_true].
Qed.

(** C13: What a node serves to a peer that synchronises, the peer accepts.  The answer to a
    request for the blocks from [gl_begin] to [gl_end] holds at most five values with
    consecutive numbers; and each of them, with the proof that the receiver takes from the
    next one or from the end of the message, passes [CheckValueAndProof] of every node that
    has the block before it as its last. *)
Theorem served_values_accepted m m' message peer ledgers i v h0 :
  node_life m → node_life m' → 2 ≤ gl_begin message → room m' 1 →
  OnRequestLedgers m message peer = [SendLedgers peer ledgers] →
  l_values ledgers !! i = Some v → LoadFromDb (ledger_db m) (v_seq v - 1) = Some h0 → h_hash h0 = h_hash (GetLastClosedLedger m') →
  (length (l_values ledgers) ≤ 5)%nat ∧ v_seq v = gl_begin message + Z.of_nat i ∧
  CheckValueAndProof m' (SerValue v) (match l_values ledgers !! S i with Some w => previous_proof w | None => l_proof ledgers end) = true.
Proof.
  intros Hl Hl' Hb Hr E Hi E0 Eh. destruct (life_ok _ _ _ _ _ Hparse Hcrypto Hgenesis m Hl) as [Hm _].
  destruct (life_ok _ _ _ _ _ Hparse Hcrypto Hgenesis m' Hl') as [Hm' _]. destruct (ck_range _ _ _ Hm) as [R1 R2].
  unfold GetLastClosedLedger in Eh. rewrite (ck_lcl _ _ _ Hm') in Eh. unfold OnRequestLedgers in E.
  destruct (negb _); [done|]. destruct (Z.ltb_spec 5 (i64 (i64 (gl_end message - gl_begin message) + 1))) as [|H5]; [done|].
  destruct (Z.ltb_spec (i64 (gl_end message - gl_begin message)) 0) as [|Hlt]; [done|].
  destruct (Z.ltb_spec (h_seq (last_closed_ledger_ m)) (gl_end message)) as [|Hle]; [done|]. fold (head_seq m) in Hle.
  destruct (values_from _ _ _) as [values|] eqn:Ef; [|done]. injection E as <-. cbn [l_values l_proof] in *.
  destruct (values_from_lookup _ _ _ _ i Ef) as [Hlen Hval]. assert (i < length values)%nat as Hil by (by eapply lookup_lt_Some).
  assert (0 ≤ gl_end message - gl_begin message < 2 ^ 63) as Hrange by lia.
  rewrite (i64_small (gl_end message - gl_begin message)) in H5, Hlt by lia. rewrite i64_small in H5 by lia.
  set (k := gl_begin message + Z.of_nat i - 1). assert (1 ≤ k < head_seq m) as Hk by lia.
  destruct (step_read _ _ m k Hm Hk) as (g & h & w & B0 & B1 & Ha & _). rewrite Hval in Hi by lia.
  replace (gl_begin message + Z.of_nat i) with (k + 1) in Hi by lia. rewrite (value_read _ _ _ _ _ _ _ Hm Ha) in Hi. injection Hi as ->.
  pose proof (ag_seq _ _ _ _ _ _ _ _ Ha) as Ev. rewrite Ev in E0. replace (k + 1 - 1) with k in E0 by lia.
  rewrite (block_read _ _ _ _ _ Hm B0) in E0. injection E0 as ->. split_and!; [lia|lia|].
  assert ((match values !! S i with Some w => previous_proof w | None => proof_of m (gl_end message) end) = proof_of m (k + 1)) as ->.
  { destruct (values_from_lookup _ _ _ _ (S i) Ef) as [_ Hnext]. destruct (decide (S i < length values)%nat) as [Hin|Hout].
    - rewrite Hnext by lia. unfold proof_of. fold (head_seq m). destruct (Z.eqb_spec (k + 1) (head_seq m)); [lia|]. rewrite (i64_small (k + 1 + 1)) by lia.
      replace (gl_begin message + Z.of_nat (S i)) with (k + 1 + 1) by lia.
      destruct (step_read _ _ m (k + 1) Hm) as (g' & h' & w & _ & _ & Hw & _); [lia|]. by rewrite (value_read _ _ _ _ _ _ _ Hm Hw).
    - rewrite lookup_ge_None_2 by lia. f_equal. lia. }
  by eapply stored_value_passes.
Qed.
End agreeing.
