(* ===== verification/HardFork.v ===== *)
(** * A hard fork (ledger_manager.cpp, [CreateHardforkLedger])

    When consensus is lost, an operator stops a node and has it write one block on its own,
    which makes this node the only validator.  The other nodes accept the value of that block
    without a proof once its hash is in their configuration. *)
From stdpp Require Import base gmap list sorting strings.
From Stdlib Require Import ZArith Lia.
From S2P Require Import Prelude Location Trie TrieSpec TrieHash KVTrie TrieMap TrieRefinement TrieCanon TrieShared TrieRehash SafeInt Strings Hex Base58 AtomMap Account LedgerMsg Environment LedgerFrm LedgerCommit ChainMsg Chain ChainDb ChainInv Glue ChainStart ChainRun ChainLife ChainClaims GlueClaims.
Local Open Scope Z_scope.

Section fork.
Context {LH : LedgerHost} {CC : ChainCodec} {CL : ChainCodecLaws} {AC : AccountCodec} {JA : JsonAccess}.
Context (SerializeAsString : Node → bytes) (ParseFromString : bytes → Node).
Context (CheckProof : ValidatorSet → bytes → bytes → bool) (cfg : Configure).
Context (Do : APPLY_MODE → LedgerManager → Value → res Execution).

Local Abbreviation commit_tree := (commit_tree SerializeAsString ParseFromString Crypto).

(** The value of the block, on the header [lcl]. *)
Definition fork_request (lcl : LedgerHeader) (proof this_node_address : bytes) : Value :=
  mkValue (mkConsensusValue [] (i64 (h_close_time lcl + close_interval_ cfg)) (i64 (h_seq lcl + 1)) None) proof (h_hash lcl)
    (Some (mkUpgrade 0 this_node_address 0)).

Definition fork_header (lcl : LedgerHeader) (request : Value) (new_validator_set : ValidatorSet) (root_hash : bytes) (envs : list TransactionEnv)
    : LedgerHeader :=
  let h := mkHeader (v_seq request) [] (h_hash lcl) root_hash (v_close_time request) (Crypto (SerValue request)) (h_version lcl)
    (h_tx_count lcl) (Crypto (SerValidators new_validator_set)) (h_fees_hash lcl) [] (h_chain_id lcl) in
  set_hash (Crypto (SerLedger h envs)) h.

(** After the operator has typed [y].  The two databases and the header; [None]: the last
    ledger is not found. *)
Definition CreateHardforkLedger (m : LedgerManager) (this_node_address : bytes) : res (option (KeyValueDb * KeyValueDb * LedgerHeader)) :=
  let adb := account_db m in
  match LoadFromDb (ledger_db m) (Stoi64 (db_Get adb KEY_LEDGER_SEQ).2) with
  | None => mret None
  | Some lcl =>
      let request := fork_request lcl (db_Get adb LAST_PROOF).2 this_node_address in
      let new_validator_set := [(this_node_address, 0)] in
      ex ← Do APPLY_MODE_PROPOSE m request;
      '(tree, _) ← commit_tree (cl_entries (ex_closing ex)) (tree_ m);
      match db_WriteBatch adb (batch_ (store_ tree)) with
      | None => Err ProcessExit
      | Some adb =>
          let header := fork_header lcl request new_validator_set (GetRootHash tree) (cl_envs (ex_closing ex)) in
          match db_WriteBatch (ledger_db m)
                  [BPut KEY_LEDGER_SEQ (ToString (h_seq header)); BPut (ComposePrefix64 LEDGER_PREFIX (h_seq header)) (SerHeader header);
                   BPut (ComposePrefix64 CONSENSUS_VALUE_PREFIX (h_seq header)) (SerValue request)] with
          | None => Err ProcessExit
          | Some ldb =>
              match db_WriteBatch adb [BPut KEY_LEDGER_SEQ (ToString (h_seq header)); BPut LAST_PROOF []; ValidatorsSet new_validator_set] with
              | None => Err ProcessExit
              | Some adb => mret (Some (ldb, adb, header))
              end
          end
      end
  end.

Context (Hparse : ∀ n, ParseFromString (SerializeAsString n) = n).
Context (Hcrypto : ∀ x y : bytes, Crypto x = Crypto y → x = y).
Context (Hgenesis : genesis_ok cfg).
Local Abbreviation node_life := (node_life SerializeAsString ParseFromString CheckProof cfg Do).
Local Abbreviation chain_ok := (chain_ok CheckProof cfg).

(** The header that the tool reads is the last closed ledger. *)
Lemma fork_lcl m : chain_ok m → LoadFromDb (ledger_db m) (Stoi64 (db_Get (account_db m) KEY_LEDGER_SEQ).2) = Some (last_closed_ledger_ m).
Proof.
  intros Hm. rewrite db_Get_ok, (ck_account_seq _ _ _ Hm) by apply Hm. cbn [snd]. pose proof (ck_range _ _ _ Hm).
  rewrite Stoi64_ToString by (unfold is_i64, INT64_MIN, INT64_MAX; lia). eapply block_read; [exact Hm|apply Hm].
Qed.

(** The value passes the checks without a proof. *)
Lemma fork_checked m address proof : chain_ok m → room m 1 →
  let v := fork_request (last_closed_ledger_ m) (proof_ m) address in
  Crypto (SerValue v) ∈ hardfork_points_ cfg → size (SerValue v) < TXSET_LIMIT_SIZE + 2 * (1024 * 1024) →
  CheckValueAndProof CheckProof cfg m (SerValue v) proof = true.
Proof.
  intros Hm Hr v Hf Hs. unfold room in Hr. fold (head_seq m) in Hr. destruct (ck_range _ _ _ Hm) as [R1 R2].
  unfold CheckValueAndProof. rewrite value_back. change (v_seq v) with (i64 (head_seq m + 1)).
  rewrite (i64_small (head_seq m + 1)), i64_small by lia. replace (head_seq m + 1 - 1) with (head_seq m) by lia.
  rewrite (GetValidators_ok _ _ m _ _ _ Hm (ck_top _ _ _ Hm) (ck_validators _ _ _ Hm)). apply andb_true_iff. split.
  2:{ apply orb_true_iff. right. by apply bool_decide_eq_true. }
  rewrite helper_split, (ck_lcl _ _ _ Hm). apply andb_true_iff. split; [|done]. unfold helper_on. fold (head_seq m).
  change (v_seq v) with (i64 (head_seq m + 1)). change (previous_proof v) with (proof_ m). change (ledger_upgrade v) with (Some (mkUpgrade 0 address 0)).
  change (previous_ledger_hash v) with (h_hash (last_closed_ledger_ m)).
  rewrite (proj2 (Z.ltb_lt _ _) Hs), Z.eqb_refl, (bool_decide_eq_true_2 (h_hash _ = _)) by done. cbn [andb new_ledger_version new_validator Z.eqb orb].
  rewrite (bool_decide_eq_true_2 _ Hf). cbn [andb orb].
  destruct (Z.eqb_spec (head_seq m) 1) as [E1|E1].
  { rewrite (pr_first _ _ _ _ _ (ck_proof _ _ _ Hm) E1), E1. done. }
  destruct (Z.ltb_spec 1 (head_seq m)); [|lia]. cbn [negb orb andb]. rewrite (i64_small (head_seq m + 1)), i64_small by lia.
  replace (head_seq m + 1 - 2) with (head_seq m - 1) by lia.
  destruct (pr_cert _ _ _ _ _ (ck_proof _ _ _ Hm)) as (g & vs & Hg & Hvs & Hc); [lia|].
  rewrite (GetValidators_ok _ _ m _ g vs Hm Hg Hvs). apply orb_true_iff. destruct Hc as [Hc|Hc]; [by right|left; by apply bool_decide_eq_true].
Qed.

(** C27: The hard fork that the tool writes is the block that the other nodes close.  Take a
    node on which the operator runs [CreateHardforkLedger], and any node with the same
    configuration and the same last block, in any states of their lives.  Once the hash of the
    value is configured, and if the value is within the size limit, it passes the checks of the
    second node with any proof.  And when the second node closes it, neither execution
    leaving transactions in the block nor the second one a fee, the node of the tool becomes
    the only validator, and the header is the very header that the tool wrote as soon as the
    two executions lead to the same root hash of the accounts. *)
Theorem hardfork_block_agrees m m' address ldb adb h : node_life m → node_life m' → room m 1 →
  h_hash (last_closed_ledger_ m) = h_hash (last_closed_ledger_ m') → address ≠ [] →
  let v := fork_request (last_closed_ledger_ m) (proof_ m) address in
  Crypto (SerValue v) ∈ hardfork_points_ cfg → size (SerValue v) < TXSET_LIMIT_SIZE + 2 * (1024 * 1024) →
  (∀ ex, Do APPLY_MODE_PROPOSE m v = Ok ex → cl_envs (ex_closing ex) = []) →
  CreateHardforkLedger m address = Ok (Some (ldb, adb, h)) →
  (∀ proof, CheckValueAndProof CheckProof cfg m' (SerValue v) proof = true) ∧
  ∀ proof m'' posts, (∀ cl, executed Do m' v m'' cl → cl_envs cl = [] ∧ cl_fees cl = None) →
    CloseLedger SerializeAsString ParseFromString CheckProof cfg Do m' v proof = Ok (m'', true, posts) →
    validators_ m'' = [(address, 0)] ∧
    (h_account_tree_hash (last_closed_ledger_ m'') = h_account_tree_hash h → last_closed_ledger_ m'' = h).
Proof.
  intros Hl Hl' Hr Eh Ha v Hf Hs Ee E. destruct (life_ok _ _ _ _ _ Hparse Hcrypto Hgenesis m Hl) as [Hm _].
  destruct (life_ok _ _ _ _ _ Hparse Hcrypto Hgenesis m' Hl') as [Hm' _].
  pose proof (hash_block Hcrypto _ _ _ _ _ _ _ _ (ck_top _ _ _ Hm) (ck_top _ _ _ Hm') Eh) as El.
  split; [intros proof; rewrite <- (proof_agrees CheckProof cfg Hcrypto m m') by done; by apply fork_checked|].
  intros proof m'' posts Hex Ec.
  unfold CreateHardforkLedger in E. rewrite (fork_lcl m Hm), (stored_proof CheckProof cfg m Hm) in E. fold v in E.
  apply bind_Ok_inv in E as (ex & Ed & E). apply bind_Ok_inv in E as ([tree n] & Et & E). rewrite (Ee ex Ed) in E.
  destruct (db_WriteBatch (account_db m) _) as [adb1|]; [|done]. destruct (db_WriteBatch (ledger_db m) _) as [ldb1|]; [|done].
  destruct (db_WriteBatch adb1 _); [|done]. injection E as _ _ <-.
  apply CloseLedger_closed in Ec as [[? _]|[_ (cl & t & Hc & Hx)]]; [done|]. destruct (Hex _ Hx) as [E1 E2].
  assert (next_validators m' v cl = (true, [(address, 0)])) as Ev.
  { unfold next_validators. cbn [v fork_request ledger_upgrade new_validator]. destruct (Z.ltb_spec 0 (size address)) as [|Hz]; [done|].
    unfold size in Hz. destruct address; [done|]. cbn [length] in Hz. lia. }
  rewrite (cd_validators _ _ _ _ _ _ _ _ _ _ Hc), (cd_header _ _ _ _ _ _ _ _ _ _ Hc), Ev, E2. split; [done|].
  destruct (cd_count _ _ _ _ _ _ _ _ _ _ Hc) as (n' & Et' & _).
  unfold next_header, fork_header. rewrite E1. cbn [GetVotedFee snd set_hash h_account_tree_hash]. intros ->. rewrite El.
  rewrite <- (ck_fees_hash _ _ _ Hm'), <- (ck_chain _ _ _ Hm').
  change (next_version m' v) with (h_version (last_closed_ledger_ m')). cbn [length]. rewrite Z.add_0_r.
  rewrite i64_small by apply Hm'.
  assert (previous_ledger_hash v = h_hash (last_closed_ledger_ m')) as -> by exact Eh. done.
Qed.
End fork.
