(* ===== verification/ChainDemo.v ===== *)
(** * A small network

    A concrete encoding of the messages, a host, four validators and an execution that changes
    an account, with which the claims of [ChainClaims] and [GlueClaims] are applied: a node
    that is started, closes a block, is stopped and started again, and another node that
    closes a different block. *)
From stdpp Require Import base gmap list sorting strings numbers countable.
From Stdlib Require Import ZArith Lia.
From S2P Require Import Prelude PbftMsg Pbft PbftQuorum Location Trie TrieSpec TrieHash KVTrie TrieMap TrieRefinement TrieCanon TrieShared TrieRehash SafeInt Strings Hex Base58 AtomMap Account LedgerMsg Environment LedgerFrm LedgerCommit LedgerStore LedgerStoreDemo ChainMsg Chain ChainDb ChainInv UpgradeVote Glue ChainStart ChainRun ChainLife ChainTidy ChainClaims GlueClaims HardFork.
Local Open Scope Z_scope.

(** ** An encoding *)

(** Numbers in binary. *)
Fixpoint digits (p : positive) : bytes :=
  match p with
  | xH => []
  | xO p => Init.Byte.x30 :: digits p
  | xI p => Init.Byte.x31 :: digits p
  end.

Fixpoint undigits (l : bytes) : positive :=
  match l with
  | [] => xH
  | Init.Byte.x30 :: l => xO (undigits l)
  | _ :: l => xI (undigits l)
  end.

Lemma undigits_digits p : undigits (digits p) = p.
Proof. by induction p; simpl; f_equal. Qed.

(** A list of fields: each with its length before it. *)
Definition enc_field (f : bytes) : bytes := digits (Pos.of_succ_nat (length f)) ++ Init.Byte.x3a :: f.
Definition enc_fields (l : list bytes) : bytes := mjoin (enc_field <$> l).

(** The bytes before the colon, and those after it. *)
Fixpoint split_colon (l : bytes) : bytes * bytes :=
  match l with
  | [] => ([], [])
  | Init.Byte.x3a :: l => ([], l)
  | b :: l => let '(x, y) := split_colon l in (b :: x, y)
  end.

Fixpoint dec_upto (fuel : nat) (l : bytes) : list bytes :=
  match fuel, l with
  | S fuel, _ :: _ =>
      let '(d, r) := split_colon l in
      let n := pred (Pos.to_nat (undigits d)) in take n r :: dec_upto fuel (drop n r)
  | _, _ => []
  end.
Definition dec_fields (l : bytes) : list bytes := dec_upto (length l) l.

Lemma split_digits p l : split_colon (digits p ++ Init.Byte.x3a :: l) = (digits p, l).
Proof. induction p as [p IH|p IH|]; cbn; by rewrite ?IH. Qed.

Lemma dec_upto_enc l : ∀ fuel, (length l ≤ fuel)%nat → dec_upto fuel (enc_fields l) = l.
Proof.
  induction l as [|f l IH]; intros [|fuel] Hf; [done|done|cbn in Hf; lia|].
  change (enc_fields (f :: l)) with (enc_field f ++ enc_fields l). unfold enc_field. rewrite <- app_assoc. cbn [dec_upto app].
  destruct (digits (Pos.of_succ_nat (length f)) ++ Init.Byte.x3a :: f ++ enc_fields l) as [|b r] eqn:E; [by destruct (digits _)|].
  rewrite <- E, split_digits, undigits_digits, SuccNat2Pos.id_succ. cbn [pred]. rewrite take_app_length, drop_app_length, IH; [done|].
  cbn in Hf. lia.
Qed.

Lemma dec_enc l : dec_fields (enc_fields l) = l.
Proof.
  apply dec_upto_enc. induction l as [|f l IH]; [done|]. change (enc_fields (f :: l)) with (enc_field f ++ enc_fields l).
  unfold enc_field. rewrite !length_app. cbn [length]. lia.
Qed.

(** Nodes of tries. *)
Definition child_fields (c : Child) : list bytes :=
  [sublocation c; Trie.hash c; match childtype c with NONE => [] | INNER => str "i" | LEAF => str "l" end].

Fixpoint children_of (l : list bytes) : Node :=
  match l with
  | a :: b :: c :: l =>
      mkChild a b (if decide (c = []) then NONE else if decide (c = str "i") then INNER else LEAF) :: children_of l
  | _ => []
  end.

Definition node_text (n : Node) : bytes := enc_fields (n ≫= child_fields).
Definition text_node (b : bytes) : Node := children_of (dec_fields b).

Lemma text_node_text n : text_node (node_text n) = n.
Proof.
  unfold text_node, node_text. rewrite dec_enc. induction n as [|[a b c] n IH]; [done|].
  change ((mkChild a b c :: n) ≫= child_fields) with (child_fields (mkChild a b c) ++ (n ≫= child_fields)).
  cbn [child_fields app children_of sublocation Trie.hash childtype]. rewrite IH. by destruct c.
Qed.

(** Anything countable as bytes. *)
Definition enc {A} `{Countable A} (x : A) : bytes := digits (encode x).
Definition dec {A} `{Countable A} (b : bytes) : option A := decode (undigits b).

Lemma dec_enc_of {A} `{Countable A} (x : A) : dec (enc x) = Some x.
Proof. unfold dec, enc. by rewrite undigits_digits, decode_encode. Qed.

#[global] Instance KeyPair_eq_dec : EqDecision KeyPair.
Proof. solve_decision. Defined.
#[global] Instance Signer_eq_dec : EqDecision Signer.
Proof. solve_decision. Defined.
#[global] Instance TypeThreshold_eq_dec : EqDecision OperationTypeThreshold.
Proof. solve_decision. Defined.
#[global] Instance Thresholds_eq_dec : EqDecision AccountThreshold.
Proof. solve_decision. Defined.
#[global] Instance Privilege_eq_dec : EqDecision AccountPrivilege.
Proof. solve_decision. Defined.
#[global] Instance CreateAccount_eq_dec : EqDecision OperationCreateAccount.
Proof. solve_decision. Defined.
#[global] Instance IssueAsset_eq_dec : EqDecision OperationIssueAsset.
Proof. solve_decision. Defined.
#[global] Instance Asset_eq_dec : EqDecision Asset.
Proof. solve_decision. Defined.
#[global] Instance PayAsset_eq_dec : EqDecision OperationPayAsset.
Proof. solve_decision. Defined.
#[global] Instance SetMetadata_eq_dec : EqDecision OperationSetMetadata.
Proof. solve_decision. Defined.
#[global] Instance SetSignerWeight_eq_dec : EqDecision OperationSetSignerWeight.
Proof. solve_decision. Defined.
#[global] Instance SetThreshold_eq_dec : EqDecision OperationSetThreshold.
Proof. solve_decision. Defined.
#[global] Instance PayCoin_eq_dec : EqDecision OperationPayCoin.
Proof. solve_decision. Defined.
#[global] Instance Log_eq_dec : EqDecision OperationLog.
Proof. solve_decision. Defined.
#[global] Instance SetPrivilege_eq_dec : EqDecision OperationSetPrivilege.
Proof. solve_decision. Defined.
#[global] Instance Operation_eq_dec : EqDecision Operation.
Proof. solve_decision. Defined.
#[global] Instance Transaction_eq_dec : EqDecision Transaction.
Proof. solve_decision. Defined.
#[global] Instance Signature_eq_dec : EqDecision LedgerMsg.Signature.
Proof. solve_decision. Defined.
#[global] Instance TransactionEnv_eq_dec : EqDecision TransactionEnv.
Proof. solve_decision. Defined.
#[global] Instance Validation_eq_dec : EqDecision ConsensusValueValidation.
Proof. solve_decision. Defined.

#[global] Instance KeyPair_countable : Countable KeyPair.
Proof. refine (inj_countable' (λ x, (key x, Account.value x, Account.version x)) (λ '(a, b, c), mkKeyPair a b c) _). by intros []. Defined.
#[global] Instance Signer_countable : Countable Signer.
Proof. refine (inj_countable' (λ x, (signer_address x, weight x)) (λ '(a, b), mkSigner a b) _). by intros []. Defined.
#[global] Instance TypeThreshold_countable : Countable OperationTypeThreshold.
Proof. refine (inj_countable' (λ x, (threshold_type x, threshold x)) (λ '(a, b), mkTypeThreshold a b) _). by intros []. Defined.
#[global] Instance Thresholds_countable : Countable AccountThreshold.
Proof. refine (inj_countable' (λ x, (tx_threshold x, type_thresholds x)) (λ '(a, b), mkThresholds a b) _). by intros []. Defined.
#[global] Instance Privilege_countable : Countable AccountPrivilege.
Proof. refine (inj_countable' (λ x, (master_weight x, signers x, thresholds x)) (λ '(a, b, c), mkPrivilege a b c) _). by intros []. Defined.
#[global] Instance CreateAccount_countable : Countable OperationCreateAccount.
Proof.
  refine (inj_countable' (λ x, (ca_dest_address x, ca_payload x, ca_priv x, ca_metadatas x, ca_init_balance x, ca_init_input x))
    (λ '(a, b, c, d, e, f), mkCreateAccount a b c d e f) _). by intros [].
Defined.
#[global] Instance IssueAsset_countable : Countable OperationIssueAsset.
Proof. refine (inj_countable' (λ x, (ia_code x, ia_amount x)) (λ '(a, b), mkIssueAsset a b) _). by intros []. Defined.
#[global] Instance Asset_countable : Countable Asset.
Proof. refine (inj_countable' (λ x, (a_key x, a_amount x)) (λ '(a, b), mkAsset a b) _). by intros []. Defined.
#[global] Instance PayAsset_countable : Countable OperationPayAsset.
Proof. refine (inj_countable' (λ x, (pa_dest_address x, pa_asset x, pa_input x)) (λ '(a, b, c), mkPayAsset a b c) _). by intros []. Defined.
#[global] Instance SetMetadata_countable : Countable OperationSetMetadata.
Proof. refine (inj_countable' (λ x, (sm_key x, sm_value x, sm_version x, sm_delete_flag x)) (λ '(a, b, c, d), mkSetMetadata a b c d) _). by intros []. Defined.
#[global] Instance SetSignerWeight_countable : Countable OperationSetSignerWeight.
Proof. refine (inj_countable' (λ x, (sw_master_weight x, sw_signers x)) (λ '(a, b), mkSetSignerWeight a b) _). by intros []. Defined.
#[global] Instance SetThreshold_countable : Countable OperationSetThreshold.
Proof. refine (inj_countable' (λ x, (st_tx_threshold x, st_type_thresholds x)) (λ '(a, b), mkSetThreshold a b) _). by intros []. Defined.
#[global] Instance PayCoin_countable : Countable OperationPayCoin.
Proof. refine (inj_countable' (λ x, (pc_dest_address x, pc_amount x, pc_input x)) (λ '(a, b, c), mkPayCoin a b c) _). by intros []. Defined.
#[global] Instance Log_countable : Countable OperationLog.
Proof. refine (inj_countable' (λ x, (log_topic x, log_datas x)) (λ '(a, b), mkLog a b) _). by intros []. Defined.
#[global] Instance SetPrivilege_countable : Countable OperationSetPrivilege.
Proof.
  refine (inj_countable' (λ x, (sp_master_weight x, sp_signers x, sp_tx_threshold x, sp_type_thresholds x))
    (λ '(a, b, c, d), mkSetPrivilege a b c d) _). by intros [].
Defined.
#[global] Instance Operation_countable : Countable Operation.
Proof.
  refine (inj_countable' (λ x, ((op_type x, op_source_address x, op_metadata x, create_account x, issue_asset x, pay_asset x),
      (set_metadata x, set_signer_weight x, set_threshold x, pay_coin x, log x, set_privilege x)))
    (λ '((a, b, c, d, e, f), (g, h, i, j, k, l)), mkOperation a b c d e f g h i j k l) _). by intros [].
Defined.
#[global] Instance Transaction_countable : Countable Transaction.
Proof.
  refine (inj_countable' (λ x, ((tx_source_address x, tx_nonce x, fee_limit x, gas_price x), (ceil_ledger_seq x, tx_metadata x, operations x, chain_id x)))
    (λ '((a, b, c, d), (e, f, g, h)), mkTransaction a b c d e f g h) _). by intros [].
Defined.
#[global] Instance Signature_countable : Countable LedgerMsg.Signature.
Proof. refine (inj_countable' (λ x, (LedgerMsg.public_key x, LedgerMsg.sign_data x)) (λ '(a, b), LedgerMsg.mkSignature a b) _). by intros []. Defined.
#[global] Instance TransactionEnv_countable : Countable TransactionEnv.
Proof. refine (inj_countable' (λ x, (transaction x, signatures x, trigger x)) (λ '(a, b, c), mkTransactionEnv a b c) _). by intros []. Defined.
#[global] Instance Validation_countable : Countable ConsensusValueValidation.
Proof. refine (inj_countable' (λ x, (expire_tx_ids x, error_tx_ids x)) (λ '(a, b), mkValidation a b) _). by intros []. Defined.
#[global] Instance LedgerUpgrade_countable : Countable LedgerUpgrade.
Proof. refine (inj_countable' (λ x, (new_ledger_version x, new_validator x, up_chain_id x)) (λ '(a, b, c), mkUpgrade a b c) _). by intros []. Defined.

Definition enc_header (h : LedgerHeader) : bytes :=
  enc_fields [enc (h_seq h); h_hash h; h_previous_hash h; h_account_tree_hash h; enc (h_close_time h); h_consensus_value_hash h;
    enc (h_version h); enc (h_tx_count h); h_validators_hash h; h_fees_hash h; h_reserve h; enc (h_chain_id h)].

Definition dec_z (b : bytes) : Z := default 0 (dec b).

Definition dec_header (b : bytes) : LedgerHeader :=
  match dec_fields b with
  | [a; b; c; d; e; f; g; h; i; j; k; l] => mkHeader (dec_z a) b c d (dec_z e) f (dec_z g) (dec_z h) i j k (dec_z l)
  | _ => mkHeader 0 [] [] [] 0 [] 0 0 [] [] [] 0
  end.

Definition enc_value (v : Value) : bytes :=
  enc_fields [enc (v_txs v); enc (v_close_time v); enc (v_seq v); enc (validation (body v)); previous_proof v; previous_ledger_hash v;
    enc (ledger_upgrade v)].

Definition dec_value (b : bytes) : option Value :=
  match dec_fields b with
  | [a; b; c; d; e; f; g] =>
      txs ← dec a; val ← dec d; up ← dec g;
      Some (mkValue (mkConsensusValue txs (dec_z b) (dec_z c) val) e f up)
  | _ => None
  end.

Definition enc_validators (l : ValidatorSet) : bytes := enc_fields (l ≫= λ e, [e.1; enc e.2]).

Fixpoint validators_of (l : list bytes) : ValidatorSet :=
  match l with a :: b :: l => (a, dec_z b) :: validators_of l | _ => [] end.

#[global] Instance toy_chain : ChainCodec := {|
  SerHeader := enc_header; ParseHeader := dec_header;
  SerLedger h envs := enc_fields [enc_header h; enc envs];
  SerValue := enc_value; ParseValue := dec_value;
  SerValidators := enc_validators; ParseValidators b := Some (validators_of (dec_fields b));
  SerFees f := enc (f_gas_price f, f_base_reserve f); ParseFees b := '(g, r) ← dec b; Some (mkFees g r);
  SerEntries := enc_fields; ParseEntries := dec_fields;
  SerStoredTx _ := []; StatText n := enc n; TextStat := dec_z |}.

Lemma dec_z_enc z : dec_z (enc z) = z.
Proof. unfold dec_z. by rewrite dec_enc_of. Qed.

Lemma header_dec_enc h : dec_header (enc_header h) = h.
Proof. unfold dec_header, enc_header. rewrite dec_enc, !dec_z_enc. by destruct h. Qed.

#[global] Instance toy_chain_laws : ChainCodecLaws.
Proof.
  split.
  - intros h envs h' envs' E. apply (f_equal dec_fields) in E. cbn [SerLedger toy_chain] in E. rewrite !dec_enc in E.
    injection E as E _. by rewrite <- (header_dec_enc h), E, header_dec_enc.
  - apply header_dec_enc.
  - intros [[txs ct sq val] pp ph up]. cbn [ParseValue SerValue toy_chain]. unfold dec_value, enc_value. rewrite dec_enc, !dec_enc_of.
    cbn [mbind option_bind]. by rewrite !dec_z_enc.
  - intros l. cbn [ParseValidators SerValidators toy_chain]. unfold enc_validators. rewrite dec_enc. f_equal.
    induction l as [|[a z] l IH]; [done|]. cbn. by rewrite IH, dec_z_enc.
  - intros [g r]. cbn [ParseFees SerFees toy_chain f_gas_price f_base_reserve]. by rewrite dec_enc_of.
  - apply dec_z_enc.
Qed.

(** ** Four validators *)

Definition toy_ledger_host : LedgerHost := {|
  IsAddressValid _ := true; pub_address k := Some k; LedgerMsg.Verify _ _ _ := true; raw_address k := k; LedgerMsg.Crypto s := s;
  SerializeTx tx := tx_source_address tx; ByteSize _ := 200; V8_SourceCodeCheck _ := ERRCODE_SUCCESS;
  v8 _ := Finish JNull; v8_query _ := Finish JNull; LedgerMsg.clock _ := 1000 |}.
#[local] Existing Instance toy_ledger_host.

#[global] Instance toy_json : JsonAccess := {| asInt64 _ := 0; asString _ := []; json_size _ := 0%nat; json_at j _ := j |}.

Definition toy_address (n : nat) : bytes := EncodeAddress (replicate 27 (to_char (Z.of_nat n))).
Definition toy_names : list bytes := toy_address <$> [3; 4; 5; 6]%nat.

(** A proof is the number of the first of three signers, and what they signed; a signature is
    accepted when it is the signer's address. *)
Definition toy_commit (n : nat) (digest : bytes) : PbftEnv :=
  mkPbftEnv (Some (mkPbft 1 PBFT_TYPE_COMMIT None None (Some (mkCommit 0 1 (Z.of_nat n) digest)) None None None 0))
    (PbftMsg.mkSignature (toy_address (3 + n)) (toy_address (3 + n))).

Definition toy_proof (n : Z) (digest : bytes) : bytes := to_char n :: digest.

Definition toy_pbft : PbftContext := {|
  SerializePbft _ := []; SerializeEnv _ := []; SerializeProof _ := [];
  ParseProof b := match b with
    | n :: digest => Some ((λ i, toy_commit i digest) <$> List.seq (Z.to_nat (uchar n)) 3)
    | [] => None end;
  Pbft.Crypto x := x; Pbft.Verify _ s pk := bool_decide (s = pk); GetEncAddress pk := pk; Sign _ := []; EncPublicKey := [];
  EncAddress := []; GetSelfChainId := 0; Pbft.clock n := Z.of_nat n; garbage := 0 |}.
#[local] Existing Instance toy_pbft.

Definition toy_check (vs : ValidatorSet) (hash proof : bytes) : bool := Pbft.CheckProof (fst <$> vs) hash proof.

Definition toy_cfg : Configure := mkConfigure 10000000 ∅ (toy_address 1) toy_names 0 (str "slogan") (mkFees 1000 10000000).

(** Every execution gives an account a balance, which is the closing time. *)
Definition toy_closing (v : Value) : Closing :=
  mkClosing [(toy_address 2, Some (new_AccountFrm (mkAccount (toy_address 2) 0 no_privilege [] [] [] false (v_close_time v))))] None None [] [].

Definition toy_do (mode : APPLY_MODE) (m : LedgerManager) (v : Value) : res Execution :=
  Ok (mkExecution (toy_closing v) (mkProposeResult false true 0 (mkValidation [] []) []) 0).

Local Abbreviation toy_life := (node_life node_text text_node toy_check toy_cfg toy_do).
Local Abbreviation toy_next := (node_next node_text text_node toy_check toy_cfg toy_do).
Local Abbreviation toy_close := (CloseLedger node_text text_node toy_check toy_cfg toy_do).
Local Abbreviation toy_init := (Initialize node_text text_node toy_cfg).

Lemma toy_genesis : genesis_ok toy_cfg.
Proof.
  split; [vm_compute; reflexivity| |].
  - assert (Forall (λ a, length (DecodeAddress a) = INDEX_LENGTH) toy_names) as H.
    { apply (bool_decide_unpack (Forall (λ a, length (DecodeAddress a) = INDEX_LENGTH) toy_names)). vm_compute. exact I. }
    rewrite list.Forall_forall in H. exact H.
  - apply (bool_decide_unpack (toy_address 1 ∉ toy_names)). vm_compute. exact I.
Qed.

Lemma toy_executes mode m v ex : toy_do mode m v = Ok ex → exec_result_ (propose_result_ ex) = true → closing_ok (ex_closing ex).
Proof.
  intros [= <-] _. split; cbn [ex_closing toy_closing cl_entries].
  - constructor; [|constructor]. intros a [= <-]. split; vm_compute; reflexivity.
  - apply (bool_decide_unpack (NoDup [DecodeAddress (toy_address 2)])). vm_compute. exact I.
Qed.

(** ** Two nodes *)

Definition no_node : LedgerManager :=
  mkManager (good_db ∅) (mkTrie (mkKV (good_db ∅) [] []) (NewNodeFrm []) []) (dec_header []) (dec_header []) [] (mkFees 0 0) [] 0 0 ∅ (mkSync 0 ∅) 0 0.

Definition ok_or {A} (x : A) (r : res A) : A := match r with Ok y => y | Err _ => x end.

(** A node after the first start. *)
Definition node0 : LedgerManager := (default (no_node, []) (ok_or None (toy_init true (good_db ∅) (good_db ∅)))).1.

(** A value for the second block, with a closing time, and what three validators signed. *)
Definition toy_value (close_time : Z) : Value :=
  mkValue (mkConsensusValue [] close_time 2 None) [] (h_hash (lcl_header_ node0)) None.
Definition value_a : Value := toy_value 10000000.
Definition value_b : Value := toy_value 20000000.
Definition proof_a : bytes := toy_proof 0 (enc_value value_a).
Definition proof_b : bytes := toy_proof 1 (enc_value value_b).

(** The node after it was told the first value, and another one after the second. *)
Definition commit (m : LedgerManager) (v : Value) (proof : bytes) : LedgerManager :=
  match OnValueCommited node_text text_node toy_check toy_cfg toy_do m (SerValue v) proof 0 with Ok (m', _, _, _) => m' | Err _ => no_node end.
Definition node_a : LedgerManager := commit node0 value_a proof_a.
Definition node_b : LedgerManager := commit node0 value_b proof_b.

Lemma node0_start : toy_init true (good_db ∅) (good_db ∅) = Ok (Some (node0, [UpdateValidators (genesis_set toy_cfg) []])).
Proof.
  destruct (Initialize_fresh node_text text_node text_node_text toy_check toy_cfg true toy_genesis) as (m & E & _).
  unfold node0. rewrite E. reflexivity.
Qed.

Lemma node0_life : toy_life node0.
Proof. do 3 eexists. split; [exact node0_start|done]. Qed.

Lemma node0_room : room node0 1.
Proof. vm_compute. reflexivity. Qed.

Lemma commit_next m v proof : room m 1 →
  (∃ r, OnValueCommited node_text text_node toy_check toy_cfg toy_do m (SerValue v) proof 0 = Ok r) → toy_next m (commit m v proof).
Proof. intros Hr [[[[m' h] posts] acts] E]. apply next_step. eapply step_commit; [exact Hr|]. unfold commit. by rewrite E. Qed.

Lemma is_ok {A} (r : res A) : match r with Ok _ => true | Err _ => false end = true → ∃ x, r = Ok x.
Proof. destruct r; [eauto|done]. Qed.

Lemma node_a_next : toy_next node0 node_a.
Proof. apply commit_next; [exact node0_room|]. apply is_ok. vm_compute. reflexivity. Qed.

Lemma node_b_next : toy_next node0 node_b.
Proof. apply commit_next; [exact node0_room|]. apply is_ok. vm_compute. reflexivity. Qed.

Lemma life_next m m' : toy_life m → toy_next m m' → toy_life m'.
Proof. intros (os & m0 & fx & E & Hs) Hn. exists os, m0, fx. split; [done|]. by eapply rtc_r. Qed.

Lemma node_a_life : toy_life node_a.
Proof. exact (life_next _ _ node0_life node_a_next). Qed.

Lemma node_b_life : toy_life node_b.
Proof. exact (life_next _ _ node0_life node_b_next). Qed.

Lemma node_heads : h_seq (GetLastClosedLedger node_a) = 2 ∧ h_seq (GetLastClosedLedger node_b) = 2.
Proof. split; vm_compute; reflexivity. Qed.

Lemma toy_crypto (x y : bytes) : LedgerMsg.Crypto x = LedgerMsg.Crypto y → x = y.
Proof. done. Qed.

(** ** Witnesses *)

Lemma certified_chain_witness :
  toy_life node_a ∧ ∃ h0 h v vs,
    LoadFromDb (ledger_db node_a) 1 = Some h0 ∧ LoadFromDb (ledger_db node_a) 2 = Some h ∧
    ConsensusValueFromDB (ledger_db node_a) 2 = Some v ∧ GetValidators node_a 1 = Some vs ∧ linked h0 h v ∧
    (toy_check vs (SerValue v) (proof_of node_a 2) = true ∨ SerValue v ∈ hardfork_points_ toy_cfg).
Proof.
  split; [exact node_a_life|].
  destruct (certified_chain node_text text_node toy_check toy_cfg toy_do text_node_text toy_crypto toy_genesis node_a node_a_life) as (_ & _ & _ & H).
  apply (H 1). rewrite (proj1 node_heads). lia.
Defined.

Lemma blocks_are_final_witness : toy_life node0 ∧ same_block node0 node_a 1.
Proof.
  split; [exact node0_life|].
  apply (blocks_are_final node_text text_node toy_check toy_cfg toy_do text_node_text toy_crypto toy_genesis node0 node_a node0_life
    (rtc_once _ _ node_a_next)).
  vm_compute. split; discriminate.
Defined.

(** The same block with another proof. *)
Definition node_c : LedgerManager := commit node0 value_a (toy_proof 1 (enc_value value_a)).

Lemma node_c_life : toy_life node_c.
Proof.
  apply (life_next node0); [exact node0_life|]. apply commit_next; [exact node0_room|]. apply is_ok. vm_compute. reflexivity.
Qed.

Lemma hash_determines_chain_witness : proof_ node_a ≠ proof_ node_c ∧ same_block node_a node_c 2.
Proof.
  split; [intros E; vm_compute in E; discriminate E|].
  apply (hash_determines_chain node_text text_node toy_check toy_cfg toy_do text_node_text toy_crypto toy_genesis node_a node_c 2
    (lcl_header_ node_a) (lcl_header_ node_c) node_a_life node_c_life).
  - rewrite (proj1 node_heads). lia.
  - vm_compute. discriminate.
  - vm_compute. reflexivity.
  - vm_compute. reflexivity.
  - vm_compute. reflexivity.
  - lia.
Defined.

(** Validators 4 and 5 sign both values. *)
Lemma fork_exposes_faulty_witness :
  ∃ j vs v v', 1 ≤ j < 2 ∧ same_block node_a node_b j ∧ LoadFromDb (ledger_db node_a) (j + 1) ≠ LoadFromDb (ledger_db node_b) (j + 1) ∧
    GetValidators node_a j = Some vs ∧ ConsensusValueFromDB (ledger_db node_a) (j + 1) = Some v ∧
    ConsensusValueFromDB (ledger_db node_b) (j + 1) = Some v' ∧
    let hash := LedgerMsg.Crypto (SerValue v) in let hash' := LedgerMsg.Crypto (SerValue v') in
    (v = v' ∨ hash ∈ hardfork_points_ toy_cfg ∨ hash' ∈ hardfork_points_ toy_cfg ∨
     let V := number_validators 0 (fst <$> vs) ∅ in
     ∃ X : gset bytes, max_faulty (Z.of_nat (base.size V)) < Z.of_nat (base.size X) ∧ X ⊆ list_to_set (fst <$> vs) ∧
       ∀ a, a ∈ X → (∃ e, signed_commit V hash e a) ∧ (∃ e, signed_commit V hash' e a)).
Proof.
  apply (fork_exposes_faulty node_text text_node toy_cfg toy_do toy_do node_a node_b 2 (lcl_header_ node_a) (lcl_header_ node_b)
    text_node_text toy_crypto toy_genesis node_a_life node_b_life).
  - rewrite (proj1 node_heads). lia.
  - rewrite (proj2 node_heads). lia.
  - vm_compute. reflexivity.
  - vm_compute. reflexivity.
  - intros E. apply (f_equal h_close_time) in E. vm_compute in E. discriminate E.
  - intros j vs Hj E. assert (j = 1) as -> by lia.
    assert (GetValidators node_a 1 = Some (genesis_set toy_cfg)) as E1 by (vm_compute; reflexivity).
    rewrite E1 in E. injection E as <-. vm_compute. reflexivity.
Defined.

(** Closing the block directly. *)
Definition close_a : LedgerManager := (ok_or (no_node, false, []) (toy_close node0 value_a proof_a)).1.1.
Definition posts_a : list effect := (ok_or (no_node, false, []) (toy_close node0 value_a proof_a)).2.

Lemma close_a_ok : toy_close node0 value_a proof_a = Ok (close_a, true, posts_a).
Proof.
  assert (match toy_close node0 value_a proof_a with Ok (_, true, _) => true | _ => false end = true) as H by (vm_compute; reflexivity).
  unfold close_a, posts_a. destruct (toy_close node0 value_a proof_a) as [[[m ok] posts]|]; [|done]. by destruct ok.
Qed.

Local Abbreviation toy_tree := (tree_ok node_text text_node).
Local Abbreviation toy_commits := (spec_commit node_text text_node LedgerMsg.Crypto).

Local Abbreviation toy_tidy := (tidy_all node_text text_node toy_check toy_cfg toy_do _ toy_executes).

Lemma close_a_tidy : CloseLedger node_text text_node toy_check toy_cfg (tidy toy_do) node0 value_a proof_a = Ok (close_a, true, posts_a).
Proof.
  eapply below_CloseLedger; [|exact close_a_ok]. intros mode m v. apply tidy_below. intros ex. apply toy_executes.
Qed.

Lemma closed_block_commits_witness :
  ∃ d cl, toy_tree node0 d ∧ executed toy_do node0 value_a close_a cl ∧ toy_tree close_a (toy_commits d (cl_entries cl)).
Proof.
  destruct (closed_block_commits node_text text_node toy_check toy_cfg toy_do text_node_text toy_crypto toy_genesis node0 (toy_tidy node0_life))
    as (d & Hd & H). destruct (H value_a proof_a close_a posts_a close_a_tidy) as (cl & Hx & Ht & _). exists d, cl. exact (conj Hd (conj Hx Ht)).
Defined.

Lemma restart_restores_witness :
  (∃ m, toy_init true (ledger_db node_a) (account_db node_a) = Ok (Some (m, [UpdateValidators (validators_ node_a) (proof_ node_a)])) ∧
     last_closed_ledger_ m = last_closed_ledger_ node_a) ∧
  (∃ m, toy_init false (ledger_db close_a) (account_db node0) = Ok (Some (m, [UpdateValidators (validators_ node0) (proof_ node0)])) ∧
     last_closed_ledger_ m = last_closed_ledger_ node0).
Proof.
  split.
  - destruct (restart_restores node_text text_node toy_check toy_cfg toy_do text_node_text toy_crypto toy_genesis node_a (toy_tidy node_a_life))
      as (d & _ & H). destruct (H true (ledger_db node_a)) as (m & E & _ & El & _); [left; reflexivity|]. exists m. exact (conj E El).
  - destruct (restart_restores node_text text_node toy_check toy_cfg toy_do text_node_text toy_crypto toy_genesis node0 (toy_tidy node0_life))
      as (d & _ & H). destruct (H false (ledger_db close_a)) as (m & E & _ & El & _); [|exists m; exact (conj E El)].
    right. split; [reflexivity|]. split; [exact node0_room|]. exists value_a, proof_a, close_a, true, posts_a.
    split; [exact close_a_ok|reflexivity].
Defined.

Lemma crash_without_repair_witness : toy_init true (ledger_db close_a) (account_db node0) = Ok None.
Proof.
  apply (crash_without_repair node_text text_node toy_check toy_cfg toy_do text_node_text toy_crypto toy_genesis
    node0 value_a proof_a close_a posts_a (toy_tidy node0_life) node0_room close_a_ok).
  intros E. vm_compute in E. discriminate E.
Defined.

(** A pool of two transactions: both together take too long, one does not. *)
Definition toy_tx (n : Z) : TransactionEnv := mkTransactionEnv (mkTransaction (toy_address 1) n 1000 1 0 [] [] 0) [] None.
Definition toy_sched (i : nat) (l : list TransactionEnv) : outcome :=
  if decide (length l ≤ 1)%nat then Finished else TimedOut 1 false.

Lemma leader_proposes_witness :
  ∃ m' acts v, StartConsensus toy_check toy_cfg toy_do 3 toy_sched Finished node0 true [toy_tx 1; toy_tx 2] [] None 10000000 =
    Ok (m', acts ++ [Request (SerValue v)]).
Proof.
  apply (leader_proposes toy_check toy_cfg toy_do toy_sched Finished node0 [toy_tx 1; toy_tx 2] [] None 10000000).
  - intros mode m v. eexists. split; reflexivity.
  - intros j l Hl. unfold toy_sched. by rewrite decide_True.
  - intros j l c late. unfold toy_sched. case_decide; [done|]. intros [= <- _]. lia.
  - vm_compute. discriminate.
Defined.

Lemma slow_transaction_loops_witness :
  StartConsensus toy_check toy_cfg toy_do 1000 (λ _ _, TimedOut 0 false) Finished node0 true [toy_tx 1] [] None 10000000 = Err OutOfFuel.
Proof.
  apply (slow_transaction_loops toy_check toy_cfg toy_do (λ _ _, TimedOut 0 false) Finished node0 (toy_tx 1) None 10000000).
  - vm_compute. reflexivity.
  - intros j. exists 0. split; [done|lia].
Defined.

Lemma node_a_room : room node_a 1.
Proof. vm_compute. reflexivity. Qed.

Lemma node_c_room : room node_c 1.
Proof. vm_compute. reflexivity. Qed.

Lemma same_lcl : h_hash (GetLastClosedLedger node_a) = h_hash (GetLastClosedLedger node_c).
Proof. vm_compute. reflexivity. Qed.

Lemma checks_agree_witness :
  CheckValueHelper toy_check toy_cfg node_c (propose_value node_a [] 30000000 (proof_ node_a) None) 30000000 = true.
Proof.
  assert (CheckValueHelper toy_check toy_cfg node_a (propose_value node_a [] 30000000 (proof_ node_a) None) 30000000 = true) as E
    by (vm_compute; reflexivity).
  rewrite <- (proj1 (checks_agree node_text text_node toy_check toy_cfg toy_do text_node_text toy_crypto toy_genesis node_a node_c
    node_a_life node_c_life node_a_room same_lcl) (propose_value node_a [] 30000000 (proof_ node_a) None) 30000000). exact E.
Defined.

(** A leader after the block, and its proposal at the other node. *)
Definition led : res (LedgerManager * list action) :=
  StartConsensus toy_check toy_cfg toy_do 1 toy_sched Finished node_a true [] [] None 30000000.
Definition led_node : LedgerManager := (ok_or (no_node, []) led).1.
Definition led_actions : list action := (ok_or (no_node, []) led).2.
Definition led_value : Value := propose_value node_a [] 30000000 (proof_ node_a) None.

Lemma led_ok : led = Ok (led_node, led_actions).
Proof.
  assert (match led with Ok _ => true | Err _ => false end = true) as H by (vm_compute; reflexivity).
  unfold led_node, led_actions. destruct led as [[m acts]|]; [reflexivity|discriminate H].
Qed.

Lemma honest_leader_supported_witness :
  led_actions = [Request (SerValue led_value)] ∧
  ∃ v, SerValue led_value = SerValue v ∧
    (size (SerValue v) < TXSET_LIMIT_SIZE + 2 * (1024 * 1024) → i64 (v_close_time v - MICRO_UNITS_PER_SEC) < 29500000 →
     CheckValueHelper toy_check toy_cfg node_c v 29500000 = true).
Proof.
  assert (led_actions = [Request (SerValue led_value)]) as E by (vm_compute; reflexivity). split; [exact E|].
  apply (honest_leader_supported node_text text_node toy_check toy_cfg toy_do text_node_text toy_crypto toy_genesis
    1 toy_sched Finished node_a [] [] None 30000000 led_node led_actions (SerValue led_value) node_c 29500000
    node_a_life node_c_life node_a_room).
  - lia.
  - intros u Hu. discriminate Hu.
  - exact same_lcl.
  - exact led_ok.
  - rewrite E. apply elem_of_cons. left. reflexivity.
Defined.

(** The second block, served to a node that has the first. *)
Definition answer_a : Ledgers := mkLedgers [value_a] 2 proof_a 0.

Lemma served_values_accepted_witness :
  OnRequestLedgers node_a (mkGetLedgers 2 2 0 0) 7 = [SendLedgers 7 answer_a] ∧
  CheckValueAndProof toy_check toy_cfg node0 (SerValue value_a) (l_proof answer_a) = true.
Proof.
  assert (OnRequestLedgers node_a (mkGetLedgers 2 2 0 0) 7 = [SendLedgers 7 answer_a]) as E by (vm_compute; reflexivity). split; [exact E|].
  apply (served_values_accepted node_text text_node toy_check toy_cfg toy_do text_node_text toy_crypto toy_genesis
    node_a node0 (mkGetLedgers 2 2 0 0) 7 answer_a 0 value_a (lcl_header_ node0) node_a_life node0_life).
  - cbn. lia.
  - exact node0_room.
  - exact E.
  - reflexivity.
  - vm_compute. reflexivity.
  - reflexivity.
Defined.

(** Three of four validators ask for version 1003. *)
Definition toy_vote (n : nat) : upgrade_event :=
  ERecv (mkNotify 0 (mkUpgrade 1003 [] 0) (toy_address n) []) 0.

Lemma enc_upgrade_inj (u u' : LedgerUpgrade) : enc u = enc u' → u = u'.
Proof. intros E. apply (f_equal (dec (A := LedgerUpgrade))) in E. rewrite !dec_enc_of in E. by injection E. Qed.

Lemma upgrade_needs_quorum_witness :
  GetValid enc (upgrade_run enc 0 (toy_vote <$> [3; 4; 5]%nat)) ((λ a, (a, 0)) <$> toy_names) 3 = Some (mkUpgrade 1003 [] 0).
Proof.
  apply (upgrade_needs_quorum enc 0 enc_upgrade_inj (toy_vote <$> [3; 4; 5]%nat) ((λ a, (a, 0)) <$> toy_names) 3 (mkUpgrade 1003 [] 0)).
  - lia.
  - vm_compute. reflexivity.
  - vm_compute. discriminate.
Defined.

(** A hard fork after the genesis block, by validator 3. *)
Definition fork_value : Value := fork_request toy_cfg (last_closed_ledger_ node0) [] (toy_address 3).
Definition fork_cfg : Configure :=
  mkConfigure 10000000 {[ SerValue fork_value ]} (toy_address 1) toy_names 0 (str "slogan") (mkFees 1000 10000000).
Definition fork0 : LedgerManager :=
  (default (no_node, []) (ok_or None (Initialize node_text text_node fork_cfg true (good_db ∅) (good_db ∅)))).1.

Lemma fork_genesis : genesis_ok fork_cfg.
Proof. destruct toy_genesis as [H1 H2 H3]. split; [exact H1|exact H2|exact H3]. Qed.

Lemma fork0_life : node_life node_text text_node toy_check fork_cfg toy_do fork0.
Proof.
  destruct (Initialize_fresh node_text text_node text_node_text toy_check fork_cfg true fork_genesis) as (m & E & _).
  exists true, fork0. eexists. split; [|constructor]. unfold fork0. rewrite E. reflexivity.
Qed.

Lemma fork_configured : LedgerMsg.Crypto (SerValue fork_value) ∈ hardfork_points_ fork_cfg.
Proof. unfold fork_cfg. cbn [hardfork_points_ LedgerMsg.Crypto toy_ledger_host]. generalize (SerValue fork_value). set_solver. Qed.

Definition forked : res (option (KeyValueDb * KeyValueDb * LedgerHeader)) :=
  CreateHardforkLedger node_text text_node fork_cfg toy_do fork0 (toy_address 3).
Definition forked_dbs : KeyValueDb * KeyValueDb * LedgerHeader :=
  default (good_db ∅, good_db ∅, dec_header []) (ok_or None forked).
Definition fork_close : res (LedgerManager * bool * list effect) :=
  CloseLedger node_text text_node toy_check fork_cfg toy_do fork0 fork_value [].
Definition fork_end : LedgerManager := (ok_or (no_node, false, []) fork_close).1.1.
Definition fork_posts : list effect := (ok_or (no_node, false, []) fork_close).2.

Lemma fork_ok : forked = Ok (Some forked_dbs) ∧ fork_close = Ok (fork_end, true, fork_posts).
Proof.
  assert (match forked with Ok (Some _) => true | _ => false end = true) as H1 by (vm_compute; reflexivity).
  assert (match fork_close with Ok (_, true, _) => true | _ => false end = true) as H2 by (vm_compute; reflexivity).
  unfold forked_dbs, fork_end, fork_posts. destruct forked as [[r|]|]; [|discriminate H1|discriminate H1].
  destruct fork_close as [[[m [|]] posts]|]; [|discriminate H2|discriminate H2]. split; reflexivity.
Qed.

Lemma hardfork_block_agrees_witness : last_closed_ledger_ fork_end = forked_dbs.2 ∧ validators_ fork_end = [(toy_address 3, 0)].
Proof.
  assert (fork_request fork_cfg (last_closed_ledger_ fork0) (proof_ fork0) (toy_address 3) = fork_value) as Ev by (vm_compute; reflexivity).
  destruct (hardfork_block_agrees node_text text_node toy_check fork_cfg toy_do text_node_text toy_crypto fork_genesis
    fork0 fork0 (toy_address 3) forked_dbs.1.1 forked_dbs.1.2 forked_dbs.2 fork0_life fork0_life) as [_ H].
  - vm_compute. reflexivity.
  - reflexivity.
  - intros E0. vm_compute in E0. discriminate E0.
  - rewrite Ev. exact fork_configured.
  - rewrite Ev. vm_compute. reflexivity.
  - intros ex Hex. injection Hex as <-. reflexivity.
  - change (CreateHardforkLedger node_text text_node fork_cfg toy_do fork0 (toy_address 3)) with forked. rewrite (proj1 fork_ok).
    destruct forked_dbs as [[a b] c]. reflexivity.
  - rewrite Ev in H. destruct (H [] fork_end fork_posts) as [H1 H2].
    + intros cl [[(c & Hc & _)|(ex & Hex & _ & <-)] _].
      * assert (completed_ctxs_ fork0 = ∅) as E by (vm_compute; reflexivity). rewrite E, lookup_empty in Hc. discriminate Hc.
      * injection Hex as <-. split; reflexivity.
    + exact (proj2 fork_ok).
    + split; [apply H2; vm_compute; reflexivity|exact H1].
Defined.
