(* ===== verification/Broadcast.v ===== *)
(** * Relaying messages (src/src/overlay/broadcast.cpp)

    A node keeps a record of every message that it has seen, with the connections that have
    the message: those that sent it and those to which it was sent.  The records are found by
    the hash of the message, and for the timer by the time of their creation. *)
From stdpp Require Import base gmap list sorting strings.
From Stdlib Require Import ZArith Lia.
From S2P Require Import Prelude.
Local Open Scope Z_scope.

Record BroadcastRecord := mkBRecord { bc_type_ : Z; time_stamp_ : Z; peers_ : gset Z }.

Record Broadcast := mkBroadcast { records_couple_ : gmap Z bytes; records_ : gmap bytes BroadcastRecord }.

Definition new_Broadcast : Broadcast := mkBroadcast ∅ ∅.

(** A call of [IBroadcastDriver::SendRequest]. *)
Record request := mkRequest { rq_peer : Z; rq_type : Z; rq_data : bytes }.

(** The order of a [std::set] of integers. *)
Definition ascending (s : gset Z) : list Z := merge_sort (≤) (elements s).

(** In microseconds; the number of records above which half of the limit is dropped. *)
Definition RECORD_LIFE : Z := 3600 * 1000000.
Definition max_size : Z := 1000 * 1000.

Section broadcast.
Context (Crypto : bytes → bytes).

(** ** The operations; [now] is the clock where a record is made *)

Definition new_BroadcastRecord (type : Z) (peer_id now : Z) : BroadcastRecord := mkBRecord type now {[ peer_id ]}.

Definition tell (peers : gset Z) (r : BroadcastRecord) : BroadcastRecord :=
  mkBRecord (bc_type_ r) (time_stamp_ r) (peers_ r ∪ peers).

(** [records_[hash] = record; records_couple_[record->time_stamp_] = hash]. *)
Definition put_record (b : Broadcast) (hash : bytes) (r : BroadcastRecord) : Broadcast :=
  mkBroadcast (<[time_stamp_ r := hash]> (records_couple_ b)) (<[hash := r]> (records_ b)).

Definition Add (b : Broadcast) (type : Z) (data : bytes) (peer_id now : Z) : Broadcast * bool :=
  let hash := Crypto data in
  match records_ b !! hash with
  | None => (put_record b hash (new_BroadcastRecord type peer_id now), true)
  | Some r => (mkBroadcast (records_couple_ b) (<[hash := tell {[ peer_id ]} r]> (records_ b)), false)
  end.

Definition IsQueued (b : Broadcast) (type : Z) (data : bytes) : bool :=
  bool_decide (is_Some (records_ b !! Crypto data)).

(** [active] is what [GetActivePeerIds] returns.  A peer counts as told also when the request
    to it fails. *)
Definition Send (b : Broadcast) (type : Z) (data : bytes) (active : gset Z) (now : Z) : Broadcast * list request :=
  let hash := Crypto data in
  match records_ b !! hash with
  | None =>
      (put_record b hash (tell active (new_BroadcastRecord type 0 now)), (λ p, mkRequest p type data) <$> ascending active)
  | Some r =>
      let untold := active ∖ peers_ r in
      (mkBroadcast (records_couple_ b) (<[hash := tell untold r]> (records_ b)), (λ p, mkRequest p type data) <$> ascending untold)
  end.

Definition drop_record (b : Broadcast) (time : Z) (hash : bytes) : Broadcast :=
  mkBroadcast (delete time (records_couple_ b)) (delete hash (records_ b)).

(** The two loops of [OnTimer], over the entries of [records_couple_] in order. *)
Fixpoint expire_loop (l : list (Z * bytes)) (current_time : Z) (b : Broadcast) : Broadcast :=
  match l with
  | [] => b
  | (time, hash) :: l =>
      if i64 (time + RECORD_LIFE) <? current_time then expire_loop l current_time (drop_record b time hash) else b
  end.

Fixpoint trim_loop (l : list (Z * bytes)) (i : Z) (b : Broadcast) : Broadcast :=
  match l with
  | [] => b
  | (time, hash) :: l => if i <? max_size / 2 then trim_loop l (i + 1) (drop_record b time hash) else b
  end.

Definition OnTimer (b : Broadcast) (current_time : Z) : Broadcast :=
  let b := expire_loop (in_key_order (records_couple_ b)) current_time b in
  if max_size <? Z.of_nat (base.size (records_couple_ b)) then trim_loop (in_key_order (records_couple_ b)) 0 b else b.

(** ** The entries of the two maps belong together *)

(** An entry for a time names a record with that time. *)
Definition bc_ok (b : Broadcast) : Prop :=
  ∀ t h, records_couple_ b !! t = Some h → ∃ r, records_ b !! h = Some r ∧ time_stamp_ r = t.

(** And every record has its entry. *)
Definition bc_full (b : Broadcast) : Prop :=
  ∀ h r, records_ b !! h = Some r → records_couple_ b !! time_stamp_ r = Some h.

Lemma put_ok b h r : bc_ok b → records_ b !! h = None → bc_ok (put_record b h r).
Proof.
  intros Hb Hn t h' E. cbn in E |- *. apply lookup_insert_Some in E as [[<- <-]|[Ht E]].
  - exists r. by rewrite lookup_insert_eq.
  - destruct (Hb _ _ E) as (r' & E' & <-). exists r'. split; [|done]. rewrite lookup_insert_ne; [done|]. intros <-. by rewrite E' in Hn.
Qed.

Lemma put_full b h r : bc_full b → records_couple_ b !! time_stamp_ r = None → bc_full (put_record b h r).
Proof.
  intros Hb Hn h' r' E. cbn in E |- *. apply lookup_insert_Some in E as [[<- <-]|[Hh E]]; [by rewrite lookup_insert_eq|].
  apply Hb in E. rewrite lookup_insert_ne; [done|]. intros Et. by rewrite Et, E in Hn.
Qed.

Lemma tell_ok b h r P : bc_ok b → records_ b !! h = Some r → bc_ok (mkBroadcast (records_couple_ b) (<[h := tell P r]> (records_ b))).
Proof.
  intros Hb E t h' Et. destruct (Hb _ _ Et) as (r' & E' & Ht). cbn [records_]. destruct (decide (h = h')) as [<-|Hne].
  - exists (tell P r). rewrite lookup_insert_eq. split; [done|]. rewrite E in E'. by injection E' as <-.
  - exists r'. by rewrite lookup_insert_ne.
Qed.

Lemma tell_full b h r P : bc_full b → records_ b !! h = Some r → bc_full (mkBroadcast (records_couple_ b) (<[h := tell P r]> (records_ b))).
Proof. intros Hb E h' r' E'. cbn in E' |- *. apply lookup_insert_Some in E' as [[<- <-]|[Hh E']]; [by apply (Hb _ _ E)|by apply Hb]. Qed.

Lemma drop_ok b t h : bc_ok b → records_couple_ b !! t = Some h → bc_ok (drop_record b t h).
Proof.
  intros Hb E t' h' E'. cbn in E'. apply lookup_delete_Some in E' as [Ht E']. destruct (Hb _ _ E) as (r & Er & <-), (Hb _ _ E') as (r' & Er' & <-).
  exists r'. split; [|done]. cbn [records_ drop_record]. rewrite lookup_delete_ne; [done|]. intros <-. rewrite Er in Er'. by injection Er' as <-.
Qed.

Lemma drop_full b t h : bc_ok b → bc_full b → records_couple_ b !! t = Some h → bc_full (drop_record b t h).
Proof.
  intros Ho Hb E h' r Er. cbn in Er. apply lookup_delete_Some in Er as [Hh Er]. cbn [records_couple_ drop_record]. apply Hb in Er. rewrite lookup_delete_ne; [done|].
  intros Et. rewrite Et, Er in E. by injection E.
Qed.

(** ** The timer drops the oldest records *)

Definition drop_all (l : list (Z * bytes)) (b : Broadcast) : Broadcast := foldl (λ b e, drop_record b e.1 e.2) b l.

(** [l] is a part of the entries of [b]. *)
Definition entries_of (l : list (Z * bytes)) (b : Broadcast) : Prop :=
  NoDup l.*1 ∧ ∀ e, e ∈ l → records_couple_ b !! e.1 = Some e.2.

Lemma expire_prefix l now : ∀ b, ∃ l1 l2, l = l1 ++ l2 ∧ expire_loop l now b = drop_all l1 b ∧
  (∀ e, head l2 = Some e → now ≤ i64 (e.1 + RECORD_LIFE)).
Proof.
  induction l as [|[t h] l IH]; intros b; cbn [expire_loop]; [by exists [], []|].
  destruct (Z.ltb_spec (i64 (t + RECORD_LIFE)) now) as [Hlt|Hge].
  - destruct (IH (drop_record b t h)) as (l1 & l2 & -> & -> & H2). by exists ((t, h) :: l1), l2.
  - exists [], ((t, h) :: l). split_and!; [done..|]. by intros e [= <-].
Qed.

Lemma trim_prefix l : ∀ i b, trim_loop l i b = drop_all (take (Z.to_nat (max_size / 2 - i)) l) b.
Proof.
  induction l as [|[t h] l IH]; intros i b; cbn [trim_loop]; [by rewrite take_nil|]. destruct (Z.ltb_spec i (max_size / 2)) as [Hi|Hi].
  - rewrite IH. replace (Z.to_nat (max_size / 2 - i)) with (S (Z.to_nat (max_size / 2 - (i + 1)))) by lia. done.
  - replace (Z.to_nat (max_size / 2 - i)) with 0%nat by lia. done.
Qed.

Lemma entries_drop t h l b : entries_of ((t, h) :: l) b → entries_of l (drop_record b t h).
Proof.
  intros [[Ht Hd]%NoDup_cons He]. split; [done|]. intros e Hin. cbn [records_couple_ drop_record]. rewrite lookup_delete_ne.
  - apply He. by right.
  - intros Et. apply Ht. cbn. rewrite Et. by apply list_elem_of_fmap_2.
Qed.

Lemma drop_all_ok l : ∀ b, bc_ok b → entries_of l b → bc_ok (drop_all l b) ∧ (bc_full b → bc_full (drop_all l b)) ∧
  base.size (records_couple_ (drop_all l b)) = (base.size (records_couple_ b) - length l)%nat ∧
  (∀ t h, records_couple_ (drop_all l b) !! t = Some h → records_couple_ b !! t = Some h ∧ t ∉ l.*1).
Proof.
  induction l as [|[t h] l IH]; intros b Hb He; cbn [drop_all foldl].
  { split_and!; [done..|cbn; lia|]. intros t h E. split; [done|apply not_elem_of_nil]. }
  assert (records_couple_ b !! t = Some h) as E by (apply (proj2 He (t, h)); by left).
  destruct (IH (drop_record b t h)) as (H1 & H2 & H3 & H4); [by apply drop_ok|by apply entries_drop|]. split_and!; [done|..].
  - intros Hf. by apply H2, drop_full.
  - etransitivity; [exact H3|]. cbn [records_couple_ drop_record length]. rewrite map_size_delete, E. cbn. lia.
  - intros t' h' [E' Hn]%H4. cbn in E'. apply lookup_delete_Some in E' as [Ht E']. split; [done|]. cbn [fmap list_fmap]. by intros [->|?]%elem_of_cons.
Qed.

Lemma entries_all b l : l `sublist_of` in_key_order (records_couple_ b) → entries_of l b.
Proof.
  intros Hl. split.
  - eapply sublist_NoDup; [apply (in_key_order_keys (records_couple_ b))|]. by apply fmap_sublist.
  - intros [t h] Hin. apply elem_of_in_key_order. by eapply elem_of_sublist.
Qed.

(** As many records as entries. *)
Lemma records_size b : bc_ok b → bc_full b → base.size (records_ b) = base.size (records_couple_ b).
Proof.
  intros Ho Hf. rewrite <- !length_map_to_list, <- (length_fmap (λ e : bytes * BroadcastRecord, (time_stamp_ e.2, e.1)) (map_to_list (records_ b))).
  apply Permutation_length, NoDup_Permutation.
  - apply NoDup_fmap_2_strong; [|apply NoDup_map_to_list]. intros [h r] [h' r'] E%elem_of_map_to_list E'%elem_of_map_to_list [= Et ->].
    rewrite E in E'. by injection E' as <-.
  - apply NoDup_map_to_list.
  - intros [t h]. rewrite elem_of_map_to_list, list_elem_of_fmap. split.
    + intros ([h' r] & [= -> ->] & E%elem_of_map_to_list). by apply Hf.
    + intros E. destruct (Ho _ _ E) as (r & Er & <-). exists (h, r). split; [done|]. by apply elem_of_map_to_list.
Qed.

(** The records whose entry is at most [RECORD_LIFE] old. *)
Definition young (now : Z) (b : Broadcast) : Prop := ∀ t h, records_couple_ b !! t = Some h → now ≤ t + RECORD_LIFE.

(** Times are far from the ends of their type. *)
Definition timely (b : Broadcast) : Prop := ∀ t h, records_couple_ b !! t = Some h → 0 ≤ t < 2 ^ 62.

Lemma timely_i64 b t h : timely b → records_couple_ b !! t = Some h → i64 (t + RECORD_LIFE) = t + RECORD_LIFE.
Proof. intros Hb E. apply Hb in E. apply i64_small. unfold RECORD_LIFE. lia. Qed.

Lemma expire_ok b now : bc_ok b → timely b →
  let b' := expire_loop (in_key_order (records_couple_ b)) now b in
  bc_ok b' ∧ (bc_full b → bc_full b') ∧ young now b' ∧
  (base.size (records_couple_ b') ≤ base.size (records_couple_ b))%nat ∧
  (∀ t h, records_couple_ b' !! t = Some h → records_couple_ b !! t = Some h).
Proof.
  intros Ho Ht b'. destruct (expire_prefix (in_key_order (records_couple_ b)) now b) as (l1 & l2 & El & Eb & Hh).
  assert (entries_of l1 b) as He by (apply entries_all; rewrite El; by apply sublist_inserts_r).
  destruct (drop_all_ok l1 b Ho He) as (H1 & H2 & H3 & H4). unfold b'. rewrite Eb. split_and!; [done|done| |lia|by intros t h [? _]%H4].
  intros t h E. apply H4 in E as [E Hn]. pose proof E as Hin. apply elem_of_in_key_order in Hin. rewrite El in Hin.
  apply elem_of_app in Hin as [Hin|Hin]; [destruct Hn; by apply (list_elem_of_fmap_2 fst) in Hin|].
  destruct l2 as [|[t0 h0] l2]; [by apply not_elem_of_nil in Hin|]. pose proof (Hh _ eq_refl) as H0. cbn [fst] in H0.
  assert (records_couple_ b !! t0 = Some h0) as E0 by (apply elem_of_in_key_order; rewrite El; apply elem_of_app; right; by left).
  rewrite (timely_i64 b t0 h0 Ht E0) in H0. apply elem_of_cons in Hin as [[= -> ->]|Hin]; [done|].
  pose proof (in_key_order_sorted (records_couple_ b)) as Hs. rewrite El in Hs. apply StronglySorted_app_1_r, StronglySorted_inv in Hs as [_ Hs].
  rewrite list.Forall_forall in Hs. specialize (Hs _ Hin). unfold key_le in Hs. cbn in Hs. lia.
Qed.

Lemma trim_ok b : bc_ok b → max_size < Z.of_nat (base.size (records_couple_ b)) →
  let b' := trim_loop (in_key_order (records_couple_ b)) 0 b in
  bc_ok b' ∧ (bc_full b → bc_full b') ∧ Z.of_nat (base.size (records_couple_ b')) = Z.of_nat (base.size (records_couple_ b)) - max_size / 2 ∧
  (∀ t h, records_couple_ b' !! t = Some h → records_couple_ b !! t = Some h).
Proof.
  intros Ho Hlt b'. unfold b'. rewrite trim_prefix, Z.sub_0_r. set (l := take _ _).
  assert (entries_of l b) as He by (apply entries_all, sublist_take).
  destruct (drop_all_ok l b Ho He) as (H1 & H2 & H3 & H4). split_and!; [done|done| |by intros t h [? _]%H4].
  rewrite H3. unfold l. rewrite length_take, in_key_order_length. change (max_size / 2) with 500000. unfold max_size in Hlt. lia.
Qed.

Lemma OnTimer_keeps b now : bc_ok b → timely b →
  bc_ok (OnTimer b now) ∧ (bc_full b → bc_full (OnTimer b now)) ∧ young now (OnTimer b now) ∧ timely (OnTimer b now) ∧
  Z.of_nat (base.size (records_couple_ (OnTimer b now))) ≤ Z.max max_size (Z.of_nat (base.size (records_couple_ b)) - max_size / 2).
Proof.
  intros Ho Ht. unfold OnTimer. destruct (expire_ok b now Ho Ht) as (H1 & H2 & H3 & H4 & H5). set (b1 := expire_loop _ now b) in *.
  assert (timely b1) as Ht1 by (intros t h E; by eapply Ht, H5).
  destruct (Z.ltb_spec max_size (Z.of_nat (base.size (records_couple_ b1)))) as [Hlt|Hge]; [|split_and!; [done..|lia]].
  destruct (trim_ok b1 H1 Hlt) as (T1 & T2 & T3 & T4). split_and!; [done|by auto|..|lia].
  - intros t h E. by eapply H3, T4.
  - intros t h E. by eapply Ht1, T4.
Qed.

(** ** Runs *)

(** What happens to a node: a message comes from a connection ([ReceiveBroadcastMsg]), a
    message is relayed to the active connections ([BroadcastMsg]), and the timer. *)
Inductive bc_op :=
  | OpAdd (type : Z) (data : bytes) (peer_id : Z)
  | OpSend (type : Z) (data : bytes) (active : gset Z)
  | OpTimer.

(** What an observer of the connections sees. *)
Inductive bc_event := Got (peer : Z) (data : bytes) | Gave (r : request).

Definition ev_key (e : bc_event) : Z * bytes :=
  match e with Got p d => (p, Crypto d) | Gave r => (rq_peer r, Crypto (rq_data r)) end.

Definition bc_step (b : Broadcast) (o : bc_op) (now : Z) : Broadcast * list bc_event :=
  match o with
  | OpAdd type data p => ((Add b type data p now).1, [Got p data])
  | OpSend type data active => let '(b, l) := Send b type data active now in (b, Gave <$> l)
  | OpTimer => (OnTimer b now, [])
  end.

Definition bc_run (l : list (bc_op * Z)) : Broadcast * list bc_event :=
  foldl (λ s o, let '(b, ev) := bc_step s.1 o.1 o.2 in (b, s.2 ++ ev)) (new_Broadcast, []) l.

Lemma bc_run_snoc l o now : bc_run (l ++ [(o, now)]) =
  ((bc_step (bc_run l).1 o now).1, (bc_run l).2 ++ (bc_step (bc_run l).1 o now).2).
Proof. unfold bc_run. rewrite foldl_snoc. cbn [fst snd]. by destruct (bc_step _ o now). Qed.

(** One step keeps the maps in order. *)
Lemma step_ok b o now : bc_ok b → timely b → 0 ≤ now < 2 ^ 62 →
  bc_ok (bc_step b o now).1 ∧ timely (bc_step b o now).1.
Proof.
  intros Ho Ht Hn. assert (∀ h, bc_ok b → ∀ r, time_stamp_ r = now → timely (put_record b h r)) as Hput.
  { intros h _ r Er t h' E. cbn in E. rewrite Er in E. apply lookup_insert_Some in E as [[<- _]|[_ E]]; [done|by eapply Ht]. }
  destruct o as [type data p|type data a|]; cbn [bc_step fst].
  - unfold Add. destruct (records_ b !! Crypto data) as [r|] eqn:E; cbn [fst]; [split; [by apply tell_ok|done]|].
    split; [by apply put_ok|by apply Hput].
  - unfold Send. destruct (records_ b !! Crypto data) as [r|] eqn:E; cbn [fst]; [split; [by apply tell_ok|done]|].
    split; [by apply put_ok|by apply Hput].
  - split; by apply OnTimer_keeps.
Qed.

(** The connections that have the message with hash [h], as far as the node knows. *)
Definition told (b : Broadcast) (h : bytes) : gset Z := from_option peers_ ∅ (records_ b !! h).

Lemma Add_told b type data p now h :
  told (Add b type data p now).1 h = if decide (h = Crypto data) then told b h ∪ {[p]} else told b h.
Proof.
  unfold told, Add. destruct (records_ b !! Crypto data) as [r|] eqn:E; cbn [fst records_ put_record]; case_decide as Hh.
  - by rewrite Hh, lookup_insert_eq, E.
  - by rewrite lookup_insert_ne.
  - rewrite Hh, lookup_insert_eq, E. cbn. set_solver.
  - by rewrite lookup_insert_ne.
Qed.

(** A new record of the node itself has the connection 0. *)
Lemma Send_told b type data a now h :
  told (Send b type data a now).1 h =
    if decide (h = Crypto data) then told b h ∪ a ∪ (if decide (records_ b !! h = None) then {[0]} else ∅) else told b h.
Proof.
  unfold told, Send. destruct (records_ b !! Crypto data) as [r|] eqn:E; cbn [fst records_ put_record]; case_decide as Hh.
  - rewrite Hh, lookup_insert_eq, E, decide_False by done. cbn. apply set_eq. intros x. destruct (decide (x ∈ peers_ r)); set_solver.
  - by rewrite lookup_insert_ne.
  - rewrite Hh, lookup_insert_eq, E, decide_True by done. cbn. set_solver.
  - by rewrite lookup_insert_ne.
Qed.

Lemma Send_requests b type data a now :
  (Send b type data a now).2 = (λ p, mkRequest p type data) <$> ascending (a ∖ told b (Crypto data)).
Proof. unfold told, Send. destruct (records_ b !! Crypto data) as [r|]; cbn; [done|]. by rewrite difference_empty_L. Qed.

Lemma elem_of_ascending x s : x ∈ ascending s ↔ x ∈ s.
Proof. unfold ascending. rewrite merge_sort_Permutation. apply elem_of_elements. Qed.

Lemma ascending_NoDup s : NoDup (ascending s).
Proof. unfold ascending. rewrite merge_sort_Permutation. apply NoDup_elements. Qed.

(** No message goes to a connection that has it: after an event with a connection and a hash,
    the message is not sent there. *)
Definition once (ev : list bc_event) : Prop :=
  ∀ i j e r, (i < j)%nat → ev !! i = Some e → ev !! j = Some (Gave r) → ev_key e ≠ ev_key (Gave r).

Lemma once_app ev new : once ev → once new →
  (∀ e r, e ∈ ev → Gave r ∈ new → ev_key e ≠ ev_key (Gave r)) → once (ev ++ new).
Proof.
  intros H1 H2 H3 i j e r Hij Ei Ej. apply lookup_app_Some in Ej as [Ej|[Hj Ej]].
  - pose proof (lookup_lt_Some _ _ _ Ej). rewrite lookup_app_l in Ei by lia. exact (H1 i j e r Hij Ei Ej).
  - apply lookup_app_Some in Ei as [Ei|[Hi Ei]].
    + apply H3; by eapply list_elem_of_lookup_2.
    + refine (H2 (i - length ev)%nat (j - length ev)%nat e r _ Ei Ej). lia.
Qed.

Lemma once_gave (f : Z → request) l : NoDup l → (∀ p, rq_peer (f p) = p) → once (Gave <$> (f <$> l)).
Proof.
  intros Hd Hf i j e r Hij Ei Ej. rewrite <- list_fmap_compose, !list_lookup_fmap_Some in *.
  destruct Ei as (p & -> & Ei), Ej as (q & [= ->] & Ej). cbn. rewrite !Hf. intros [= ->].
  pose proof (NoDup_lookup _ _ _ _ Hd Ei Ej). lia.
Qed.

Lemma OnTimer_nothing b now : timely b → young now b → Z.of_nat (base.size (records_couple_ b)) ≤ max_size → OnTimer b now = b.
Proof.
  intros Ht Hy Hs. unfold OnTimer. assert (expire_loop (in_key_order (records_couple_ b)) now b = b) as ->.
  { destruct (in_key_order (records_couple_ b)) as [|[t h] l] eqn:El; [done|]. cbn [expire_loop].
    assert (records_couple_ b !! t = Some h) as E by (apply elem_of_in_key_order; rewrite El; by left).
    rewrite (timely_i64 b t h Ht E). destruct (Z.ltb_spec (t + RECORD_LIFE) now); [|done]. apply Hy in E. lia. }
  by rewrite (proj2 (Z.ltb_ge _ _)).
Qed.

(** Every entry was made at a step of the run, and there are no more than steps. *)
Lemma step_entries b o now t h : bc_ok b → timely b → records_couple_ (bc_step b o now).1 !! t = Some h →
  t = now ∨ records_couple_ b !! t = Some h.
Proof.
  intros Ho Ht. destruct o as [type data p|type data a|]; cbn [bc_step fst].
  1,2: unfold Add, Send; destruct (records_ b !! Crypto data); cbn; [by right|]; intros [[<- _]|[_ E]]%lookup_insert_Some; auto.
  intros E. right. unfold OnTimer in E. destruct (expire_ok b now Ho Ht) as (H1 & _ & _ & _ & H5). set (b1 := expire_loop _ now b) in *.
  destruct (Z.ltb_spec max_size (Z.of_nat (base.size (records_couple_ b1)))) as [Hlt|Hge]; [|by apply H5].
  by apply H5, (trim_ok b1 H1 Hlt).
Qed.

Lemma step_size b o now : bc_ok b → timely b →
  (base.size (records_couple_ (bc_step b o now).1) ≤ S (base.size (records_couple_ b)))%nat.
Proof.
  intros Ho Ht. destruct o as [type data p|type data a|]; cbn [bc_step fst].
  1,2: unfold Add, Send; destruct (records_ b !! Crypto data); cbn; [lia|]; rewrite map_size_insert; case_match; cbn; lia.
  unfold OnTimer. destruct (expire_ok b now Ho Ht) as (H1 & _ & _ & H4 & _). set (b1 := expire_loop _ now b) in *.
  destruct (Z.ltb_spec max_size (Z.of_nat (base.size (records_couple_ b1)))) as [Hlt|Hge]; [|lia].
  destruct (trim_ok b1 H1 Hlt) as (_ & _ & T3 & _). change (max_size / 2) with 500000 in T3. lia.
Qed.

Definition in_time (x : bc_op * Z) : Prop := 0 ≤ x.2 < 2 ^ 62.

Lemma run_maps l : Forall in_time l →
  let b := (bc_run l).1 in bc_ok b ∧ timely b ∧ (∀ t h, records_couple_ b !! t = Some h → t ∈ l.*2) ∧
  (base.size (records_couple_ b) ≤ length l)%nat.
Proof.
  induction l as [|[o now] l IH] using rev_ind; intros Hl; [split_and!; [done..|change (base.size (∅ : gmap Z bytes) ≤ 0)%nat; by rewrite map_size_empty]|].
  apply Forall_app in Hl as [Hl Ho]. apply list.Forall_cons in Ho as [Hn _]. cbn in Hn. destruct (IH Hl) as (H1 & H2 & H3 & H4).
  rewrite bc_run_snoc. cbn [fst]. destruct (step_ok _ o now H1 H2 Hn) as [S1 S2]. split_and!; [done|done|..].
  - intros t h [->|E]%step_entries; [..|done|done]; rewrite fmap_app, elem_of_app; [right; by left|left; by eapply H3].
  - rewrite length_app. cbn. pose proof (step_size _ o now H1 H2). lia.
Qed.

(** What [relays_once] keeps of a run [l]. *)
Record relayed (l : list (bc_op * Z)) (b : Broadcast) (ev : list bc_event) : Prop := {
  rl_once : once ev;
  rl_told e : e ∈ ev → (ev_key e).1 ∈ told b (ev_key e).2;
  rl_seen p h : p ∈ told b h → p = 0 ∨ ∃ e, e ∈ ev ∧ ev_key e = (p, h);
  rl_sent type data active now p : (OpSend type data active, now) ∈ l → p ∈ active → p ∈ told b (Crypto data) }.

Lemma told_Add_mono b type data p now h x : x ∈ told b h → x ∈ told (Add b type data p now).1 h.
Proof. rewrite Add_told. case_decide; [|done]. rewrite elem_of_union. by left. Qed.

Lemma told_Send_mono b type data a now h x : x ∈ told b h → x ∈ told (Send b type data a now).1 h.
Proof. rewrite Send_told. case_decide; [|done]. rewrite !elem_of_union. by left; left. Qed.

Lemma relayed_add l b ev type data p now : relayed l b ev →
  relayed (l ++ [(OpAdd type data p, now)]) (Add b type data p now).1 (ev ++ [Got p data]).
Proof.
  intros [H1 H2 H3 H4]. split.
  - apply once_app; [done|by intros [|i] [|j] e r Hij; [lia|..]|]. by intros e r _ ?%list_elem_of_singleton.
  - intros e [He| ->%list_elem_of_singleton]%elem_of_app; [by apply told_Add_mono, H2|]. cbn. rewrite Add_told, decide_True by done.
    rewrite elem_of_union, elem_of_singleton. by right.
  - intros q h. rewrite Add_told. case_decide as Hh; [rewrite elem_of_union, elem_of_singleton; intros [Hq| ->]|intros Hq].
    2: { right. exists (Got p data). rewrite Hh. split; [|done]. apply elem_of_app. right. by left. }
    all: apply H3 in Hq as [->|(e & He & Ee)]; [by left|right; exists e; split; [apply elem_of_app; by left|done]].
  - intros ty d a t q [Hin|Hc%list_elem_of_singleton]%elem_of_app Hq; [apply told_Add_mono; by eapply H4|done].
Qed.

Lemma relayed_send l b ev type data a now : relayed l b ev →
  relayed (l ++ [(OpSend type data a, now)]) (Send b type data a now).1 (ev ++ (Gave <$> (Send b type data a now).2)).
Proof.
  intros [H1 H2 H3 H4]. rewrite Send_requests. set (untold := a ∖ told b (Crypto data)).
  assert (∀ e, e ∈ Gave <$> ((λ p, mkRequest p type data) <$> ascending untold) → ∃ p, p ∈ untold ∧ e = Gave (mkRequest p type data)) as Hnew.
  { intros e (r & -> & (p & -> & Hp)%list_elem_of_fmap)%list_elem_of_fmap. exists p. by rewrite elem_of_ascending in Hp. }
  split.
  - apply once_app; [done|apply once_gave; [apply ascending_NoDup|done]|]. intros e r He (p & Hp & [= ->])%Hnew Ek.
    apply elem_of_difference in Hp as [_ []]. specialize (H2 _ He). by rewrite Ek in H2.
  - intros e [He|(p & Hp & ->)%Hnew]%elem_of_app; [by apply told_Send_mono, H2|]. apply elem_of_difference in Hp as [Hp _].
    cbn. rewrite Send_told, decide_True by done. rewrite !elem_of_union. by left; right.
  - intros q h Hq. rewrite Send_told in Hq. case_decide as Hh.
    2: { apply H3 in Hq as [->|(e & He & Ee)]; [by left|right; exists e; split; [apply elem_of_app; by left|done]]. }
    destruct (decide (q ∈ told b h)) as [Ht|Ht].
    { apply H3 in Ht as [->|(e & He & Ee)]; [by left|right; exists e; split; [apply elem_of_app; by left|done]]. }
    rewrite !elem_of_union in Hq. destruct Hq as [[Hq|Hq]|Hq]; [done| |left; case_decide; set_solver].
    right. exists (Gave (mkRequest q type data)). rewrite Hh. split; [|done]. apply elem_of_app. right.
    apply list_elem_of_fmap_2, (list_elem_of_fmap_2 (λ p, mkRequest p type data)), elem_of_ascending, elem_of_difference. by rewrite <- Hh.
  - intros ty d a' t q [Hin|[= -> -> -> ->]%list_elem_of_singleton]%elem_of_app Hq; [apply told_Send_mono; by eapply H4|].
    rewrite Send_told, decide_True by done. rewrite !elem_of_union. by left; right.
Qed.

Lemma run_relayed t0 l : (∀ x, x ∈ l → 0 ≤ t0 ≤ x.2 ∧ x.2 ≤ t0 + RECORD_LIFE ∧ x.2 < 2 ^ 62) → Z.of_nat (length l) ≤ max_size →
  relayed l (bc_run l).1 (bc_run l).2.
Proof.
  induction l as [|[o now] l IH] using rev_ind; intros Hl Hn.
  { split; [by intros i j e r _ Ei|by intros e ?%elem_of_nil| |by intros ????? ?%elem_of_nil].
    intros p h Hp. cbn in Hp. unfold told in Hp. cbn in Hp. rewrite lookup_empty in Hp. by apply elem_of_empty in Hp. }
  rewrite length_app in Hn. cbn [length] in Hn. assert (∀ x, x ∈ l → x ∈ l ++ [(o, now)]) as Hin by (intros x; rewrite elem_of_app; by left).
  destruct (Hl (o, now)) as (_ & Hnow & _); [rewrite elem_of_app; right; by left|]. cbn in Hnow.
  specialize (IH (λ x Hx, Hl x (Hin x Hx)) ltac:(lia)). rewrite bc_run_snoc. cbn [fst snd].
  destruct o as [type data p|type data a|]; cbn [bc_step fst snd]; [by apply relayed_add|..].
  - pose proof (relayed_send l _ _ type data a now IH) as H. by destruct (Send (bc_run l).1 type data a now).
  - destruct (run_maps l) as (M1 & M2 & M3 & M4).
    { apply list.Forall_forall. intros x Hx. destruct (Hl x (Hin x Hx)). unfold in_time. lia. }
    rewrite OnTimer_nothing, app_nil_r; [|done| |lia].
    + destruct IH as [R1 R2 R3 R4]. split; [done..|]. intros ty d a t q [Hq|Hc%list_elem_of_singleton]%elem_of_app; [by eapply R4|done].
    + intros t h E. apply M3 in E. apply list_elem_of_fmap in E as (x & -> & Hx). destruct (Hl x (Hin x Hx)). lia.
Qed.

(** C21: Messages are relayed once to everybody.  While the clock stays within an hour and the
    node has taken at most a million steps, in whatever order messages come and are relayed:
    a message is never sent to a connection that it came from or that it was sent to before,
    and after it is relayed every connection that was active then (other than the connection
    0) has sent it or has been sent it. *)
Theorem relays_once t0 l : (∀ x, x ∈ l → 0 ≤ t0 ≤ x.2 ∧ x.2 ≤ t0 + RECORD_LIFE ∧ x.2 < 2 ^ 62) → Z.of_nat (length l) ≤ max_size →
  once (bc_run l).2 ∧
  ∀ type data active now p, (OpSend type data active, now) ∈ l → p ∈ active → p ≠ 0 →
    ∃ e, e ∈ (bc_run l).2 ∧ ev_key e = (p, Crypto data).
Proof.
  intros Hl Hn. destruct (run_relayed t0 l Hl Hn) as [R1 R2 R3 R4]. split; [done|]. intros type data active now p Hin Hp Hp0.
  destruct (R3 p (Crypto data)) as [->|?]; [by eapply R4|done|done].
Qed.

(** With a clock that moves between steps, every record has its entry. *)
Lemma step_full b o now : bc_ok b → timely b → bc_full b → records_couple_ b !! now = None → bc_full (bc_step b o now).1.
Proof.
  intros Ho Ht Hf Hn. destruct o as [type data p|type data a|]; cbn [bc_step fst].
  - unfold Add. destruct (records_ b !! Crypto data) as [r|] eqn:E; cbn [fst]; [by apply tell_full|by apply put_full].
  - unfold Send. destruct (records_ b !! Crypto data) as [r|] eqn:E; cbn [fst]; [by apply tell_full|by apply put_full].
  - by apply OnTimer_keeps.
Qed.

Lemma run_full l : Forall in_time l → StronglySorted (<) l.*2 → bc_full (bc_run l).1.
Proof.
  induction l as [|[o now] l IH] using rev_ind; intros Hl Hs; [by intros h r|].
  apply Forall_app in Hl as [Hl _]. rewrite fmap_app in Hs. destruct (run_maps l Hl) as (H1 & H2 & H3 & _). rewrite bc_run_snoc. cbn [fst].
  apply step_full; [done|done|by eapply IH, StronglySorted_app_1_l|].
  destruct (records_couple_ (bc_run l).1 !! now) as [h|] eqn:E; [|done]. apply H3 in E.
  assert (now < now); [|lia]. eapply (StronglySorted_app_1_elem_of (<)); [exact Hs|exact E|by left].
Qed.

(** C25: Records do not stay.  If the clock moves between any two steps then after the timer all
    records are at most an hour old, and there are at most a million of them, or half a
    million fewer than before. *)
Theorem timer_drops_old l now : Forall in_time (l ++ [(OpTimer, now)]) → StronglySorted (<) (l ++ [(OpTimer, now)]).*2 →
  let b := (bc_run l).1 in let b' := (bc_run (l ++ [(OpTimer, now)])).1 in
  (∀ h r, records_ b' !! h = Some r → now ≤ time_stamp_ r + RECORD_LIFE) ∧
  Z.of_nat (base.size (records_ b')) ≤ Z.max max_size (Z.of_nat (base.size (records_ b)) - max_size / 2).
Proof.
  intros Hl Hs b b'. pose proof (run_full _ Hl Hs) as Hf'. destruct (run_maps _ Hl) as (Ho' & _). fold b' in Hf', Ho'.
  rewrite fmap_app in Hs. pose proof Hl as Hl'. apply Forall_app in Hl' as [Hl' _].
  pose proof (run_full _ Hl' (StronglySorted_app_1_l _ _ _ Hs)) as Hf. destruct (run_maps _ Hl') as (Ho & Ht & _). fold b in Hf, Ho, Ht.
  rewrite !records_size by done. assert (b' = OnTimer b now) as -> by (unfold b'; by rewrite bc_run_snoc).
  destruct (OnTimer_keeps b now Ho Ht) as (_ & _ & Hy & _ & Hsz). split; [|done]. intros h r E. apply Hf' in E. by apply Hy in E.
Qed.
End broadcast.

(** ** Two things that go wrong *)

(** Two messages of the same microsecond.  The entry of the second record replaces that of
    the first, which the timer then never finds: two hours later the second record is gone
    and the first stays, so its message would still be refused. *)
Theorem same_tick_record_stays :
  let b := (bc_run id [(OpAdd 4 (str "a") 1, 5); (OpAdd 4 (str "b") 1, 5); (OpTimer, 7200 * 1000000)]).1 in
  IsQueued id b 4 (str "a") = true ∧ IsQueued id b 4 (str "b") = false ∧ records_couple_ b = ∅.
Proof. vm_compute. done. Qed.

(** The first connection.  A node that broadcasts before anybody is connected notes the
    connection 0 as told; the first connection has that number, and the same message is not
    sent to it when it is broadcast again, while the second connection gets it. *)
Theorem first_connection_untold :
  (bc_run id [(OpSend 6 (str "a") ∅, 5); (OpSend 6 (str "a") {[0; 1]}, 6)]).2 = [Gave (mkRequest 1 6 (str "a"))].
Proof. vm_compute. done. Qed.

(** ** The theorems at work *)

Definition relay_demo : list (bc_op * Z) :=
  [(OpAdd 4 (str "a") 1, 10); (OpSend 4 (str "a") {[1; 2; 3]}, 11); (OpAdd 4 (str "a") 2, 12); (OpTimer, 13);
   (OpSend 4 (str "a") {[1; 2; 3; 4]}, 14)].

Example relay_demo_events : (bc_run id relay_demo).2 =
  [Got 1 (str "a"); Gave (mkRequest 2 4 (str "a")); Gave (mkRequest 3 4 (str "a")); Got 2 (str "a"); Gave (mkRequest 4 4 (str "a"))].
Proof. vm_compute. reflexivity. Qed.

Lemma relays_once_witness : once id (bc_run id relay_demo).2 ∧ ∃ e, e ∈ (bc_run id relay_demo).2 ∧ ev_key id e = (4, str "a").
Proof.
  assert (∀ x, x ∈ relay_demo → 0 ≤ 10 ≤ x.2 ∧ x.2 ≤ 10 + RECORD_LIFE ∧ x.2 < 2 ^ 62) as Ht.
  { intros x Hx. unfold relay_demo in Hx. rewrite !elem_of_cons in Hx.
    destruct Hx as [->|[->|[->|[->|[->|[]%elem_of_nil]]]]]; vm_compute; done. }
  destruct (relays_once id 10 relay_demo Ht ltac:(done)) as [H1 H2]. split; [exact H1|].
  apply (H2 4 (str "a") {[1; 2; 3; 4]} 14 4); [do 4 right; left|set_solver|done].
Defined.

Lemma timer_drops_old_witness :
  let b' := (bc_run id ([(OpAdd 4 (str "a") 1, 5); (OpAdd 4 (str "b") 1, 6)] ++ [(OpTimer, RECORD_LIFE + 6)])).1 in
  records_ b' = {[ str "b" := mkBRecord 4 6 {[1]} ]} ∧ RECORD_LIFE + 6 ≤ 6 + RECORD_LIFE.
Proof.
  assert (Forall in_time ([(OpAdd 4 (str "a") 1, 5); (OpAdd 4 (str "b") 1, 6)] ++ [(OpTimer, RECORD_LIFE + 6)])) as H1
    by (repeat constructor; vm_compute; done).
  assert (StronglySorted (<) ([(OpAdd 4 (str "a") 1, 5); (OpAdd 4 (str "b") 1, 6)] ++ [(OpTimer, RECORD_LIFE + 6)]).*2) as H2
    by (repeat constructor; vm_compute; done).
  destruct (timer_drops_old id _ _ H1 H2) as [H3 _]. split; [vm_compute; reflexivity|].
  apply (H3 (str "b") (mkBRecord 4 6 {[1]})). vm_compute. reflexivity.
Defined.
