(* ===== verification/Flood.v ===== *)
(** * Flooding a message through the network (src/src/overlay/peer_network.cpp)

    The votes for an upgrade ([LedgerUpgradeNotify]) reach the validators by flooding: a node
    that gets a vote for the first time counts it and relays it to its other connections
    ([OnMethodLedgerUpNotify]).  Here several nodes run this handler, connected by links that
    deliver messages in any order, and every node that is connected to the origin gets to
    count the vote. *)
From stdpp Require Import base gmap list sorting strings relations finite functions.
From Stdlib Require Import ZArith Lia.
From S2P Require Import Prelude Pbft KVTrie SafeInt Strings Account LedgerMsg LedgerFrm LedgerCommit ChainMsg UpgradeVote LedgerDemo Broadcast.
Local Open Scope Z_scope.

Definition OVERLAY_MSGTYPE_LEDGER_UPGRADE_NOTIFY : Z := 7.

Section handler.
Context {LH : LedgerHost} (SerUpgrade : LedgerUpgrade → bytes) (self_chain : Z).
(** The encoding of the message. *)
Context (ParseNotify : bytes → option LedgerUpgradeNotify).

(** The result is [false] when the connection is to be closed.  [validators] are those of the
    consensus, [active] the active connections; [now] and [recv_time] are readings of the
    clock. *)
Definition OnMethodLedgerUpNotify (validators : gmap bytes Z) (active : gset Z) (b : Broadcast) (up : UpgradeState)
    (data : bytes) (conn_id now recv_time : Z) : bool * Broadcast * UpgradeState * list request :=
  match ParseNotify data with
  | None => (false, b, up, [])
  | Some notify =>
      if GetValidatorIndex (default [] (pub_address (n_public_key notify))) validators <? 0 then (true, b, up, [])
      else
        let '(b, fresh) := Add Crypto b OVERLAY_MSGTYPE_LEDGER_UPGRADE_NOTIFY data conn_id now in
        if fresh then
          let '(b, l) := Send Crypto b OVERLAY_MSGTYPE_LEDGER_UPGRADE_NOTIFY data active now in
          (true, b, Recv SerUpgrade self_chain up notify recv_time, l)
        else (true, b, up, [])
  end.

(** ** The network *)

Context {node : Type} `{Finite node}.
(** The active connections of each node, and the other end of each. *)
Context (links : node → gset Z) (far : node → Z → node * Z) (validators : node → gmap bytes Z).
Context (data : bytes) (notify : LedgerUpgradeNotify).

(** The nodes, and the copies of the message that travel: to which node, on which of its
    connections. *)
Record world := mkWorld { at_node : node → Broadcast * UpgradeState; flying : list (node * Z) }.

Definition put_flying (n : node) (l : list request) : list (node * Z) := (λ r, far n (rq_peer r)) <$> l.

(** The node [o] counts its own vote and broadcasts it ([LedgerUpgrade::OnTimer]). *)
Definition originate (o : node) (now recv_time : Z) (s : node → Broadcast * UpgradeState) : world :=
  let '(b, l) := Send Crypto (s o).1 OVERLAY_MSGTYPE_LEDGER_UPGRADE_NOTIFY data (links o) now in
  mkWorld (<[o := (b, Recv SerUpgrade self_chain (s o).2 notify recv_time)]> s) (put_flying o l).

(** One of the copies arrives. *)
Inductive flood_step (w : world) : world → Prop :=
  | deliver i n c now recv_time ok b up l : flying w !! i = Some (n, c) →
      OnMethodLedgerUpNotify (validators n) (links n) (at_node w n).1 (at_node w n).2 data c now recv_time = (ok, b, up, l) →
      flood_step w (mkWorld (<[n := (b, up)]> (at_node w)) (delete i (flying w) ++ put_flying n l)).

(** The delivery of the copy that was sent first. *)
Definition deliver_first (w : world) : world :=
  match flying w with
  | [] => w
  | (n, c) :: rest =>
      let '(_, b, up, l) := OnMethodLedgerUpNotify (validators n) (links n) (at_node w n).1 (at_node w n).2 data c 0 0 in
      mkWorld (<[n := (b, up)]> (at_node w)) (rest ++ put_flying n l)
  end.

Lemma deliver_first_step w : flying w ≠ [] → flood_step w (deliver_first w).
Proof.
  intros Hw. unfold deliver_first. destruct (flying w) as [|[n c] rest] eqn:E; [done|].
  destruct (OnMethodLedgerUpNotify _ _ _ _ _ _ _ _) as [[[ok b] up] l] eqn:Eh.
  pose proof (deliver w 0 n c 0 0 ok b up l) as Hd. rewrite E in Hd. by apply Hd.
Qed.

(** A link connects two nodes in both directions. *)
Definition symmetric_links : Prop := ∀ n c, c ∈ links n → (far n c).2 ∈ links (far n c).1 ∧ far (far n c).1 (far n c).2 = (n, c).

Definition adjacent (n m : node) : Prop := ∃ c, c ∈ links n ∧ (far n c).1 = m.

(** The node has the message; it has counted the vote. *)
Definition has (w : world) (n : node) : Prop := is_Some (records_ (at_node w n).1 !! Crypto data).

Definition counted_vote (w : world) (n : node) : Prop := ∃ frm,
  current_states_ (at_node w n).2 !! default [] (pub_address (n_public_key notify)) = Some frm ∧ msg_ frm = notify.

Context (Hparse : ParseNotify data = Some notify).
Context (Hvalidators : ∀ n, 0 ≤ GetValidatorIndex (default [] (pub_address (n_public_key notify))) (validators n)).
Context (Hverify : Verify (raw_data SerUpgrade (n_upgrade notify) (n_nonce notify)) (n_sign_data notify) (n_public_key notify) = true).
Context (Hchain : up_chain_id (n_upgrade notify) = self_chain).

Lemma Recv_counts up t : ∃ frm,
  current_states_ (Recv SerUpgrade self_chain up notify t) !! default [] (pub_address (n_public_key notify)) = Some frm ∧ msg_ frm = notify.
Proof. unfold Recv. rewrite Hverify, Hchain, Z.eqb_refl. cbn. eexists. by rewrite lookup_insert_eq. Qed.

Lemma signer_known n : (GetValidatorIndex (default [] (pub_address (n_public_key notify))) (validators n) <? 0) = false.
Proof. apply Z.ltb_ge, Hvalidators. Qed.

Lemma handler_known n active b up c t1 t2 : is_Some (records_ b !! Crypto data) →
  ∃ b', OnMethodLedgerUpNotify (validators n) active b up data c t1 t2 = (true, b', up, []) ∧ is_Some (records_ b' !! Crypto data).
Proof.
  intros [r Er]. unfold OnMethodLedgerUpNotify. rewrite Hparse. rewrite signer_known.
  unfold Add. rewrite Er. eexists. split; [done|]. cbn [records_]. rewrite lookup_insert_eq. done.
Qed.

Lemma handler_fresh n active b up c t1 t2 : records_ b !! Crypto data = None →
  ∃ b', OnMethodLedgerUpNotify (validators n) active b up data c t1 t2 =
    (true, b', Recv SerUpgrade self_chain up notify t2,
     (λ p, mkRequest p OVERLAY_MSGTYPE_LEDGER_UPGRADE_NOTIFY data) <$> ascending (active ∖ {[c]})) ∧ is_Some (records_ b' !! Crypto data).
Proof.
  intros Er. unfold OnMethodLedgerUpNotify. rewrite Hparse. rewrite signer_known.
  unfold Add. rewrite Er. unfold Send. cbn [records_ put_record]. rewrite lookup_insert_eq. eexists. split; [done|]. cbn [records_]. by rewrite lookup_insert_eq.
Qed.

Lemma put_flying_elem n s p : p ∈ put_flying n ((λ c, mkRequest c OVERLAY_MSGTYPE_LEDGER_UPGRADE_NOTIFY data) <$> ascending s) ↔
  ∃ c, c ∈ s ∧ p = far n c.
Proof.
  unfold put_flying. rewrite <- list_fmap_compose, list_elem_of_fmap. cbn. split.
  - intros (c & -> & Hc%elem_of_ascending). by exists c.
  - intros (c & Hc & ->). exists c. by rewrite elem_of_ascending.
Qed.

(** ** What holds while the message spreads *)

Record flooding (w : world) : Prop := {
  fl_sent n c : (n, c) ∈ flying w → c ∈ links n ∧ has w (far n c).1;
  fl_next n c : has w n → c ∈ links n → has w (far n c).1 ∨ far n c ∈ flying w;
  fl_counted n : has w n → counted_vote w n }.

Lemma has_insert w n x l m : has (mkWorld (<[n := x]> (at_node w)) l) m ↔
  if decide (m = n) then is_Some (records_ x.1 !! Crypto data) else has w m.
Proof. unfold has. cbn [at_node]. case_decide as E; [by rewrite E, fn_lookup_insert|by rewrite fn_lookup_insert_ne]. Qed.

Lemma counted_insert w n x l m : counted_vote (mkWorld (<[n := x]> (at_node w)) l) m ↔
  if decide (m = n) then ∃ frm, current_states_ x.2 !! default [] (pub_address (n_public_key notify)) = Some frm ∧ msg_ frm = notify
  else counted_vote w m.
Proof. unfold counted_vote. cbn [at_node]. case_decide as E; [by rewrite E, fn_lookup_insert|by rewrite fn_lookup_insert_ne]. Qed.

Lemma elem_of_delete {A} (l : list A) i x y : l !! i = Some x → y ∈ l → y = x ∨ y ∈ delete i l.
Proof. intros Hi Hy. rewrite (delete_Permutation _ _ _ Hi) in Hy. by apply elem_of_cons in Hy. Qed.

Lemma delete_elem {A} (l : list A) i y : y ∈ delete i l → y ∈ l.
Proof. intros Hy. eapply elem_of_sublist; [exact Hy|apply sublist_delete]. Qed.

Context (Hlinks : symmetric_links).

(** A node [n] has got the message and passes it on to its connections [s], all of them but
    those to nodes that have it or will get it. *)
Lemma spread w n b up s rest : flooding w → is_Some (records_ b !! Crypto data) →
  (∃ frm, current_states_ up !! default [] (pub_address (n_public_key notify)) = Some frm ∧ msg_ frm = notify) →
  s ⊆ links n → (∀ c, c ∈ links n → c ∈ s ∨ has w (far n c).1 ∨ far n c ∈ rest) →
  (∀ p, p ∈ rest → p ∈ flying w) → (∀ p, p ∈ flying w → p.1 = n ∨ p ∈ rest) →
  flooding (mkWorld (<[n := (b, up)]> (at_node w)) (rest ++ put_flying n ((λ c, mkRequest c OVERLAY_MSGTYPE_LEDGER_UPGRADE_NOTIFY data) <$> ascending s))).
Proof.
  intros [F1 F2 F3] Hb Hup Hs Hall Hrest Hfly.
  assert (∀ m l, has w m → has (mkWorld (<[n := (b, up)]> (at_node w)) l) m) as Hkeep by (intros m l Hm; apply has_insert; by case_decide).
  assert (∀ l, has (mkWorld (<[n := (b, up)]> (at_node w)) l) n) as Hn by (intros l; apply has_insert; by rewrite decide_True).
  split.
  - intros m c Hin. cbn [flying] in Hin. apply elem_of_app in Hin as [Hin|Hin].
    + apply Hrest, F1 in Hin as [Hc Hm]. split; [done|by apply Hkeep].
    + apply put_flying_elem in Hin as (c' & Hc' & E). apply Hs in Hc'. destruct (Hlinks n c' Hc') as [L1 L2]. rewrite <- E in L1, L2.
      cbn [fst snd] in L1, L2. rewrite L2. by split.
  - intros m c Hm Hc. rewrite has_insert in Hm. cbn [flying]. rewrite elem_of_app, put_flying_elem. case_decide as Em.
    + rewrite Em in *. destruct (Hall c Hc) as [Hcs|[Hfar|Hfar]]; [|left; by apply Hkeep|by right; left]. right; right. by exists c.
    + destruct (F2 m c Hm Hc) as [Hfar|Hfar]; [left; by apply Hkeep|]. destruct (Hfly _ Hfar) as [Ef|Hr]; [|by right; left].
      left. rewrite Ef. apply Hn.
  - intros m Hm. rewrite has_insert in Hm. apply counted_insert. case_decide; [done|by apply F3].
Qed.

Lemma flood_start o t1 t2 st : (∀ n, records_ (st n).1 !! Crypto data = None) → flooding (originate o t1 t2 st).
Proof.
  intros Hnone. unfold originate. pose proof (Send_requests Crypto (st o).1 OVERLAY_MSGTYPE_LEDGER_UPGRADE_NOTIFY data (links o) t1) as El.
  unfold told in El. rewrite (Hnone o) in El. cbn in El. rewrite difference_empty_L in El.
  destruct (Send _ _ _ _ _ _) as [b l] eqn:Es. cbn [snd] in El. subst l.
  apply (spread (mkWorld st []) o b _ (links o) []); [| |apply Recv_counts|done|by left|done|by intros p ?%elem_of_nil].
  - assert (∀ n, ¬ has (mkWorld st []) n) as Hno by (intros n; unfold has; cbn; rewrite Hnone; by intros [? ?]).
    split; [intros n c Hin; by apply elem_of_nil in Hin|by intros n c ?%Hno|by intros n ?%Hno].
  - unfold Send in Es. rewrite Hnone in Es. injection Es as <-. cbn. by rewrite lookup_insert_eq.
Qed.

Lemma flood_keeps w w' : flooding w → flood_step w w' → flooding w'.
Proof.
  intros Hw [i n c t1 t2 ok b up l Hi E].
  assert (∀ p, p ∈ flying w → p = (n, c) ∨ p ∈ delete i (flying w)) as Hdel by (intros p; by apply elem_of_delete).
  assert (∀ p, p ∈ flying w → p.1 = n ∨ p ∈ delete i (flying w)) as Hdel1 by (intros p [->|?]%Hdel; auto).
  destruct (records_ (at_node w n).1 !! Crypto data) as [r|] eqn:Er.
  - assert (has w n) as Hn by (by exists r). destruct (handler_known n (links n) (at_node w n).1 (at_node w n).2 c t1 t2 Hn) as (b' & E' & Hb).
    rewrite E' in E. injection E as _ <- <- <-.
    change (put_flying n []) with (put_flying n ((λ c, mkRequest c OVERLAY_MSGTYPE_LEDGER_UPGRADE_NOTIFY data) <$> ascending ∅)).
    apply (spread w n b' _ ∅); [done|done|by apply Hw|set_solver| |intros p; apply delete_elem|done].
    intros c' Hc'. right. destruct (fl_next _ Hw n c' Hn Hc') as [?|[Ef|?]%Hdel1]; [by left|left; by rewrite Ef|by right].
  - destruct (handler_fresh n (links n) (at_node w n).1 (at_node w n).2 c t1 t2 Er) as (b' & E' & Hb). rewrite E' in E. injection E as _ <- <- <-.
    apply spread; [done|done|apply Recv_counts|set_solver| |intros p; apply delete_elem|done].
    intros c' Hc'. destruct (decide (c' = c)) as [->|Hne]; [right; left; apply (fl_sent _ Hw n c)|left; set_solver].
    by eapply list_elem_of_lookup_2.
Qed.

Lemma flood_run w w' : flooding w → rtc flood_step w w' → flooding w'.
Proof. intros Hw Hs. induction Hs as [|w w1 w2 H1 _ IH]; [done|]. by apply IH, (flood_keeps w). Qed.

(** Where nothing is under way, the neighbours of a node with the message have it too. *)
Lemma spread_out w o n : flooding w → flying w = [] → has w o → rtc adjacent o n → has w n.
Proof.
  intros Hw Hf Ho Hp. induction Hp as [|x y z (c & Hc & <-) _ IH]; [done|]. apply IH.
  destruct (fl_next _ Hw x c Ho Hc) as [?|Hin]; [done|]. rewrite Hf in Hin. by apply elem_of_nil in Hin.
Qed.

Lemma origin_has o t1 t2 st : (∀ n, records_ (st n).1 !! Crypto data = None) → has (originate o t1 t2 st) o.
Proof.
  intros Hn. unfold originate, Send. rewrite (Hn o). unfold has. cbn [at_node]. rewrite fn_lookup_insert. cbn. by rewrite lookup_insert_eq.
Qed.

Lemma has_kept w w' n : flood_step w w' → has w n → has w' n.
Proof.
  intros [i m c t1 t2 ok b up l Hi E] Hn. apply has_insert. case_decide as Em; [|done]. subst m.
  destruct (handler_known n (links n) (at_node w n).1 (at_node w n).2 c t1 t2 Hn) as (b' & E' & Hb). rewrite E' in E. by injection E as _ <- _ _.
Qed.

(** C19: A vote reaches everybody.  A vote that is signed by a validator and is new to all
    nodes is broadcast by one of them; the copies are delivered in any order.  Whenever no
    copy is under way any more, every node that is connected to the origin has counted the
    vote. *)
Theorem vote_reaches_everyone o t1 t2 st w n : (∀ n, records_ (st n).1 !! Crypto data = None) →
  rtc flood_step (originate o t1 t2 st) w → flying w = [] → rtc adjacent o n → counted_vote w n.
Proof.
  intros Hn Hs Hf Hp. pose proof (flood_run _ _ (flood_start o t1 t2 st Hn) Hs) as Hw. apply Hw. eapply spread_out; [done..| |done].
  assert (has (originate o t1 t2 st) o) as Ho by by apply origin_has. revert Ho. clear Hw Hf.
  induction Hs as [|w0 w1 w2 H1 _ IH]; [done|]. intros Ho. apply IH. by eapply has_kept.
Qed.

(** ** The flood ends *)

#[local] Instance has_dec w n : Decision (has w n).
Proof. unfold has. apply _. Defined.

(** The copies under way, and those that the other nodes may still send. *)
Definition missing (w : world) (n : node) : nat := if decide (has w n) then 0%nat else base.size (links n).
Definition measure (w : world) : nat := (length (flying w) + sum_list_with (missing w) (enum node))%nat.

Lemma sum_one (f g : node → nat) n l : NoDup l → n ∈ l → (∀ m, m ≠ n → f m = g m) →
  (sum_list_with f l + g n = sum_list_with g l + f n)%nat.
Proof.
  clear Hverify Hchain Hlinks Hparse Hvalidators. intros Hd Hin Hfg. assert (∀ l, n ∉ l → sum_list_with f l = sum_list_with g l) as Hsame.
  { intros k. induction k as [|x k IH]; [done|]. rewrite not_elem_of_cons. intros [Hx Hk]. cbn. rewrite IH by done. by rewrite Hfg. }
  induction l as [|x l IH]; [by apply elem_of_nil in Hin|]. apply list.NoDup_cons in Hd as [Hx Hd]. cbn.
  apply elem_of_cons in Hin as [->|Hin]; [rewrite Hsame by done; lia|].
  rewrite (Hfg x) by (by intros ->). specialize (IH Hd Hin). lia.
Qed.

Lemma put_flying_length n s : length (put_flying n ((λ c, mkRequest c OVERLAY_MSGTYPE_LEDGER_UPGRADE_NOTIFY data) <$> ascending s)) = base.size s.
Proof. unfold put_flying, ascending. rewrite !length_fmap, merge_sort_Permutation. done. Qed.

Lemma measure_step w w' : flood_step w w' → (measure w' < measure w)%nat.
Proof.
  clear Hverify Hchain Hlinks. intros Hs. destruct Hs as [i n c t1 t2 ok b up l Hi E]. unfold measure. cbn [flying]. rewrite length_app, (length_delete _ _ (mk_is_Some _ _ Hi)).
  pose proof (lookup_lt_Some _ _ _ Hi) as Hlt.
  set (w1 := mkWorld _ _). assert (∀ m, m ≠ n → missing w1 m = missing w m) as Hsame.
  { intros m Hm. unfold missing. assert (has w1 m ↔ has w m) as Hh by (unfold w1; rewrite has_insert; by rewrite decide_False). by repeat case_decide; tauto. }
  pose proof (sum_one _ _ n (enum node) (NoDup_enum node) (elem_of_enum n) Hsame) as Hsum.
  destruct (records_ (at_node w n).1 !! Crypto data) as [r|] eqn:Er.
  - assert (has w n) as Hn by (by exists r). destruct (handler_known n (links n) (at_node w n).1 (at_node w n).2 c t1 t2 Hn) as (b' & E' & Hb).
    rewrite E' in E. injection E as _ <- <- <-. assert (has w1 n) as Hn' by (unfold w1; apply has_insert; by rewrite decide_True).
    unfold missing in Hsum at 2 4. rewrite !decide_True in Hsum by done. cbn [length put_flying fmap list_fmap]. lia.
  - assert (¬ has w n) as Hn by (unfold has; rewrite Er; by intros [? ?]).
    destruct (handler_fresh n (links n) (at_node w n).1 (at_node w n).2 c t1 t2 Er) as (b' & E' & Hb). rewrite E' in E. injection E as _ <- <- <-.
    assert (has w1 n) as Hn' by (unfold w1; apply has_insert; by rewrite decide_True). rewrite put_flying_length.
    unfold missing in Hsum at 2 4. rewrite (decide_False (P := has w n)), (decide_True (P := has w1 n)) in Hsum by done.
    assert (base.size (links n ∖ {[c]}) ≤ base.size (links n))%nat by (apply subseteq_size; set_solver). lia.
Qed.

(** C20: A flood ends.  However the copies are delivered, there are no more deliveries than
    ends of links in the network, and until the last copy is delivered the next delivery can
    be made. *)
Theorem flood_ends o t1 t2 st k w : (∀ n, records_ (st n).1 !! Crypto data = None) → nsteps flood_step k (originate o t1 t2 st) w →
  (k ≤ sum_list_with (λ n, base.size (links n)) (enum node))%nat ∧ (flying w = [] ∨ ∃ w', flood_step w w').
Proof.
  clear Hverify Hchain Hlinks. intros Hn Hs. split.
  - assert (measure (originate o t1 t2 st) ≤ sum_list_with (λ n, base.size (links n)) (enum node))%nat as Hm.
    { unfold measure, originate, Send. rewrite (Hn o). cbn [flying]. rewrite put_flying_length. set (w' := mkWorld _ _).
      assert (missing w' o = 0%nat) as Ho.
      { unfold missing. rewrite decide_True; [done|]. unfold has, w'. cbn [at_node]. rewrite fn_lookup_insert. cbn. by rewrite lookup_insert_eq. }
      assert (∀ m, m ≠ o → missing w' m = base.size (links m)) as Hsame.
      { intros m Hm. unfold missing. rewrite decide_False; [done|]. unfold has, w'. cbn [at_node]. rewrite fn_lookup_insert_ne by done. rewrite Hn. by intros [? ?]. }
      pose proof (sum_one (missing w') (λ m, base.size (links m)) o (enum node) (NoDup_enum node) (elem_of_enum o) Hsame). lia. }
    assert (k + measure w ≤ measure (originate o t1 t2 st))%nat; [|lia]. clear Hm. revert Hs. generalize (originate o t1 t2 st). induction k as [|k IH]; intros w0 Hs.
    { inversion Hs; subst. lia. }
    inversion Hs as [|? ? w1 ? H1 H2]; subst. apply measure_step in H1. apply IH in H2. lia.
  - destruct (flying w) as [|[n c] l] eqn:E; [by left|right].
    exists (deliver_first w). apply deliver_first_step. by rewrite E.
Qed.
End handler.

(** ** Three nodes in a row *)

Section row.
#[local] Instance row_host : LedgerHost := demo_host no_script.

(** The node in the middle is [Some true]. *)
Definition row_links (n : option bool) : gset Z :=
  match n with None => {[5]} | Some true => {[1; 2]} | Some false => {[3]} end.
Definition row_far (n : option bool) (c : Z) : option bool * Z :=
  match n with
  | None => (Some true, 1)
  | Some true => if c =? 1 then (None, 5) else (Some false, 3)
  | Some false => (Some true, 2)
  end.
Definition row_vote : LedgerUpgradeNotify := mkNotify 9 (mkUpgrade 1003 [] 0) (str "v") [].
Definition row_text (u : LedgerUpgrade) : bytes := ToString (new_ledger_version u).
Definition row_parse (data : bytes) : option LedgerUpgradeNotify := if decide (data = str "vote") then Some row_vote else None.
Definition row_validators (n : option bool) : gmap bytes Z := {[ str "v" := 0 ]}.
Definition row_empty (n : option bool) : Broadcast * UpgradeState := (new_Broadcast, new_UpgradeState).

Definition row_start : world := originate row_text 0 row_links row_far (str "vote") row_vote None 1 1 row_empty.
Definition row_next : @world (option bool) → world :=
  deliver_first row_text 0 row_parse row_links row_far row_validators (str "vote").
Definition row_end : world := row_next (row_next row_start).

Lemma row_symmetric : symmetric_links row_links row_far.
Proof.
  intros [[]|] c Hc; unfold row_links in Hc.
  1: apply elem_of_union in Hc as [Hc|Hc].
  all: apply elem_of_singleton in Hc as ->; cbn; split; [set_solver|done].
Qed.

Lemma row_known n : 0 ≤ GetValidatorIndex (default [] (pub_address (n_public_key row_vote))) (row_validators n).
Proof. vm_compute. discriminate. Qed.

Lemma row_steps : nsteps (flood_step row_text 0 row_parse row_links row_far row_validators (str "vote")) 2 row_start row_end.
Proof.
  econstructor; [|econstructor; [|constructor]].
  - apply deliver_first_step. vm_compute. discriminate.
  - apply deliver_first_step. vm_compute. discriminate.
Qed.

Lemma row_reach : rtc (adjacent row_links row_far) None (Some false).
Proof. eapply rtc_l; [exists 5; split; [set_solver|reflexivity]|]. apply rtc_once. exists 2. split; [set_solver|reflexivity]. Qed.

Lemma vote_reaches_everyone_witness : counted_vote row_vote row_end (Some false).
Proof.
  apply (vote_reaches_everyone row_text 0 row_parse row_links row_far row_validators (str "vote") row_vote eq_refl row_known eq_refl eq_refl
    row_symmetric None 1 1 row_empty); [done|eapply rtc_nsteps_2, row_steps|vm_compute; reflexivity|apply row_reach].
Defined.

Lemma flood_ends_witness : (2 ≤ sum_list_with (λ n, base.size (row_links n)) (enum (option bool)))%nat ∧ (flying row_end = [] ∨ ∃ w, flood_step row_text 0 row_parse row_links row_far row_validators (str "vote") row_end w).
Proof.
  apply (flood_ends row_text 0 row_parse row_links row_far row_validators (str "vote") row_vote eq_refl row_known None 1 1 row_empty 2 row_end); [done|apply row_steps].
Defined.
End row.
