(* ===== verification/PeerTable.v ===== *)
(** * The table of known peers (src/src/overlay/peer_network.cpp)

    The addresses at which a node may find others are kept as one record of the key-value
    database; every change reads, changes and writes the whole table. *)
From stdpp Require Import base gmap list sorting strings.
From Stdlib Require Import ZArith Lia.
From S2P Require Import Prelude KVTrie SafeInt Account LedgerMsg LedgerFrm LedgerCommit ChainMsg.
Local Open Scope Z_scope.

(** [utils::InetAddress]: an IPv4 address and a port; [0] is [INADDR_ANY]. *)
Record InetAddress := mkInet { sin_addr : Z; sin_port : Z }.
#[global] Instance InetAddress_eq_dec : EqDecision InetAddress.
Proof. solve_decision. Defined.

Definition IsAny (a : InetAddress) : bool := sin_addr a =? 0.
Definition InetAddress_Any : InetAddress := mkInet 0 0.
Definition u16 (z : Z) : Z := z `mod` 2 ^ 16.

(** [protocol::Peer]. *)
Record PeerItem := mkItem {
  pi_ip : bytes; pi_port : Z; num_failures : Z; next_attempt_time : Z; active_time : Z; connection_id : Z }.

(** The text of an address ([inet_ntoa]), its reading ([inet_addr] and the resolver; [None]:
    it cannot be resolved) and the encoding of [protocol::Peers]. *)
Class PeerCodec := {
  inet_ntoa : Z → bytes;
  Resolve : bytes → option Z;
  SerPeers : list PeerItem → bytes;
  ParsePeers : bytes → option (list PeerItem) }.

Class PeerCodecLaws `{PeerCodec} := {
  peers_back l : ParsePeers (SerPeers l) = Some l;
  peers_nil : ParsePeers [] = Some [] }.

Definition PEERS_TABLE : bytes := str "peers_table".
Definition PEER_DB_COUNT : Z := 1000.

(** The database and the member [total_peers_count_]. *)
Record PeerTable := mkTable { keyvalue_db : KeyValueDb; total_peers_count_ : Z }.

Section table.
Context {PC : PeerCodec}.
(** [consensus_network_configure_.max_connection_]. *)
Context (max_connection : Z).

Definition ToIp (a : InetAddress) : bytes := inet_ntoa (sin_addr a).
(** [InetAddress(ip, port)]; a name that is not resolved leaves [INADDR_ANY]. *)
Definition InetAddress_of (ip : bytes) (port : Z) : InetAddress := mkInet (default 0 (Resolve ip)) (u16 port).
(** [operator ==] compares the texts. *)
Definition inet_eqb (a b : InetAddress) : bool := bool_decide (ToIp a = ToIp b ∧ sin_port a = sin_port b).

Definition item_at (a : InetAddress) (r : PeerItem) : bool := bool_decide (pi_ip r = ToIp a ∧ pi_port r = sin_port a).

Definition set_total (n : nat) (t : PeerTable) : PeerTable := mkTable (keyvalue_db t) (Z.of_nat n).

(** ** [QueryItem] *)

(** The number of records, [-1] for an error, and the records. *)
Definition QueryItem (t : PeerTable) (address : InetAddress) : PeerTable * Z * list PeerItem :=
  let '(count, peers) := db_Get (keyvalue_db t) PEERS_TABLE in
  if count <=? 0 then (t, count, [])
  else match ParsePeers peers with
       | None => (t, -1, [])
       | Some all =>
           let records := filter (λ r, item_at address r = true) all in
           (set_total (length all) t, Z.of_nat (length records), records)
       end.

(** ** [UpdateItem] *)

(** A negative field leaves the one of the table as it is. *)
Definition update_fields (record r : PeerItem) : PeerItem :=
  mkItem (pi_ip r) (pi_port r)
    (if 0 <=? num_failures record then num_failures record else num_failures r)
    (if 0 <=? next_attempt_time record then next_attempt_time record else next_attempt_time r)
    (if 0 <=? active_time record then active_time record else active_time r)
    (if 0 <=? connection_id record then connection_id record else connection_id r).

(** The loop of [CheckPeerPoolValid]: the records that stay, and how many are dropped. *)
Fixpoint prune_loop (deleted_num : Z) (l : list PeerItem) : list PeerItem * Z :=
  match l with
  | [] => ([], deleted_num)
  | record :: l =>
      if (10 <? deleted_num) || negb (active_time record =? 0)
      then let '(new_all, n) := prune_loop deleted_num l in (record :: new_all, n)
      else prune_loop (deleted_num + 1) l
  end.

Definition max_address_cnt : Z := Z.max max_connection PEER_DB_COUNT.

(** [None]: no record can be dropped. *)
Definition CheckPeerPoolValid (total : Z) (all : list PeerItem) : option (list PeerItem) :=
  if total <? max_address_cnt then Some all
  else let '(new_all, deleted_num) := prune_loop 0 all in if deleted_num =? 0 then None else Some new_all.

Definition write_table (t : PeerTable) (all : list PeerItem) : PeerTable * bool :=
  match db_Put (keyvalue_db t) PEERS_TABLE (SerPeers all) with
  | Some db => (mkTable db (Z.of_nat (length all)), true)
  | None => (set_total (length all) t, false)
  end.

Definition matches (address : InetAddress) (r : PeerItem) : bool := item_at address r || IsAny address.

Definition UpdateItem (t : PeerTable) (address : InetAddress) (record : PeerItem) : PeerTable * bool :=
  let '(count, peers) := db_Get (keyvalue_db t) PEERS_TABLE in
  if count <? 0 then (t, false)
  else match ParsePeers peers with
       | None => (t, false)
       | Some all =>
           let t := set_total (length all) t in
           let peer_count := length (filter (λ r, matches address r = true) all) in
           let all := (λ r, if matches address r then update_fields record r else r) <$> all in
           if Nat.eqb peer_count 0 && negb (IsAny address) then
             match CheckPeerPoolValid (total_peers_count_ t) all with
             | None => (t, false)
             | Some all => write_table t (all ++ [record])
             end
           else write_table t all
       end.

(** ** The other changes *)

Definition new_item (address : InetAddress) : PeerItem := mkItem (ToIp address) (sin_port address) 0 0 0 0.

Definition CreatePeerIfNotExist (t : PeerTable) (address : InetAddress) : PeerTable * bool :=
  if IsAny address || (sin_port address =? 0) then (t, false)
  else
    let '(t, peer_count, _) := QueryItem t address in
    if peer_count <? 0 then (t, false)
    else if 0 <? peer_count then (t, true)
    else UpdateItem t address (new_item address).

Definition ResetPeerInActive (t : PeerTable) : PeerTable * bool :=
  UpdateItem t InetAddress_Any (mkItem [] 0 (-1) (-1) 0 0).

Definition disconnect_item (address : InetAddress) (conn_id : Z) (r : PeerItem) : PeerItem :=
  if item_at address r && (connection_id r =? conn_id)
  then mkItem (pi_ip r) (pi_port r) (num_failures r) (next_attempt_time r) 0 0 else r.

Definition UpdateItemDisconnect (t : PeerTable) (address : InetAddress) (conn_id : Z) : PeerTable * bool :=
  let '(count, peers) := db_Get (keyvalue_db t) PEERS_TABLE in
  if count <? 0 then (t, false)
  else match ParsePeers peers with
       | None => (t, false)
       | Some all =>
           let t := set_total (length all) t in
           let peer_count := length (filter (λ r, item_at address r && (connection_id r =? conn_id) = true) all) in
           if Nat.eqb peer_count 0 then (t, true)
           else write_table t (disconnect_item address conn_id <$> all)
       end.

Definition CleanNotActivePeers (t : PeerTable) : PeerTable :=
  let '(count, peers) := db_Get (keyvalue_db t) PEERS_TABLE in
  if count <? 0 then t
  else match ParsePeers peers with
       | None => t
       | Some all =>
           let new_all := filter (λ r, num_failures r < 50) all in
           if Nat.ltb (length new_all) (length all) then set_total (length new_all) (write_table t new_all).1
           else set_total (length new_all) t
       end.

(** ** [QueryTopItem] *)

(** [std::multimap::insert]: after the elements with the same key. *)
Fixpoint insert_failures (r : PeerItem) (l : list PeerItem) : list PeerItem :=
  match l with
  | [] => [r]
  | x :: l => if num_failures r <? num_failures x then r :: x :: l else x :: insert_failures r l
  end.

Definition by_failures (all : list PeerItem) : list PeerItem := foldl (λ l r, insert_failures r l) [] all.

Definition eligible (active : bool) (attempt : Z) (r : PeerItem) : bool :=
  Bool.eqb active (0 <? active_time r) && ((attempt <? 0) || (next_attempt_time r <? attempt)).

Definition QueryTopItem (t : PeerTable) (active : bool) (limit next_attempt_time : Z) : PeerTable * Z * list PeerItem :=
  let '(count, peers) := db_Get (keyvalue_db t) PEERS_TABLE in
  if count <=? 0 then (t, count, [])
  else match ParsePeers peers with
       | None => (t, -1, [])
       | Some all =>
           let records := take (Z.to_nat limit) (filter (λ r, eligible active next_attempt_time r = true) (by_failures all)) in
           (set_total (length all) t, Z.of_nat (length records), records)
       end.

(** ** The table as a list *)

(** The database holds [l], and can be read and written. *)
Definition table_is (t : PeerTable) (l : list PeerItem) : Prop :=
  read_error (keyvalue_db t) PEERS_TABLE = false ∧ write_ok (keyvalue_db t) = true ∧
  (content (keyvalue_db t) !! PEERS_TABLE = Some (SerPeers l) ∨ (content (keyvalue_db t) !! PEERS_TABLE = None ∧ l = [])).

Definition item_key (r : PeerItem) : bytes * Z := (pi_ip r, pi_port r).

(** No two records for an address, and no more than the limit. *)
Record list_ok (l : list PeerItem) : Prop := {
  lo_keys : NoDup (item_key <$> l); lo_length : Z.of_nat (length l) ≤ max_address_cnt }.

(** What [UpdateItem] writes; [None]: nothing. *)
Definition update_list (address : InetAddress) (record : PeerItem) (l : list PeerItem) : option (list PeerItem) :=
  let all := (λ r, if matches address r then update_fields record r else r) <$> l in
  if Nat.eqb (length (filter (λ r, matches address r = true) l)) 0 && negb (IsAny address)
  then (λ all, all ++ [record]) <$> CheckPeerPoolValid (Z.of_nat (length l)) all
  else Some all.

Context {PL : PeerCodecLaws}.

Lemma table_get t l : table_is t l → ∃ c s, db_Get (keyvalue_db t) PEERS_TABLE = (c, s) ∧ 0 ≤ c ∧ ParsePeers s = Some l ∧ (c ≤ 0 → l = []).
Proof.
  intros (Hr & _ & [E|[E ->]]); unfold db_Get; rewrite Hr, E.
  - exists 1, (SerPeers l). split_and!; [done|done|apply peers_back|done].
  - exists 0, []. split_and!; [done|done|apply peers_nil|done].
Qed.

Lemma table_set_total t l n : table_is t l → table_is (set_total n t) l.
Proof. done. Qed.

Lemma write_table_is t l l' : table_is t l → table_is (write_table t l').1 l'.
Proof.
  intros (Hr & Hw & _). unfold write_table, db_Put, db_WriteBatch. rewrite Hw. split_and!; [done|done|]. left. cbn. by rewrite lookup_insert_eq.
Qed.

Lemma UpdateItem_is t l address record : table_is t l → table_is (UpdateItem t address record).1 (default l (update_list address record l)).
Proof.
  intros Ht. destruct (table_get t l Ht) as (c & s & E & Hc & Ep & _). unfold UpdateItem. rewrite E. destruct (Z.ltb_spec c 0); [lia|]. rewrite Ep.
  cbn [total_peers_count_ set_total]. unfold update_list. destruct (Nat.eqb _ 0 && negb (IsAny address)).
  - destruct (CheckPeerPoolValid _ _); [by apply (write_table_is (set_total _ t) l)|done].
  - by apply (write_table_is (set_total _ t) l).
Qed.

Lemma QueryItem_is t l address : table_is t l → ∃ t', table_is t' l ∧
  QueryItem t address = (t', Z.of_nat (length (filter (λ r, item_at address r = true) l)), filter (λ r, item_at address r = true) l).
Proof.
  intros Ht. destruct (table_get t l Ht) as (c & s & E & Hc & Ep & Hnil). unfold QueryItem. rewrite E. destruct (Z.leb_spec c 0); [|rewrite Ep; eexists; split; [|reflexivity]; done].
  rewrite (Hnil H) in *. replace c with 0 by lia. by exists t.
Qed.

Lemma QueryTopItem_is t l a n at_ : table_is t l → ∃ t' rs, table_is t' l ∧ QueryTopItem t a n at_ = (t', Z.of_nat (length rs), rs) ∧
  rs = take (Z.to_nat n) (filter (λ r, eligible a at_ r = true) (by_failures l)).
Proof.
  intros Ht. destruct (table_get t l Ht) as (c & s & E & Hc & Ep & Hnil). unfold QueryTopItem. rewrite E. destruct (Z.leb_spec c 0); [|rewrite Ep; do 2 eexists; split_and!; [|reflexivity|reflexivity]; done].
  rewrite (Hnil H) in *. exists t, []. replace c with 0 by lia. split_and!; [done|done|]. cbn. by rewrite take_nil.
Qed.

(** The list after [CreatePeerIfNotExist]. *)
Definition create_list (address : InetAddress) (l : list PeerItem) : list PeerItem :=
  if IsAny address || (sin_port address =? 0) || negb (Nat.eqb (length (filter (λ r, item_at address r = true) l)) 0) then l
  else default l (update_list address (new_item address) l).

Lemma CreatePeer_is t l address : table_is t l → table_is (CreatePeerIfNotExist t address).1 (create_list address l).
Proof.
  intros Ht. unfold CreatePeerIfNotExist, create_list. destruct (IsAny address || (sin_port address =? 0)); [done|]. cbn [orb].
  destruct (QueryItem_is t l address Ht) as (t' & Ht' & ->). destruct (Z.ltb_spec (Z.of_nat (length (filter (λ r, item_at address r = true) l))) 0); [lia|].
  destruct (Nat.eqb_spec (length (filter (λ r, item_at address r = true) l)) 0) as [E|E]; destruct (Z.ltb_spec 0 (Z.of_nat (length (filter (λ r, item_at address r = true) l)))); try lia; [|done].
  by apply UpdateItem_is.
Qed.

Lemma Disconnect_is t l address id : table_is t l → table_is (UpdateItemDisconnect t address id).1 (disconnect_item address id <$> l).
Proof.
  intros Ht. destruct (table_get t l Ht) as (c & s & E & Hc & Ep & _). unfold UpdateItemDisconnect. rewrite E. destruct (Z.ltb_spec c 0); [lia|]. rewrite Ep.
  destruct (Nat.eqb_spec (length (filter (λ r, item_at address r && (connection_id r =? id) = true) l)) 0) as [E0|E0]; [|by apply (write_table_is (set_total _ t) l)].
  assert (disconnect_item address id <$> l = l) as ->; [|done]. apply nil_length_inv in E0. rewrite <- (list_fmap_id l) at 2. apply list_fmap_ext.
  intros i r Hr. unfold disconnect_item. destruct (item_at address r && (connection_id r =? id)) eqn:Eb; [|done].
  assert (r ∈ filter (λ r, item_at address r && (connection_id r =? id) = true) l) as Hin by (apply list_elem_of_filter; split; [done|by eapply list_elem_of_lookup_2]).
  rewrite E0 in Hin. by apply elem_of_nil in Hin.
Qed.

Lemma Clean_is t l : table_is t l → table_is (CleanNotActivePeers t) (filter (λ r, num_failures r < 50) l).
Proof.
  intros Ht. destruct (table_get t l Ht) as (c & s & E & Hc & Ep & _). unfold CleanNotActivePeers. rewrite E. destruct (Z.ltb_spec c 0); [lia|]. rewrite Ep.
  destruct (Nat.ltb_spec (length (filter (λ r, num_failures r < 50) l)) (length l)) as [Hlt|Hge].
  - by apply table_set_total, (write_table_is t l).
  - rewrite filter_all; [done|]. intros r Hr. destruct (decide (num_failures r < 50)) as [|Hn]; [done|].
    pose proof (length_filter_lt (λ r, num_failures r < 50) l r Hr Hn). lia.
Qed.

(** ** One record per address, and no more than the limit *)

Lemma update_key record r : item_key (update_fields record r) = item_key r.
Proof. done. Qed.

Lemma map_keys f (l : list PeerItem) : (∀ r, item_key (f r) = item_key r) → item_key <$> (f <$> l) = item_key <$> l.
Proof. intros Hf. rewrite <- list_fmap_compose. apply list_fmap_ext. intros i r _. apply Hf. Qed.

Lemma prune_spec l : ∀ d, 0 ≤ d → let '(l', n) := prune_loop d l in
  l' `sublist_of` l ∧ Z.of_nat (length l') + (n - d) = Z.of_nat (length l) ∧ d ≤ n ∧ (∀ r, r ∈ l → active_time r ≠ 0 → r ∈ l').
Proof.
  induction l as [|r l IH]; intros d Hd; cbn [prune_loop].
  { split_and!; [constructor|cbn; lia|lia|done]. }
  destruct ((10 <? d) || negb (active_time r =? 0)) eqn:E.
  - specialize (IH d Hd). destruct (prune_loop d l) as [l' n]. destruct IH as (H1 & H2 & H3 & H4). split_and!; [by constructor|cbn; lia|lia|].
    intros x [->|Hx]%elem_of_cons Ha; [by left|right; by apply H4].
  - specialize (IH (d + 1) ltac:(lia)). destruct (prune_loop (d + 1) l) as [l' n]. destruct IH as (H1 & H2 & H3 & H4). split_and!; [by constructor|cbn; lia|lia|].
    apply orb_false_iff in E as [_ E%negb_false_iff%Z.eqb_eq]. intros x [->|Hx]%elem_of_cons Ha; [done|by apply H4].
Qed.

Lemma pool_valid l l' : CheckPeerPoolValid (Z.of_nat (length l)) l = Some l' → Z.of_nat (length l) ≤ max_address_cnt →
  l' `sublist_of` l ∧ Z.of_nat (length l') + 1 ≤ max_address_cnt ∧ (∀ r, r ∈ l → active_time r ≠ 0 → r ∈ l').
Proof.
  unfold CheckPeerPoolValid. intros E Hl. destruct (Z.ltb_spec (Z.of_nat (length l)) max_address_cnt).
  { injection E as <-. split_and!; [done|lia|done]. }
  pose proof (prune_spec l 0 ltac:(lia)) as Hp. destruct (prune_loop 0 l) as [new n]. destruct Hp as (H1 & H2 & H3 & H4).
  destruct (Z.eqb_spec n 0); [done|]. injection E as <-. split_and!; [done|lia|done].
Qed.

Lemma matches_key address r : IsAny address = false → matches address r = true ↔ item_key r = (ToIp address, sin_port address).
Proof.
  intros Ha. unfold matches, item_at. rewrite Ha, orb_false_r, bool_decide_eq_true. unfold item_key. split; [by intros [-> ->]|by intros [= -> ->]].
Qed.

Lemma none_match address l : length (filter (λ r, matches address r = true) l) = 0%nat → ∀ r, r ∈ l → matches address r = false.
Proof.
  intros E%nil_length_inv r Hr. destruct (matches address r) eqn:Em; [|done].
  assert (r ∈ filter (λ r, matches address r = true) l) as Hin by (by apply list_elem_of_filter). rewrite E in Hin. by apply elem_of_nil in Hin.
Qed.

Lemma update_none address record (l : list PeerItem) : (∀ r, r ∈ l → matches address r = false) →
  (λ r, if matches address r then update_fields record r else r) <$> l = l.
Proof.
  intros Hn. rewrite <- (list_fmap_id l) at 2. apply list_fmap_ext. intros i r Hr. by rewrite Hn by (by eapply list_elem_of_lookup_2).
Qed.

Lemma update_list_ok address record l : list_ok l → (IsAny address = false → item_key record = (ToIp address, sin_port address)) →
  list_ok (default l (update_list address record l)).
Proof.
  intros [Hk Hl] Hr. unfold update_list. destruct (Nat.eqb_spec (length (filter (λ r, matches address r = true) l)) 0) as [E0|E0]; cbn [andb].
  2: { cbn. split; [|by rewrite length_fmap]. rewrite map_keys; [done|]. intros r. by destruct (matches address r). }
  destruct (IsAny address) eqn:Ea; cbn [negb].
  { cbn. split; [|by rewrite length_fmap]. rewrite map_keys; [done|]. intros r. by destruct (matches address r). }
  pose proof (none_match _ _ E0) as Hn. rewrite update_none by done.
  destruct (CheckPeerPoolValid _ l) as [l'|] eqn:Ec; cbn; [|done]. destruct (pool_valid l l' Ec Hl) as (H1 & H2 & _).
  split; [|rewrite length_app; cbn; lia]. rewrite fmap_app. apply NoDup_app. split_and!.
  - eapply sublist_NoDup; [exact Hk|by apply fmap_sublist].
  - intros k Hin Hin'. apply list_elem_of_singleton in Hin'. rewrite Hr in Hin' by done. subst k.
    apply list_elem_of_fmap in Hin as (r & Er & Hin). assert (r ∈ l) as Hin2 by (by eapply elem_of_sublist).
    pose proof (Hn r Hin2) as Hm. by rewrite (proj2 (matches_key address r Ea)) in Hm.
  - apply NoDup_singleton.
Qed.

Lemma filter_list_ok (P : PeerItem → Prop) `{∀ r, Decision (P r)} l : list_ok l → list_ok (filter P l).
Proof.
  intros [Hk Hl]. split; [eapply sublist_NoDup; [exact Hk|apply fmap_sublist, sublist_filter]|].
  pose proof (length_filter P l). lia.
Qed.

Lemma disconnect_list_ok address id l : list_ok l → list_ok (disconnect_item address id <$> l).
Proof.
  intros [Hk Hl]. split; [|by rewrite length_fmap]. rewrite map_keys; [done|]. intros r. unfold disconnect_item. by destruct (_ && _).
Qed.

Lemma create_list_ok address l : list_ok l → list_ok (create_list address l).
Proof. intros Hl. unfold create_list. destruct (_ || _); [done|]. by apply update_list_ok. Qed.
End table.
