(* ===== verification/PeerNetwork.v ===== *)
(** * Connections and peers (src/src/common/network.cpp, src/src/overlay/peer.cpp,
      peer_network.cpp)

    [Network] keeps the websocket connections; [PeerNetwork] adds the greeting by which a
    connection becomes an active peer, the table of known addresses and the relaying of
    messages.  Sockets and threads are left out: the handlers that the event loop calls are
    steps on the state, and what they send is returned. *)
From stdpp Require Import base gmap list sorting strings.
From Stdlib Require Import ZArith Lia.
From S2P Require Import Prelude Pbft KVTrie SafeInt Strings Account LedgerMsg LedgerFrm LedgerCommit ChainMsg UpgradeVote Broadcast Flood PeerTable.
Local Open Scope Z_scope.

(** ** The connections *)

(** [protocol::Hello], and what [Peer] keeps of it. *)
Record Hello := mkHello {
  hl_network_id : Z; hl_ledger_version : Z; hl_overlay_version : Z; hl_version : bytes;
  hl_listening_port : Z; hl_node_address : bytes; hl_node_rand : bytes }.

Record PeerInfo := mkInfo {
  peer_overlay_version_ : Z; peer_ledger_version_ : Z; peer_version_ : bytes; peer_listen_port_ : Z; peer_node_address_ : bytes }.

(** The classes [Connection] and [Peer]; a handle of the websocket library is a number. *)
Record Peer := mkPeer {
  id_ : Z; handle_ : Z; in_bound_ : bool; peer_address_ : InetAddress;
  connect_start_time_ : Z; connect_end_time_ : Z; last_receive_time_ : Z; last_send_time_ : Z; sequence_ : Z;
  active_time_ : Z; peer_info_ : PeerInfo }.

Definition new_Peer (id handle : Z) (in_bound : bool) (address : InetAddress) (now : Z) : Peer :=
  mkPeer id handle in_bound address now (if in_bound then now else 0) now 0 0 0 (mkInfo 0 0 [] 0 []).

Definition IsActive (p : Peer) : bool := 0 <? active_time_ p.

Definition TouchReceiveTime (now : Z) (p : Peer) : Peer :=
  mkPeer (id_ p) (handle_ p) (in_bound_ p) (peer_address_ p) (connect_start_time_ p) (connect_end_time_ p) now (last_send_time_ p)
    (sequence_ p) (active_time_ p) (peer_info_ p).
Definition SetConnectTime (now : Z) (p : Peer) : Peer :=
  mkPeer (id_ p) (handle_ p) (in_bound_ p) (peer_address_ p) (connect_start_time_ p) now now (last_send_time_ p)
    (sequence_ p) (active_time_ p) (peer_info_ p).
Definition SetActiveTime (now : Z) (p : Peer) : Peer :=
  mkPeer (id_ p) (handle_ p) (in_bound_ p) (peer_address_ p) (connect_start_time_ p) (connect_end_time_ p) (last_receive_time_ p)
    (last_send_time_ p) (sequence_ p) now (peer_info_ p).
Definition SetPeerInfo (h : Hello) (p : Peer) : Peer :=
  mkPeer (id_ p) (handle_ p) (in_bound_ p) (peer_address_ p) (connect_start_time_ p) (connect_end_time_ p) (last_receive_time_ p)
    (last_send_time_ p) (sequence_ p) (active_time_ p)
    (mkInfo (hl_overlay_version h) (hl_ledger_version h) (hl_version h) (hl_listening_port h) (hl_node_address h)).
(** A request was sent; after a ping the time is noted too. *)
Definition sent_request (p : Peer) : Peer :=
  mkPeer (id_ p) (handle_ p) (in_bound_ p) (peer_address_ p) (connect_start_time_ p) (connect_end_time_ p) (last_receive_time_ p)
    (last_send_time_ p) (sequence_ p + 1) (active_time_ p) (peer_info_ p).
Definition sent_ping (now : Z) (p : Peer) : Peer :=
  mkPeer (id_ p) (handle_ p) (in_bound_ p) (peer_address_ p) (connect_start_time_ p) (connect_end_time_ p) (last_receive_time_ p)
    now (sequence_ p + 1) (active_time_ p) (peer_info_ p).

(** A connection that came in is known by the port on which its node listens. *)
Definition GetRemoteAddress (p : Peer) : InetAddress :=
  if in_bound_ p then mkInet (sin_addr (peer_address_ p)) (u16 (peer_listen_port_ (peer_info_ p))) else peer_address_ p.

Definition NeedPing (interval now : Z) (p : Peer) : bool := (0 <? connect_end_time_ p) && (interval <? i64 (now - last_send_time_ p)).
Definition IsDataExpired (time_out now : Z) (p : Peer) : bool := (0 <? connect_end_time_ p) && (time_out <? i64 (now - last_receive_time_ p)).
(** [Peer::OnNetworkTimer]: a connection that is not active after ten seconds is an error. *)
Definition OnNetworkTimer (current_time : Z) (p : Peer) : bool :=
  negb (negb (IsActive p) && (10 * 1000000 <? i64 (current_time - connect_start_time_ p))).

(** ** The state *)

(** [connections_delete_] has the objects that wait for their deletion, by the time of it;
    [deleted] are those that were deleted. *)
Record Conns := mkConns {
  connections_ : gmap Z Peer; connection_handles_ : gmap Z Z; connections_delete_ : gmap Z Z; deleted : list Z;
  next_id_ : Z; last_check_time : Z }.

Record PeerNetwork := mkNet {
  conns : Conns; table : PeerTable; db_peer_cache_ : list PeerItem; last_update_peercache_time_ : Z; dns_seed_inited_ : bool;
  broadcast_ : Broadcast; ledger_upgrade_ : UpgradeState }.

Definition set_conns (c : Conns) (s : PeerNetwork) : PeerNetwork :=
  mkNet c (table s) (db_peer_cache_ s) (last_update_peercache_time_ s) (dns_seed_inited_ s) (broadcast_ s) (ledger_upgrade_ s).
Definition set_table (t : PeerTable) (s : PeerNetwork) : PeerNetwork :=
  mkNet (conns s) t (db_peer_cache_ s) (last_update_peercache_time_ s) (dns_seed_inited_ s) (broadcast_ s) (ledger_upgrade_ s).
Definition set_broadcast (b : Broadcast) (up : UpgradeState) (s : PeerNetwork) : PeerNetwork :=
  mkNet (conns s) (table s) (db_peer_cache_ s) (last_update_peercache_time_ s) (dns_seed_inited_ s) b up.

(** [p2p_configure_] and what [Initialize] sets. *)
Record P2pConfigure := mkP2p {
  listen_port_ : Z; max_connection_ : Z; target_peer_connection_ : Z; network_id_ : Z; node_address_ : bytes; node_rand_ : bytes;
  (* the addresses of the own machine, and the resolved [known_peer_list_] *)
  local_ips : list bytes; known_peers : list InetAddress }.

(** What is sent, and the tasks that are posted to the main thread. *)
Inductive net_out :=
  | SendHello (conn : Z)
  | SendResponse (conn : Z) (ok : bool)
  | SendPeers (conn : Z) (l : list PeerItem)
  | SendPing (conn : Z)
  | SendPong (conn : Z)
  | Relay (r : request)
  | CloseConn (conn : Z)
  | PostSendPeers (conn : Z)
  | PostTransaction (data : bytes) (conn : Z)
  | PostPbft (data : bytes) (conn : Z)
  | RequestLedgers (data : bytes) (conn : Z)
  | ReceiveLedgers (data : bytes) (conn : Z).

(** [protocol::WsMessage]. *)
Record WsMessage := mkWs { ws_type : Z; ws_request : bool; ws_data : bytes }.

Definition OVERLAY_MSGTYPE_PING : Z := 1.
Definition OVERLAY_MSGTYPE_HELLO : Z := 2.
Definition OVERLAY_MSGTYPE_PEERS : Z := 3.
Definition OVERLAY_MSGTYPE_TRANSACTION : Z := 4.
Definition OVERLAY_MSGTYPE_LEDGERS : Z := 5.
Definition OVERLAY_MSGTYPE_PBFT : Z := 6.
Definition OVERLAY_MIN_VERSION : Z := 1000.
Definition connect_time_out_ : Z := 60 * 1000000.

Definition OVERLAY_VERSION : Z := 1000.
Definition CEG_VERSION : bytes := str "1.3.3".

(** The greeting of [Peer::SendHello]. *)
Definition own_hello (c : P2pConfigure) : Hello :=
  mkHello (network_id_ c) LEDGER_VERSION OVERLAY_VERSION CEG_VERSION (listen_port_ c) (node_address_ c) (node_rand_ c).

(** The encodings; a text that is no greeting reads as some greeting. *)
Class NetCodec := {
  ParseHello : bytes → Hello;
  ParsePeersMsg : bytes → list PeerItem;
  HelloError : bytes → bool;
  PingParses : bytes → bool;
  TransactionParses : bytes → bool;
  (* the address of the signer, if there is a message inside *)
  PbftSigner : bytes → option bytes;
  ParseNotify : bytes → option LedgerUpgradeNotify }.

(** ** The members of [Network] on the map of connections *)

Definition GetConnection (c : Conns) (id : Z) : option Peer := connections_ c !! id.
Definition GetConnection_hdl (c : Conns) (hdl : Z) : option Peer := connection_handles_ c !! hdl ≫= λ id, connections_ c !! id.

Definition put_peer (p : Peer) (c : Conns) : Conns :=
  mkConns (<[id_ p := p]> (connections_ c)) (connection_handles_ c) (connections_delete_ c) (deleted c) (next_id_ c) (last_check_time c).

(** [insert] of a map does not replace. *)
Definition insert_new {A} (k : Z) (x : A) (m : gmap Z A) : gmap Z A := match m !! k with Some _ => m | None => <[k := x]> m end.

Definition add_connection (p : Peer) (c : Conns) : Conns :=
  mkConns (insert_new (id_ p) p (connections_ c)) (insert_new (handle_ p) (id_ p) (connection_handles_ c)) (connections_delete_ c) (deleted c)
    (i64 (next_id_ c + 1)) (last_check_time c).

(** [now] is the clock when it is removed; the object is kept for five seconds.  The socket is
    closed: the callers return the [CloseConn]. *)
Definition RemoveConnection (p : Peer) (now : Z) (c : Conns) : Conns :=
  mkConns (delete (id_ p) (connections_ c)) (delete (handle_ p) (connection_handles_ c))
    (insert_new (i64 (now + 5 * 1000000)) (id_ p) (connections_delete_ c)) (deleted c) (next_id_ c) (last_check_time c).

Section network.
Context {LH : LedgerHost} {PC : PeerCodec} {NC : NetCodec}.
Context (SerUpgrade : LedgerUpgrade → bytes) (self_chain : Z) (cfg : P2pConfigure).

Local Abbreviation Add := (Add Crypto).
Local Abbreviation Send := (Send Crypto).
Local Abbreviation IsQueued := (IsQueued Crypto).
Local Abbreviation UpdateItem := (UpdateItem (max_connection_ cfg)).
Local Abbreviation CreatePeerIfNotExist := (CreatePeerIfNotExist (max_connection_ cfg)).

Definition GetActivePeerIds (s : PeerNetwork) : gset Z := dom (filter (λ e, IsActive e.2 = true) (connections_ (conns s))).

(** [PeerNetwork::SendRequest]: only to active connections. *)
Definition net_SendRequest (s : PeerNetwork) (r : request) : PeerNetwork * list net_out :=
  match GetConnection (conns s) (rq_peer r) with
  | Some p => if IsActive p then (set_conns (put_peer (sent_request p) (conns s)) s, [Relay r]) else (s, [])
  | None => (s, [])
  end.

Fixpoint send_requests (s : PeerNetwork) (l : list request) : PeerNetwork * list net_out :=
  match l with
  | [] => (s, [])
  | r :: l => let '(s, o) := net_SendRequest s r in let '(s, o') := send_requests s l in (s, o ++ o')
  end.

Definition BroadcastMsg (s : PeerNetwork) (type : Z) (data : bytes) (now : Z) : PeerNetwork * list net_out :=
  let '(b, l) := Send (broadcast_ s) type data (GetActivePeerIds s) now in
  send_requests (set_broadcast b (ledger_upgrade_ s) s) l.

Definition ReceiveBroadcastMsg (s : PeerNetwork) (type : Z) (data : bytes) (peer_id now : Z) : PeerNetwork * bool :=
  let '(b, fresh) := Add (broadcast_ s) type data peer_id now in (set_broadcast b (ledger_upgrade_ s) s, fresh).

(** ** Opening and closing *)

Definition OnDisconnect (p : Peer) (s : PeerNetwork) : PeerNetwork :=
  set_table (UpdateItemDisconnect (table s) (GetRemoteAddress p) (id_ p)).1 s.

(** Whether the connection may stay; one that this node opened sends its greeting. *)
Definition OnConnectOpen (p : Peer) (s : PeerNetwork) : PeerNetwork * list net_out * bool :=
  if Z.of_nat (base.size (connections_ (conns s))) <? max_connection_ cfg then
    if in_bound_ p then (s, [], true) else (set_conns (put_peer (sent_request p) (conns s)) s, [SendHello (id_ p)], true)
  else (s, [], false).

(** A connection came in; [now] and [later] are readings of the clock. *)
Definition OnOpen (s : PeerNetwork) (hdl : Z) (remote : InetAddress) (now later : Z) : PeerNetwork * list net_out :=
  let p := new_Peer (next_id_ (conns s)) hdl true remote now in
  let s := set_conns (add_connection p (conns s)) s in
  let '(s, o, ok) := OnConnectOpen p s in
  if (ok : bool) then (s, o) else (set_conns (RemoveConnection p later (conns s)) s, o ++ [CloseConn (id_ p); CloseConn (id_ p)]).

Definition OnClose (s : PeerNetwork) (hdl now : Z) : PeerNetwork * list net_out :=
  match GetConnection_hdl (conns s) hdl with
  | Some p => let s := OnDisconnect p s in (set_conns (RemoveConnection p now (conns s)) s, [CloseConn (id_ p)])
  | None => (s, [])
  end.

Definition OnFailed (s : PeerNetwork) (hdl now : Z) : PeerNetwork * list net_out := OnClose s hdl now.

(** [handle] is that of the new connection; [None]: the library makes none.  The address is
    read back from the text of the URI. *)
Definition Connect (s : PeerNetwork) (address : InetAddress) (handle : option Z) (now : Z) : PeerNetwork :=
  match handle with
  | Some hdl => set_conns (add_connection (new_Peer (next_id_ (conns s)) hdl false (InetAddress_of (ToIp address) (sin_port address)) now) (conns s)) s
  | None => s
  end.

Definition OnClientOpen (s : PeerNetwork) (hdl now later : Z) : PeerNetwork * list net_out :=
  match GetConnection_hdl (conns s) hdl with
  | Some p =>
      let p := SetConnectTime now p in
      let s := set_conns (put_peer p (conns s)) s in
      let '(s, o, ok) := OnConnectOpen p s in
      if (ok : bool) then (s, o) else (set_conns (RemoveConnection p later (conns s)) s, o ++ [CloseConn (id_ p); CloseConn (id_ p)])
  | None => (s, [])
  end.

Definition OnPong (s : PeerNetwork) (hdl now : Z) : PeerNetwork :=
  match GetConnection_hdl (conns s) hdl with
  | Some p => set_conns (put_peer (TouchReceiveTime now p) (conns s)) s
  | None => s
  end.

(** ** The handlers of messages: the state, what is sent, and [false] when the connection is
    to be removed *)

Definition OnRequestPing (s : PeerNetwork) (data : bytes) (conn_id : Z) (sends : bool) : PeerNetwork * list net_out * bool :=
  if PingParses data then
    match GetConnection (conns s) conn_id with Some _ => (s, [SendPong conn_id], sends) | None => (s, [], false) end
  else (s, [], false).

Definition OnResponsePing (s : PeerNetwork) (data : bytes) (conn_id now : Z) : PeerNetwork * list net_out * bool :=
  if PingParses data then
    match GetConnection (conns s) conn_id with
    | Some p => (set_conns (put_peer (TouchReceiveTime now p) (conns s)) s, [], true)
    | None => (s, [], true)
    end
  else (s, [], false).

Definition NodeExist (c : Conns) (node_address : bytes) (peer_id : Z) : bool :=
  existsb (λ e, bool_decide (peer_node_address_ (peer_info_ e.2) = node_address) && negb (id_ e.2 =? peer_id)) (map_to_list (connections_ c)).

(** The checks of a greeting, after the duplicates. *)
Definition hello_ok (h : Hello) : bool :=
  (network_id_ cfg =? hl_network_id h) && bool_decide (node_address_ cfg ≠ hl_node_address h) &&
  (OVERLAY_MIN_VERSION <=? hl_overlay_version h) && (0 <? hl_listening_port h) && (hl_listening_port h <=? 65535).

(** The record of an active peer. *)
Definition active_item (p : Peer) (conn_id : Z) : PeerItem :=
  mkItem (ToIp (GetRemoteAddress p)) (sin_port (GetRemoteAddress p)) 0 (-1) (active_time_ p) conn_id.

Definition OnMethodHello (s : PeerNetwork) (data : bytes) (conn_id now : Z) : PeerNetwork * list net_out * bool :=
  let hello := ParseHello data in
  match GetConnection (conns s) conn_id with
  | None => (s, [], true)
  | Some p =>
      if IsActive p then (s, [SendResponse conn_id true], true)
      else
        let p := SetPeerInfo hello p in
        let s := set_conns (put_peer p (conns s)) s in
        if NodeExist (conns s) (hl_node_address hello) (id_ p) then (s, [SendResponse conn_id false], false)
        else if negb (hello_ok hello) then (s, [SendResponse conn_id false], false)
        else
          let p := SetActiveTime now p in
          let '(p, t, o) :=
            (if in_bound_ p then (sent_request p, (CreatePeerIfNotExist (table s) (GetRemoteAddress p)).1, [SendHello conn_id; PostSendPeers conn_id])
             else (p, table s, [])) in
          let t := (UpdateItem t (GetRemoteAddress p) (active_item p conn_id)).1 in
          (set_table t (set_conns (put_peer p (conns s)) s), o ++ [SendResponse conn_id true], true)
  end.

Definition is_local_addr (a : InetAddress) : bool := bool_decide (ToIp a ∈ local_ips cfg) && (listen_port_ cfg =? sin_port a).

Fixpoint create_peers (t : PeerTable) (l : list PeerItem) : PeerTable :=
  match l with
  | [] => t
  | r :: l =>
      if bool_decide (pi_ip r ∈ local_ips cfg) && (listen_port_ cfg =? u16 (pi_port r)) then create_peers t l
      else create_peers (CreatePeerIfNotExist t (InetAddress_of (pi_ip r) (u16 (pi_port r)))).1 l
  end.

(** The connection is used without a check that it is still there. *)
Definition OnMethodPeers (s : PeerNetwork) (data : bytes) (conn_id : Z) : res (PeerNetwork * list net_out * bool) :=
  match GetConnection (conns s) conn_id with
  | None => Err NullDeref
  | Some p =>
      if IsActive p then mret (set_table (create_peers (table s) (ParsePeersMsg data)) s, [], true) else mret (s, [], true)
  end.

Definition OnMethodHelloResponse (s : PeerNetwork) (data : bytes) (conn_id : Z) : PeerNetwork * list net_out * bool :=
  match GetConnection (conns s) conn_id with
  | None => (s, [], true)
  | Some _ => (s, [], negb (HelloError data))
  end.

Definition OnMethodTransaction (s : PeerNetwork) (data : bytes) (conn_id : Z) : PeerNetwork * list net_out * bool :=
  if TRANSACTION_LIMIT_SIZE + 2 * (1024 * 1024) <? Z.of_nat (length data) then (s, [], false)
  else if IsQueued (broadcast_ s) OVERLAY_MSGTYPE_TRANSACTION data then (s, [], true)
  else if negb (TransactionParses data) then (s, [], false)
  else (s, [PostTransaction data conn_id], true).

Definition OnMethodPbft (s : PeerNetwork) (validators : gmap bytes Z) (data : bytes) (conn_id : Z) : PeerNetwork * list net_out * bool :=
  if TXSET_LIMIT_SIZE + 2 * (1024 * 1024) <? Z.of_nat (length data) then (s, [], false)
  else match PbftSigner data with
       | None => (s, [], false)
       | Some address =>
           if GetValidatorIndex address validators <? 0 then (s, [], true)
           else if IsQueued (broadcast_ s) OVERLAY_MSGTYPE_PBFT data then (s, [], true)
           else (s, [PostPbft data conn_id], true)
       end.

(** The task of [PostTransaction] and [PostPbft]: [accepted] is the answer of
    [GlueManager::OnTransaction] or [GlueManager::OnConsensus]. *)
Definition relay_task (s : PeerNetwork) (accepted : bool) (type : Z) (data : bytes) (conn_id now : Z) : PeerNetwork * list net_out :=
  if accepted then let '(s, _) := ReceiveBroadcastMsg s type data conn_id now in BroadcastMsg s type data now else (s, []).

Definition net_LedgerUpNotify (s : PeerNetwork) (validators : gmap bytes Z) (data : bytes) (conn_id now recv_time : Z)
    : PeerNetwork * list net_out * bool :=
  let '(ok, b, up, l) :=
    OnMethodLedgerUpNotify SerUpgrade self_chain ParseNotify validators (GetActivePeerIds s) (broadcast_ s) (ledger_upgrade_ s) data conn_id now recv_time in
  let '(s, o) := send_requests (set_broadcast b up s) l in (s, o, ok).

(** [request_methods_] and [response_methods_]; a type without a method is ignored. *)
Definition dispatch (s : PeerNetwork) (validators : gmap bytes Z) (m : WsMessage) (conn_id now : Z) (sends : bool)
    : res (PeerNetwork * list net_out * bool) :=
  let t := ws_type m in let data := ws_data m in
  if ws_request m then
    if t =? OVERLAY_MSGTYPE_PING then mret (OnRequestPing s data conn_id sends)
    else if t =? OVERLAY_MSGTYPE_HELLO then mret (OnMethodHello s data conn_id now)
    else if t =? OVERLAY_MSGTYPE_PEERS then OnMethodPeers s data conn_id
    else if t =? OVERLAY_MSGTYPE_TRANSACTION then mret (OnMethodTransaction s data conn_id)
    else if t =? OVERLAY_MSGTYPE_LEDGERS then mret (s, [RequestLedgers data conn_id], true)
    else if t =? OVERLAY_MSGTYPE_PBFT then mret (OnMethodPbft s validators data conn_id)
    else if t =? OVERLAY_MSGTYPE_LEDGER_UPGRADE_NOTIFY then mret (net_LedgerUpNotify s validators data conn_id now now)
    else mret (s, [], true)
  else
    if t =? OVERLAY_MSGTYPE_PING then mret (OnResponsePing s data conn_id now)
    else if t =? OVERLAY_MSGTYPE_LEDGERS then mret (s, [ReceiveLedgers data conn_id], true)
    else if t =? OVERLAY_MSGTYPE_HELLO then mret (OnMethodHelloResponse s data conn_id)
    else mret (s, [], true).

Definition OnMessage (s : PeerNetwork) (validators : gmap bytes Z) (hdl : Z) (m : WsMessage) (now later : Z) (sends : bool)
    : res (PeerNetwork * list net_out) :=
  match GetConnection_hdl (conns s) hdl with
  | None => mret (s, [])
  | Some p =>
      let s := set_conns (put_peer (TouchReceiveTime now p) (conns s)) s in
      '(s, o, ok) ← dispatch s validators m (id_ p) now sends;
      if (ok : bool) then mret (s, o)
      else
        let s := match GetConnection_hdl (conns s) hdl with Some p => OnDisconnect p s | None => s end in
        match GetConnection (conns s) (id_ p) with
        | Some p => mret (set_conns (RemoveConnection p later (conns s)) s, o ++ [CloseConn (id_ p)])
        | None => mret (s, o)
        end
  end.

(** ** The check of the event loop ([Network::Start]), once in a second *)

(** Whether the connection is pinged, and the connection after it. *)
Definition ping_peer (clk : nat → Z) (n : nat) (p : Peer) : Peer * list net_out * nat :=
  let n1 := if 0 <? connect_end_time_ p then S n else n in
  if NeedPing (connect_time_out_ / 4) (clk n) p then (sent_ping (clk (S n1)) p, [SendPing (id_ p)], S (S n1)) else (p, [], n1).

(** The pass over the connections.  [clk] gives the readings of the clock during the check, of
    which [n] are used up.  A connection whose data has expired and which the application
    gives up is listed twice. *)
Fixpoint scan (l : list (Z * Peer)) (now : Z) (clk : nat → Z) (n : nat) (c : Conns) : Conns * list net_out * list Peer * nat :=
  match l with
  | [] => (c, [], [], n)
  | (_, p) :: l =>
      let '(p, o, n) := ping_peer clk n p in
      let expired := if IsDataExpired connect_time_out_ (clk n) p then [p] else [] in
      let n := if 0 <? connect_end_time_ p then S n else n in
      let failed := if OnNetworkTimer now p then [] else [p] in
      let '(c, o', del, n) := scan l now clk n (put_peer p c) in
      (c, o ++ ((λ p, CloseConn (id_ p)) <$> expired ++ failed) ++ o', expired ++ failed ++ del, n)
  end.

Fixpoint remove_list (l : list Peer) (clk : nat → Z) (n : nat) (s : PeerNetwork) : PeerNetwork :=
  match l with
  | [] => s
  | p :: l => let s := OnDisconnect p s in remove_list l clk (S n) (set_conns (RemoveConnection p (clk n) (conns s)) s)
  end.

Definition erase_deleted (time id : Z) (c : Conns) : Conns :=
  mkConns (connections_ c) (connection_handles_ c) (delete time (connections_delete_ c)) (id :: deleted c) (next_id_ c) (last_check_time c).

(** An object that is deleted twice is a fault. *)
Fixpoint purge (l : list (Z * Z)) (now : Z) (c : Conns) : res Conns :=
  match l with
  | [] => mret c
  | (time, id) :: l =>
      if time <? now then if decide (id ∈ deleted c) then Err NullDeref else purge l now (erase_deleted time id c)
      else purge l now c
  end.

Definition set_last_check (now : Z) (c : Conns) : Conns :=
  mkConns (connections_ c) (connection_handles_ c) (connections_delete_ c) (deleted c) (next_id_ c) now.

Definition check_connections (s : PeerNetwork) (now : Z) (clk : nat → Z) : res (PeerNetwork * list net_out) :=
  if 1000000 <? i64 (now - last_check_time (conns s)) then
    let '(c, o, del, n) := scan (in_key_order (connections_ (conns s))) now clk 0 (conns s) in
    let s := remove_list del clk n (set_conns c s) in
    c ← purge (in_key_order (connections_delete_ (conns s))) now (conns s);
    mret (set_conns (set_last_check now c) s, o ++ ((λ p, CloseConn (id_ p)) <$> del))
  else mret (s, []).

(** ** The timer of [PeerNetwork] *)

Definition remote_exists (c : Conns) (address : InetAddress) : bool :=
  existsb (λ e, inet_eqb (GetRemoteAddress e.2) address) (map_to_list (connections_ c)).

(** [handles] are the handles that the library gives, by address; [wall] is the time of day
    ([Timestamp::Now]), which the times of attempts use, and [now] the clock of the connections. *)
Fixpoint connect_loop (l : list PeerItem) (handles : InetAddress → option Z) (now wall : Z) (s : PeerNetwork) : PeerNetwork :=
  match l with
  | [] => s
  | item :: l =>
      let address := InetAddress_of (pi_ip item) (u16 (pi_port item)) in
      if remote_exists (conns s) address then connect_loop l handles now wall s
      else if is_local_addr address then connect_loop l handles now wall s
      else
        let failures := i64 (num_failures item + 1) in
        let s := Connect s address (handles address) now in
        let values := mkItem (ToIp address) (sin_port address) failures (i64 (wall + failures * 10 * 1000000)) (-1) 0 in
        let s := set_table (UpdateItem (table s) address values).1 s in
        if target_peer_connection_ cfg <=? Z.of_nat (base.size (connections_ (conns s))) then s else connect_loop l handles now wall s
  end.

Definition ConnectToPeers (s : PeerNetwork) (max : Z) (handles : InetAddress → option Z) (now wall : Z) : PeerNetwork :=
  let '(t, row_count, records) := QueryTopItem (table s) false max wall in
  let s := set_table t s in
  if row_count <? 0 then s else connect_loop records handles now wall s.

Definition ResolveSeeds (t : PeerTable) : PeerTable := foldl (λ t a, (CreatePeerIfNotExist t a).1) t (known_peers cfg).

Definition net_OnTimer (s : PeerNetwork) (handles : InetAddress → option Z) (now wall : Z) : PeerNetwork :=
  if dns_seed_inited_ s then
    let con_size := Z.of_nat (base.size (connections_ (conns s))) in
    let s := if con_size <? target_peer_connection_ cfg then ConnectToPeers s (target_peer_connection_ cfg - con_size) handles now wall else s in
    let s := set_table (CleanNotActivePeers (table s)) s in
    set_broadcast (Broadcast.OnTimer (broadcast_ s) now) (ledger_upgrade_ s) s
  else mkNet (conns s) (ResolveSeeds (table s)) (db_peer_cache_ s) (last_update_peercache_time_ s) true (broadcast_ s) (ledger_upgrade_ s).

(** ** The list of active peers, for a peer that came in *)

Definition GetActivePeers (s : PeerNetwork) (max cur_time : Z) : PeerNetwork :=
  if Nat.eqb (length (db_peer_cache_ s)) 0 || (last_update_peercache_time_ s =? 0) ||
     (10 * 1000000 <? i64 (cur_time - last_update_peercache_time_ s)) then
    let '(t, row_count, peers) := QueryTopItem (table s) true max (-1) in
    mkNet (conns s) t (if row_count <? 0 then [] else peers) cur_time (dns_seed_inited_ s) (broadcast_ s) (ledger_upgrade_ s)
  else s.

(** The task of [PostSendPeers]. *)
Definition send_peers_task (s : PeerNetwork) (peer_id cur_time : Z) : PeerNetwork * list net_out :=
  let s := GetActivePeers s 50 cur_time in
  match GetConnection (conns s) peer_id with
  | Some p => if IsActive p then (set_conns (put_peer (sent_request p) (conns s)) s, [SendPeers peer_id (db_peer_cache_ s)]) else (s, [])
  | None => (s, [])
  end.

(** ** Start *)

Definition new_Conns : Conns := mkConns ∅ ∅ ∅ [] 0 0.

(** The constructor and [Initialize]; the genesis block is there. *)
Definition net_Initialize (db : KeyValueDb) : PeerNetwork :=
  mkNet new_Conns (ResetPeerInActive (max_connection_ cfg) (mkTable db 0)).1 [] 0 false new_Broadcast new_UpgradeState.
End network.
