(* ===== verification/PeerNetworkInv.v ===== *)
(** * The invariant of the overlay network

    What holds of the connections and of the table of peers between two steps of the event
    loop, and that the members of [PeerNetwork] keep it. *)
From stdpp Require Import base gmap list sorting strings relations.
From Stdlib Require Import ZArith Lia.
From S2P Require Import Prelude Pbft KVTrie SafeInt Strings Account LedgerMsg LedgerFrm LedgerCommit ChainMsg UpgradeVote Broadcast Flood PeerTable PeerNetwork.
Local Open Scope Z_scope.

(** An address of a machine. *)
Definition inet_ok (a : InetAddress) : Prop := 0 < sin_addr a < 2 ^ 32 ∧ 0 ≤ sin_port a < 2 ^ 16.
Definition in_range (t : Z) : Prop := 0 ≤ t < 2 ^ 62.

(** The text of an address is read back ([inet_ntoa], [inet_addr]). *)
Class InetLaws `{PeerCodec} := {
  inet_back a : 0 ≤ a < 2 ^ 32 → Resolve (inet_ntoa a) = Some a;
  inet_range ip a : Resolve ip = Some a → 0 ≤ a < 2 ^ 32 }.

Section invariant.
Context {PC : PeerCodec} {PL : PeerCodecLaws} {IL : InetLaws} (cfg : P2pConfigure).

Definition addr_key (a : InetAddress) : bytes * Z := (ToIp a, sin_port a).

(** A connection on its own. *)
Record peer_ok (p : Peer) : Prop := {
  po_address : inet_ok (peer_address_ p);
  po_start : 0 ≤ connect_start_time_ p ≤ last_receive_time_ p;
  po_receive : last_receive_time_ p < 2 ^ 62;
  po_hello : IsActive p = true → node_address_ cfg ≠ peer_node_address_ (peer_info_ p) ∧ 0 < peer_listen_port_ (peer_info_ p) ≤ 65535 }.

(** The connections at the time [T]. *)
Record conns_ok (T : Z) (c : Conns) : Prop := {
  co_id i p : connections_ c !! i = Some p → id_ p = i ∧ 0 ≤ i < next_id_ c;
  co_handle i p : connections_ c !! i = Some p → connection_handles_ c !! handle_ p = Some i;
  co_handles h i : connection_handles_ c !! h = Some i → ∃ p, connections_ c !! i = Some p ∧ handle_ p = h;
  co_peer i p : connections_ c !! i = Some p → peer_ok p;
  co_unique i j p q : connections_ c !! i = Some p → connections_ c !! j = Some q → IsActive p = true → IsActive q = true →
    peer_node_address_ (peer_info_ p) = peer_node_address_ (peer_info_ q) → i = j;
  co_fresh i p : connections_ c !! i = Some p → IsActive p = false → last_check_time c ≤ connect_start_time_ p + 10 * 1000000;
  co_start i p : connections_ c !! i = Some p → connect_start_time_ p ≤ T;
  co_delete t i : connections_delete_ c !! t = Some i → 0 ≤ i < next_id_ c ∧ connections_ c !! i = None ∧ i ∉ deleted c;
  co_delete_once t t' i : connections_delete_ c !! t = Some i → connections_delete_ c !! t' = Some i → t = t';
  co_deleted i : i ∈ deleted c → 0 ≤ i < next_id_ c ∧ connections_ c !! i = None;
  co_next : 0 ≤ next_id_ c;
  co_time : 0 ≤ last_check_time c ≤ T ∧ T < 2 ^ 62 }.

(** A record of the table: it has the address of a machine, and if it is marked as active then
    the connection that it names is there, active and to that address. *)
Definition item_ok (r : PeerItem) : Prop := ∃ a, inet_ok a ∧ item_key r = addr_key a.

Definition item_live (m : gmap Z Peer) (r : PeerItem) : Prop := 0 < active_time r →
  num_failures r = 0 ∧ ∃ p, m !! connection_id r = Some p ∧ IsActive p = true ∧ addr_key (GetRemoteAddress p) = item_key r.

Record items_ok (m : gmap Z Peer) (l : list PeerItem) : Prop := {
  io_list : list_ok (max_connection_ cfg) l;
  io_item r : r ∈ l → item_ok r;
  io_live r : r ∈ l → item_live m r }.

Definition net_ok (T : Z) (s : PeerNetwork) : Prop :=
  conns_ok T (conns s) ∧ ∃ l, table_is (table s) l ∧ items_ok (connections_ (conns s)) l.

Lemma conns_later T T' c : conns_ok T c → T ≤ T' < 2 ^ 62 → conns_ok T' c.
Proof. intros [] HT. split; try done; [|lia]. intros i p E. apply co_start0 in E. lia. Qed.

Lemma net_later T T' s : net_ok T s → T ≤ T' < 2 ^ 62 → net_ok T' s.
Proof. intros [Hc Ht] HT. split; [by eapply conns_later|done]. Qed.

(** ** Changes of one connection that do not matter *)

Record same_peer (p p' : Peer) : Prop := {
  sp_id : id_ p' = id_ p; sp_handle : handle_ p' = handle_ p; sp_bound : in_bound_ p' = in_bound_ p;
  sp_address : peer_address_ p' = peer_address_ p; sp_start : connect_start_time_ p' = connect_start_time_ p;
  sp_active : active_time_ p' = active_time_ p; sp_info : peer_info_ p' = peer_info_ p;
  sp_receive : connect_start_time_ p ≤ last_receive_time_ p' < 2 ^ 62 }.

Lemma same_active p p' : same_peer p p' → IsActive p' = IsActive p.
Proof. intros Hs. unfold IsActive. by rewrite (sp_active _ _ Hs). Qed.

Lemma same_remote p p' : same_peer p p' → GetRemoteAddress p' = GetRemoteAddress p.
Proof. intros Hs. unfold GetRemoteAddress. by rewrite (sp_bound _ _ Hs), (sp_address _ _ Hs), (sp_info _ _ Hs). Qed.

Lemma same_peer_ok p p' : same_peer p p' → peer_ok p → peer_ok p'.
Proof.
  intros Hs [H1 H2 H3 H4]. pose proof (sp_receive _ _ Hs). split; [by rewrite (sp_address _ _ Hs)|rewrite (sp_start _ _ Hs); lia|lia|].
  by rewrite (same_active _ _ Hs), (sp_info _ _ Hs).
Qed.

Lemma same_peer_refl p : peer_ok p → same_peer p p.
Proof. intros [H1 H2 H3 H4]. split; try done. lia. Qed.

Lemma same_peer_trans p q r : same_peer p q → same_peer q r → same_peer p r.
Proof. intros H1 H2. destruct H1, H2. split; first [etransitivity; [eassumption|eassumption]|lia]. Qed.

(** Maps with the same connections up to this. *)
Definition same_conns (m m' : gmap Z Peer) : Prop := map_relation (λ _ p p', same_peer p p') (λ _ _, False) (λ _ _, False) m m'.

Lemma same_lookup m m' i p' : same_conns m m' → m' !! i = Some p' → ∃ p, m !! i = Some p ∧ same_peer p p'.
Proof. intros Hs E. specialize (Hs i). rewrite E in Hs. destruct (m !! i) as [p|]; [by exists p|done]. Qed.

Lemma same_lookup_l m m' i p : same_conns m m' → m !! i = Some p → ∃ p', m' !! i = Some p' ∧ same_peer p p'.
Proof. intros Hs E. specialize (Hs i). rewrite E in Hs. destruct (m' !! i) as [p'|]; [by exists p'|done]. Qed.

Lemma same_none m m' i : same_conns m m' → m !! i = None ↔ m' !! i = None.
Proof. intros Hs. specialize (Hs i). by destruct (m !! i), (m' !! i). Qed.

Definition with_connections (m : gmap Z Peer) (c : Conns) : Conns :=
  mkConns m (connection_handles_ c) (connections_delete_ c) (deleted c) (next_id_ c) (last_check_time c).

Lemma same_conns_ok T c m : conns_ok T c → same_conns (connections_ c) m → conns_ok T (with_connections m c).
Proof.
  intros [] Hs. split; cbn; try done.
  - intros i p E. destruct (same_lookup _ _ _ _ Hs E) as (q & Eq & Hq). rewrite (sp_id _ _ Hq). by apply co_id0.
  - intros i p E. destruct (same_lookup _ _ _ _ Hs E) as (q & Eq & Hq). rewrite (sp_handle _ _ Hq). by apply co_handle0.
  - intros h i E. destruct (co_handles0 _ _ E) as (q & Eq & <-). destruct (same_lookup_l _ _ _ _ Hs Eq) as (p & E' & Hp). exists p. by rewrite (sp_handle _ _ Hp).
  - intros i p E. destruct (same_lookup _ _ _ _ Hs E) as (q & Eq & Hq). eapply same_peer_ok; [done|by eapply co_peer0].
  - intros i j p q Ei Ej. destruct (same_lookup _ _ _ _ Hs Ei) as (p0 & Ep & Hp), (same_lookup _ _ _ _ Hs Ej) as (q0 & Eq & Hq).
    rewrite (same_active _ _ Hp), (same_active _ _ Hq), (sp_info _ _ Hp), (sp_info _ _ Hq). by apply co_unique0.
  - intros i p E. destruct (same_lookup _ _ _ _ Hs E) as (q & Eq & Hq). rewrite (same_active _ _ Hq), (sp_start _ _ Hq). by eapply co_fresh0.
  - intros i p E. destruct (same_lookup _ _ _ _ Hs E) as (q & Eq & Hq). rewrite (sp_start _ _ Hq). by eapply co_start0.
  - intros t i E. destruct (co_delete0 _ _ E) as (H1 & H2 & H3). split_and!; [lia|lia| |done]. by apply (same_none _ _ _ Hs).
  - intros i E. destruct (co_deleted0 _ E) as (H1 & H2). split; [done|]. by apply (same_none _ _ _ Hs).
Qed.

Lemma same_items_ok m m' l : items_ok m l → same_conns m m' → items_ok m' l.
Proof.
  intros [H1 H2 H3] Hs. split; [done|done|]. intros r Hr Ha. destruct (H3 r Hr Ha) as [Hf (p & Ep & Hp & Ek)]. split; [done|].
  destruct (same_lookup_l _ _ _ _ Hs Ep) as (p' & Ep' & Hsp). exists p'. by rewrite (same_active _ _ Hsp), (same_remote _ _ Hsp).
Qed.

Lemma same_net_ok T s m : net_ok T s → same_conns (connections_ (conns s)) m → net_ok T (set_conns (with_connections m (conns s)) s).
Proof.
  intros [Hc (l & Ht & Hl)] Hs. split; [by apply same_conns_ok|]. exists l. split; [done|]. by eapply same_items_ok.
Qed.

Lemma put_same m i p p' : m !! i = Some p → (∀ j q, m !! j = Some q → peer_ok q) → same_peer p p' → same_conns m (<[i := p']> m).
Proof.
  intros E Hm Hs j. destruct (decide (i = j)) as [<-|Hne]; [by rewrite E, lookup_insert_eq|rewrite lookup_insert_ne by done].
  destruct (m !! j) eqn:Ej; cbn; [|done]. by eapply same_peer_refl, Hm.
Qed.

(** Touching one connection. *)
Lemma touch_ok T s i p p' : net_ok T s → GetConnection (conns s) i = Some p → same_peer p p' → net_ok T (set_conns (put_peer p' (conns s)) s).
Proof.
  intros Hn E Hs. unfold GetConnection in E. change (put_peer p' (conns s)) with (with_connections (<[id_ p' := p']> (connections_ (conns s))) (conns s)).
  apply same_net_ok; [done|]. destruct Hn as [Hc _]. destruct (co_id _ _ Hc _ _ E) as [<- _]. rewrite (sp_id _ _ Hs).
  eapply put_same; [done|apply Hc|done].
Qed.

(** ** New connections *)

Lemma new_peer_ok id hdl inb a now : inet_ok a → in_range now → peer_ok (new_Peer id hdl inb a now).
Proof. intros Ha [H1 H2]. split; cbn; [done|lia|lia|done]. Qed.

Lemma items_grow m i p l : items_ok m l → m !! i = None → items_ok (<[i := p]> m) l.
Proof.
  intros [H1 H2 H3] Hn. split; [done|done|]. intros r Hr Ha. destruct (H3 r Hr Ha) as [Hf (q & Eq & R)]. split; [done|]. exists q.
  rewrite lookup_insert_ne; [by split|]. intros Ei. by rewrite <- Ei, Hn in Eq.
Qed.

Lemma conns_add T c p : conns_ok T c → id_ p = next_id_ c → connection_handles_ c !! handle_ p = None → peer_ok p → IsActive p = false →
  T ≤ connect_start_time_ p < 2 ^ 62 → next_id_ c + 1 < 2 ^ 63 → conns_ok (connect_start_time_ p) (add_connection p c).
Proof.
  intros Hc Ei Hh Hp Ha Ht Hr. destruct (co_time _ _ Hc) as [T1 T2].
  assert (connections_ c !! next_id_ c = None) as Hn.
  { destruct (connections_ c !! next_id_ c) as [q|] eqn:E; [|done]. apply (co_id _ _ Hc) in E. lia. }
  pose proof (co_next _ _ Hc) as H0. destruct Hc. unfold add_connection, insert_new. rewrite Ei, Hn, Hh. split; cbn [connections_ connection_handles_ connections_delete_ deleted next_id_ last_check_time]; rewrite ?i64_small by lia; try lia.
  - intros i q [[<- <-]|[_ E]]%lookup_insert_Some; [lia|]. apply co_id0 in E. lia.
  - intros i q [[<- <-]|[Hne E]]%lookup_insert_Some; [by rewrite lookup_insert_eq|]. rewrite lookup_insert_ne; [by apply co_handle0|].
    intros Eh. apply co_handle0 in E. by rewrite <- Eh, Hh in E.
  - intros h i [[<- <-]|[_ E]]%lookup_insert_Some; [exists p; by rewrite lookup_insert_eq|].
    destruct (co_handles0 _ _ E) as (q & Eq & <-). exists q. rewrite lookup_insert_ne; [done|]. intros <-. by rewrite Eq in Hn.
  - intros i q [[<- <-]|[_ E]]%lookup_insert_Some; [done|by eapply co_peer0].
  - intros i j q q' [[<- <-]|[Hi E]]%lookup_insert_Some; [by rewrite Ha|]. intros [[<- <-]|[Hj E']]%lookup_insert_Some; [by rewrite Ha|by eapply co_unique0].
  - intros i q [[<- <-]|[_ E]]%lookup_insert_Some Hq; [lia|by eapply co_fresh0].
  - intros i q [[<- <-]|[_ E]]%lookup_insert_Some; [lia|]. apply co_start0 in E. lia.
  - intros t i E. destruct (co_delete0 _ _ E) as (H1 & H2 & H3). split_and!; [lia|lia| |done]. rewrite lookup_insert_ne; [done|lia].
  - done.
  - intros i E. destruct (co_deleted0 _ E) as (H1 & H2). split; [lia|]. rewrite lookup_insert_ne; [done|lia].
Qed.

Lemma add_ok T s hdl inb a now : net_ok T s → connection_handles_ (conns s) !! hdl = None → inet_ok a → T ≤ now < 2 ^ 62 →
  next_id_ (conns s) + 1 < 2 ^ 63 → net_ok now (set_conns (add_connection (new_Peer (next_id_ (conns s)) hdl inb a now) (conns s)) s).
Proof.
  intros [Hc (l & Ht & Hl)] Hh Ha HT Hr. destruct (co_time _ _ Hc) as [T1 T2]. split.
  - apply (conns_add T _ (new_Peer _ hdl inb a now)); try done. apply new_peer_ok; [done|]. unfold in_range. lia.
  - exists l. split; [done|]. cbn. unfold insert_new.
    destruct (connections_ (conns s) !! next_id_ (conns s)) eqn:E; [done|]. by apply items_grow.
Qed.

(** ** Removing a connection *)

Lemma conns_remove T c p now : conns_ok T c → connections_ c !! id_ p = Some p → conns_ok T (RemoveConnection p now c).
Proof.
  intros Hc E. pose proof Hc as []. split; cbn [connections_ connection_handles_ connections_delete_ deleted next_id_ last_check_time RemoveConnection]; try done.
  - intros i q [_ Eq]%lookup_delete_Some. by apply co_id0.
  - intros i q [Hne Eq]%lookup_delete_Some. rewrite lookup_delete_ne; [by apply co_handle0|]. intros Eh.
    apply co_handle0 in Eq. apply co_handle0 in E. rewrite Eh, Eq in E. by injection E.
  - intros h i [Hne Eh]%lookup_delete_Some. destruct (co_handles0 _ _ Eh) as (q & Eq & <-). exists q. rewrite lookup_delete_ne; [done|].
    intros <-. rewrite E in Eq. by injection Eq as <-.
  - intros i q [_ Eq]%lookup_delete_Some. by eapply co_peer0.
  - intros i j q q' [_ Ei]%lookup_delete_Some [_ Ej]%lookup_delete_Some. by eapply co_unique0.
  - intros i q [_ Eq]%lookup_delete_Some. by eapply co_fresh0.
  - intros i q [_ Eq]%lookup_delete_Some. by eapply co_start0.
  - intros t i Et. assert (i = id_ p ∨ connections_delete_ c !! t = Some i) as [->|Et'].
    { unfold insert_new in Et. destruct (connections_delete_ c !! _); [by right|]. apply lookup_insert_Some in Et as [[_ <-]|[_ Et]]; auto. }
    + split_and!; [by apply (co_id0 _ _ E)..|by rewrite lookup_delete_eq|]. intros Hd. apply co_deleted0 in Hd as [_ Hd]. by rewrite E in Hd.
    + destruct (co_delete0 _ _ Et') as (H1 & H2 & H3). split_and!; [lia|lia| |done]. by rewrite lookup_delete_None; right.
  - assert (∀ t i, connections_delete_ c !! t = Some i → i ≠ id_ p) as Hnew.
    { intros t i Et ->. apply co_delete0 in Et as (_ & Et & _). by rewrite E in Et. }
    intros t t' i Et Et'. unfold insert_new in Et, Et'. destruct (connections_delete_ c !! _); [by eapply co_delete_once0|].
    apply lookup_insert_Some in Et as [[<- <-]|[_ Et]]; apply lookup_insert_Some in Et' as [[<- Ei]|[_ Et']]; [done|by apply Hnew in Et'|by subst i; apply Hnew in Et|by eapply co_delete_once0].
  - intros i Hd. destruct (co_deleted0 _ Hd) as [H1 H2]. split; [done|]. by rewrite lookup_delete_None; right.
Qed.

Lemma items_drop_inactive m l p : items_ok m l → m !! id_ p = Some p → IsActive p = false → items_ok (delete (id_ p) m) l.
Proof.
  intros [H1 H2 H3] E Ha. split; [done|done|]. intros r Hr Hact. destruct (H3 r Hr Hact) as [Hf (q & Eq & Hq & Ek)]. split; [done|]. exists q.
  rewrite lookup_delete_ne; [done|]. intros Ei. rewrite <- Ei, E in Eq. injection Eq as <-. by rewrite Ha in Hq.
Qed.

Lemma item_at_key a r : item_at a r = true ↔ item_key r = addr_key a.
Proof. unfold item_at, item_key, addr_key. rewrite bool_decide_eq_true. split; [by intros [-> ->]|by intros [= -> ->]]. Qed.

Lemma items_disconnect m l p : items_ok m l → m !! id_ p = Some p →
  items_ok (delete (id_ p) m) (disconnect_item (GetRemoteAddress p) (id_ p) <$> l).
Proof.
  intros [H1 H2 H3] E. split; [by apply disconnect_list_ok| |].
  - intros r (r0 & -> & Hr)%list_elem_of_fmap. destruct (H2 r0 Hr) as (a & Ha & Ek). exists a. unfold disconnect_item. by destruct (_ && _).
  - intros r (r0 & -> & Hr)%list_elem_of_fmap. unfold disconnect_item. destruct (item_at (GetRemoteAddress p) r0 && (connection_id r0 =? id_ p)) eqn:Eb.
    { unfold item_live. cbn. lia. }
    intros Ha. destruct (H3 r0 Hr Ha) as [Hf (q & Eq & Hq & Ek)]. split; [done|]. exists q. rewrite lookup_delete_ne; [done|].
    intros Ei. rewrite <- Ei, E in Eq. injection Eq as <-. rewrite <- Ei, Z.eqb_refl, andb_true_r in Eb. by rewrite (proj2 (item_at_key _ _) (eq_sym Ek)) in Eb.
Qed.

(** With [OnDisconnect] any connection can be removed, without it one that is not active. *)
Lemma disconnect_ok T s p now : net_ok T s → connections_ (conns s) !! id_ p = Some p →
  net_ok T (set_conns (RemoveConnection p now (conns (OnDisconnect p s))) (OnDisconnect p s)).
Proof.
  intros [Hc (l & Ht & Hl)] E. split; [by apply conns_remove|]. eexists. split; [by apply Disconnect_is|]. by apply items_disconnect.
Qed.

Lemma remove_ok T s p now : net_ok T s → connections_ (conns s) !! id_ p = Some p → IsActive p = false →
  net_ok T (set_conns (RemoveConnection p now (conns s)) s).
Proof.
  intros [Hc (l & Ht & Hl)] E Ha. split; [by apply conns_remove|]. exists l. split; [done|]. by apply items_drop_inactive.
Qed.

Lemma hdl_lookup T s hdl p : net_ok T s → GetConnection_hdl (conns s) hdl = Some p → GetConnection (conns s) (id_ p) = Some p ∧ handle_ p = hdl.
Proof.
  intros [Hc _] E. unfold GetConnection_hdl in E. apply bind_Some in E as (i & Eh & E). destruct (co_handles _ _ Hc _ _ Eh) as (q & Eq & Hh).
  rewrite E in Eq. injection Eq as <-. destruct (co_id _ _ Hc _ _ E) as [Ei _]. unfold GetConnection. by rewrite Ei.
Qed.

(** ** The members that only touch connections *)

Lemma touch_same T c i p now : conns_ok T c → connections_ c !! i = Some p → T ≤ now < 2 ^ 62 → same_peer p (TouchReceiveTime now p).
Proof. intros Hc E Hn. pose proof (co_start _ _ Hc _ _ E). split; try done. cbn. lia. Qed.

Lemma connect_same T c i p now : conns_ok T c → connections_ c !! i = Some p → T ≤ now < 2 ^ 62 → same_peer p (SetConnectTime now p).
Proof. intros Hc E Hn. pose proof (co_start _ _ Hc _ _ E). split; try done. cbn. lia. Qed.

Lemma sent_same p : peer_ok p → same_peer p (sent_request p).
Proof. intros [H1 H2 H3 H4]. split; try done. cbn. lia. Qed.

Lemma ping_same p now : peer_ok p → same_peer p (sent_ping now p).
Proof. intros [H1 H2 H3 H4]. split; try done. cbn. lia. Qed.

Lemma sent_ok T s i p : net_ok T s → GetConnection (conns s) i = Some p → net_ok T (set_conns (put_peer (sent_request p) (conns s)) s).
Proof. intros Hn E. eapply touch_ok; [done|done|]. apply sent_same. exact (co_peer _ _ (proj1 Hn) _ _ E). Qed.

Lemma send_requests_ok T l : ∀ s, net_ok T s → net_ok T (send_requests s l).1.
Proof.
  induction l as [|r l IH]; intros s Hs; cbn [send_requests]; [done|].
  assert (net_ok T (net_SendRequest s r).1) as H1.
  { unfold net_SendRequest. destruct (GetConnection _ _) eqn:E; [|done]. destruct (IsActive _); [|done]. by eapply sent_ok. }
  revert H1. destruct (net_SendRequest s r) as [s1 o]. intros H1%IH. revert H1. by destruct (send_requests _ l).
Qed.

Lemma broadcast_set_ok T s b up : net_ok T s → net_ok T (set_broadcast b up s).
Proof. done. Qed.

(** ** The table *)

Lemma inet_ok_any a : inet_ok a → IsAny a = false.
Proof. intros [H _]. unfold IsAny. apply Z.eqb_neq. lia. Qed.

Lemma items_update m l a record : items_ok m l → inet_ok a → item_key record = addr_key a → item_live m record →
  (∀ r, r ∈ l → item_key r = addr_key a → item_live m (update_fields record r)) →
  items_ok m (default l (update_list (max_connection_ cfg) a record l)).
Proof.
  intros [H1 H2 H3] Ha Hk Hrec Hup. split; [by apply update_list_ok| |].
  all: intros r; unfold update_list; destruct (Nat.eqb_spec (length (filter (λ r, matches a r = true) l)) 0) as [E0|E0];
    cbn [andb]; rewrite ?(inet_ok_any a Ha); cbn [negb].
  1,3: rewrite update_none by (by apply none_match); destruct (CheckPeerPoolValid _ _ l) as [l'|] eqn:Ec; cbn; [|by auto];
    apply pool_valid in Ec as (Hs & _); [|apply H1]; intros [Hr| ->%list_elem_of_singleton]%elem_of_app.
  - apply H2. by eapply elem_of_sublist.
  - by exists a.
  - apply H3. by eapply elem_of_sublist.
  - done.
  - cbn. intros (r0 & -> & Hr)%list_elem_of_fmap. destruct (H2 r0 Hr) as (b & Hb & Ek). exists b. by destruct (matches a r0).
  - cbn. intros (r0 & -> & Hr)%list_elem_of_fmap. destruct (matches a r0) eqn:Em; [|by apply H3].
    apply Hup; [done|]. by apply matches_key; [apply inet_ok_any|].
Qed.

Lemma items_create m l a : items_ok m l → 0 ≤ sin_addr a < 2 ^ 32 → 0 ≤ sin_port a < 2 ^ 16 → items_ok m (create_list (max_connection_ cfg) a l).
Proof.
  intros Hl Ha Hp. unfold create_list. destruct (IsAny a) eqn:Ea; [done|]. cbn [orb]. destruct (sin_port a =? 0); [done|]. cbn [orb].
  destruct (Nat.eqb_spec (length (filter (λ r, item_at a r = true) l)) 0) as [E|E]; [|done]. cbn [negb].
  assert (inet_ok a) as Hi by (split; [unfold IsAny in Ea; apply Z.eqb_neq in Ea; lia|done]).
  apply items_update; [done|done|done|unfold item_live; cbn; lia|].
  intros r Hr Ek. apply item_at_key in Ek. assert (r ∈ filter (λ r, item_at a r = true) l) as Hin by (by apply list_elem_of_filter).
  apply nil_length_inv in E. rewrite E in Hin. by apply elem_of_nil in Hin.
Qed.

Lemma table_create_ok T s a : net_ok T s → 0 ≤ sin_addr a < 2 ^ 32 → 0 ≤ sin_port a < 2 ^ 16 →
  net_ok T (set_table (CreatePeerIfNotExist (max_connection_ cfg) (table s) a).1 s).
Proof.
  intros [Hc (l & Ht & Hl)] Ha Hp. split; [done|]. eexists. split; [by apply CreatePeer_is|]. by apply items_create.
Qed.

Lemma u16_range z : 0 ≤ u16 z < 2 ^ 16.
Proof. unfold u16. apply Z.mod_pos_bound. lia. Qed.

Lemma inet_of_range ip port : 0 ≤ sin_addr (InetAddress_of ip port) < 2 ^ 32 ∧ 0 ≤ sin_port (InetAddress_of ip port) < 2 ^ 16.
Proof. split; [|apply u16_range]. cbn. destruct (Resolve ip) eqn:E; cbn; [by eapply inet_range|lia]. Qed.

Lemma create_peers_ok T l : ∀ s, net_ok T s → net_ok T (set_table (create_peers cfg (table s) l) s).
Proof.
  induction l as [|r l IH]; intros s Hs; cbn [create_peers]; [by destruct s|].
  destruct (_ && _); [by apply IH|]. destruct (inet_of_range (pi_ip r) (u16 (pi_port r))) as [H1 H2].
  apply (IH (set_table (CreatePeerIfNotExist (max_connection_ cfg) (table s) (InetAddress_of (pi_ip r) (u16 (pi_port r)))).1 s)). by apply table_create_ok.
Qed.

(** ** A greeting *)

(** A connection that is not active may change what it knows of its peer, and become active. *)
Lemma items_activate m l i p p' : items_ok m l → m !! i = Some p → IsActive p = false → items_ok (<[i := p']> m) l.
Proof.
  intros [H1 H2 H3] E Ha. split; [done|done|]. intros r Hr Hact. destruct (H3 r Hr Hact) as [Hf (q & Eq & Hq & Ek)]. split; [done|]. exists q.
  rewrite lookup_insert_ne; [done|]. intros Ei. rewrite <- Ei, E in Eq. injection Eq as <-. by rewrite Ha in Hq.
Qed.

Record greeted (p p' : Peer) : Prop := {
  gr_id : id_ p' = id_ p; gr_handle : handle_ p' = handle_ p; gr_bound : in_bound_ p' = in_bound_ p;
  gr_address : peer_address_ p' = peer_address_ p; gr_start : connect_start_time_ p' = connect_start_time_ p }.

Lemma conns_greet T c i p p' : conns_ok T c → connections_ c !! i = Some p → IsActive p = false → greeted p p' → peer_ok p' →
  (IsActive p' = true → ∀ j q, connections_ c !! j = Some q → j ≠ i → peer_node_address_ (peer_info_ q) ≠ peer_node_address_ (peer_info_ p')) →
  conns_ok T (put_peer p' c).
Proof.
  intros Hc E Ha Hg Hp Hu. pose proof Hc as []. destruct (co_id0 _ _ E) as [Ei Hi].
  split; cbn [connections_ connection_handles_ connections_delete_ deleted next_id_ last_check_time put_peer]; try done; rewrite (gr_id _ _ Hg), Ei.
  - intros j q [[<- <-]|[_ Eq]]%lookup_insert_Some; [by rewrite (gr_id _ _ Hg)|by apply co_id0].
  - intros j q [[<- <-]|[_ Eq]]%lookup_insert_Some; [rewrite (gr_handle _ _ Hg)|]; by apply co_handle0.
  - intros h j Eh. destruct (co_handles0 _ _ Eh) as (q & Eq & <-). destruct (decide (i = j)) as [<-|Hne].
    + exists p'. rewrite lookup_insert_eq. rewrite E in Eq. injection Eq as <-. by rewrite (gr_handle _ _ Hg).
    + exists q. by rewrite lookup_insert_ne.
  - intros j q [[<- <-]|[_ Eq]]%lookup_insert_Some; [done|by eapply co_peer0].
  - intros j k q q' [[<- <-]|[Hj Eq]]%lookup_insert_Some [[<- <-]|[Hk Eq']]%lookup_insert_Some A1 A2 En; [done|..|by eapply co_unique0].
    + destruct (Hu A1 k q' Eq'); [done|done].
    + destruct (Hu A2 j q Eq); [done|done].
  - intros j q [[<- <-]|[_ Eq]]%lookup_insert_Some Hq; [rewrite (gr_start _ _ Hg)|]; by eapply co_fresh0.
  - intros j q [[<- <-]|[_ Eq]]%lookup_insert_Some; [rewrite (gr_start _ _ Hg)|]; by eapply co_start0.
  - intros t j Et. destruct (co_delete0 _ _ Et) as (H1 & H2 & H3). split_and!; [lia|lia| |done]. rewrite lookup_insert_ne; [done|]. intros <-. by rewrite E in H2.
  - intros j Hd. destruct (co_deleted0 _ Hd) as (H1 & H2). split; [done|]. rewrite lookup_insert_ne; [done|]. intros <-. by rewrite E in H2.
Qed.

(** The handlers of messages keep the invariant and the handles. *)
Definition handled (T : Z) (s s' : PeerNetwork) : Prop :=
  net_ok T s' ∧ connection_handles_ (conns s') = connection_handles_ (conns s).

Lemma node_new c a i j q : NodeExist c a i = false → connections_ c !! j = Some q → id_ q ≠ i → peer_node_address_ (peer_info_ q) ≠ a.
Proof.
  intros E Ej Hne Ha. unfold NodeExist in E.
  assert (existsb (λ e, bool_decide (peer_node_address_ (peer_info_ e.2) = a) && negb (id_ e.2 =? i)) (map_to_list (connections_ c)) = true) as Hx; [|by rewrite Hx in E].
  apply existsb_exists. exists (j, q). split; [by apply list_elem_of_In, elem_of_map_to_list|]. cbn. rewrite (bool_decide_eq_true_2 _ Ha). cbn.
  by apply negb_true_iff, Z.eqb_neq.
Qed.

Lemma greeted_info h p : greeted p (SetPeerInfo h p).
Proof. done. Qed.

Lemma info_peer_ok h p : peer_ok p → IsActive p = false → peer_ok (SetPeerInfo h p).
Proof. intros [H1 H2 H3 H4] Ha. split; try done. unfold IsActive in *. cbn. by rewrite Ha. Qed.

Lemma hello_checked h : hello_ok cfg h = true → node_address_ cfg ≠ hl_node_address h ∧ 0 < hl_listening_port h ≤ 65535.
Proof.
  unfold hello_ok. intros E. apply andb_true_iff in E as [E E5%Z.leb_le]. apply andb_true_iff in E as [E E4%Z.ltb_lt].
  apply andb_true_iff in E as [E _]. apply andb_true_iff in E as [_ E2%bool_decide_eq_true]. by split.
Qed.

Lemma remote_ok p : inet_ok (peer_address_ p) → inet_ok (GetRemoteAddress p).
Proof. intros [H1 H2]. unfold GetRemoteAddress. destruct (in_bound_ p); [|done]. split; [done|apply u16_range]. Qed.

Lemma put_put p q c : id_ p = id_ q → put_peer p (put_peer q c) = put_peer p c.
Proof. intros E. unfold put_peer. cbn. by rewrite E, insert_insert_eq. Qed.

(** An active connection and its record. *)
Lemma activate_ok T s i p p' : net_ok T s → connections_ (conns s) !! i = Some p → IsActive p = false → greeted p p' → peer_ok p' → 0 < active_time_ p' →
  (∀ j q, connections_ (conns s) !! j = Some q → j ≠ i → peer_node_address_ (peer_info_ q) ≠ peer_node_address_ (peer_info_ p')) →
  ∀ t l, table_is t l → items_ok (connections_ (conns s)) l →
  net_ok T (set_table (UpdateItem (max_connection_ cfg) t (GetRemoteAddress p') (active_item p' i)).1 (set_conns (put_peer p' (conns s)) s)).
Proof.
  intros [Hc _] E Ha Hg Hp Hact Hu t l Ht Hl. destruct (co_id _ _ Hc _ _ E) as [Ei Hi]. split; [by eapply conns_greet|].
  eexists. split; [by apply UpdateItem_is|]. cbn [conns set_table set_conns connections_ put_peer]. rewrite (gr_id _ _ Hg), Ei.
  assert (IsActive p' = true) as Hact' by (unfold IsActive; by apply Z.ltb_lt).
  apply items_update; [by eapply items_activate|apply remote_ok, Hp|done|..].
  - intros _. split; [done|]. exists p'. by rewrite lookup_insert_eq.
  - intros r Hr Ek _. unfold update_fields. cbn [num_failures connection_id active_item item_key pi_ip pi_port]. rewrite (proj2 (Z.leb_le 0 i)) by lia.
    split; [done|]. exists p'. rewrite lookup_insert_eq. split_and!; [done|done|by rewrite <- Ek].
Qed.

Lemma OnMethodHello_ok `{NetCodec} T s data id now : net_ok T s → T ≤ now < 2 ^ 62 → 0 < now → handled T s (OnMethodHello cfg s data id now).1.1.
Proof.
  intros Hn HT Hpos. unfold OnMethodHello. destruct (GetConnection (conns s) id) as [p|] eqn:E; [|done].
  destruct (IsActive p) eqn:Ha; [done|]. unfold GetConnection in E. pose proof Hn as [Hc (l & Ht & Hl)]. destruct (co_id _ _ Hc _ _ E) as [Ei Hi].
  pose proof (co_peer _ _ Hc _ _ E) as Hp. set (h := ParseHello data). set (p1 := SetPeerInfo h p).
  assert (net_ok T (set_conns (put_peer p1 (conns s)) s)) as Hn1.
  { split; [eapply conns_greet; [done|done|done|done|by apply info_peer_ok|]|].
    - unfold IsActive in *. cbn. by rewrite Ha.
    - exists l. split; [done|]. cbn. rewrite Ei. by eapply items_activate. }
  destruct (NodeExist (conns (set_conns (put_peer p1 (conns s)) s)) (hl_node_address h) (id_ p1)) eqn:Ex; [done|].
  destruct (hello_ok cfg h) eqn:Eh; [|done]. cbn [negb]. destruct (hello_checked h Eh) as [Hown Hport].
  assert (∀ j q, connections_ (conns s) !! j = Some q → j ≠ id → peer_node_address_ (peer_info_ q) ≠ hl_node_address h) as Hu.
  { intros j q Ej Hne. eapply node_new; [exact Ex| |].
    - cbn. rewrite lookup_insert_ne; [done|]. by rewrite Ei.
    - destruct (co_id _ _ Hc _ _ Ej) as [<- _]. cbn. by rewrite Ei. }
  assert (∀ q, q = SetActiveTime now p1 ∨ q = sent_request (SetActiveTime now p1) → greeted p q ∧ peer_ok q ∧ active_time_ q = now ∧ peer_node_address_ (peer_info_ q) = hl_node_address h) as Hq.
  { destruct Hp as [P1 P2 P3 P4]. by intros q [->| ->]; split_and!; try done; split. }
  assert (net_ok T s) as _ by done.
  change (in_bound_ (SetActiveTime now p1)) with (in_bound_ p). destruct (in_bound_ p) eqn:Eb; cbn [fst snd].
  - destruct (Hq (sent_request (SetActiveTime now p1)) (or_intror eq_refl)) as (G1 & G2 & G3 & G4). split; [|done].
    cbn [set_conns conns table]. rewrite put_put by done.
    eapply (activate_ok T s id p); [done|done|done|done|done|by rewrite G3|by rewrite G4|by apply CreatePeer_is|].
    destruct (remote_ok (SetActiveTime now p1) (po_address _ Hp)) as [R1 R2]. apply items_create; [done|lia|done].
  - destruct (Hq (SetActiveTime now p1) (or_introl eq_refl)) as (G1 & G2 & G3 & G4). split; [|done].
    cbn [set_conns conns table]. rewrite put_put by done.
    eapply (activate_ok T s id p); [done|done|done|done|done|by rewrite G3|by rewrite G4|done|done].
Qed.
End invariant.
