(* ===== verification/PeerNetworkRun.v ===== *)
(** * Runs of the overlay network

    Every step of the event loop and of the timers keeps the invariant of [PeerNetworkInv];
    the objects of connections are deleted once. *)
From stdpp Require Import base gmap list sorting strings relations.
From Stdlib Require Import ZArith Lia.
From S2P Require Import Prelude Pbft KVTrie SafeInt Strings Account LedgerMsg LedgerFrm LedgerCommit ChainMsg UpgradeVote Broadcast Flood PeerTable PeerNetwork PeerNetworkInv.
Local Open Scope Z_scope.

Section run.
Context {LH : LedgerHost} {PC : PeerCodec} {PL : PeerCodecLaws} {IL : InetLaws} {NC : NetCodec}.
Context (SerUpgrade : LedgerUpgrade → bytes) (self_chain : Z) (cfg : P2pConfigure).

Local Abbreviation net_ok := (net_ok cfg).
Local Abbreviation handled := (handled cfg).
Local Abbreviation dispatch := (dispatch SerUpgrade self_chain cfg).
Local Abbreviation OnMessage := (OnMessage SerUpgrade self_chain cfg).

Lemma send_requests_handles l : ∀ s, connection_handles_ (conns (send_requests s l).1) = connection_handles_ (conns s).
Proof.
  induction l as [|r l IH]; intros s; cbn [send_requests]; [done|].
  assert (connection_handles_ (conns (net_SendRequest s r).1) = connection_handles_ (conns s)) as <-.
  { unfold net_SendRequest. destruct (GetConnection _ _); [|done]. by destruct (IsActive _). }
  destruct (net_SendRequest s r) as [s1 o]. cbn [fst]. rewrite <- (IH s1). by destruct (send_requests s1 l).
Qed.

Lemma send_handled T s b up l : net_ok T s → handled T s (send_requests (set_broadcast b up s) l).1.
Proof. intros Hs. split; [by apply (send_requests_ok cfg T l (set_broadcast b up s))|exact (send_requests_handles l (set_broadcast b up s))]. Qed.

Lemma BroadcastMsg_handled T s type data now : net_ok T s → handled T s (BroadcastMsg s type data now).1.
Proof. intros Hs. unfold BroadcastMsg. destruct (Send _ _ _ _ _ _) as [b l]. by apply send_handled. Qed.

Lemma relay_task_ok T s accepted type data id now : net_ok T s → net_ok T (relay_task s accepted type data id now).1.
Proof.
  intros Hs. unfold relay_task. destruct accepted; [|done]. unfold ReceiveBroadcastMsg. destruct (Add _ _ _ _ _ _) as [b f].
  by apply (BroadcastMsg_handled T (set_broadcast b _ s)).
Qed.

(** A message never faults, on a connection that is there. *)
Lemma dispatch_ok T s validators m id now sends p : net_ok T s → GetConnection (conns s) id = Some p → T ≤ now < 2 ^ 62 → 0 < now →
  ∃ s' o ok, dispatch s validators m id now sends = Ok (s', o, ok) ∧ handled T s s'.
Proof.
  intros Hs E HT Hpos. unfold PeerNetwork.dispatch. assert (handled T s s) as Hsame by done. pose proof (proj1 Hs) as Hc.
  destruct (ws_request m).
  - destruct (_ =? _).
    { unfold OnRequestPing. rewrite E. destruct (PingParses _); by do 3 eexists. }
    destruct (_ =? _).
    { pose proof (OnMethodHello_ok cfg T s (ws_data m) id now Hs HT Hpos) as Hh. destruct (OnMethodHello cfg s (ws_data m) id now) as [[s' o] ok]. by exists s', o, ok. }
    destruct (_ =? _).
    { unfold OnMethodPeers. rewrite E. destruct (IsActive p); [|by do 3 eexists]. do 3 eexists. split; [done|]. split; [|done]. by apply create_peers_ok. }
    destruct (_ =? _).
    { unfold OnMethodTransaction. destruct (_ <? _); [by do 3 eexists|]. destruct (IsQueued _ _ _ _); [by do 3 eexists|]. destruct (negb _); by do 3 eexists. }
    destruct (_ =? _); [by do 3 eexists|]. destruct (_ =? _).
    { unfold OnMethodPbft. destruct (_ <? _); [by do 3 eexists|]. destruct (PbftSigner _); [|by do 3 eexists].
      destruct (_ <? _); [by do 3 eexists|]. destruct (IsQueued _ _ _ _); by do 3 eexists. }
    destruct (_ =? _); [|by do 3 eexists].
    unfold net_LedgerUpNotify. destruct (OnMethodLedgerUpNotify _ _ _ _ _ _ _ _ _ _ _) as [[[ok b] up] l].
    pose proof (send_handled T s b up l Hs) as Hh. destruct (send_requests (set_broadcast b up s) l) as [s' o]. by exists s', o, ok.
  - destruct (_ =? _).
    { unfold OnResponsePing. rewrite E. destruct (PingParses _); [|by do 3 eexists]. do 3 eexists. split; [done|]. split; [|done].
      eapply touch_ok; [done|done|]. by eapply touch_same. }
    destruct (_ =? _); [by do 3 eexists|]. destruct (_ =? _); [|by do 3 eexists].
    unfold OnMethodHelloResponse. rewrite E. by do 3 eexists.
Qed.

Lemma OnMessage_ok T s validators hdl m now later sends : net_ok T s → T ≤ now ≤ later → later < 2 ^ 62 → 0 < now →
  ∃ s' o, OnMessage s validators hdl m now later sends = Ok (s', o) ∧ net_ok later s'.
Proof.
  intros Hs HT Hl Hpos. unfold PeerNetwork.OnMessage. destruct (GetConnection_hdl (conns s) hdl) as [p|] eqn:E.
  2: { do 2 eexists. split; [done|]. eapply net_later; [exact Hs|lia]. }
  destruct (hdl_lookup cfg T s hdl p Hs E) as [Ei Eh]. set (s1 := set_conns (put_peer (TouchReceiveTime now p) (conns s)) s).
  assert (net_ok T s1) as Hs1 by (eapply touch_ok; [done|done|eapply touch_same; [apply Hs|done|lia]]).
  destruct (dispatch_ok T s1 validators m (id_ p) now sends (TouchReceiveTime now p)) as (s2 & o & ok & Ed & Hs2 & Hh); [done| |lia|done|].
  { unfold GetConnection. cbn. by rewrite lookup_insert_eq. }
  rewrite Ed. cbn [mbind res_bind]. assert (net_ok later s2) as Hs2' by (eapply net_later; [exact Hs2|lia]).
  destruct ok; [by do 2 eexists|].
  assert (connection_handles_ (conns s2) !! hdl = Some (id_ p)) as Ehdl.
  { rewrite Hh. cbn. rewrite <- Eh. by eapply (co_handle _ _ _ (proj1 Hs)). }
  destruct (co_handles _ _ _ (proj1 Hs2) _ _ Ehdl) as (q & Eq & Hq). unfold GetConnection_hdl. rewrite Ehdl. cbn [mbind option_bind]. rewrite Eq.
  unfold GetConnection. cbn [conns OnDisconnect set_table]. rewrite Eq. do 2 eexists. split; [done|]. apply disconnect_ok; [done|].
  by destruct (co_id _ _ _ (proj1 Hs2) _ _ Eq) as [-> _].
Qed.

(** ** Opening and closing *)

Lemma OnOpen_ok T s hdl remote now later : net_ok T s → connection_handles_ (conns s) !! hdl = None → inet_ok remote →
  next_id_ (conns s) + 1 < 2 ^ 63 → T ≤ now ≤ later → later < 2 ^ 62 → net_ok later (OnOpen cfg s hdl remote now later).1.
Proof.
  intros Hs Hh Hr Hroom HT Hl. unfold OnOpen. set (p := new_Peer _ hdl true remote now). set (s1 := set_conns _ s).
  assert (net_ok later s1) as Hs1 by (eapply net_later; [apply (add_ok cfg T); [done..|lia|done]|lia]).
  unfold OnConnectOpen. destruct (_ <? _); [done|]. cbn [fst]. apply remove_ok; [done| |done].
  cbn. unfold insert_new. destruct (connections_ (conns s) !! next_id_ (conns s)) as [q|] eqn:E; [|by rewrite lookup_insert_eq].
  destruct (co_id _ _ _ (proj1 Hs) _ _ E). lia.
Qed.

Lemma OnClose_ok T s hdl now : net_ok T s → net_ok T (OnClose s hdl now).1.
Proof.
  intros Hs. unfold OnClose. destruct (GetConnection_hdl (conns s) hdl) as [p|] eqn:E; [|done].
  destruct (hdl_lookup cfg T s hdl p Hs E) as [Ei _]. by apply disconnect_ok.
Qed.

Lemma OnClientOpen_ok T s hdl now later : net_ok T s → (∀ p, GetConnection_hdl (conns s) hdl = Some p → IsActive p = false) →
  T ≤ now ≤ later → later < 2 ^ 62 → net_ok later (OnClientOpen cfg s hdl now later).1.
Proof.
  intros Hs Hin HT Hl. unfold OnClientOpen. destruct (GetConnection_hdl (conns s) hdl) as [p|] eqn:E; [|eapply net_later; [exact Hs|lia]].
  destruct (hdl_lookup cfg T s hdl p Hs E) as [Ei _]. set (p1 := SetConnectTime now p). set (s1 := set_conns (put_peer p1 (conns s)) s).
  assert (same_peer p p1) as Hp1 by (eapply connect_same; [apply Hs|exact Ei|lia]).
  assert (net_ok later s1) as Hs1 by (eapply net_later; [by eapply touch_ok|lia]).
  assert (connections_ (conns s1) !! id_ p1 = Some p1) as E1 by (cbn; by rewrite lookup_insert_eq).
  unfold OnConnectOpen. destruct (_ <? _); [|cbn [fst]; apply remove_ok; [done|done|by rewrite (same_active _ _ Hp1), Hin]].
  destruct (in_bound_ p1); [done|]. by eapply sent_ok.
Qed.

Lemma OnPong_ok T s hdl now : net_ok T s → T ≤ now < 2 ^ 62 → net_ok T (OnPong s hdl now).
Proof.
  intros Hs HT. unfold OnPong. destruct (GetConnection_hdl (conns s) hdl) as [p|] eqn:E; [|done].
  destruct (hdl_lookup cfg T s hdl p Hs E) as [Ei _]. eapply touch_ok; [done|done|]. eapply touch_same; [apply Hs|exact Ei|lia].
Qed.

Lemma send_peers_ok T s id now : net_ok T s → net_ok T (send_peers_task s id now).1.
Proof.
  intros Hs. unfold send_peers_task. assert (net_ok T (GetActivePeers s 50 now)) as Hg.
  { unfold GetActivePeers. destruct (_ || _); [|done]. destruct Hs as [Hc (l & Ht & Hl)].
    destruct (QueryTopItem_is (table s) l true 50 (-1) Ht) as (t & rs & Ht' & -> & _). split; [done|by exists l]. }
  destruct (GetConnection _ _) eqn:E; [|done]. destruct (IsActive _); [|done]. by eapply sent_ok.
Qed.

(** ** The check of the connections *)

Lemma timer_fails now p : OnNetworkTimer now p = false → IsActive p = false ∧ 10 * 1000000 < i64 (now - connect_start_time_ p).
Proof. unfold OnNetworkTimer. intros E%negb_false_iff%andb_true_iff. destruct E as [E1%negb_true_iff E2%Z.ltb_lt]. done. Qed.

(** Not both reasons to remove a connection. *)
Lemma not_both now clk p : peer_ok cfg p → in_range clk → (IsActive p = false → clk ≤ connect_start_time_ p + connect_time_out_) →
  IsDataExpired connect_time_out_ clk p = true → OnNetworkTimer now p = true.
Proof.
  intros Hp Hc Ht He. destruct (OnNetworkTimer now p) eqn:E; [done|]. apply timer_fails in E as [Ea _]. specialize (Ht Ea).
  unfold IsDataExpired in He. apply andb_true_iff in He as [_ He%Z.ltb_lt]. destruct Hp as [_ H1 H2 _]. unfold in_range in Hc. rewrite i64_small in He by lia. lia.
Qed.

Lemma ping_peer_same clk n p : peer_ok cfg p → same_peer p (ping_peer clk n p).1.1 ∧ connect_end_time_ (ping_peer clk n p).1.1 = connect_end_time_ p.
Proof. intros Hp. unfold ping_peer. destruct (NeedPing _ _ _); cbn; [by split; [eapply ping_same|]|by split; [eapply same_peer_refl|]]. Qed.

Record scanned (l : list (Z * Peer)) (now : Z) (c c' : Conns) (del : list Peer) : Prop := {
  sc_rest : c' = with_connections (connections_ c') c;
  sc_others j : j ∉ l.*1 → connections_ c' !! j = connections_ c !! j;
  sc_same i p : (i, p) ∈ l → ∃ p', connections_ c' !! i = Some p' ∧ same_peer p p' ∧ (OnNetworkTimer now p' = false → p' ∈ del);
  sc_del p : p ∈ del → id_ p ∈ l.*1 ∧ connections_ c' !! id_ p = Some p;
  sc_once : NoDup (id_ <$> del) }.

Lemma scan_ok l now clk : (∀ k, in_range (clk k)) → ∀ n c,
  (∀ i p, (i, p) ∈ l → id_ p = i ∧ peer_ok cfg p ∧ (IsActive p = false → ∀ k, clk k ≤ connect_start_time_ p + connect_time_out_)) → NoDup l.*1 →
  let '(c', _, del, _) := scan l now clk n c in scanned l now c c' del.
Proof.
  intros Hclk. induction l as [|[i p] l IH]; intros n c Hl Hd; cbn [scan].
  { split; [by destruct c|done|by intros i p ?%elem_of_nil|by intros p ?%elem_of_nil|constructor]. }
  destruct (Hl i p ltac:(by left)) as (Ei & Hp & Ht). apply list.NoDup_cons in Hd as [Hi Hd].
  destruct (ping_peer_same clk n p Hp) as [Hsp _]. destruct (ping_peer clk n p) as [[p1 o] n1]. cbn [fst] in Hsp.
  pose proof (same_peer_ok _ _ _ Hsp Hp) as Hp1.
  set (ex := if IsDataExpired connect_time_out_ (clk n1) p1 then [p1] else []). set (fa := if OnNetworkTimer now p1 then [] else [p1]).
  assert (ex ++ fa = [] ∧ OnNetworkTimer now p1 = true ∨ ex ++ fa = [p1]) as Hone.
  { unfold ex, fa. destruct (IsDataExpired connect_time_out_ (clk n1) p1) eqn:E1.
    - right. rewrite (not_both now (clk n1) p1); [done|done|done| |done]. rewrite (same_active _ _ Hsp), (sp_start _ _ Hsp). auto.
    - destruct (OnNetworkTimer now p1) eqn:E2; [by left|by right]. }
  specialize (IH (if 0 <? connect_end_time_ p1 then S n1 else n1) (put_peer p1 c) (λ j q Hq, Hl j q (list_elem_of_further _ _ _ Hq)) Hd).
  destruct (scan l now clk _ (put_peer p1 c)) as [[[c' o'] del] n'] eqn:Es. destruct IH as [I1 I2 I3 I4 I5].
  assert (id_ p1 = i) as Ei1 by (rewrite (sp_id _ _ Hsp); done).
  assert (connections_ c' !! i = Some p1) as E1 by (rewrite I2 by done; cbn; by rewrite Ei1, lookup_insert_eq).
  split.
  - rewrite I1. by destruct c.
  - intros j [Hj Hjl]%not_elem_of_cons. rewrite I2 by done. cbn. rewrite lookup_insert_ne; [done|]. rewrite Ei1. cbn in Hj. congruence.
  - intros j q [[= -> ->]|Hq]%elem_of_cons.
    + exists p1. split_and!; [done|done|]. intros Ef. rewrite app_assoc. apply elem_of_app. left.
      destruct Hone as [[_ Ht']|Ho]; [by rewrite Ht' in Ef|]. rewrite Ho. by left.
    + destruct (I3 j q Hq) as (q' & H1 & H2 & H3). exists q'. split_and!; [done|done|]. intros Ef. rewrite app_assoc. apply elem_of_app. right. by apply H3.
  - intros q. rewrite app_assoc. intros [Hq|Hq]%elem_of_app.
    + destruct Hone as [[Ho _]|Ho]; rewrite Ho in Hq; [by apply elem_of_nil in Hq|]. apply list_elem_of_singleton in Hq as ->. rewrite Ei1. split; [by left|done].
    + destruct (I4 q Hq) as [H1 H2]. split; [by right|done].
  - rewrite app_assoc, fmap_app. apply NoDup_app. split_and!; [| |done].
    + destruct Hone as [[-> _]| ->]; [constructor|apply NoDup_singleton].
    + intros j Hj (q & -> & Hq)%list_elem_of_fmap. destruct (I4 q Hq) as [H1 _]. apply Hi. cbn.
      destruct Hone as [[Ho _]|Ho]; rewrite Ho in Hj; [by apply elem_of_nil in Hj|]. apply list_elem_of_singleton in Hj. rewrite <- Ei1, <- Hj. done.
Qed.

Lemma remove_list_ok T clk del : ∀ n s, net_ok T s → NoDup (id_ <$> del) → (∀ p, p ∈ del → connections_ (conns s) !! id_ p = Some p) →
  net_ok T (remove_list del clk n s) ∧
  (∀ i p, connections_ (conns (remove_list del clk n s)) !! i = Some p → connections_ (conns s) !! i = Some p ∧ i ∉ (id_ <$> del)) ∧
  last_check_time (conns (remove_list del clk n s)) = last_check_time (conns s).
Proof.
  induction del as [|p del IH]; intros n s Hs Hd Hdel; cbn [remove_list].
  { split_and!; [done| |done]. intros i p E. split; [done|apply not_elem_of_nil]. }
  apply list.NoDup_cons in Hd as [Hp Hd]. set (s1 := set_conns _ _).
  assert (net_ok T s1) as Hs1 by (apply disconnect_ok; [done|apply Hdel; by left]).
  destruct (IH (S n) s1 Hs1 Hd) as (H1 & H2 & H3).
  { intros q Hq. cbn. rewrite lookup_delete_ne; [apply Hdel; by right|]. intros Ei. apply Hp. rewrite Ei. by apply list_elem_of_fmap_2. }
  split_and!; [done| |by rewrite H3]. intros i q E. apply H2 in E as [E Hn]. cbn in E. apply lookup_delete_Some in E as [Hi E].
  split; [done|]. apply not_elem_of_cons. by split.
Qed.

Lemma erase_ok T c t i : conns_ok cfg T c → connections_delete_ c !! t = Some i → (i ∉ deleted c) ∧ conns_ok cfg T (erase_deleted t i c).
Proof.
  intros Hc E. pose proof (co_delete _ _ _ Hc) as D1. pose proof (co_delete_once _ _ _ Hc) as D2. pose proof (co_deleted _ _ _ Hc) as D3.
  destruct (D1 _ _ E) as (H1 & H2 & H3). split; [done|]. destruct Hc.
  split; cbn [connections_ connection_handles_ connections_delete_ deleted next_id_ last_check_time erase_deleted]; try done.
  - intros t' j [Ht Ej]%lookup_delete_Some. destruct (D1 _ _ Ej) as (J1 & J2 & J3). split_and!; [lia|lia|done|].
    apply not_elem_of_cons. split; [|done]. intros ->. apply Ht. by eapply D2.
  - intros t1 t2 j [_ E1]%lookup_delete_Some [_ E2]%lookup_delete_Some. by eapply D2.
  - intros j [->|Hj]%elem_of_cons; [done|by apply D3].
Qed.

(** Nothing is deleted twice. *)
Lemma purge_ok T now l : ∀ c, conns_ok cfg T c → NoDup l.*1 → (∀ t i, (t, i) ∈ l → connections_delete_ c !! t = Some i) →
  ∃ c', purge l now c = Ok c' ∧ conns_ok cfg T c' ∧ connections_ c' = connections_ c ∧ last_check_time c' = last_check_time c.
Proof.
  induction l as [|[t i] l IH]; intros c Hc Hd Hl; cbn [purge]; [by exists c|]. apply list.NoDup_cons in Hd as [Ht Hd].
  assert (connections_delete_ c !! t = Some i) as E by (apply Hl; by left). destruct (erase_ok T c t i Hc E) as [Hn He].
  destruct (t <? now).
  - rewrite decide_False by done. destruct (IH (erase_deleted t i c)) as (c' & E' & H1 & H2 & H3); [done|done| |by exists c'].
    intros t' j Hj. cbn. rewrite lookup_delete_ne; [apply Hl; by right|]. intros ->. apply Ht. by apply (list_elem_of_fmap_2 fst) in Hj.
  - apply IH; [done|done|]. intros t' j Hj. apply Hl. by right.
Qed.

Lemma checked_ok T c now : conns_ok cfg T c → T ≤ now < 2 ^ 62 → (∀ i p, connections_ c !! i = Some p → OnNetworkTimer now p = true) →
  conns_ok cfg now (set_last_check now c).
Proof.
  intros Hc HT Ht. destruct (co_time _ _ _ Hc). pose proof (conns_later cfg T now c Hc HT) as Hc'.
  pose proof (co_start _ _ _ Hc') as C1. pose proof (co_peer _ _ _ Hc') as C2. destruct Hc'.
  split; cbn [connections_ connection_handles_ connections_delete_ deleted next_id_ last_check_time set_last_check]; try done; [|lia].
  intros i p E Ha. specialize (Ht i p E). unfold OnNetworkTimer in Ht. rewrite Ha in Ht. cbn in Ht. apply negb_true_iff, Z.ltb_ge in Ht.
  pose proof (C1 _ _ E). destruct (C2 _ _ E) as [_ Hst _ _]. rewrite i64_small in Ht by lia. lia.
Qed.

Lemma check_sets_time s now clk s' o : check_connections s now clk = Ok (s', o) → 1000000 < i64 (now - last_check_time (conns s)) →
  last_check_time (conns s') = now.
Proof.
  intros E Hgap. unfold check_connections in E. rewrite (proj2 (Z.ltb_lt _ _) Hgap) in E.
  destruct (scan _ now clk 0 (conns s)) as [[[c o'] del] n]. destruct (purge _ now _) as [c'|]; [|done]. by injection E as <- _.
Qed.

(** The check is on time: the previous one was at most fifty seconds ago or, as at the first,
    no connection has waited for its greeting for more than sixty seconds. *)
Definition on_time (c : Conns) (clk : nat → Z) : Prop :=
  (∀ k, clk k ≤ last_check_time c + 50 * 1000000) ∨
  (∀ i p k, connections_ c !! i = Some p → IsActive p = false → clk k ≤ connect_start_time_ p + connect_time_out_).

Lemma check_ok T s now clk : net_ok T s → T ≤ now < 2 ^ 62 → (∀ k, now ≤ clk k < 2 ^ 62) → on_time (conns s) clk →
  ∃ s' o, check_connections s now clk = Ok (s', o) ∧ net_ok now s'.
Proof.
  intros Hs HT Hclk Hgap. unfold check_connections. destruct (_ <? _).
  2: { do 2 eexists. split; [done|]. by eapply net_later. }
  pose proof (scan_ok (in_key_order (connections_ (conns s))) now clk) as Hscan.
  destruct Hs as [Hc Ht]. destruct (co_time _ _ _ Hc) as [T1 T2].
  specialize (Hscan (λ k, ltac:(unfold in_range; specialize (Hclk k); lia)) 0%nat (conns s)).
  destruct (scan _ now clk 0 (conns s)) as [[[c o] del] n]. destruct Hscan as [S1 S2 S3 S4 S5].
  { intros i p E%elem_of_in_key_order. split_and!; [by apply (co_id _ _ _ Hc)|by eapply (co_peer _ _ _ Hc)|].
    intros Ha k. destruct Hgap as [Hgap|Hgap]; [|by eapply Hgap]. pose proof (co_fresh _ _ _ Hc _ _ E Ha). specialize (Hgap k). unfold connect_time_out_. lia. }
  { apply in_key_order_keys. }
  assert (same_conns (connections_ (conns s)) (connections_ c)) as Hsame.
  { intros j. destruct (connections_ (conns s) !! j) as [p|] eqn:E.
    - destruct (S3 j p) as (p' & -> & Hsp & _); [by apply elem_of_in_key_order|]. done.
    - rewrite S2, E; [done|]. intros ([j' p] & -> & Hin)%list_elem_of_fmap. apply elem_of_in_key_order in Hin. cbn in E. by rewrite Hin in E. }
  assert (net_ok T (set_conns c s)) as Hs1 by (rewrite S1; apply same_net_ok; [by split|done]).
  destruct (remove_list_ok T clk del n (set_conns c s) Hs1 S5) as (R1 & R2 & R3); [by intros p Hp; apply S4|].
  set (s2 := remove_list del clk n (set_conns c s)) in *.
  destruct (purge_ok T now (in_key_order (connections_delete_ (conns s2))) (conns s2) (proj1 R1)) as (c3 & -> & P1 & P2 & P3);
    [apply in_key_order_keys|by intros t i; rewrite elem_of_in_key_order|].
  cbn [mbind res_bind]. do 2 eexists. split; [done|]. split.
  - apply (checked_ok T); [done|done|]. intros i p E. cbn in E. rewrite P2 in E. apply R2 in E as [E Hn].
    destruct (same_lookup _ _ _ _ Hsame E) as (q & Eq & _). destruct (S3 i q) as (p' & Ep & _ & Hf); [by apply elem_of_in_key_order|].
    cbn in E. rewrite E in Ep. injection Ep as <-. destruct (OnNetworkTimer now p) eqn:Et; [done|]. destruct Hn.
    pose proof (Hf eq_refl) as Hin. apply (list_elem_of_fmap_2 id_) in Hin. destruct (co_id _ _ _ Hc _ _ Eq) as [Ei _].
    specialize (S4 p (Hf eq_refl)) as [_ Ep]. destruct (co_id _ _ _ (proj1 Hs1) _ _ E) as [<- _]. done.
  - destruct R1 as [_ (l & Hl1 & Hl2)]. exists l. split; [done|]. cbn. by rewrite P2.
Qed.

(** ** The timer *)

Definition item_address (r : PeerItem) : InetAddress := InetAddress_of (pi_ip r) (u16 (pi_port r)).

Lemma u16_small z : 0 ≤ z < 2 ^ 16 → u16 z = z.
Proof. intros. by apply Z.mod_small. Qed.

Lemma address_back a : inet_ok a → InetAddress_of (ToIp a) (sin_port a) = a.
Proof.
  intros [H1 H2]. unfold InetAddress_of, ToIp. rewrite inet_back by lia. cbn. rewrite u16_small by done. by destruct a.
Qed.

Lemma item_address_ok r : item_ok r → inet_ok (item_address r) ∧ addr_key (item_address r) = item_key r.
Proof.
  intros (a & Ha & Ek). injection Ek as E1 E2. unfold item_address. rewrite E1, E2. pose proof Ha as [_ Hp]. rewrite u16_small by done.
  fold (ToIp a). rewrite address_back by done. split; [done|]. unfold item_key. by rewrite E1, E2.
Qed.

Lemma insert_failures_perm r l : insert_failures r l ≡ₚ r :: l.
Proof. induction l as [|x l IH]; cbn [insert_failures]; [done|]. destruct (_ <? _); [done|]. rewrite IH. apply perm_swap. Qed.

Lemma by_failures_perm l : by_failures l ≡ₚ l.
Proof.
  unfold by_failures. assert (∀ k, foldl (λ l r, insert_failures r l) k l ≡ₚ k ++ l) as ->; [|done].
  induction l as [|x l IH]; intros k; cbn [foldl]; [by rewrite app_nil_r|]. rewrite IH, insert_failures_perm. cbn. apply Permutation_middle.
Qed.

(** The library gives every address a handle of its own, which is not in use. *)
Definition fresh_handles (c : Conns) (l : list PeerItem) (handles : InetAddress → option Z) : Prop :=
  (∀ r h, r ∈ l → handles (item_address r) = Some h → connection_handles_ c !! h = None) ∧
  (∀ a b h, handles a = Some h → handles b = Some h → a = b).

(** The records that are to be tried are in the table, and are not marked as active. *)
Definition idle_in (l L : list PeerItem) : Prop := ∀ r, r ∈ l → ∃ r', r' ∈ L ∧ item_key r' = item_key r ∧ active_time r' ≤ 0.

(** A failed attempt is noted. *)
Definition attempt_item (item : PeerItem) (now : Z) : PeerItem :=
  let a := item_address item in let f := i64 (num_failures item + 1) in
  mkItem (ToIp a) (sin_port a) f (i64 (now + f * 10 * 1000000)) (-1) 0.

Lemma attempt_ok m L item now l : items_ok cfg m L → idle_in (item :: l) L → item_ok item →
  let L' := default L (update_list (max_connection_ cfg) (item_address item) (attempt_item item now) L) in
  items_ok cfg m L' ∧ idle_in l L'.
Proof.
  intros HL Hidle Hi. destruct (item_address_ok item Hi) as [Ha Ek].
  destruct (Hidle item ltac:(by left)) as (r0 & Hr0 & Ek0 & Hact0).
  assert (∀ r, r ∈ L → item_key r = item_key item → r = r0) as Huniq.
  { intros r Hr Er. pose proof (lo_keys _ _ (io_list _ _ _ HL)) as Hd.
    apply list_elem_of_lookup in Hr as (i & Hi1), Hr0 as (j & Hj). assert (i = j) as <-.
    { eapply (NoDup_lookup (item_key <$> L)); [exact Hd|rewrite list_lookup_fmap, Hi1; done|]. rewrite list_lookup_fmap, Hj. cbn. by rewrite Ek0, Er. }
    rewrite Hi1 in Hj. by injection Hj. }
  split.
  - apply items_update; [done|done|done|unfold item_live; cbn; lia|]. intros r Hr Er Hact. rewrite (Huniq r Hr) in Hact by (by rewrite Er). cbn in Hact. lia.
  - assert (update_list (max_connection_ cfg) (item_address item) (attempt_item item now) L =
      Some ((λ r, if matches (item_address item) r then update_fields (attempt_item item now) r else r) <$> L)) as ->.
    { unfold update_list. destruct (Nat.eqb_spec (length (filter (λ r, matches (item_address item) r = true) L)) 0) as [E0|]; [|done].
      pose proof (none_match _ _ E0 r0 Hr0) as Hm. rewrite (proj2 (matches_key _ r0 (inet_ok_any _ Ha))) in Hm; [done|]. by rewrite Ek0, <- Ek. }
    cbn. intros r Hr. destruct (Hidle r ltac:(by right)) as (r' & Hr' & Ek' & Hact'). eexists. split; [by apply list_elem_of_fmap_2|].
    by destruct (matches (item_address item) r').
Qed.

Lemma connect_loop_ok now wall handles l : ∀ s L, net_ok now s → table_is (table s) L → items_ok cfg (connections_ (conns s)) L → in_range now →
  idle_in l L → (∀ r, r ∈ l → item_ok r) → NoDup (item_key <$> l) → fresh_handles (conns s) l handles → next_id_ (conns s) + Z.of_nat (length l) < 2 ^ 63 →
  net_ok now (connect_loop cfg l handles now wall s).
Proof.
  induction l as [|item l IH]; intros s L Hs Ht HL Hn Hidle Hok Hd [Hf1 Hf2] Hroom; cbn [connect_loop]; [done|].
  fold (item_address item). assert (idle_in l L) as Hidle' by (intros r Hr; apply Hidle; by right).
  assert (∀ r, r ∈ l → item_ok r) as Hok' by (intros r Hr; apply Hok; by right). apply list.NoDup_cons in Hd as [Hi Hd]. cbn [length] in Hroom.
  assert (fresh_handles (conns s) l handles) as Hf by (split; [intros r h Hr; apply Hf1; by right|done]).
  destruct (remote_exists _ _); [eapply IH; try done; lia|]. destruct (is_local_addr _ _); [eapply IH; try done; lia|].
  destruct (Hok item ltac:(by left)) as (a0 & Ha0 & Ek0). destruct (item_address_ok item ltac:(by exists a0)) as [Ha Ek].
  fold (attempt_item item wall). set (s1 := Connect s (item_address item) (handles (item_address item)) now).
  assert (net_ok now s1 ∧ table s1 = table s ∧ items_ok cfg (connections_ (conns s1)) L ∧ fresh_handles (conns s1) l handles ∧
    next_id_ (conns s1) + Z.of_nat (length l) < 2 ^ 63) as (Hs1 & Et1 & HL1 & Hf1' & Hroom1).
  { unfold s1, Connect. destruct (handles (item_address item)) as [h|] eqn:Eh; [|split_and!; try done; lia].
    assert (connection_handles_ (conns s) !! h = None) as Hh by (eapply Hf1; [by left|done]). rewrite address_back by done.
    pose proof (co_next _ _ _ (proj1 Hs)) as H0. unfold in_range in Hn.
    split_and!; [apply (add_ok cfg now); try done; lia|done| |split; [|done]|].
    - cbn. unfold insert_new. destruct (connections_ (conns s) !! next_id_ (conns s)) eqn:E; [done|]. by apply items_grow.
    - intros r h' Hr Eh'. cbn. unfold insert_new. rewrite Hh. rewrite lookup_insert_ne; [by eapply Hf|]. intros <-.
      apply Hi. apply list_elem_of_fmap. exists r. split; [|done]. rewrite <- Ek. destruct (item_address_ok r (Hok' r Hr)) as [_ <-]. by rewrite (Hf2 _ _ _ Eh Eh').
    - cbn. rewrite i64_small by lia. lia. }
  rewrite <- Et1 in Ht. set (s2 := set_table _ s1).
  destruct (attempt_ok _ L item wall l HL1 Hidle ltac:(by exists a0)) as [HL2 Hidle2].
  assert (table_is (table s2) (default L (update_list (max_connection_ cfg) (item_address item) (attempt_item item wall) L))) as Ht2 by (by apply UpdateItem_is).
  assert (net_ok now s2) as Hs2 by (split; [apply Hs1|eexists; by split]).
  destruct (_ <=? _); [done|]. eapply IH; try done.
Qed.

(** The configured peers are addresses. *)
Definition known_ok : Prop := ∀ a, a ∈ known_peers cfg → 0 ≤ sin_addr a < 2 ^ 32 ∧ 0 ≤ sin_port a < 2 ^ 16.

Lemma seeds_ok T l : (∀ a, a ∈ l → 0 ≤ sin_addr a < 2 ^ 32 ∧ 0 ≤ sin_port a < 2 ^ 16) → ∀ s, net_ok T s →
  net_ok T (set_table (foldl (λ t a, (CreatePeerIfNotExist (max_connection_ cfg) t a).1) (table s) l) s).
Proof.
  intros Hl. induction l as [|a l IH]; intros s Hs; cbn [foldl]; [by destruct s|]. destruct (Hl a ltac:(by left)) as [H1 H2].
  apply (IH (λ b Hb, Hl b (list_elem_of_further _ _ _ Hb)) (set_table (CreatePeerIfNotExist (max_connection_ cfg) (table s) a).1 s)). by apply table_create_ok.
Qed.

Lemma ConnectToPeers_ok s max handles now wall : net_ok now s → in_range now →
  (∀ a h, handles a = Some h → connection_handles_ (conns s) !! h = None) → (∀ a b h, handles a = Some h → handles b = Some h → a = b) →
  0 ≤ max → next_id_ (conns s) + max < 2 ^ 63 → net_ok now (ConnectToPeers cfg s max handles now wall).
Proof.
  intros Hs Hn Hf1 Hf2 Hmax Hroom. unfold ConnectToPeers. pose proof Hs as [Hc (L & Ht & HL)].
  destruct (QueryTopItem_is (table s) L false max wall Ht) as (t & rs & Ht' & -> & Ers).
  destruct (Z.ltb_spec (Z.of_nat (length rs)) 0); [lia|].
  assert (rs `sublist_of` by_failures L) as Hsub by (rewrite Ers; etransitivity; [apply sublist_take|apply sublist_filter]).
  assert (∀ r, r ∈ rs → r ∈ L ∧ active_time r ≤ 0) as Hin.
  { intros r Hr. split; [rewrite <- by_failures_perm; by eapply elem_of_sublist|]. rewrite Ers in Hr.
    assert (r ∈ filter (λ r, eligible false wall r = true) (by_failures L)) as Hr' by (eapply elem_of_sublist; [exact Hr|apply sublist_take]).
    apply list_elem_of_filter in Hr' as [He _]. unfold eligible in He. apply andb_true_iff in He as [He _]. destruct (Z.ltb_spec 0 (active_time r)); [done|lia]. }
  apply (connect_loop_ok now wall handles rs (set_table t s) L); try done.
  - split; [done|]. by exists L.
  - intros r Hr. destruct (Hin r Hr) as [H1 H2]. by exists r.
  - intros r Hr. apply (io_item _ _ _ HL). by apply Hin.
  - eapply sublist_NoDup; [|apply fmap_sublist, Hsub]. rewrite by_failures_perm. apply HL.
  - split; [|done]. intros r h _. apply Hf1.
  - cbn. assert (length rs ≤ Z.to_nat max)%nat by (rewrite Ers, length_take; lia). lia.
Qed.

Lemma net_OnTimer_ok T s handles now wall : net_ok T s → known_ok → T ≤ now < 2 ^ 62 →
  (∀ a h, handles a = Some h → connection_handles_ (conns s) !! h = None) → (∀ a b h, handles a = Some h → handles b = Some h → a = b) →
  next_id_ (conns s) + target_peer_connection_ cfg < 2 ^ 63 → net_ok now (net_OnTimer cfg s handles now wall).
Proof.
  intros Hs Hk HT Hf1 Hf2 Hroom. assert (net_ok now s) as Hs' by (by eapply net_later). unfold net_OnTimer.
  destruct (co_time _ _ _ (proj1 Hs)) as [H1 H2].
  destruct (dns_seed_inited_ s); [|apply (seeds_ok now (known_peers cfg) Hk s Hs')].
  set (s1 := if _ <? _ then _ else s). assert (net_ok now s1) as [Hc (l & Ht & Hl)].
  { unfold s1. destruct (Z.ltb_spec (Z.of_nat (base.size (connections_ (conns s)))) (target_peer_connection_ cfg)); [|done].
    apply ConnectToPeers_ok; try done; [unfold in_range; lia|lia|lia]. }
  split; [done|]. eexists. split; [by apply Clean_is|]. destruct Hl as [L1 L2 L3]. split; [by apply filter_list_ok|..].
  - intros r [_ Hr]%list_elem_of_filter. by apply L2.
  - intros r [_ Hr]%list_elem_of_filter. by apply L3.
Qed.

(** ** Runs *)

(** One step; the state is paired with the last reading of the clock.  The library gives a new
    connection a handle that is not in use, calls the open handler of a connection before its
    messages, and the check of the event loop is on time. *)
Inductive net_step : Z * PeerNetwork → Z * PeerNetwork → Prop :=
  | st_open T s hdl remote now later : connection_handles_ (conns s) !! hdl = None → inet_ok remote → next_id_ (conns s) + 1 < 2 ^ 63 →
      T ≤ now ≤ later → later < 2 ^ 62 → net_step (T, s) (later, (OnOpen cfg s hdl remote now later).1)
  | st_close T s hdl now : T ≤ now < 2 ^ 62 → net_step (T, s) (now, (OnClose s hdl now).1)
  | st_client T s hdl now later : (∀ p, GetConnection_hdl (conns s) hdl = Some p → IsActive p = false) → T ≤ now ≤ later → later < 2 ^ 62 →
      net_step (T, s) (later, (OnClientOpen cfg s hdl now later).1)
  | st_message T s validators hdl m now later sends s' o : T ≤ now ≤ later → later < 2 ^ 62 → 0 < now →
      OnMessage s validators hdl m now later sends = Ok (s', o) → net_step (T, s) (later, s')
  | st_pong T s hdl now : T ≤ now < 2 ^ 62 → net_step (T, s) (now, OnPong s hdl now)
  | st_relay T s accepted type data id now : T ≤ now < 2 ^ 62 → net_step (T, s) (now, (relay_task s accepted type data id now).1)
  | st_broadcast T s type data now : T ≤ now < 2 ^ 62 → net_step (T, s) (now, (BroadcastMsg s type data now).1)
  | st_peers T s id now : T ≤ now < 2 ^ 62 → net_step (T, s) (now, (send_peers_task s id now).1)
  | st_check T s now clk s' o : T ≤ now < 2 ^ 62 → (∀ k, now ≤ clk k < 2 ^ 62) → on_time (conns s) clk →
      check_connections s now clk = Ok (s', o) → net_step (T, s) (now, s')
  | st_timer T s handles now wall : T ≤ now < 2 ^ 62 → (∀ a h, handles a = Some h → connection_handles_ (conns s) !! h = None) →
      (∀ a b h, handles a = Some h → handles b = Some h → a = b) → next_id_ (conns s) + target_peer_connection_ cfg < 2 ^ 63 →
      net_step (T, s) (now, net_OnTimer cfg s handles now wall).

Lemma net_step_ok x y : known_ok → net_ok x.1 x.2 → net_step x y → net_ok y.1 y.2.
Proof.
  intros Hk Hx Hs. destruct Hs as [T s hdl remote now later|T s hdl now HT|T s hdl now later|T s validators hdl m now later sends s' o HT Hl Hpos E|
    T s hdl now HT|T s accepted type data id now HT|T s type data now HT|T s id now HT|T s now clk s' o HT Hclk Hgap E|T s handles now wall]; cbn [fst snd] in *.
  - by eapply OnOpen_ok.
  - eapply net_later; [by apply OnClose_ok|done].
  - by eapply OnClientOpen_ok.
  - destruct (OnMessage_ok T s validators hdl m now later sends Hx HT Hl Hpos) as (s1 & o1 & E1 & H1). rewrite E1 in E. by injection E as <- _.
  - eapply net_later; [by apply OnPong_ok|done].
  - eapply net_later; [by apply relay_task_ok|done].
  - eapply net_later; [by apply BroadcastMsg_handled|done].
  - eapply net_later; [by apply send_peers_ok|done].
  - destruct (check_ok T s now clk Hx HT Hclk Hgap) as (s1 & o1 & E1 & H1). rewrite E1 in E. by injection E as <- _.
  - by eapply net_OnTimer_ok.
Qed.

Lemma net_run_ok x y : known_ok → net_ok x.1 x.2 → rtc net_step x y → net_ok y.1 y.2.
Proof. intros Hk Hx Hs. induction Hs as [|x y z H1 _ IH]; [done|]. apply IH. by eapply net_step_ok. Qed.

(** The table that the previous run left is read at the start, and no record of it stays
    marked as active. *)
Lemma reset_items l : list_ok (max_connection_ cfg) l → (∀ r, r ∈ l → item_ok r) →
  items_ok cfg ∅ (default l (update_list (max_connection_ cfg) InetAddress_Any (mkItem [] 0 (-1) (-1) 0 0) l)).
Proof.
  intros Hl Hi. pose proof (update_list_ok (max_connection_ cfg) InetAddress_Any (mkItem [] 0 (-1) (-1) 0 0) l Hl) as Hu.
  specialize (Hu ltac:(done)). revert Hu. unfold update_list. rewrite andb_false_r. cbn [default]. intros Hu.
  assert (∀ r, r ∈ (λ r, if matches InetAddress_Any r then update_fields (mkItem [] 0 (-1) (-1) 0 0) r else r) <$> l →
    active_time r = 0 ∧ ∃ r', r' ∈ l ∧ item_key r = item_key r') as Hr.
  { intros r (r' & -> & Hr)%list_elem_of_fmap. unfold matches. rewrite orb_true_r. split; [done|by exists r']. }
  split; [done|..].
  - intros r (_ & r' & Hin & Ek)%Hr. destruct (Hi r' Hin) as (a & Ha & Ea). exists a. by rewrite Ek.
  - intros r [Ea _]%Hr. unfold item_live. lia.
Qed.

Lemma net_start_ok T db l : 0 ≤ T < 2 ^ 62 → table_is (mkTable db 0) l → list_ok (max_connection_ cfg) l → (∀ r, r ∈ l → item_ok r) →
  net_ok T (net_Initialize cfg db).
Proof.
  intros HT Ht Hl Hi. split; [split; cbn; first [done|lia|intros *; by rewrite lookup_empty|by intros ? ?%elem_of_nil]|].
  eexists. split; [by apply UpdateItem_is|by apply reset_items].
Qed.
End run.
