(* ===== verification/OverlayClaims.v ===== *)
(** * What the overlay network guarantees

    The invariant of all runs, that no step of them faults, that two nodes greet each other,
    and what a check that comes late does. *)
From stdpp Require Import base gmap list sorting strings relations.
From Stdlib Require Import ZArith Lia.
From S2P Require Import Prelude Pbft KVTrie SafeInt Strings Account LedgerMsg LedgerFrm LedgerCommit ChainMsg UpgradeVote LedgerDemo Broadcast Flood PeerTable PeerNetwork PeerNetworkInv PeerNetworkRun.
Local Open Scope Z_scope.

Section claims.
Context {LH : LedgerHost} {PC : PeerCodec} {PL : PeerCodecLaws} {IL : InetLaws} {NC : NetCodec}.
Context (SerUpgrade : LedgerUpgrade → bytes) (self_chain : Z) (cfg : P2pConfigure).
(** The table that the previous run left, and the clock at the start. *)
Context (db : KeyValueDb) (old : list PeerItem) (T0 : Z).
Hypothesis Hknown : known_ok cfg.
Hypothesis Hold : table_is (mkTable db 0) old ∧ list_ok (max_connection_ cfg) old ∧ ∀ r, r ∈ old → item_ok r.
Hypothesis Hclock : 0 ≤ T0 < 2 ^ 62.

Definition overlay_reaches (T : Z) (s : PeerNetwork) : Prop := rtc (net_step SerUpgrade self_chain cfg) (T0, net_Initialize cfg db) (T, s).

Lemma reached_ok T s : overlay_reaches T s → net_ok cfg T s.
Proof.
  intros Hr. destruct Hold as (H1 & H2 & H3). apply (net_run_ok SerUpgrade self_chain cfg (T0, net_Initialize cfg db) (T, s)); [done| |done].
  by eapply net_start_ok.
Qed.

(** C17: The peers of a node.  From its start on, over connections that are opened, closed and
    time out, messages of any content and attempts to connect: different active connections
    have different node addresses, none is to the node itself, and all have told a valid port.
    The table has at most one record for an address and stays within its limit, and a record
    that is marked as active has no failures and names an active connection to its address. *)
Theorem overlay_run_sound T s : overlay_reaches T s →
  (∀ i p, connections_ (conns s) !! i = Some p → IsActive p = true →
    node_address_ cfg ≠ peer_node_address_ (peer_info_ p) ∧ 0 < peer_listen_port_ (peer_info_ p) ≤ 65535 ∧
    ∀ j q, connections_ (conns s) !! j = Some q → IsActive q = true → peer_node_address_ (peer_info_ p) = peer_node_address_ (peer_info_ q) → i = j) ∧
  ∃ l, table_is (table s) l ∧ NoDup (item_key <$> l) ∧ Z.of_nat (length l) ≤ Z.max (max_connection_ cfg) PEER_DB_COUNT ∧
    ∀ r, r ∈ l → 0 < active_time r → num_failures r = 0 ∧
      ∃ p, connections_ (conns s) !! connection_id r = Some p ∧ IsActive p = true ∧ addr_key (GetRemoteAddress p) = item_key r.
Proof.
  intros [Hc (l & Ht & [[Hk Hl] _ Hlive])]%reached_ok. split; [|by exists l].
  intros i p E Ha. destruct (po_hello _ _ (co_peer _ _ _ Hc _ _ E) Ha) as [H1 H2]. split_and!; [done|lia|lia|].
  intros j q Ej Hq Eq. by eapply (co_unique _ _ _ Hc).
Qed.

(** C22: No fault.  In every state that is reached, every message of every connection is handled
    without a fault, and so is a check of the connections that is on time: no object is
    deleted twice.  After the check nobody is connected who has not greeted within ten
    seconds. *)
Theorem overlay_never_faults T s : overlay_reaches T s →
  (∀ validators hdl m now later sends, T ≤ now ≤ later → later < 2 ^ 62 → 0 < now →
    ∃ s' o, OnMessage SerUpgrade self_chain cfg s validators hdl m now later sends = Ok (s', o)) ∧
  (∀ now clk, T ≤ now < 2 ^ 62 → (∀ k, now ≤ clk k < 2 ^ 62) → on_time (conns s) clk →
    ∃ s' o, check_connections s now clk = Ok (s', o) ∧
      (1000000 < now - last_check_time (conns s) →
       ∀ i p, connections_ (conns s') !! i = Some p → IsActive p = false → now ≤ connect_start_time_ p + 10 * 1000000)).
Proof.
  intros Hs%reached_ok. split.
  - intros validators hdl m now later sends HT Hl Hpos.
    destruct (OnMessage_ok SerUpgrade self_chain cfg T s validators hdl m now later sends Hs HT Hl Hpos) as (s' & o & E & _). by exists s', o.
  - intros now clk HT Hclk Ht. destruct (check_ok cfg T s now clk Hs HT Hclk Ht) as (s' & o & E & Hs'). exists s', o. split; [done|].
    intros Hgap i p Ep Ha. pose proof (co_fresh _ _ _ (proj1 Hs') _ _ Ep Ha) as Hf.
    rewrite (check_sets_time s now clk s' o E) in Hf; [done|]. destruct (co_time _ _ _ (proj1 Hs)). rewrite i64_small; lia.
Qed.
End claims.

(** ** The greeting of two nodes *)

Section greeting.
Context {LH : LedgerHost} {PC : PeerCodec} {PL : PeerCodecLaws} {IL : InetLaws} {NC : NetCodec}.
Context (SerUpgrade : LedgerUpgrade → bytes) (self_chain : Z).

(** Nobody with this node address is connected, but for the connection [i]. *)
Definition not_connected (c : Conns) (a : bytes) (i : Z) : Prop :=
  ∀ j q, connections_ c !! j = Some q → j ≠ i → peer_node_address_ (peer_info_ q) ≠ a.

(** The connection with the handle [hdl] is to the node [a], and active. *)
Definition active_at (s : PeerNetwork) (hdl : Z) (a : bytes) : Prop :=
  ∃ p, GetConnection_hdl (conns s) hdl = Some p ∧ IsActive p = true ∧ peer_node_address_ (peer_info_ p) = a.

Lemma node_absent c a i : (∀ j q, connections_ c !! j = Some q → id_ q = j) → not_connected c a i → NodeExist c a i = false.
Proof.
  intros Hid Hn. apply not_true_is_false. unfold NodeExist. intros (e & He & E)%existsb_exists. destruct e as [j q]. cbn in E.
  apply list_elem_of_In, elem_of_map_to_list in He. apply andb_true_iff in E as [Ea%bool_decide_eq_true Ei%negb_true_iff%Z.eqb_neq].
  rewrite (Hid _ _ He) in Ei. by eapply Hn.
Qed.

(** A good greeting makes the connection active; one that came in is answered. *)
Lemma hello_activates cfg T s validators hdl data now later sends p : net_ok cfg T s → GetConnection_hdl (conns s) hdl = Some p → IsActive p = false →
  0 < now → hello_ok cfg (ParseHello data) = true → not_connected (conns s) (hl_node_address (ParseHello data)) (id_ p) →
  ∃ s' o, OnMessage SerUpgrade self_chain cfg s validators hdl (mkWs OVERLAY_MSGTYPE_HELLO true data) now later sends = Ok (s', o) ∧
    active_at s' hdl (hl_node_address (ParseHello data)) ∧ (in_bound_ p = true → SendHello (id_ p) ∈ o).
Proof.
  intros Hs E Ha Hpos Hok Hn. destruct (hdl_lookup cfg T s hdl p Hs E) as [Ei Eh]. unfold OnMessage. rewrite E. cbn [dispatch ws_type ws_request ws_data Z.eqb OVERLAY_MSGTYPE_HELLO OVERLAY_MSGTYPE_PING Pos.eqb].
  unfold OnMethodHello, GetConnection. cbn [set_conns conns put_peer connections_]. change (id_ (TouchReceiveTime now p)) with (id_ p). rewrite lookup_insert_eq.
  change (IsActive (TouchReceiveTime now p)) with (IsActive p). rewrite Ha. rewrite node_absent; cycle 1.
  { intros j q. cbn. rewrite !lookup_insert_Some. intros [[<- <-]|[_ [[<- <-]|[_ Ej]]]]; [done|done|]. by apply (co_id _ _ _ (proj1 Hs)). }
  { intros j q. cbn. rewrite !lookup_insert_Some. intros [[<- <-]|[Hj [[<- <-]|[_ Ej]]]] Hne; [done|done|]. by eapply Hn. }
  rewrite Hok. cbn [negb]. change (in_bound_ (SetActiveTime now (SetPeerInfo (ParseHello data) (TouchReceiveTime now p)))) with (in_bound_ p).
  assert (connection_handles_ (conns s) !! hdl = Some (id_ p)) as Ehdl by (rewrite <- Eh; by eapply (co_handle _ _ _ (proj1 Hs))).
  destruct (in_bound_ p); cbn [mbind res_bind]; do 2 eexists; (split; [reflexivity|split; [|set_solver]]).
  all: eexists; split; [unfold GetConnection_hdl; cbn; rewrite Ehdl; cbn; by rewrite lookup_insert_eq|]; split; [by apply Z.ltb_lt|done].
Qed.

(** What two nodes need to become peers. *)
Definition good_port (c : P2pConfigure) : Prop := 0 < listen_port_ c ≤ 65535.
Definition compatible (a b : P2pConfigure) : Prop :=
  network_id_ a = network_id_ b ∧ node_address_ a ≠ node_address_ b ∧ good_port a ∧ good_port b.

Lemma hello_compatible a b : compatible a b → hello_ok b (own_hello a) = true.
Proof.
  intros (Hn & Ha & [Hp Hp'] & _). unfold hello_ok. cbn. rewrite Hn, Z.eqb_refl, bool_decide_eq_true_2 by done. cbn.
  by rewrite (proj2 (Z.ltb_lt _ _)), (proj2 (Z.leb_le _ _)).
Qed.

Lemma compatible_sym a b : compatible a b → compatible b a.
Proof. intros (H1 & H2 & H3 & H4). by split_and!. Qed.

(** A connection that comes in while there is room. *)
Lemma open_accepted cfg T s hdl remote now later : net_ok cfg T s → connection_handles_ (conns s) !! hdl = None →
  Z.of_nat (base.size (connections_ (conns s))) + 1 < max_connection_ cfg →
  connections_ (conns (OnOpen cfg s hdl remote now later).1) = <[next_id_ (conns s) := new_Peer (next_id_ (conns s)) hdl true remote now]> (connections_ (conns s)) ∧
  connection_handles_ (conns (OnOpen cfg s hdl remote now later).1) !! hdl = Some (next_id_ (conns s)).
Proof.
  intros Hs Hh Hroom. assert (connections_ (conns s) !! next_id_ (conns s) = None) as Hn.
  { destruct (connections_ (conns s) !! next_id_ (conns s)) eqn:E; [|done]. destruct (co_id _ _ _ (proj1 Hs) _ _ E). lia. }
  unfold OnOpen, OnConnectOpen. cbn [conns set_conns add_connection connections_ new_Peer id_ handle_]. unfold insert_new. rewrite Hn, map_size_insert_None by done.
  rewrite (proj2 (Z.ltb_lt _ _)) by lia. cbn. unfold insert_new. rewrite Hn, Hh. split; [done|]. by rewrite lookup_insert_eq.
Qed.

(** A connection that this node opened is there: the greeting is sent. *)
Lemma client_open_greets cfg T s hdl now later p : net_ok cfg T s → GetConnection_hdl (conns s) hdl = Some p → in_bound_ p = false →
  Z.of_nat (base.size (connections_ (conns s))) < max_connection_ cfg →
  SendHello (id_ p) ∈ (OnClientOpen cfg s hdl now later).2 ∧
  connections_ (conns (OnClientOpen cfg s hdl now later).1) = <[id_ p := sent_request (SetConnectTime now p)]> (connections_ (conns s)) ∧
  connection_handles_ (conns (OnClientOpen cfg s hdl now later).1) = connection_handles_ (conns s).
Proof.
  intros Hs E Hout Hroom. destruct (hdl_lookup cfg T s hdl p Hs E) as [Ei _]. unfold OnClientOpen, OnConnectOpen. rewrite E.
  cbn [conns set_conns put_peer connections_]. rewrite map_size_insert_Some by (by exists p). rewrite (proj2 (Z.ltb_lt _ _)) by done.
  change (in_bound_ (SetConnectTime now p)) with (in_bound_ p). rewrite Hout. cbn. split_and!; [by left|by rewrite insert_insert_eq|done].
Qed.

(** C18: Two nodes greet each other.  A node [a] has opened a connection to [b]; both have room,
    and neither has a connection that names the other.  When [b] accepts it and the greetings
    are delivered, each has an active connection to the other.  The nodes need different
    addresses, valid ports and the same network. *)
Theorem greeting_completes cfga cfgb Ta Tb sa sb ha hb remote va vb da db p ta ta' tb tb' t t' sends :
  net_ok cfga Ta sa → net_ok cfgb Tb sb → compatible cfga cfgb → ParseHello da = own_hello cfga → ParseHello db = own_hello cfgb →
  GetConnection_hdl (conns sa) ha = Some p → IsActive p = false → in_bound_ p = false → not_connected (conns sa) (node_address_ cfgb) (id_ p) →
  Z.of_nat (base.size (connections_ (conns sa))) < max_connection_ cfga →
  connection_handles_ (conns sb) !! hb = None → inet_ok remote → next_id_ (conns sb) + 1 < 2 ^ 63 →
  not_connected (conns sb) (node_address_ cfga) (next_id_ (conns sb)) → Z.of_nat (base.size (connections_ (conns sb))) + 1 < max_connection_ cfgb →
  Ta ≤ ta ≤ ta' → ta' < 2 ^ 62 → Tb ≤ tb ≤ tb' → tb' < 2 ^ 62 → 0 < t →
  let '(sa1, oa) := OnClientOpen cfga sa ha ta ta' in
  let sb1 := (OnOpen cfgb sb hb remote tb tb').1 in
  SendHello (id_ p) ∈ oa ∧ ∃ sa2 sb2 ob oa',
    OnMessage SerUpgrade self_chain cfgb sb1 vb hb (mkWs OVERLAY_MSGTYPE_HELLO true da) t t' sends = Ok (sb2, ob) ∧
    active_at sb2 hb (node_address_ cfga) ∧ SendHello (next_id_ (conns sb)) ∈ ob ∧
    OnMessage SerUpgrade self_chain cfga sa1 va ha (mkWs OVERLAY_MSGTYPE_HELLO true db) t t' sends = Ok (sa2, oa') ∧
    active_at sa2 ha (node_address_ cfgb).
Proof.
  intros Hsa Hsb Hc Eda Edb Ep Hp Hout Hna Hroom Hh Hr Hid Hnb Hroomb Hta1 Hta2 Htb1 Htb2 Ht.
  destruct (client_open_greets cfga Ta sa ha ta ta' p Hsa Ep Hout Hroom) as (Hsend & Ca & Ha). destruct (hdl_lookup cfga Ta sa ha p Hsa Ep) as [Ei <-].
  assert (net_ok cfga ta' (OnClientOpen cfga sa (handle_ p) ta ta').1) as Hsa1.
  { eapply OnClientOpen_ok; [done| |lia|lia]. intros q Eq. rewrite Ep in Eq. by injection Eq as <-. }
  destruct (open_accepted cfgb Tb sb hb remote tb tb' Hsb Hh Hroomb) as [Cb Hb].
  assert (net_ok cfgb tb' (OnOpen cfgb sb hb remote tb tb').1) as Hsb1 by (eapply OnOpen_ok; [done..|lia|lia]).
  destruct (OnClientOpen cfga sa (handle_ p) ta ta') as [sa1 oa]. cbn [fst snd] in *. split; [done|].
  destruct (hello_activates cfgb tb' _ vb hb da t t' sends (new_Peer (next_id_ (conns sb)) hb true remote tb) Hsb1) as (sb2 & ob & E2 & A2 & S2).
  { unfold GetConnection_hdl. rewrite Hb. cbn. by rewrite Cb, lookup_insert_eq. }
  { done. }
  { done. }
  { rewrite Eda. by apply hello_compatible. }
  { rewrite Eda. intros j q. rewrite Cb, lookup_insert_Some. intros [[<- <-]|[_ Ej]] Hne; [done|by eapply Hnb]. }
  destruct (hello_activates cfga ta' sa1 va (handle_ p) db t t' sends (sent_request (SetConnectTime ta p)) Hsa1) as (sa2 & oa' & E3 & A3 & _).
  { unfold GetConnection_hdl. rewrite Ha, (co_handle _ _ _ (proj1 Hsa) _ _ Ei). cbn. by rewrite Ca, lookup_insert_eq. }
  { done. }
  { done. }
  { rewrite Edb. by apply hello_compatible, compatible_sym. }
  { rewrite Edb. intros j q. rewrite Ca, lookup_insert_Some. intros [[<- <-]|[_ Ej]] Hne; [done|by eapply Hna]. }
  rewrite Eda in A2. rewrite Edb in A3. exists sa2, sb2, ob, oa'. split_and!; [done|done|by apply S2|done|done].
Qed.
End greeting.
