(* ===== verification/OverlayDemo.v ===== *)
(** * Two nodes that meet

    Encodings of addresses, records and greetings on which the theorems about the overlay are
    applied, and a check of the connections that comes late. *)
From stdpp Require Import base gmap list sorting strings relations countable.
From Stdlib Require Import ZArith Lia.
From S2P Require Import Prelude Pbft KVTrie SafeInt Strings Account LedgerMsg LedgerFrm LedgerCommit ChainMsg UpgradeVote LedgerDemo ChainDemo Broadcast Flood PeerTable PeerNetwork PeerNetworkInv PeerNetworkRun OverlayClaims.
Local Open Scope Z_scope.

Section demo.
#[local] Instance meet_host : LedgerHost := demo_host no_script.

Definition item_text : Type := bytes * Z * Z * Z * Z * Z.
#[local] Instance item_text_eq_dec : EqDecision item_text := _.
#[local] Instance item_text_countable : Countable item_text := _.
Definition item_of (x : item_text) : PeerItem := let '(a, b, c, d, e, f) := x in mkItem a b c d e f.
Definition of_item (r : PeerItem) : item_text :=
  (pi_ip r, pi_port r, num_failures r, next_attempt_time r, active_time r, connection_id r).

#[local] Instance meet_codec : PeerCodec := {|
  inet_ntoa a := enc a;
  Resolve ip := (dec ip : option Z) ≫= λ a : Z, if decide (0 ≤ a < 2 ^ 32) then Some a else None;
  SerPeers l := str "p" ++ enc (of_item <$> l);
  ParsePeers s := if decide (s = []) then Some [] else (λ l : list item_text, item_of <$> l) <$> (dec (drop 1 s) : option (list item_text)) |}.

#[local] Instance meet_codec_laws : PeerCodecLaws.
Proof.
  split; [|done]. intros l. transitivity ((λ l : list item_text, item_of <$> l) <$> (dec (enc (of_item <$> l)) : option (list item_text))); [done|].
  rewrite dec_enc_of. cbn [fmap option_fmap option_map]. f_equal. rewrite <- list_fmap_compose. rewrite <- (list_fmap_id l) at 2.
  apply list_fmap_ext. by intros i [].
Qed.

#[local] Instance meet_inet_laws : InetLaws.
Proof.
  split.
  - intros a Ha. transitivity ((dec (enc a) : option Z) ≫= λ a : Z, if decide (0 ≤ a < 2 ^ 32) then Some a else None); [done|].
    rewrite dec_enc_of. cbn [mbind option_bind]. by rewrite decide_True.
  - intros ip a (b & _ & E)%bind_Some. case_decide; [|done]. by injection E as <-.
Qed.

Definition meet_a : P2pConfigure := mkP2p 5000 10 2 1 (str "a") (str "ra") [] [].
Definition meet_b : P2pConfigure := mkP2p 6000 10 2 1 (str "b") (str "rb") [] [].

#[local] Instance meet_net_codec : NetCodec := {|
  ParseHello data := if decide (data = str "hello a") then own_hello meet_a else own_hello meet_b;
  ParsePeersMsg _ := []; HelloError _ := false; PingParses _ := true; TransactionParses _ := false; PbftSigner _ := None; ParseNotify _ := None |}.

Definition meet_db : KeyValueDb := mkDb ∅ (λ _, false) true.
Definition meet_text (u : LedgerUpgrade) : bytes := ToString (new_ledger_version u).
Definition address_a : InetAddress := mkInet 17 4000.
Definition address_b : InetAddress := mkInet 18 6000.
Definition hello_a : WsMessage := mkWs OVERLAY_MSGTYPE_HELLO true (str "hello a").

(** Node [b] is started, [a] connects to it and greets. *)
Definition opened_b : PeerNetwork := (OnOpen meet_b (net_Initialize meet_b meet_db) 7 address_a 1000000 1000000).1.
Definition greeted_b : res (PeerNetwork * list net_out) := OnMessage meet_text 0 meet_b opened_b ∅ 7 hello_a 1200000 1200000 true.

Lemma no_old_items c : table_is (mkTable meet_db 0) [] ∧ list_ok (max_connection_ c) [] ∧ ∀ r, r ∈ [] → item_ok r.
Proof.
  split_and!; [by split_and!; [..|right]| |by intros r ?%elem_of_nil]. split; [constructor|]. unfold max_address_cnt. cbn. unfold PEER_DB_COUNT. lia.
Qed.

Definition known_peer : Peer := SetActiveTime 1200000 (SetPeerInfo (own_hello meet_a) (TouchReceiveTime 1200000 (sent_request (new_Peer 0 7 true address_a 1000000)))).

Definition met_b : PeerNetwork := match greeted_b with Ok (s, _) => s | Err _ => opened_b end.

Lemma greeted_ok : ∃ o, greeted_b = Ok (met_b, o).
Proof. eexists. unfold met_b. vm_compute. reflexivity. Qed.

Lemma met_b_reached : overlay_reaches meet_text 0 meet_b meet_db 1 1200000 met_b.
Proof.
  eapply rtc_l; [apply (st_open meet_text 0 meet_b 1 (net_Initialize meet_b meet_db) 7 address_a 1000000 1000000); [done|split; cbn; lia|cbn; lia|lia|lia]|].
  apply rtc_once. destruct greeted_ok as [o E]. eapply (st_message meet_text 0 meet_b 1000000 _ ∅ 7 hello_a 1200000 1200000 true met_b o); [lia|lia|lia|exact E].
Qed.

Lemma no_known c : known_peers c = [] → known_ok c.
Proof. intros E a. rewrite E. by intros ?%elem_of_nil. Qed.

Lemma met_b_peer : connections_ (conns met_b) !! 0 = Some known_peer.
Proof. vm_compute. reflexivity. Qed.

Lemma overlay_run_sound_witness : node_address_ meet_b ≠ peer_node_address_ (peer_info_ known_peer) ∧
  ∃ l, table_is (table met_b) l ∧ NoDup (item_key <$> l) ∧ Z.of_nat (length l) ≤ Z.max (max_connection_ meet_b) PEER_DB_COUNT.
Proof.
  destruct (overlay_run_sound meet_text 0 meet_b meet_db [] 1 (no_known meet_b eq_refl) (no_old_items meet_b) ltac:(lia) 1200000 met_b met_b_reached)
    as [H1 (l & H2 & H3 & H4 & _)].
  split; [|by exists l]. apply (H1 0 known_peer met_b_peer). vm_compute. reflexivity.
Defined.

Lemma overlay_never_faults_witness : ∃ s o, check_connections met_b 12000000 (λ k, 12000000 + Z.of_nat k `mod` 1000) = Ok (s, o).
Proof.
  destruct (overlay_never_faults meet_text 0 meet_b meet_db [] 1 (no_known meet_b eq_refl) (no_old_items meet_b) ltac:(lia) 1200000 met_b met_b_reached)
    as [_ H].
  destruct (H 12000000 (λ k, 12000000 + Z.of_nat k `mod` 1000)) as (s & o & E & _); [lia| | |by exists s, o].
  - intros k. pose proof (Z.mod_pos_bound (Z.of_nat k) 1000). lia.
  - left. intros k. pose proof (Z.mod_pos_bound (Z.of_nat k) 1000). change (last_check_time (conns met_b)) with 0. lia.
Defined.

(** Node [a] has opened a connection to [b]. *)
Definition dialled_a : PeerNetwork := Connect (net_Initialize meet_a meet_db) address_b (Some 3) 900000.

Lemma dialled_ok : net_ok meet_a 900000 dialled_a.
Proof.
  destruct (no_old_items meet_a) as (H1 & H2 & H3). apply (add_ok meet_a 1); [by eapply net_start_ok|done|split; vm_compute; done|lia|vm_compute; done].
Qed.

Lemma greeting_completes_witness : ∃ sa sb oa ob,
  OnMessage meet_text 0 meet_b opened_b ∅ 7 hello_a 1200000 1200000 true = Ok (sb, ob) ∧ active_at sb 7 (str "a") ∧
  OnMessage meet_text 0 meet_a (OnClientOpen meet_a dialled_a 3 1000000 1000000).1 ∅ 3 (mkWs OVERLAY_MSGTYPE_HELLO true (str "hello b")) 1200000 1200000 true = Ok (sa, oa) ∧
  active_at sa 3 (str "b").
Proof.
  destruct (no_old_items meet_b) as (H1 & H2 & H3).
  pose proof (greeting_completes meet_text 0 meet_a meet_b 900000 1 dialled_a (net_Initialize meet_b meet_db) 3 7 address_a ∅ ∅ (str "hello a") (str "hello b")
    (new_Peer 0 3 false address_b 900000) 1000000 1000000 1000000 1000000 1200000 1200000 true dialled_ok (net_start_ok meet_b 1 meet_db [] ltac:(lia) H1 H2 H3)) as H.
  destruct (OnClientOpen meet_a dialled_a 3 1000000 1000000) as [sa1 oa]. destruct H as (_ & sa & sb & ob & oa' & E1 & A1 & _ & E2 & A2).
  - split_and!; [done|vm_compute; discriminate|split; cbn; lia|split; cbn; lia].
  - done.
  - done.
  - vm_compute. reflexivity.
  - done.
  - done.
  - intros j q. cbn. unfold insert_new. rewrite lookup_empty. intros [[<- <-]|[_ E]]%lookup_insert_Some Hne; [done|by rewrite lookup_empty in E].
  - vm_compute. reflexivity.
  - done.
  - split; cbn; lia.
  - cbn. lia.
  - intros j q E. change (connections_ (conns (net_Initialize meet_b meet_db))) with (∅ : gmap Z Peer) in E. by rewrite lookup_empty in E.
  - vm_compute. reflexivity.
  - lia.
  - lia.
  - lia.
  - lia.
  - lia.
  - by exists sa, sb, oa', ob.
Defined.

Definition late_check (s : PeerNetwork) (now : Z) : res (PeerNetwork * list net_out) := check_connections s now (λ k, now + Z.of_nat k).
Definition faults (x : res (PeerNetwork * list net_out)) : bool := match x with Err NullDeref => true | _ => false end.

Lemma second_faults : match late_check opened_b 70000000 with Ok (s, _) => faults (late_check s 80000000) | Err _ => false end = true.
Proof. vm_compute. reflexivity. Qed.

(** A check that comes late.  If the event loop does not come to its check for more than a
    minute after a connection was opened, the connection is found both without data and
    without a greeting and is put twice on the list of those to remove; the next check deletes
    the object twice. *)
Theorem late_check_deletes_twice : ∃ s o,
  check_connections opened_b 70000000 (λ k, 70000000 + Z.of_nat k) = Ok (s, o) ∧
  check_connections s 80000000 (λ k, 80000000 + Z.of_nat k) = Err NullDeref.
Proof.
  pose proof second_faults as H. unfold late_check in H. destruct (check_connections opened_b _ _) as [[s o]|e]; [|done].
  exists s, o. split; [done|]. by destruct (check_connections s _ _) as [|[]].
Qed.
End demo.
