(* ===== verification/Pool.v ===== *)
(** * The pool behind the glue (src/src/glue/glue_manager.cpp)

    [GlueManager::OnTransaction] checks a transaction against the last closed ledger and puts
    it into the queue; the timer, the proposals and the commits of blocks take transactions
    out.  The two models of a transaction meet here: what the ledger reads of it and what the
    queue reads of it. *)
From stdpp Require Import base gmap list strings.
From Stdlib Require Import ZArith Lia.
From S2P Require Import Prelude TxQueue TxQueueSpec TxQueueProps TxQueueClaims SafeInt Strings Account LedgerMsg Environment Operation TransactionFrm LedgerLogic ChainMsg UpgradeVote LedgerDemo.
Local Open Scope Z_scope.

Section pool.
Context {LH : LedgerHost} {MS : Multiset}.
(** The text of a transaction for the sizes that the queue computes, and those sizes. *)
Context (env_text : TransactionEnv → bytes) (EnvSize : TxQueue.TransactionEnv → Z) (set_ByteSize : list TxQueue.TransactionEnv → Z).

(** The transaction as the queue sees it. *)
Definition queued (tx : TransactionFrm) (incoming_time : Z) : TxQueue.TransactionFrm :=
  TxQueue.mkTx (TxQueue.mkEnv (frm_source tx) (tx_nonce (tran_of tx)) (gas_price (tran_of tx)) (env_text (transaction_env_ tx)))
    (hash_ tx) incoming_time.

(** A transaction outside of any block. *)
Definition alone (tx : TransactionFrm) : Ctx := mkCtx [] [tx] [] 0 0 0.

(** [err]: the code of the ledger or that of the queue. *)
Definition pool_err : Type := ERRORCODE + Z.
Definition is_success (e : pool_err) : bool :=
  match e with inl c => bool_decide (c = ERRCODE_SUCCESS) | inr c => c =? 0 end.

(** [incoming_time] is the clock when the transaction object was made; [err] is successful when
    it is passed in. *)
Definition OnTransaction (G : Globals) (q : TransactionQueue) (env : TransactionEnv) (incoming_time : Z)
    : res (TransactionQueue * pool_err * bool) :=
  let tx := new_TransactionFrm env in
  '(q, err) ←
    (if IsExist_hash q (hash_ tx) then mret (q, inl ERRCODE_ALREADY_EXIST)
     else
       '(c, (valid, nonce)) ← CheckValid G 0 (-1) true 0 (alone tx);
       if (valid : bool) then '(q, _, code) ← Import q (queued tx incoming_time) nonce 0; mret (q, inr code)
       else mret (q, inl (default ERRCODE_SUCCESS ((λ tx, rcode (result_ tx)) <$> txs c !! 0%nat))));
  mret (q, err, is_success err).

(** [GlueManager::OnTimer]: the queue, the votes, and the vote that is broadcast. *)
Definition glue_OnTimer (SerUpgrade : LedgerUpgrade → bytes) (self_chain : Z) (q : TransactionQueue) (up : UpgradeState) (current_time : Z)
    (is_validator : bool) (sign : bytes → bytes * bytes) (now : Z) : res (TransactionQueue * UpgradeState * option LedgerUpgradeNotify) :=
  '(q, _) ← CheckTimeoutAndDel q current_time [];
  let '(up, notify) := Upgrade_OnTimer SerUpgrade self_chain up current_time is_validator sign now in
  mret (q, up, notify).

(** ** What the check of a transaction requires *)

Record admissible (G : Globals) (env : TransactionEnv) (source : AccountFrm) : Prop := {
  ad_source : AccountFromDB G (tx_source_address (transaction env)) = Some source;
  ad_nonce : GetAccountNonce source < tx_nonce (transaction env);
  ad_chain : chain_id (transaction env) = self_chain_id G;
  ad_size : ByteSize env < TRANSACTION_LIMIT_SIZE;
  ad_operations : (0 < length (operations (transaction env)) ≤ 100)%nat;
  ad_price : 0 ≤ gas_price (transaction env) ∧ sys_gas_price G ≤ gas_price (transaction env);
  ad_signed : SignerHashPriv (valid_signature_ (new_TransactionFrm env)) source (-1) = true;
  ad_fee : ∃ rest fee, SafeIntSub (GetAccountBalance source) (fee_limit (transaction env)) = Some rest ∧ base_reserve G ≤ rest ∧
    SafeIntMul (GetSelfGas (new_TransactionFrm env)) (gas_price (transaction env)) = Ok (Some fee) ∧ fee ≤ fee_limit (transaction env) }.

(** The verdict, and the code that is left in the transaction. *)
Definition verdict (G : Globals) (env : TransactionEnv) (r : bool * Z) (c : Ctx) : Prop :=
  if r.1 then ∃ source, admissible G env source ∧ r.2 = GetAccountNonce source
  else ∃ tx, txs c = [tx] ∧ rcode (result_ tx) ≠ ERRCODE_SUCCESS.

Lemma wp_rejected F c tx code (Q : bool → Ctx → Prop) : txs c = [tx] → code ≠ ERRCODE_SUCCESS →
  (∀ c' tx', txs c' = [tx'] → rcode (result_ tx') ≠ ERRCODE_SUCCESS → Q false c') → wp F (reject 0 code) c Q.
Proof.
  intros E Hc HQ. apply wp_bind, wp_modify, wp_ret. eapply HQ; [cbn; rewrite E; reflexivity|done].
Qed.

(** What [ValidForParameter] checks of a transaction, besides its operations. *)
Definition parameters_ok (G : Globals) (env : TransactionEnv) : Prop :=
  ByteSize env < TRANSACTION_LIMIT_SIZE ∧ (0 < length (operations (transaction env)) ≤ 100)%nat ∧
  0 ≤ gas_price (transaction env) ∧ sys_gas_price G ≤ gas_price (transaction env).

Lemma wp_parameters F G c tx : txs c = [tx] →
  wp F (ValidForParameter G 0 0) c (λ r c', if r then parameters_ok G (transaction_env_ tx) ∧ ∃ tx', txs c' = [tx'] ∧
      transaction_env_ tx' = transaction_env_ tx ∧ valid_signature_ tx' = valid_signature_ tx
    else ∃ tx', txs c' = [tx'] ∧ rcode (result_ tx') ≠ ERRCODE_SUCCESS).
Proof.
  intros E. apply wp_bind, (wp_get_tx_Some _ _ _ tx); [by rewrite E|]. apply wp_bind, wp_get_ctx. cbv zeta.
  assert (∀ code, code ≠ ERRCODE_SUCCESS → wp F (reject 0 code) c (λ r c', if r then parameters_ok G (transaction_env_ tx) ∧ ∃ tx', txs c' = [tx'] ∧
      transaction_env_ tx' = transaction_env_ tx ∧ valid_signature_ tx' = valid_signature_ tx
    else ∃ tx', txs c' = [tx'] ∧ rcode (result_ tx') ≠ ERRCODE_SUCCESS)) as Hrej by (intros code Hc; eapply wp_rejected; eauto).
  destruct (Z.leb_spec TRANSACTION_LIMIT_SIZE (ByteSize (transaction_env_ tx))); [by apply Hrej|].
  destruct (Z.eqb_spec (Z.of_nat (length (operations (tran_of tx)))) 0); [by apply Hrej|].
  destruct (Z.ltb_spec MAX_OPERATIONS_NUM_PER_TRANSACTION (Z.of_nat (length (operations (tran_of tx))))); [by apply Hrej|].
  do 3 (destruct (_ : bool); [by apply Hrej|]). cbn [andb Z.eqb]. destruct (_ : bool); [by apply Hrej|].
  destruct (Z.ltb_spec (gas_price (tran_of tx)) (Z.max 0 (sys_gas_price G))); [by apply Hrej|].
  apply wp_bind, wp_modify, wp_ret. case_bool_decide as Hcode.
  - split; [|eexists; split; [cbn; rewrite E; reflexivity|done]]. unfold parameters_ok, tran_of, MAX_OPERATIONS_NUM_PER_TRANSACTION in *. lia.
  - eexists. split; [cbn; rewrite E; reflexivity|done].
Qed.

Lemma wp_fee F G c tx source price limit (Q : bool → Ctx → Prop) : txs c = [tx] → 0 ≤ price < 2 ^ 63 →
  (∀ c' tx', txs c' = [tx'] → rcode (result_ tx') ≠ ERRCODE_SUCCESS → Q false c') →
  (∀ rest fee, SafeIntSub (GetAccountBalance source) limit = Some rest → base_reserve G ≤ rest →
    SafeIntMul (GetSelfGas tx) price = Ok (Some fee) → fee ≤ limit → Q true c) →
  wp F (CheckFee G 0 price limit source) c Q.
Proof.
  intros E Hp Hno Hyes. unfold CheckFee. destruct (SafeIntSub _ limit) as [rest|] eqn:Es; [|by eapply wp_rejected].
  destruct (Z.ltb_spec rest (base_reserve G)); [by eapply wp_rejected|]. apply wp_bind, (wp_get_tx_Some _ _ _ tx); [by rewrite E|].
  apply wp_bind, wp_lift_res.
  { intros e He. exfalso. revert He. unfold SafeIntMul. destruct (_ =? 0); [done|]. destruct (Z.eqb_spec (GetSelfGas tx) (-1)) as [->|]; [|done]. cbn [andb].
    rewrite i64_small by lia. destruct (Z.eqb_spec (-1 * price) INT64_MIN); [|done]. unfold INT64_MIN in *. lia. }
  intros [fee|] Em; [|by eapply wp_rejected]. destruct (Z.ltb_spec limit fee); [by eapply wp_rejected|]. apply wp_ret. by eapply Hyes.
Qed.

(** The prices of messages are 64-bit integers. *)
Definition env_ok (env : TransactionEnv) : Prop := gas_price (transaction env) < 2 ^ 63.

Lemma check_verdict F G env : env_ok env →
  wp F (CheckValid G 0 (-1) true 0) (alone (new_TransactionFrm env)) (verdict G env).
Proof.
  intros He. set (tx := new_TransactionFrm env). apply wp_bind, (wp_get_tx_Some _ _ _ tx); [done|].
  assert (∀ n c' tx', txs c' = [tx'] → rcode (result_ tx') ≠ ERRCODE_SUCCESS → verdict G env (false, n) c') as Hno by (intros n c' tx' E' Hr; by exists tx').
  destruct (AccountFromDB G (frm_source tx)) as [source|] eqn:Es.
  2: { apply wp_bind. eapply wp_rejected; [done|done|]. intros c' tx' E' Hr. apply wp_ret. by eapply Hno. }
  cbv zeta. apply wp_bind. assert (∀ c' tx', txs c' = [tx'] → rcode (result_ tx') ≠ ERRCODE_SUCCESS →
    wp F (mret (false, GetAccountNonce source)) c' (verdict G env)) as Hret by (intros c' tx' E' Hr; apply wp_ret; by eapply Hno).
  destruct (Z.leb_spec (tx_nonce (tran_of tx)) (GetAccountNonce source)) as [|Hn]; [by eapply wp_rejected|].
  destruct (Z.eqb_spec (chain_id (tran_of tx)) (self_chain_id G)) as [Hch|]; [|by eapply wp_rejected]. cbn [negb].
  apply wp_bind. eapply wp_mono; [by eapply (wp_parameters F G _ tx)|]. intros [] c1; cbn beta iota; [|intros (tx' & E' & Hr); apply wp_ret; by eapply Hret].
  intros [(P1 & P2 & P3) (tx1 & E1 & Ee & Ev)]. cbn [negb andb Z.eqb Z.ltb Z.compare].
  destruct (SignerHashPriv (valid_signature_ tx) source (-1)) eqn:Hs; cbn [negb]; [|by eapply wp_rejected].
  eapply wp_fee; [exact E1|unfold env_ok, tran_of in *; cbn in *; lia|done|]. intros rest fee F1 F2 F3 F4. apply wp_ret.
  exists source. split; [|done]. split; try done.
  exists rest, fee. split_and!; [done|done| |done]. rewrite <- F3. unfold GetSelfGas, tran_of. by rewrite Ee.
Qed.

(** ** Runs *)

(** What the glue does to the queue: transactions that come in, each with the last closed ledger
    at that time; the timer; the choice of a proposal; the transactions that a leader drops from
    its proposal, and those of a block that is closed. *)
Inductive pool_op :=
  | PTransaction (G : Globals) (env : TransactionEnv) (incoming_time : Z)
  | PTimer (current_time : Z)
  | PPropose (limit : Z)
  | PDrop (set : list TxQueue.TransactionEnv)
  | PCommit (set : list TxQueue.TransactionEnv).

Definition pool_exec (q : TransactionQueue) (o : pool_op) : res TransactionQueue :=
  match o with
  | PTransaction G env t => '(q, _, _) ← OnTransaction G q env t; mret q
  | PTimer now => '(q, _) ← CheckTimeoutAndDel q now []; mret q
  | PPropose limit => mret (TopTransaction EnvSize set_ByteSize q limit).1
  | PDrop set => '(q, _) ← RemoveTxs_set q set false 0; mret q
  | PCommit set => '(q, _) ← RemoveTxs_set q set true 0; mret q
  end.

Fixpoint pool_run (q : TransactionQueue) (ops : list pool_op) : res TransactionQueue :=
  match ops with [] => mret q | o :: ops => q ← pool_exec q o; pool_run q ops end.

Lemma unknown_hash_fresh q h tx : wf q → IsExist_hash q h = false → hash_ tx = h → ∀ t, hash_fresh q (queued tx t).
Proof.
  intros Hw Hx Eh t i u Hi Eu. apply bool_decide_eq_false in Hx. destruct Hx. exists u. apply (wf_hash _ Hw). split; [|by exists i].
  by rewrite Eu, <- Eh.
Qed.

(** A transaction that is accepted is in the queue, and one that comes into the queue has
    passed the check. *)
Lemma OnTransaction_lemma G q env t : good q → env_ok env →
  ∃ q' err b, OnTransaction G q env t = Ok (q', err, b) ∧ good q' ∧
    (b = true → holds q' (queued (new_TransactionFrm env) t) ∧ ∃ source, admissible G env source ∧
       account_nonce_ q' !! tx_source_address (transaction env) = Some (GetAccountNonce source)) ∧
    (∀ u, holds q' u → holds q u ∨ u = queued (new_TransactionFrm env) t ∧ ∃ source, admissible G env source).
Proof.
  intros Hg He. unfold OnTransaction. destruct (IsExist_hash q _) eqn:Ex.
  { do 3 eexists. split; [reflexivity|]. split_and!; [done|done|by left]. }
  destruct (run_wp _ _ _ (check_verdict (λ _, False) G env He)) as (c & [valid n] & -> & Hv). unfold verdict in Hv. cbn [fst snd] in Hv. cbn [mbind res_bind].
  destruct valid; cbn [mbind res_bind].
  - destruct Hv as (source & Ha & ->).
    destruct (Import_lemma q (queued (new_TransactionFrm env) t) (GetAccountNonce source) 0 Hg) as ([[q' b] code] & -> & Hg' & H1 & H2 & H3 & _).
    { eapply unknown_hash_fresh; [apply Hg|exact Ex|done]. }
    cbn [mbind res_bind]. do 3 eexists. split; [reflexivity|]. split_and!; [done| |].
    + cbn [is_success]. intros ->%Z.eqb_eq. destruct b; [destruct (H1 eq_refl) as (K1 & _ & K3)|by destruct (H2 eq_refl)]. eauto.
    + intros u Hu. destruct (H3 u Hu) as [->|]; [right; eauto|by left].
  - destruct Hv as (tx & Etx & Hr). rewrite Etx. do 3 eexists. split; [reflexivity|]. split_and!; [done| |by left].
    cbn. by rewrite bool_decide_eq_true.
Qed.

(** The transactions of a queue are valid where they came in. *)
Definition from_ops (ops : list pool_op) (u : TxQueue.TransactionFrm) : Prop :=
  ∃ G env t source, PTransaction G env t ∈ ops ∧ u = queued (new_TransactionFrm env) t ∧ admissible G env source.

Lemma pool_exec_lemma q o : good q → (∀ G env t, o = PTransaction G env t → env_ok env) →
  ∃ q', pool_exec q o = Ok q' ∧ good q' ∧ ∀ u, holds q' u → holds q u ∨ from_ops [o] u.
Proof.
  intros Hg He. destruct o as [G env t|now|limit|set|set]; cbn [pool_exec].
  - destruct (OnTransaction_lemma G q env t Hg (He _ _ _ eq_refl)) as (q' & err & b & -> & Hg' & _ & Hh). exists q'. split_and!; [done|done|].
    intros u Hu. destruct (Hh u Hu) as [|(-> & source & Ha)]; [by left|right]. exists G, env, t, source. split_and!; [by left|done|done].
  - unfold CheckTimeoutAndDel. destruct (timeout_loop_good (expire now) (length (time_queue_ q)) q [] Hg) as (q' & -> & Hg' & Hh); [done|].
    exists q'. split_and!; [done|done|]. intros u Hu%Hh. tauto.
  - eexists. split; [done|]. split; [by apply TopTransaction_good|]. intros u Hu. left. unfold TopTransaction in Hu. by destruct (top_loop _ _ _ _ _ _ _ _ _ _).
  - destruct (RemoveTxs_set_good set false q 0 Hg) as (q' & r & -> & Hg' & Hh). exists q'. split_and!; [done|done|]. intros u Hu%Hh. tauto.
  - destruct (RemoveTxs_set_good set true q 0 Hg) as (q' & r & -> & Hg' & Hh). exists q'. split_and!; [done|done|]. intros u Hu%Hh. tauto.
Qed.

Lemma from_ops_mono ops ops' u : ops ⊆ ops' → from_ops ops u → from_ops ops' u.
Proof. intros Hs (G & env & t & source & Hin & H). exists G, env, t, source. split; [by apply Hs|done]. Qed.

Lemma pool_run_lemma ops : ∀ q, good q → (∀ G env t, PTransaction G env t ∈ ops → env_ok env) →
  ∃ q', pool_run q ops = Ok q' ∧ good q' ∧ ∀ u, holds q' u → holds q u ∨ from_ops ops u.
Proof.
  induction ops as [|o ops IH]; intros q Hg He; cbn [pool_run]; [exists q; split_and!; [done|done|by left]|].
  destruct (pool_exec_lemma q o Hg) as (q1 & -> & Hg1 & Hh1); [intros G env t ->; eapply He; by left|]. cbn [mbind res_bind].
  destruct (IH q1 Hg1) as (q' & -> & Hg' & Hh'); [intros G env t Hin; eapply He; by right|]. exists q'. split_and!; [done|done|].
  intros u [[|Hu]%Hh1|Hu]%Hh'; [by left|right; eapply from_ops_mono; [|exact Hu]; set_solver|right; eapply from_ops_mono; [|exact Hu]; set_solver].
Qed.

Lemma top_loop_members l limit : ∀ set i sz topic brk m e,
  e ∈ (top_loop EnvSize set_ByteSize l limit set i sz topic brk m).1 → e ∈ set ∨ ∃ j u, (j, u) ∈ l ∧ TxQueue.transaction_env_ u = e.
Proof.
  induction l as [|[j u] l IH]; intros set i sz topic brk m e; cbn [top_loop]; [by left|].
  assert (∀ set' i' sz' topic' brk' m', set' = set ∨ set' = set ++ [TxQueue.transaction_env_ u] →
    e ∈ (top_loop EnvSize set_ByteSize l limit set' i' sz' topic' brk' m').1 → e ∈ set ∨ ∃ j0 v, (j0, v) ∈ (j, u) :: l ∧ TxQueue.transaction_env_ v = e) as Hrec.
  { intros set' i' sz' topic' brk' m' Hset Hin. destruct (IH _ _ _ _ _ _ _ Hin) as [Hs|(j0 & v & Hv & Ev)].
    - destruct Hset as [->| ->]; [by left|]. apply elem_of_app in Hs as [|Hs]; [by left|]. apply list_elem_of_singleton in Hs as ->. right. exists j, u. split; [by left|done].
    - right. exists j0, v. split; [by right|done]. }
  destruct (limit <=? _); [by left|]. destruct (_ && _); [by left|]. destruct (brk !! _); [apply Hrec; by left|].
  destruct (topic !! _); [destruct (_ <? _)|destruct (_ <? _)]; apply Hrec; first [by left|by right].
Qed.

(** C23: What the pool holds.  From an empty pool, any sequence of transactions that come in,
    timers, proposals, dropped and committed transactions runs without a fault and keeps the
    queue consistent and within its limits.  Every transaction in it, and so every transaction
    that is proposed, passed the check when it came in: its account was there, the nonce is
    above the one of the account, it is for this chain, it is signed with the weight that the
    account requires, and the account had the fee it offers on top of its reserve. *)
Theorem pool_holds_checked l1 l2 ops : 0 ≤ l1 < 2 ^ 32 → 0 ≤ l2 < 2 ^ 32 → (∀ G env t, PTransaction G env t ∈ ops → env_ok env) →
  ∃ q, pool_run (new_TransactionQueue l1 l2) ops = Ok q ∧ wf q ∧ bounded q ∧ Size q ≤ queue_limit_ q ∧
    (∀ u, holds q u → from_ops ops u) ∧
    (∀ limit e, e ∈ (TopTransaction EnvSize set_ByteSize q limit).2 → ∃ u, from_ops ops u ∧ TxQueue.transaction_env_ u = e).
Proof.
  intros H1 H2 He. destruct (pool_run_lemma ops (new_TransactionQueue l1 l2) (new_good _ _ H1 H2) He) as (q & Hr & (Hw & Hb & Hs) & Hh).
  assert (∀ u, holds q u → from_ops ops u) as Hall by (intros u [[i Hi]|]%Hh; [by apply not_elem_of_nil in Hi|done]).
  exists q. split_and!; [done|done|done|done|done|]. intros limit e Hin. unfold TopTransaction in Hin.
  destruct (top_loop_members (queue_ q) limit [] 0 0 ∅ ∅ (account_nonce_ q) e) as [Hn|(i & u & Hi & Eu)].
  - by destruct (top_loop _ _ _ _ _ _ _ _ _ _).
  - by apply not_elem_of_nil in Hn.
  - exists u. split; [|done]. apply Hall. by exists i.
Qed.
End pool.

(** ** Two transactions *)

Definition pool_ops : list pool_op :=
  [PTransaction stale_ledger (demo_pay (str "b") 1 (str "d") 500) 7; PTransaction stale_ledger (demo_pay (str "a") 1 (str "d") 10) 8; PPropose 10;
   PTransaction stale_ledger (demo_pay (str "a") 1 (str "d") 10) 9; PCommit [TxQueue.mkEnv (str "b") 1 1 []]; PTimer 20].

Local Abbreviation run_pool := (@pool_run (demo_host no_script) linear_multiset (λ _, []) (λ _, 100) (λ _, 100)).

(** The first is accepted, the second copy of the other is not. *)
Example pool_accepts : ∃ q, @OnTransaction (demo_host no_script) linear_multiset (λ _, []) stale_ledger (new_TransactionQueue 10 5)
  (demo_pay (str "b") 1 (str "d") 500) 7 = Ok (q, inr 0, true).
Proof. eexists. vm_compute. reflexivity. Qed.

Lemma pool_holds_checked_witness : ∃ q, run_pool (new_TransactionQueue 10 5) pool_ops = Ok q ∧ Size q = 1 ∧
  ∀ u, holds q u → @from_ops (demo_host no_script) (λ _, []) pool_ops u.
Proof.
  destruct (@pool_holds_checked (demo_host no_script) linear_multiset (λ _, []) (λ _, 100) (λ _, 100) 10 5 pool_ops) as (q & E & _ & _ & _ & H & _); [lia|lia| |].
  - intros G env t Hin. unfold pool_ops in Hin. rewrite !elem_of_cons, elem_of_nil in Hin.
    destruct Hin as [[= -> -> ->]|[[= -> -> ->]|[|[[= -> -> ->]|[|[|[]]]]]]]; try done; unfold env_ok; cbn; lia.
  - exists q. split; [exact E|]. split; [|exact H]. assert ((λ q, Size q) <$> run_pool (new_TransactionQueue 10 5) pool_ops = Ok 1) as Es by (vm_compute; reflexivity).
    rewrite E in Es. by injection Es.
Defined.
