(* ===== verification/Timer.v ===== *)
(** * One-shot timers (src/src/utils/timer.cpp)

    The timers of the consensus and of the glue are kept by the time at which they expire; the
    main loop executes those that have expired.  What a function does when it is executed is an
    argument, as far as it adds and deletes timers. *)
From stdpp Require Import base list sorting.
From Stdlib Require Import ZArith Lia.
From S2P Require Import Prelude SafeInt.
Local Open Scope Z_scope.

(** [func_] names the function. *)
Record TimerElement := mkElement { el_id : Z; el_data : Z; expire_time_ : Z; func_ : nat }.

Definition GetIndex (e : TimerElement) : Z := el_id e.

(** [time_ele_] is a multimap by [expire_time_]. *)
Record Timer := mkTimer {
  time_ele_ : list TimerElement; exeute_list_ : list TimerElement; global_element_id_ : Z; last_check_time_ : Z }.

Definition check_interval_ : Z := 100 * 1000.
Definition new_Timer : Timer := mkTimer [] [] 1 0.

(** [std::multimap::insert]: after the elements with the same key. *)
Fixpoint insert_timer (e : TimerElement) (l : list TimerElement) : list TimerElement :=
  match l with
  | [] => [e]
  | x :: l => if expire_time_ e <? expire_time_ x then e :: x :: l else x :: insert_timer e l
  end.

(** [now] is the clock. *)
Definition AddTimer (t : Timer) (now micro_time data : Z) (func : nat) : Timer * Z :=
  let e := mkElement (global_element_id_ t) data (i64 (now + micro_time)) func in
  (mkTimer (insert_timer e (time_ele_ t)) (exeute_list_ t) (i64 (global_element_id_ t + 1)) (last_check_time_ t), GetIndex e).

Fixpoint erase_timer (index : Z) (l : list TimerElement) : option (list TimerElement) :=
  match l with
  | [] => None
  | e :: l => if GetIndex e =? index then Some l else cons e <$> erase_timer index l
  end.

Definition DelTimer (t : Timer) (index : Z) : Timer * bool :=
  match erase_timer index (time_ele_ t) with
  | Some l => (mkTimer l (exeute_list_ t) (global_element_id_ t) (last_check_time_ t), true)
  | None => (t, false)
  end.

Fixpoint expire_timers (l : list TimerElement) (cur_time : Z) : list TimerElement * list TimerElement :=
  match l with
  | [] => ([], [])
  | e :: l =>
      if cur_time <? expire_time_ e then ([], e :: l)
      else let '(expired, rest) := expire_timers l cur_time in (e :: expired, rest)
  end.

Definition CheckExpire (t : Timer) (cur_time : Z) : Timer :=
  let '(expired, rest) := expire_timers (time_ele_ t) cur_time in
  mkTimer rest (exeute_list_ t ++ expired) (global_element_id_ t) (last_check_time_ t).

(** What a function does to the timers. *)
Inductive timer_call :=
  | CAdd (now micro_time data : Z) (func : nat)
  | CDel (index : Z).

Definition do_call (t : Timer) (c : timer_call) : Timer :=
  match c with
  | CAdd now micro data func => (AddTimer t now micro data func).1
  | CDel index => (DelTimer t index).1
  end.

(** The functions run one after the other; [behave] says what each does. *)
Definition Excute (behave : TimerElement → list timer_call) (t : Timer) (e : TimerElement) : Timer := foldl do_call t (behave e).

(** The timers, and those that were executed. *)
Definition OnTimer (t : Timer) (current_time : Z) (behave : TimerElement → list timer_call) : Timer * list TimerElement :=
  if last_check_time_ t + check_interval_ <? current_time then
    let t := CheckExpire t current_time in
    let l := exeute_list_ t in
    let t := foldl (Excute behave) t l in
    (mkTimer (time_ele_ t) [] (global_element_id_ t) current_time, l)
  else (t, []).

(** ** The invariant *)

Definition ids (l : list TimerElement) : list Z := GetIndex <$> l.
Definition earlier (x y : TimerElement) : Prop := expire_time_ x ≤ expire_time_ y.

(** [fired] are the timers that were executed. *)
Record timer_ok (fired : list TimerElement) (t : Timer) : Prop := {
  ti_sorted : StronglySorted earlier (time_ele_ t);
  ti_once : NoDup (ids (fired ++ exeute_list_ t ++ time_ele_ t));
  ti_id e : e ∈ fired ++ exeute_list_ t ++ time_ele_ t → 0 < GetIndex e < global_element_id_ t;
  ti_next : 0 < global_element_id_ t }.

Lemma insert_timer_perm e l : insert_timer e l ≡ₚ e :: l.
Proof. induction l as [|x l IH]; cbn; [done|]. destruct (_ <? _); [done|]. rewrite IH. apply Permutation_swap. Qed.

Lemma insert_timer_sorted e l : StronglySorted earlier l → StronglySorted earlier (insert_timer e l).
Proof.
  induction 1 as [|x l Hl IH Hx]; cbn; [repeat constructor|]. destruct (Z.ltb_spec (expire_time_ e) (expire_time_ x)) as [Hlt|Hge].
  - constructor; [by constructor|]. constructor; [unfold earlier; lia|]. eapply Forall_impl; [exact Hx|]. unfold earlier. lia.
  - constructor; [done|]. rewrite insert_timer_perm. constructor; [done|done].
Qed.

Lemma erase_timer_spec index l l' : erase_timer index l = Some l' → ∃ e, GetIndex e = index ∧ l ≡ₚ e :: l' ∧ l' `sublist_of` l.
Proof.
  revert l'. induction l as [|x l IH]; cbn; intros l' E; [done|]. destruct (Z.eqb_spec (GetIndex x) index) as [Ei|].
  { injection E as <-. exists x. split_and!; [done|done|by constructor]. }
  apply fmap_Some in E as (k & Ek & ->). destruct (IH k Ek) as (e & He & Hp & Hs). exists e. split_and!; [done| |by constructor].
  rewrite Hp. apply Permutation_swap.
Qed.

Lemma sublist_sorted {A} (R : A → A → Prop) l l' : l' `sublist_of` l → StronglySorted R l → StronglySorted R l'.
Proof.
  induction 1 as [|x l1 l2 Hs IH|x l1 l2 Hs IH]; intros Hl; [done|..]; apply StronglySorted_inv in Hl as [Hl Hx].
  - constructor; [by apply IH|]. apply list.Forall_forall. intros y Hy. rewrite list.Forall_forall in Hx. apply Hx. by eapply elem_of_sublist.
  - by apply IH.
Qed.

Lemma call_ok fired t c : timer_ok fired t → global_element_id_ t + 1 < 2 ^ 63 → timer_ok fired (do_call t c).
Proof.
  intros [T1 T2 T3 T4] Hroom. destruct c as [now micro data func|index]; cbn [do_call].
  - unfold AddTimer. cbn [fst]. set (e := mkElement _ _ _ _).
    assert (fired ++ exeute_list_ t ++ insert_timer e (time_ele_ t) ≡ₚ e :: fired ++ exeute_list_ t ++ time_ele_ t) as Hp.
    { rewrite insert_timer_perm. rewrite !Permutation_middle. done. }
    split; cbn [time_ele_ exeute_list_ global_element_id_].
    + by apply insert_timer_sorted.
    + unfold ids. rewrite Hp. cbn. constructor; [|done]. intros (x & Ex & Hx)%list_elem_of_fmap. apply T3 in Hx. cbn in Ex. rewrite Ex in Hx. lia.
    + intros x. rewrite Hp, i64_small by lia. intros [->|Hx]%elem_of_cons; [cbn; lia|]. apply T3 in Hx. lia.
    + rewrite i64_small; lia.
  - unfold DelTimer. destruct (erase_timer index (time_ele_ t)) as [l|] eqn:E; [|done]. destruct (erase_timer_spec _ _ _ E) as (e & _ & Hp & Hs).
    cbn [fst]. split; cbn [time_ele_ exeute_list_ global_element_id_]; [by eapply sublist_sorted| | |done].
    + eapply sublist_NoDup; [exact T2|]. unfold ids. apply fmap_sublist. by repeat apply sublist_app.
    + intros x Hx. apply T3. eapply elem_of_sublist; [exact Hx|]. by repeat apply sublist_app.
Qed.

(** The room that the calls of a function need. *)
Lemma calls_ok fired cs : ∀ t, timer_ok fired t → global_element_id_ t + Z.of_nat (length cs) < 2 ^ 63 →
  timer_ok fired (foldl do_call t cs) ∧ global_element_id_ (foldl do_call t cs) ≤ global_element_id_ t + Z.of_nat (length cs) ∧
  exeute_list_ (foldl do_call t cs) = exeute_list_ t.
Proof.
  induction cs as [|c cs IH]; intros t Ht Hroom; cbn [foldl length] in *; [split_and!; [done|lia|done]|].
  assert (global_element_id_ (do_call t c) ≤ global_element_id_ t + 1 ∧ exeute_list_ (do_call t c) = exeute_list_ t) as [Hg He].
  { pose proof (ti_next _ _ Ht). destruct c as [now micro data func|index]; cbn; [rewrite i64_small by lia; split; [lia|done]|].
    unfold DelTimer. destruct (erase_timer _ _); cbn; split; done || lia. }
  destruct (IH (do_call t c)) as (H1 & H2 & H3); [apply call_ok; [done|lia]|lia|]. split_and!; [done|lia|by rewrite H3].
Qed.

(** The calls of all functions of a check. *)
Definition calls_of (behave : TimerElement → list timer_call) (l : list TimerElement) : list timer_call := l ≫= behave.

Lemma excute_calls behave l : ∀ t, foldl (Excute behave) t l = foldl do_call t (calls_of behave l).
Proof. induction l as [|e l IH]; intros t; cbn; [done|]. rewrite foldl_app. apply IH. Qed.

Lemma expire_timers_spec l cur : StronglySorted earlier l →
  let '(expired, rest) := expire_timers l cur in l = expired ++ rest ∧ expired = filter (λ e, expire_time_ e ≤ cur) l ∧
    (∀ e, e ∈ rest → cur < expire_time_ e).
Proof.
  induction 1 as [|e l Hl IH He]; cbn [expire_timers]; [split_and!; [done|done|by intros e ?%elem_of_nil]|]. destruct (Z.ltb_spec cur (expire_time_ e)) as [Hlt|Hge].
  - assert (∀ x, x ∈ e :: l → cur < expire_time_ x) as Hall.
    { intros x [->|Hx]%elem_of_cons; [done|]. rewrite list.Forall_forall in He. specialize (He x Hx). unfold earlier in He. lia. }
    split_and!; [done| |done]. symmetry. apply elem_of_nil_inv. intros x [Hx Hin%Hall]%list_elem_of_filter. lia.
  - destruct (expire_timers l cur) as [expired rest]. destruct IH as (-> & E2 & H3). split_and!; [done| |done]. rewrite filter_cons_True by lia. by rewrite <- E2.
Qed.

(** A check executes the timers that are due, in the order of their times. *)
Lemma OnTimer_step fired t cur behave : timer_ok fired t → exeute_list_ t = [] → last_check_time_ t + check_interval_ < cur →
  global_element_id_ t + Z.of_nat (length (calls_of behave (filter (λ e, expire_time_ e ≤ cur) (time_ele_ t)))) < 2 ^ 63 →
  let '(t', l) := OnTimer t cur behave in
  l = filter (λ e, expire_time_ e ≤ cur) (time_ele_ t) ∧ timer_ok (fired ++ l) t' ∧ exeute_list_ t' = [] ∧
  time_ele_ t' = time_ele_ (foldl do_call (CheckExpire t cur) (calls_of behave l)) ∧ last_check_time_ t' = cur.
Proof.
  intros Ht He Hcur Hroom. unfold OnTimer. rewrite (proj2 (Z.ltb_lt _ _) Hcur). pose proof (expire_timers_spec _ cur (ti_sorted _ _ Ht)) as Hx.
  unfold CheckExpire. destruct (expire_timers (time_ele_ t) cur) as [expired rest]. destruct Hx as (E1 & E2 & _). rewrite He. cbn [exeute_list_ app].
  rewrite <- E2 in Hroom |- *. rewrite excute_calls. set (t1 := mkTimer rest expired _ _).
  assert (timer_ok fired t1) as Ht1.
  { destruct Ht as [T1 T2 T3 T4]. rewrite He, E1 in *. split; cbn; [|done|done|done]. eapply sublist_sorted; [|exact T1]. by apply sublist_inserts_l. }
  destruct (calls_ok fired (calls_of behave expired) t1 Ht1 Hroom) as (H1 & H2 & H3). split_and!; try done.
  destruct H1 as [T1 T2 T3 T4]. rewrite H3 in T2, T3. split; cbn; [done|by rewrite <- app_assoc|by rewrite <- app_assoc|done].
Qed.

(** ** Runs *)

Inductive timer_op :=
  | TCall (c : timer_call)
  | TTick (current_time : Z) (behave : TimerElement → list timer_call).

(** The timers that an operation executes, with the time. *)
Definition timer_exec (t : Timer) (o : timer_op) : Timer * list (Z * TimerElement) :=
  match o with
  | TCall c => (do_call t c, [])
  | TTick cur behave => let '(t, l) := OnTimer t cur behave in (t, pair cur <$> l)
  end.

Fixpoint timer_run (t : Timer) (ops : list timer_op) : Timer * list (Z * TimerElement) :=
  match ops with
  | [] => (t, [])
  | o :: ops => let '(t, ev) := timer_exec t o in let '(t, ev') := timer_run t ops in (t, ev ++ ev')
  end.

(** The identifiers do not run out: each operation, with the functions it executes, leaves room. *)
Definition room (t : Timer) (o : timer_op) : Prop :=
  match o with
  | TCall _ => global_element_id_ t + 1 < 2 ^ 63
  | TTick cur behave => global_element_id_ t + Z.of_nat (length (calls_of behave (filter (λ e, expire_time_ e ≤ cur) (time_ele_ t)))) < 2 ^ 63
  end.

Fixpoint roomy (t : Timer) (ops : list timer_op) : Prop :=
  match ops with [] => True | o :: ops => room t o ∧ roomy (timer_exec t o).1 ops end.

(** Nothing deletes the timer [i]: no caller, and no function that is executed. *)
Definition spares (i : Z) (cs : list timer_call) : Prop := CDel i ∉ cs.
Definition op_spares (i : Z) (o : timer_op) : Prop :=
  match o with TCall c => spares i [c] | TTick _ behave => ∀ e, spares i (behave e) end.

Lemma exec_ok fired t o : timer_ok fired t → exeute_list_ t = [] → room t o →
  let '(t', ev) := timer_exec t o in timer_ok (fired ++ ev.*2) t' ∧ exeute_list_ t' = [] ∧ ∀ x, x ∈ ev → expire_time_ x.2 ≤ x.1.
Proof.
  intros Ht He Hr. destruct o as [c|cur behave]; cbn [timer_exec].
  - rewrite app_nil_r. split_and!; [by apply call_ok| |by intros x ?%elem_of_nil]. rewrite <- He.
    destruct c; cbn; [done|]. unfold DelTimer. by destruct (erase_timer _ _).
  - destruct (Z.ltb_spec (last_check_time_ t + check_interval_) cur) as [Hlt|Hge].
    + pose proof (OnTimer_step fired t cur behave Ht He Hlt Hr) as Ho. destruct (OnTimer t cur behave) as [t' l]. destruct Ho as (El & Ht' & He' & _).
      rewrite <- list_fmap_compose. cbn. rewrite list_fmap_id. split_and!; [done|done|]. intros x (e & -> & Hin)%list_elem_of_fmap. rewrite El in Hin.
      by apply list_elem_of_filter in Hin as [? _].
    + unfold OnTimer. rewrite (proj2 (Z.ltb_ge _ _) Hge). cbn. rewrite app_nil_r. split_and!; [done|done|by intros x ?%elem_of_nil].
Qed.

Lemma run_ok ops : ∀ fired t, timer_ok fired t → exeute_list_ t = [] → roomy t ops →
  let '(t', ev) := timer_run t ops in timer_ok (fired ++ ev.*2) t' ∧ exeute_list_ t' = [] ∧ ∀ x, x ∈ ev → expire_time_ x.2 ≤ x.1.
Proof.
  induction ops as [|o ops IH]; intros fired t Ht He Hr; cbn [timer_run].
  { rewrite app_nil_r. split_and!; [done|done|by intros x ?%elem_of_nil]. }
  destruct Hr as [Hr Hrs]. pose proof (exec_ok fired t o Ht He Hr) as H1. destruct (timer_exec t o) as [t1 ev]. destruct H1 as (H1 & H2 & H3).
  specialize (IH (fired ++ ev.*2) t1 H1 H2 Hrs). destruct (timer_run t1 ops) as [t2 ev']. destruct IH as (I1 & I2 & I3).
  rewrite fmap_app, app_assoc. split_and!; [done|done|]. intros x [Hx|Hx]%elem_of_app; auto.
Qed.

(** A timer that nothing deletes stays until it is executed. *)
Lemma erase_other i e l l' : erase_timer i l = Some l' → GetIndex e ≠ i → e ∈ l → e ∈ l'.
Proof.
  revert l'. induction l as [|x l IH]; cbn; intros l' E Hi Hin; [done|]. destruct (Z.eqb_spec (GetIndex x) i) as [Ex|].
  { injection E as <-. apply elem_of_cons in Hin as [->|]; [done|done]. }
  apply fmap_Some in E as (k & Ek & ->). apply elem_of_cons in Hin as [->|Hin]; [by left|right; by eapply IH].
Qed.

Lemma calls_spare e cs : ∀ t, spares (GetIndex e) cs → e ∈ time_ele_ t → e ∈ time_ele_ (foldl do_call t cs).
Proof.
  induction cs as [|c cs IH]; intros t Hs Hin; cbn [foldl]; [done|]. apply not_elem_of_cons in Hs as [Hc Hs]. apply IH; [done|].
  destruct c as [now micro data func|i]; cbn [do_call].
  - cbn. rewrite insert_timer_perm. by right.
  - unfold DelTimer. destruct (erase_timer i _) as [l|] eqn:E; [|done]. cbn. eapply erase_other; [exact E|congruence|done].
Qed.

Lemma exec_spares fired e t o : timer_ok fired t → exeute_list_ t = [] → room t o → op_spares (GetIndex e) o → e ∈ time_ele_ t →
  e ∈ time_ele_ (timer_exec t o).1 ∨ e ∈ (timer_exec t o).2.*2.
Proof.
  intros Ht He Hr Hs Hin. destruct o as [c|cur behave]; cbn [timer_exec]; [left; by apply (calls_spare e [c])|].
  destruct (Z.ltb_spec (last_check_time_ t + check_interval_) cur) as [Hlt|Hge].
  2: { unfold OnTimer. rewrite (proj2 (Z.ltb_ge _ _) Hge). by left. }
  pose proof (OnTimer_step fired t cur behave Ht He Hlt Hr) as Ho. destruct (OnTimer t cur behave) as [t' l]. destruct Ho as (El & _ & _ & Et & _). cbn [fst snd].
  destruct (decide (expire_time_ e ≤ cur)) as [Hd|Hd].
  - right. rewrite <- list_fmap_compose. cbn. rewrite list_fmap_id, El. by apply list_elem_of_filter.
  - left. rewrite Et. apply calls_spare.
    + intros (x & Hx & _)%list_elem_of_bind. by apply (Hs x).
    + unfold CheckExpire. pose proof (expire_timers_spec _ cur (ti_sorted _ _ Ht)) as Hx. destruct (expire_timers _ cur) as [expired rest]. cbn.
      destruct Hx as (E1 & E2 & _). rewrite E1 in Hin. apply elem_of_app in Hin as [Hin|]; [|done]. rewrite E2 in Hin. by apply list_elem_of_filter in Hin as [? _].
Qed.

Lemma run_spares ops e : ∀ fired t, timer_ok fired t → exeute_list_ t = [] → roomy t ops → Forall (op_spares (GetIndex e)) ops → e ∈ time_ele_ t →
  e ∈ time_ele_ (timer_run t ops).1 ∨ e ∈ (timer_run t ops).2.*2.
Proof.
  induction ops as [|o ops IH]; intros fired t Ht He Hr Hs Hin; cbn [timer_run]; [by left|]. destruct Hr as [Hr Hrs]. apply list.Forall_cons in Hs as [Ho Hs].
  pose proof (exec_ok fired t o Ht He Hr) as H1. pose proof (exec_spares fired e t o Ht He Hr Ho Hin) as H2.
  destruct (timer_exec t o) as [t1 ev]. destruct H1 as (H1 & H3 & _). cbn [fst snd] in *.
  destruct H2 as [H2|H2]; [|right; destruct (timer_run t1 ops); cbn; rewrite fmap_app; apply elem_of_app; by left].
  specialize (IH (fired ++ ev.*2) t1 H1 H3 Hrs Hs H2). destruct (timer_run t1 ops) as [t2 ev']. cbn [fst snd] in *.
  destruct IH as [|Hev]; [by left|right]. rewrite fmap_app. apply elem_of_app. by right.
Qed.

Lemma timer_run_app ops ops' : ∀ t, timer_run t (ops ++ ops') =
  let '(t1, ev1) := timer_run t ops in let '(t2, ev2) := timer_run t1 ops' in (t2, ev1 ++ ev2).
Proof.
  induction ops as [|o ops IH]; intros t; cbn [timer_run app]; [by destruct (timer_run t ops')|]. destruct (timer_exec t o) as [t1 ev]. rewrite IH.
  destruct (timer_run t1 ops) as [t2 ev1]. destruct (timer_run t2 ops') as [t3 ev2]. by rewrite app_assoc.
Qed.

Lemma roomy_app ops ops' : ∀ t, roomy t (ops ++ ops') ↔ roomy t ops ∧ roomy (timer_run t ops).1 ops'.
Proof.
  induction ops as [|o ops IH]; intros t; cbn [app roomy timer_run]; [tauto|]. rewrite IH. destruct (timer_exec t o) as [t1 ev]. cbn [fst].
  destruct (timer_run t1 ops). cbn. tauto.
Qed.

Lemma new_Timer_ok : timer_ok [] new_Timer.
Proof. split; cbn; [constructor|constructor|by intros e ?%elem_of_nil|lia]. Qed.

(** C24: Timers fire once.  In any sequence of added and deleted timers and of checks, whatever
    the functions that are executed add and delete themselves, no timer is executed twice and
    none before its time.  A timer that is waiting and that nobody deletes has been executed by
    the end of the first check that comes at or after its time. *)
Theorem timer_fires_once before after cur behave e :
  let run := timer_run new_Timer (before ++ after ++ [TTick cur behave]) in
  roomy new_Timer (before ++ after ++ [TTick cur behave]) →
  NoDup (ids run.2.*2) ∧ (∀ t x, (t, x) ∈ run.2 → expire_time_ x ≤ t) ∧
  (e ∈ time_ele_ (timer_run new_Timer before).1 → Forall (op_spares (GetIndex e)) after → expire_time_ e ≤ cur →
   last_check_time_ (timer_run new_Timer (before ++ after)).1 + check_interval_ < cur → ∃ t, (t, e) ∈ run.2).
Proof.
  cbv zeta. intros Hr. pose proof (run_ok _ [] new_Timer new_Timer_ok eq_refl Hr) as Hall.
  destruct (timer_run new_Timer (before ++ after ++ [TTick cur behave])) as [t' ev] eqn:E. destruct Hall as (H1 & _ & H3). cbn [fst snd]. split_and!.
  - pose proof (ti_once _ _ H1) as Hd. unfold ids in Hd. rewrite fmap_app in Hd. by apply NoDup_app in Hd as [Hd _].
  - intros t x Hx. by apply (H3 (t, x)).
  - intros Hin Hs Hdue Hcheck. rewrite app_assoc in E, Hr. rewrite timer_run_app in E. apply roomy_app in Hr as [Hr1 [Hr2 _]].
    pose proof (proj1 (roomy_app before after new_Timer) Hr1) as [Hr3 Hr4].
    pose proof (run_ok _ [] new_Timer new_Timer_ok eq_refl Hr1) as Ho. pose proof (run_ok _ [] new_Timer new_Timer_ok eq_refl Hr3) as Hb.
    destruct (timer_run new_Timer (before ++ after)) as [t2 ev2] eqn:E2. destruct Ho as (O1 & O2 & _). cbn [fst] in *.
    rewrite timer_run_app in E2. destruct (timer_run new_Timer before) as [t1 ev1]. destruct Hb as (B1 & B2 & _). cbn [fst] in *.
    pose proof (run_spares after e _ t1 B1 B2 Hr4 Hs Hin) as Hsp. destruct (timer_run t1 after) as [t2' ev2']. injection E2 as -> <-. cbn [fst snd] in Hsp.
    pose proof (OnTimer_step _ t2 cur behave O1 O2 Hcheck Hr2) as Ht. cbn in E. destruct (OnTimer t2 cur behave) as [t3 l]. destruct Ht as (El & _).
    injection E as _ <-. destruct Hsp as [Hsp|Hsp].
    + exists cur. apply elem_of_app. right. rewrite app_nil_r. apply list_elem_of_fmap_2. rewrite El. by apply list_elem_of_filter.
    + apply list_elem_of_fmap in Hsp as ([t x] & -> & Hx). exists t. apply elem_of_app. left. apply elem_of_app. by right.
Qed.

(** ** A timer that is deleted in the check that executes it *)

Definition two_timers : Timer := (AddTimer (AddTimer new_Timer 0 1000000 0 0).1 0 1000000 0 1).1.

(** Deleted too late.  When two timers are due at the same check and the function of the first
    deletes the second, [DelTimer] does not find it, since it is already on the list of those
    to execute, and it is executed. *)
Theorem deleted_timer_fires :
  let '(t, l) := OnTimer two_timers 2000000 (λ e, if GetIndex e =? 1 then [CDel 2] else []) in
  ids l = [1; 2] ∧ (DelTimer (CheckExpire two_timers 2000000) 2).2 = false.
Proof. vm_compute. done. Qed.

Definition demo_before : list timer_op := [TCall (CAdd 0 1000000 0 0); TCall (CAdd 0 500000 0 1)].
Definition demo_behave (e : TimerElement) : list timer_call := if Nat.eqb (func_ e) 1 then [CAdd 700000 500000 0 1] else [].
Definition demo_after : list timer_op := [TTick 700000 demo_behave; TTick 750000 demo_behave].

Lemma timer_fires_once_witness :
  let run := timer_run new_Timer (demo_before ++ demo_after ++ [TTick 1300000 demo_behave]) in
  ids run.2.*2 = [2; 1; 3] ∧ NoDup (ids run.2.*2) ∧ ∃ t, (t, mkElement 1 0 1000000 0) ∈ run.2.
Proof.
  destruct (timer_fires_once demo_before demo_after 1300000 demo_behave (mkElement 1 0 1000000 0)) as (H1 & _ & H3).
  - vm_compute. repeat split.
  - split; [vm_compute; reflexivity|]. split; [exact H1|]. apply H3.
    + vm_compute. right. left.
    + repeat constructor; intros e; unfold spares, demo_behave; destruct (Nat.eqb _ _); intros Hin; [apply list_elem_of_singleton in Hin; done|by apply elem_of_nil in Hin| |];
      [apply list_elem_of_singleton in Hin; done|by apply elem_of_nil in Hin].
    + vm_compute. discriminate.
    + vm_compute. reflexivity.
Defined.
